(* ===== verification/_CoqProject ===== *)
-Q . S2P
Prelude.v
BatchProtocol.v
CsvImport.v
AccountMigration.v
TicketWorker.v
CustomerEngine.v
CustomerService.v
GraphLib.v
AbuseCluster.v
AbuseFixture.v
AbuseProofs.v
AbuseTheorems.v
Recommendation.v
RecommendationProofs.v
DocumentWorkflow.v
DocumentProofs.v
OrderHistory.v
OrderHistoryProofs.v
Moderation.v
ModerationProofs.v
TextMasking.v
TextMaskingProofs.v
JwtLib.v
JwtModel.v
IdJwtBoundary.v
TokenRefresh.v
TokenRefreshProofs.v
MoneyLib.v
MoneyModel.v
CheckoutGuard.v
CheckoutProofs.v
InvoiceRules.v
InvoiceProofs.v
MoneyPricing.v
MoneyPricingProofs.v
ExchangePricing.v
ExchangeProofs.v
StateMachine.v
PaymentAuth.v
PaymentProofs.v
Threads.v
OrderLifecycle.v
OrderLifecycleProofs.v
WorkReport.v
ReportTree.v
OrderFulfillment.v
OrderFulfillmentProofs.v
CompensationWorkflow.v
CompensationProofs.v
OperationsReport.v
OperationsProofs.v
SqlTx.v
SqlModel.v
SqlKit.v
OrderPlacement.v
OrderPlacementProofs.v
OrderService.v
OrderServiceProofs.v
OrderCrud.v
OrderCrudProofs.v
OrderWorkflow.v
OrderWorkflowProofs.v
OrderWorkflowModel.v
OrderWorkflowTheorems.v
OrderReads.v
OrderSchema.v
OrderSchemaProofs.v
OrderApi.v
OrderApiProofs.v
OrderApiTheorems.v
AuditQuery.v
AuditQueryProofs.v
CatalogRepo.v
CatalogRepoProofs.v
TaskQueue.v
TaskQueueProofs.v
ParallelWork.v
FulfillmentRunner.v
FulfillmentRunnerProofs.v
