(* ===== verification/Prelude.v ===== *)
(** A verification library for bluetape-go-workshop.

    The workshop is a collection of example programs in Go, each under
    [src/examples/<example>/internal/<package>]. This library models the packages whose logic is the
    program's own, and takes the libraries they call (bluetape-go's batch, graph, audit, leader and
    textsearch packages, the AWS SDK, gin) as parameters: type classes of operations, with the
    documented behaviour a theorem relies on as named laws, and a concrete lawful instance that the
    witnesses run. Go's standard library is modelled where the packages use it.

    * How Go is modelled (this file)

    A method is a function of a context and a receiver state, [GoM S A]: it ends in a value, an error
    or a panic, and keeps the writes made before it. A context is what its holder can observe of it: how
    many polls of [ctx.Err()] still return nil and what they return afterwards; theorems quantify over
    every context, so over every moment of cancellation. Errors are a tree of sentinels, [fmt.Errorf]
    wrappings and joins, with [errors.Is] and [Error()] as functions. An [int] is a Z with the
    wrap-around of 64 bits written out; float64 values are IEEE binary64 values; strings are byte
    strings, with UTF-8 decoding, TrimSpace, case folding and JSON quoting as functions (tables above
    ASCII are a parameter); a map is a [gmap], and where the code ranges over it, the order is a
    parameter ([MapRange]). A nil pointer, map or interface is [None]. Packages that lock a mutex for
    the whole of an operation have it modelled as one atomic step, so a run is a sequence of operations
    in any order. The file also holds the shared lemmas: inversion of [bind], relational reasoning on
    methods ([moves], [polling]), sorting with a Go [less] function, insert-once stores, and hints.

    * The components

    - [BatchProtocol]: the contract of the batch engine the chunked importers run under (open, restore,
      read, process, write, checkpoint, retry and skip), as an interface of operations and a relation
      of the runs an engine may make; proved once against the interface and instantiated by the
      clients below.
    - [CsvImport] (chunked-csv-import-checkpoint, importer.go): reader, processor, sink and writer of
      the CSV import, RunImport and RunDemo. Restarts neither lose nor double a row.
    - [AccountMigration] (account-migration-checkpoint-restart, migration.go): reader, processor,
      target store, recording checkpoint store. Migrated accounts are those behind the checkpoint.
    - [TicketWorker] (retry-dead-letter-batch-worker, worker.go): every ticket is delivered or buried
      in the dead-letter store, exactly once.
    - [CustomerEngine] and [CustomerService] (customer-migration-batch-integration): the batch with
      its crash injection and rollback, and the service, scheduler and HTTP handlers around it: at
      most one run at a time, leadership given back, every response of a start.
    - [GraphLib], [AbuseCluster], [AbuseFixture], [AbuseProofs], [AbuseTheorems] (graph-abuse-cluster):
      the interface of the graph library; loading, breadth-first components, evidence and report; the
      fixture, its store and workflow; clusters are the connected components of users, whatever the
      order of the input and of Go's maps.
    - [Recommendation], [RecommendationProofs] (graph-recommendation): the indexed graph and the two
      rankings, against their specification.
    - [DocumentWorkflow], [DocumentProofs] (s3-sqs-dynamodb-document-workflow, workflow.go): Submit and
      ProcessOnce over oracles for the AWS clients, whose answers may depend on every call made before.
      A message is deleted only after terminal work; keys separate documents, up to the dot segments a
      finding describes; a submitted event is accepted by the worker.
    - [OrderHistory], [OrderHistoryProofs] (audit-order-history): commands that append an audit entry
      before the current state changes. The log explains the state; the lifecycle is a state machine;
      over a repository that keeps its documented contract, open orders with room for two revisions ship.
    - [Moderation], [ModerationProofs] (gin-content-moderation-workflow, service.go and model.go):
      creation, routing, moderation and cursor search. Pages enumerate the records with every word and
      value asked for; stored records are well formed and bounded; created content is found again.
    - [TextMasking], [TextMaskingProofs] (text-moderation-masking, service.go): masking equals a byte by
      byte reference and never slices out of range; reviews report what the allowlist leaves.
    - [JwtLib], [JwtModel]: the interface of the jwt and id packages with the laws of signed tokens, the
      scope and bearer helpers the token examples repeat, and a lawful implementation for evaluations. A
      clock is a function of the instant it is read at; the instants of the readings are a parameter
      ([Timeline]), so theorems hold for every passing of time between and inside operations.
    - [IdJwtBoundary] (id-jwt-boundary, service.go): no order without a verified token, and a refusal
      for each thing a request may lack; issued tokens place orders exactly when role and scope permit.
    - [TokenRefresh], [TokenRefreshProofs] (token-refresh-claims, service.go): access and refresh tokens
      do not stand in for each other; issued tokens validate exactly when their claims permit, for
      exactly their lifetime; what a refresh grants whatever the session was issued with.
    - [MoneyLib], [MoneyModel]: the interface of the money package with the laws of exact decimals and of
      rounding to the minor unit, the formatting of amounts and the calls the pricing examples share, with
      the lemma that a shown amount reads back as the number it shows; a lawful decimal implementation.
    - [CheckoutGuard], [CheckoutProofs] (checkout-guard-integration, service.go): an idempotency key is
      accepted at most once over any history; the outcomes of a guarded checkout; prices add up.
    - [InvoiceRules], [InvoiceProofs] (multi-currency-invoice-rules, service.go): one total for each
      currency, in order, that adds up; decisions stably by currency, line and rule; answers do not depend on Go's map order.
    - [MoneyPricing], [MoneyPricingProofs] (money-rule-pricing, service.go): a quote adds up over the texts
      it shows, and its rules never discount more than there is.
    - [ExchangePricing], [ExchangeProofs] (exchange-rate-pricing, service.go): the provider is asked once,
      for a valid cart; stale rates are never hidden; failures show no detail; converted quotes add up.
    - [StateMachine]: the interface of the state package, machines over a table of guarded transitions, its
      laws, runs of moves and a lawful implementation.
    - [PaymentAuth], [PaymentProofs] (payment-authorization-state, server.go): a payment follows its
      lifecycle, and an idempotency key moves it at most once, over any sequence of requests.
    - [Threads], [OrderLifecycle], [OrderLifecycleProofs] (order-lifecycle-state-api, server.go): handlers
      of a server without a lock, as programs whose atomic operations interleave in any order; the order
      follows its lifecycle, each move belongs to the request answered with it, every request ends.
    - [WorkReport]: the interface of the workreport and workflow packages with the laws the repository's
      notes state for them, works that stop at a failure and works that go on, and a lawful implementation.
    - [ReportTree]: what the report examples do alike with a report; a summary counts the tree it is shown
      with.
    - [OrderFulfillment], [OrderFulfillmentProofs] (order-fulfillment-integration, server.go): a state
      machine, works in sequence and compensations, composed; a run is all or nothing under every context.
    - [CompensationWorkflow], [CompensationProofs] (compensation-workflow, server.go): the effects a run
      leaves are those its report shows.
    - [OperationsReport], [OperationsProofs] (operations-report-policy, server.go): a checklist's report
      follows the policy the request asks for.
    - [SqlTx], [SqlModel]: database/sql and sqlkit transactions on shared tables: statements as functions of
      the tables with the constraints they would break, the laws of an engine whose other clients commit
      between any two statements, rules for the bodies of transactions ([runs]), and a lawful engine that
      fails, or loses an answer, where a list of faults says so.
    - [OrderWorkflow], [OrderReads], [OrderWorkflowProofs], [OrderWorkflowModel], [OrderWorkflowTheorems]
      (audited-order-workflow-outbox, model.go, service.go and history_store.go): commands that write an
      order, its audit entry and its outbox record in one transaction. They commit as one, the history
      explains the tables, and a committed command that is sent again, its answer lost or not, is answered
      with its order and never refused, a creation also when it is overtaken while it runs.
    - [OrderSchema], [OrderSchemaProofs] (schema.go): no statement is run on incompatible tables, and a
      prepared schema is the expected one.
    - [OrderApi], [OrderApiProofs], [OrderApiTheorems] (handler.go): strict JSON, over any tokens whose
      delimiters match; answers that tell what strict bodies committed; pages that enumerate the history; and
      the limit on concurrent requests, a refinement of its contract.
    - [SqlKit]: the sqlkit helpers of the repository examples: statement builders as a parameter, each built
      statement with its meaning on the tables beside its text, and the rules for running one.
    - [OrderPlacement], [OrderPlacementProofs] (sql-transaction-boundary): products are locked and debited and the
      order inserted in one transaction. Placements commit as one, and stock is conserved and never oversold
      between any clients that place orders.
    - [OrderService], [OrderServiceProofs] (gin-sql-order-service): orders with items and events behind handlers. An
      order commits as one, and its total stays that of its items as long as its edits come one after the other.
    - [OrderCrud], [OrderCrudProofs] (gin-sql-crud-api): a table of orders behind handlers, a statement for each
      operation. Every request takes effect at most once, as a step of an abstract table, between any other clients.
    - [AuditQuery], [AuditQueryProofs] (gin-audit-query-api): searches by pages in both directions over an audit
      reader, whose cursors neither skip nor repeat, and exact revisions.
    - [CatalogRepo], [CatalogRepoProofs] (dynamodb-conditional-repository): items in a DynamoDB table under condition
      expressions. Of the updates that expect one version at most one succeeds, and queries read the catalog at one
      moment, whole up to the megabyte of a page.
    - [TaskQueue], [TaskQueueProofs] (sqs-floci-worker): tasks in an SQS queue. A message is deleted only when its task has
      been handled, whoever else works on the queue.
    - [ParallelWork]: works in parallel and by condition, the rest of the interface of the workflow package: works as
      processes that may wait for each other, groups that settle however they are scheduled, and a lawful runner of two.
    - [FulfillmentRunner], [FulfillmentRunnerProofs] (fulfillment-workflow-runner): every run is answered, and ships exactly
      when both of its parallel checks succeed.

    Definitions keep the source's names; a method [T.M] is [T_M] or [M], and a step of a long method
    (a loop body, a critical section) is a definition of its own, composed as the code composes it.

    * Bounds and fuel

    The breadth-first walk ([AbuseCluster.walk]) has one unit of fuel per vertex, which is enough
    because a vertex is queued only when it is first marked; [walk_component_terminates] proves it.
    Runs of the batch engine are bounded by an engine's steps, not by fuel of ours. [trim_front] and
    the decoders have the length of their input as fuel and consume at least a byte per unit. The crawl
    of search pages ends within one page more than there are hits, which
    [search_pages_enumerate] proves. Sizes that must fit an int (search limits, repeated masks) are
    hypotheses where the code relies on them.

    * What is not modelled

    Output and wiring: main functions, JSON encoding of reports and responses, logging, the gin adapter
    of the moderation service, and of the other routes the binding of bodies by gin. Of the modelled
    packages: [MarshalResult], [EncodeReport] and the accessor [GraphPath]. Data races: operations under a
    mutex are atomic, and of goroutines that share state without one only the order server is modelled.
    Of the audited order workflow: the relay and the lifecycle of its process (runtime.go), which supervise the
    outbox library, net/http and Redis. The isolation of PostgreSQL is what the laws of [SqlTx] say of it, not a model
    of its locks. Every other example is listed in the manifest with the reason: those whose state lives in
    Redis or an AWS service, those that only compose libraries, and those that repeat what is modelled here. *)
From Stdlib Require Import ZArith Lia Ascii String.
From Stdlib Require Export SpecFloat.
From stdpp Require Export base gmap strings list sorting pretty fin_maps.

#[global] Set Default Goal Selector "!".
Open Scope Z_scope.

(** ** Go integers *)

(** Go's [int] is 64 bits wide on the targets of the workshop; arithmetic wraps. *)
Definition int_bits : Z := 64.
Definition wrap64 (z : Z) : Z :=
  (z + 2 ^ (int_bits - 1)) mod 2 ^ int_bits - 2 ^ (int_bits - 1).
Definition int_add (a b : Z) : Z := wrap64 (a + b).
Definition int_sub (a b : Z) : Z := wrap64 (a - b).
Definition int_mul (a b : Z) : Z := wrap64 (a * b).
Definition int_incr (a : Z) : Z := int_add a 1.
Definition in_int64 (z : Z) : Prop := - 2 ^ (int_bits - 1) <= z < 2 ^ (int_bits - 1).

(** [len(xs)] as a Go [int]. *)
Definition len {A} (l : list A) : Z := Z.of_nat (length l).

Lemma wrap64_range z : in_int64 (wrap64 z).
Proof.
  unfold in_int64, wrap64, int_bits.
  pose proof (Z.mod_pos_bound (z + 2 ^ (64 - 1)) (2 ^ 64)) as H. lia.
Qed.

Lemma wrap64_id z : in_int64 z → wrap64 z = z.
Proof.
  unfold in_int64, wrap64, int_bits. intros H.
  rewrite Z.mod_small by lia. lia.
Qed.

Lemma wrap64_wrap_l a b : wrap64 (wrap64 a + b) = wrap64 (a + b).
Proof.
  unfold wrap64, int_bits. set (M := 2 ^ 64). set (h := 2 ^ (64 - 1)).
  f_equal.
  replace ((a + h) mod M - h + b + h) with ((a + h) mod M + b) by lia.
  rewrite Z.add_mod_idemp_l by (subst M; lia).
  f_equal. lia.
Qed.

Lemma int_incr_wrap a : int_incr (wrap64 a) = wrap64 (a + 1).
Proof. apply wrap64_wrap_l. Qed.

(** ** Strings: the operations of package [strings] the programs use *)

Definition starts_with (p s : string) : bool := String.prefix p s.

Fixpoint drop_str (n : nat) (s : string) : string :=
  match n, s with
  | O, _ => s
  | S n', String _ s' => drop_str n' s'
  | S _, EmptyString => EmptyString
  end.

Definition rev_str (s : string) : string :=
  string_of_list_ascii (rev (list_ascii_of_string s)).

(** The UTF-8 encodings of the runes [unicode.IsSpace] accepts. *)
Definition ascii_str (codes : list nat) : string :=
  string_of_list_ascii (map ascii_of_nat codes).
Definition space_runes : list string :=
  map ascii_str
    ([[9]; [10]; [11]; [12]; [13]; [32]; [194; 133]; [194; 160]; [225; 154; 128];
      [226; 128; 168]; [226; 128; 169]; [226; 128; 175]; [226; 129; 159]; [227; 128; 128]]
     ++ map (λ n, [226; 128; 128 + n]) (seq 0 11))%nat.

Definition strip_one (runes : list string) (s : string) : option string :=
  match List.find (λ r, starts_with r s) runes with
  | Some r => Some (drop_str (String.length r) s)
  | None => None
  end.

Fixpoint trim_front (runes : list string) (fuel : nat) (s : string) : string :=
  match fuel with
  | O => s
  | S fuel' =>
      match strip_one runes s with
      | Some s' => trim_front runes fuel' s'
      | None => s
      end
  end.

(** [strings.TrimSpace]: a rune of [space_runes] at an end of the string is the rune Go decodes
    there, because no encoding is a proper suffix or prefix of another one. *)
Definition TrimSpace (s : string) : string :=
  let front := trim_front space_runes (String.length s) s in
  rev_str (trim_front (map rev_str space_runes) (String.length front) (rev_str front)).

Definition is_ascii (c : ascii) : bool := (nat_of_ascii c <? 128)%nat.
Definition ascii_only (s : string) : bool := forallb is_ascii (list_ascii_of_string s).

Definition map_str (f : ascii → ascii) (s : string) : string :=
  string_of_list_ascii (map f (list_ascii_of_string s)).
Definition lower_byte (c : ascii) : ascii :=
  let n := nat_of_ascii c in
  if ((65 <=? n) && (n <=? 90))%nat then ascii_of_nat (n + 32) else c.
Definition upper_byte (c : ascii) : ascii :=
  let n := nat_of_ascii c in
  if ((97 <=? n) && (n <=? 122))%nat then ascii_of_nat (n - 32) else c.

(** The Unicode tables of the Go runtime, needed only for strings with a byte above 0x7F. *)
Class GoUnicode := {
  uni_lower : string → string;
  uni_upper : string → string;
  uni_fold_equal : string → string → bool;
  uni_quote : string → string
}.

Section Unicode.
Context `{GoUnicode}.

Definition ToLower (s : string) : string :=
  if ascii_only s then map_str lower_byte s else uni_lower s.
Definition ToUpper (s : string) : string :=
  if ascii_only s then map_str upper_byte s else uni_upper s.
Definition EqualFold (s t : string) : bool :=
  if ascii_only s && ascii_only t
  then bool_decide (map_str lower_byte s = map_str lower_byte t)
  else uni_fold_equal s t.
End Unicode.

Definition quote_char : string := String (ascii_of_nat 34) EmptyString.

(** Tables that leave non-ASCII text alone, for concrete evaluations. *)
Definition plain_unicode : GoUnicode :=
  {| uni_lower := id; uni_upper := id;
     uni_fold_equal := λ s t, bool_decide (s = t);
     uni_quote := λ s, (quote_char ++ s ++ quote_char)%string |}.

(** [strings.Contains]. *)
Fixpoint Contains (s sub : string) : bool :=
  starts_with sub s ||
  match s with
  | EmptyString => false
  | String _ s' => Contains s' sub
  end.

(** ** Errors *)

(** A non-error argument of [fmt.Errorf]: what [%s]/[%q], [%d] and [%T] receive. *)
Inductive FmtArg := FStr (s : string) | FInt (z : Z) | FType (t : string).

(** A Go error. [Sentinel name text] is a package-level [errors.New] value, identified by its
    qualified name; [Errorf f wrapped args] is [fmt.Errorf f ...] with the errors given to its
    [%w] verbs, in order, and its other arguments, in order; [Join] is [errors.Join]. *)
Inductive GoError :=
  | Sentinel (name text : string)
  | Errorf (format : string) (wrapped : list GoError) (args : list FmtArg)
  | Join (errs : list GoError).

(** [errors.Is e target] for a sentinel target. *)
Fixpoint errors_Is (e : GoError) (target : string) : bool :=
  match e with
  | Sentinel n _ => bool_decide (n = target)
  | Errorf _ ws _ => existsb (λ w, errors_Is w target) ws
  | Join ws => existsb (λ w, errors_Is w target) ws
  end.

(** [errors.New] of a constant text, outside the package-level sentinels. *)
Definition plain_error (text : string) : GoError := Errorf text [] [].

Definition CtxCanceled : GoError := Sentinel "context.Canceled" "context canceled".
Definition CtxDeadlineExceeded : GoError :=
  Sentinel "context.DeadlineExceeded" "context deadline exceeded".

Section Rendering.
Context `{GoUnicode}.

Definition Quote (s : string) : string :=
  if forallb (λ c, let n := nat_of_ascii c in
                   ((32 <=? n) && (n <? 127) && negb (n =? 34) && negb (n =? 92))%nat)
       (list_ascii_of_string s)
  then (quote_char ++ s ++ quote_char)%string
  else uni_quote s.

Definition render_arg (verb : ascii) (a : FmtArg) : string :=
  match a with
  | FStr s => if bool_decide (verb = "q"%char) then Quote s else s
  | FInt z => pretty z
  | FType t => t
  end.

(** The verbs the packages use: [%w] takes the next wrapped error, any other verb the next
    argument. *)
Fixpoint render (f : string) (ws : list string) (args : list FmtArg) : string :=
  match f with
  | String "%" (String "w" f') =>
      match ws with
      | w :: ws' => (w ++ render f' ws' args)%string
      | [] => render f' ws args
      end
  | String "%" (String v f') =>
      match args with
      | a :: args' => (render_arg v a ++ render f' ws args')%string
      | [] => render f' ws args
      end
  | String c f' => String c (render f' ws args)
  | EmptyString => EmptyString
  end.

(** [err.Error()]. *)
Fixpoint Error (e : GoError) : string :=
  match e with
  | Sentinel _ t => t
  | Errorf f ws args => render f (map Error ws) args
  | Join es => String.concat (String (ascii_of_nat 10) EmptyString) (map Error es)
  end.
End Rendering.

(** ** Contexts, outcomes and the monad of methods *)

(** A context as its holder can observe it: how many more polls of [ctx.Err()] return nil
    ([None]: it is never cancelled) and what the polls return afterwards. *)
Inductive CtxCause := ByCancel | ByDeadline.
Record Ctx := { ctx_polls : option nat; ctx_cause : CtxCause }.

Definition cause_error (cause : CtxCause) : GoError :=
  match cause with ByCancel => CtxCanceled | ByDeadline => CtxDeadlineExceeded end.

Definition Background : Ctx := {| ctx_polls := None; ctx_cause := ByCancel |}.

Definition ctx_poll (c : Ctx) : option GoError * Ctx :=
  match ctx_polls c with
  | None => (None, c)
  | Some O => (Some (cause_error (ctx_cause c)), c)
  | Some (S n) => (None, {| ctx_polls := Some n; ctx_cause := ctx_cause c |})
  end.

(** A nil context is the background context. *)
Definition normalizeContext (ctx : option Ctx) : Ctx := default Background ctx.

(** How a Go call ends: a value with a nil error, a non-nil error, or a panic. *)
Inductive Outcome (A : Type) := Val (a : A) | Fail (e : GoError) | Panic.
Arguments Val {A}.
Arguments Fail {A}.
Arguments Panic {A}.

(** A method on a receiver state [S]: an error keeps the writes made before it. *)
Definition GoM (S A : Type) : Type := Ctx → S → Outcome A * Ctx * S.

Section Monad.
Context {S : Type}.

Definition ret {A} (a : A) : GoM S A := λ c s, (Val a, c, s).
Definition throw {A} (e : GoError) : GoM S A := λ c s, (Fail e, c, s).
Definition panic {A} : GoM S A := λ c s, (Panic, c, s).
Definition bind {A B} (m : GoM S A) (k : A → GoM S B) : GoM S B :=
  λ c s, match m c s with
         | (Val a, c', s') => k a c' s'
         | (Fail e, c', s') => (Fail e, c', s')
         | (Panic, c', s') => (Panic, c', s')
         end.
Definition get : GoM S S := λ c s, (Val s, c, s).
Definition put (s : S) : GoM S unit := λ c _, (Val tt, c, s).
Definition modify (f : S → S) : GoM S unit := λ c s, (Val tt, c, f s).

(** [if err := ctx.Err(); err != nil { return err }]. *)
Definition ctxErr : GoM S unit :=
  λ c s, match ctx_poll c with
         | (None, c') => (Val tt, c', s)
         | (Some e, c') => (Fail e, c', s)
         end.

(** [for _, x := range xs { if err := f(x); err != nil { return err } }]. *)
Fixpoint forM_ {A} (xs : list A) (f : A → GoM S unit) : GoM S unit :=
  match xs with
  | [] => ret tt
  | x :: xs' => bind (f x) (λ _, forM_ xs' f)
  end.

(** Running with [context.WithoutCancel(ctx)]. *)
Definition withoutCancel {A} (m : GoM S A) : GoM S A :=
  λ c s, let '(o, _, s') := m Background s in (o, c, s').
End Monad.

(** A call whose error is handled: [if err != nil { ... }]. *)
Definition settle {S A B} (m : GoM S A) (on_error : GoError → GoM S B) (k : A → GoM S B) : GoM S B :=
  λ c s, match m c s with
         | (Val a, c', s') => k a c' s'
         | (Fail e, c', s') => on_error e c' s'
         | (Panic, c', s') => (Panic, c', s')
         end.

(** Calls one behind the other, each under a context of its own. *)
Fixpoint serve_all {S Q A} (serve : Q → GoM S A) (requests : list (Ctx * Q)) (s : S) : list (Outcome A) * S :=
  match requests with
  | [] => ([], s)
  | (c, request) :: rest =>
      let '(o, _, s1) := serve request c s in
      let '(os, s2) := serve_all serve rest s1 in
      (o :: os, s2)
  end.

(** A method on one part of a larger state. *)
Definition on_part {S T A} (prj : S → T) (upd : T → S → S) (m : GoM T A) : GoM S A :=
  λ c s, let '(o, c', t) := m c (prj s) in (o, c', upd t s).

Declare Scope go_scope.
Delimit Scope go_scope with go.
Notation "'let!' x := m 'in' k" := (bind m (λ x, k))
  (at level 10, x pattern, m at level 100, k at level 200) : go_scope.
Notation "'do!' m ; k" := (bind m (λ _, k))
  (at level 10, m at level 100, k at level 200) : go_scope.
Open Scope go_scope.

(** A pointer receiver: [None] is nil. *)
Abbreviation Ptr := option.

Section Pointers.
Context {S : Type}.

(** Dereference without a guard: nil panics. *)
Definition deref : GoM (Ptr S) S :=
  λ c s, match s with Some r => (Val r, c, s) | None => (Panic, c, s) end.

(** [if r == nil || !ok(r) { return e }]. *)
Definition deref_or (ok : S → bool) (e : GoError) : GoM (Ptr S) S :=
  λ c s, match s with
         | Some r => if ok r then (Val r, c, s) else (Fail e, c, s)
         | None => (Fail e, c, s)
         end.

Definition store (r : S) : GoM (Ptr S) unit := put (Some r).
End Pointers.

(** ** Reasoning about methods *)

Lemma bind_inv {S A B} (m : GoM S A) (k : A → GoM S B) c s o c' s' :
  bind m k c s = (o, c', s') →
  (∃ a c1 s1, m c s = (Val a, c1, s1) ∧ k a c1 s1 = (o, c', s')) ∨
  (∃ e, o = Fail e ∧ m c s = (Fail e, c', s')) ∨
  (o = Panic ∧ m c s = (Panic, c', s')).
Proof. unfold bind. intros H. repeat case_match; naive_solver. Qed.

Lemma settle_inv {S A B} (m : GoM S A) on_error (k : A → GoM S B) c s o c' s' :
  settle m on_error k c s = (o, c', s') →
  ∃ o1 c1 s1, m c s = (o1, c1, s1) ∧
    match o1 with Val a => k a c1 s1 = (o, c', s') | Fail e => on_error e c1 s1 = (o, c', s') | Panic => o = Panic ∧ c' = c1 ∧ s' = s1 end.
Proof. unfold settle. intros H. repeat case_match; simplify_eq; eexists _, _, _; by split_and!. Qed.

Lemma ctxErr_inv {S} c (s : S) o c' s' :
  ctxErr c s = (o, c', s') → s' = s ∧ (o = Val tt ∨ ∃ cause, o = Fail (cause_error cause)).
Proof. unfold ctxErr, ctx_poll. intros H. repeat case_match; simplify_eq; eauto. Qed.

Lemma deref_or_inv {S} (ok : S → bool) e c (s : Ptr S) o c' s' :
  deref_or ok e c s = (o, c', s') →
  c' = c ∧ s' = s ∧ ((∃ r, s = Some r ∧ ok r = true ∧ o = Val r) ∨ o = Fail e).
Proof. unfold deref_or. intros H. repeat case_match; naive_solver. Qed.

Lemma deref_inv {S} c (s : Ptr S) o c' s' :
  deref c s = (o, c', s') →
  c' = c ∧ s' = s ∧ ((∃ r, s = Some r ∧ o = Val r) ∨ (s = None ∧ o = Panic)).
Proof. unfold deref. intros H. repeat case_match; naive_solver. Qed.

(** Takes apart a run [m c s = (o, c', s')] of a method built from the combinators. *)
Ltac go_inv H :=
  lazymatch type of H with
  | bind _ _ _ _ = _ =>
      let a := fresh "a" in let c := fresh "c" in let s := fresh "s" in
      let H1 := fresh "Hrun" in let H2 := fresh "Hcont" in let e := fresh "e" in
      apply bind_inv in H as [(a & c & s & H1 & H2) | [(e & ? & H1) | (? & H1)]];
      [ go_inv H1; try go_inv H2 | simplify_eq/=; try go_inv H1 | simplify_eq/=; try go_inv H1 ]
  | ctxErr _ _ = _ =>
      let e := fresh "e" in
      apply ctxErr_inv in H as (? & [?|[e ?]]); subst
  | deref_or _ _ _ _ = _ =>
      apply deref_or_inv in H as (? & ? & [(? & ? & ? & ?)|?]); subst
  | deref _ _ = _ =>
      apply deref_inv in H as (? & ? & [(? & ? & ?)|(? & ?)]); subst
  | ret _ _ _ = _ => unfold ret in H
  | throw _ _ _ = _ => unfold throw in H
  | panic _ _ = _ => unfold panic in H
  | get _ _ = _ => unfold get in H
  | put _ _ _ = _ => unfold put in H
  | store _ _ _ = _ => unfold store, put in H
  | modify _ _ _ = _ => unfold modify in H
  | (if ?b then _ else _) _ _ = _ => destruct b eqn:?; go_inv H
  | (match ?x with _ => _ end) _ _ = _ => destruct x eqn:?; go_inv H
  | _ => idtac
  end;
  simplify_eq/=.

(** [moves R m]: every run of [m], however it ends, relates its initial state to its final state
    by [R]. *)
Definition moves {S A} (R : S → S → Prop) (m : GoM S A) : Prop :=
  ∀ c s o c' s', m c s = (o, c', s') → R s s'.

(** [m] keeps the invariant [I], whatever the outcome. *)
Definition preserves {S A} (I : S → Prop) (m : GoM S A) : Prop := moves (λ s s', I s → I s') m.

Section Moves.
Context {S : Type} (R : S → S → Prop) `{!Reflexive R} `{!Transitive R}.

Lemma moves_ret {A} (a : A) : moves R (ret a).
Proof. intros ?????. inversion 1; subst. reflexivity. Qed.
Lemma moves_throw {A} e : moves R (throw e : GoM S A).
Proof. intros ?????. inversion 1; subst. reflexivity. Qed.
Lemma moves_panic {A} : moves R (panic : GoM S A).
Proof. intros ?????. inversion 1; subst. reflexivity. Qed.
Lemma moves_get : moves R get.
Proof. intros ?????. inversion 1; subst. reflexivity. Qed.
Lemma moves_ctxErr : moves R ctxErr.
Proof. intros ????? H. apply ctxErr_inv in H as [-> _]. reflexivity. Qed.
Lemma moves_modify f : (∀ s, R s (f s)) → moves R (modify f).
Proof. intros Hf ?????. inversion 1; subst. apply Hf. Qed.
Lemma moves_bind {A B} (m : GoM S A) (k : A → GoM S B) :
  moves R m → (∀ a, moves R (k a)) → moves R (bind m k).
Proof.
  intros Hm Hk ????? H.
  apply bind_inv in H as [(a & c1 & s1 & H1 & H2) | [(e & -> & H1) | (-> & H1)]].
  - transitivity s1; [by eapply Hm | by eapply Hk].
  - by eapply Hm.
  - by eapply Hm.
Qed.
Lemma moves_forM {A} (xs : list A) (f : A → GoM S unit) :
  (∀ x, moves R (f x)) → moves R (forM_ xs f).
Proof.
  intros Hf. induction xs as [|x xs IH]; simpl.
  - apply moves_ret.
  - by apply moves_bind.
Qed.
End Moves.

Lemma moves_on_part {S T A} (RS : S → S → Prop) (RT : T → T → Prop) prj upd (m : GoM T A) :
  (∀ s t, RT (prj s) t → RS s (upd t s)) → moves RT m → moves RS (on_part prj upd m).
Proof.
  intros Hup Hm c s o c' s'. unfold on_part.
  destruct (m c (prj s)) as [[o1 c1] t1] eqn:E. inversion 1; subst.
  eapply Hup, Hm, E.
Qed.

Create HintDb gom.
#[export] Hint Resolve moves_ret moves_throw moves_panic moves_get moves_ctxErr moves_bind
  moves_forM : gom.

(** The success of a loop splits into the successes of its iterations. *)
Lemma forM_app {S A} (xs ys : list A) (f : A → GoM S unit) c s :
  forM_ (xs ++ ys) f c s = bind (forM_ xs f) (λ _, forM_ ys f) c s.
Proof.
  revert c s. induction xs as [|x xs IH]; intros c s; [done|].
  simpl. unfold bind in *. destruct (f x c s) as [[[] c1] s1]; [apply IH|done|done].
Qed.

(** ** Filters *)

Lemma filter_none {A} (P : A → Prop) `{!∀ x, Decision (P x)} xs : Forall (λ x, ¬ P x) xs → filter P xs = [].
Proof. induction 1 as [|x xs Hx _ IH]; [done|]. by rewrite filter_cons_False. Qed.
Lemma filter_all {A} (P : A → Prop) `{!∀ x, Decision (P x)} xs : Forall P xs → filter P xs = xs.
Proof. induction 1 as [|x xs Hx _ IH]; [done|]. by rewrite filter_cons_True, IH. Qed.

(** ** Sorting *)

(** [a < b] on Go strings: the bytes in lexicographic order. *)
Definition str_ltb (a b : string) : bool := String.ltb a b.

Lemma ascii_compare_N c d : Ascii.compare c d = (N_of_ascii c ?= N_of_ascii d)%N.
Proof. reflexivity. Qed.

Lemma str_ltb_irrefl a : str_ltb a a = false.
Proof.
  unfold str_ltb, String.ltb. induction a as [|c a IH]; [done|].
  simpl. rewrite ascii_compare_N, N.compare_refl. apply IH.
Qed.

Lemma str_ltb_cons c a d b :
  str_ltb (String c a) (String d b) = true ↔
  (N_of_ascii c < N_of_ascii d)%N ∨ (c = d ∧ str_ltb a b = true).
Proof.
  unfold str_ltb, String.ltb. simpl. rewrite ascii_compare_N.
  destruct (N.compare_spec (N_of_ascii c) (N_of_ascii d)) as [E|E|E].
  - assert (c = d) as ->.
    { rewrite <- (ascii_N_embedding c), <- (ascii_N_embedding d). by rewrite E. }
    split; [auto|intros [?|[_ ?]]; [lia|done]].
  - split; auto.
  - split; [done|intros [?|[-> _]]; lia].
Qed.

Lemma str_ltb_app p a b : str_ltb (p ++ a) (p ++ b) = str_ltb a b.
Proof.
  induction p as [|c p IH]; [done|]. rewrite <- IH. change (String c p ++ a)%string with (String c (p ++ a)). change (String c p ++ b)%string with (String c (p ++ b)).
  apply eq_true_iff_eq. rewrite str_ltb_cons. split; [intros [?|[_ ?]]; [lia|done]|by right].
Qed.
Lemma str_ltb_trans a b c : str_ltb a b = true → str_ltb b c = true → str_ltb a c = true.
Proof.
  revert b c. induction a as [|x a IH]; intros [|y b] [|z c] H1 H2; try done.
  rewrite str_ltb_cons in *.
  destruct H1 as [?|[-> ?]], H2 as [?|[-> ?]]; eauto with lia.
Qed.

Lemma str_ltb_total a b : str_ltb a b = false → str_ltb b a = false → a = b.
Proof.
  unfold str_ltb, String.ltb. intros H1 H2. apply String.compare_eq_iff.
  rewrite String.compare_antisym in H2. by destruct (String.compare a b).
Qed.

Lemma str_ltb_asym a b : str_ltb a b = true → str_ltb b a = false.
Proof.
  intros H. destruct (str_ltb b a) eqn:E; [|done].
  pose proof (str_ltb_trans _ _ _ H E) as F. by rewrite str_ltb_irrefl in F.
Qed.

(** [sort.Slice(xs, less)]. The result is determined up to the order of elements that [less]
    does not separate; [sort_by_unique] shows when nothing is left open. *)
Definition sort_le {A} (less : A → A → bool) (a b : A) : Prop := less b a = false.
#[export] Instance sort_le_dec {A} (less : A → A → bool) : RelDecision (sort_le less).
Proof. intros a b. unfold sort_le. apply _. Defined.
Definition sort_by {A} (less : A → A → bool) (xs : list A) : list A :=
  merge_sort (sort_le less) xs.

(** [sort.Strings]. *)
Definition sort_strings (xs : list string) : list string := sort_by str_ltb xs.

(** What [less] must satisfy for [sort.Slice] to sort. *)
Class WeakOrder {A} (less : A → A → bool) : Prop := {
  less_asym a b : less a b = true → less b a = false;
  less_negtrans a b c : less b a = false → less c b = false → less c a = false
}.

#[export] Instance str_ltb_weak : WeakOrder str_ltb.
Proof.
  split; [apply str_ltb_asym|]. intros a b c H1 H2.
  destruct (str_ltb c a) eqn:E; [|done].
  destruct (str_ltb a b) eqn:F.
  - rewrite (str_ltb_trans _ _ _ E F) in H2. done.
  - assert (a = b) as -> by (by apply str_ltb_total). congruence.
Qed.

(** Ordering by a string key. *)
Definition key_less {A} (key : A → string) (a b : A) : bool := str_ltb (key a) (key b).
#[export] Instance key_less_weak {A} (key : A → string) : WeakOrder (key_less key).
Proof.
  split; unfold key_less; intros *; [apply less_asym | apply less_negtrans].
Qed.

(** Ordering by an integer key, the greatest first. *)
#[export] Instance key_desc_weak {A} (key : A → Z) : WeakOrder (λ a b, key b <? key a).
Proof.
  split; intros *; rewrite ?Z.ltb_lt, ?Z.ltb_ge; lia.
Qed.

(** Ordering by a first criterion and, among the elements it does not separate, by a second. *)
Lemma lex_weak {A} (same less1 less2 : A → A → bool) :
  (∀ a b, same a b = true ↔ less1 a b = false ∧ less1 b a = false) →
  WeakOrder less1 → WeakOrder less2 →
  WeakOrder (λ a b, if negb (same a b) then less1 a b else less2 a b).
Proof.
  intros Hs [asym1 neg1] [asym2 neg2].
  assert (∀ a b, same a b = negb (less1 a b) && negb (less1 b a)) as Es.
  { intros a b. apply eq_true_iff_eq. rewrite Hs, andb_true_iff, !negb_true_iff. done. }
  split; intros *; rewrite !Es.
  - pose proof (asym1 a b) as H1. pose proof (asym2 a b) as H2.
    destruct (less1 a b), (less1 b a); cbn; auto.
  - pose proof (neg1 a b c) as N1. pose proof (neg2 a b c) as N2.
    pose proof (asym1 a b) as A1. pose proof (asym1 b c) as A2. pose proof (asym1 a c) as A3.
    pose proof (neg1 c b a) as N3. pose proof (neg1 b c a) as N4. pose proof (neg1 c a b) as N5.
    destruct (less1 a b), (less1 b a), (less1 b c), (less1 c b), (less1 a c), (less1 c a);
      cbn; auto; intuition congruence.
Qed.

Section Sorting.
Context {A : Type} (less : A → A → bool).

Lemma sort_by_perm xs : sort_by less xs ≡ₚ xs.
Proof. apply merge_sort_Permutation. Qed.

Lemma elem_of_sort_by x xs : x ∈ sort_by less xs ↔ x ∈ xs.
Proof. by rewrite sort_by_perm. Qed.

Lemma length_sort_by xs : length (sort_by less xs) = length xs.
Proof. by rewrite sort_by_perm. Qed.

Context `{!WeakOrder less}.

#[local] Instance sort_le_total : Total (sort_le less).
Proof.
  intros a b. unfold sort_le. destruct (less b a) eqn:E; [|auto].
  right. by apply less_asym.
Qed.
#[local] Instance sort_le_trans : Transitive (sort_le less).
Proof. intros a b c. unfold sort_le. apply less_negtrans. Qed.

Lemma sort_by_sorted xs : StronglySorted (sort_le less) (sort_by less xs).
Proof. apply StronglySorted_merge_sort; apply _. Qed.

Lemma sort_by_unique xs ys :
  (∀ a b, a ∈ xs → b ∈ xs → less a b = false → less b a = false → a = b) →
  xs ≡ₚ ys → sort_by less xs = sort_by less ys.
Proof.
  intros Hanti Hp.
  apply (StronglySorted_unique_strong (sort_le less)).
  - intros a b Ha Hb H1 H2. rewrite elem_of_sort_by in Ha.
    rewrite elem_of_sort_by, <- Hp in Hb. by apply Hanti.
  - apply sort_by_sorted.
  - apply sort_by_sorted.
  - by rewrite !sort_by_perm.
Qed.
End Sorting.

(** Sorting by a key that separates the elements does not depend on the input's order. *)
Lemma sort_key_unique {A} (key : A → string) xs ys :
  NoDup (key <$> xs) → xs ≡ₚ ys → sort_by (key_less key) xs = sort_by (key_less key) ys.
Proof.
  intros Hnd Hp. apply sort_by_unique; [apply _| |done].
  intros a b Ha Hb H1 H2. pose proof (str_ltb_total _ _ H2 H1) as E.
  apply list_elem_of_lookup in Ha as [i Hi]. apply list_elem_of_lookup in Hb as [j Hj].
  assert (i = j) as ->; [|congruence].
  eapply (NoDup_lookup (key <$> xs)); [done|..].
  - rewrite list_lookup_fmap, Hi. done.
  - rewrite list_lookup_fmap, Hj. simpl. by rewrite E.
Qed.

(** A list that is sorted by a separating key is what sorting its permutations gives. *)
Lemma sort_key_sorted {A} (key : A → string) xs ys :
  xs ≡ₚ ys → StronglySorted (sort_le (key_less key)) ys → NoDup (key <$> ys) →
  sort_by (key_less key) xs = ys.
Proof.
  intros Hp Hs Hnd. apply (StronglySorted_unique_strong (sort_le (key_less key))).
  - intros a b Ha Hb H1 H2. rewrite elem_of_sort_by, Hp in Ha. pose proof (str_ltb_total _ _ H2 H1) as E.
    apply list_elem_of_lookup in Ha as [i Hi]. apply list_elem_of_lookup in Hb as [j Hj].
    assert (i = j) as ->; [|congruence].
    eapply (NoDup_lookup (key <$> ys)); [done|..].
    + rewrite list_lookup_fmap, Hi. done.
    + rewrite list_lookup_fmap, Hj. simpl. by rewrite E.
  - apply sort_by_sorted; apply _.
  - done.
  - by rewrite sort_by_perm.
Qed.

Lemma sorted_map {A B} (R : A → A → Prop) (R' : B → B → Prop) (f : A → B) xs :
  (∀ a b, R a b → R' (f a) (f b)) → StronglySorted R xs → StronglySorted R' (map f xs).
Proof.
  intros Hf. induction 1 as [|x xs Hs IH HF]; cbn; constructor; [done|].
  apply Forall_fmap. eapply Forall_impl; [exact HF|]. intros y. apply Hf.
Qed.
Lemma sorted_of_map {A B} (R : A → A → Prop) (R' : B → B → Prop) (f : A → B) xs :
  (∀ a b, R' (f a) (f b) → R a b) → StronglySorted R' (map f xs) → StronglySorted R xs.
Proof.
  intros Hf. induction xs as [|x xs IH]; [constructor|]. cbn. intros [Hs HF]%StronglySorted_inv. constructor; [by apply IH|].
  rewrite Forall_fmap in HF. eapply Forall_impl; [exact HF|]. intros y. apply Hf.
Qed.
Lemma sorted_filter {A} (R : A → A → Prop) (P : A → Prop) `{!∀ x, Decision (P x)} xs :
  StronglySorted R xs → StronglySorted R (filter P xs).
Proof.
  induction 1 as [|x xs Hs IH HF]; [constructor|]. rewrite filter_cons. case_decide; [|done].
  constructor; [done|]. apply Forall_forall. intros y [_ Hy]%list_elem_of_filter. by eapply Forall_forall in HF.
Qed.
Lemma filter_fmap_nodup {A B} (f : A → B) (P : A → Prop) `{!∀ x, Decision (P x)} xs :
  NoDup (map f xs) → NoDup (map f (filter P xs)).
Proof.
  induction xs as [|x xs IH]; cbn [map]; [done|]. intros [Hx Hxs]%NoDup_cons. rewrite filter_cons.
  case_decide; [|by apply IH]. cbn [map]. apply NoDup_cons. split; [|by apply IH].
  intros (y & E & [_ Hy]%list_elem_of_filter)%list_elem_of_fmap. apply Hx, list_elem_of_fmap. eauto.
Qed.

(** In a list sorted by a separating key, the elements with a key after that of an element are those
    behind it. *)
Lemma filter_after {A} (key : A → string) xs x ys :
  StronglySorted (sort_le (key_less key)) (xs ++ x :: ys) → NoDup (map key (xs ++ x :: ys)) →
  filter (λ y, str_ltb (key x) (key y) = true) (xs ++ x :: ys) = ys.
Proof.
  intros Hs Hnd. rewrite filter_app, (filter_cons_False _ x ys) by (by rewrite str_ltb_irrefl).
  assert (filter (λ y, str_ltb (key x) (key y) = true) xs = []) as ->.
  { clear Hnd. induction xs as [|z xs IH]; [done|]. cbn in Hs. apply StronglySorted_inv in Hs as [Hs HF].
    rewrite Forall_app, Forall_cons in HF. destruct HF as (_ & Hle & _). unfold sort_le, key_less in Hle.
    rewrite (filter_cons_False _ z xs) by congruence. by apply IH. }
  cbn [app]. induction xs as [|z xs IH]; cbn in Hs, Hnd.
  2: { apply StronglySorted_inv in Hs as [Hs _]. apply NoDup_cons in Hnd as [_ Hnd]. by apply IH. }
  apply StronglySorted_inv in Hs as [_ HF]. apply NoDup_cons in Hnd as [Hx _].
  clear -HF Hx. induction ys as [|y ys IH]; [done|]. apply Forall_cons in HF as [Hle HF].
  cbn in Hx. rewrite not_elem_of_cons in Hx. destruct Hx as [Hne Hx]. rewrite filter_cons_True.
  - f_equal. by apply IH.
  - destruct (str_ltb (key x) (key y)) eqn:E; [done|]. exfalso. apply Hne. by apply str_ltb_total.
Qed.

(** ** Stable sorting *)

(** ** strconv *)

Fixpoint digits_of (s : string) (acc : Z) : option Z :=
  match s with
  | EmptyString => Some acc
  | String c s =>
      let n := Z.of_nat (nat_of_ascii c) in
      if (48 <=? n) && (n <=? 57) then digits_of s (10 * acc + (n - 48)) else None
  end.
(** [strconv.ParseInt(s, 10, 64)]; the underscores of base 0 are not taken. *)
Definition ParseInt (s : string) : option Z :=
  let '(sign, body) := match s with
                       | String "-" rest => (-1, rest)
                       | String "+" rest => (1, rest)
                       | _ => (1, s)
                       end in
  if bool_decide (body = "") then None
  else
    z ← digits_of body 0;
    if (- 2 ^ 63 <=? sign * z) && (sign * z <? 2 ^ 63) then Some (sign * z) else None.

Lemma digits_of_go x s : digits_of (pretty_N_go x s) 0 = digits_of s (Z.of_N x).
Proof.
  revert s. induction (N.lt_wf_0 x) as [x _ IH]; intros s. destruct (decide (0 < x)%N) as [Hx|Hx].
  - rewrite pretty_N_go_step by done. rewrite IH by (apply N.div_lt; lia). cbn [digits_of].
    pose proof (N.mod_upper_bound x 10 ltac:(lia)) as Hm.
    assert (Z.of_nat (nat_of_ascii (pretty_N_char (x mod 10))) = 48 + Z.of_N (x mod 10)) as ->.
    { revert Hm. generalize (x mod 10)%N. intros d Hd. assert (d ∈ [0; 1; 2; 3; 4; 5; 6; 7; 8; 9]%N) as Hin by (rewrite !elem_of_cons; lia).
      rewrite !elem_of_cons, elem_of_nil in Hin. by destruct_or! Hin; subst. }
    apply N2Z.inj_lt in Hm. change (Z.of_N 10) with 10 in Hm. pose proof (N2Z.is_nonneg (x mod 10)) as H0.
    rewrite (proj2 (Z.leb_le 48 _)), (proj2 (Z.leb_le _ 57)) by (clear -Hm H0; lia). cbn [andb].
    f_equal. rewrite N2Z.inj_div, N2Z.inj_mod. pose proof (Z.div_mod (Z.of_N x) 10 ltac:(lia)). lia.
  - assert (x = 0%N) as -> by lia. by rewrite pretty_N_go_0.
Qed.
(** [strconv.Itoa] and back. *)
Lemma ParseInt_pretty z : in_int64 z → ParseInt (pretty z) = Some z.
Proof.
  intros [H1 H2]. unfold int_bits in *. change (64 - 1) with 63 in *.
  assert (∀ p : positive, digits_of (pretty (N.pos p)) 0 = Some (Z.pos p) ∧ ∃ c s, pretty (N.pos p) = String c s ∧ c ≠ "-"%char ∧ c ≠ "+"%char) as Hp.
  { intros p. unfold pretty, pretty_N. rewrite decide_False by done. split; [by rewrite digits_of_go|].
    assert (digits_of (pretty_N_go (N.pos p) "") 0 = Some (Z.pos p)) as Hd by (by rewrite digits_of_go).
    destruct (pretty_N_go (N.pos p) "") as [|c s]; [done|]. exists c, s. split; [done|]. split; intros ->; done. }
  destruct z as [|p|p]; [done|..]; destruct (Hp p) as [Hd (c & s & Hs & Hm & Hplus)].
  - change (pretty (Z.pos p)) with (pretty (N.pos p)). rewrite Hs in *. unfold ParseInt.
    replace (match String c s with String "-" rest => (-1, rest) | String "+" rest => (1, rest) | _ => (1, String c s) end) with (1, String c s).
    2: { destruct c as [[] [] [] [] [] [] [] []]; done. }
    rewrite bool_decide_false, Hd by done. cbn [mbind option_bind]. rewrite Z.mul_1_l.
    by rewrite (proj2 (Z.leb_le _ _) H1), (proj2 (Z.ltb_lt _ _) H2).
  - change (pretty (Z.neg p)) with (String "-" (pretty (N.pos p))). rewrite Hs in *. unfold ParseInt.
    rewrite bool_decide_false, Hd by done. cbn [mbind option_bind]. change (-1 * Z.pos p) with (Z.neg p).
    by rewrite (proj2 (Z.leb_le _ _) H1), (proj2 (Z.ltb_lt _ _) H2).
Qed.

(** [sort.SliceStable]. *)
Fixpoint insert_stable {A} (less : A → A → bool) (x : A) (xs : list A) : list A :=
  match xs with
  | [] => [x]
  | y :: ys => if less y x then y :: insert_stable less x ys else x :: xs
  end.
Definition SliceStable {A} (less : A → A → bool) (xs : list A) : list A := foldr (insert_stable less) [] xs.

Lemma stable_sorted {A} (less : A → A → bool) xs :
  StronglySorted (λ a b, less b a = false) xs → SliceStable less xs = xs.
Proof.
  unfold SliceStable. induction 1 as [|x xs Hs IH HF]; cbn; [done|]. rewrite IH.
  destruct HF as [|y ys Hy HF]; cbn; [done|]. by rewrite Hy.
Qed.

Lemma insert_stable_perm {A} (less : A → A → bool) x xs : insert_stable less x xs ≡ₚ x :: xs.
Proof. induction xs as [|y ys IH]; cbn; [done|]. destruct (less y x); [|done]. rewrite IH. apply Permutation_swap. Qed.
Lemma stable_perm {A} (less : A → A → bool) xs : SliceStable less xs ≡ₚ xs.
Proof. unfold SliceStable. induction xs as [|x xs IH]; cbn; [done|]. by rewrite insert_stable_perm, IH. Qed.
Lemma stable_ordered {A} (less : A → A → bool) `{!WeakOrder less} xs : StronglySorted (sort_le less) (SliceStable less xs).
Proof.
  unfold SliceStable. induction xs as [|x xs IH]; cbn [foldr]; [constructor|].
  induction IH as [|y ys Hs IH HF]; cbn [insert_stable]; [by repeat constructor|].
  destruct (less y x) eqn:E; constructor; [done| |by constructor|].
  - rewrite insert_stable_perm. constructor; [|done]. by apply less_asym.
  - constructor; [done|]. eapply Forall_impl; [exact HF|]. intros z Hz. unfold sort_le in *. by eapply less_negtrans.
Qed.
(** Elements [less] does not separate keep their order. *)
Lemma stable_filter {A} (less : A → A → bool) (P : A → Prop) `{!∀ x, Decision (P x)} xs :
  (∀ x y, P x → P y → less x y = false) → filter P (SliceStable less xs) = filter P xs.
Proof.
  intros Hless. unfold SliceStable. induction xs as [|x xs IH]; cbn [foldr]; [done|].
  assert (∀ ys, filter P (insert_stable less x ys) = filter P (x :: ys)) as Hins; [|by rewrite Hins, !filter_cons, IH].
  induction ys as [|y ys IHy]; cbn [insert_stable]; [done|]. destruct (less y x) eqn:E; [|done].
  rewrite filter_cons, IHy, !filter_cons. destruct (decide (P x)), (decide (P y)); try done.
  by rewrite Hless in E.
Qed.

Lemma sort_strings_unique xs ys : xs ≡ₚ ys → sort_strings xs = sort_strings ys.
Proof.
  intros Hp. apply sort_by_unique; [apply _| |done].
  intros a b _ _ H1 H2. by apply str_ltb_total.
Qed.

Lemma concat_map_perm {A B} (f : A → list B) l l' :
  l ≡ₚ l' → concat (map f l) ≡ₚ concat (map f l').
Proof. intros H. rewrite <- !flat_map_concat_map. by rewrite H. Qed.

(** Keys that a loop with a set of seen keys accepts. *)
Definition fresh_keys {A K} `{Countable K} (key : A → K) (seen : gset K) (xs : list A) : Prop :=
  NoDup (map key xs) ∧ ∀ x, x ∈ xs → key x ∉ seen.

Lemma fresh_keys_nil {A K} `{Countable K} (key : A → K) seen : fresh_keys key seen [].
Proof. split; [constructor|]. by intros x ?%elem_of_nil. Qed.

Lemma fresh_keys_cons {A K} `{Countable K} (key : A → K) seen x xs :
  fresh_keys key seen (x :: xs) ↔ (key x ∉ seen) ∧ fresh_keys key ({[key x]} ∪ seen) xs.
Proof.
  unfold fresh_keys. cbn [map]. rewrite NoDup_cons. split.
  - intros [[Hx Hnd] Hs]. split; [apply Hs; left|]. split; [done|].
    intros y Hy [E%elem_of_singleton|Hin]%elem_of_union; [|by apply (Hs y); [right|]].
    apply Hx. rewrite <- E. by apply list_elem_of_fmap_2.
  - intros (Hx & Hnd & Hs). split; [split; [|done]|].
    + intros (y & E & Hy)%list_elem_of_fmap. apply (Hs y Hy), elem_of_union. left.
      by apply elem_of_singleton.
    + intros y [->|Hy]%elem_of_cons; [done|]. intros Hin. apply (Hs y Hy), elem_of_union. by right.
Qed.

Lemma fresh_keys_empty {A K} `{Countable K} (key : A → K) xs :
  fresh_keys key ∅ xs ↔ NoDup (map key xs).
Proof. unfold fresh_keys. split; [by intros [? _]|]. intros ?. split; [done|set_solver]. Qed.

(** ** Insert-once stores *)

(** The in-memory sinks of the batch programs share one shape: a map by ID and the IDs in the
    order of their first insertion; a second insertion of an ID changes neither. *)
Class InsertOnce (S V : Type) := {
  io_key : V → string;
  io_map : S → gmap string V;
  io_order : S → list string;
  io_put : V → S → S
}.

Class InsertOnceLaws (S V : Type) `{InsertOnce S V} : Prop := {
  io_put_present s v :
    is_Some (io_map s !! io_key v) →
    io_map (io_put v s) = io_map s ∧ io_order (io_put v s) = io_order s;
  io_put_absent s v :
    io_map s !! io_key v = None →
    io_map (io_put v s) = <[io_key v := v]> (io_map s) ∧
    io_order (io_put v s) = io_order s ++ [io_key v]
}.

(** The values of [vs] whose key occurs neither in [seen] nor earlier in [vs]. *)
Fixpoint keep_first {V} (key : V → string) (seen : list string) (vs : list V) : list V :=
  match vs with
  | [] => []
  | v :: vs' =>
      if bool_decide (key v ∈ seen) then keep_first key seen vs'
      else v :: keep_first key (seen ++ [key v]) vs'
  end.

Lemma omap_cons_eq {A B} (f : A → option B) x l :
  omap f (x :: l) = match f x with Some y => y :: omap f l | None => omap f l end.
Proof. reflexivity. Qed.

Section InsertOnceFacts.
Context {S V : Type} `{!InsertOnce S V} `{!InsertOnceLaws S V}.
Implicit Types (s : S) (v : V).

Record io_wf s : Prop := {
  io_wf_nodup : NoDup (io_order s);
  io_wf_dom k : k ∈ io_order s ↔ is_Some (io_map s !! k);
  io_wf_key k v : io_map s !! k = Some v → io_key v = k
}.

(** The stored values in insertion order. *)
Definition io_list s : list V := omap (λ k, io_map s !! k) (io_order s).

Definition io_puts (vs : list V) s : S := foldl (λ s v, io_put v s) s vs.

Lemma io_map_put s v k :
  io_map (io_put v s) !! k =
    match io_map s !! k with
    | Some v' => Some v'
    | None => if decide (k = io_key v) then Some v else None
    end.
Proof.
  destruct (io_map s !! io_key v) as [v'|] eqn:E.
  - destruct (io_put_present s v) as [-> _]; [by rewrite E|].
    case_match eqn:F; [done|]. case_decide; congruence.
  - destruct (io_put_absent s v) as [-> _]; [done|]. case_decide as D; subst.
    + by rewrite E, lookup_insert_eq.
    + rewrite lookup_insert_ne by done. by case_match.
Qed.

(** First write wins: a stored value never changes. *)
Lemma io_put_stable s v k v' : io_map s !! k = Some v' → io_map (io_put v s) !! k = Some v'.
Proof. intros E. by rewrite io_map_put, E. Qed.

Lemma io_put_stored s v : is_Some (io_map (io_put v s) !! io_key v).
Proof. rewrite io_map_put. case_match; [eauto|]. rewrite decide_True by done. eauto. Qed.

Lemma io_wf_put s v : io_wf s → io_wf (io_put v s).
Proof.
  intros [Hnd Hdom Hkey]. destruct (io_map s !! io_key v) as [v'|] eqn:E.
  - destruct (io_put_present s v) as [Hm Ho]; [by rewrite E|].
    split; rewrite ?Ho, ?Hm; auto.
  - destruct (io_put_absent s v) as [Hm Ho]; [done|].
    assert (io_key v ∉ io_order s) by (rewrite Hdom, E; by intros [? ?]).
    split; rewrite ?Ho.
    + apply NoDup_app. split_and!; [done| |apply NoDup_singleton].
      intros x Hx ->%list_elem_of_singleton. done.
    + intros k. rewrite elem_of_app, list_elem_of_singleton, Hdom, Hm.
      rewrite lookup_insert. case_decide as D; [subst; split; eauto|].
      split; [intros [?| ->]; done|auto].
    + intros k w. rewrite Hm, lookup_insert. case_decide as D; [by intros [= <-]|auto].
Qed.

Lemma io_wf_puts vs s : io_wf s → io_wf (io_puts vs s).
Proof. revert s. induction vs; intros s Hs; [done|]. by apply IHvs, io_wf_put. Qed.

Lemma io_list_put s v :
  io_wf s →
  io_list (io_put v s) =
    if bool_decide (io_key v ∈ io_order s) then io_list s else io_list s ++ [v].
Proof.
  intros [Hnd Hdom Hkey]. unfold io_list.
  destruct (io_map s !! io_key v) as [v'|] eqn:E.
  - destruct (io_put_present s v) as [-> ->]; [by rewrite E|].
    rewrite bool_decide_true; [done|]. by rewrite Hdom, E.
  - destruct (io_put_absent s v) as [-> ->]; [done|].
    assert (io_key v ∉ io_order s) as Hn by (rewrite Hdom, E; by intros [? ?]).
    rewrite bool_decide_false by done. rewrite omap_app. simpl.
    rewrite lookup_insert_eq. f_equal.
    apply list_omap_ext, Forall_Forall2_diag, Forall_forall. intros k Hk.
    by rewrite lookup_insert_ne by (intros <-; done).
Qed.

Lemma io_order_put s v :
  io_wf s →
  io_order (io_put v s) =
    if bool_decide (io_key v ∈ io_order s) then io_order s else io_order s ++ [io_key v].
Proof.
  intros Hwf. case_bool_decide as D.
  - apply io_put_present. by apply Hwf.
  - apply io_put_absent. destruct (io_map s !! io_key v) eqn:E; [|done].
    destruct D. apply Hwf. eauto.
Qed.

(** Any sequence of insertions lists the first value of every new key, in order of arrival. *)
Lemma io_list_puts vs s :
  io_wf s → io_list (io_puts vs s) = io_list s ++ keep_first io_key (io_order s) vs.
Proof.
  revert s. induction vs as [|v vs IH]; intros s Hwf; simpl; [by rewrite app_nil_r|].
  unfold io_puts in *. rewrite IH by (by apply io_wf_put).
  rewrite io_list_put, io_order_put by done.
  case_bool_decide; [done|]. by rewrite <- app_assoc.
Qed.

(** Under [io_wf] every ID of the order has a value. *)
Lemma io_wf_forall (P : string → V → Prop) s :
  io_wf s → (∀ k v, io_map s !! k = Some v → P k v) →
  Forall (λ k, ∃ v, io_map s !! k = Some v ∧ P k v) (io_order s).
Proof.
  intros Hwf HP. apply Forall_forall. intros k Hk.
  apply Hwf in Hk as [v Hv]. eauto.
Qed.

Lemma io_list_keys s : io_wf s → map io_key (io_list s) = io_order s.
Proof.
  intros Hwf. pose proof (io_wf_forall (λ k v, io_key v = k) s Hwf (io_wf_key s Hwf)) as HF.
  unfold io_list. induction HF as [|k l (v & Hv & Hk) _ IH]; [done|].
  rewrite omap_cons_eq, Hv. cbn [map]. by rewrite Hk, IH.
Qed.

(** The Go snapshots index the map with every ID of the order; none is missing. *)
Lemma io_list_total s (zero : V) :
  io_wf s → map (λ k, default zero (io_map s !! k)) (io_order s) = io_list s.
Proof.
  intros Hwf. pose proof (io_wf_forall (λ _ _, True) s Hwf (λ _ _ _, I)) as HF.
  unfold io_list. induction HF as [|k l (v & Hv & _) _ IH]; [done|].
  rewrite omap_cons_eq. cbn [map]. rewrite Hv, IH. done.
Qed.
End InsertOnceFacts.
Arguments io_wf {S V _} _.
Arguments io_list {S V _} _.

(** ** Deduplication by key *)

Section KeepFirst.
Context {V : Type} (key : V → string).

Lemma keep_first_app seen xs ys :
  keep_first key seen (xs ++ ys) =
    keep_first key seen xs ++ keep_first key (seen ++ map key (keep_first key seen xs)) ys.
Proof.
  revert seen. induction xs as [|x xs IH]; intros seen; simpl; [by rewrite app_nil_r|].
  case_bool_decide; [apply IH|]. simpl. rewrite IH. by rewrite <- app_assoc.
Qed.

Lemma keep_first_seen seen xs :
  (∀ x, x ∈ xs → key x ∈ seen) → keep_first key seen xs = [].
Proof.
  induction xs as [|x xs IH]; intros Hx; [done|]. simpl.
  rewrite bool_decide_true by (apply Hx; left). apply IH. intros y Hy. apply Hx. by right.
Qed.

Lemma keep_first_subset seen xs x : x ∈ keep_first key seen xs → x ∈ xs.
Proof.
  revert seen. induction xs as [|y ys IH]; intros seen; cbn; [done|].
  case_bool_decide; [intros Hx; right; eauto|].
  intros [->|Hx]%elem_of_cons; [left|right; eauto].
Qed.

Lemma keep_first_covers seen xs x :
  x ∈ xs → key x ∈ seen ++ map key (keep_first key seen xs).
Proof.
  revert seen. induction xs as [|y ys IH]; intros seen; [by intros ?%elem_of_nil|].
  intros [->|Hx]%elem_of_cons; simpl; case_bool_decide as D.
  - apply elem_of_app. by left.
  - apply elem_of_app. right. left.
  - by apply IH.
  - specialize (IH (seen ++ [key y]) Hx). by rewrite <- app_assoc in IH.
Qed.

Lemma keep_first_fresh xs seen :
  NoDup (map key xs) → (∀ x, x ∈ xs → key x ∉ seen) → keep_first key seen xs = xs.
Proof.
  revert seen. induction xs as [|x xs IH]; intros seen Hnd Hs; [done|]. simpl.
  rewrite bool_decide_false by (apply Hs; left).
  apply NoDup_cons in Hnd as [Hx Hnd]. f_equal. apply IH; [done|].
  intros y Hy [?|?%list_elem_of_singleton]%elem_of_app; [by eapply Hs; [right|]|].
  apply Hx. apply list_elem_of_fmap. exists y. done.
Qed.

Lemma keep_first_nodup seen xs :
  NoDup seen → NoDup (seen ++ map key (keep_first key seen xs)).
Proof.
  revert seen. induction xs as [|x xs IH]; intros seen Hs; simpl; [by rewrite app_nil_r|].
  case_bool_decide as D; [by apply IH|]. simpl.
  specialize (IH (seen ++ [key x])). rewrite <- app_assoc in IH. apply IH.
  apply NoDup_app. split_and!; [done| |apply NoDup_singleton].
  intros y Hy ->%list_elem_of_singleton. done.
Qed.

(** Replaying a block that overlaps what a prefix already stored. *)
Lemma keep_first_replay outs b j m :
  (b ≤ m)%nat → (b + j ≤ length outs)%nat → (m ≤ length outs)%nat →
  let stored := keep_first key [] (take m outs) in
  stored ++ keep_first key (map key stored) (take j (drop b outs)) =
    keep_first key [] (take (Nat.max m (b + j)) outs).
Proof.
  intros Hb Hj Hm stored.
  set (block := take j (drop b outs)).
  assert (block = take (m - b) block ++ drop (m - b) block) as Hsplit by (by rewrite take_drop).
  rewrite Hsplit, keep_first_app.
  rewrite (keep_first_seen (map key stored) (take (m - b) block)).
  2: { intros x Hx. subst stored.
       pose proof (keep_first_covers [] (take m outs) x) as Hc. simpl in Hc. apply Hc.
       subst block. rewrite take_take in Hx.
       apply list_elem_of_lookup in Hx as [i Hi]. apply lookup_take_Some in Hi as [Hi Hlt].
       rewrite lookup_drop in Hi. apply list_elem_of_lookup. exists (b + i)%nat.
       apply lookup_take_Some. split; [done|lia]. }
  simpl. rewrite app_nil_r.
  assert (take (Nat.max m (b + j)) outs = take m outs ++ drop (m - b) block) as ->.
  { subst block. rewrite skipn_firstn_comm, drop_drop.
    replace (b + (m - b))%nat with m by lia.
    destruct (decide (b + j ≤ m)%nat) as [Hle|Hgt].
    - replace (Nat.max m (b + j)) with m by lia.
      replace (j - (m - b))%nat with 0%nat by lia. by rewrite take_0, app_nil_r.
    - replace (Nat.max m (b + j)) with (m + (j - (m - b)))%nat by lia.
      by rewrite <- take_take_drop. }
  rewrite keep_first_app. simpl. done.
Qed.
End KeepFirst.

(** [xs[i]] for a Go [int] index; [None] is the out-of-range panic. *)
Definition index_Z {A} (l : list A) (i : Z) : option A :=
  if i <? 0 then None else l !! Z.to_nat i.

Lemma index_Z_nat {A} (l : list A) (n : nat) : index_Z l (Z.of_nat n) = l !! n.
Proof. unfold index_Z. rewrite Nat2Z.id. by destruct (Z.ltb_spec (Z.of_nat n) 0); [lia|]. Qed.

(** [defer func() { if closeErr := close(); closeErr != nil { err = errors.Join(err, wrap) } }()]
    around the body [m]. *)
Definition with_deferred_close {S A} (closeErr : option GoError) (m : GoM S A) : GoM S A :=
  λ c s, let '(o, c', s') := m c s in
    match closeErr, o with
    | Some ce, Val _ => (Fail (Join [ce]), c', s')
    | Some ce, Fail e => (Fail (Join [e; ce]), c', s')
    | _, _ => (o, c', s')
    end.

(** [for _, x := range xs { ... }] that updates a local [acc] and may return. *)
Fixpoint foldM {S A B} (xs : list A) (f : A → B → GoM S B) (acc : B) : GoM S B :=
  match xs with
  | [] => ret acc
  | x :: xs => let! acc := f x acc in foldM xs f acc
  end.

(** [polling P m]: only a cancelled context can stop [m]; otherwise it ends with a value in [P]. *)
Definition polling {S A} (P : A → Prop) (m : GoM S A) : Prop :=
  ∀ c s o c' s', m c s = (o, c', s') →
    (ctx_polls c = None → c' = c) ∧
    ((∃ a, o = Val a ∧ P a) ∨ (ctx_polls c ≠ None ∧ ∃ cause, o = Fail (cause_error cause))).

Section Polling.
Context {S : Type}.

Lemma polling_ret {A} (P : A → Prop) a : P a → polling P (ret (S := S) a).
Proof. intros Ha ????? [= <- <- <-]. split; [done|]. left. eauto. Qed.

Lemma polling_ctxErr : polling (λ _, True) (ctxErr (S := S)).
Proof.
  intros c s o c' s' Hr. unfold ctxErr, ctx_poll in Hr.
  destruct (ctx_polls c) as [[|n]|] eqn:E; injection Hr as <- <- <-; (split; [done|]);
    [right; split; [done|eauto]|left; eauto..].
Qed.

Lemma polling_bind {A B} (P : A → Prop) (Q : B → Prop) (m : GoM S A) (k : A → GoM S B) :
  polling P m → (∀ a, P a → polling Q (k a)) → polling Q (bind m k).
Proof.
  intros Hm Hk c s o c' s' [(a & c1 & s1 & H1 & H2)|[(e & -> & H1)|[-> H1]]]%bind_inv.
  - destruct (Hm _ _ _ _ _ H1) as [Hc1 [(a' & [= <-] & Ha)|(_ & cause & [=])]].
    destruct (Hk a Ha _ _ _ _ _ H2) as [Hc2 [?|[Hne ?]]]; (split; [intros E; rewrite Hc2; [by apply Hc1|by rewrite Hc1]|]); [by left|].
    right. split; [|done]. intros E. apply Hne. by rewrite Hc1.
  - destruct (Hm _ _ _ _ _ H1) as [Hc1 [(a' & [=] & _)|(Hne & cause & [= ->])]].
    split; [done|]. right. split; [done|]. eauto.
  - destruct (Hm _ _ _ _ _ H1) as [_ [(a' & [=] & _)|(_ & cause & [=])]].
Qed.

Lemma polling_seq {B} (Q : B → Prop) (m : GoM S B) : polling Q m → polling Q (do! ctxErr; m).
Proof. intros Hm. eapply polling_bind; [apply polling_ctxErr|]. intros _ _. exact Hm. Qed.

Lemma polling_impl {A} (P Q : A → Prop) (m : GoM S A) :
  polling P m → (∀ a, P a → Q a) → polling Q m.
Proof. intros Hm HPQ c s o c' s' [? [(a & -> & Ha)|?]]%Hm; (split; [done|]); eauto. Qed.

(** Loop rule: [P] relates the elements seen so far to the accumulator. *)
Lemma polling_foldM {A B} (P : list A → B → Prop) (f : A → B → GoM S B) xs acc :
  P [] acc →
  (∀ seen x acc, P seen acc → x ∈ xs → polling (P (seen ++ [x])) (f x acc)) →
  polling (P xs) (foldM xs f acc).
Proof.
  enough (∀ seen, P seen acc →
    (∀ seen x acc, P seen acc → x ∈ xs → polling (P (seen ++ [x])) (f x acc)) →
    polling (P (seen ++ xs)) (foldM xs f acc)) as Hgen by apply (Hgen []).
  revert acc. induction xs as [|x xs IH]; intros acc seen H0 Hstep; cbn [foldM].
  { apply polling_ret. by rewrite app_nil_r. }
  eapply polling_bind; [by apply (Hstep seen); [|left]|]. intros b Hb.
  replace (seen ++ x :: xs) with ((seen ++ [x]) ++ xs) by (by rewrite <- app_assoc).
  apply IH; [done|]. intros s y b0 Hs Hy. apply Hstep; [done|by right].
Qed.
End Polling.

(** ** UTF-8 *)

Definition cont_byte (n : nat) : bool := ((128 <=? n) && (n <=? 191))%nat.
Definition byte_in (lo hi n : nat) : bool := ((lo <=? n) && (n <=? hi))%nat.

(** The bytes after the first rune, and whether that rune is well formed; a byte that starts no
    well-formed rune counts as a rune of its own. *)
Definition decode_rune (bytes : list nat) : option (bool * list nat) :=
  match bytes with
  | [] => None
  | b :: rest =>
      if (b <? 128)%nat then Some (true, rest)
      else
        match rest with
        | c :: rest2 =>
            if byte_in 194 223 b && cont_byte c then Some (true, rest2)
            else
              let second :=
                if (b =? 224)%nat then byte_in 160 191 c
                else if (b =? 237)%nat then byte_in 128 159 c
                else if (b =? 240)%nat then byte_in 144 191 c
                else if (b =? 244)%nat then byte_in 128 143 c
                else cont_byte c in
              match rest2 with
              | d :: rest3 =>
                  if byte_in 224 239 b && second && cont_byte d then Some (true, rest3)
                  else
                    match rest3 with
                    | e :: rest4 =>
                        if byte_in 240 244 b && second && cont_byte d && cont_byte e
                        then Some (true, rest4) else Some (false, rest)
                    | [] => Some (false, rest)
                    end
              | [] => Some (false, rest)
              end
        | [] => Some (false, rest)
        end
  end.

Fixpoint runes (fuel : nat) (bytes : list nat) : list bool :=
  match fuel, decode_rune bytes with
  | S fuel, Some (ok, rest) => ok :: runes fuel rest
  | _, _ => []
  end.
Definition runes_of (s : string) : list bool :=
  runes (String.length s) (map nat_of_ascii (list_ascii_of_string s)).

(** [utf8.ValidString] and [utf8.RuneCountInString]. *)
Definition ValidString (s : string) : bool := forallb id (runes_of s).
Definition RuneCountInString (s : string) : Z := len (runes_of s).

(** ** Errors as values *)

(** [if err := f(); err != nil { return err }] for a check that touches no state. *)
Definition fail_if {S} (e : option GoError) : GoM S unit :=
  match e with Some err => throw err | None => ret tt end.
(** [x, err := f(); if err != nil { return wrap(err) }]. *)
Definition or_fail {S A} (wrap : GoError → GoError) (r : GoError + A) : GoM S A :=
  match r with inl e => throw (wrap e) | inr a => ret a end.

(** The same in a function without a receiver state. *)
Definition and_then {A B} (r : GoError + A) (k : A → GoError + B) : GoError + B :=
  match r with inl e => inl e | inr a => k a end.
Definition wrapping {A} (wrap : GoError → GoError) (r : GoError + A) : GoError + A :=
  match r with inl e => inl (wrap e) | inr a => inr a end.
Definition check (e : option GoError) : GoError + unit :=
  match e with Some err => inl err | None => inr tt end.
Notation "'try!' x := r 'in' k" := (and_then r (λ x, k))
  (at level 10, x pattern, r at level 100, k at level 200) : go_scope.

Lemma and_then_inr {A B} (r : GoError + A) (k : A → GoError + B) b :
  and_then r k = inr b ↔ ∃ a, r = inr a ∧ k a = inr b.
Proof. destruct r; naive_solver. Qed.
Lemma wrapping_inr {A} f (r : GoError + A) a : wrapping f r = inr a ↔ r = inr a.
Proof. destruct r; naive_solver. Qed.
Lemma check_inr e u : check e = inr u ↔ e = None.
Proof. destruct e, u; naive_solver. Qed.

Lemma fail_if_run {S} (e : option GoError) {c} {s : S} {o c' s'} :
  fail_if e c s = (o, c', s') →
  c' = c ∧ s' = s ∧ (o = Val tt ∧ e = None ∨ ∃ err, o = Fail err ∧ e = Some err).
Proof. destruct e as [err|]; intros [= <- <- <-]; eauto 8. Qed.
Lemma or_fail_run {S A} f (r : GoError + A) {c} {s : S} {o c' s'} :
  or_fail f r c s = (o, c', s') →
  c' = c ∧ s' = s ∧ ((∃ a, o = Val a ∧ r = inr a) ∨ ∃ e, o = Fail (f e) ∧ r = inl e).
Proof. destruct r as [e|a]; intros [= <- <- <-]; eauto 8. Qed.

(** ** JSON strings *)

Definition hex_digit (n : nat) : ascii := ascii_of_nat (if (n <? 10)%nat then 48 + n else 87 + n).
Definition json_escape (n : nat) : string :=
  if bool_decide (n = 34 ∨ n = 92)%nat then ascii_str [92; n]%nat
  else if bool_decide (n = 8)%nat then "\b" else if bool_decide (n = 12)%nat then "\f"
  else if bool_decide (n = 10)%nat then "\n" else if bool_decide (n = 13)%nat then "\r"
  else if bool_decide (n = 9)%nat then "\t"
  else if (n <? 32)%nat || bool_decide (n = 60 ∨ n = 62 ∨ n = 38)%nat
  then String.append "\u00" (String (hex_digit (n / 16)) (String (hex_digit (n mod 16)) ""))
  else ascii_str [n]%nat.

(** The text between the quotes of the string [encoding/json] writes: quotes, backslashes, control
    and HTML characters and the line separators are escaped, and each byte that is no rune becomes
    the replacement character. *)
Fixpoint json_chars (fuel : nat) (bytes : list nat) : string :=
  match fuel, bytes with
  | O, _ | _, [] => ""
  | S fuel', n :: rest =>
      if (n <? 128)%nat then String.append (json_escape n) (json_chars fuel' rest)
      else match decode_rune bytes with
           | Some (true, after) =>
               let rune := take (length bytes - length after) bytes in
               let text := if bool_decide (rune = [226; 128; 168]%nat) then "\u2028"
                           else if bool_decide (rune = [226; 128; 169]%nat) then "\u2029"
                           else ascii_str rune in
               String.append text (json_chars fuel' after)
           | Some (false, after) => String.append "\ufffd" (json_chars fuel' after)
           | None => ""
           end
  end.
Definition json_string (s : string) : string :=
  (quote_char ++ json_chars (String.length s) (map nat_of_ascii (list_ascii_of_string s)) ++ quote_char)%string.

(** ** Identifiers *)

(** The pattern [^[A-Za-z0-9][A-Za-z0-9._-]{0,127}$] the packages use for identifiers. *)
Definition ident_head (c : ascii) : bool :=
  let n := nat_of_ascii c in byte_in 48 57 n || byte_in 65 90 n || byte_in 97 122 n.
Definition ident_char (c : ascii) : bool :=
  ident_head c || bool_decide (c ∈ ["."; "_"; "-"]%char).
Definition safe_identifier (s : string) : bool :=
  match s with
  | EmptyString => false
  | String c rest =>
      ident_head c && forallb ident_char (list_ascii_of_string rest)
      && (String.length rest <=? 127)%nat
  end.

(** ** Float64 *)

(** A Go [float64] is an IEEE 754 binary64 value. *)
Abbreviation float64 := spec_float.
Definition f64_zero : float64 := S754_zero false.
Definition f64_one : float64 := S754_finite false 4503599627370496 (-52).
Definition IsNaN (x : float64) : bool := match x with S754_nan => true | _ => false end.
Definition IsInf (x : float64) : bool := match x with S754_infinity _ => true | _ => false end.

(** ** Concatenation *)

Section Append.
#[local] Arguments String.append !_ _ : simpl nomatch.

Lemma append_assoc_s (a b c : string) : ((a ++ b) ++ c)%string = (a ++ (b ++ c))%string.
Proof. induction a as [|x a IH]; cbn; [done|by rewrite IH]. Qed.
Lemma append_nil_r_s (a : string) : (a ++ "")%string = a.
Proof. induction a as [|x a IH]; cbn; [done|by rewrite IH]. Qed.
Lemma append_length_s (a b : string) :
  String.length (a ++ b)%string = (String.length a + String.length b)%nat.
Proof. induction a as [|x a IH]; cbn; [done|by rewrite IH]. Qed.
Lemma list_ascii_app (a b : string) :
  list_ascii_of_string (a ++ b)%string = list_ascii_of_string a ++ list_ascii_of_string b.
Proof. induction a as [|x a IH]; cbn; [done|by rewrite IH]. Qed.
Lemma string_of_app l1 l2 :
  string_of_list_ascii (l1 ++ l2) = (string_of_list_ascii l1 ++ string_of_list_ascii l2)%string.
Proof. induction l1 as [|x l1 IH]; cbn; [done|by rewrite IH]. Qed.
Lemma rev_str_app a b : rev_str (a ++ b)%string = (rev_str b ++ rev_str a)%string.
Proof. unfold rev_str. by rewrite list_ascii_app, rev_app_distr, string_of_app. Qed.
End Append.

(** ** Slices and repetitions of strings *)

Fixpoint take_str (n : nat) (s : string) : string :=
  match n, s with
  | S n', String c s' => String c (take_str n' s')
  | _, _ => EmptyString
  end.
(** [s[from:to]]: out of range it panics. *)
Definition go_slice (s : string) (from to : Z) : option string :=
  if (0 <=? from) && (from <=? to) && (to <=? Z.of_nat (String.length s))
  then Some (take_str (Z.to_nat (to - from)) (drop_str (Z.to_nat from) s)) else None.
Fixpoint repeat_str (s : string) (n : nat) : string :=
  match n with O => "" | S n' => (s ++ repeat_str s n')%string end.
(** [strings.Repeat]: a result longer than an [int] counts panics. *)
Definition Repeat (s : string) (count : Z) : option string :=
  if (count <? 0) || (2 ^ 63 - 1 <? Z.of_nat (String.length s) * count) then None
  else Some (repeat_str s (Z.to_nat count)).

(** ** Trimming identifiers *)

(** A string that starts and ends with an identifier character has nothing to trim. *)
Definition starts_outside (ok : ascii → bool) (r : string) : bool :=
  match r with String c _ => negb (ok c) | EmptyString => false end.

Lemma starts_with_head a r c s : starts_with (String a r) (String c s) = true → a = c.
Proof. unfold starts_with. cbn. destruct (ascii_dec a c); [done|done]. Qed.

Lemma no_strip ok runes c s :
  forallb (starts_outside ok) runes = true → ok c = true → strip_one runes (String c s) = None.
Proof.
  intros Hr Hc. unfold strip_one. induction runes as [|r runes IH]; [done|].
  cbn [forallb List.find] in *. apply andb_true_iff in Hr as [Hr Hrs]. destruct r as [|a r]; [done|].
  destruct (starts_with (String a r) (String c s)) eqn:E; [|by apply IH].
  apply starts_with_head in E as ->. cbn in Hr. by rewrite Hc in Hr.
Qed.

Lemma trim_front_head ok runes fuel c s :
  forallb (starts_outside ok) runes = true → ok c = true → trim_front runes fuel (String c s) = String c s.
Proof. intros Hr Hc. destruct fuel; [done|]. cbn [trim_front]. by rewrite (no_strip ok). Qed.

Lemma list_ascii_string s : string_of_list_ascii (list_ascii_of_string s) = s.
Proof. induction s as [|c s IH]; cbn; [done|by rewrite IH]. Qed.
Lemma list_string_ascii l : list_ascii_of_string (string_of_list_ascii l) = l.
Proof. induction l as [|c l IH]; cbn; [done|by rewrite IH]. Qed.
Lemma rev_str_involutive s : rev_str (rev_str s) = s.
Proof. unfold rev_str. by rewrite list_string_ascii, rev_involutive, list_ascii_string. Qed.

Lemma spaces_outside_ident :
  forallb (starts_outside ident_char) space_runes = true ∧
  forallb (starts_outside ident_char) (map rev_str space_runes) = true.
Proof. by vm_compute. Qed.

(** What starts and ends with an identifier character has nothing to trim. *)
Lemma trim_ends c r d t :
  ident_char c = true → ident_char d = true → rev_str (String c r) = String d t →
  TrimSpace (String c r) = String c r.
Proof.
  destruct spaces_outside_ident as [H1 H2]. intros Hc Hd E. unfold TrimSpace.
  by rewrite (trim_front_head ident_char), E, (trim_front_head ident_char), <- E, rev_str_involutive.
Qed.

Lemma rev_ident s :
  s ≠ "" → forallb ident_char (list_ascii_of_string s) = true →
  ∃ d t, rev_str s = String d t ∧ ident_char d = true.
Proof.
  intros Hne Hs. unfold rev_str. destruct (rev (list_ascii_of_string s)) as [|d l] eqn:E.
  - apply (f_equal (@rev _)) in E. rewrite rev_involutive in E. by destruct s.
  - exists d, (string_of_list_ascii l). split; [done|]. rewrite forallb_forall in Hs. apply Hs.
    rewrite in_rev, E. by left.
Qed.

Lemma trim_ident s : forallb ident_char (list_ascii_of_string s) = true → TrimSpace s = s.
Proof.
  destruct s as [|c s]; [done|]. intros Hs. destruct (rev_ident (String c s)) as (d & t & E & Hd); [done..|].
  apply (trim_ends c s d t); [|done..]. cbn in Hs. by apply andb_true_iff in Hs as [? _].
Qed.

Lemma trim_safe s : safe_identifier s = true → TrimSpace s = s.
Proof.
  destruct s as [|c s]; [done|]. cbn [safe_identifier]. rewrite !andb_true_iff. intros [[Hc Hs] _].
  apply trim_ident. cbn. apply andb_true_iff. split; [|done]. unfold ident_char. by rewrite Hc.
Qed.

(** Trimming leaves nothing to trim. *)
Lemma starts_with_app r s t : starts_with r s = true → starts_with r (s ++ t)%string = true.
Proof.
  unfold starts_with. revert s. induction r as [|c r IH]; intros [|d s]; [by destruct t|done..|].
  change (String d s ++ t)%string with (String d (s ++ t)%string). cbn. destruct (ascii_dec c d); [apply IH|done].
Qed.
Lemma drop_str_split n s : ∃ p, s = (p ++ drop_str n s)%string.
Proof.
  revert s. induction n as [|n IH]; intros s; [by exists ""|]. destruct s as [|c s]; [by exists ""|].
  destruct (IH s) as [p Hp]. exists (String c p). cbn [drop_str].
  change (String c p ++ drop_str n s)%string with (String c (p ++ drop_str n s)%string). by rewrite <- Hp.
Qed.
Lemma drop_str_length n s : String.length (drop_str n s) = (String.length s - n)%nat.
Proof. revert s. induction n as [|n IH]; intros [|c s]; cbn; [done..|apply IH]. Qed.
Lemma strip_one_found runes s s' : strip_one runes s = Some s' → ∃ r, r ∈ runes ∧ starts_with r s = true ∧ s' = drop_str (String.length r) s.
Proof.
  unfold strip_one. destruct (List.find _ runes) as [r|] eqn:E; [|done]. intros [= <-].
  apply List.find_some in E as [Hin Hs]. exists r. split; [by apply list_elem_of_In|done].
Qed.
Lemma strip_one_prefix runes s t : strip_one runes (s ++ t)%string = None → strip_one runes s = None.
Proof.
  unfold strip_one. destruct (List.find _ runes) as [r|] eqn:E; [done|]. intros _.
  destruct (List.find (λ r, starts_with r s) runes) as [r|] eqn:E'; [|done].
  apply List.find_some in E' as [Hin Hs]. eapply List.find_none in E; [|exact Hin]. by rewrite starts_with_app in E.
Qed.
Lemma trim_front_suffix runes fuel s : ∃ p, s = (p ++ trim_front runes fuel s)%string.
Proof.
  revert s. induction fuel as [|fuel IH]; intros s; [by exists ""|]. cbn [trim_front].
  destruct (strip_one runes s) as [s'|] eqn:E; [|by exists ""].
  apply strip_one_found in E as (r & _ & _ & ->). destruct (drop_str_split (String.length r) s) as [p Hp].
  destruct (IH (drop_str (String.length r) s)) as [p' Hp']. exists (p ++ p')%string. by rewrite append_assoc_s, <- Hp', <- Hp.
Qed.
Lemma trim_front_done runes fuel s :
  Forall (λ r, r ≠ "") runes → (String.length s <= fuel)%nat → strip_one runes (trim_front runes fuel s) = None.
Proof.
  intros Hr. revert s. induction fuel as [|fuel IH]; intros s Hs; cbn [trim_front].
  - destruct (strip_one runes s) eqn:E; [|done]. apply strip_one_found in E as (r & Hin & Hp & _).
    rewrite Forall_forall in Hr. specialize (Hr r Hin). destruct s; [|cbn in Hs; lia]. by destruct r.
  - destruct (strip_one runes s) as [s'|] eqn:E; [|done]. apply IH.
    apply strip_one_found in E as (r & Hin & Hp & ->). rewrite drop_str_length.
    rewrite Forall_forall in Hr. specialize (Hr r Hin). destruct r as [|c r]; [done|]. destruct s as [|d s]; [done|]. cbn in *. lia.
Qed.
Lemma trim_front_nothing runes fuel s : strip_one runes s = None → trim_front runes fuel s = s.
Proof. intros H. destruct fuel; [done|]. cbn [trim_front]. by rewrite H. Qed.
Lemma space_runes_filled : Forall (λ r, r ≠ "") space_runes ∧ Forall (λ r, r ≠ "") (map rev_str space_runes).
Proof.
  assert (∀ l, forallb (λ r, negb (bool_decide (r = ""))) l = true → Forall (λ r, r ≠ "") l) as H.
  { intros l Hl. rewrite forallb_forall in Hl. apply Forall_forall. intros r Hin. apply list_elem_of_In, Hl in Hin.
    by apply negb_true_iff, bool_decide_eq_false in Hin. }
  split; apply H; by vm_compute.
Qed.
Lemma length_ascii l : String.length (string_of_list_ascii l) = length l.
Proof. induction l as [|c l IH]; cbn; [done|by rewrite IH]. Qed.
Lemma rev_str_length s : String.length (rev_str s) = String.length s.
Proof. unfold rev_str. by rewrite length_ascii, length_rev, <- length_ascii, list_ascii_string. Qed.
Lemma TrimSpace_idem s : TrimSpace (TrimSpace s) = TrimSpace s.
Proof.
  destruct space_runes_filled as [Hf Hr]. unfold TrimSpace at 2 3.
  set (front := trim_front space_runes (String.length s) s).
  set (b := trim_front (map rev_str space_runes) (String.length front) (rev_str front)).
  assert (strip_one space_runes front = None) as H1 by (by apply trim_front_done).
  assert (strip_one (map rev_str space_runes) b = None) as H2 by (apply trim_front_done; [done|by rewrite rev_str_length]).
  destruct (trim_front_suffix (map rev_str space_runes) (String.length front) (rev_str front)) as [p Hp]. fold b in Hp.
  apply (f_equal rev_str) in Hp. rewrite rev_str_involutive, rev_str_app in Hp. rewrite Hp in H1. apply strip_one_prefix in H1.
  unfold TrimSpace. rewrite (trim_front_nothing _ _ _ H1), rev_str_involutive. by rewrite (trim_front_nothing _ _ _ H2).
Qed.

(** What holds of the answer to a call, and goes on to hold, holds at the end of a sequence of calls. *)
Lemma serve_all_answers {S Q A} (G : S → S → Prop) `{!PreOrder G} (ok : Q → Prop) (P : Q → Outcome A → S → Prop) (serve : Q → GoM S A) requests s answers s' :
  (∀ q c s o c' s', ok q → serve q c s = (o, c', s') → G s s' ∧ P q o s') → (∀ q o s s', G s s' → P q o s → P q o s') →
  Forall (λ call, ok call.2) requests → serve_all serve requests s = (answers, s') →
  G s s' ∧ ∀ i c q o, requests !! i = Some (c, q) → answers !! i = Some o → P q o s'.
Proof.
  intros Hstep Hmono. revert s answers. induction requests as [|[c q] rest IH]; intros s answers Hok; cbn; [by intros [= <- <-]|].
  apply Forall_cons in Hok as [Hq Hok]. destruct (serve q c s) as [[o c1] s1] eqn:E1. destruct (serve_all serve rest s1) as [os s2] eqn:E2.
  intros [= <- <-]. apply Hstep in E1 as [G1 P1]; [|done]. destruct (IH _ _ Hok E2) as [G2 P2]. split; [by etrans|].
  intros [|i] c' q' o'; cbn; [intros [= -> ->] [= ->]; by eapply Hmono|apply P2].
Qed.

Section MoreMoves.
Context {S : Type} (R : S → S → Prop) `{!Reflexive R}.
Lemma moves_fail_if e : moves R (fail_if e).
Proof. destruct e; [by apply moves_throw|by apply moves_ret]. Qed.
Lemma moves_or_fail {A} f (r : GoError + A) : moves R (or_fail f r).
Proof. destruct r; [by apply moves_throw|by apply moves_ret]. Qed.
End MoreMoves.
#[export] Hint Resolve moves_fail_if moves_or_fail : gom.

(** ** Texts of several fields, for codecs of evaluations *)

(** Every byte behind a mark, and another mark at the end of a field. *)
Fixpoint write_field (s : string) : string :=
  match s with EmptyString => "e" | String c rest => String "c" (String c (write_field rest)) end.
Fixpoint read_field (s : string) : option (string * string) :=
  match s with
  | String "e" rest => Some ("", rest)
  | String "c" (String c rest) =>
      match read_field rest with Some (f, rest') => Some (String c f, rest') | None => None end
  | _ => None
  end.
Fixpoint read_fields (n : nat) (s : string) : option (list string) :=
  match n with
  | O => if bool_decide (s = "") then Some [] else None
  | S n' =>
      match read_field s with
      | Some (f, rest) => match read_fields n' rest with Some fs => Some (f :: fs) | None => None end
      | None => None
      end
  end.
Fixpoint write_fields (fs : list string) : string :=
  match fs with [] => "" | f :: fs' => (write_field f ++ write_fields fs')%string end.

Section Fields.
#[local] Arguments String.append !_ _ : simpl nomatch.
Lemma read_write_field f rest : read_field (write_field f ++ rest)%string = Some (f, rest).
Proof. induction f as [|c f IH]; cbn; [done|]. by rewrite IH. Qed.
Lemma read_write_fields fs : read_fields (length fs) (write_fields fs) = Some fs.
Proof. induction fs as [|f fs IH]; cbn; [done|]. by rewrite read_write_field, IH. Qed.
End Fields.
