(* ===== verification/BatchProtocol.v ===== *)
(** The batch engine as the programs may rely on it.

    [batch.Step] and [batch.Job] are library code outside this repository. What the repository
    documents of them (docs/superpowers/research/2026-06-09-issue-73-*.md and issue-41-*.md) is
    the interface between the engine and its parts and the order of the calls: the reader and the
    writer are opened, a saved checkpoint is restored before the read loop, items are read and
    processed one at a time, a chunk of processed items is written, and the reader's checkpoint is
    saved only after a filtered or skipped item or after a successful chunk write. [BatchOps] is
    the interface, [eng_step] that documented order with everything else left open (chunk sizes,
    cancellation at any poll, crashes at any point, restarts), and the theorems of this file hold
    for every engine that stays within it. *)
From S2P Require Export Prelude.

(** A dynamic value ([any]) as a type switch over [C] and [*C] tells it apart. *)
Inductive AnyOf (C : Type) :=
  | AnyValue (c : C)
  | AnyPointer (c : Ptr C)
  | AnyOther (type_name : string).
Arguments AnyValue {C}.
Arguments AnyPointer {C}.
Arguments AnyOther {C}.

(** A checkpoint store as the step sees it ([batch.CheckpointStore]). *)
Class CheckpointStore (St K : Type) := {
  cs_Load : string → GoM St (option K);
  cs_Save : string → K → GoM St unit
}.

(** What the documentation promises of a store: a load answers with the value of the last
    successful save at its key and changes no value. [view] is the stored value of each key. *)
Class CheckpointStoreLaws (St K : Type) `{CheckpointStore St K}
    (view : St → string → option K) : Prop := {
  cs_load_law key c st o c' st' :
    cs_Load key c st = (o, c', st') →
    (∀ k, view st' k = view st k) ∧ (∀ v, o = Val v → v = view st key);
  cs_save_law key k c st o c' st' :
    cs_Save key k c st = (o, c', st') →
    (∀ key', key' ≠ key → view st' key' = view st key') ∧
    match o with
    | Val _ => view st' key = Some k
    | _ => view st' key = view st key
    end
}.

(** The operations a step calls: reader [R], writer [W] (with its sink), processor [P], checkpoint
    store [St] (at the step's key), items [I], outputs [O] and checkpoint values [K]. *)
Class BatchOps (R W P St I O K : Type) := {
  rd_open : GoM R unit;
  rd_read : GoM R (option I);
  rd_restore : K → GoM R unit;
  rd_checkpoint : GoM R K;
  rd_close : GoM R unit;
  wr_open : GoM W unit;
  wr_write : list O → GoM W unit;
  wr_close : GoM W unit;
  pr_process : I → GoM P (option O);
  st_load : GoM St (option K);
  st_save : K → GoM St unit;
  (* the objects a new run may start from; the sink behind the writer is shared *)
  rd_new : R → Prop;
  wr_renew : W → W → Prop;
  pr_renew : P → P → Prop
}.

(** Replaces the interface's projections by a program's operations, without unfolding those. *)
Tactic Notation "unfold_ops" reference(ops) :=
  cbn [ops rd_open rd_read rd_restore rd_checkpoint rd_close wr_open wr_write wr_close
       pr_process st_load st_save rd_new wr_renew pr_renew].

Tactic Notation "unfold_ops_in" reference(ops) :=
  cbn [ops rd_open rd_read rd_restore rd_checkpoint rd_close wr_open wr_write wr_close
       pr_process st_load st_save rd_new wr_renew pr_renew] in *.

Inductive Phase := Created | Opened | Running | Stopped.

Record Eng (R W P St O : Type) := mkEng {
  e_reader : R; e_writer : W; e_proc : P; e_store : St; e_pending : list O; e_phase : Phase
}.
Arguments mkEng {R W P St O}.
Arguments e_reader {R W P St O}.
Arguments e_writer {R W P St O}.
Arguments e_proc {R W P St O}.
Arguments e_store {R W P St O}.
Arguments e_pending {R W P St O}.
Arguments e_phase {R W P St O}.

Section Engine.
Context {R W P St I O K : Type} {B : BatchOps R W P St I O K}.
(** The step's [RetryPolicy] and [SkipPolicy]. *)
Context (retry skip : GoError → bool).

(** The processor's verdict on one item, retries included. *)
Inductive processed (i : I) : P → P → Outcome (option O) → Prop :=
  | processed_once c p o c' p' :
      pr_process i c p = (o, c', p') → processed i p p' o
  | processed_retry c p e c' p1 p2 o :
      pr_process i c p = (Fail e, c', p1) → retry e = true →
      processed i p1 p2 o → processed i p p2 o.

(** Reasoning about all attempts at an item: [mid] holds between attempts, [post] afterwards. *)
Lemma processed_closed i (mid : P → Prop) (post : Outcome (option O) → P → Prop) :
  (∀ c p v c' p', mid p → pr_process i c p = (v, c', p') → post v p') →
  (∀ e p, post (Fail e) p → retry e = true → mid p) →
  ∀ p p' v, mid p → processed i p p' v → post v p'.
Proof.
  intros Hstep Hretry p p' v Hm H.
  induction H as [c p o c' p' Hp|c p e c' p1 p2 o Hp Hr _ IH]; eauto.
Qed.

Inductive saved_after (r : R) (st : St) : R → St → Prop :=
  | saved_after_intro c1 c1' r' k c2 c2' st' :
      rd_checkpoint c1 r = (Val k, c1', r') → st_save k c2 st = (Val tt, c2', st') →
      saved_after r st r' st'.

(** One action of the engine. Every call may see any context. *)
Inductive eng_step : Eng R W P St O → Eng R W P St O → Prop :=
  | es_open r w p st buf c1 c1' r' c2 c2' w' :
      rd_open c1 r = (Val tt, c1', r') → wr_open c2 w = (Val tt, c2', w') →
      eng_step (mkEng r w p st buf Created) (mkEng r' w' p st [] Opened)
  | es_load_none r w p st c c' st' :
      st_load c st = (Val None, c', st') →
      eng_step (mkEng r w p st [] Opened) (mkEng r w p st' [] Running)
  | es_restore r w p st c c' st' k c2 c2' r' :
      st_load c st = (Val (Some k), c', st') → rd_restore k c2 r = (Val tt, c2', r') →
      eng_step (mkEng r w p st [] Opened) (mkEng r' w p st' [] Running)
  | es_item r w p st buf c c' r' i p' o :
      rd_read c r = (Val (Some i), c', r') → processed i p p' (Val (Some o)) →
      eng_step (mkEng r w p st buf Running) (mkEng r' w p' st (buf ++ [o]) Running)
  | es_drop r w p st buf c c' r1 i p' v r' st' :
      rd_read c r = (Val (Some i), c', r1) → processed i p p' v →
      (v = Val None ∨ ∃ e, v = Fail e ∧ skip e = true) →
      saved_after r1 st r' st' →
      eng_step (mkEng r w p st buf Running) (mkEng r' w p' st' buf Running)
  | es_drop_unread r w p st buf c c' r1 i p' v c2 c2' r' o :
      rd_read c r = (Val (Some i), c', r1) → processed i p p' v →
      (v = Val None ∨ ∃ e, v = Fail e ∧ skip e = true) →
      rd_checkpoint c2 r1 = (o, c2', r') →
      eng_step (mkEng r w p st buf Running) (mkEng r' w p' st buf Stopped)
  | es_drop_unsaved r w p st buf c c' r1 i p' v c2 c2' r' k c3 c3' o st' :
      rd_read c r = (Val (Some i), c', r1) → processed i p p' v →
      (v = Val None ∨ ∃ e, v = Fail e ∧ skip e = true) →
      rd_checkpoint c2 r1 = (Val k, c2', r') → st_save k c3 st = (o, c3', st') →
      eng_step (mkEng r w p st buf Running) (mkEng r' w p' st' buf Stopped)
  | es_end r w p st buf c c' r' :
      rd_read c r = (Val None, c', r') →
      eng_step (mkEng r w p st buf Running) (mkEng r' w p st buf Running)
  | es_commit r w p st buf c c' w' r' st' :
      wr_write buf c w = (Val tt, c', w') → saved_after r st r' st' →
      eng_step (mkEng r w p st buf Running) (mkEng r' w' p st' [] Running)
  | es_commit_unsaved r w p st buf c c' w' :
      wr_write buf c w = (Val tt, c', w') →
      eng_step (mkEng r w p st buf Running) (mkEng r w' p st [] Stopped)
  | es_open_fail r w p st buf c1 c1' r' o1 c2 c2' w' o2 :
      rd_open c1 r = (o1, c1', r') → wr_open c2 w = (o2, c2', w') →
      eng_step (mkEng r w p st buf Created) (mkEng r' w' p st [] Stopped)
  | es_rd_open_fail r w p st buf c c' r' o :
      rd_open c r = (o, c', r') →
      eng_step (mkEng r w p st buf Created) (mkEng r' w p st [] Stopped)
  | es_load_fail r w p st buf c c' st' o :
      st_load c st = (o, c', st') →
      eng_step (mkEng r w p st buf Opened) (mkEng r w p st' buf Stopped)
  | es_read_fail r w p st buf c c' r' o :
      rd_read c r = (o, c', r') →
      eng_step (mkEng r w p st buf Running) (mkEng r' w p st buf Stopped)
  | es_save_fail r w p st buf c1 c1' w' c2 c2' r' k c3 c3' o st' :
      wr_write buf c1 w = (Val tt, c1', w') → rd_checkpoint c2 r = (Val k, c2', r') →
      st_save k c3 st = (o, c3', st') →
      eng_step (mkEng r w p st buf Running) (mkEng r' w' p st' [] Stopped)
  | es_restore_fail r w p st buf c c' st' k o c2 c2' r' :
      st_load c st = (Val (Some k), c', st') → rd_restore k c2 r = (o, c2', r') →
      eng_step (mkEng r w p st buf Opened) (mkEng r' w p st' buf Stopped)
  | es_process_fail r w p st buf c c' r' i p' v :
      rd_read c r = (Val (Some i), c', r') → processed i p p' v →
      eng_step (mkEng r w p st buf Running) (mkEng r' w p' st buf Stopped)
  | es_write_fail r w p st buf c c' w' o :
      wr_write buf c w = (o, c', w') →
      eng_step (mkEng r w p st buf Running) (mkEng r w' p st [] Stopped)
  | es_crash r w p st buf ph :
      eng_step (mkEng r w p st buf ph) (mkEng r w p st buf Stopped)
  | es_close r w p st buf c1 c1' r' o1 c2 c2' w' o2 :
      rd_close c1 r = (o1, c1', r') → wr_close c2 w = (o2, c2', w') →
      eng_step (mkEng r w p st buf Stopped) (mkEng r' w' p st [] Stopped)
  | es_restart r w p st buf r' w' p' :
      rd_new r' → wr_renew w w' → pr_renew p p' →
      eng_step (mkEng r w p st buf Stopped) (mkEng r' w' p' st [] Created).

Definition eng_steps := rtc eng_step.
End Engine.

(** A report of a job or a step ([batch.Report] without its timestamps, and the answer of its
    [IsFailure] method). *)
Inductive Report := mkReport {
  rp_Name : string;
  rp_Status : string;
  rp_ReadCount : Z;
  rp_WriteCount : Z;
  rp_FilterCount : Z;
  rp_SkipCount : Z;
  rp_RetryCount : Z;
  rp_Err : option GoError;
  rp_IsFailure : bool;
  rp_Children : list Report
}.

(** What an import program promises to the engine: a reader that is a cursor over a fixed source,
    a processor that computes a function, a sink that keeps the first value of each key, and a
    checkpoint store that returns what was saved. *)
Class ImportLaws {R W P St I O K} (B : BatchOps R W P St I O K)
    (src : list I) (f : I → option O) (key : O → string)
    (rd_ok : R → Prop) (wr_ok : W → Prop) (cursor : R → nat) (index : K → option nat)
    (content : W → list O) (saved : St → option nat) : Prop := {
  il_new r : rd_new r → rd_ok r;
  il_wr_renew w w' : wr_ok w → wr_renew w w' → wr_ok w' ∧ content w' = content w;
  il_open c r o c' r' :
    rd_ok r → rd_open c r = (o, c', r') → rd_ok r' ∧ (o = Val tt → cursor r' = 0%nat);
  il_read c r o c' r' :
    rd_ok r → rd_read c r = (o, c', r') →
    rd_ok r' ∧
    match o with
    | Val (Some i) => src !! cursor r = Some i ∧ cursor r' = S (cursor r)
    | Val None => (length src ≤ cursor r)%nat ∧ cursor r' = cursor r
    | _ => cursor r' = cursor r
    end;
  il_restore k c r o c' r' :
    rd_ok r → rd_restore k c r = (o, c', r') →
    rd_ok r' ∧ (o = Val tt → index k = Some (cursor r'));
  il_checkpoint c r o c' r' :
    rd_ok r → rd_checkpoint c r = (o, c', r') →
    r' = r ∧ ∀ k, o = Val k → index k = Some (cursor r);
  il_rd_close c r o c' r' : rd_ok r → rd_close c r = (o, c', r') → rd_ok r';
  il_process i c p o c' p' :
    pr_process i c p = (Val o, c', p') → is_Some o ∧ f i = o;
  il_wr_open c w o c' w' :
    wr_ok w → wr_open c w = (o, c', w') → wr_ok w' ∧ content w' = content w;
  il_wr_close c w o c' w' :
    wr_ok w → wr_close c w = (o, c', w') → wr_ok w' ∧ content w' = content w;
  il_write chunk c w o c' w' :
    wr_ok w → wr_write chunk c w = (o, c', w') →
    wr_ok w' ∧ ∃ j, (j ≤ length chunk)%nat ∧ (o = Val tt → j = length chunk) ∧
      content w' = content w ++ keep_first key (map key (content w)) (take j chunk);
  il_load c st o c' st' :
    st_load c st = (o, c', st') →
    saved st' = saved st ∧
    match o with
    | Val None => saved st = None
    | Val (Some k) => ∀ n, index k = Some n → saved st = Some n
    | _ => True
    end;
  il_save k c st o c' st' :
    st_save k c st = (o, c', st') →
    match o with
    | Val _ => saved st' = index k
    | _ => saved st' = saved st
    end
}.

(** A writer that stores its chunk item by item meets the write law when each item does. *)
Section ItemWriter.
Context {W O : Type} (key : O → string) (wr_ok : W → Prop) (content : W → list O).
Context (write_item : O → GoM W unit).

Definition item_law : Prop := ∀ x c w o c' w',
  wr_ok w → write_item x c w = (o, c', w') →
  wr_ok w' ∧
  ((o ≠ Val tt ∧ content w' = content w) ∨
   content w' = content w ++ keep_first key (map key (content w)) [x]).

Definition chunk_law (m : list O → GoM W unit) : Prop := ∀ chunk c w o c' w',
  wr_ok w → m chunk c w = (o, c', w') →
  wr_ok w' ∧ ∃ j, (j ≤ length chunk)%nat ∧ (o = Val tt → j = length chunk) ∧
    content w' = content w ++ keep_first key (map key (content w)) (take j chunk).

Lemma chunk_law_none chunk w w' (o : Outcome unit) :
  wr_ok w' → content w' = content w → o ≠ Val tt →
  wr_ok w' ∧ ∃ j, (j ≤ length chunk)%nat ∧ (o = Val tt → j = length chunk) ∧
    content w' = content w ++ keep_first key (map key (content w)) (take j chunk).
Proof.
  intros Hok Hc Ho. split; [done|]. exists 0%nat. rewrite Hc. cbn.
  split_and!; [lia|by intros ?|by rewrite app_nil_r].
Qed.

Lemma item_loop_law : item_law → chunk_law (λ chunk, forM_ chunk write_item).
Proof.
  intros Hitem chunk. induction chunk as [|x chunk IH]; intros c w o c' w' Hok Hr.
  { unfold forM_, ret in Hr. simplify_eq. split; [done|]. exists 0%nat.
    cbn. by rewrite app_nil_r. }
  cbn [forM_] in Hr.
  assert (∀ o1 : Outcome unit, o1 ≠ Val tt → write_item x c w = (o1, c', w') →
    wr_ok w' ∧ ∃ j, (j ≤ length (x :: chunk))%nat ∧ (o1 = Val tt → j = length (x :: chunk)) ∧
      content w' = content w ++ keep_first key (map key (content w)) (take j (x :: chunk)))
    as Hstop.
  { intros o1 Ho1 H1. destruct (Hitem _ _ _ _ _ _ Hok H1) as [Hok' [[_ Hc]|Hc]].
    - by apply chunk_law_none.
    - split; [done|]. exists 1%nat. cbn [length]. split_and!; [lia|done|]. by rewrite Hc. }
  apply bind_inv in Hr as [(a & c1 & w1 & H1 & H2) | [(e & -> & H1) | (-> & H1)]];
    [|by apply Hstop..].
  destruct a. destruct (Hitem _ _ _ _ _ _ Hok H1) as [Hok1 [[? _]|Hc1]]; [done|].
  destruct (IH _ _ _ _ _ Hok1 H2) as (Hok' & j & Hj & Hall & Hc). split; [done|].
  exists (S j). cbn [length]. split_and!; [lia|intros E; by rewrite (Hall E)|].
  rewrite Hc. replace (take (S j) (x :: chunk)) with ([x] ++ take j chunk) by done.
  rewrite keep_first_app, Hc1, map_app, <- app_assoc. done.
Qed.
End ItemWriter.

Section RestartSafety.
Context {R W P St I O K : Type} {B : BatchOps R W P St I O K}.
Context {src : list I} {f : I → option O} {key : O → string}.
Context {rd_ok : R → Prop} {wr_ok : W → Prop} {cursor : R → nat} {index : K → option nat}.
Context {content : W → list O} {saved : St → option nat}.
Context {L : ImportLaws B src f key rd_ok wr_ok cursor index content saved}.
Context (retry : GoError → bool).

Implicit Types (e : Eng R W P St O) (outs : list O).

(** The programs covered here configure no skip policy. *)
Abbreviation step := (eng_step retry (λ _, false)).
Abbreviation steps := (eng_steps retry (λ _, false)).

Lemma processed_val i p p' o :
  processed retry i p p' (Val o) → is_Some o ∧ f i = o.
Proof.
  remember (Val o) as v eqn:E. induction 1; subst; [by eapply il_process|auto].
Qed.

Lemma processed_kept i p p' v :
  processed retry i p p' v → ¬ (v = Val None ∨ ∃ err, v = Fail err ∧ false = true).
Proof. intros H [-> | (err & -> & ?)]; [|done]. by apply processed_val in H as [[? ?] _]. Qed.

(** [outs] are the outputs of the first [length outs] items of the source. *)
Definition outputs_of outs : Prop := f <$> take (length outs) src = Some <$> outs.

Lemma outputs_of_length outs : outputs_of outs → (length outs ≤ length src)%nat.
Proof.
  unfold outputs_of. intros H%(f_equal length).
  rewrite !length_fmap, length_take in H. lia.
Qed.

Lemma outputs_of_omap outs m :
  outputs_of outs → (m ≤ length outs)%nat → omap f (take m src) = take m outs.
Proof.
  unfold outputs_of. intros H Hm.
  assert (f <$> take m src = Some <$> take m outs) as H'.
  { rewrite !fmap_take, <- H, fmap_take, take_take. f_equal. lia. }
  clear H. revert H'. generalize (take m src) (take m outs).
  induction l as [|x xs IH]; intros [|y ys] H'; try done.
  cbn in H'. injection H' as Hx Hxs. rewrite omap_cons_eq, Hx. f_equal. by apply IH.
Qed.

Lemma outputs_of_extend outs i o c :
  outputs_of outs → (c ≤ length outs)%nat → src !! c = Some i → f i = Some o →
  ∃ outs', outputs_of outs' ∧ outs `prefix_of` outs' ∧ outs' !! c = Some o.
Proof.
  unfold outputs_of. intros H Hc Hi Ho. destruct (decide (c < length outs)%nat) as [Hlt|Hge].
  - exists outs. split_and!; [done|done|].
    assert ((f <$> take (length outs) src) !! c = Some (Some o)) as Hl.
    { rewrite list_lookup_fmap, lookup_take_lt by done. by rewrite Hi; cbn; rewrite Ho. }
    rewrite H, list_lookup_fmap in Hl. destruct (outs !! c); naive_solver.
  - assert (c = length outs) as -> by lia. exists (outs ++ [o]). split_and!.
    + rewrite length_app. cbn [length]. rewrite Nat.add_1_r, (take_S_r _ _ i) by done.
      rewrite !fmap_app, H. cbn. by rewrite Ho.
    + by exists [o].
    + rewrite lookup_app_r by lia. by rewrite Nat.sub_diag.
Qed.

(** The invariant: the sink holds the deduplicated outputs of a prefix of the source that reaches
    at least the saved checkpoint, and a running step's buffer continues it without a gap. *)
Definition restart_inv e : Prop :=
  rd_ok (e_reader e) ∧ wr_ok (e_writer e) ∧
  ∃ outs m, outputs_of outs ∧ (m ≤ length outs)%nat ∧
    content (e_writer e) = keep_first key [] (take m outs) ∧
    (∀ n, saved (e_store e) = Some n → (n ≤ m)%nat) ∧
    match e_phase e with
    | Running =>
        (cursor (e_reader e) ≤ length outs)%nat ∧
        ∃ b, (b ≤ m)%nat ∧ (b ≤ cursor (e_reader e))%nat ∧
          e_pending e = take (cursor (e_reader e) - b) (drop b outs)
    | Opened => cursor (e_reader e) = 0%nat
    | _ => True
    end.

Lemma restart_inv_replay outs m b j w :
  outputs_of outs → (m ≤ length outs)%nat → (b ≤ m)%nat → (b + j ≤ length outs)%nat →
  content w = keep_first key [] (take m outs) →
  content w ++ keep_first key (map key (content w)) (take j (drop b outs)) =
    keep_first key [] (take (Nat.max m (b + j)) outs).
Proof. intros _ Hm Hb Hj ->. by apply keep_first_replay. Qed.

(** Each action keeps the invariant; the lemmas below treat the ones that touch data. *)
Lemma item_keeps outs m b c i o :
  outputs_of outs → (m ≤ length outs)%nat → (b ≤ m)%nat → (b ≤ c)%nat →
  (c ≤ length outs)%nat → src !! c = Some i → f i = Some o →
  ∃ outs', outputs_of outs' ∧ outs `prefix_of` outs' ∧ (S c ≤ length outs')%nat ∧
    take (c - b) (drop b outs) ++ [o] = take (S c - b) (drop b outs').
Proof.
  intros H Hm Hb Hbc Hc Hi Ho.
  destruct (outputs_of_extend outs i o c) as (outs' & H' & [rest ->] & Hl); [done..|].
  exists (outs ++ rest). split_and!; [done|by eexists|by apply lookup_lt_Some in Hl|].
  replace (S c - b)%nat with (S (c - b)) by lia.
  rewrite (take_S_r _ _ o).
  - f_equal. rewrite drop_app_le by lia. by rewrite take_app_le by (rewrite length_drop; lia).
  - rewrite lookup_drop. by replace (b + (c - b))%nat with c by lia.
Qed.

Lemma take_prefix_le {A} (xs ys : list A) n :
  xs `prefix_of` ys → (n ≤ length xs)%nat → take n ys = take n xs.
Proof. intros [zs ->] Hn. by rewrite take_app_le. Qed.

Lemma saved_after_spec r st r' st' :
  rd_ok r → saved_after r st r' st' → r' = r ∧ saved st' = Some (cursor r).
Proof.
  intros Hr. destruct 1 as [c1 c1' r' k c2 c2' st' H1 H2].
  destruct (il_checkpoint (ImportLaws := L) _ _ _ _ _ Hr H1) as [-> Hk].
  split; [done|]. pose proof (il_save (ImportLaws := L) _ _ _ _ _ _ H2) as Hs.
  cbn in Hs. rewrite Hs. by apply Hk.
Qed.

Lemma write_keeps outs m b n c w o c' w' :
  outputs_of outs → (m ≤ length outs)%nat → (b ≤ m)%nat → (b ≤ n)%nat → (n ≤ length outs)%nat →
  wr_ok w → content w = keep_first key [] (take m outs) →
  wr_write (take (n - b) (drop b outs)) c w = (o, c', w') →
  wr_ok w' ∧ ∃ m', (m ≤ m')%nat ∧ (m' ≤ length outs)%nat ∧ (o = Val tt → (n ≤ m')%nat) ∧
    content w' = keep_first key [] (take m' outs).
Proof.
  intros H Hm Hb Hbn Hn Hok Hw Hrun.
  destruct (il_write (ImportLaws := L) _ _ _ _ _ _ Hok Hrun) as (Hok' & j & Hj & Hall & Hc).
  split; [done|].
  rewrite length_take, length_drop in Hj, Hall.
  rewrite take_take in Hc.
  replace (Nat.min j (n - b))%nat with j in Hc by lia.
  exists (Nat.max m (b + j)). split_and!; [lia|lia| |].
  - intros Ho. pose proof (Hall Ho). lia.
  - rewrite Hc. apply restart_inv_replay; [done|lia|lia|lia|done].
Qed.

(** A stopped or fresh engine only has to keep the facts about the sink and the store. *)
Lemma restart_inv_idle r w p st buf ph outs m :
  rd_ok r → wr_ok w → outputs_of outs → (m ≤ length outs)%nat →
  content w = keep_first key [] (take m outs) →
  (∀ n, saved st = Some n → (n ≤ m)%nat) →
  ph = Stopped ∨ ph = Created → restart_inv (mkEng r w p st buf ph).
Proof.
  intros ?????? Hph. split; [done|]. split; [done|]. exists outs, m. split_and!; [done..|].
  by destruct Hph as [-> | ->].
Qed.

Lemma inv_open r w p st buf c1 c1' r' o1 c2 c2' w' o2 ph :
  restart_inv (mkEng r w p st buf Created) →
  rd_open c1 r = (o1, c1', r') → wr_open c2 w = (o2, c2', w') →
  ph = Stopped ∨ (ph = Opened ∧ o1 = Val tt) → restart_inv (mkEng r' w' p st [] ph).
Proof.
  intros (Hr & Hok & outs & m & Houts & Hm & Hw & Hs & _) H1 H2 Hph. cbn in *.
  destruct (il_open (ImportLaws := L) _ _ _ _ _ Hr H1) as [Hr' Hc].
  destruct (il_wr_open (ImportLaws := L) _ _ _ _ _ Hok H2) as [Hok' Hw'].
  split_and!; [done..|]. exists outs, m. cbn. rewrite Hw'.
  split_and!; [done..|]. destruct Hph as [-> | [-> ->]]; auto.
Qed.

Lemma inv_load r w p st c c' st' o :
  restart_inv (mkEng r w p st [] Opened) → st_load c st = (o, c', st') →
  (o = Val None → restart_inv (mkEng r w p st' [] Running)) ∧
  (∀ k c2 o2 c2' r', o = Val (Some k) → rd_restore k c2 r = (o2, c2', r') →
     restart_inv (mkEng r' w p st' [] Stopped) ∧
     (o2 = Val tt → restart_inv (mkEng r' w p st' [] Running))).
Proof.
  intros (Hr & Hok & outs & m & Houts & Hm & Hw & Hs & Hph) H. cbn in *.
  destruct (il_load (ImportLaws := L) _ _ _ _ _ H) as [Hs' Hn].
  rewrite <- Hs' in Hs. split.
  - intros ->. split_and!; [done..|]. exists outs, m. cbn. rewrite Hph.
    split_and!; [done..|lia|]. exists 0%nat. split_and!; [lia..|done].
  - intros k c2 o2 c2' r' -> Hrest.
    destruct (il_restore (ImportLaws := L) _ _ _ _ _ _ Hr Hrest) as [Hr' Hi]. split.
    { by eapply (restart_inv_idle _ _ _ _ _ _ outs m); eauto. }
    intros Ho2. specialize (Hn _ (Hi Ho2)). rewrite <- Hs' in Hn. specialize (Hs _ Hn) as Hle.
    split_and!; [done..|]. exists outs, m. cbn. split_and!; [done..|lia|].
    exists (cursor r'). split_and!; [lia..|]. by rewrite Nat.sub_diag.
Qed.

Lemma inv_read r w p st buf c c' r' o :
  restart_inv (mkEng r w p st buf Running) → rd_read c r = (o, c', r') →
  (∀ p' st', saved st' = saved st → restart_inv (mkEng r' w p' st' buf Stopped)) ∧
  (o = Val None → restart_inv (mkEng r' w p st buf Running)) ∧
  (∀ i p' v, o = Val (Some i) → f i = Some v →
     restart_inv (mkEng r' w p' st (buf ++ [v]) Running)).
Proof.
  intros (Hr & Hok & outs & m & Houts & Hm & Hw & Hs & Hcl & b & Hb & Hbc & Hbuf) H. cbn in *.
  destruct (il_read (ImportLaws := L) _ _ _ _ _ Hr H) as [Hr' Hread]. split_and!.
  - intros p' st' Hst. eapply (restart_inv_idle _ _ _ _ _ _ outs m); eauto. by rewrite Hst.
  - intros ->. destruct Hread as [_ Hc]. split_and!; [done..|]. exists outs, m. cbn. rewrite Hc.
    split_and!; [done..|]. exists b. done.
  - intros i p' v -> Hv. destruct Hread as [Hi Hc].
    destruct (item_keeps outs m b (cursor r) i v) as (outs' & Ho' & Hpre & Hlen & Htake);
      [done..|].
    pose proof (prefix_length _ _ Hpre) as Hpl.
    split_and!; [done..|]. exists outs', m. cbn. rewrite Hc, Hbuf.
    rewrite (take_prefix_le outs outs') by done.
    split_and!; [done|lia|done|done|done|]. exists b. split_and!; [done|lia|done].
Qed.

Lemma inv_write r w p st buf c c' w' o :
  restart_inv (mkEng r w p st buf Running) → wr_write buf c w = (o, c', w') →
  restart_inv (mkEng r w' p st [] Stopped) ∧
  (o = Val tt → ∀ r' st', saved_after r st r' st' →
     restart_inv (mkEng r' w' p st' [] Running)) ∧
  (o = Val tt → ∀ st', saved st' = saved st ∨ saved st' = Some (cursor r) →
     restart_inv (mkEng r w' p st' [] Stopped)).
Proof.
  intros (Hr & Hok & outs & m & Houts & Hm & Hw & Hs & Hcl & b & Hb & Hbc & Hbuf) H. cbn in *.
  subst buf.
  destruct (write_keeps outs m b (cursor r) _ _ _ _ _ Houts Hm Hb Hbc Hcl Hok Hw H)
    as (Hok' & m' & ? & ? & Hn & Hw').
  split_and!.
  - eapply (restart_inv_idle _ _ _ _ _ _ outs m'); eauto.
    intros n Hn'. specialize (Hs _ Hn'). lia.
  - intros Ho r' st' Hsa. destruct (saved_after_spec _ _ _ _ Hr Hsa) as [-> Hsv].
    specialize (Hn Ho). split_and!; [done..|]. exists outs, m'. cbn. split_and!; [done..| |done|].
    + intros n. rewrite Hsv. intros [= <-]. lia.
    + exists (cursor r). split_and!; [lia..|]. by rewrite Nat.sub_diag.
  - intros Ho st' Hst. specialize (Hn Ho).
    eapply (restart_inv_idle _ _ _ _ _ _ outs m'); eauto.
    intros n Hn'. destruct Hst as [E|E]; rewrite E in Hn'; [specialize (Hs _ Hn'); lia|].
    injection Hn' as <-. lia.
Qed.

Lemma inv_stop r w p st buf ph r' w' p' buf' ph' :
  restart_inv (mkEng r w p st buf ph) → rd_ok r' → (wr_ok w → wr_ok w' ∧ content w' = content w) →
  ph' = Stopped ∨ ph' = Created → restart_inv (mkEng r' w' p' st buf' ph').
Proof.
  intros (Hr & Hok & outs & m & Houts & Hm & Hw & Hs & _) Hr' Hw' Hph. cbn in *.
  destruct (Hw' Hok) as [Hok' Hc].
  eapply (restart_inv_idle _ _ _ _ _ _ outs m); eauto. by rewrite Hc.
Qed.

Lemma inv_stop_load r w p st buf ph r' st' buf' :
  restart_inv (mkEng r w p st buf ph) → rd_ok r' → saved st' = saved st →
  restart_inv (mkEng r' w p st' buf' Stopped).
Proof.
  intros (Hr & Hok & outs & m & Houts & Hm & Hw & Hs & _) Hr' Hst. cbn in *.
  rewrite <- Hst in Hs. eapply (restart_inv_idle _ _ _ _ _ _ outs m); eauto.
Qed.

Lemma restart_inv_step e e' : restart_inv e → step e e' → restart_inv e'.
Proof.
  intros Hinv Hstep. pose proof (proj1 Hinv) as Hr. destruct Hstep; cbn in Hr.
  - eapply inv_open; eauto.
  - edestruct inv_load as [HN _]; eauto.
  - edestruct inv_load as [_ HS]; eauto. by eapply HS.
  - apply processed_val in H0 as [_ ?]. edestruct inv_read as (_ & _ & HI); eauto.
  - by destruct (processed_kept _ _ _ _ H0 H1).
  - by destruct (processed_kept _ _ _ _ H0 H1).
  - by destruct (processed_kept _ _ _ _ H0 H1).
  - edestruct inv_read as (_ & HN & _); eauto.
  - edestruct inv_write as (_ & HV & _); eauto.
  - edestruct inv_write as [HS _]; eauto.
  - eapply inv_open; eauto.
  - eapply inv_stop; eauto. by eapply (il_open (ImportLaws := L)).
  - eapply inv_stop_load; eauto. by eapply (il_load (ImportLaws := L)).
  - edestruct inv_read as (HS & _); eauto.
  - destruct (il_checkpoint (ImportLaws := L) _ _ _ _ _ Hr H0) as [-> Hk].
    edestruct inv_write as (_ & _ & HV); eauto. apply HV; [done|].
    pose proof (il_save (ImportLaws := L) _ _ _ _ _ _ H1) as Hsv.
    destruct o; [right; rewrite Hsv; by apply Hk|by left..].
  - destruct (il_load (ImportLaws := L) _ _ _ _ _ H) as [Hs' _].
    destruct (il_restore (ImportLaws := L) _ _ _ _ _ _ Hr H0) as [Hr' _].
    eapply inv_stop_load; eauto.
  - edestruct inv_read as (HS & _); eauto.
  - edestruct inv_write as [HS _]; eauto.
  - eapply inv_stop; eauto.
  - eapply inv_stop; eauto; [by eapply (il_rd_close (ImportLaws := L))|].
    intros Hok. by eapply (il_wr_close (ImportLaws := L)).
  - eapply inv_stop; eauto; [by apply (il_new (ImportLaws := L))|].
    intros Hok. by apply (il_wr_renew (ImportLaws := L)).
Qed.

Lemma restart_inv_steps e e' : restart_inv e → steps e e' → restart_inv e'.
Proof. intros H Hs. revert H. induction Hs; eauto using restart_inv_step. Qed.

(** What a run leaves to the next one: the sink is the deduplicated output of a prefix of the
    source, and that prefix reaches the saved checkpoint. *)
Definition consistent (w : W) (st : St) : Prop :=
  ∃ m, (m ≤ length src)%nat ∧ (∀ n, saved st = Some n → (n ≤ m)%nat) ∧
    Forall (λ i, is_Some (f i)) (take m src) ∧
    content w = keep_first key [] (omap f (take m src)).

Lemma consistent_start r w p st buf :
  rd_ok r → wr_ok w → consistent w st → restart_inv (mkEng r w p st buf Created).
Proof.
  intros Hr Hok (m & Hm & Hs & Hall & Hc).
  assert (∀ l : list I, Forall (λ i, is_Some (f i)) l → f <$> l = Some <$> omap f l) as Hmap.
  { induction 1 as [|i l [o Ho] _ IH]; [done|]. rewrite omap_cons_eq, Ho, !fmap_cons.
    by rewrite Ho, IH. }
  assert (length (omap f (take m src)) = m) as Hlen.
  { pose proof (f_equal length (Hmap _ Hall)) as E. rewrite !length_fmap, length_take in E. lia. }
  split; [done|]. split; [done|]. exists (omap f (take m src)), m. cbn. split_and!.
  - unfold outputs_of. rewrite Hlen. by apply Hmap.
  - lia.
  - rewrite Hc. by rewrite (firstn_all2 (omap f (take m src))) by lia.
  - done.
  - done.
Qed.

Lemma inv_consistent e : restart_inv e → wr_ok (e_writer e) ∧ consistent (e_writer e) (e_store e).
Proof.
  intros (_ & Hok & outs & m & Houts & Hm & Hw & Hsv & _). split; [done|].
  pose proof (outputs_of_length _ Houts) as Hlen.
  exists m. split_and!; [lia|done| |].
  - apply Forall_forall. intros i Hi. apply list_elem_of_lookup in Hi as [j Hj].
    apply lookup_take_Some in Hj as [Hj Hlt].
    assert ((f <$> take (length outs) src) !! j = Some (f i)) as Hl.
    { by rewrite list_lookup_fmap, lookup_take_lt, Hj by lia. }
    rewrite Houts, list_lookup_fmap in Hl. destruct (outs !! j); naive_solver.
  - by rewrite (outputs_of_omap outs).
Qed.

(** Whatever the crashes and restarts, nothing is lost or stored twice. *)
Lemma restart_safety e e' :
  rd_ok (e_reader e) → wr_ok (e_writer e) → consistent (e_writer e) (e_store e) →
  e_phase e = Created → steps e e' →
  wr_ok (e_writer e') ∧ consistent (e_writer e') (e_store e').
Proof.
  destruct e as [r w p st buf ph]. cbn. intros Hr Hok Hc -> Hs.
  eapply inv_consistent, restart_inv_steps; [|done]. by apply consistent_start.
Qed.

(** When a run has read the whole source and written its buffer, the import is complete. *)
Lemma completed_import e e' :
  rd_ok (e_reader e) → wr_ok (e_writer e) → consistent (e_writer e) (e_store e) →
  e_phase e = Created → steps e e' →
  e_phase e' = Running → e_pending e' = [] → (length src ≤ cursor (e_reader e'))%nat →
  content (e_writer e') = keep_first key [] (omap f src).
Proof.
  destruct e as [r w p st buf ph]. cbn. intros Hr Hok Hc -> Hs Hph Hpend Hcur.
  destruct (restart_inv_steps _ e' (consistent_start r w p st buf Hr Hok Hc) Hs)
    as (_ & _ & outs & m & Houts & Hm & Hw & Hsv & Hrun).
  rewrite Hph in Hrun. destruct Hrun as (Hcl & b & Hbm & Hbc & Hbuf).
  pose proof (outputs_of_length _ Houts) as Hlen.
  rewrite Hpend in Hbuf. apply (f_equal length) in Hbuf.
  rewrite length_take, length_drop in Hbuf. cbn in Hbuf.
  rewrite Hw, <- (outputs_of_omap outs) by done. by rewrite firstn_all2 by lia.
Qed.
End RestartSafety.

(** ** One engine that keeps the contract *)

(** A chunk-oriented engine that retries an item up to [retries] times, used to evaluate concrete
    runs of the programs. *)
Section ChunkEngine.
Context {R W P St I O K : Type} {B : BatchOps R W P St I O K}.
Context (retry skip : GoError → bool) (retries : nat).

Abbreviation Engine := (Eng R W P St O).

Definition stop (e : Engine) : Engine :=
  mkEng (e_reader e) (e_writer e) (e_proc e) (e_store e) (e_pending e) Stopped.

Definition chunk_commit (c : Ctx) (e : Engine) : Ctx * Engine * bool :=
  let '(mkEng r w p st buf _) := e in
  match wr_write buf c w with
  | (Val _, c, w) =>
      match rd_checkpoint c r with
      | (Val k, c, r') =>
          match st_save k c st with
          | (Val _, c, st) => (c, mkEng r' w p st [] Running, true)
          | (_, c, st) => (c, mkEng r' w p st [] Stopped, false)
          end
      | (_, c, r') => (c, mkEng r w p st [] Stopped, false)
      end
  | (_, c, w) => (c, mkEng r w p st [] Stopped, false)
  end.

Fixpoint process_item (n : nat) (i : I) (c : Ctx) (p : P) : Outcome (option O) * Ctx * P :=
  match pr_process i c p with
  | (Fail e, c, p) =>
      match n with
      | 0%nat => (Fail e, c, p)
      | S n => if retry e then process_item n i c p else (Fail e, c, p)
      end
  | result => result
  end.

Definition dropped (v : Outcome (option O)) : bool :=
  match v with Val None => true | Fail e => skip e | _ => false end.

(** The reader's checkpoint is saved after a dropped item. *)
Definition chunk_drop (c : Ctx) (e : Engine) : Ctx * Engine * bool :=
  let '(mkEng r w p st buf _) := e in
  match rd_checkpoint c r with
  | (Val k, c, r) =>
      match st_save k c st with
      | (Val _, c, st) => (c, mkEng r w p st buf Running, true)
      | (_, c, st) => (c, mkEng r w p st buf Stopped, false)
      end
  | (_, c, r) => (c, mkEng r w p st buf Stopped, false)
  end.

Fixpoint chunk_loop (size fuel : nat) (c : Ctx) (e : Engine) : Ctx * Engine :=
  match fuel with
  | 0%nat => (c, stop e)
  | S fuel =>
      let '(mkEng r w p st buf _) := e in
      match rd_read c r with
      | (Val (Some i), c, r) =>
          match process_item retries i c p with
          | (Val (Some o), c, p) =>
              let e := mkEng r w p st (buf ++ [o]) Running in
              if (size <=? length (buf ++ [o]))%nat then
                match chunk_commit c e with
                | (c, e, true) => chunk_loop size fuel c e
                | (c, e, false) => (c, e)
                end
              else chunk_loop size fuel c e
          | (v, c, p) =>
              if dropped v then
                match chunk_drop c (mkEng r w p st buf Running) with
                | (c, e, true) => chunk_loop size fuel c e
                | (c, e, false) => (c, e)
                end
              else (c, mkEng r w p st buf Stopped)
          end
      | (Val None, c, r) =>
          let e := mkEng r w p st buf Running in
          match buf with
          | [] => (c, e)
          | _ => let '(c, e, _) := chunk_commit c e in (c, e)
          end
      | (_, c, r) => (c, mkEng r w p st buf Stopped)
      end
  end.

Definition chunk_restore (c : Ctx) (e : Engine) : Ctx * Engine * bool :=
  let '(mkEng r w p st buf _) := e in
  match st_load c st with
  | (Val None, c, st) => (c, mkEng r w p st [] Running, true)
  | (Val (Some k), c, st) =>
      match rd_restore k c r with
      | (Val _, c, r) => (c, mkEng r w p st [] Running, true)
      | (_, c, r) => (c, mkEng r w p st [] Stopped, false)
      end
  | (_, c, st) => (c, mkEng r w p st [] Stopped, false)
  end.

Definition chunk_open (c : Ctx) (e : Engine) : Ctx * Engine * bool :=
  let '(mkEng r w p st buf _) := e in
  match rd_open c r with
  | (Val _, c, r1) =>
      match wr_open c w with
      | (Val _, c, w) => (c, mkEng r1 w p st [] Opened, true)
      | (_, c, w) => (c, mkEng r1 w p st [] Stopped, false)
      end
  | (_, c, r1) => (c, mkEng r1 w p st [] Stopped, false)
  end.

(** The run up to, and excluding, the closing of reader and writer. *)
Definition chunk_run (size fuel : nat) (c : Ctx) (e : Engine) : Ctx * Engine :=
  match chunk_open c e with
  | (c, e, false) => (c, e)
  | (c, e, true) =>
      match chunk_restore c e with
      | (c, e, false) => (c, e)
      | (c, e, true) => chunk_loop size fuel c e
      end
  end.

Abbreviation steps := (eng_steps retry skip).

Lemma chunk_commit_steps c r w p st buf c' e' b :
  chunk_commit c (mkEng r w p st buf Running) = (c', e', b) →
  steps (mkEng r w p st buf Running) e' ∧ (b = true → e_phase e' = Running).
Proof.
  unfold chunk_commit. intros H.
  destruct (wr_write buf c w) as [[[[]| |] c1] w1] eqn:Hw.
  2-3: simplify_eq; split; [|done]; apply rtc_once; by eapply es_write_fail.
  destruct (rd_checkpoint c1 r) as [[o c2] r1] eqn:Hk.
  destruct o as [k| |].
  2-3: simplify_eq; split; [|done]; apply rtc_once; by eapply es_commit_unsaved.
  destruct (st_save k c2 st) as [[o c3] st1] eqn:Hs. destruct o as [[]| |]; simplify_eq.
  - split; [|done]. apply rtc_once. eapply es_commit; [done|]. by econstructor.
  - split; [|done]. apply rtc_once. by eapply es_save_fail.
  - split; [|done]. apply rtc_once. by eapply es_save_fail.
Qed.

Lemma process_item_processed n i c p v c' p' :
  process_item n i c p = (v, c', p') → processed retry i p p' v.
Proof.
  revert c p. induction n as [|n IH]; intros c p H; cbn [process_item] in H.
  all: destruct (pr_process i c p) as [[[o|e|] c1] p1] eqn:E;
    try (simplify_eq; by eapply processed_once).
  destruct (retry e) eqn:Hr; [by eapply processed_retry; eauto|].
  simplify_eq. by eapply processed_once.
Qed.

Lemma chunk_drop_step r w p st buf i c0 c1 r1 p1 v c c' e' b :
  rd_read c0 r = (Val (Some i), c1, r1) → processed retry i p p1 v → dropped v = true →
  chunk_drop c (mkEng r1 w p1 st buf Running) = (c', e', b) →
  eng_step retry skip (mkEng r w p st buf Running) e' ∧ (b = true → e_phase e' = Running).
Proof.
  intros Hr Hp Hv H. unfold chunk_drop in H.
  assert (v = Val None ∨ ∃ e, v = Fail e ∧ skip e = true) as Hv'.
  { destruct v as [[|]|e|]; cbn in Hv; eauto; done. }
  destruct (rd_checkpoint c r1) as [[[k|e|] c2] r2] eqn:Hk.
  2-3: simplify_eq; split; [|done]; by eapply es_drop_unread.
  destruct (st_save k c2 st) as [[[[]|e|] c3] st1] eqn:Hs; simplify_eq.
  2-3: split; [|done]; by eapply es_drop_unsaved.
  split; [|done]. eapply es_drop; [done..|]. by econstructor.
Qed.

Lemma chunk_loop_steps size fuel c e c' e' :
  e_phase e = Running → chunk_loop size fuel c e = (c', e') → steps e e'.
Proof.
  revert c e. induction fuel as [|fuel IH]; intros c [r w p st buf ph] Hph H;
    cbn in Hph; cbn [chunk_loop] in H; subst.
  { simplify_eq. apply rtc_once, es_crash. }
  destruct (rd_read c r) as [[o c1] r1] eqn:Hr. destruct o as [[i|]| |].
  3-4: simplify_eq; apply rtc_once; by eapply es_read_fail.
  - destruct (process_item retries i c1 p) as [[v c2] p1] eqn:Hp.
    apply process_item_processed in Hp.
    destruct v as [[o|]|e|].
    2-4: match type of H with
         | (if dropped ?v then _ else _) = _ => destruct (dropped v) eqn:Hv
         end; [|simplify_eq; apply rtc_once; by eapply es_process_fail].
    2-4: destruct (chunk_drop _ _) as [[c3 e3] b] eqn:Hd in H;
         eapply chunk_drop_step in Hd as [Hst Hrun]; [|done..];
         eapply rtc_l; [done|]; destruct b; [eapply IH; eauto|by simplify_eq].
    eapply rtc_l; [by eapply es_item|].
    case_match; [|by eapply IH; [|done]].
    destruct (chunk_commit c2 _) as [[c3 e3] b] eqn:Hc in H.
    apply chunk_commit_steps in Hc as [Hst Hrun]. etrans; [done|].
    destruct b; [eapply IH; eauto|by simplify_eq].
  - eapply rtc_l; [by eapply es_end|].
    destruct buf; [by simplify_eq|].
    destruct (chunk_commit c1 _) as [[c3 e3] b] eqn:Hc in H.
    apply chunk_commit_steps in Hc as [Hst Hrun]. by simplify_eq.
Qed.

Lemma chunk_run_steps size fuel c e c' e' :
  e_phase e = Created → chunk_run size fuel c e = (c', e') → steps e e'.
Proof.
  destruct e as [r w p st buf ph]. cbn. intros -> H. unfold chunk_run in H.
  destruct (chunk_open c _) as [[c1 e1] b1] eqn:Ho in H. cbn in Ho.
  destruct (rd_open c r) as [[[[]| |] c2] r1] eqn:Hr.
  2-3: simplify_eq; apply rtc_once; by eapply es_rd_open_fail.
  destruct (wr_open c2 w) as [[[[]| |] c3] w1] eqn:Hw.
  2-3: simplify_eq; apply rtc_once; by eapply es_open_fail.
  simplify_eq. eapply rtc_l; [by eapply es_open|].
  destruct (chunk_restore c1 _) as [[c4 e4] b2] eqn:Hrs in H. cbn in Hrs.
  destruct (st_load c1 st) as [[o c5] st1] eqn:Hl. destruct o as [[k|]| |].
  3-4: simplify_eq; apply rtc_once; by eapply es_load_fail.
  - destruct (rd_restore k c5 r1) as [[[[]| |] c6] r2] eqn:Hrd; simplify_eq.
    2-3: apply rtc_once; by eapply es_restore_fail.
    eapply rtc_l; [by eapply es_restore|]. by eapply chunk_loop_steps.
  - simplify_eq. eapply rtc_l; [by eapply es_load_none|]. by eapply chunk_loop_steps.
Qed.
End ChunkEngine.

(** A store that is a plain map, for concrete runs. *)
Section MapStore.
Context {K : Type}.

#[export] Instance map_store : CheckpointStore (gmap string K) K := {|
  cs_Load key := do! ctxErr; let! st := get in ret (st !! key);
  cs_Save key k := do! ctxErr; modify <[key := k]>
|}.

#[export] Instance map_store_laws :
  CheckpointStoreLaws (gmap string K) K (λ st key, st !! key).
Proof.
  split; cbn.
  - intros key c st o c' st' Hr. go_inv Hr; try done. split; [done|]. by intros v [= ->].
  - intros key k c st o c' st' Hr. go_inv Hr; try done.
    split; [|apply lookup_insert_eq]. intros key' Hne. by rewrite lookup_insert_ne.
Qed.
End MapStore.

(** An engine that keeps the documented contract for a step without a skip policy. *)
Definition keeps_contract {R W P St I O K} (B : BatchOps R W P St I O K)
    (run : Ctx → Eng R W P St O → Report * Ctx * Eng R W P St O) : Prop :=
  ∃ retry, ∀ c e rep c' e', e_phase e = Created → run c e = (rep, c', e') →
    eng_steps (B := B) retry (λ _, false) e e'.

(** A run of an engine under a step's policies: it makes the documented steps, and a run reported
    as completed came to a state with nothing left to read or to write, after which the engine only
    closed the reader and the writer. *)
Definition obeys_policies {R W P St I O K} (B : BatchOps R W P St I O K)
    (retry skip : GoError → bool) (completed : string) (e : Eng R W P St O) (rep : Report)
    (e' : Eng R W P St O) : Prop :=
  eng_steps (B := B) retry skip e e' ∧
  (rp_Status rep = completed → ∃ e1, eng_steps (B := B) retry skip e e1 ∧
     e_phase e1 = Running ∧ e_pending e1 = [] ∧
     fst (fst (rd_read Background (e_reader e1))) = Val None ∧ e_proc e' = e_proc e1 ∧
     (e_writer e' = e_writer e1 ∨
      ∃ c o c', wr_close c (e_writer e1) = (o, c', e_writer e'))).

(** The chunk engine with a report that says whether the run got through. *)
Definition policy_job {R W P St I O K} (B : BatchOps R W P St I O K) (retry skip : GoError → bool)
    (retries size fuel : nat) (c : Ctx) (e : Eng R W P St O) : Report * Ctx * Eng R W P St O :=
  let '(c, e) := chunk_run (B := B) retry skip retries size fuel c e in
  let failed := match e_phase e with Stopped => true | _ => false end in
  (mkReport "job" (if failed then "failed" else "completed") 0 0 0 0 0 None failed [], c, e).

Lemma policy_job_steps {R W P St I O K} (B : BatchOps R W P St I O K)
    retry skip retries size fuel c e rep c' e' :
  e_phase e = Created → policy_job B retry skip retries size fuel c e = (rep, c', e') →
  eng_steps (B := B) retry skip e e'.
Proof.
  intros Hph Hr. unfold policy_job in Hr.
  destruct (chunk_run _ _ _ _ _ c e) as [c1 e1] eqn:E. simplify_eq.
  by eapply chunk_run_steps.
Qed.

(** Without retries and skips. *)
Definition chunk_job {R W P St I O K} (B : BatchOps R W P St I O K) :=
  policy_job B (λ _, false) (λ _, false) 0.

Lemma chunk_job_keeps_contract {R W P St I O K} (B : BatchOps R W P St I O K) size fuel :
  keeps_contract B (chunk_job B size fuel).
Proof. exists (λ _, false). intros c e rep c' e' Hph Hr. by eapply policy_job_steps. Qed.
