(* ===== verification/CsvImport.v ===== *)
(** examples/chunked-csv-import-checkpoint/internal/csvimport/importer.go: the CSV reader, the
    row processor, the customer sink and writer, and [RunImport]. *)
From S2P Require Import Prelude BatchProtocol.

Definition ErrInvalidCSV : GoError := Sentinel "csvimport.ErrInvalidCSV" "invalid customer csv".
Definition ErrInvalidCustomer : GoError :=
  Sentinel "csvimport.ErrInvalidCustomer" "invalid customer row".
Definition ErrSimulatedCrash : GoError :=
  Sentinel "csvimport.ErrSimulatedCrash" "simulated writer crash".

Definition DefaultChunkSize : Z := 2.
Definition DefaultCheckpointKey : string := "customer-csv-import".
Definition StepName : string := "chunked-customer-csv-import".
Definition JobName : string := "customer-csv-import".

Record CSVRow := mkCSVRow {
  row_Index : Z; row_LineNumber : Z; row_CustomerID : string; row_Email : string;
  row_Tier : string
}.
Record Customer := mkCustomer { cu_ID : string; cu_Email : string; cu_Tier : string }.
Record Checkpoint := mkCheckpoint { cp_NextRow : Z }.

#[export] Instance Customer_eq_dec : EqDecision Customer.
Proof. solve_decision. Defined.

(** The dynamic values a checkpoint of type [any] can hold, as [asCheckpoint] tells them apart. *)
Abbreviation AnyCheckpoint := (AnyOf Checkpoint).

Definition asCheckpoint (value : AnyCheckpoint) : GoError + Checkpoint :=
  match value with
  | AnyValue c => inr c
  | AnyPointer None => inl (Errorf "%w: nil checkpoint" [ErrInvalidCSV] [])
  | AnyPointer (Some c) => inr c
  | AnyOther t => inl (Errorf "%w: unsupported checkpoint %T" [ErrInvalidCSV] [FType t])
  end.

(** ** CSVReader *)

(** A file as [os.Open], [csv.Reader.ReadAll] and [Close] see it. *)
Record CsvFile := mkCsvFile {
  f_open : option GoError;
  f_records : GoError + list (list string);
  f_close : option GoError
}.

Record CSVReader := mkCSVReader {
  r_path : string; r_rows : list CSVRow; r_next : Z; r_opened : bool; r_closed : bool
}.

Definition NewCSVReader (path : string) : CSVReader := mkCSVReader path [] 0 false false.

Definition csv_header : list string := ["customer_id"; "email"; "tier"].

(** The loop over [records[1:]]. *)
Fixpoint csv_rows (i : Z) (records : list (list string)) : GoError + list CSVRow :=
  match records with
  | [] => inr []
  | record :: rest =>
      match record with
      | [id; email; tier] =>
          match csv_rows (i + 1) rest with
          | inr rows => inr (mkCSVRow i (i + 2) id email tier :: rows)
          | inl e => inl e
          end
      | _ => inl (Errorf "%w: line %d has %d fields" [ErrInvalidCSV]
                    [FInt (i + 2); FInt (len record)])
      end
  end.

Definition open_rows (file : CsvFile) (r : CSVReader) : GoM (Ptr CSVReader) unit :=
  match f_records file with
  | inl e => throw (Errorf "%w: parse: %w" [ErrInvalidCSV; e] [])
  | inr [] => throw (Errorf "%w: missing header" [ErrInvalidCSV] [])
  | inr (header :: data) =>
      if negb (bool_decide (header = csv_header))
      then throw (Errorf "%w: header must be customer_id,email,tier" [ErrInvalidCSV] [])
      else match csv_rows 0 data with
           | inl e => throw e
           | inr rows => store (mkCSVReader (r_path r) rows 0 true false)
           end
  end.

Definition CSVReader_Open (fs : string → CsvFile) : GoM (Ptr CSVReader) unit :=
  do! ctxErr;
  let! r := deref_or (λ _, true) (plain_error "csv reader must not be nil") in
  let file := fs (r_path r) in
  match f_open file with
  | Some e => throw (Errorf "open customer csv: %w" [e] [])
  | None =>
      with_deferred_close ((λ e, Errorf "close customer csv: %w" [e] []) <$> f_close file)
        (open_rows file r)
  end.

Definition err_reader_not_open : GoError := plain_error "csv reader is not open".

Definition CSVReader_Read : GoM (Ptr CSVReader) (option CSVRow) :=
  do! ctxErr;
  let! r := deref_or r_opened err_reader_not_open in
  if r_next r >=? len (r_rows r) then ret None
  else match index_Z (r_rows r) (r_next r) with
       | None => panic
       | Some row =>
           do! store (mkCSVReader (r_path r) (r_rows r) (int_incr (r_next r)) (r_opened r)
                        (r_closed r));
           ret (Some row)
       end.

Definition CSVReader_Restore (value : AnyCheckpoint) : GoM (Ptr CSVReader) unit :=
  do! ctxErr;
  let! r := deref_or r_opened err_reader_not_open in
  match asCheckpoint value with
  | inl e => throw e
  | inr cp =>
      if (cp_NextRow cp <? 0) || (cp_NextRow cp >? len (r_rows r))
      then throw (Errorf "%w: next_row %d outside 0..%d" [ErrInvalidCSV]
                    [FInt (cp_NextRow cp); FInt (len (r_rows r))])
      else store (mkCSVReader (r_path r) (r_rows r) (cp_NextRow cp) (r_opened r) (r_closed r))
  end.

Definition CSVReader_Checkpoint : GoM (Ptr CSVReader) AnyCheckpoint :=
  do! ctxErr;
  let! r := deref_or r_opened err_reader_not_open in
  ret (AnyValue (mkCheckpoint (r_next r))).

Definition CSVReader_Close : GoM (Ptr CSVReader) unit :=
  let! s := get in
  match s with
  | None => ret tt
  | Some r =>
      do! store (mkCSVReader (r_path r) (r_rows r) (r_next r) (r_opened r) true);
      ctxErr
  end.

Definition CSVReader_Closed (r : Ptr CSVReader) : bool :=
  match r with None => false | Some r => r_closed r end.

(** ** CustomerProcessor *)

Section Processor.
Context `{GoUnicode}.

(** The customer a row normalises to. *)
Definition customer_of (row : CSVRow) : Customer :=
  mkCustomer (TrimSpace (row_CustomerID row)) (ToLower (TrimSpace (row_Email row)))
    (ToLower (TrimSpace (row_Tier row))).

(** [customer.ID == "" || customer.Email == "" || customer.Tier == ""]. *)
Definition has_blank_field (customer : Customer) : bool :=
  bool_decide (cu_ID customer = "") || bool_decide (cu_Email customer = "")
  || bool_decide (cu_Tier customer = "").

Definition CustomerProcessor {S} (row : CSVRow) : GoM S (option Customer) :=
  do! ctxErr;
  let customer := customer_of row in
  if has_blank_field customer
  then throw (Errorf "%w: line %d customer %q has blank field" [ErrInvalidCustomer]
                [FInt (row_LineNumber row); FStr (cu_ID customer)])
  else ret (Some customer).
End Processor.

(** ** CustomerSink *)

Record CustomerSink := mkCustomerSink {
  k_customers : gmap string Customer; k_order : list string;
  k_newCommits : Z; k_duplicateSkips : Z; k_writeAttempts : Z
}.

Definition NewCustomerSink : CustomerSink := mkCustomerSink ∅ [] 0 0 0.

Definition CustomerSink_put (customer : Customer) (s : CustomerSink) : bool * CustomerSink :=
  let attempts := int_incr (k_writeAttempts s) in
  match k_customers s !! cu_ID customer with
  | Some _ =>
      (false, mkCustomerSink (k_customers s) (k_order s) (k_newCommits s)
                (int_incr (k_duplicateSkips s)) attempts)
  | None =>
      (true, mkCustomerSink (<[cu_ID customer := customer]> (k_customers s))
               (k_order s ++ [cu_ID customer]) (int_incr (k_newCommits s))
               (k_duplicateSkips s) attempts)
  end.

Definition zero_customer : Customer := mkCustomer "" "" "".

Definition CustomerSink_Snapshot (s : Ptr CustomerSink) : list Customer :=
  match s with
  | None => []
  | Some s => map (λ id, default zero_customer (k_customers s !! id)) (k_order s)
  end.

Definition CustomerSink_NewCommits (s : Ptr CustomerSink) : Z :=
  match s with None => 0 | Some s => k_newCommits s end.
Definition CustomerSink_DuplicateSkips (s : Ptr CustomerSink) : Z :=
  match s with None => 0 | Some s => k_duplicateSkips s end.
Definition CustomerSink_WriteAttempts (s : Ptr CustomerSink) : Z :=
  match s with None => 0 | Some s => k_writeAttempts s end.

(** ** CustomerWriter *)

Record CustomerWriter := mkCustomerWriter {
  w_crashAfterNewCommits : Z; w_crashed : bool; w_opened : bool; w_closed : bool
}.

(** A writer and the sink its [sink] field points to, which the caller shares. *)
Record WriterState := mkWriterState { ws_writer : Ptr CustomerWriter; ws_sink : Ptr CustomerSink }.

Definition NewCustomerWriter (sink : Ptr CustomerSink) (crashAfterNewCommits : Z) : WriterState :=
  mkWriterState (Some (mkCustomerWriter crashAfterNewCommits false false false))
    (Some (default NewCustomerSink sink)).

Definition CustomerWriter_Open : GoM WriterState unit :=
  do! ctxErr;
  let! s := get in
  match ws_writer s, ws_sink s with
  | Some w, Some _ =>
      put (mkWriterState
             (Some (mkCustomerWriter (w_crashAfterNewCommits w) (w_crashed w) true false))
             (ws_sink s))
  | _, _ => throw (plain_error "customer writer must not be nil")
  end.

(** One iteration of the loop of [Write]. *)
Definition write_customer (customer : Customer) : GoM WriterState unit :=
  do! ctxErr;
  let! s := get in
  match ws_writer s, ws_sink s with
  | Some w, Some sink =>
      let '(inserted, sink') := CustomerSink_put customer sink in
      if inserted && (w_crashAfterNewCommits w >? 0) && negb (w_crashed w)
         && (CustomerSink_NewCommits (Some sink') >=? w_crashAfterNewCommits w)
      then
        do! put (mkWriterState
                   (Some (mkCustomerWriter (w_crashAfterNewCommits w) true (w_opened w)
                            (w_closed w)))
                   (Some sink'));
        throw (Errorf "commit customer %s: %w" [ErrSimulatedCrash] [FStr (cu_ID customer)])
      else put (mkWriterState (Some w) (Some sink'))
  | _, _ => panic
  end.

Definition CustomerWriter_Write (chunk : list Customer) : GoM WriterState unit :=
  do! ctxErr;
  let! s := get in
  match ws_writer s with
  | Some w =>
      if w_opened w then forM_ chunk write_customer
      else throw (plain_error "customer writer is not open")
  | None => throw (plain_error "customer writer is not open")
  end.

Definition CustomerWriter_Close : GoM WriterState unit :=
  let! s := get in
  match ws_writer s with
  | None => ret tt
  | Some w =>
      do! put (mkWriterState
                 (Some (mkCustomerWriter (w_crashAfterNewCommits w) (w_crashed w) (w_opened w)
                          true)) (ws_sink s));
      ctxErr
  end.

Definition CustomerWriter_Closed (s : WriterState) : bool :=
  match ws_writer s with None => false | Some w => w_closed w end.

(** ** Runs *)

Inductive ReportNode := mkReportNode {
  n_Name : string; n_Status : string; n_ReadCount : Z; n_WriteCount : Z; n_FilterCount : Z;
  n_SkipCount : Z; n_RetryCount : Z; n_Error : string; n_Children : list ReportNode
}.

Record ImportRun := mkImportRun {
  run_Report : ReportNode; run_Checkpoint : Ptr Checkpoint; run_Customers : list Customer;
  run_NewCommits : Z; run_DuplicateSkips : Z; run_WriteAttempts : Z;
  run_ReaderWasClosed : bool; run_WriterWasClosed : bool
}.

Record DemoResult := mkDemoResult {
  demo_CheckpointKey : string; demo_ChunkSize : Z; demo_FirstRun : ImportRun;
  demo_RestartRun : ImportRun; demo_CustomersImported : Z; demo_DuplicateSkips : Z;
  demo_Customers : list Customer
}.

Section Runs.
Context `{GoUnicode} {St : Type} {CS : CheckpointStore St AnyCheckpoint}.
(** The file system, and the library's [NewMemoryCheckpointStore], [NewStep] and [NewJob]. *)
Context (fs : string → CsvFile) (NewMemoryCheckpointStore : St).
Context (NewStep : string → Z → string → option GoError) (NewJob : string → option GoError).
(** [batch.StatusFailed] and [batch.StatusCompleted]. *)
Context (StatusFailed StatusCompleted : string).

(** The interface of the import step to the engine. *)
Definition csv_ops (processor : CSVRow → GoM unit (option Customer)) (path key : string)
    : BatchOps (Ptr CSVReader) WriterState unit St CSVRow Customer AnyCheckpoint := {|
  rd_open := CSVReader_Open fs;
  rd_read := CSVReader_Read;
  rd_restore := CSVReader_Restore;
  rd_checkpoint := CSVReader_Checkpoint;
  rd_close := CSVReader_Close;
  wr_open := CustomerWriter_Open;
  wr_write := CustomerWriter_Write;
  wr_close := CustomerWriter_Close;
  pr_process := processor;
  st_load := cs_Load key;
  st_save := cs_Save key;
  rd_new := λ r, r = Some (NewCSVReader path);
  wr_renew := λ w w', ∃ crash, w' = NewCustomerWriter (ws_sink w) crash;
  pr_renew := λ p p', p' = p
|}.

Abbreviation CsvEng := (Eng (Ptr CSVReader) WriterState unit St Customer).

(** [job.Run(ctx)] for a step with this processor, chunk size and checkpoint key. *)
Context (jobRun : (CSVRow → GoM unit (option Customer)) → Z → string → Ctx → CsvEng →
                  Report * Ctx * CsvEng).

Fixpoint projectReport (report : Report) : ReportNode :=
  mkReportNode (rp_Name report) (rp_Status report) (rp_ReadCount report) (rp_WriteCount report)
    (rp_FilterCount report) (rp_SkipCount report) (rp_RetryCount report)
    (match rp_Err report with Some e => Error e | None => "" end)
    (map projectReport (rp_Children report)).

Definition loadCheckpoint (key : string) : GoM St (Ptr Checkpoint) :=
  λ c st,
    match cs_Load key c st with
    | (Fail e, c', st') => (Fail (Errorf "load checkpoint: %w" [e] []), c', st')
    | (Panic, c', st') => (Panic, c', st')
    | (Val None, c', st') => (Val None, c', st')
    | (Val (Some value), c', st') =>
        match asCheckpoint value with
        | inl e => (Fail e, c', st')
        | inr cp => (Val (Some cp), c', st')
        end
    end.

(** The store and the sink are shared with the caller, who sees them in the final state. *)
Record RunOptions := mkRunOptions {
  o_CSVPath : string; o_ChunkSize : Z; o_CheckpointKey : string;
  o_CheckpointStore : Ptr St; o_Sink : Ptr CustomerSink; o_CrashAfterNewCommits : Z;
  o_Processor : option (CSVRow → GoM unit (option Customer))
}.

(** The state [RunImport] hands to the engine. *)
Definition initial_engine (options : RunOptions) : CsvEng :=
  mkEng (Some (NewCSVReader (o_CSVPath options)))
    (NewCustomerWriter (Some (default NewCustomerSink (o_Sink options)))
       (o_CrashAfterNewCommits options))
    tt (default NewMemoryCheckpointStore (o_CheckpointStore options)) [] Created.

(** The outcome, the caller's context afterwards and the objects of the run. *)
Definition RunImport (ctx : option Ctx) (options : RunOptions) : Outcome ImportRun * Ctx * CsvEng :=
  let ctx := normalizeContext ctx in
  let start := initial_engine options in
  if bool_decide (o_CSVPath options = "")
  then (Fail (plain_error "csv path must not be empty"), ctx, start)
  else
    let chunkSize := if o_ChunkSize options =? 0 then DefaultChunkSize else o_ChunkSize options in
    let key := if bool_decide (o_CheckpointKey options = "") then DefaultCheckpointKey
               else o_CheckpointKey options in
    let processor := default CustomerProcessor (o_Processor options) in
    match NewStep StepName chunkSize key with
    | Some e => (Fail (Errorf "create batch step: %w" [e] []), ctx, start)
    | None =>
        match NewJob JobName with
        | Some e => (Fail (Errorf "create batch job: %w" [e] []), ctx, start)
        | None =>
            let '(report, ctx, sys) := jobRun processor chunkSize key ctx start in
            let '(loaded, ctx, st) := withoutCancel (loadCheckpoint key) ctx (e_store sys) in
            let sys := mkEng (e_reader sys) (e_writer sys) (e_proc sys) st (e_pending sys)
                         (e_phase sys) in
            match loaded with
            | Fail e => (Fail e, ctx, sys)
            | Panic => (Panic, ctx, sys)
            | Val checkpoint =>
                let sink := ws_sink (e_writer sys) in
                (Val (mkImportRun (projectReport report) checkpoint
                        (CustomerSink_Snapshot sink) (CustomerSink_NewCommits sink)
                        (CustomerSink_DuplicateSkips sink) (CustomerSink_WriteAttempts sink)
                        (CSVReader_Closed (e_reader sys)) (CustomerWriter_Closed (e_writer sys))),
                 ctx, sys)
            end
        end
    end.

(** Both runs share the context, the store and the sink. *)
Definition RunDemo (ctx : option Ctx) (csvPath : string) : Outcome DemoResult :=
  match RunImport ctx (mkRunOptions csvPath 0 "" (Some NewMemoryCheckpointStore)
                         (Some NewCustomerSink) 3 None) with
  | (Fail e, _, _) => Fail e
  | (Panic, _, _) => Panic
  | (Val first, ctx, sys) =>
      match RunImport (Some ctx) (mkRunOptions csvPath 0 "" (Some (e_store sys))
                                    (ws_sink (e_writer sys)) 0 None) with
      | (Fail e, _, _) => Fail e
      | (Panic, _, _) => Panic
      | (Val restart, _, sys) =>
          if negb (bool_decide (n_Status (run_Report first) = StatusFailed))
          then Fail (Errorf "expected first run to fail, got %s" []
                       [FStr (n_Status (run_Report first))])
          else if negb (bool_decide (n_Status (run_Report restart) = StatusCompleted))
          then Fail (Errorf "expected restart to complete, got %s" []
                       [FStr (n_Status (run_Report restart))])
          else
            let sink := ws_sink (e_writer sys) in
            Val (mkDemoResult DefaultCheckpointKey DefaultChunkSize first restart
                   (CustomerSink_NewCommits sink) (CustomerSink_DuplicateSkips sink)
                   (CustomerSink_Snapshot sink))
      end
  end.
End Runs.

(** ** The sink is an insert-once store *)

#[export] Instance csv_sink_store : InsertOnce CustomerSink Customer := {|
  io_key := cu_ID;
  io_map := k_customers;
  io_order := k_order;
  io_put v s := snd (CustomerSink_put v s)
|}.

#[export] Instance csv_sink_laws : InsertOnceLaws CustomerSink Customer.
Proof.
  split; intros s v H; cbn in *; unfold CustomerSink_put.
  - destruct H as [c ->]. done.
  - rewrite H. done.
Qed.

Lemma csv_new_sink_wf : io_wf NewCustomerSink.
Proof.
  split; cbn; [apply NoDup_nil_2| |done].
  intros k. rewrite lookup_empty. split; [by intros ?%elem_of_nil|by intros [? ?]].
Qed.

Lemma csv_snapshot_list s : io_wf s → CustomerSink_Snapshot (Some s) = io_list s.
Proof. intros Hwf. exact (io_list_total s zero_customer Hwf). Qed.

(** ** The import step keeps the laws of the batch contract *)

(** The rows [Open] finds in a file. *)
Definition rows_of (file : CsvFile) : list CSVRow :=
  match f_records file with
  | inr (_ :: data) => match csv_rows 0 data with inr rows => rows | inl _ => [] end
  | _ => []
  end.

Definition csv_rd_ok (path : string) (rows : list CSVRow) (r : Ptr CSVReader) : Prop :=
  match r with
  | None => True
  | Some r => r_path r = path ∧
      (r_opened r = true → r_rows r = rows ∧ 0 ≤ r_next r ≤ len rows)
  end.
Definition csv_cursor (r : Ptr CSVReader) : nat :=
  match r with None => 0%nat | Some r => Z.to_nat (r_next r) end.
Definition csv_index (k : AnyCheckpoint) : option nat :=
  match asCheckpoint k with
  | inr cp => if cp_NextRow cp <? 0 then None else Some (Z.to_nat (cp_NextRow cp))
  | inl _ => None
  end.
Definition csv_wr_ok (w : WriterState) : Prop :=
  match ws_sink w with None => True | Some s => io_wf s end.
Definition csv_content (w : WriterState) : list Customer := CustomerSink_Snapshot (ws_sink w).

Section Laws.
Context `{GoUnicode} {St : Type} {CS : CheckpointStore St AnyCheckpoint}.
Context {view : St → string → option AnyCheckpoint}.
Context {CL : CheckpointStoreLaws St AnyCheckpoint view}.
Context (fs : string → CsvFile) (path key : string).

(** What the processor computes for a row, [None] when it rejects it. *)
Definition normalized (row : CSVRow) : option Customer :=
  let customer := customer_of row in
  if has_blank_field customer then None else Some customer.

Lemma csv_process_law {S} row c (s : S) o c' s' :
  CustomerProcessor row c s = (Val o, c', s') → is_Some o ∧ normalized row = o.
Proof.
  unfold CustomerProcessor, normalized. intros Hr.
  go_inv Hr. eauto.
Qed.

Lemma csv_open_law rows c r o c' r' :
  rows = rows_of (fs path) → csv_rd_ok path rows r → CSVReader_Open fs c r = (o, c', r') →
  csv_rd_ok path rows r' ∧ (o = Val tt → csv_cursor r' = 0%nat).
Proof.
  intros -> Hok Hr. unfold CSVReader_Open in Hr.
  go_inv Hr; try done.
  assert (∀ r c o c' r', csv_rd_ok path (rows_of (fs path)) (Some r) → r_path r = path →
    open_rows (fs (r_path r)) r c (Some r) = (o, c', r') →
    csv_rd_ok path (rows_of (fs path)) r' ∧ (o = Val tt → csv_cursor r' = 0%nat)) as Hbody.
  { clear. intros r c o c' r' Hok Hp Hr. unfold open_rows in Hr. rewrite Hp in Hr.
    unfold rows_of in *. destruct (f_records (fs path)) as [e|[|h data]]; go_inv Hr; try done.
    split; [|done]. cbn. split; [done|]. intros _. unfold len. split; [done|lia]. }
  unfold with_deferred_close in *.
  destruct (open_rows _ _ _ _) as [[o1 c2] r2] eqn:E.
  pose proof Hok as [Hp _]. apply Hbody in E as [Hok' Hcur]; [|done..].
  repeat case_match; simplify_eq; done.
Qed.

Lemma csv_read_law rows c r o c' r' :
  in_int64 (len rows) → csv_rd_ok path rows r → CSVReader_Read c r = (o, c', r') →
  csv_rd_ok path rows r' ∧
  match o with
  | Val (Some i) => rows !! csv_cursor r = Some i ∧ csv_cursor r' = S (csv_cursor r)
  | Val None => (length rows ≤ csv_cursor r)%nat ∧ csv_cursor r' = csv_cursor r
  | _ => csv_cursor r' = csv_cursor r
  end.
Proof.
  intros Hint Hok Hr. unfold CSVReader_Read in Hr. go_inv Hr; try done.
  all: destruct Hok as [Hp Ho]; destruct (Ho ltac:(done)) as [<- Hn]; cbn in *.
  - rewrite Z.geb_leb in *. apply Z.leb_le in Heqb. unfold len in *.
    split_and!; [done|done|lia|done].
  - rewrite Z.geb_leb in *. apply Z.leb_gt in Heqb. unfold len, in_int64, int_bits in *.
    unfold index_Z in Heqo0. destruct (Z.ltb_spec (r_next x) 0); [lia|].
    unfold int_incr, int_add. rewrite wrap64_id by (unfold in_int64, int_bits; lia).
    split_and!; [done|intros _; split; [done|lia]|done|lia].
Qed.

Lemma csv_restore_law rows k c r o c' r' :
  csv_rd_ok path rows r → CSVReader_Restore k c r = (o, c', r') →
  csv_rd_ok path rows r' ∧ (o = Val tt → csv_index k = Some (csv_cursor r')).
Proof.
  intros Hok Hr. unfold CSVReader_Restore in Hr. go_inv Hr; try done.
  destruct Hok as [Hp Ho]; destruct (Ho ltac:(done)) as [<- Hn].
  apply orb_false_iff in Heqb as [Hlt Hgt]. rewrite Z.gtb_ltb in Hgt.
  apply Z.ltb_ge in Hgt. unfold csv_index. rewrite Heqs, Hlt. cbn.
  apply Z.ltb_ge in Hlt. split; [|done]. split; [done|]. intros _. split; [done|lia].
Qed.

Lemma csv_checkpoint_law rows c r o c' r' :
  csv_rd_ok path rows r → CSVReader_Checkpoint c r = (o, c', r') →
  r' = r ∧ ∀ k, o = Val k → csv_index k = Some (csv_cursor r).
Proof.
  intros Hok Hr. unfold CSVReader_Checkpoint in Hr. go_inv Hr; try done.
  destruct Hok as [Hp Ho]; destruct (Ho ltac:(done)) as [_ Hn].
  split; [done|]. intros k [= <-]. unfold csv_index. cbn.
  by destruct (Z.ltb_spec (r_next x) 0); [lia|].
Qed.

Lemma csv_close_law rows c r o c' r' :
  csv_rd_ok path rows r → CSVReader_Close c r = (o, c', r') → csv_rd_ok path rows r'.
Proof. intros Hok Hr. unfold CSVReader_Close in Hr. by go_inv Hr. Qed.

(** Opening and closing a writer touches its flags only. *)
Definition same_sink (w w' : WriterState) : Prop := ws_sink w' = ws_sink w.
#[local] Instance same_sink_refl : Reflexive same_sink := λ _, eq_refl.

Lemma csv_writer_open_sink : moves same_sink CustomerWriter_Open.
Proof. intros c w o c' w' Hr. unfold CustomerWriter_Open in Hr. by go_inv Hr. Qed.

Lemma csv_writer_close_sink : moves same_sink CustomerWriter_Close.
Proof. intros c w o c' w' Hr. unfold CustomerWriter_Close in Hr. by go_inv Hr. Qed.

Lemma same_sink_content w w' :
  same_sink w w' → csv_wr_ok w → csv_wr_ok w' ∧ csv_content w' = csv_content w.
Proof. unfold same_sink, csv_wr_ok, csv_content. by intros ->. Qed.

(** One iteration stores at most its customer, and all of it when it succeeds. *)
Lemma write_customer_law : item_law cu_ID csv_wr_ok csv_content write_customer.
Proof.
  intros customer c w o c' w' Hok Hr. unfold write_customer in Hr. go_inv Hr; try (split; [done|]; by left).
  all: unfold csv_wr_ok, csv_content in *.
  all: match goal with
       | H : ws_sink ?w = Some ?s, P : CustomerSink_put _ ?s = (_, ?s') |- _ =>
           rewrite H in *; assert (s' = io_put customer s) as -> by (cbn; by rewrite P)
       end.
  all: cbn [ws_sink].
  all: split; [by apply io_wf_put|right].
  all: rewrite !csv_snapshot_list by (try apply io_wf_put; done).
  all: rewrite io_list_put by done.
  all: match goal with |- context [io_order ?s] => rewrite <- (io_list_keys s) by done end.
  all: cbn [keep_first]; change (@io_key CustomerSink Customer _) with cu_ID.
  all: case_bool_decide; by rewrite ?app_nil_r.
Qed.

Lemma csv_write_law : chunk_law cu_ID csv_wr_ok csv_content CustomerWriter_Write.
Proof.
  intros chunk c w o c' w' Hok Hr. unfold CustomerWriter_Write in Hr. go_inv Hr.
  - by eapply item_loop_law; [apply write_customer_law|..].
  - by apply chunk_law_none.
  - by apply chunk_law_none.
  - by apply chunk_law_none.
Qed.

Definition csv_saved (st : St) : option nat := view st key ≫= csv_index.

#[export] Instance csv_laws :
  in_int64 (len (rows_of (fs path))) →
  ImportLaws (csv_ops fs CustomerProcessor path key) (rows_of (fs path)) normalized cu_ID
    (csv_rd_ok path (rows_of (fs path))) csv_wr_ok csv_cursor csv_index csv_content csv_saved.
Proof.
  intros Hint. split; unfold_ops csv_ops.
  - by intros r ->.
  - intros w w' Hok [crash ->]. unfold csv_wr_ok, csv_content in *. cbn.
    destruct (ws_sink w); cbn; [done|]. split; [apply csv_new_sink_wf|done].
  - intros. by eapply csv_open_law.
  - intros. by eapply csv_read_law.
  - intros. by eapply csv_restore_law.
  - intros. by eapply csv_checkpoint_law.
  - intros. by eapply csv_close_law.
  - intros. by eapply csv_process_law.
  - intros c w o c' w' Hok Hr. by eapply same_sink_content; [eapply csv_writer_open_sink|].
  - intros c w o c' w' Hok Hr. by eapply same_sink_content; [eapply csv_writer_close_sink|].
  - intros. by eapply csv_write_law.
  - intros c st o c' st' Hr. apply cs_load_law in Hr as [Hv Ho].
    unfold csv_saved. rewrite Hv. split; [done|]. destruct o as [[k|]| |]; try done.
    + intros n Hn. by rewrite <- (Ho _ eq_refl).
    + by rewrite <- (Ho _ eq_refl).
  - intros k c st o c' st' Hr. apply cs_save_law in Hr as [_ Hr].
    unfold csv_saved. destruct o; by rewrite Hr.
Qed.

(** What one import leaves for the next one, in the program's terms: the sink lists, without
    duplicates and in file order, the normalised customers of the first [m] rows of the file, and
    the checkpoint saved for the import lies within these rows. *)
Definition import_consistent (sink : Ptr CustomerSink) (st : St) : Prop :=
  match sink with None => True | Some s => io_wf s end ∧
  ∃ m, (m ≤ length (rows_of (fs path)))%nat ∧
    (∀ n, csv_saved st = Some n → (n ≤ m)%nat) ∧
    Forall (λ row, is_Some (normalized row)) (take m (rows_of (fs path))) ∧
    CustomerSink_Snapshot sink =
      keep_first cu_ID [] (omap normalized (take m (rows_of (fs path)))).
End Laws.

(** ** Properties *)

Section ImportProperties.
Context `{GoUnicode} {St : Type} {CS : CheckpointStore St AnyCheckpoint}.
Context {view : St → string → option AnyCheckpoint}.
Context {CL : CheckpointStoreLaws St AnyCheckpoint view}.
Context (fs : string → CsvFile) (path : string).

Lemma load_checkpoint_view key c st o c' st' :
  loadCheckpoint key c st = (o, c', st') → ∀ k, view st' k = view st k.
Proof.
  unfold loadCheckpoint. destruct (cs_Load key c st) as [[v c1] st1] eqn:E.
  apply cs_load_law in E as [Hv _]. intros Hr. repeat case_match; simplify_eq; done.
Qed.

Lemma consistent_iff key w st :
  csv_wr_ok w ∧ consistent (src := rows_of (fs path)) (f := normalized) (key := cu_ID)
     (content := csv_content) (saved := csv_saved (view := view) key) w st
  ↔ import_consistent (view := view) fs path key (ws_sink w) st.
Proof. done. Qed.

(** A run of the engine takes consistent objects to consistent objects. *)
Lemma engine_run_consistent run key c e rep c' e' :
  in_int64 (len (rows_of (fs path))) →
  keeps_contract (csv_ops fs CustomerProcessor path key) run →
  e_phase e = Created → e_reader e = Some (NewCSVReader path) →
  import_consistent (view := view) fs path key (ws_sink (e_writer e)) (e_store e) →
  run c e = (rep, c', e') →
  import_consistent (view := view) fs path key (ws_sink (e_writer e')) (e_store e').
Proof.
  intros Hint [retry Hk] Hph Hrd Hc Hr.
  pose proof (csv_laws (view := view) fs path key Hint) as L.
  apply consistent_iff in Hc as [Hok Hc]. apply consistent_iff.
  eapply (restart_safety (L := L) retry); [|done|done|done|by eapply Hk].
  rewrite Hrd. done.
Qed.
End ImportProperties.

Section ImportTheorems.
Context `{GoUnicode} {St : Type} {CS : CheckpointStore St AnyCheckpoint}.
Context {view : St → string → option AnyCheckpoint}.
Context {CL : CheckpointStoreLaws St AnyCheckpoint view}.
Context (fs : string → CsvFile) (NewMemoryCheckpointStore : St).
Context (NewStep : string → Z → string → option GoError) (NewJob : string → option GoError).
Context (jobRun : (CSVRow → GoM unit (option Customer)) → Z → string → Ctx →
           Eng (Ptr CSVReader) WriterState unit St Customer →
           Report * Ctx * Eng (Ptr CSVReader) WriterState unit St Customer).

Definition effective_key (key : string) : string :=
  if bool_decide (key = "") then DefaultCheckpointKey else key.

(** restart safety of the CSV import. Take any engine that keeps the documented checkpoint
    contract, any crash injection, chunk size and cancellation. If the customer sink holds the
    deduplicated normalised customers of a prefix of the file that reaches the saved checkpoint,
    the same is true after [RunImport], however it ends; and a successful run reports exactly the
    customers of that sink. Restarting after a crash therefore neither loses nor doubles a row. *)
Theorem run_import_consistent ctx options o ctx' sys :
  let path := o_CSVPath options in
  let key := effective_key (o_CheckpointKey options) in
  in_int64 (len (rows_of (fs path))) →
  (∀ size, keeps_contract (csv_ops fs CustomerProcessor path key)
             (jobRun CustomerProcessor size key)) →
  o_Processor options = None →
  import_consistent (view := view) fs path key
    (Some (default NewCustomerSink (o_Sink options)))
    (default NewMemoryCheckpointStore (o_CheckpointStore options)) →
  RunImport NewMemoryCheckpointStore NewStep NewJob jobRun ctx options = (o, ctx', sys) →
  import_consistent (view := view) fs path key (ws_sink (e_writer sys)) (e_store sys) ∧
  (∀ run, o = Val run → run_Customers run = CustomerSink_Snapshot (ws_sink (e_writer sys))).
Proof.
  cbn zeta. intros Hint Hk Hproc Hc Hr. unfold RunImport in Hr. rewrite Hproc in Hr.
  fold (effective_key (o_CheckpointKey options)) in Hr. cbn [default] in Hr.
  case_bool_decide; [by simplify_eq|].
  destruct (NewStep _ _ _); [by simplify_eq|]. destruct (NewJob _); [by simplify_eq|].
  destruct (jobRun _ _ _ _ _) as [[rep c1] e1] eqn:Hrun.
  apply (engine_run_consistent (view := view) fs (o_CSVPath options) _
           (effective_key (o_CheckpointKey options))) in Hrun; [|done..].
  unfold withoutCancel in Hr.
  destruct (loadCheckpoint _ _ _) as [[v c2] st2] eqn:Hl.
  pose proof (load_checkpoint_view _ _ _ _ _ _ Hl) as Hview.
  assert (import_consistent (view := view) fs (o_CSVPath options)
            (effective_key (o_CheckpointKey options)) (ws_sink (e_writer e1)) st2) as Hc2.
  { destruct Hrun as (Hwf & m & Hm & Hs & Hrest). split; [done|]. exists m.
    split_and!; [done| |by destruct Hrest..]. unfold csv_saved in *. by rewrite Hview. }
  destruct v; simplify_eq; (split; [done|]); by intros run [= <-].
Qed.

(** C5: exactly-once import. When the file's rows are all acceptable and their trimmed IDs are
    distinct, an engine that has read the whole file with nothing left in its buffer leaves in the
    sink every customer of the file once, in file order, whatever crashes and restarts came
    before. *)
Theorem completed_import_exactly_once retry path key e e' :
  let rows := rows_of (fs path) in
  in_int64 (len rows) →
  e_reader e = Some (NewCSVReader path) → e_phase e = Created →
  import_consistent (view := view) fs path key (ws_sink (e_writer e)) (e_store e) →
  eng_steps (B := csv_ops fs CustomerProcessor path key) retry (λ _, false) e e' →
  e_phase e' = Running → e_pending e' = [] → (length rows ≤ csv_cursor (e_reader e'))%nat →
  Forall (λ row, has_blank_field (customer_of row) = false) rows →
  NoDup (map (λ row, cu_ID (customer_of row)) rows) →
  CustomerSink_Snapshot (ws_sink (e_writer e')) = map customer_of rows.
Proof.
  cbn zeta. intros Hint Hrd Hph Hc Hs Hph' Hpend Hcur Hall Hnd.
  pose proof (csv_laws (view := view) fs path key Hint) as L.
  apply consistent_iff in Hc as [Hok Hc].
  assert (omap normalized (rows_of (fs path)) = map customer_of (rows_of (fs path))) as Hmap.
  { clear - Hall. induction Hall as [|row rows Hrow _ IH]; [done|].
    rewrite omap_cons_eq. unfold normalized at 1. rewrite Hrow. cbn. by rewrite IH. }
  change (csv_content (e_writer e') = map customer_of (rows_of (fs path))).
  etrans; [eapply (completed_import (L := L) retry e e'); try done; by rewrite Hrd|].
  rewrite Hmap. apply keep_first_fresh; [by rewrite map_map|set_solver].
Qed.

(** ** The sink's accounting *)

Definition CustomerSink_puts (customers : list Customer) (s : CustomerSink) : CustomerSink :=
  foldl (λ s v, snd (CustomerSink_put v s)) s customers.

Definition sink_accounts (s : CustomerSink) (attempts : nat) : Prop :=
  io_wf s ∧
  k_newCommits s = wrap64 (len (k_order s)) ∧
  k_writeAttempts s = wrap64 (Z.of_nat attempts) ∧
  k_duplicateSkips s = wrap64 (Z.of_nat attempts - len (k_order s)).

Lemma sink_accounts_put v s n :
  sink_accounts s n → sink_accounts (snd (CustomerSink_put v s)) (S n).
Proof.
  intros (Hwf & Hn & Ha & Hd). split; [exact (io_wf_put s v Hwf)|].
  unfold CustomerSink_put, len in *. destruct (k_customers s !! cu_ID v); cbn.
  - rewrite Ha, Hd, !int_incr_wrap. split_and!; [done|f_equal; lia..].
  - rewrite Hn, Ha, Hd, !int_incr_wrap, length_app. cbn. split_and!; f_equal; lia.
Qed.

(** the sink's counters and contents after any sequence of writes: the snapshot is the list of
    first occurrences by customer ID, [NewCommits] is its length, [WriteAttempts] is the number of
    writes and [DuplicateSkips] their difference, all as 64-bit integers. *)
Theorem sink_accounting customers :
  let s := CustomerSink_puts customers NewCustomerSink in
  let kept := keep_first cu_ID [] customers in
  CustomerSink_Snapshot (Some s) = kept ∧
  CustomerSink_NewCommits (Some s) = wrap64 (len kept) ∧
  CustomerSink_WriteAttempts (Some s) = wrap64 (len customers) ∧
  CustomerSink_DuplicateSkips (Some s) = wrap64 (len customers - len kept).
Proof.
  cbn zeta.
  assert (∀ s n, sink_accounts s n →
    sink_accounts (CustomerSink_puts customers s) (n + length customers)) as Hacc.
  { induction customers as [|v vs IH]; intros s n Hs; cbn.
    - by rewrite Nat.add_0_r.
    - rewrite <- Nat.add_succ_comm. by apply IH, sink_accounts_put. }
  destruct (Hacc NewCustomerSink 0%nat) as (Hwf & Hn & Ha & Hd);
    [split_and!; [apply csv_new_sink_wf|done..]|].
  assert (io_list (CustomerSink_puts customers NewCustomerSink) =
            keep_first cu_ID [] customers) as Hlist
    by exact (io_list_puts customers NewCustomerSink csv_new_sink_wf).
  assert (length (k_order (CustomerSink_puts customers NewCustomerSink)) =
            length (keep_first cu_ID [] customers)) as Hlen.
  { rewrite <- Hlist. change (k_order ?s) with (io_order s).
    rewrite <- io_list_keys by done. by rewrite length_map. }
  cbn [CustomerSink_NewCommits CustomerSink_WriteAttempts CustomerSink_DuplicateSkips].
  unfold len in *. rewrite csv_snapshot_list, Hn, Ha, Hd, Hlen by done. done.
Qed.
End ImportTheorems.

(** ** Concrete runs *)

Definition sample_file : CsvFile :=
  mkCsvFile None
    (inr [csv_header; ["cust-1001"; "Ada@Example.com "; "Gold"];
          ["cust-1002"; "bob@example.com"; "silver"]; [" cust-1003"; "eve@example.com"; "GOLD"];
          ["cust-1004"; "kim@example.com"; "bronze"]])
    None.
Definition sample_fs (path : string) : CsvFile := sample_file.
Definition sample_options (crash : Z) : RunOptions (St := gmap string AnyCheckpoint) :=
  mkRunOptions "customers.csv" 0 "" (Some ∅) (Some NewCustomerSink) crash None.
Definition sample_job (processor : CSVRow → GoM unit (option Customer)) (size : Z) (key : string) :=
  chunk_job (csv_ops (St := gmap string AnyCheckpoint) sample_fs processor
               "customers.csv" key) (Z.to_nat size) 20.
Definition sample_import (crash : Z) :=
  RunImport (H := plain_unicode) ∅ (λ _ _ _, None) (λ _, None) sample_job None
    (sample_options crash).

Lemma sample_blank :
  import_consistent (H := plain_unicode) (view := λ st key, st !! key) sample_fs "customers.csv"
    DefaultCheckpointKey (Some NewCustomerSink) (∅ : gmap string AnyCheckpoint).
Proof.
  split; [apply csv_new_sink_wf|]. exists 0%nat. cbn.
  split_and!; [lia|intros n; by unfold csv_saved|constructor|done].
Qed.

(** The first run of the example crashes after the third commit, with the checkpoint at 2. *)
Lemma run_import_consistent_witness :
  let sys := snd (sample_import 3) in
  (map cu_ID (CustomerSink_Snapshot (ws_sink (e_writer sys))) =
     ["cust-1001"; "cust-1002"; "cust-1003"] ∧
   csv_saved (view := λ (st : gmap string AnyCheckpoint) key, st !! key) DefaultCheckpointKey
     (e_store sys) = Some 2%nat) ∧
  import_consistent (H := plain_unicode) (view := λ st key, st !! key) sample_fs "customers.csv"
    DefaultCheckpointKey (ws_sink (e_writer sys)) (e_store sys).
Proof.
  cbn zeta. split; [split; vm_compute; reflexivity|].
  apply (run_import_consistent (H := plain_unicode) (view := λ st key, st !! key) sample_fs ∅
           (λ _ _ _, None) (λ _, None) sample_job None (sample_options 3)
           (fst (fst (sample_import 3))) (snd (fst (sample_import 3)))).
  - vm_compute; split; [intros ?; discriminate|reflexivity].
  - intros size. apply chunk_job_keeps_contract.
  - reflexivity.
  - apply sample_blank.
  - unfold sample_import. by destruct (RunImport _ _ _ _ _ _) as [[? ?] ?].
Defined.

Definition sample_start : Eng (Ptr CSVReader) WriterState unit (gmap string AnyCheckpoint) Customer :=
  mkEng (Some (NewCSVReader "customers.csv")) (NewCustomerWriter (Some NewCustomerSink) 0) tt ∅ []
    Created.
Definition sample_ops :=
  csv_ops (St := gmap string AnyCheckpoint) sample_fs
    (CustomerProcessor (H := plain_unicode)) "customers.csv" DefaultCheckpointKey.
Definition sample_end := snd (chunk_run (B := sample_ops) (λ _, false) (λ _, false) 0 2 20 Background sample_start).

Lemma completed_import_exactly_once_witness :
  CustomerSink_Snapshot (ws_sink (e_writer sample_end)) =
    map (customer_of (H := plain_unicode)) (rows_of sample_file).
Proof.
  apply (completed_import_exactly_once (H := plain_unicode) (view := λ st key, st !! key)
           sample_fs (λ _, false) "customers.csv" DefaultCheckpointKey sample_start sample_end).
  - vm_compute; split; [intros ?; discriminate|reflexivity].
  - reflexivity.
  - reflexivity.
  - apply sample_blank.
  - apply (chunk_run_steps (B := sample_ops) _ _ 0 2 20 Background _
             (fst (chunk_run (B := sample_ops) (λ _, false) (λ _, false) 0 2 20 Background sample_start))); [reflexivity|].
    unfold sample_end. by destruct (chunk_run _ _ _ _ _ _ _).
  - vm_compute; reflexivity.
  - vm_compute; reflexivity.
  - apply Nat.leb_le. vm_compute; reflexivity.
  - repeat constructor.
  - refine (bool_decide_eq_true_1 _ _). vm_compute; reflexivity.
Defined.
