(* ===== verification/AccountMigration.v ===== *)
(** examples/account-migration-checkpoint-restart/internal/accountmigration/migration.go: the
    migration reader, the account processor, the target store and writer, the recording checkpoint
    store, [RunMigration] and [RunDemo]. *)
From S2P Require Import Prelude BatchProtocol.

Definition JobName : string := "account-migration".
Definition StepName : string := "legacy-account-migration".
Definition DefaultCheckpointKey : string := "account-migration-v1".
Definition DefaultChunkSize : Z := 2.

Definition ErrInvalidAccount : GoError :=
  Sentinel "accountmigration.ErrInvalidAccount" "invalid legacy account".
Definition ErrMigrationCrash : GoError :=
  Sentinel "accountmigration.ErrMigrationCrash" "simulated migration crash".
Definition ErrInvalidCheckpoint : GoError :=
  Sentinel "accountmigration.ErrInvalidCheckpoint" "invalid migration checkpoint".
Definition ErrDuplicateAccount : GoError :=
  Sentinel "accountmigration.ErrDuplicateAccount" "duplicate target account".

Record LegacyAccount := mkLegacy {
  la_Index : Z; la_AccountID : string; la_Email : string; la_Plan : string; la_Region : string
}.
Record TargetAccount := mkTarget {
  ta_ID : string; ta_Email : string; ta_Plan : string; ta_Region : string
}.
Record MigrationCheckpoint := mkMigrationCheckpoint { mc_NextIndex : Z }.
Abbreviation AnyCheckpoint := (AnyOf MigrationCheckpoint).

Record CheckpointOperation := mkOperation {
  op_Kind : string; op_Key : string; op_Checkpoint : Ptr MigrationCheckpoint; op_Found : bool
}.

Definition DefaultAccounts : list LegacyAccount := [
  mkLegacy 0 "acct-1001" "Alpha@Example.com" "Gold" "NA";
  mkLegacy 1 "acct-1002" "Beta@Example.com" "Silver" "EU";
  mkLegacy 2 "acct-1003" "Gamma@Example.com" "Gold" "APAC";
  mkLegacy 3 "acct-1004" "Delta@Example.com" "Bronze" "NA";
  mkLegacy 4 "acct-1005" "Omega@Example.com" "Silver" "EU"
].

Definition asMigrationCheckpoint (value : AnyCheckpoint) : GoError + MigrationCheckpoint :=
  match value with
  | AnyValue c => inr c
  | AnyPointer None => inl (Errorf "%w: nil checkpoint" [ErrInvalidCheckpoint] [])
  | AnyPointer (Some c) => inr c
  | AnyOther t => inl (Errorf "%w: got %T" [ErrInvalidCheckpoint] [FType t])
  end.

(** A nil [any], what a missing map entry yields, takes the default case too. *)
Definition checkpointPointer (value : option AnyCheckpoint) : Ptr MigrationCheckpoint :=
  match value with
  | None => None
  | Some v => match asMigrationCheckpoint v with inl _ => None | inr c => Some c end
  end.

(** ** MigrationReader *)

Record MigrationReader := mkReader {
  r_accounts : list LegacyAccount; r_next : Z; r_readIDs : list string;
  r_opened : bool; r_closed : bool
}.

Definition NewMigrationReader (accounts : list LegacyAccount) : MigrationReader :=
  mkReader accounts 0 [] false false.

(** The validation loop of [Open]: [None] when every account passes. *)
Fixpoint validate_accounts (index : Z) (seen : gset string) (accounts : list LegacyAccount)
    : option GoError :=
  match accounts with
  | [] => None
  | account :: rest =>
      let id := TrimSpace (la_AccountID account) in
      if negb (la_Index account =? index)
      then Some (Errorf "%w: account %q has index %d, want %d" [ErrInvalidAccount]
                   [FStr (la_AccountID account); FInt (la_Index account); FInt index])
      else if bool_decide (id = "")
      then Some (Errorf "%w: account at index %d has blank id" [ErrInvalidAccount] [FInt index])
      else if bool_decide (id ∈ seen)
      then Some (Errorf "%w: duplicate source account %q" [ErrInvalidAccount] [FStr id])
      else validate_accounts (index + 1) ({[id]} ∪ seen) rest
  end.

Definition MigrationReader_Open : GoM (Ptr MigrationReader) unit :=
  do! ctxErr;
  let! r := deref_or (λ _, true) (plain_error "migration reader must not be nil") in
  match validate_accounts 0 ∅ (r_accounts r) with
  | Some e => throw e
  | None => store (mkReader (r_accounts r) 0 [] true false)
  end.

Definition err_reader_not_open : GoError := plain_error "migration reader is not open".

Definition MigrationReader_Read : GoM (Ptr MigrationReader) (option LegacyAccount) :=
  do! ctxErr;
  let! r := deref_or r_opened err_reader_not_open in
  if r_next r >=? len (r_accounts r) then ret None
  else match index_Z (r_accounts r) (r_next r) with
       | None => panic
       | Some account =>
           do! store (mkReader (r_accounts r) (int_incr (r_next r))
                        (r_readIDs r ++ [la_AccountID account]) (r_opened r) (r_closed r));
           ret (Some account)
       end.

Definition MigrationReader_Restore (value : AnyCheckpoint) : GoM (Ptr MigrationReader) unit :=
  do! ctxErr;
  let! r := deref_or r_opened err_reader_not_open in
  match asMigrationCheckpoint value with
  | inl e => throw e
  | inr cp =>
      if (mc_NextIndex cp <? 0) || (mc_NextIndex cp >? len (r_accounts r))
      then throw (Errorf "%w: next_index %d outside 0..%d" [ErrInvalidCheckpoint]
                    [FInt (mc_NextIndex cp); FInt (len (r_accounts r))])
      else store (mkReader (r_accounts r) (mc_NextIndex cp) (r_readIDs r) (r_opened r)
                    (r_closed r))
  end.

Definition MigrationReader_Checkpoint : GoM (Ptr MigrationReader) AnyCheckpoint :=
  do! ctxErr;
  let! r := deref_or r_opened err_reader_not_open in
  ret (AnyValue (mkMigrationCheckpoint (r_next r))).

Definition MigrationReader_Close : GoM (Ptr MigrationReader) unit :=
  let! s := get in
  match s with
  | None => ret tt
  | Some r =>
      do! store (mkReader (r_accounts r) (r_next r) (r_readIDs r) (r_opened r) true);
      ctxErr
  end.

Definition MigrationReader_Closed (r : Ptr MigrationReader) : bool :=
  match r with None => false | Some r => r_closed r end.
Definition MigrationReader_ReadIDs (r : Ptr MigrationReader) : list string :=
  match r with None => [] | Some r => r_readIDs r end.

(** ** The account processor *)

Section Processor.
Context `{GoUnicode}.

Definition target_of (account : LegacyAccount) : TargetAccount :=
  mkTarget (TrimSpace (la_AccountID account)) (ToLower (TrimSpace (la_Email account)))
    (ToLower (TrimSpace (la_Plan account))) (ToUpper (TrimSpace (la_Region account))).

(** [id == "" || email == "" || plan == "" || region == ""]. *)
Definition has_blank_field (t : TargetAccount) : bool :=
  bool_decide (ta_ID t = "") || bool_decide (ta_Email t = "") || bool_decide (ta_Plan t = "")
  || bool_decide (ta_Region t = "").

Definition NewAccountProcessor (crashOnAccount : string) {S} (account : LegacyAccount)
    : GoM S (option TargetAccount) :=
  do! ctxErr;
  let t := target_of account in
  if has_blank_field t
  then throw (Errorf "%w: account %q has blank field" [ErrInvalidAccount] [FStr (ta_ID t)])
  else if negb (bool_decide (crashOnAccount = "")) && bool_decide (ta_ID t = crashOnAccount)
  then throw (Errorf "%w: account %s" [ErrMigrationCrash] [FStr (ta_ID t)])
  else ret (Some t).
End Processor.

(** ** TargetAccountStore *)

Record TargetAccountStore := mkTargetStore {
  t_targets : gmap string TargetAccount; t_order : list string; t_writes : list string
}.

Definition NewTargetAccountStore : TargetAccountStore := mkTargetStore ∅ [] [].

Definition TargetAccountStore_Put (account : TargetAccount) : GoM (Ptr TargetAccountStore) unit :=
  let! s := deref_or (λ _, true) (plain_error "target account store must not be nil") in
  match t_targets s !! ta_ID account with
  | Some _ => throw (Errorf "%w: %s" [ErrDuplicateAccount] [FStr (ta_ID account)])
  | None =>
      store (mkTargetStore (<[ta_ID account := account]> (t_targets s))
               (t_order s ++ [ta_ID account]) (t_writes s ++ [ta_ID account]))
  end.

Definition zero_target : TargetAccount := mkTarget "" "" "" "".

Definition TargetAccountStore_Snapshot (s : Ptr TargetAccountStore) : list TargetAccount :=
  match s with
  | None => []
  | Some s => map (λ id, default zero_target (t_targets s !! id)) (t_order s)
  end.
Definition TargetAccountStore_WriteIDs (s : Ptr TargetAccountStore) : list string :=
  match s with None => [] | Some s => t_writes s end.

(** ** TargetAccountWriter *)

Record TargetAccountWriter := mkWriter {
  w_writtenIDs : list string; w_opened : bool; w_closed : bool
}.

(** A writer and the store its [store] field points to, which the caller shares. *)
Record WriterState := mkWriterState {
  ws_writer : Ptr TargetAccountWriter; ws_store : Ptr TargetAccountStore
}.

Definition NewTargetAccountWriter (store : Ptr TargetAccountStore) : WriterState :=
  mkWriterState (Some (mkWriter [] false false)) (Some (default NewTargetAccountStore store)).

Definition TargetAccountWriter_Open : GoM WriterState unit :=
  do! ctxErr;
  let! s := get in
  match ws_writer s, ws_store s with
  | Some w, Some _ => put (mkWriterState (Some (mkWriter [] true false)) (ws_store s))
  | _, _ => throw (plain_error "target writer must not be nil")
  end.

(** [w.store.Put(account)]. *)
Definition writer_put (account : TargetAccount) : GoM WriterState unit :=
  on_part ws_store (λ t s, mkWriterState (ws_writer s) t) (TargetAccountStore_Put account).

Definition write_account (account : TargetAccount) : GoM WriterState unit :=
  do! ctxErr;
  do! writer_put account;
  let! s := get in
  match ws_writer s with
  | None => panic
  | Some w =>
      put (mkWriterState
             (Some (mkWriter (w_writtenIDs w ++ [ta_ID account]) (w_opened w) (w_closed w)))
             (ws_store s))
  end.

Definition TargetAccountWriter_Write (chunk : list TargetAccount) : GoM WriterState unit :=
  do! ctxErr;
  let! s := get in
  match ws_writer s with
  | Some w =>
      if w_opened w then forM_ chunk write_account
      else throw (plain_error "target writer is not open")
  | None => throw (plain_error "target writer is not open")
  end.

Definition TargetAccountWriter_Close : GoM WriterState unit :=
  let! s := get in
  match ws_writer s with
  | None => ret tt
  | Some w =>
      do! put (mkWriterState (Some (mkWriter (w_writtenIDs w) (w_opened w) true)) (ws_store s));
      ctxErr
  end.

Definition TargetAccountWriter_Closed (s : WriterState) : bool :=
  match ws_writer s with None => false | Some w => w_closed w end.
Definition TargetAccountWriter_WrittenIDs (s : WriterState) : list string :=
  match ws_writer s with None => [] | Some w => w_writtenIDs w end.

(** ** RecordingCheckpointStore *)

Record RecordingCheckpointStore := mkRecording {
  rs_values : gmap string AnyCheckpoint; rs_operations : list CheckpointOperation
}.

Definition NewRecordingCheckpointStore : RecordingCheckpointStore := mkRecording ∅ [].

Definition err_nil_store : GoError := plain_error "checkpoint store must not be nil".

Definition RecordingCheckpointStore_Load (key : string)
    : GoM (Ptr RecordingCheckpointStore) (option AnyCheckpoint) :=
  do! ctxErr;
  let! s := deref_or (λ _, true) err_nil_store in
  let value := rs_values s !! key in
  do! store (mkRecording (rs_values s)
               (rs_operations s ++
                [mkOperation "load" key (checkpointPointer value)
                   (match value with Some _ => true | None => false end)]));
  ret value.

Definition RecordingCheckpointStore_Save (key : string) (checkpoint : AnyCheckpoint)
    : GoM (Ptr RecordingCheckpointStore) unit :=
  do! ctxErr;
  let! s := deref_or (λ _, true) err_nil_store in
  store (mkRecording (<[key := checkpoint]> (rs_values s))
           (rs_operations s ++
            [mkOperation "save" key (checkpointPointer (Some checkpoint)) true])).

Definition RecordingCheckpointStore_Operations (s : Ptr RecordingCheckpointStore)
    : list CheckpointOperation :=
  match s with None => [] | Some s => rs_operations s end.

#[export] Instance recording_store
    : CheckpointStore (Ptr RecordingCheckpointStore) AnyCheckpoint := {|
  cs_Load := RecordingCheckpointStore_Load;
  cs_Save := RecordingCheckpointStore_Save
|}.

(** ** Runs *)

Inductive ReportNode := mkReportNode {
  n_Name : string; n_Status : string; n_Error : string; n_ReadCount : Z; n_WriteCount : Z;
  n_FilterCount : Z; n_SkipCount : Z; n_RetryCount : Z; n_Failure : bool;
  n_Children : list ReportNode
}.

Record MigrationRun := mkMigrationRun {
  run_Report : ReportNode; run_Checkpoint : Ptr MigrationCheckpoint; run_ReadIDs : list string;
  run_WrittenIDs : list string; run_Targets : list TargetAccount;
  run_ReaderWasClosed : bool; run_WriterWasClosed : bool
}.

Record DemoResult := mkDemoResult {
  demo_CheckpointKey : string; demo_ChunkSize : Z; demo_FirstRun : MigrationRun;
  demo_RestartRun : MigrationRun; demo_FinalCheckpoint : Ptr MigrationCheckpoint;
  demo_AccountsMigrated : Z; demo_Targets : list TargetAccount;
  demo_CheckpointActivity : list CheckpointOperation
}.

Definition AccountProcessor : Type := LegacyAccount → GoM unit (option TargetAccount).

(** The interface of the migration step to the engine. *)
Definition account_ops {St} `{CheckpointStore St AnyCheckpoint} (accounts : list LegacyAccount)
    (processor : AccountProcessor) (key : string)
    : BatchOps (Ptr MigrationReader) WriterState unit St LegacyAccount TargetAccount
        AnyCheckpoint := {|
  rd_open := MigrationReader_Open;
  rd_read := MigrationReader_Read;
  rd_restore := MigrationReader_Restore;
  rd_checkpoint := MigrationReader_Checkpoint;
  rd_close := MigrationReader_Close;
  wr_open := TargetAccountWriter_Open;
  wr_write := TargetAccountWriter_Write;
  wr_close := TargetAccountWriter_Close;
  pr_process := processor;
  st_load := cs_Load key;
  st_save := cs_Save key;
  rd_new := λ r, r = Some (NewMigrationReader accounts);
  wr_renew := λ w w', w' = NewTargetAccountWriter (ws_store w);
  pr_renew := λ p p', p' = p
|}.

Section Runs.
Context `{GoUnicode} {St : Type} {CS : CheckpointStore St AnyCheckpoint}.
(** The library's [NewMemoryCheckpointStore], [NewStep] and [NewJob]. *)
Context (NewMemoryCheckpointStore : St).
Context (NewStep : string → Z → string → option GoError) (NewJob : string → option GoError).

Abbreviation MigrationEng :=
  (Eng (Ptr MigrationReader) WriterState unit St TargetAccount).

(** [job.Run(ctx)] for a step with this processor, chunk size and checkpoint key. *)
Context (jobRun : AccountProcessor → Z → string → Ctx → MigrationEng →
                  Report * Ctx * MigrationEng).

Fixpoint projectReport (report : Report) : ReportNode :=
  mkReportNode (rp_Name report) (rp_Status report)
    (match rp_Err report with Some e => Error e | None => "" end)
    (rp_ReadCount report) (rp_WriteCount report) (rp_FilterCount report) (rp_SkipCount report)
    (rp_RetryCount report) (rp_IsFailure report) (map projectReport (rp_Children report)).

(** For a non-nil store; a nil one yields [nil, nil] and is never passed. *)
Definition loadMigrationCheckpoint (key : string) : GoM St (Ptr MigrationCheckpoint) :=
  let! value := cs_Load key in
  match value with
  | None => ret None
  | Some v =>
      match asMigrationCheckpoint v with
      | inl e => throw e
      | inr cp => ret (Some cp)
      end
  end.

(** The checkpoint store and the target store are shared with the caller, who sees them in the
    final state. *)
Record RunOptions := mkRunOptions {
  o_Accounts : list LegacyAccount; o_ChunkSize : Z; o_CheckpointKey : string;
  o_CheckpointStore : option St; o_TargetStore : Ptr TargetAccountStore;
  o_CrashOnAccount : string; o_Processor : option AccountProcessor
}.

Definition effective_accounts (options : RunOptions) : list LegacyAccount :=
  match o_Accounts options with [] => DefaultAccounts | accounts => accounts end.
Definition effective_key (options : RunOptions) : string :=
  if bool_decide (o_CheckpointKey options = "") then DefaultCheckpointKey
  else o_CheckpointKey options.
Definition effective_processor (options : RunOptions) : AccountProcessor :=
  default (NewAccountProcessor (o_CrashOnAccount options)) (o_Processor options).
Definition effective_store (options : RunOptions) : St :=
  default NewMemoryCheckpointStore (o_CheckpointStore options).
Definition effective_targets (options : RunOptions) : TargetAccountStore :=
  default NewTargetAccountStore (o_TargetStore options).

(** The state [RunMigration] hands to the engine. *)
Definition initial_engine (options : RunOptions) : MigrationEng :=
  mkEng (Some (NewMigrationReader (effective_accounts options)))
    (NewTargetAccountWriter (Some (effective_targets options))) tt (effective_store options) []
    Created.

(** The outcome, the caller's context afterwards and the objects of the run. *)
Definition RunMigration (ctx : option Ctx) (options : RunOptions)
    : Outcome MigrationRun * Ctx * MigrationEng :=
  let ctx := normalizeContext ctx in
  let start := initial_engine options in
  let chunkSize := if o_ChunkSize options =? 0 then DefaultChunkSize else o_ChunkSize options in
  let key := effective_key options in
  match NewStep StepName chunkSize key with
  | Some e => (Fail (Errorf "create migration step: %w" [e] []), ctx, start)
  | None =>
      match NewJob JobName with
      | Some e => (Fail (Errorf "create migration job: %w" [e] []), ctx, start)
      | None =>
          let '(report, ctx, sys) :=
            jobRun (effective_processor options) chunkSize key ctx start in
          let '(loaded, ctx, st) :=
            withoutCancel (loadMigrationCheckpoint key) ctx (e_store sys) in
          let sys := mkEng (e_reader sys) (e_writer sys) (e_proc sys) st (e_pending sys)
                       (e_phase sys) in
          let run checkpoint :=
            mkMigrationRun (projectReport report) checkpoint
              (MigrationReader_ReadIDs (e_reader sys))
              (TargetAccountWriter_WrittenIDs (e_writer sys))
              (TargetAccountStore_Snapshot (ws_store (e_writer sys)))
              (MigrationReader_Closed (e_reader sys))
              (TargetAccountWriter_Closed (e_writer sys)) in
          match loaded with
          | Panic => (Panic, ctx, sys)
          | Val checkpoint => (Val (run checkpoint), ctx, sys)
          | Fail e =>
              if negb (rp_IsFailure report)
                 || negb (errors_Is e "accountmigration.ErrInvalidCheckpoint")
              then (Fail e, ctx, sys)
              else (Val (run None), ctx, sys)
          end
      end
  end.
End Runs.

Section Demo.
Context `{GoUnicode}.
Context (NewStep : string → Z → string → option GoError) (NewJob : string → option GoError).
(** [batch.StatusFailed] and [batch.StatusCompleted]. *)
Context (StatusFailed StatusCompleted : string).
Context (jobRun : AccountProcessor → Z → string → Ctx →
   Eng (Ptr MigrationReader) WriterState unit (Ptr RecordingCheckpointStore) TargetAccount →
   Report * Ctx *
   Eng (Ptr MigrationReader) WriterState unit (Ptr RecordingCheckpointStore) TargetAccount).

(** Both runs share the context, the recording store and the target store. *)
Definition RunDemo (ctx : option Ctx) : Outcome DemoResult :=
  let run := RunMigration (Some NewRecordingCheckpointStore) NewStep NewJob jobRun in
  match run ctx (mkRunOptions [] 0 "" (Some (Some NewRecordingCheckpointStore))
                   (Some NewTargetAccountStore) "acct-1003" None) with
  | (Fail e, _, _) => Fail e
  | (Panic, _, _) => Panic
  | (Val first, ctx, sys) =>
      match run (Some ctx) (mkRunOptions [] 0 "" (Some (e_store sys)) (ws_store (e_writer sys))
                              "" None) with
      | (Fail e, _, _) => Fail e
      | (Panic, _, _) => Panic
      | (Val restart, ctx, sys) =>
          if negb (bool_decide (n_Status (run_Report first) = StatusFailed))
          then Fail (Errorf "expected first run to fail, got %s" []
                       [FStr (n_Status (run_Report first))])
          else if negb (bool_decide (n_Status (run_Report restart) = StatusCompleted))
          then Fail (Errorf "expected restart to complete, got %s" []
                       [FStr (n_Status (run_Report restart))])
          else
            let '(loaded, _, st) :=
              withoutCancel (loadMigrationCheckpoint DefaultCheckpointKey) ctx (e_store sys) in
            let targets := TargetAccountStore_Snapshot (ws_store (e_writer sys)) in
            match loaded with
            | Fail e => Fail e
            | Panic => Panic
            | Val finalCheckpoint =>
                Val (mkDemoResult DefaultCheckpointKey DefaultChunkSize first restart
                       finalCheckpoint (len targets) targets
                       (RecordingCheckpointStore_Operations st))
            end
      end
  end.
End Demo.

(** ** The target store is an insert-once store *)

Definition put_target (account : TargetAccount) (s : TargetAccountStore) : TargetAccountStore :=
  match t_targets s !! ta_ID account with
  | Some _ => s
  | None =>
      mkTargetStore (<[ta_ID account := account]> (t_targets s)) (t_order s ++ [ta_ID account])
        (t_writes s ++ [ta_ID account])
  end.

#[export] Instance target_store : InsertOnce TargetAccountStore TargetAccount := {|
  io_key := ta_ID;
  io_map := t_targets;
  io_order := t_order;
  io_put := put_target
|}.

#[export] Instance target_store_laws : InsertOnceLaws TargetAccountStore TargetAccount.
Proof.
  split; intros s v H; cbn in *; unfold put_target.
  - destruct H as [t ->]. done.
  - by rewrite H.
Qed.

Lemma new_target_store_wf : io_wf NewTargetAccountStore.
Proof.
  split; cbn; [apply NoDup_nil_2| |done].
  intros k. rewrite lookup_empty. split; [by intros ?%elem_of_nil|by intros [? ?]].
Qed.

Lemma target_snapshot_list s : io_wf s → TargetAccountStore_Snapshot (Some s) = io_list s.
Proof. intros Hwf. exact (io_list_total s zero_target Hwf). Qed.

(** [Put] on a store: it inserts, or rejects the account and changes nothing. *)
Lemma put_spec account c s o c' s' :
  TargetAccountStore_Put account c (Some s) = (o, c', s') →
  c' = c ∧ s' = Some (put_target account s) ∧
  o = if bool_decide (is_Some (t_targets s !! ta_ID account))
      then Fail (Errorf "%w: %s" [ErrDuplicateAccount] [FStr (ta_ID account)]) else Val tt.
Proof.
  unfold TargetAccountStore_Put, put_target. intros Hr. cbn in Hr.
  unfold bind, deref_or in Hr. cbn in Hr.
  destruct (t_targets s !! ta_ID account) as [t|]; unfold store, put, throw in Hr; by simplify_eq.
Qed.

(** ** The migration step keeps the laws of the batch contract *)

Definition acc_rd_ok (accounts : list LegacyAccount) (r : Ptr MigrationReader) : Prop :=
  match r with
  | None => True
  | Some r => r_accounts r = accounts ∧ (r_opened r = true → 0 ≤ r_next r ≤ len accounts)
  end.
Definition acc_cursor (r : Ptr MigrationReader) : nat :=
  match r with None => 0%nat | Some r => Z.to_nat (r_next r) end.
Definition acc_index (k : AnyCheckpoint) : option nat :=
  match asMigrationCheckpoint k with
  | inr cp => if mc_NextIndex cp <? 0 then None else Some (Z.to_nat (mc_NextIndex cp))
  | inl _ => None
  end.
Definition acc_wr_ok (w : WriterState) : Prop :=
  match ws_store w with None => True | Some s => io_wf s end.
Definition acc_content (w : WriterState) : list TargetAccount :=
  TargetAccountStore_Snapshot (ws_store w).

Section Laws.
Context `{GoUnicode} {St : Type} {CS : CheckpointStore St AnyCheckpoint}.
Context {view : St → string → option AnyCheckpoint}.
Context {CL : CheckpointStoreLaws St AnyCheckpoint view}.
Context (accounts : list LegacyAccount) (crash key : string).

(** What the processor computes for an account, [None] when a field is blank. *)
Definition migrated (account : LegacyAccount) : option TargetAccount :=
  let t := target_of account in if has_blank_field t then None else Some t.

Lemma acc_process_law {S} account c (s : S) o c' s' :
  NewAccountProcessor crash account c s = (Val o, c', s') →
  is_Some o ∧ migrated account = o.
Proof. unfold NewAccountProcessor, migrated. intros Hr. go_inv Hr. eauto. Qed.

Lemma acc_open_law c r o c' r' :
  acc_rd_ok accounts r → MigrationReader_Open c r = (o, c', r') →
  acc_rd_ok accounts r' ∧ (o = Val tt → acc_cursor r' = 0%nat).
Proof.
  intros Hok Hr. unfold MigrationReader_Open in Hr. go_inv Hr; try done.
  destruct Hok as [-> _]. split; [|done]. cbn. split; [done|]. unfold len. lia.
Qed.

Lemma acc_read_law c r o c' r' :
  in_int64 (len accounts) → acc_rd_ok accounts r → MigrationReader_Read c r = (o, c', r') →
  acc_rd_ok accounts r' ∧
  match o with
  | Val (Some i) => accounts !! acc_cursor r = Some i ∧ acc_cursor r' = S (acc_cursor r)
  | Val None => (length accounts ≤ acc_cursor r)%nat ∧ acc_cursor r' = acc_cursor r
  | _ => acc_cursor r' = acc_cursor r
  end.
Proof.
  intros Hint Hok Hr. unfold MigrationReader_Read in Hr. go_inv Hr; try done.
  all: destruct Hok as [<- Ho]; pose proof (Ho ltac:(done)) as Hn; cbn in *.
  all: rewrite Z.geb_leb in *.
  - apply Z.leb_le in Heqb. unfold len in *. split_and!; [done|done|lia|done].
  - apply Z.leb_gt in Heqb. unfold len, in_int64, int_bits in *.
    unfold index_Z in Heqo0. destruct (Z.ltb_spec (r_next x) 0); [lia|].
    unfold int_incr, int_add. rewrite wrap64_id by (unfold in_int64, int_bits; lia).
    split_and!; [done|intros _; lia|done|lia].
Qed.

Lemma acc_restore_law k c r o c' r' :
  acc_rd_ok accounts r → MigrationReader_Restore k c r = (o, c', r') →
  acc_rd_ok accounts r' ∧ (o = Val tt → acc_index k = Some (acc_cursor r')).
Proof.
  intros Hok Hr. unfold MigrationReader_Restore in Hr. go_inv Hr; try done.
  destruct Hok as [<- Ho]. apply orb_false_iff in Heqb as [Hlt Hgt].
  rewrite Z.gtb_ltb in Hgt. apply Z.ltb_ge in Hgt. unfold acc_index. rewrite Heqs, Hlt.
  apply Z.ltb_ge in Hlt. done.
Qed.

Lemma acc_checkpoint_law c r o c' r' :
  acc_rd_ok accounts r → MigrationReader_Checkpoint c r = (o, c', r') →
  r' = r ∧ ∀ k, o = Val k → acc_index k = Some (acc_cursor r).
Proof.
  intros Hok Hr. unfold MigrationReader_Checkpoint in Hr. go_inv Hr; try done.
  destruct Hok as [<- Ho]; pose proof (Ho ltac:(done)) as Hn.
  split; [done|]. intros k [= <-]. unfold acc_index. cbn.
  by destruct (Z.ltb_spec (r_next x) 0); [lia|].
Qed.

Lemma acc_close_law c r o c' r' :
  acc_rd_ok accounts r → MigrationReader_Close c r = (o, c', r') → acc_rd_ok accounts r'.
Proof. intros Hok Hr. unfold MigrationReader_Close in Hr. by go_inv Hr. Qed.

Definition same_store (w w' : WriterState) : Prop := ws_store w' = ws_store w.

Lemma acc_writer_open_store : moves same_store TargetAccountWriter_Open.
Proof. intros c w o c' w' Hr. unfold TargetAccountWriter_Open in Hr. by go_inv Hr. Qed.

Lemma acc_writer_close_store : moves same_store TargetAccountWriter_Close.
Proof. intros c w o c' w' Hr. unfold TargetAccountWriter_Close in Hr. by go_inv Hr. Qed.

Lemma same_store_content w w' :
  same_store w w' → acc_wr_ok w → acc_wr_ok w' ∧ acc_content w' = acc_content w.
Proof. unfold same_store, acc_wr_ok, acc_content. by intros ->. Qed.

Lemma put_target_content account s :
  io_wf s →
  TargetAccountStore_Snapshot (Some (put_target account s)) =
    TargetAccountStore_Snapshot (Some s) ++
    keep_first ta_ID (map ta_ID (TargetAccountStore_Snapshot (Some s))) [account].
Proof.
  intros Hwf. change (put_target account s) with (io_put account s).
  rewrite !target_snapshot_list by (try apply io_wf_put; done).
  rewrite io_list_put by done. change ta_ID with (@io_key TargetAccountStore _ _).
  rewrite io_list_keys by done. cbn [keep_first]. case_bool_decide; by rewrite ?app_nil_r.
Qed.

(** [w.store.Put(account)] appends the account, or fails and leaves the store as it is. *)
Lemma writer_put_law account c w o c' w' :
  acc_wr_ok w → writer_put account c w = (o, c', w') →
  acc_wr_ok w' ∧
  ((o ≠ Val tt ∧ acc_content w' = acc_content w) ∨
   acc_content w' = acc_content w ++ keep_first ta_ID (map ta_ID (acc_content w)) [account]).
Proof.
  destruct w as [w s]. intros Hok Hr. unfold writer_put, on_part in Hr.
  destruct (TargetAccountStore_Put _ _ _) as [[o1 c1] s1] eqn:E. simplify_eq/=.
  destruct s as [s|]; [|unfold TargetAccountStore_Put in E; by go_inv E; auto].
  apply put_spec in E as (-> & -> & ->). unfold acc_wr_ok, acc_content in *. cbn [ws_store] in *.
  split; [exact (io_wf_put s account Hok)|right]. by apply put_target_content.
Qed.

Lemma write_account_law : item_law ta_ID acc_wr_ok acc_content write_account.
Proof.
  intros account c w o c' w' Hok Hr. unfold write_account in Hr.
  go_inv Hr; try (split; [done|]; by left).
  all: match goal with H : writer_put _ _ _ = _ |- _ =>
         apply writer_put_law in H as (Hok' & Hc); [|done] end.
  all: split; [done|].
  all: destruct Hc as [[Ho Hc]|Hc]; [|by right].
  1: by destruct Ho, a.
  all: by left.
Qed.

Lemma acc_write_law : chunk_law ta_ID acc_wr_ok acc_content TargetAccountWriter_Write.
Proof.
  intros chunk c w o c' w' Hok Hr. unfold TargetAccountWriter_Write in Hr. go_inv Hr.
  1: by eapply item_loop_law; [apply write_account_law|..].
  all: by apply chunk_law_none.
Qed.

Definition acc_saved (st : St) : option nat := view st key ≫= acc_index.

#[export] Instance account_laws :
  in_int64 (len accounts) →
  ImportLaws (account_ops accounts (NewAccountProcessor crash) key) accounts migrated ta_ID
    (acc_rd_ok accounts) acc_wr_ok acc_cursor acc_index acc_content acc_saved.
Proof.
  intros Hint. split; unfold_ops account_ops.
  - intros r ->. done.
  - intros w w' Hok ->. unfold acc_wr_ok, acc_content in *. cbn.
    destruct (ws_store w); cbn; [done|]. split; [apply new_target_store_wf|done].
  - intros. by eapply acc_open_law.
  - intros. by eapply acc_read_law.
  - intros. by eapply acc_restore_law.
  - intros. by eapply acc_checkpoint_law.
  - intros. by eapply acc_close_law.
  - intros. by eapply acc_process_law.
  - intros c w o c' w' Hok Hr. by eapply same_store_content; [eapply acc_writer_open_store|].
  - intros c w o c' w' Hok Hr. by eapply same_store_content; [eapply acc_writer_close_store|].
  - intros. by eapply acc_write_law.
  - intros c st o c' st' Hr. apply cs_load_law in Hr as [Hv Ho].
    unfold acc_saved. rewrite Hv. split; [done|]. destruct o as [[k|]| |]; try done.
    + intros n Hn. by rewrite <- (Ho _ eq_refl).
    + by rewrite <- (Ho _ eq_refl).
  - intros k c st o c' st' Hr. apply cs_save_law in Hr as [_ Hr].
    unfold acc_saved. destruct o; by rewrite Hr.
Qed.
End Laws.

(** ** What [Open] accepts *)

Definition trimmed_id (account : LegacyAccount) : string := TrimSpace (la_AccountID account).

Record valid_source (accounts : list LegacyAccount) : Prop := {
  vs_index i account : accounts !! i = Some account → la_Index account = Z.of_nat i;
  vs_named : Forall (λ account, trimmed_id account ≠ "") accounts;
  vs_unique : NoDup (map trimmed_id accounts)
}.

Lemma validate_accounts_spec index seen accounts :
  validate_accounts index seen accounts = None ↔
  (∀ i account, accounts !! i = Some account → la_Index account = index + Z.of_nat i) ∧
  Forall (λ account, trimmed_id account ≠ "") accounts ∧
  NoDup (map trimmed_id accounts) ∧ (∀ account, account ∈ accounts → trimmed_id account ∉ seen).
Proof.
  revert index seen. induction accounts as [|a rest IH]; intros index seen; cbn [validate_accounts].
  { split; [|done]. intros _. split_and!; [done|constructor|constructor|].
    by intros ? ?%elem_of_nil. }
  fold (trimmed_id a). cbn [map]. rewrite Forall_cons, NoDup_cons.
  assert ((∀ i account, (a :: rest) !! i = Some account → la_Index account = index + Z.of_nat i) ↔
    la_Index a = index ∧
    ∀ i account, rest !! i = Some account → la_Index account = index + 1 + Z.of_nat i) as Hidx.
  { split.
    - intros H. split; [specialize (H 0%nat a eq_refl); lia|].
      intros i account Hi. specialize (H (S i) account Hi). lia.
    - intros [H0 H] [|i] account Hi; cbn in Hi; [simplify_eq; lia|].
      specialize (H i account Hi). lia. }
  rewrite Hidx. destruct (Z.eqb_spec (la_Index a) index) as [E|E]; cbn [negb].
  2: { split; [done|]. by intros ([? _] & _). }
  case_bool_decide as Hblank; [split; [done|]; by intros (_ & [? _] & _)|].
  case_bool_decide as Hseen.
  { split; [done|]. intros (_ & _ & _ & H). destruct (H a); [by left|done]. }
  rewrite IH. split.
  - intros (H1 & H2 & H3 & H4). split_and!; [done..| |done|].
    + intros (b & Hb & Hin)%list_elem_of_fmap. apply (H4 b Hin). set_solver.
    + intros account [->|Hin]%elem_of_cons; [done|]. specialize (H4 account Hin). set_solver.
  - intros ([_ H1] & [_ H2] & [Hn H3] & H4). split_and!; [done..|].
    intros account Hin. specialize (H4 account ltac:(by right)).
    assert (trimmed_id account ≠ trimmed_id a); [|set_solver].
    intros E2. apply Hn. rewrite <- E2. by apply list_elem_of_fmap_2.
Qed.

Lemma validate_accounts_valid accounts :
  validate_accounts 0 ∅ accounts = None ↔ valid_source accounts.
Proof.
  rewrite validate_accounts_spec. split.
  - intros (H1 & H2 & H3 & _). by split.
  - intros [H1 H2 H3]. split_and!; [done..|set_solver].
Qed.

Lemma validate_accounts_error index seen accounts e :
  validate_accounts index seen accounts = Some e →
  errors_Is e "accountmigration.ErrInvalidAccount" = true.
Proof.
  revert index seen. induction accounts as [|a rest IH]; intros index seen; cbn [validate_accounts];
    [done|].
  repeat case_match; try (intros [= <-]; reflexivity). apply IH.
Qed.

(** on a live context, [Open] accepts exactly the sources whose indices count up from 0 and
    whose trimmed IDs are non-blank and distinct; it then opens the reader at the first account.
    Any other source is rejected with [ErrInvalidAccount] and the reader is left as it was. *)
Theorem migration_reader_open_validates c r :
  ctx_polls c = None →
  (valid_source (r_accounts r) ∧
   MigrationReader_Open c (Some r) =
     (Val tt, c, Some (mkReader (r_accounts r) 0 [] true false))) ∨
  (¬ valid_source (r_accounts r) ∧
   ∃ e, MigrationReader_Open c (Some r) = (Fail e, c, Some r) ∧
     errors_Is e "accountmigration.ErrInvalidAccount" = true).
Proof.
  intros Hc. unfold MigrationReader_Open, bind, ctxErr, ctx_poll, deref_or. rewrite Hc.
  rewrite <- validate_accounts_valid.
  destruct (validate_accounts 0 ∅ (r_accounts r)) as [e|] eqn:E; [right|by left].
  split; [done|]. exists e. split; [done|]. by eapply validate_accounts_error.
Qed.

Lemma migration_reader_open_validates_witness :
  (valid_source DefaultAccounts ∧
   MigrationReader_Open Background (Some (NewMigrationReader DefaultAccounts)) =
     (Val tt, Background, Some (mkReader DefaultAccounts 0 [] true false))) ∨
  (¬ valid_source DefaultAccounts ∧
   ∃ e, MigrationReader_Open Background (Some (NewMigrationReader DefaultAccounts)) =
     (Fail e, Background, Some (NewMigrationReader DefaultAccounts)) ∧
     errors_Is e "accountmigration.ErrInvalidAccount" = true).
Proof.
  exact (migration_reader_open_validates Background (NewMigrationReader DefaultAccounts) eq_refl).
Defined.

(** ** Restart safety of the migration *)

Section MigrationProperties.
Context `{GoUnicode} {St : Type} {CS : CheckpointStore St AnyCheckpoint}.
Context {view : St → string → option AnyCheckpoint}.
Context {CL : CheckpointStoreLaws St AnyCheckpoint view}.

(** What one run leaves for the next one: the targets are the migrated accounts of a prefix of the
    source, in order, and the saved checkpoint lies within that prefix. *)
Definition migration_consistent (accounts : list LegacyAccount) (key : string)
    (targets : Ptr TargetAccountStore) (st : St) : Prop :=
  match targets with None => True | Some s => io_wf s end ∧
  ∃ m, (m ≤ length accounts)%nat ∧
    (∀ n, acc_saved (view := view) key st = Some n → (n ≤ m)%nat) ∧
    Forall (λ account, has_blank_field (target_of account) = false) (take m accounts) ∧
    TargetAccountStore_Snapshot targets = map target_of (take m accounts).

Lemma migrated_some account :
  is_Some (migrated account) ↔ has_blank_field (target_of account) = false.
Proof. unfold migrated. destruct (has_blank_field _); [|by eauto]. split; [by intros []|done]. Qed.

Lemma migrated_prefix accounts :
  Forall (λ account, has_blank_field (target_of account) = false) accounts →
  omap migrated accounts = map target_of accounts.
Proof.
  induction 1 as [|a rest Ha _ IH]; [done|]. rewrite omap_cons_eq.
  unfold migrated at 1. rewrite Ha. cbn [map]. by rewrite IH.
Qed.

Lemma valid_prefix_ids m accounts :
  valid_source accounts → NoDup (map ta_ID (map target_of (take m accounts))).
Proof.
  intros [_ _ Hnd]. rewrite map_map.
  change (map (λ x, ta_ID (target_of x)) (take m accounts)) with
    (map trimmed_id (take m accounts)).
  rewrite <- firstn_map. eapply sublist_NoDup; [done|apply sublist_take].
Qed.

Lemma migration_consistent_iff accounts key w st :
  valid_source accounts →
  acc_wr_ok w ∧ consistent (src := accounts) (f := migrated) (key := ta_ID)
     (content := acc_content) (saved := acc_saved (view := view) key) w st
  ↔ migration_consistent accounts key (ws_store w) st.
Proof.
  intros Hv. unfold migration_consistent, consistent, acc_wr_ok, acc_content.
  assert (∀ m, Forall (λ a, is_Some (migrated a)) (take m accounts) ↔
    Forall (λ a, has_blank_field (target_of a) = false) (take m accounts)) as Hall.
  { intros m. rewrite !Forall_forall. setoid_rewrite migrated_some. done. }
  assert (∀ m, Forall (λ a, has_blank_field (target_of a) = false) (take m accounts) →
    keep_first ta_ID [] (omap migrated (take m accounts)) = map target_of (take m accounts)) as Hkf.
  { intros m Hm. rewrite migrated_prefix by done.
    apply keep_first_fresh; [by apply valid_prefix_ids|set_solver]. }
  split; intros (Hok & m & Hm & Hs & Hf & Hc); (split; [done|]); exists m; specialize (Hall m).
  - apply Hall in Hf. rewrite Hkf in Hc by done. done.
  - rewrite Hkf by done. split_and!; [done..|by apply Hall|done].
Qed.

Lemma engine_run_migrates run accounts crash key c e rep c' e' :
  in_int64 (len accounts) → valid_source accounts →
  keeps_contract (account_ops accounts (NewAccountProcessor crash) key) run →
  e_phase e = Created → e_reader e = Some (NewMigrationReader accounts) →
  migration_consistent accounts key (ws_store (e_writer e)) (e_store e) →
  run c e = (rep, c', e') →
  migration_consistent accounts key (ws_store (e_writer e')) (e_store e').
Proof.
  intros Hint Hv [retry Hk] Hph Hrd Hc Hr.
  pose proof (account_laws (view := view) accounts crash key Hint) as L.
  apply migration_consistent_iff in Hc as [Hok Hc]; [|done].
  apply migration_consistent_iff; [done|].
  eapply (restart_safety (L := L) retry); [|done|done|done|by eapply Hk].
  by rewrite Hrd.
Qed.

Lemma load_migration_checkpoint_view key c st o c' st' :
  loadMigrationCheckpoint key c st = (o, c', st') → ∀ k, view st' k = view st k.
Proof.
  unfold loadMigrationCheckpoint, bind. destruct (cs_Load key c st) as [[v c1] st1] eqn:E.
  apply cs_load_law in E as [Hv _]. unfold ret, throw.
  intros Hr. repeat case_match; simplify_eq; done.
Qed.
End MigrationProperties.

Section MigrationTheorems.
Context `{GoUnicode} {St : Type} {CS : CheckpointStore St AnyCheckpoint}.
Context {view : St → string → option AnyCheckpoint}.
Context {CL : CheckpointStoreLaws St AnyCheckpoint view}.
Context (NewMemoryCheckpointStore : St).
Context (NewStep : string → Z → string → option GoError) (NewJob : string → option GoError).
Context (jobRun : AccountProcessor → Z → string → Ctx →
           Eng (Ptr MigrationReader) WriterState unit St TargetAccount →
           Report * Ctx * Eng (Ptr MigrationReader) WriterState unit St TargetAccount).

(** C18: restart safety of the account migration, for a source [Open] accepts. Take any engine that
    keeps the documented checkpoint contract, any crash account, chunk size and cancellation. If
    the target store lists the migrated accounts of a prefix of the source, in order, and the
    saved checkpoint lies within the prefix, the same holds after [RunMigration] however it ends:
    no account is skipped, duplicated or reordered over any number of crashed runs. A run that
    returns a result reports that store. *)
Theorem run_migration_consistent ctx options o ctx' sys :
  let accounts := effective_accounts options in
  let key := effective_key options in
  in_int64 (len accounts) → valid_source accounts →
  (∀ size, keeps_contract
     (account_ops accounts (NewAccountProcessor (o_CrashOnAccount options)) key)
     (jobRun (NewAccountProcessor (o_CrashOnAccount options)) size key)) →
  o_Processor options = None →
  migration_consistent (view := view) accounts key (Some (effective_targets options))
    (effective_store NewMemoryCheckpointStore options) →
  RunMigration NewMemoryCheckpointStore NewStep NewJob jobRun ctx options = (o, ctx', sys) →
  migration_consistent (view := view) accounts key (ws_store (e_writer sys)) (e_store sys) ∧
  (∀ run, o = Val run →
     run_Targets run = TargetAccountStore_Snapshot (ws_store (e_writer sys))).
Proof.
  cbn zeta. intros Hint Hv Hk Hproc Hc Hr. unfold RunMigration in Hr.
  unfold effective_processor in Hr. rewrite Hproc in Hr. cbn [default] in Hr.
  destruct (NewStep _ _ _); [by simplify_eq|]. destruct (NewJob _); [by simplify_eq|].
  destruct (jobRun _ _ _ _ _) as [[rep c1] e1] eqn:Hrun.
  apply (engine_run_migrates (view := view) _ (effective_accounts options)
           (o_CrashOnAccount options) (effective_key options)) in Hrun; [|done..].
  unfold withoutCancel in Hr.
  destruct (loadMigrationCheckpoint _ _ _) as [[v c2] st2] eqn:Hl.
  pose proof (load_migration_checkpoint_view _ _ _ _ _ _ Hl) as Hview.
  assert (migration_consistent (view := view) (effective_accounts options)
            (effective_key options) (ws_store (e_writer e1)) st2) as Hc2.
  { destruct Hrun as (Hwf & m & Hm & Hs & Hrest). split; [done|]. exists m.
    split_and!; [done| |by destruct Hrest..]. unfold acc_saved in *. by rewrite Hview. }
  destruct v; repeat case_match; simplify_eq; (split; [done|]); by intros run [= <-].
Qed.
End MigrationTheorems.

(** ** The recording checkpoint store *)

Definition recording_view (s : Ptr RecordingCheckpointStore) (key : string)
    : option AnyCheckpoint := s ≫= λ s, rs_values s !! key.

#[export] Instance recording_store_laws :
  CheckpointStoreLaws (Ptr RecordingCheckpointStore) AnyCheckpoint recording_view.
Proof.
  split; cbn.
  - intros key c st o c' st' Hr. unfold RecordingCheckpointStore_Load in Hr. go_inv Hr; try done.
    split; [done|]. by intros v [= ->].
  - intros key k c st o c' st' Hr. unfold RecordingCheckpointStore_Save in Hr. go_inv Hr; try done.
    split; [|apply lookup_insert_eq]. intros key' Hne. by rewrite lookup_insert_ne.
Qed.

(** The checkpoint of the last successful save at [key] in a log of operations. *)
Fixpoint last_saved (key : string) (ops : list CheckpointOperation)
    : option (Ptr MigrationCheckpoint) :=
  match ops with
  | [] => None
  | op :: ops =>
      match last_saved key ops with
      | Some cp => Some cp
      | None => if bool_decide (op_Kind op = "save") && bool_decide (op_Key op = key)
                then Some (op_Checkpoint op) else None
      end
  end.

(** Every load in the log answered with the save before it. *)
Definition log_honest (ops : list CheckpointOperation) : Prop :=
  ∀ i op, ops !! i = Some op → op_Kind op = "load" →
    op_Found op = bool_decide (is_Some (last_saved (op_Key op) (take i ops))) ∧
    op_Checkpoint op = default None (last_saved (op_Key op) (take i ops)).

Definition recording_ok (s : RecordingCheckpointStore) : Prop :=
  (∀ key, last_saved key (rs_operations s) =
            (λ v, checkpointPointer (Some v)) <$> rs_values s !! key) ∧
  log_honest (rs_operations s).

Lemma last_saved_snoc key ops op :
  last_saved key (ops ++ [op]) =
    if bool_decide (op_Kind op = "save") && bool_decide (op_Key op = key)
    then Some (op_Checkpoint op) else last_saved key ops.
Proof.
  induction ops as [|o ops IH]; cbn; [done|]. rewrite IH.
  by destruct (bool_decide (op_Kind op = "save") && _).
Qed.

Lemma log_honest_snoc ops op :
  log_honest ops →
  (op_Kind op = "load" →
   op_Found op = bool_decide (is_Some (last_saved (op_Key op) ops)) ∧
   op_Checkpoint op = default None (last_saved (op_Key op) ops)) →
  log_honest (ops ++ [op]).
Proof.
  intros Hl Hop i o Hi Hk. apply lookup_snoc_Some in Hi as [[Hlt Hi]|[-> <-]].
  - rewrite take_app_le by lia. by apply Hl.
  - rewrite take_app_length. by apply Hop.
Qed.

Lemma recording_ok_load key c s o c' s' :
  recording_ok s → RecordingCheckpointStore_Load key c (Some s) = (o, c', s') →
  ∃ s1, s' = Some s1 ∧ recording_ok s1.
Proof.
  intros [Hv Hl] Hr. unfold RecordingCheckpointStore_Load in Hr. go_inv Hr;
    try (by eexists; split; [done|split]).
  eexists. split; [done|]. split; cbn [rs_operations rs_values].
  - intros k. rewrite last_saved_snoc. cbn. apply Hv.
  - apply log_honest_snoc; [done|]. cbn [op_Found op_Key op_Checkpoint]. intros _.
    rewrite Hv. by destruct (rs_values _ !! key).
Qed.

Lemma recording_ok_save key k c s o c' s' :
  recording_ok s → RecordingCheckpointStore_Save key k c (Some s) = (o, c', s') →
  ∃ s1, s' = Some s1 ∧ recording_ok s1.
Proof.
  intros [Hv Hl] Hr. unfold RecordingCheckpointStore_Save in Hr. go_inv Hr;
    try (by eexists; split; [done|split]).
  eexists. split; [done|]. split; cbn [rs_operations rs_values].
  - intros k'. rewrite last_saved_snoc. cbn [op_Kind op_Key op_Checkpoint].
    rewrite bool_decide_true by done. cbn [andb]. case_bool_decide as D.
    + by rewrite D, lookup_insert_eq.
    + by rewrite lookup_insert_ne.
  - by apply log_honest_snoc.
Qed.

(** A call on a recording store: which, with which arguments. *)
Inductive StoreCall := CallLoad (key : string) | CallSave (key : string) (k : AnyCheckpoint).

Definition store_call (call : StoreCall) : GoM (Ptr RecordingCheckpointStore) unit :=
  match call with
  | CallLoad key => do! RecordingCheckpointStore_Load key; ret tt
  | CallSave key k => RecordingCheckpointStore_Save key k
  end.

(** A sequence of calls, each under its own context, ignoring failures as independent callers do. *)
Fixpoint store_calls (calls : list (Ctx * StoreCall)) (s : Ptr RecordingCheckpointStore)
    : Ptr RecordingCheckpointStore :=
  match calls with
  | [] => s
  | (c, call) :: rest => store_calls rest (snd (store_call call c s))
  end.

(** the recorded activity explains the store. After any calls under any contexts, the value
    at a key is the one of the last recorded save at that key, and every recorded load shows the
    checkpoint of the last save recorded before it ([Found] says whether there was one). *)
Theorem recording_store_log_faithful calls :
  ∃ s, store_calls calls (Some NewRecordingCheckpointStore) = Some s ∧
    (∀ key, last_saved key (RecordingCheckpointStore_Operations (Some s)) =
       (λ v, checkpointPointer (Some v)) <$> recording_view (Some s) key) ∧
    log_honest (RecordingCheckpointStore_Operations (Some s)).
Proof.
  assert (∀ s, recording_ok s → ∃ s', store_calls calls (Some s) = Some s' ∧ recording_ok s') as H.
  { induction calls as [|[c call] rest IH]; intros s Hs; cbn; [eauto|].
    destruct (store_call call c (Some s)) as [[o c'] s'] eqn:E. cbn.
    assert (∃ s1, s' = Some s1 ∧ recording_ok s1) as (s1 & -> & Hs1); [|by apply IH].
    destruct call; cbn in E.
    - apply bind_inv in E as [(? & ? & ? & E & E2)|[(? & ? & E)|(? & E)]].
      2-3: by eapply recording_ok_load.
      unfold ret in E2. simplify_eq. by eapply recording_ok_load.
    - by eapply recording_ok_save. }
  destruct (H NewRecordingCheckpointStore) as (s & Hs & Hv & Hl); [|by exists s].
  split; [done|]. by intros i op Hi.
Qed.

(** ** Concrete runs *)

Definition demo_job (processor : AccountProcessor) (size : Z) (key : string) :=
  chunk_job (account_ops (St := Ptr RecordingCheckpointStore) DefaultAccounts processor key)
    (Z.to_nat size) 20.
Definition crashing_options : RunOptions (St := Ptr RecordingCheckpointStore) :=
  mkRunOptions [] 0 "" (Some (Some NewRecordingCheckpointStore)) (Some NewTargetAccountStore)
    "acct-1003" None.
Definition crashing_run :=
  RunMigration (H := plain_unicode) (Some NewRecordingCheckpointStore) (λ _ _ _, None) (λ _, None)
    demo_job None crashing_options.

(** The demo with the chunk engine: the first run fails on acct-1003, the restart completes, and
    all five accounts are migrated. *)
Example demo_completes :
  match RunDemo (H := plain_unicode) (λ _ _ _, None) (λ _, None) "failed" "completed" demo_job None
  with
  | Val result =>
      map ta_ID (demo_Targets result) =
        ["acct-1001"; "acct-1002"; "acct-1003"; "acct-1004"; "acct-1005"] ∧
      run_WrittenIDs (demo_RestartRun result) = ["acct-1003"; "acct-1004"; "acct-1005"] ∧
      demo_FinalCheckpoint result = Some (mkMigrationCheckpoint 5)
  | _ => False
  end.
Proof. vm_compute. done. Qed.

Lemma default_accounts_valid : valid_source DefaultAccounts.
Proof. apply validate_accounts_valid. vm_compute. reflexivity. Qed.

Lemma run_migration_consistent_witness :
  let sys := snd crashing_run in
  map ta_ID (TargetAccountStore_Snapshot (ws_store (e_writer sys))) = ["acct-1001"; "acct-1002"] ∧
  migration_consistent (H := plain_unicode) (view := recording_view) DefaultAccounts
    DefaultCheckpointKey (ws_store (e_writer sys)) (e_store sys).
Proof.
  cbn zeta. split; [vm_compute; reflexivity|].
  apply (run_migration_consistent (H := plain_unicode) (view := recording_view)
           (Some NewRecordingCheckpointStore) (λ _ _ _, None) (λ _, None) demo_job None
           crashing_options (fst (fst crashing_run)) (snd (fst crashing_run))).
  - vm_compute; split; [intros ?; discriminate|reflexivity].
  - exact default_accounts_valid.
  - intros size. apply chunk_job_keeps_contract.
  - reflexivity.
  - split; [apply new_target_store_wf|]. exists 0%nat. cbn.
    split_and!; [lia|by intros ?|constructor|done].
  - unfold crashing_run. by destruct (RunMigration _ _ _ _ _ _) as [[? ?] ?].
Defined.
