(* ===== verification/TicketWorker.v ===== *)
(** examples/retry-dead-letter-batch-worker/internal/ticketworker/worker.go: the ticket reader, the
    processor with its dead letters, the sink and writer, and [Run]. *)
From S2P Require Import Prelude BatchProtocol.

Definition JobName : string := "ticket-batch-worker".
Definition StepName : string := "ticket-retry-dead-letter-worker".
Definition DefaultChunkSize : Z := 2.

Definition ErrTransientTicket : GoError :=
  Sentinel "ticketworker.ErrTransientTicket" "transient ticket failure".
Definition ErrPermanentTicket : GoError :=
  Sentinel "ticketworker.ErrPermanentTicket" "permanent ticket failure".
Definition ErrDuplicateTicket : GoError :=
  Sentinel "ticketworker.ErrDuplicateTicket" "duplicate processed ticket".

(** [FailureScenario] is a string type; any string can occur. *)
Definition ScenarioSuccess : string := "success".
Definition ScenarioTransientOnce : string := "transient_once".
Definition ScenarioPermanent : string := "permanent".

Record Ticket := mkTicket {
  tk_ID : string; tk_Channel : string; tk_Address : string; tk_Scenario : string;
  tk_Reason : string
}.
Record ProcessedTicket := mkProcessed {
  pt_ID : string; pt_Channel : string; pt_Address : string; pt_Attempts : Z
}.
Record DeadLetter := mkDeadLetter { dl_TicketID : string; dl_Reason : string; dl_Attempts : Z }.

Definition DefaultTickets : list Ticket := [
  mkTicket "ticket-1001" "email" "vip@example.com" ScenarioSuccess "";
  mkTicket "ticket-1002" "sms" "+15550100" ScenarioTransientOnce "";
  mkTicket "ticket-1003" "email" "blocked@example.com" ScenarioPermanent "blocked address";
  mkTicket "ticket-1004" "push" "device-42" ScenarioSuccess ""
].

(** ** TicketReader *)

Record TicketReader := mkReader {
  r_tickets : list Ticket; r_next : Z; r_opened : bool; r_closed : bool
}.

Definition NewTicketReader (tickets : list Ticket) : TicketReader :=
  mkReader tickets 0 false false.

(** The loop of [Open]: the first ticket with a blank ID is an error. *)
Fixpoint check_tickets (index : Z) (tickets : list Ticket) : option GoError :=
  match tickets with
  | [] => None
  | ticket :: rest =>
      if bool_decide (tk_ID ticket = "")
      then Some (Errorf "%w: ticket at index %d has blank id" [ErrPermanentTicket] [FInt index])
      else check_tickets (index + 1) rest
  end.

Definition TicketReader_Open : GoM (Ptr TicketReader) unit :=
  do! ctxErr;
  let! r := deref_or (λ _, true) (plain_error "ticket reader must not be nil") in
  match check_tickets 0 (r_tickets r) with
  | Some e => throw e
  | None => store (mkReader (r_tickets r) 0 true false)
  end.

Definition TicketReader_Read : GoM (Ptr TicketReader) (option Ticket) :=
  do! ctxErr;
  let! r := deref_or r_opened (plain_error "ticket reader is not open") in
  if r_next r >=? len (r_tickets r) then ret None
  else match index_Z (r_tickets r) (r_next r) with
       | None => panic
       | Some ticket =>
           do! store (mkReader (r_tickets r) (int_incr (r_next r)) (r_opened r) (r_closed r));
           ret (Some ticket)
       end.

Definition TicketReader_Close : GoM (Ptr TicketReader) unit :=
  let! s := get in
  match s with
  | None => ret tt
  | Some r => do! store (mkReader (r_tickets r) (r_next r) (r_opened r) true); ctxErr
  end.

Definition TicketReader_Closed (r : Ptr TicketReader) : bool :=
  match r with None => false | Some r => r_closed r end.

(** ** DeadLetterStore *)

Record DeadLetterStore := mkDeadLetters { d_records : list DeadLetter; d_seen : gset string }.

Definition NewDeadLetterStore : DeadLetterStore := mkDeadLetters [] ∅.

Definition DeadLetterStore_Record (record : DeadLetter) (s : Ptr DeadLetterStore)
    : Ptr DeadLetterStore :=
  match s with
  | None => None
  | Some s =>
      if bool_decide (dl_TicketID record ∈ d_seen s) then Some s
      else Some (mkDeadLetters (d_records s ++ [record]) ({[dl_TicketID record]} ∪ d_seen s))
  end.

Definition DeadLetterStore_List (s : Ptr DeadLetterStore) : list DeadLetter :=
  match s with None => [] | Some s => d_records s end.

(** ** TicketProcessor *)

Record TicketProcessor := mkProcessor { p_attempts : gmap string Z }.

(** A processor and the dead-letter store its [deadLetters] field points to. *)
Record ProcessorState := mkProcessorState {
  ps_processor : Ptr TicketProcessor; ps_dead : Ptr DeadLetterStore
}.

Definition NewTicketProcessor (store : Ptr DeadLetterStore) : ProcessorState :=
  mkProcessorState (Some (mkProcessor ∅)) (Some (default NewDeadLetterStore store)).

Definition nextAttempt (ticketID : string) (p : TicketProcessor) : Z * TicketProcessor :=
  let attempt := int_incr (default 0 (p_attempts p !! ticketID)) in
  (attempt, mkProcessor (<[ticketID := attempt]> (p_attempts p))).

Definition processedTicket (ticket : Ticket) (attempt : Z) : ProcessedTicket :=
  mkProcessed (tk_ID ticket) (tk_Channel ticket) (tk_Address ticket) attempt.

(** [p.deadLetters.Record(DeadLetter{...}); return zero, false, e]. *)
Definition dead_letter {A} (ticket : Ticket) (reason : string) (attempt : Z) (e : GoError)
    : GoM ProcessorState A :=
  do! modify (λ s, mkProcessorState (ps_processor s)
                     (DeadLetterStore_Record (mkDeadLetter (tk_ID ticket) reason attempt)
                        (ps_dead s)));
  throw e.

Definition failure_reason (ticket : Ticket) : string :=
  if bool_decide (tk_Reason ticket = "") then "permanent ticket failure" else tk_Reason ticket.

(** The body of [Process] after [attempt := p.nextAttempt(ticket.ID)]. *)
Definition classify (ticket : Ticket) (attempt : Z) : GoM ProcessorState (option ProcessedTicket) :=
  if bool_decide (tk_Channel ticket = "") || bool_decide (tk_Address ticket = "")
  then dead_letter ticket "missing delivery target" attempt
         (Errorf "%w: ticket %s missing delivery target" [ErrPermanentTicket]
            [FStr (tk_ID ticket)])
  else if bool_decide (tk_Scenario ticket = ScenarioSuccess)
          || bool_decide (tk_Scenario ticket = "")
  then ret (Some (processedTicket ticket attempt))
  else if bool_decide (tk_Scenario ticket = ScenarioTransientOnce)
  then if attempt =? 1
       then throw (Errorf "%w: ticket %s provider throttled" [ErrTransientTicket]
                     [FStr (tk_ID ticket)])
       else ret (Some (processedTicket ticket attempt))
  else if bool_decide (tk_Scenario ticket = ScenarioPermanent)
  then dead_letter ticket (failure_reason ticket) attempt
         (Errorf "%w: ticket %s: %s" [ErrPermanentTicket]
            [FStr (tk_ID ticket); FStr (failure_reason ticket)])
  else dead_letter ticket "unknown failure scenario" attempt
         (Errorf "%w: ticket %s unknown scenario %q" [ErrPermanentTicket]
            [FStr (tk_ID ticket); FStr (tk_Scenario ticket)]).

Definition TicketProcessor_Process (ticket : Ticket)
    : GoM ProcessorState (option ProcessedTicket) :=
  do! ctxErr;
  let! s := get in
  match ps_processor s with
  | None => throw (plain_error "ticket processor must not be nil")
  | Some p =>
      let '(attempt, p) := nextAttempt (tk_ID ticket) p in
      do! put (mkProcessorState (Some p) (ps_dead s));
      classify ticket attempt
  end.

(** ** ProcessedSink *)

Record ProcessedSink := mkSink { k_tickets : gmap string ProcessedTicket; k_order : list string }.

Definition NewProcessedSink : ProcessedSink := mkSink ∅ [].

Definition ProcessedSink_Put (ticket : ProcessedTicket) : GoM (Ptr ProcessedSink) unit :=
  let! s := deref_or (λ _, true) (plain_error "processed sink must not be nil") in
  match k_tickets s !! pt_ID ticket with
  | Some _ => throw (Errorf "%w: %s" [ErrDuplicateTicket] [FStr (pt_ID ticket)])
  | None =>
      store (mkSink (<[pt_ID ticket := ticket]> (k_tickets s)) (k_order s ++ [pt_ID ticket]))
  end.

Definition zero_processed : ProcessedTicket := mkProcessed "" "" "" 0.

Definition ProcessedSink_List (s : Ptr ProcessedSink) : list ProcessedTicket :=
  match s with
  | None => []
  | Some s => map (λ id, default zero_processed (k_tickets s !! id)) (k_order s)
  end.

(** ** TicketWriter *)

Record TicketWriter := mkWriter { w_opened : bool; w_closed : bool }.

(** A writer and the sink its [sink] field points to. *)
Record WriterState := mkWriterState { ws_writer : Ptr TicketWriter; ws_sink : Ptr ProcessedSink }.

Definition NewTicketWriter (sink : Ptr ProcessedSink) : WriterState :=
  mkWriterState (Some (mkWriter false false)) (Some (default NewProcessedSink sink)).

Definition TicketWriter_Open : GoM WriterState unit :=
  do! ctxErr;
  let! s := get in
  match ws_writer s with
  | None => throw (plain_error "ticket writer must not be nil")
  | Some w => put (mkWriterState (Some (mkWriter true false)) (ws_sink s))
  end.

(** [w.sink.Put(ticket)] in the loop of [Write]. *)
Definition write_ticket (ticket : ProcessedTicket) : GoM WriterState unit :=
  do! ctxErr;
  on_part ws_sink (λ k s, mkWriterState (ws_writer s) k) (ProcessedSink_Put ticket).

Definition TicketWriter_Write (tickets : list ProcessedTicket) : GoM WriterState unit :=
  do! ctxErr;
  let! s := get in
  match ws_writer s with
  | Some w => if w_opened w then forM_ tickets write_ticket
              else throw (plain_error "ticket writer is not open")
  | None => throw (plain_error "ticket writer is not open")
  end.

Definition TicketWriter_Close : GoM WriterState unit :=
  let! s := get in
  match ws_writer s with
  | None => ret tt
  | Some w => do! put (mkWriterState (Some (mkWriter (w_opened w) true)) (ws_sink s)); ctxErr
  end.

Definition TicketWriter_Closed (s : WriterState) : bool :=
  match ws_writer s with None => false | Some w => w_closed w end.

(** ** Runs *)

(** The predicates given to [batch.RetryErrors] and [batch.SkipErrors]. *)
Definition retry_transient (e : GoError) : bool := errors_Is e "ticketworker.ErrTransientTicket".
Definition skip_permanent (e : GoError) : bool := errors_Is e "ticketworker.ErrPermanentTicket".

(** The interface of the worker step to the engine. The step has no checkpoint store and its
    objects serve one run: the checkpoint operations are trivial and there is no restart. *)
Definition ticket_ops : BatchOps (Ptr TicketReader) WriterState ProcessorState unit
    Ticket ProcessedTicket unit := {|
  rd_open := TicketReader_Open;
  rd_read := TicketReader_Read;
  rd_restore _ := ret tt;
  rd_checkpoint := ret tt;
  rd_close := TicketReader_Close;
  wr_open := TicketWriter_Open;
  wr_write := TicketWriter_Write;
  wr_close := TicketWriter_Close;
  pr_process := TicketProcessor_Process;
  st_load := ret None;
  st_save _ := ret tt;
  rd_new _ := False;
  wr_renew _ _ := False;
  pr_renew _ _ := False
|}.

Abbreviation TicketEng := (Eng (Ptr TicketReader) WriterState ProcessorState unit ProcessedTicket).

Inductive ReportNode := mkReportNode {
  n_Name : string; n_Status : string; n_Error : string; n_ReadCount : Z; n_WriteCount : Z;
  n_FilterCount : Z; n_SkipCount : Z; n_RetryCount : Z; n_Failure : bool;
  n_Children : list ReportNode
}.

Record Options := mkOptions {
  o_Tickets : list Ticket; o_ChunkSize : Z; o_MaxAttempts : Z; o_MaxSkips : Z;
  o_Sink : Ptr ProcessedSink; o_DeadLetters : Ptr DeadLetterStore
}.

Record Result := mkResult {
  res_JobName : string; res_StepName : string; res_ChunkSize : Z; res_Status : string;
  res_ReadCount : Z; res_WriteCount : Z; res_RetryCount : Z; res_SkipCount : Z;
  res_Processed : list ProcessedTicket; res_DeadLetters : list DeadLetter;
  res_Report : ReportNode
}.

Section Runs.
Context `{GoUnicode}.
(** The errors of [batch.RetryErrors], [batch.SkipErrors], [batch.NewStep] and [batch.NewJob]. *)
Context (RetryErrors SkipErrors : Z → option GoError).
Context (NewStep : string → Z → option GoError) (NewJob : string → option GoError).
(** [job.Run(ctx)] for a step with this chunk size and these retry and skip limits. *)
Context (jobRun : Z → Z → Z → Ctx → TicketEng → Report * Ctx * TicketEng).

Fixpoint projectReport (report : Report) : ReportNode :=
  mkReportNode (rp_Name report) (rp_Status report)
    (match rp_Err report with Some e => Error e | None => "" end)
    (rp_ReadCount report) (rp_WriteCount report) (rp_FilterCount report) (rp_SkipCount report)
    (rp_RetryCount report) (rp_IsFailure report) (map projectReport (rp_Children report)).

Definition or_default (value fallback : Z) : Z := if value =? 0 then fallback else value.
Definition effective_tickets (options : Options) : list Ticket :=
  match o_Tickets options with [] => DefaultTickets | tickets => tickets end.

Definition initial_engine (options : Options) : TicketEng :=
  mkEng (Some (NewTicketReader (effective_tickets options)))
    (NewTicketWriter (Some (default NewProcessedSink (o_Sink options))))
    (NewTicketProcessor (Some (default NewDeadLetterStore (o_DeadLetters options))))
    tt [] Created.

Definition Run (ctx : option Ctx) (options : Options) : Outcome Result * TicketEng :=
  let ctx := normalizeContext ctx in
  let start := initial_engine options in
  let chunkSize := or_default (o_ChunkSize options) DefaultChunkSize in
  let maxAttempts := or_default (o_MaxAttempts options) 3 in
  let maxSkips := or_default (o_MaxSkips options) 2 in
  match RetryErrors maxAttempts with
  | Some e => (Fail e, start)
  | None =>
      match SkipErrors maxSkips with
      | Some e => (Fail e, start)
      | None =>
          match NewStep StepName chunkSize with
          | Some e => (Fail e, start)
          | None =>
              match NewJob JobName with
              | Some e => (Fail e, start)
              | None =>
                  let '(report, _, sys) := jobRun chunkSize maxAttempts maxSkips ctx start in
                  (Val (mkResult JobName StepName chunkSize (rp_Status report)
                          (rp_ReadCount report) (rp_WriteCount report) (rp_RetryCount report)
                          (rp_SkipCount report)
                          (ProcessedSink_List (ws_sink (e_writer sys)))
                          (DeadLetterStore_List (ps_dead (e_proc sys)))
                          (projectReport report)), sys)
              end
          end
      end
  end.

Definition RunDemo (ctx : option Ctx) : Outcome Result * TicketEng :=
  Run ctx (mkOptions [] 0 0 0 None None).
End Runs.

(** ** The sink is an insert-once store *)

Definition put_ticket (ticket : ProcessedTicket) (s : ProcessedSink) : ProcessedSink :=
  match k_tickets s !! pt_ID ticket with
  | Some _ => s
  | None => mkSink (<[pt_ID ticket := ticket]> (k_tickets s)) (k_order s ++ [pt_ID ticket])
  end.

#[export] Instance ticket_sink : InsertOnce ProcessedSink ProcessedTicket := {|
  io_key := pt_ID;
  io_map := k_tickets;
  io_order := k_order;
  io_put := put_ticket
|}.

#[export] Instance ticket_sink_laws : InsertOnceLaws ProcessedSink ProcessedTicket.
Proof.
  split; intros s v H; cbn in *; unfold put_ticket.
  - by destruct H as [t ->].
  - by rewrite H.
Qed.

Lemma new_sink_wf : io_wf NewProcessedSink.
Proof.
  split; cbn; [apply NoDup_nil_2| |done].
  intros k. rewrite lookup_empty. split; [by intros ?%elem_of_nil|by intros [? ?]].
Qed.

(** ** What becomes of a ticket *)

Inductive Verdict := Delivered (ticket : ProcessedTicket) | Dead (record : DeadLetter).

Definition no_target (ticket : Ticket) : bool :=
  bool_decide (tk_Channel ticket = "") || bool_decide (tk_Address ticket = "").
Definition needs_retry (ticket : Ticket) : bool :=
  negb (no_target ticket) && bool_decide (tk_Scenario ticket = ScenarioTransientOnce).

(** The specification of the worker: how the first processing of a ticket must end. *)
Definition verdict (ticket : Ticket) : Verdict :=
  if no_target ticket then Dead (mkDeadLetter (tk_ID ticket) "missing delivery target" 1)
  else if bool_decide (tk_Scenario ticket = ScenarioSuccess)
          || bool_decide (tk_Scenario ticket = "")
  then Delivered (processedTicket ticket 1)
  else if bool_decide (tk_Scenario ticket = ScenarioTransientOnce)
  then Delivered (processedTicket ticket 2)
  else if bool_decide (tk_Scenario ticket = ScenarioPermanent)
  then Dead (mkDeadLetter (tk_ID ticket) (failure_reason ticket) 1)
  else Dead (mkDeadLetter (tk_ID ticket) "unknown failure scenario" 1).

Definition delivered (ticket : Ticket) : option ProcessedTicket :=
  match verdict ticket with Delivered p => Some p | Dead _ => None end.
Definition buried (ticket : Ticket) : option DeadLetter :=
  match verdict ticket with Delivered _ => None | Dead d => Some d end.

Definition deliveries (tickets : list Ticket) : list ProcessedTicket := omap delivered tickets.
Definition dead_letters (tickets : list Ticket) : list DeadLetter := omap buried tickets.

Lemma verdict_id ticket :
  match verdict ticket with
  | Delivered p => pt_ID p = tk_ID ticket
  | Dead d => dl_TicketID d = tk_ID ticket
  end.
Proof. unfold verdict. by repeat (case_match; simplify_eq). Qed.

Lemma take_S_omap {A B} (f : A → option B) (l : list A) n x :
  l !! n = Some x →
  omap f (take (S n) l) = omap f (take n l) ++ match f x with Some y => [y] | None => [] end.
Proof.
  intros H. by rewrite (take_S_r _ _ _ H), omap_app.
Qed.

Lemma omap_take_prefix {A B} (f : A → option B) (l : list A) n : omap f (take n l) `prefix_of` omap f l.
Proof. exists (omap f (drop n l)). by rewrite <- omap_app, take_drop. Qed.

Lemma deliveries_ids tickets p :
  p ∈ deliveries tickets → pt_ID p ∈ map tk_ID tickets.
Proof.
  intros (t & Ht & Hp)%list_elem_of_omap. unfold delivered in Hp.
  pose proof (verdict_id t) as Hid. destruct (verdict t); [|done]. simplify_eq.
  rewrite Hid. by apply list_elem_of_fmap_2.
Qed.

Lemma deliveries_nodup tickets :
  NoDup (map tk_ID tickets) → NoDup (map pt_ID (deliveries tickets)).
Proof.
  induction tickets as [|t ts IH]; cbn [map]; intros Hnd; [constructor|].
  apply NoDup_cons in Hnd as [Ht Hnd]. unfold deliveries. rewrite omap_cons_eq.
  unfold delivered at 1. pose proof (verdict_id t) as Hid.
  destruct (verdict t) as [p|d]; [|by apply IH]. cbn [map]. apply NoDup_cons. split; [|by apply IH].
  intros (q & Hq & Hin)%list_elem_of_fmap. apply Ht. rewrite <- Hid, Hq.
  by apply deliveries_ids.
Qed.

Lemma classify_first ticket c s :
  (∃ o, verdict ticket = Delivered o ∧ classify ticket 1 c s = (Val (Some o), c, s)) ∨
  (∃ r e, verdict ticket = Dead r ∧
     classify ticket 1 c s =
       (Fail e, c, mkProcessorState (ps_processor s) (DeadLetterStore_Record r (ps_dead s))) ∧
     skip_permanent e = true ∧ retry_transient e = false) ∨
  (needs_retry ticket = true ∧
   classify ticket 1 c s =
     (Fail (Errorf "%w: ticket %s provider throttled" [ErrTransientTicket] [FStr (tk_ID ticket)]),
      c, s)).
Proof.
  unfold classify, verdict, needs_retry, no_target. unfold dead_letter, bind, modify, throw, ret.
  destruct (bool_decide (tk_Channel ticket = "") || _); [right; left; (eexists _, _; split_and!; reflexivity)|].
  destruct (bool_decide (tk_Scenario ticket = ScenarioSuccess) || _); [left; eexists; split; reflexivity|].
  destruct (bool_decide (tk_Scenario ticket = ScenarioTransientOnce)); [right; right; done|].
  destruct (bool_decide (tk_Scenario ticket = ScenarioPermanent)); right; left; (eexists _, _; split_and!; reflexivity).
Qed.

Lemma needs_retry_inv ticket :
  needs_retry ticket = true → no_target ticket = false ∧ tk_Scenario ticket = ScenarioTransientOnce.
Proof.
  unfold needs_retry. intros [H1 H2]%andb_prop. split; [by apply negb_true_iff|].
  by apply bool_decide_eq_true in H2.
Qed.

Lemma classify_second ticket c s :
  needs_retry ticket = true →
  classify ticket 2 c s = (Val (Some (processedTicket ticket 2)), c, s).
Proof.
  intros [H1 H2]%needs_retry_inv. unfold classify. unfold no_target in H1. by rewrite H1, H2.
Qed.

Lemma verdict_retry ticket :
  needs_retry ticket = true → verdict ticket = Delivered (processedTicket ticket 2).
Proof. intros [H1 H2]%needs_retry_inv. unfold verdict. by rewrite H1, H2. Qed.

(** ** The worker's invariant *)

Definition attempts_of (p : ProcessorState) : gmap string Z :=
  match ps_processor p with Some q => p_attempts q | None => ∅ end.

Section Worker.
Context (tickets : list Ticket).
Context (Hint : in_int64 (len tickets)) (Hnd : NoDup (map tk_ID tickets)).

Definition ids (n : nat) : list string := map tk_ID (take n tickets).

Lemma fresh_id n t : tickets !! n = Some t → tk_ID t ∉ ids n.
Proof.
  intros Ht (u & Hu & Hin)%list_elem_of_fmap.
  apply list_elem_of_lookup in Hin as [i Hi]. apply lookup_take_Some in Hi as [Hi Hlt].
  assert (i = n) as ->; [|lia].
  apply (NoDup_lookup (tk_ID <$> tickets) i n (tk_ID t)); [exact Hnd|..].
  - by rewrite list_lookup_fmap, Hi, Hu.
  - by rewrite list_lookup_fmap, Ht.
Qed.

Lemma ids_S n t : tickets !! n = Some t → ids (S n) = ids n ++ [tk_ID t].
Proof. intros Ht. unfold ids. by rewrite (take_S_r _ _ _ Ht), map_app. Qed.

(** The dead letters are those of the first [n] tickets. *)
Definition dead_at (n : nat) (p : ProcessorState) : Prop :=
  is_Some (ps_processor p) ∧
  ∃ d, ps_dead p = Some d ∧ d_records d = dead_letters (take n tickets) ∧
    ∀ id, id ∈ d_seen d → id ∈ ids n.

(** Between items: only processed tickets have been attempted. *)
Definition proc_at (n : nat) (p : ProcessorState) : Prop :=
  dead_at n p ∧ ∀ id, is_Some (attempts_of p !! id) → id ∈ ids n.

(** Between attempts at ticket [t]. *)
Definition proc_mid (n : nat) (t : Ticket) (p : ProcessorState) : Prop :=
  dead_at n p ∧ (∀ id, id ≠ tk_ID t → is_Some (attempts_of p !! id) → id ∈ ids n) ∧
  (attempts_of p !! tk_ID t = None ∨ (attempts_of p !! tk_ID t = Some 1 ∧ needs_retry t = true)).

Lemma proc_at_mid n t p : tickets !! n = Some t → proc_at n p → proc_mid n t p.
Proof.
  intros Ht [Hd Ha]. split; [done|]. split; [auto|left].
  destruct (attempts_of p !! tk_ID t) eqn:E; [|done].
  destruct (fresh_id n t Ht). apply Ha. by rewrite E.
Qed.

(** What one attempt, and so any number of attempts, may leave behind. *)
Definition attempt_post (n : nat) (t : Ticket) (v : Outcome (option ProcessedTicket))
    (p' : ProcessorState) : Prop :=
  (∃ o, v = Val (Some o) ∧ verdict t = Delivered o ∧ proc_at (S n) p') ∨
  (∃ e, v = Fail e ∧ skip_permanent e = true ∧ retry_transient e = false ∧
     is_Some (buried t) ∧ proc_at (S n) p') ∨
  (∃ e, v = Fail e ∧ skip_permanent e = false ∧ proc_mid n t p').

Lemma proc_delivered n t o q d a :
  tickets !! n = Some t → verdict t = Delivered o → dead_at n (mkProcessorState (Some q) d) →
  (∀ id, id ≠ tk_ID t → is_Some (p_attempts q !! id) → id ∈ ids n) →
  proc_at (S n) (mkProcessorState (Some (mkProcessor (<[tk_ID t := a]> (p_attempts q)))) d).
Proof.
  intros Ht Hv (_ & ds & Hds & Hrec & Hseen) Ha.
  split.
  - split; [eauto|]. exists ds. split_and!; [done| |].
    + unfold dead_letters. rewrite (take_S_omap _ _ _ _ Ht). unfold buried at 2. rewrite Hv.
      by rewrite app_nil_r.
    + intros id Hid. rewrite (ids_S n t Ht). set_solver.
  - intros id. cbn. rewrite (ids_S n t Ht), lookup_insert. case_decide as D; set_solver.
Qed.

Lemma proc_buried n t r q d a :
  tickets !! n = Some t → verdict t = Dead r → dead_at n (mkProcessorState (Some q) d) →
  (∀ id, id ≠ tk_ID t → is_Some (p_attempts q !! id) → id ∈ ids n) →
  proc_at (S n) (mkProcessorState (Some (mkProcessor (<[tk_ID t := a]> (p_attempts q))))
                   (DeadLetterStore_Record r d)).
Proof.
  intros Ht Hv (_ & ds & Hds & Hrec & Hseen) Ha. cbn in Hds. subst d.
  pose proof (verdict_id t) as Hid. rewrite Hv in Hid. cbn.
  rewrite bool_decide_false; [|intros Hin; apply (fresh_id n t Ht); rewrite <- Hid; auto].
  split.
  - split; [eauto|]. eexists. split_and!; [done| |]; cbn.
    + unfold dead_letters. rewrite (take_S_omap _ _ _ _ Ht). unfold buried at 2. rewrite Hv.
      by rewrite Hrec.
    + intros id. rewrite (ids_S n t Ht), Hid. set_solver.
  - intros id. cbn. rewrite (ids_S n t Ht), lookup_insert. case_decide as D; set_solver.
Qed.

Lemma retry_not_skipped cause :
  skip_permanent (cause_error cause) = false.
Proof. by destruct cause. Qed.

Lemma process_attempt n t c p v c' p' :
  tickets !! n = Some t → proc_mid n t p →
  TicketProcessor_Process t c p = (v, c', p') → attempt_post n t v p'.
Proof.
  intros Ht (Hd & Ha & Hm) Hr. unfold TicketProcessor_Process in Hr.
  apply bind_inv in Hr as [(a & c1 & p1 & Hc & Hr)|[(e & -> & Hc)|(-> & Hc)]];
    apply ctxErr_inv in Hc as (-> & Hc).
  2: { destruct Hc as [?|[cause ?]]; simplify_eq. right; right. eexists.
       split_and!; [done|apply retry_not_skipped|done]. }
  2: by destruct Hc as [?|[cause ?]].
  clear Hc. destruct p as [[q|] d]; [|by destruct Hd as [[? ?] _]].
  change (attempts_of _) with (p_attempts q) in *.
  unfold bind, get, nextAttempt, put in Hr. cbn [ps_processor ps_dead] in Hr.
  destruct Hm as [Hm|[Hm Hneeds]]; rewrite Hm in Hr.
  - change (int_incr (default 0 None)) with 1 in Hr.
    destruct (classify_first t c1 (mkProcessorState
      (Some (mkProcessor (<[tk_ID t := 1]> (p_attempts q)))) d)) as [(o & Hv & E)|[(r & e & Hv & E & He)|(Hn & E)]];
      rewrite E in Hr; simplify_eq.
    + left. exists o. split_and!; [done..|]. by eapply proc_delivered.
    + right; left. exists e. split_and!; [done|apply He..|unfold buried; rewrite Hv; eauto|].
      by eapply proc_buried.
    + right; right. eexists. split_and!; [done|done|].
      destruct Hd as [_ Hd]. split; [split; [eauto|exact Hd]|].
      cbn. split; [|right; by rewrite lookup_insert_eq].
      intros id Hid. rewrite lookup_insert_ne by done. by apply Ha.
  - change (int_incr (default 0 (Some 1))) with 2 in Hr.
    rewrite classify_second in Hr by done. simplify_eq. left. eexists.
    split_and!; [done|by apply verdict_retry|]. eapply proc_delivered; [done|by apply verdict_retry|done..].
Qed.

(** Any number of attempts under the retry policy. *)
Lemma ticket_processed_post n t p v p' :
  tickets !! n = Some t → proc_mid n t p →
  processed (B := ticket_ops) retry_transient t p p' v → attempt_post n t v p'.
Proof.
  intros Ht. apply processed_closed; [intros; by eapply process_attempt|].
  intros e q [(? & ? & _)|[(e' & ? & _ & He & _)|(e' & _ & _ & Hm')]] Hretry; [done| |done].
  simplify_eq. congruence.
Qed.

(** ** Reader and writer *)

Definition reader_at (n : nat) (r : Ptr TicketReader) : Prop :=
  match r with
  | None => False
  | Some r => r_tickets r = tickets ∧ r_next r = Z.of_nat n ∧ (n ≤ length tickets)%nat
  end.

Definition reader_of (r : Ptr TicketReader) : Prop :=
  match r with None => False | Some r => r_tickets r = tickets end.

Lemma open_at c r o c' r' :
  reader_of r → TicketReader_Open c r = (o, c', r') → o = Val tt → reader_at 0 r'.
Proof.
  intros Hr H. unfold TicketReader_Open in H. go_inv H; try done. intros _.
  split_and!; [done|done|lia].
Qed.

Lemma ticket_read_at n c r o c' r' :
  reader_at n r → TicketReader_Read c r = (o, c', r') →
  match o with
  | Val (Some t) => tickets !! n = Some t ∧ reader_at (S n) r'
  | Val None => n = length tickets ∧ r' = r
  | _ => True
  end.
Proof.
  intros Hr H. unfold TicketReader_Read in H. go_inv H; try done.
  all: destruct Hr as (<- & Hn & Hle).
  all: rewrite Z.geb_leb in *.
  - apply Z.leb_le in Heqb. unfold len in *. split; [lia|done].
  - apply Z.leb_gt in Heqb. rewrite Hn, index_Z_nat in *. unfold len, in_int64, int_bits in *.
    unfold int_incr, int_add. rewrite ?Hn, wrap64_id by (unfold in_int64, int_bits; lia).
    split; [done|]. split_and!; [done|cbn; lia|lia].
Qed.

Definition sink_ok (w : WriterState) : Prop :=
  match ws_sink w with None => True | Some s => io_wf s end.
Definition written (w : WriterState) : list ProcessedTicket := ProcessedSink_List (ws_sink w).

Lemma ticket_put_spec ticket c s o c' s' :
  ProcessedSink_Put ticket c (Some s) = (o, c', s') → s' = Some (put_ticket ticket s).
Proof.
  unfold ProcessedSink_Put, put_ticket, bind, deref_or, throw, store, put. intros Hr.
  by destruct (k_tickets s !! pt_ID ticket); simplify_eq.
Qed.

Lemma sink_list s : io_wf s → ProcessedSink_List (Some s) = io_list s.
Proof. intros Hwf. exact (io_list_total s zero_processed Hwf). Qed.

Lemma put_ticket_written ticket s :
  io_wf s →
  ProcessedSink_List (Some (put_ticket ticket s)) =
    ProcessedSink_List (Some s) ++
    keep_first pt_ID (map pt_ID (ProcessedSink_List (Some s))) [ticket].
Proof.
  intros Hwf. change (put_ticket ticket s) with (io_put ticket s).
  rewrite !sink_list by (try apply io_wf_put; done).
  rewrite io_list_put by done. change pt_ID with (@io_key ProcessedSink _ _).
  rewrite io_list_keys by done. cbn [keep_first]. case_bool_decide; by rewrite ?app_nil_r.
Qed.

Lemma write_ticket_law : item_law pt_ID sink_ok written write_ticket.
Proof.
  intros ticket c w o c' w' Hok Hr. unfold write_ticket, on_part in Hr.
  go_inv Hr; try (split; [done|]; by left).
  destruct (ProcessedSink_Put _ _ _) as [[o1 c2] s1] eqn:E. simplify_eq.
  unfold sink_ok, written in *. cbn [ws_sink]. destruct (ws_sink w) as [s|].
  - apply ticket_put_spec in E as ->. split; [exact (io_wf_put s ticket Hok)|].
    right. by apply put_ticket_written.
  - unfold ProcessedSink_Put in E. go_inv E. split; [done|by left].
Qed.

Lemma ticket_write_law : chunk_law pt_ID sink_ok written TicketWriter_Write.
Proof.
  intros chunk c w o c' w' Hok Hr. unfold TicketWriter_Write in Hr. go_inv Hr.
  1: by eapply item_loop_law; [apply write_ticket_law|..].
  all: by apply chunk_law_none.
Qed.

(** Writing the pending tickets of a run appends a prefix of them, all when it succeeds. *)
Lemma write_pending n w buf c o c' w' :
  sink_ok w → written w ++ buf = deliveries (take n tickets) →
  TicketWriter_Write buf c w = (o, c', w') →
  sink_ok w' ∧ written w' `prefix_of` deliveries (take n tickets) ∧
  (o = Val tt → written w' = deliveries (take n tickets)).
Proof.
  intros Hok Hb Hr. destruct (ticket_write_law _ _ _ _ _ _ Hok Hr) as (Hok' & j & Hj & Hall & Hc).
  assert (NoDup (map pt_ID (written w) ++ map pt_ID buf)) as Hnd'.
  { rewrite <- map_app, Hb. apply deliveries_nodup. rewrite <- firstn_map.
    eapply sublist_NoDup; [exact Hnd|apply sublist_take]. }
  split; [done|]. rewrite <- Hb, Hc. rewrite keep_first_fresh.
  - split; [apply prefix_app, prefix_take|]. intros Ho. by rewrite (Hall Ho), firstn_all.
  - rewrite <- firstn_map. eapply sublist_NoDup; [|apply sublist_take].
    by apply NoDup_app in Hnd' as (_ & _ & ?).
  - intros x Hx Hin. apply NoDup_app in Hnd' as (_ & Hdisj & _). apply (Hdisj (pt_ID x)); [done|].
    apply list_elem_of_fmap_2. eapply elem_of_sublist; [done|apply sublist_take].
Qed.

(** ** Every run of the engine *)

Abbreviation steps := (eng_steps (B := ticket_ops) retry_transient skip_permanent).

Definition results_sound (w : WriterState) (p : ProcessorState) : Prop :=
  written w `prefix_of` deliveries tickets ∧
  DeadLetterStore_List (ps_dead p) `prefix_of` dead_letters tickets.

Definition worker_inv (e : TicketEng) : Prop :=
  sink_ok (e_writer e) ∧
  match e_phase e with
  | Created => reader_of (e_reader e) ∧ proc_at 0 (e_proc e) ∧ written (e_writer e) = []
  | Opened => reader_at 0 (e_reader e) ∧ proc_at 0 (e_proc e) ∧ written (e_writer e) = []
  | Running => ∃ n, reader_at n (e_reader e) ∧ proc_at n (e_proc e) ∧
      written (e_writer e) ++ e_pending e = deliveries (take n tickets)
  | Stopped => results_sound (e_writer e) (e_proc e)
  end.

Lemma dead_sound n p :
  dead_at n p → DeadLetterStore_List (ps_dead p) `prefix_of` dead_letters tickets.
Proof. intros (_ & d & -> & Hd & _). cbn. rewrite Hd. apply omap_take_prefix. Qed.

Lemma written_sound w l n :
  written w ++ l = deliveries (take n tickets) → written w `prefix_of` deliveries tickets.
Proof.
  intros H. etrans; [|apply (omap_take_prefix _ _ n)].
  fold (deliveries (take n tickets)). rewrite <- H. by eexists.
Qed.

(** Opening and closing the writer leaves the sink alone. *)
Lemma writer_open_sink c w o c' w' :
  TicketWriter_Open c w = (o, c', w') → ws_sink w' = ws_sink w.
Proof. intros Hr. unfold TicketWriter_Open in Hr. by go_inv Hr. Qed.
Lemma writer_close_sink c w o c' w' :
  TicketWriter_Close c w = (o, c', w') → ws_sink w' = ws_sink w.
Proof. intros Hr. unfold TicketWriter_Close in Hr. by go_inv Hr. Qed.
Lemma same_sink w w' :
  ws_sink w' = ws_sink w → (sink_ok w → sink_ok w') ∧ written w' = written w.
Proof. unfold sink_ok, written. by intros ->. Qed.

Lemma stop_running n r w p buf :
  sink_ok w → reader_at n r → proc_at n p → written w ++ buf = deliveries (take n tickets) →
  results_sound w p.
Proof. intros _ _ [Hd _] Hw. split; [by eapply written_sound|by eapply dead_sound]. Qed.

(** A processed item, in terms of the invariant. *)
Lemma ticket_item_post n r c r' c' t p p' v :
  reader_at n r → proc_at n p → TicketReader_Read c r = (Val (Some t), c', r') →
  processed (B := ticket_ops) retry_transient t p p' v →
  reader_at (S n) r' ∧ tickets !! n = Some t ∧ attempt_post n t v p'.
Proof.
  intros Hr Hp Hread Hproc. destruct (ticket_read_at _ _ _ _ _ _ Hr Hread) as [Ht Hr'].
  split; [done|]. split; [done|]. eapply ticket_processed_post; [done|by apply proc_at_mid|done].
Qed.

Lemma attempt_dead n t v p :
  attempt_post n t v p → DeadLetterStore_List (ps_dead p) `prefix_of` dead_letters tickets.
Proof.
  intros [(? & _ & _ & [Hd _])|[(? & _ & _ & _ & _ & [Hd _])|(? & _ & _ & [Hd _])]];
    by eapply dead_sound.
Qed.

Lemma idle_sound w p : proc_at 0 p → written w = [] → results_sound w p.
Proof. intros [Hd _] Hw. split; [rewrite Hw; apply prefix_nil|by eapply dead_sound]. Qed.

(** A dropped ticket is a dead letter and not a delivery. *)
Lemma dropped_post n t v p :
  tickets !! n = Some t → attempt_post n t v p →
  (v = Val None ∨ ∃ e, v = Fail e ∧ skip_permanent e = true) →
  proc_at (S n) p ∧ deliveries (take (S n) tickets) = deliveries (take n tickets).
Proof.
  intros Ht [(o & -> & _)|[(e & -> & Hs & _ & Hb & Hp)|(e & -> & Hs & _)]] Hv.
  - destruct Hv as [?|(? & ? & ?)]; done.
  - split; [done|]. unfold deliveries. rewrite (take_S_omap _ _ _ _ Ht).
    destruct Hb as [r Hb]. unfold buried, delivered in *.
    destruct (verdict t); [done|]. by rewrite app_nil_r.
  - destruct Hv as [?|(? & ? & ?)]; [done|]. simplify_eq. congruence.
Qed.

Lemma delivered_post n t o p buf w :
  tickets !! n = Some t → attempt_post n t (Val (Some o)) p →
  written w ++ buf = deliveries (take n tickets) →
  proc_at (S n) p ∧ written w ++ (buf ++ [o]) = deliveries (take (S n) tickets).
Proof.
  intros Ht [(o' & ? & Hv & Hp)|[(e & ? & _)|(e & ? & _)]] Hw; [|done..]. simplify_eq.
  split; [done|]. unfold deliveries. rewrite (take_S_omap _ _ _ _ Ht).
  unfold delivered at 2. by rewrite Hv, app_assoc, Hw.
Qed.

Lemma inv_sound e : worker_inv e → sink_ok (e_writer e) ∧ results_sound (e_writer e) (e_proc e).
Proof.
  intros [Hok H]. split; [done|]. destruct (e_phase e).
  - destruct H as (_ & Hp & Hw). by apply idle_sound.
  - destruct H as (_ & Hp & Hw). by apply idle_sound.
  - destruct H as (n & Hr & Hp & Hw). by eapply stop_running.
  - done.
Qed.

Lemma ticket_inv_stopped e r w st buf :
  worker_inv e → ws_sink w = ws_sink (e_writer e) →
  worker_inv (mkEng r w (e_proc e) st buf Stopped).
Proof.
  intros [Hok [Hs1 Hs2]]%inv_sound Hw. destruct (same_sink _ _ Hw) as [Hok' Hw'].
  split; [by apply Hok'|]. split; [cbn; by rewrite Hw'|done].
Qed.

Lemma inv_item_stopped r w p st buf c c' r' t p' v r'' st' :
  worker_inv (mkEng r w p st buf Running) →
  TicketReader_Read c r = (Val (Some t), c', r') →
  processed (B := ticket_ops) retry_transient t p p' v →
  worker_inv (mkEng r'' w p' st' buf Stopped).
Proof.
  intros [Hok (n & Hr & Hp & Hw)] Hread Hproc. split; [done|].
  destruct (ticket_item_post _ _ _ _ _ _ _ _ _ Hr Hp Hread Hproc) as (_ & _ & Hpost).
  split; [by eapply written_sound|by eapply attempt_dead].
Qed.

Lemma ticket_inv_write r w p st buf c c' w' o :
  worker_inv (mkEng r w p st buf Running) → TicketWriter_Write buf c w = (o, c', w') →
  (∀ r' st' buf', worker_inv (mkEng r' w' p st' buf' Stopped)) ∧
  (o = Val tt → ∀ st', worker_inv (mkEng r w' p st' [] Running)).
Proof.
  intros [Hok (n & Hr & Hp & Hw)] Hwr. cbn in *.
  destruct (write_pending _ _ _ _ _ _ _ Hok Hw Hwr) as (Hok' & Hpre & Hall). split.
  - intros r' st' buf'. split; [done|]. split; [etrans; [exact Hpre|apply omap_take_prefix]|].
    destruct Hp as [Hd _]. by eapply dead_sound.
  - intros Ho st'. split; [done|]. exists n. cbn. rewrite app_nil_r. auto.
Qed.

Lemma worker_inv_step e e' :
  worker_inv e → eng_step (B := ticket_ops) retry_transient skip_permanent e e' → worker_inv e'.
Proof.
  intros Hinv Hstep.
  destruct Hstep; unfold_ops_in ticket_ops;
    repeat match goal with
      | H : saved_after _ _ _ _ |- _ => inversion H; subst; clear H
      end; unfold_ops_in ticket_ops; unfold ret in *; simplify_eq.
  - destruct Hinv as [Hok (Hr & Hp & Hw)]. cbn in *.
    destruct (same_sink _ _ (writer_open_sink _ _ _ _ _ H0)) as [Hok' Hw'].
    split; [by apply Hok'|]. cbn. split_and!; [by eapply open_at|done|by rewrite Hw'].
  - destruct Hinv as [Hok (Hr & Hp & Hw)]. split; [done|]. exists 0%nat. cbn in *.
    by rewrite Hw.
  - destruct Hinv as [Hok (n & Hr & Hp & Hw)]. split; [done|]. cbn in *.
    destruct (ticket_item_post _ _ _ _ _ _ _ _ _ Hr Hp H H0) as (Hr' & Ht & Hpost).
    exists (S n). split; [done|]. by eapply delivered_post.
  - destruct Hinv as [Hok (n & Hr & Hp & Hw)]. split; [done|]. cbn in *.
    destruct (ticket_item_post _ _ _ _ _ _ _ _ _ Hr Hp H H0) as (Hr' & Ht & Hpost).
    destruct (dropped_post _ _ _ _ Ht Hpost H1) as [Hp' Hd].
    exists (S n). cbn. by rewrite Hd.
  - by eapply inv_item_stopped.
  - by eapply inv_item_stopped.
  - destruct Hinv as [Hok (n & Hr & Hp & Hw)]. split; [done|]. exists n. cbn in *.
    by destruct (ticket_read_at _ _ _ _ _ _ Hr H) as [_ ->].
  - destruct (ticket_inv_write _ _ _ _ _ _ _ _ _ Hinv H) as [_ HV]. by apply HV.
  - by eapply ticket_inv_write.
  - apply (ticket_inv_stopped _ r' w' st [] Hinv). by eapply writer_open_sink.
  - exact (ticket_inv_stopped _ r' w st [] Hinv eq_refl).
  - exact (ticket_inv_stopped _ r w st' buf Hinv eq_refl).
  - exact (ticket_inv_stopped _ r' w st buf Hinv eq_refl).
  - by eapply ticket_inv_write.
  - by eapply inv_item_stopped.
  - by eapply ticket_inv_write.
  - exact (ticket_inv_stopped _ r w st buf Hinv eq_refl).
  - apply (ticket_inv_stopped _ r' w' st [] Hinv). by eapply writer_close_sink.
  - done.
Qed.

Lemma worker_inv_steps e e' : worker_inv e → steps e e' → worker_inv e'.
Proof. intros H Hs. revert H. induction Hs; eauto using worker_inv_step. Qed.

Lemma worker_inv_start w st buf :
  sink_ok w → written w = [] →
  worker_inv (mkEng (Some (NewTicketReader tickets)) w (NewTicketProcessor None) st buf Created).
Proof.
  intros Hok Hw. split; [done|]. cbn. split_and!; [done| |done].
  split; [|by intros id [? ?]]. split; [done|]. exists NewDeadLetterStore.
  split_and!; [done|done|]. by intros id ?%elem_of_empty.
Qed.

(** Nothing left to read or to write: every ticket has its verdict. *)
Lemma drained_results e :
  worker_inv e → e_phase e = Running → e_pending e = [] →
  fst (fst (TicketReader_Read Background (e_reader e))) = Val None →
  written (e_writer e) = deliveries tickets ∧
  DeadLetterStore_List (ps_dead (e_proc e)) = dead_letters tickets.
Proof.
  intros [Hok Hinv] Hph Hpend Hend. rewrite Hph in Hinv.
  destruct Hinv as (n & Hr & Hp & Hw). rewrite Hpend, app_nil_r in Hw.
  destruct (TicketReader_Read _ _) as [[o c] r'] eqn:E. cbn in Hend. subst o.
  destruct (ticket_read_at _ _ _ _ _ _ Hr E) as [-> _]. rewrite firstn_all in Hw.
  split; [done|]. destruct Hp as [(_ & d & -> & Hd & _) _]. cbn. by rewrite Hd, firstn_all.
Qed.
End Worker.

(** ** Properties *)

Section TicketTheorems.
Context `{GoUnicode}.
Context (RetryErrors SkipErrors : Z → option GoError).
Context (NewStep : string → Z → option GoError) (NewJob : string → option GoError).
Context (jobRun : Z → Z → Z → Ctx → TicketEng → Report * Ctx * TicketEng).
Context (StatusCompleted : string).

(** C4: every ticket is delivered or buried, once. Take any engine that follows the documented
    order under the step's policies (retry on transient, skip on permanent errors), any limits,
    chunk size and cancellation, and tickets with distinct IDs. However the run ends, the processed
    tickets are, in order, a prefix of the deliveries the specification [verdict] prescribes, and
    the dead letters a prefix of the prescribed dead letters, with the prescribed numbers of
    attempts; a run reported as completed has exactly all of both. *)
Theorem run_delivers_or_buries ctx options result sys :
  let tickets := effective_tickets options in
  in_int64 (len tickets) → NoDup (map tk_ID tickets) →
  o_Sink options = None → o_DeadLetters options = None →
  (∀ rep c' e',
     jobRun (or_default (o_ChunkSize options) DefaultChunkSize)
       (or_default (o_MaxAttempts options) 3) (or_default (o_MaxSkips options) 2)
       (normalizeContext ctx) (initial_engine options) = (rep, c', e') →
     obeys_policies ticket_ops retry_transient skip_permanent StatusCompleted
       (initial_engine options) rep e') →
  Run RetryErrors SkipErrors NewStep NewJob jobRun ctx options = (Val result, sys) →
  res_Processed result `prefix_of` deliveries tickets ∧
  res_DeadLetters result `prefix_of` dead_letters tickets ∧
  (res_Status result = StatusCompleted →
   res_Processed result = deliveries tickets ∧ res_DeadLetters result = dead_letters tickets).
Proof.
  cbn zeta. intros Hint Hnd Hsink Hdead Hjob Hrun. unfold Run in Hrun.
  destruct (RetryErrors _); [done|]. destruct (SkipErrors _); [done|].
  destruct (NewStep _ _); [done|]. destruct (NewJob _); [done|].
  destruct (jobRun _ _ _ _ _) as [[rep c1] e1]. simplify_eq.
  destruct (Hjob _ _ _ eq_refl) as [Hsteps Hdone]. cbn [res_Processed res_DeadLetters res_Status].
  unfold initial_engine in *. rewrite Hsink, Hdead in *. cbn [default] in *.
  assert (∀ e, eng_steps (B := ticket_ops) retry_transient skip_permanent
     (mkEng (Some (NewTicketReader (effective_tickets options)))
        (NewTicketWriter (Some NewProcessedSink)) (NewTicketProcessor None) tt [] Created) e →
     worker_inv (effective_tickets options) e) as Hinv.
  { intros e He. eapply worker_inv_steps; [done|done| |exact He].
    by apply worker_inv_start; [apply new_sink_wf|]. }
  destruct (inv_sound _ _ (Hinv _ Hsteps)) as [_ [Hs1 Hs2]].
  split; [exact Hs1|]. split; [exact Hs2|]. intros Hstatus.
  destruct (Hdone Hstatus) as (e2 & He2 & Hph & Hpend & Hend & Hproc & Hw).
  destruct (drained_results _ Hint Hnd e2 (Hinv _ He2) Hph Hpend Hend) as [Hd1 Hd2].
  rewrite Hproc. split; [|done]. rewrite <- Hd1. unfold written.
  destruct Hw as [->|(c & o & c' & Hclose)]; [done|].
  by rewrite (writer_close_sink _ _ _ _ _ Hclose).
Qed.
End TicketTheorems.

(** the sink and the dead-letter store keep the first record of an ID. [Put] on an ID that is
    stored fails with [ErrDuplicateTicket] and changes nothing, on any other ID it appends; a
    second dead letter of a ticket is ignored. *)
Theorem first_record_wins ticket record c s d :
  io_wf s →
  (ProcessedSink_Put ticket c (Some s) =
     if bool_decide (pt_ID ticket ∈ map pt_ID (ProcessedSink_List (Some s)))
     then (Fail (Errorf "%w: %s" [ErrDuplicateTicket] [FStr (pt_ID ticket)]), c, Some s)
     else (Val tt, c, Some (put_ticket ticket s))) ∧
  (pt_ID ticket ∉ map pt_ID (ProcessedSink_List (Some s)) →
   ProcessedSink_List (Some (put_ticket ticket s)) = ProcessedSink_List (Some s) ++ [ticket]) ∧
  (dl_TicketID record ∈ d_seen d → DeadLetterStore_Record record (Some d) = Some d) ∧
  (dl_TicketID record ∉ d_seen d →
   DeadLetterStore_List (DeadLetterStore_Record record (Some d)) = d_records d ++ [record]).
Proof.
  intros Hwf. split_and!.
  - rewrite sink_list by done. change (map pt_ID) with (map (@io_key ProcessedSink _ _)).
    rewrite io_list_keys by done. change (io_order s) with (k_order s).
    unfold ProcessedSink_Put, put_ticket, bind, deref_or, throw, store, put.
    destruct (k_tickets s !! pt_ID ticket) eqn:E.
    + rewrite bool_decide_true; [done|]. apply (io_wf_dom s Hwf). by eexists.
    + rewrite bool_decide_false; [done|]. intros Hin%(io_wf_dom s Hwf).
      cbn in Hin. rewrite E in Hin. by destruct Hin.
  - intros Hn. rewrite put_ticket_written by done. cbn [keep_first].
    by rewrite bool_decide_false.
  - intros Hin. cbn. by rewrite bool_decide_true.
  - intros Hin. cbn. by rewrite bool_decide_false.
Qed.

(** ** Concrete runs *)

Definition demo_job (size attempts skips : Z) :=
  policy_job ticket_ops retry_transient skip_permanent (Z.to_nat (attempts - 1)) (Z.to_nat size) 20.
Definition demo_options : Options := mkOptions [] 0 0 0 None None.
Definition demo_run :=
  Run (H := plain_unicode) (λ _, None) (λ _, None) (λ _ _, None) (λ _, None) demo_job None
    demo_options.

Definition zero_result : Result :=
  mkResult "" "" 0 "" 0 0 0 0 [] [] (mkReportNode "" "" "" 0 0 0 0 0 false []).
Definition demo_result : Result :=
  Eval vm_compute in match fst demo_run with Val result => result | _ => zero_result end.
Definition demo_sys : TicketEng := Eval vm_compute in snd demo_run.
Lemma demo_run_result :
  Run (H := plain_unicode) (λ _, None) (λ _, None) (λ _ _, None) (λ _, None) demo_job None
    demo_options = (Val demo_result, demo_sys).
Proof. vm_compute. reflexivity. Qed.

Definition demo_end : Report * Ctx * TicketEng :=
  Eval vm_compute in demo_job 2 3 2 Background (initial_engine demo_options).
Lemma demo_job_end :
  demo_job (or_default (o_ChunkSize demo_options) DefaultChunkSize)
    (or_default (o_MaxAttempts demo_options) 3) (or_default (o_MaxSkips demo_options) 2)
    (normalizeContext None) (initial_engine demo_options) = demo_end.
Proof. vm_compute. reflexivity. Qed.

Lemma ticket_demo_job_steps size attempts skips c e rep c' e' :
  e_phase e = Created → demo_job size attempts skips c e = (rep, c', e') →
  eng_steps (B := ticket_ops) retry_transient skip_permanent e e'.
Proof. intros Hph Hr. by eapply policy_job_steps. Qed.

Lemma demo_steps :
  eng_steps (B := ticket_ops) retry_transient skip_permanent
    (initial_engine demo_options) (snd demo_end).
Proof.
  generalize demo_job_end. generalize demo_end. intros [[rep c] e] Hend.
  eapply ticket_demo_job_steps; [|exact Hend]. reflexivity.
Qed.

Lemma demo_drained : fst (fst (TicketReader_Read Background (e_reader (snd demo_end)))) = Val None.
Proof. vm_compute. reflexivity. Qed.

Lemma demo_obeys :
  obeys_policies ticket_ops retry_transient skip_permanent "completed"
    (initial_engine demo_options) (fst (fst demo_end)) (snd demo_end).
Proof.
  split; [exact demo_steps|]. intros _. exists (snd demo_end). split; [exact demo_steps|].
  split; [reflexivity|]. split; [reflexivity|]. split; [exact demo_drained|].
  split; [reflexivity|left; reflexivity].
Qed.

(** The demo: tickets 1001, 1002 (second attempt) and 1004 are delivered, 1003 is buried. *)
Lemma run_delivers_or_buries_witness :
  res_Processed demo_result = deliveries DefaultTickets ∧
  res_DeadLetters demo_result = dead_letters DefaultTickets.
Proof.
  apply (run_delivers_or_buries (H := plain_unicode) (λ _, None) (λ _, None) (λ _ _, None)
           (λ _, None) demo_job "completed" None demo_options demo_result demo_sys).
  - vm_compute; split; [intros ?; discriminate|reflexivity].
  - refine (bool_decide_eq_true_1 _ _). vm_compute; reflexivity.
  - reflexivity.
  - reflexivity.
  - intros rep c' e' Hr. rewrite demo_job_end in Hr.
    replace rep with (fst (fst demo_end)) by (by rewrite Hr).
    replace e' with (snd demo_end) by (by rewrite Hr). exact demo_obeys.
  - exact demo_run_result.
  - reflexivity.
Defined.

Lemma first_record_wins_witness :
  ProcessedSink_Put (mkProcessed "t" "sms" "+1" 1) Background (Some NewProcessedSink) =
    (Val tt, Background, Some (put_ticket (mkProcessed "t" "sms" "+1" 1) NewProcessedSink)).
Proof.
  destruct (first_record_wins (mkProcessed "t" "sms" "+1" 1) (mkDeadLetter "t" "r" 1) Background
              NewProcessedSink NewDeadLetterStore new_sink_wf) as [H _].
  rewrite H. vm_compute. reflexivity.
Defined.
