(* ===== verification/CustomerEngine.v ===== *)
(** examples/customer-migration-batch-integration/internal/customermigration/engine.go: stores,
    reader, processor, writer, error classification and [RunBatch]. *)
From S2P Require Import Prelude BatchProtocol.

Definition BatchName : string := "customer-migration-batch".
Definition StepName : string := "customer-migration-step".
Definition CheckpointKey : string := "customer-migration".
Definition DefaultChunkSize : Z := 2.
Definition TriggerManual : string := "manual".
Definition TriggerSchedule : string := "schedule".

Definition ErrorCodeRequestCancelled : string := "request_cancelled".
Definition ErrorCodeWriterCrash : string := "writer_crash".
Definition ErrorCodeTransientCustomer : string := "transient_customer_exhausted".
Definition ErrorCodePermanentCustomer : string := "permanent_customer".
Definition ErrorCodeInvalidCheckpoint : string := "invalid_checkpoint".
Definition ErrorCodeInvalidCrashAfter : string := "invalid_crash_after_new_writes".
Definition ErrorCodeRunInProgress : string := "run_in_progress".
Definition ErrorCodeNotLeader : string := "not_leader".
Definition ErrorCodeInvalidRunID : string := "invalid_run_id".
Definition ErrorCodeInvalidRequest : string := "invalid_request".
Definition ErrorCodeRequestTooLarge : string := "request_too_large".
Definition ErrorCodeReportNotFound : string := "report_not_found".
Definition ErrorCodeNoActiveRun : string := "no_active_run".

Definition ErrInvalidCustomer : GoError := Sentinel "customermigration.ErrInvalidCustomer" "invalid customer".
Definition ErrTransientCustomer : GoError := Sentinel "customermigration.ErrTransientCustomer" "transient customer".
Definition ErrPermanentCustomer : GoError := Sentinel "customermigration.ErrPermanentCustomer" "permanent customer".
Definition ErrWriterCrash : GoError := Sentinel "customermigration.ErrWriterCrash" "writer crash".
Definition ErrDuplicateCustomer : GoError := Sentinel "customermigration.ErrDuplicateCustomer" "duplicate customer".
Definition ErrInvalidCheckpoint : GoError := Sentinel "customermigration.ErrInvalidCheckpoint" "invalid checkpoint".
Definition ErrRunInProgress : GoError := Sentinel "customermigration.ErrRunInProgress" "run in progress".
Definition ErrNotLeader : GoError := Sentinel "customermigration.ErrNotLeader" "not leader".
Definition ErrInvalidRunID : GoError := Sentinel "customermigration.ErrInvalidRunID" "invalid run id".
Definition ErrInvalidCrashAfter : GoError :=
  Sentinel "customermigration.ErrInvalidCrashAfter" "invalid crash_after_new_writes".

(** [FailureScenario] is a string type. *)
Definition ScenarioSuccess : string := "success".
Definition ScenarioTransientOnce : string := "transient_once".
Definition ScenarioPermanent : string := "permanent".

Record CustomerRecord := mkRecord {
  cr_Index : Z; cr_ID : string; cr_Email : string; cr_Segment : string; cr_Scenario : string;
  cr_Reason : string
}.
Record MigratedCustomer := mkMigrated {
  mc_ID : string; mc_Email : string; mc_Segment : string; mc_Attempts : Z
}.
Record Checkpoint := mkCheckpoint { cp_NextIndex : Z }.
Record DeadLetter := mkDeadLetter { dl_CustomerID : string; dl_Reason : string; dl_Attempts : Z }.
Abbreviation AnyCheckpoint := (AnyOf Checkpoint).

#[export] Instance MigratedCustomer_eq_dec : EqDecision MigratedCustomer.
Proof. solve_decision. Defined.
#[export] Instance DeadLetter_eq_dec : EqDecision DeadLetter.
Proof. solve_decision. Defined.

Definition defaultRecords : list CustomerRecord := [
  mkRecord 0 "cust-1001" "cust-1001@example.test" "Retail" ScenarioSuccess "";
  mkRecord 1 "cust-1002" "cust-1002@example.test" "Enterprise" ScenarioSuccess "";
  mkRecord 2 "cust-1003" "cust-1003@example.test" "Retail" ScenarioTransientOnce "";
  mkRecord 3 "cust-1004" "cust-1004@example.test" "Blocked" ScenarioPermanent "blocked customer";
  mkRecord 4 "cust-1005" "cust-1005@example.test" "Retail" ScenarioSuccess ""
].

(** ** Stores *)

Record RecordingCheckpointStore := mkRecording { rs_values : gmap string Checkpoint }.
Definition NewRecordingCheckpointStore : RecordingCheckpointStore := mkRecording ∅.

Definition err_nil_store : GoError := plain_error "checkpoint store must not be nil".

Definition RecordingCheckpointStore_Load (key : string)
    : GoM (Ptr RecordingCheckpointStore) (option AnyCheckpoint) :=
  do! ctxErr;
  let! s := deref_or (λ _, true) err_nil_store in
  ret (AnyValue <$> rs_values s !! key).

(** The type of a value other than a [Checkpoint]. *)
Definition type_name (value : AnyCheckpoint) : string :=
  match value with
  | AnyValue _ => "customermigration.Checkpoint"
  | AnyPointer _ => "*customermigration.Checkpoint"
  | AnyOther t => t
  end.

(** The assertion [checkpoint.(Checkpoint)]. *)
Definition asCheckpoint (value : AnyCheckpoint) : GoError + Checkpoint :=
  match value with
  | AnyValue c => inr c
  | _ => inl (Errorf "%w: %T" [ErrInvalidCheckpoint] [FType (type_name value)])
  end.

Definition RecordingCheckpointStore_Save (key : string) (checkpoint : AnyCheckpoint)
    : GoM (Ptr RecordingCheckpointStore) unit :=
  do! ctxErr;
  let! s := deref_or (λ _, true) err_nil_store in
  match asCheckpoint checkpoint with
  | inl e => throw e
  | inr value => store (mkRecording (<[key := value]> (rs_values s)))
  end.

(** [(checkpoint, ok)] as an option. *)
Definition RecordingCheckpointStore_Snapshot (key : string) (s : Ptr RecordingCheckpointStore)
    : option Checkpoint := s ≫= λ s, rs_values s !! key.

Record CustomerSink := mkSink {
  k_byID : gmap string MigratedCustomer; k_order : list string; k_newCount : Z
}.
Definition NewCustomerSink : CustomerSink := mkSink ∅ [] 0.

(** Whether the customer is new. *)
Definition CustomerSink_Put (customer : MigratedCustomer) : GoM (Ptr CustomerSink) bool :=
  let! s := deref in
  match k_byID s !! mc_ID customer with
  | Some _ => ret false
  | None =>
      do! store (mkSink (<[mc_ID customer := customer]> (k_byID s)) (k_order s ++ [mc_ID customer])
                   (int_incr (k_newCount s)));
      ret true
  end.

Definition CustomerSink_IDs (s : Ptr CustomerSink) : list string :=
  match s with None => [] | Some s => k_order s end.
Definition CustomerSink_NewCount (s : Ptr CustomerSink) : Z :=
  match s with None => 0 | Some s => k_newCount s end.

Record DeadLetterStore := mkDeadLetters { d_byID : gmap string DeadLetter; d_order : list string }.
Definition NewDeadLetterStore : DeadLetterStore := mkDeadLetters ∅ [].

Definition DeadLetterStore_Record (letter : DeadLetter) : GoM (Ptr DeadLetterStore) unit :=
  let! s := deref in
  match d_byID s !! dl_CustomerID letter with
  | Some _ => ret tt
  | None => store (mkDeadLetters (<[dl_CustomerID letter := letter]> (d_byID s))
                     (d_order s ++ [dl_CustomerID letter]))
  end.

Definition zero_letter : DeadLetter := mkDeadLetter "" "" 0.

Definition DeadLetterStore_Snapshot (s : Ptr DeadLetterStore) : list DeadLetter :=
  match s with
  | None => []
  | Some s => map (λ id, default zero_letter (d_byID s !! id)) (d_order s)
  end.

Record Stores := mkStores {
  s_Checkpoints : Ptr RecordingCheckpointStore; s_Sink : Ptr CustomerSink;
  s_DeadLetters : Ptr DeadLetterStore
}.
Definition NewStores : Stores :=
  mkStores (Some NewRecordingCheckpointStore) (Some NewCustomerSink) (Some NewDeadLetterStore).

Definition normalize (s : Ptr Stores) : Stores :=
  match s with
  | None => NewStores
  | Some s => mkStores (Some (default NewRecordingCheckpointStore (s_Checkpoints s)))
                (Some (default NewCustomerSink (s_Sink s)))
                (Some (default NewDeadLetterStore (s_DeadLetters s)))
  end.

(** ** Reader *)

Record customerReader := mkReader {
  r_records : list CustomerRecord; r_index : Z; r_readIDs : list string
}.

Definition reader_Open : GoM customerReader unit := ctxErr.
Definition reader_Close : GoM customerReader unit := ctxErr.

Definition reader_Read : GoM customerReader (option CustomerRecord) :=
  do! ctxErr;
  let! r := get in
  if r_index r >=? len (r_records r) then ret None
  else match index_Z (r_records r) (r_index r) with
       | None => panic
       | Some record =>
           do! put (mkReader (r_records r) (int_incr (r_index r)) (r_readIDs r ++ [cr_ID record]));
           ret (Some record)
       end.

Definition reader_Restore (checkpoint : AnyCheckpoint) : GoM customerReader unit :=
  do! ctxErr;
  let! r := get in
  match asCheckpoint checkpoint with
  | inl e => throw e
  | inr value =>
      if (cp_NextIndex value <? 0) || (cp_NextIndex value >? len (r_records r))
      then throw (Errorf "%w: next_index=%d" [ErrInvalidCheckpoint] [FInt (cp_NextIndex value)])
      else put (mkReader (r_records r) (cp_NextIndex value) (r_readIDs r))
  end.

Definition reader_Checkpoint : GoM customerReader AnyCheckpoint :=
  do! ctxErr; let! r := get in ret (AnyValue (mkCheckpoint (r_index r))).

(** ** Processor *)

(** The processor with the dead-letter store it points to. *)
Record customerProcessor := mkProcessor {
  p_deadLetters : Ptr DeadLetterStore; p_attempts : gmap string Z
}.

Definition record_letter (letter : DeadLetter) : GoM customerProcessor unit :=
  on_part p_deadLetters (λ d p, mkProcessor d (p_attempts p)) (DeadLetterStore_Record letter).

Section Processor.
Context `{GoUnicode}.

Definition migrated_of (record : CustomerRecord) (attempt : Z) : MigratedCustomer :=
  mkMigrated (cr_ID record) (ToLower (cr_Email record)) (ToLower (cr_Segment record)) attempt.

(** [Process] after the attempt was counted. *)
Definition process_attempt (record : CustomerRecord) (attempt : Z)
    : GoM customerProcessor (option MigratedCustomer) :=
  if bool_decide (cr_Scenario record = ScenarioTransientOnce) && (attempt =? 1)
  then throw (Errorf "%w: enrichment unavailable" [ErrTransientCustomer] [])
  else if bool_decide (cr_Scenario record = ScenarioPermanent)
  then
    do! record_letter (mkDeadLetter (cr_ID record) (cr_Reason record) attempt);
    throw (Errorf "%w: %s" [ErrPermanentCustomer] [FStr (cr_Reason record)])
  else ret (Some (migrated_of record attempt)).

Definition missing_fields (record : CustomerRecord) : bool :=
  bool_decide (TrimSpace (cr_ID record) = "") || bool_decide (TrimSpace (cr_Email record) = "").

Definition processor_Process (record : CustomerRecord)
    : GoM customerProcessor (option MigratedCustomer) :=
  do! ctxErr;
  if missing_fields record
  then throw (Errorf "%w: missing required customer fields" [ErrInvalidCustomer] [])
  else
    let! p := get in
    let attempt := int_incr (default 0 (p_attempts p !! cr_ID record)) in
    do! put (mkProcessor (p_deadLetters p) (<[cr_ID record := attempt]> (p_attempts p)));
    process_attempt record attempt.
End Processor.

(** ** Writer *)

(** The writer with the sink it points to. The [beforeWrite] hook may cancel the context. *)
Record customerWriter := mkWriter {
  w_sink : Ptr CustomerSink; w_crashAfterNewWrites : Z; w_beforeWrite : option (Ctx → Ctx);
  w_acceptedIDs : list string; w_newWrittenIDs : list string; w_duplicateSkipCount : Z
}.

Definition writer_Open : GoM customerWriter unit := ctxErr.
Definition writer_Close : GoM customerWriter unit := ctxErr.

Definition writer_put (customer : MigratedCustomer) : GoM customerWriter bool :=
  on_part w_sink
    (λ k w, mkWriter k (w_crashAfterNewWrites w) (w_beforeWrite w) (w_acceptedIDs w)
              (w_newWrittenIDs w) (w_duplicateSkipCount w)) (CustomerSink_Put customer).

(** One iteration of the loop of [Write]. *)
Definition write_customer (customer : MigratedCustomer) : GoM customerWriter unit :=
  do! ctxErr;
  let! isNew := writer_put customer in
  do! modify (λ w, mkWriter (w_sink w) (w_crashAfterNewWrites w) (w_beforeWrite w)
                     (w_acceptedIDs w ++ [mc_ID customer])
                     (if isNew then w_newWrittenIDs w ++ [mc_ID customer] else w_newWrittenIDs w)
                     (if isNew then w_duplicateSkipCount w
                      else int_incr (w_duplicateSkipCount w)));
  let! w := get in
  if isNew && (w_crashAfterNewWrites w >? 0)
     && (CustomerSink_NewCount (w_sink w) >=? w_crashAfterNewWrites w)
  then throw (Errorf "%w: after %d new writes" [ErrWriterCrash] [FInt (w_crashAfterNewWrites w)])
  else ret tt.

Definition call_before_write : GoM customerWriter unit :=
  λ c w, (Val tt, match w_beforeWrite w with Some f => f c | None => c end, w).

Definition writer_Write (customers : list MigratedCustomer) : GoM customerWriter unit :=
  do! call_before_write; forM_ customers write_customer.

(** ** Errors *)

Definition is_err (err : GoError) (target : string) : bool := errors_Is err target.
Definition is_cancelled (err : GoError) : bool :=
  errors_Is err "context.Canceled" || errors_Is err "context.DeadlineExceeded".

Definition errorCodeFor (err : option GoError) : string :=
  match err with
  | None => ""
  | Some e =>
      if is_cancelled e then ErrorCodeRequestCancelled
      else if is_err e "customermigration.ErrWriterCrash" then ErrorCodeWriterCrash
      else if is_err e "customermigration.ErrTransientCustomer" then ErrorCodeTransientCustomer
      else if is_err e "customermigration.ErrPermanentCustomer" then ErrorCodePermanentCustomer
      else if is_err e "customermigration.ErrInvalidCheckpoint" then ErrorCodeInvalidCheckpoint
      else if is_err e "customermigration.ErrRunInProgress" then ErrorCodeRunInProgress
      else if is_err e "customermigration.ErrNotLeader" then ErrorCodeNotLeader
      else if is_err e "customermigration.ErrInvalidRunID" then ErrorCodeInvalidRunID
      else if is_err e "customermigration.ErrInvalidCrashAfter" then ErrorCodeInvalidCrashAfter
      else ErrorCodeInvalidRequest
  end.

Definition publicMessage (code : string) : string :=
  if bool_decide (code = ErrorCodeRequestCancelled) then "request was cancelled"
  else if bool_decide (code = ErrorCodeWriterCrash) then "simulated writer crash"
  else if bool_decide (code = ErrorCodeTransientCustomer)
  then "transient customer retries exhausted"
  else if bool_decide (code = ErrorCodePermanentCustomer)
  then "permanent customer skip limit exceeded"
  else if bool_decide (code = ErrorCodeInvalidCheckpoint) then "invalid checkpoint"
  else if bool_decide (code = ErrorCodeRunInProgress) then "batch run already active"
  else if bool_decide (code = ErrorCodeNotLeader) then "leadership is not held"
  else if bool_decide (code = ErrorCodeInvalidRunID) then "invalid run id"
  else if bool_decide (code = ErrorCodeInvalidCrashAfter) then "invalid crash_after_new_writes"
  else if bool_decide (code = ErrorCodeRequestTooLarge) then "request body too large"
  else if bool_decide (code = ErrorCodeReportNotFound) then "report not found"
  else if bool_decide (code = ErrorCodeNoActiveRun) then "no active run"
  else "invalid request".

Definition failedPhaseFor (err : option GoError) : string :=
  match err with
  | None => ""
  | Some e =>
      if is_err e "customermigration.ErrWriterCrash" then "writer"
      else if is_err e "customermigration.ErrTransientCustomer" || is_err e "customermigration.ErrPermanentCustomer" then "processor"
      else if is_cancelled e then "context"
      else "batch"
  end.

(** ** Runs *)

Inductive ReportNode := mkReportNode {
  n_Name : string; n_Status : string; n_ReadCount : Z; n_WriteCount : Z; n_FilterCount : Z;
  n_SkipCount : Z; n_RetryCount : Z; n_ErrorCode : string; n_Children : list ReportNode
}.
Definition zero_node : ReportNode := mkReportNode "" "" 0 0 0 0 0 "" [].

Record Summary := mkSummary {
  sm_ReadCount : Z; sm_WriteCount : Z; sm_FilterCount : Z; sm_RetryCount : Z; sm_SkipCount : Z;
  sm_DuplicateSkipCount : Z; sm_ChunkSize : Z; sm_Failure : bool
}.

Record RunResponse := mkResponse {
  rr_RunID : string; rr_Trigger : string; rr_Status : string; rr_Checkpoint : Checkpoint;
  rr_ReadIDs : list string; rr_AcceptedIDs : list string; rr_NewWrittenIDs : list string;
  rr_MigratedIDs : list string; rr_DeadLetters : list DeadLetter; rr_Summary : Summary;
  rr_Report : ReportNode; rr_ErrorCode : string; rr_ErrorMessage : string;
  rr_FailedPhase : string; rr_Diagnostics : list string
}.
Definition zero_checkpoint : Checkpoint := mkCheckpoint 0.
Definition zero_response : RunResponse :=
  mkResponse "" "" "" zero_checkpoint [] [] [] [] [] (mkSummary 0 0 0 0 0 0 0 false) zero_node
    "" "" "" [].

Record RunOptions := mkRunOptions {
  o_RunID : string; o_Trigger : string; o_Stores : Ptr Stores; o_CrashAfterNewWrites : Z;
  o_BeforeWrite : option (Ctx → Ctx)
}.

Definition validateCrashAfter (value : Z) : option GoError :=
  if (value <? 0) || (value >? len defaultRecords)
  then Some (Errorf "%w: %d" [ErrInvalidCrashAfter] [FInt value]) else None.

Fixpoint projectReport (report : Report) : ReportNode :=
  mkReportNode (rp_Name report) (rp_Status report) (rp_ReadCount report) (rp_WriteCount report)
    (rp_FilterCount report) (rp_SkipCount report) (rp_RetryCount report)
    (errorCodeFor (rp_Err report)) (map projectReport (rp_Children report)).

(** The interface of the migration step to the engine. Its objects serve one run. *)
Definition customer_ops `{GoUnicode}
    : BatchOps customerReader customerWriter customerProcessor (Ptr RecordingCheckpointStore)
        CustomerRecord MigratedCustomer AnyCheckpoint := {|
  rd_open := reader_Open;
  rd_read := reader_Read;
  rd_restore := reader_Restore;
  rd_checkpoint := reader_Checkpoint;
  rd_close := reader_Close;
  wr_open := writer_Open;
  wr_write := writer_Write;
  wr_close := writer_Close;
  pr_process := processor_Process;
  st_load := RecordingCheckpointStore_Load CheckpointKey;
  st_save := RecordingCheckpointStore_Save CheckpointKey;
  rd_new _ := False;
  wr_renew _ _ := False;
  pr_renew _ _ := False
|}.

Abbreviation CustomerEng :=
  (Eng customerReader customerWriter customerProcessor (Ptr RecordingCheckpointStore)
     MigratedCustomer).

(** The predicates given to [batch.RetryErrors(3, _)] and [batch.SkipErrors(2, _)]. *)
Definition retry_transient (e : GoError) : bool := errors_Is e "customermigration.ErrTransientCustomer".
Definition skip_permanent (e : GoError) : bool := errors_Is e "customermigration.ErrPermanentCustomer".

(** The objects [RunBatch] hands to the engine, and the stores behind them afterwards. *)
Definition initial_engine (options : RunOptions) (stores : Stores) : CustomerEng :=
  mkEng (mkReader defaultRecords 0 [])
    (mkWriter (s_Sink stores) (o_CrashAfterNewWrites options) (o_BeforeWrite options) [] [] 0)
    (mkProcessor (s_DeadLetters stores) ∅) (s_Checkpoints stores) [] Created.
Definition stores_of (e : CustomerEng) : Stores :=
  mkStores (e_store e) (w_sink (e_writer e)) (p_deadLetters (e_proc e)).

Section Runs.
(** [batch.StatusFailed] and [batch.StatusCompleted]. *)
Context (StatusFailed StatusCompleted : string).

Definition baseResponse (options : RunOptions) (stores : Stores) (status : string)
    (report : option Report) : RunResponse :=
  mkResponse (o_RunID options) (o_Trigger options) status
    (default zero_checkpoint
       (RecordingCheckpointStore_Snapshot CheckpointKey (s_Checkpoints stores)))
    [] [] [] (CustomerSink_IDs (s_Sink stores)) (DeadLetterStore_Snapshot (s_DeadLetters stores))
    (mkSummary 0 0 0 0 0 0 DefaultChunkSize (negb (bool_decide (status = StatusCompleted))))
    (match report with Some r => projectReport r | None => zero_node end) "" "" "" [].

(** [baseResponse] has read the checkpoint already; the second read in the crash branch is the
    same read of the same store. *)
Definition buildRunResponse (options : RunOptions) (stores : Stores) (readIDs : list string)
    (writer : customerWriter) (report : Report) : RunResponse :=
  let r := baseResponse options stores (rp_Status report) (Some report) in
  let code := errorCodeFor (rp_Err report) in
  let failed := match rp_Err report with Some _ => true | None => false end in
  mkResponse (rr_RunID r) (rr_Trigger r) (rr_Status r) (rr_Checkpoint r) readIDs
    (w_acceptedIDs writer) (w_newWrittenIDs writer) (rr_MigratedIDs r) (rr_DeadLetters r)
    (mkSummary (rp_ReadCount report) (rp_WriteCount report) (rp_FilterCount report)
       (rp_RetryCount report) (rp_SkipCount report) (w_duplicateSkipCount writer)
       DefaultChunkSize (rp_IsFailure report))
    (rr_Report r) (if failed then code else "") (if failed then publicMessage code else "")
    (if failed then failedPhaseFor (rp_Err report) else "") [].

(** The errors of [batch.RetryErrors], [SkipErrors], [NewStep] and [NewJob]. *)
Context (RetryErrors SkipErrors NewStep NewJob : option GoError).
(** [job.Run(ctx)] of the job just built. *)
Context (jobRun : Ctx → CustomerEng → Report * Ctx * CustomerEng).

Definition writer_crashed (report : Report) : bool :=
  match rp_Err report with Some e => errors_Is e "customermigration.ErrWriterCrash" | None => false end.

(** The checkpoint a writer crash leaves behind; the error of the save is discarded. *)
Definition rollback (before : option Checkpoint) : GoM (Ptr RecordingCheckpointStore) unit :=
  λ c s,
    let checkpoint := match before with
                      | Some cp => cp
                      | None => mkCheckpoint DefaultChunkSize
                      end in
    let '(_, _, s') :=
      RecordingCheckpointStore_Save CheckpointKey (AnyValue checkpoint) Background s in
    (Val tt, c, s').

Definition with_trigger (options : RunOptions) : RunOptions :=
  if bool_decide (o_Trigger options = "")
  then mkRunOptions (o_RunID options) TriggerManual (o_Stores options)
         (o_CrashAfterNewWrites options) (o_BeforeWrite options)
  else options.

(** Response, error, the context and the stores afterwards. *)
Definition RunBatch (ctx : option Ctx) (options : RunOptions)
    : RunResponse * option GoError * Ctx * Stores :=
  let ctx := normalizeContext ctx in
  let stores := normalize (o_Stores options) in
  let options := with_trigger options in
  match validateCrashAfter (o_CrashAfterNewWrites options) with
  | Some e =>
      let r := baseResponse options stores StatusFailed None in
      (mkResponse (rr_RunID r) (rr_Trigger r) (rr_Status r) (rr_Checkpoint r) (rr_ReadIDs r)
         (rr_AcceptedIDs r) (rr_NewWrittenIDs r) (rr_MigratedIDs r) (rr_DeadLetters r)
         (rr_Summary r) (rr_Report r) ErrorCodeInvalidCrashAfter
         (publicMessage ErrorCodeInvalidCrashAfter) "validation" (rr_Diagnostics r),
       Some e, ctx, stores)
  | None =>
      let before := RecordingCheckpointStore_Snapshot CheckpointKey (s_Checkpoints stores) in
      match RetryErrors, SkipErrors, NewStep, NewJob with
      | None, None, None, None =>
          let '(report, ctx, sys) := jobRun ctx (initial_engine options stores) in
          let checkpoints :=
            if writer_crashed report then snd (rollback before ctx (e_store sys))
            else e_store sys in
          let stores := mkStores checkpoints (w_sink (e_writer sys))
                          (p_deadLetters (e_proc sys)) in
          (buildRunResponse options stores (r_readIDs (e_reader sys)) (e_writer sys) report,
           rp_Err report, ctx, stores)
      | Some e, _, _, _ | None, Some e, _, _ | None, None, Some e, _ | None, None, None, Some e =>
          (zero_response, Some e, ctx, stores)
      end
  end.
End Runs.

(** ** Sink and dead letters are insert-once stores *)

Definition put_customer (customer : MigratedCustomer) (s : CustomerSink) : CustomerSink :=
  match k_byID s !! mc_ID customer with
  | Some _ => s
  | None => mkSink (<[mc_ID customer := customer]> (k_byID s)) (k_order s ++ [mc_ID customer])
              (int_incr (k_newCount s))
  end.

#[export] Instance customer_sink : InsertOnce CustomerSink MigratedCustomer := {|
  io_key := mc_ID; io_map := k_byID; io_order := k_order; io_put := put_customer
|}.

#[export] Instance customer_sink_laws : InsertOnceLaws CustomerSink MigratedCustomer.
Proof.
  split; intros s v H; cbn in *; unfold put_customer.
  - by destruct H as [t ->].
  - by rewrite H.
Qed.

Definition put_letter (letter : DeadLetter) (s : DeadLetterStore) : DeadLetterStore :=
  match d_byID s !! dl_CustomerID letter with
  | Some _ => s
  | None => mkDeadLetters (<[dl_CustomerID letter := letter]> (d_byID s))
              (d_order s ++ [dl_CustomerID letter])
  end.

#[export] Instance letter_store : InsertOnce DeadLetterStore DeadLetter := {|
  io_key := dl_CustomerID; io_map := d_byID; io_order := d_order; io_put := put_letter
|}.

#[export] Instance letter_store_laws : InsertOnceLaws DeadLetterStore DeadLetter.
Proof.
  split; intros s v H; cbn in *; unfold put_letter.
  - by destruct H as [t ->].
  - by rewrite H.
Qed.

Lemma new_customer_sink_wf : io_wf NewCustomerSink.
Proof.
  split; cbn; [apply NoDup_nil_2| |done].
  intros k. rewrite lookup_empty. split; [by intros ?%elem_of_nil|by intros [? ?]].
Qed.

Lemma new_letters_wf : io_wf NewDeadLetterStore.
Proof.
  split; cbn; [apply NoDup_nil_2| |done].
  intros k. rewrite lookup_empty. split; [by intros ?%elem_of_nil|by intros [? ?]].
Qed.

Lemma letters_list s : io_wf s → DeadLetterStore_Snapshot (Some s) = io_list s.
Proof. intros Hwf. exact (io_list_total s zero_letter Hwf). Qed.

Lemma put_customer_run customer c s :
  CustomerSink_Put customer c (Some s) =
    (Val (match k_byID s !! mc_ID customer with Some _ => false | None => true end), c,
     Some (put_customer customer s)).
Proof.
  unfold CustomerSink_Put, put_customer, bind, deref, store, put, ret.
  by destruct (k_byID s !! mc_ID customer).
Qed.

Lemma record_letter_run letter c p s :
  p_deadLetters p = Some s →
  record_letter letter c p =
    (Val tt, c, mkProcessor (Some (put_letter letter s)) (p_attempts p)).
Proof.
  intros Hs. unfold record_letter, on_part, DeadLetterStore_Record, put_letter.
  rewrite Hs. unfold bind, deref, store, put, ret. by destruct (d_byID s !! dl_CustomerID letter).
Qed.

(** The migrated customers of a writer's sink, and the dead letters of a processor. *)
Definition content (w : customerWriter) : list MigratedCustomer :=
  match w_sink w with Some k => io_list k | None => [] end.
Definition letters (p : customerProcessor) : list DeadLetter :=
  match p_deadLetters p with Some d => io_list d | None => [] end.
Definition wr_ok (w : customerWriter) : Prop := ∃ k, w_sink w = Some k ∧ io_wf k.
Definition dead_ok (p : customerProcessor) : Prop := ∃ d, p_deadLetters p = Some d ∧ io_wf d.

Lemma put_content customer s :
  io_wf s →
  io_list (put_customer customer s) =
    io_list s ++ keep_first mc_ID (map mc_ID (io_list s)) [customer].
Proof.
  intros Hwf. change (put_customer customer s) with (io_put customer s).
  rewrite io_list_put by done. change mc_ID with (@io_key CustomerSink _ _).
  rewrite io_list_keys by done. cbn [keep_first]. case_bool_decide; by rewrite ?app_nil_r.
Qed.

Lemma cust_write_customer_law : item_law mc_ID wr_ok content write_customer.
Proof.
  intros customer c w o c' w' (k & Hk & Hwf) Hr. unfold write_customer in Hr.
  apply bind_inv in Hr as [(a & c1 & w1 & Hc & Hr)|[(e & -> & Hc)|(-> & Hc)]];
    apply ctxErr_inv in Hc as (-> & Hc).
  2-3: split; [by exists k|by left].
  unfold bind at 1, writer_put, on_part in Hr. rewrite Hk, put_customer_run in Hr.
  unfold bind, modify, get in Hr.
  assert (w_sink w' = Some (put_customer customer k)) as Hs.
  { unfold throw, ret in Hr. case_match; by simplify_eq. }
  split; [exists (put_customer customer k); split; [done|exact (io_wf_put k customer Hwf)]|].
  right. unfold content. rewrite Hs, Hk. by apply put_content.
Qed.

Lemma customer_write_law : chunk_law mc_ID wr_ok content writer_Write.
Proof.
  intros chunk c w o c' w' Hok Hr. unfold writer_Write in Hr.
  unfold bind, call_before_write in Hr.
  by eapply item_loop_law; [apply cust_write_customer_law|..].
Qed.

(** ** What becomes of a customer *)

Section Verdicts.
Context `{GoUnicode}.

Definition transient_once (record : CustomerRecord) : bool :=
  bool_decide (cr_Scenario record = ScenarioTransientOnce).
Definition permanent (record : CustomerRecord) : bool :=
  bool_decide (cr_Scenario record = ScenarioPermanent).

(** The specification of the step: the migrated customer, or the dead letter, of a record that is
    processed from scratch. A record with missing fields has neither. *)
Definition delivered (record : CustomerRecord) : option MigratedCustomer :=
  if missing_fields record || permanent record then None
  else Some (migrated_of record (if transient_once record then 2 else 1)).
Definition buried (record : CustomerRecord) : option DeadLetter :=
  if missing_fields record || negb (permanent record) then None
  else Some (mkDeadLetter (cr_ID record) (cr_Reason record) 1).

Lemma delivered_id record v : delivered record = Some v → mc_ID v = cr_ID record.
Proof. unfold delivered. by case_match; intros [= <-]. Qed.
Lemma buried_id record l : buried record = Some l → dl_CustomerID l = cr_ID record.
Proof. unfold buried. by case_match; intros [= <-]. Qed.

Lemma first_attempt record c p d :
  missing_fields record = false → p_deadLetters p = Some d →
  (∃ v, delivered record = Some v ∧
     process_attempt record 1 c p = (Val (Some v), c, p)) ∨
  (∃ l, buried record = Some l ∧ ∃ e,
     process_attempt record 1 c p =
       (Fail e, c, mkProcessor (Some (put_letter l d)) (p_attempts p)) ∧
     skip_permanent e = true ∧ retry_transient e = false) ∨
  (transient_once record = true ∧ ∃ e,
     process_attempt record 1 c p = (Fail e, c, p) ∧ skip_permanent e = false).
Proof.
  intros Hm Hd. unfold process_attempt, delivered, buried, transient_once, permanent.
  rewrite Hm. cbn [orb]. change (1 =? 1) with true. rewrite andb_true_r.
  destruct (bool_decide (cr_Scenario record = ScenarioTransientOnce)) eqn:Ht.
  { right; right. split; [done|]. by eexists. }
  destruct (bool_decide (cr_Scenario record = ScenarioPermanent)) eqn:Hp; cbn [negb].
  - right; left. eexists. split; [done|]. unfold bind at 1.
    rewrite (record_letter_run _ _ _ d Hd). by eexists.
  - left. by eexists.
Qed.

Lemma second_attempt record c p :
  missing_fields record = false → transient_once record = true →
  ∃ v, delivered record = Some v ∧ process_attempt record 2 c p = (Val (Some v), c, p).
Proof.
  intros Hm Ht. unfold process_attempt, delivered, permanent. rewrite Hm, Ht.
  unfold transient_once in Ht. apply bool_decide_eq_true in Ht. rewrite Ht.
  by eexists.
Qed.
End Verdicts.

(** ** The step's invariant *)

Section Migration.
Context `{GoUnicode} (records : list CustomerRecord).
Context (Hint : in_int64 (len records)) (Hnd : NoDup (map cr_ID records)).

Definition outputs : list MigratedCustomer := omap delivered records.
Definition dead_outputs : list DeadLetter := omap buried records.

(** No attempt at the records from index [n] on. *)
Definition untried (n : nat) (attempts : gmap string Z) : Prop :=
  ∀ i record, (n ≤ i)%nat → records !! i = Some record → attempts !! cr_ID record = None.

Lemma distinct_ids i j r1 r2 :
  records !! i = Some r1 → records !! j = Some r2 → cr_ID r1 = cr_ID r2 → i = j.
Proof.
  intros H1 H2 E. apply (NoDup_lookup (cr_ID <$> records) i j (cr_ID r1)); [exact Hnd|..].
  - by rewrite list_lookup_fmap, H1.
  - by rewrite list_lookup_fmap, H2, E.
Qed.

Lemma untried_insert n record a attempts :
  records !! n = Some record → untried (S n) attempts →
  untried (S n) (<[cr_ID record := a]> attempts).
Proof.
  intros Hr Hu i r Hi Hir. rewrite lookup_insert_ne; [by apply (Hu i); [lia|]|].
  intros E. pose proof (distinct_ids _ _ _ _ Hr Hir E). lia.
Qed.

Lemma untried_le n m attempts : (n ≤ m)%nat → untried n attempts → untried m attempts.
Proof. intros Hle Hu i r Hi. apply Hu. lia. Qed.

(** What the dead letters look like, having started from [l0]. *)
Definition letters_from (l0 : list DeadLetter) (p : customerProcessor) : Prop :=
  dead_ok p ∧ l0 `prefix_of` letters p ∧ Forall (λ l, l ∈ dead_outputs) (letters p).

Definition attempt_mid (l0 : list DeadLetter) (n : nat) (record : CustomerRecord)
    (p : customerProcessor) : Prop :=
  letters_from l0 p ∧ untried (S n) (p_attempts p) ∧
  (p_attempts p !! cr_ID record = None ∨
   (p_attempts p !! cr_ID record = Some 1 ∧ transient_once record = true)).

Definition attempt_post (l0 : list DeadLetter) (n : nat) (record : CustomerRecord)
    (v : Outcome (option MigratedCustomer)) (p' : customerProcessor) : Prop :=
  letters_from l0 p' ∧
  ((∃ o, v = Val (Some o) ∧ delivered record = Some o ∧ untried (S n) (p_attempts p')) ∨
   (∃ e l, v = Fail e ∧ skip_permanent e = true ∧ retry_transient e = false ∧
      buried record = Some l ∧ dl_CustomerID l ∈ map dl_CustomerID (letters p') ∧
      untried (S n) (p_attempts p')) ∨
   (∃ e, v = Fail e ∧ skip_permanent e = false ∧ attempt_mid l0 n record p')).

Lemma letters_put l0 n record l d attempts a :
  records !! n = Some record → buried record = Some l →
  letters_from l0 (mkProcessor (Some d) attempts) →
  letters_from l0 (mkProcessor (Some (put_letter l d)) a) ∧
  dl_CustomerID l ∈ map dl_CustomerID (letters (mkProcessor (Some (put_letter l d)) a)).
Proof.
  intros Hr Hl ((d' & [= <-] & Hwf) & Hpre & Hall). unfold letters_from, letters, dead_ok in *.
  cbn [p_deadLetters] in *.
  assert (io_wf (put_letter l d)) as Hwf' by exact (io_wf_put d l Hwf).
  change (put_letter l d) with (io_put l d) in *.
  pose proof (io_list_put d l Hwf) as Hlist. split_and!.
  - by eexists.
  - rewrite Hlist. case_bool_decide; [done|]. by apply prefix_app_r.
  - rewrite Hlist. case_bool_decide; [done|]. apply Forall_app. split; [done|].
    apply Forall_singleton. apply list_elem_of_omap. exists record.
    split; [by eapply list_elem_of_lookup_2|done].
  - change dl_CustomerID with (@io_key DeadLetterStore _ _) at 2.
    rewrite io_list_keys by done. apply (io_wf_dom _ Hwf'). exact (io_put_stored d l).
Qed.

Lemma process_attempt_post l0 n record c p v c' p' :
  records !! n = Some record → attempt_mid l0 n record p →
  processor_Process record c p = (v, c', p') → attempt_post l0 n record v p'.
Proof.
  intros Hr (Hl & Hu & Ha) Hrun. unfold processor_Process in Hrun.
  apply bind_inv in Hrun as [(a & c1 & p1 & Hc & Hrun)|[(e & -> & Hc)|(-> & Hc)]];
    apply ctxErr_inv in Hc as (-> & Hc).
  2: { destruct Hc as [?|[cause ?]]; simplify_eq. split; [done|]. right; right. eexists.
       split_and!; [done|by destruct cause|done]. }
  2: by destruct Hc as [?|[cause ?]].
  destruct (missing_fields record) eqn:Hm.
  { unfold throw in Hrun. simplify_eq. split; [done|]. right; right. eexists.
    split_and!; [done|done|done]. }
  destruct Hl as ((d & Hd & Hwf) & Hl). destruct p as [dl att]. cbn in Hd, Ha, Hu. subst dl.
  assert (letters_from l0 (mkProcessor (Some d) att)) as Hfrom by (split; [by exists d|done]).
  unfold bind, get, put in Hrun. cbn [p_deadLetters p_attempts] in Hrun.
  destruct Ha as [Ha|[Ha Ht]]; rewrite Ha in Hrun.
  - change (int_incr (default 0 None)) with 1 in Hrun.
    destruct (first_attempt record c1 (mkProcessor (Some d) (<[cr_ID record := 1]> att)) d Hm eq_refl)
      as [(o & Ho & E)|[(l & Hb & e & E & He1 & He2)|(Ht & e & E & He)]];
      rewrite E in Hrun; simplify_eq.
    + split; [done|]. left. exists o. split_and!; [done|done|]. by apply untried_insert.
    + destruct (letters_put l0 n record l d att (<[cr_ID record := 1]> att) Hr Hb Hfrom)
        as [Hf Hin].
      split; [done|]. right; left. exists e, l. split_and!; [done..|]. by apply untried_insert.
    + split; [done|]. right; right. exists e. split_and!; [done..|]. split; [done|].
      split; [by apply untried_insert|]. right. cbn [p_attempts]. by rewrite lookup_insert_eq.
  - change (int_incr (default 0 (Some 1))) with 2 in Hrun.
    destruct (second_attempt record c1 (mkProcessor (Some d) (<[cr_ID record := 2]> att)) Hm Ht)
      as (o & Ho & E). rewrite E in Hrun. simplify_eq.
    split; [done|]. left. exists o. split_and!; [done|done|]. by apply untried_insert.
Qed.

Lemma cust_processed_post l0 n record p v p' :
  records !! n = Some record → letters_from l0 p → untried n (p_attempts p) →
  processed (B := customer_ops) retry_transient record p p' v → attempt_post l0 n record v p'.
Proof.
  intros Hr Hl Hu.
  apply (processed_closed (B := customer_ops) retry_transient record (attempt_mid l0 n record)).
  - intros c q w c' q' Hm Hq. exact (process_attempt_post _ _ _ _ _ _ _ _ Hr Hm Hq).
  - intros e q [_ [(? & ? & _)|[(e' & l & ? & _ & He & _)|(e' & _ & _ & Hm)]]] Hretry;
      [done| |done]. simplify_eq. congruence.
  - split; [done|]. split; [by apply (untried_le n); [lia|]|]. left. by apply (Hu n).
Qed.

(** ** Reader *)

Definition reader_at (n : nat) (r : customerReader) : Prop :=
  r_records r = records ∧ r_index r = Z.of_nat n ∧ (n ≤ length records)%nat.

Lemma cust_read_at n c r o c' r' :
  reader_at n r → reader_Read c r = (o, c', r') →
  match o with
  | Val (Some record) => records !! n = Some record ∧ reader_at (S n) r'
  | Val None => n = length records ∧ r' = r
  | _ => True
  end.
Proof.
  intros (Hrs & Hn & Hle) Hr. unfold reader_Read in Hr. go_inv Hr; try done.
  all: rewrite Z.geb_leb in *.
  - apply Z.leb_le in Heqb. rewrite ?Hrs in *. unfold len in *. split; [lia|done].
  - apply Z.leb_gt in Heqb. rewrite Hn, ?Hrs, index_Z_nat in *. unfold len, in_int64, int_bits in *.
    unfold int_incr, int_add. rewrite ?Hn, wrap64_id by (unfold in_int64, int_bits; lia).
    split; [done|]. split_and!; [done|cbn; lia|lia].
Qed.

Lemma restore_at k c r c' r' :
  r_records r = records → reader_Restore (AnyValue k) c r = (Val tt, c', r') →
  reader_at (Z.to_nat (cp_NextIndex k)) r'.
Proof.
  intros Hrs Hr. unfold reader_Restore in Hr. cbn [asCheckpoint] in Hr. go_inv Hr.
  apply orb_false_iff in Heqb as [Hlt Hgt]. rewrite Z.gtb_ltb in Hgt.
  apply Z.ltb_ge in Hlt, Hgt. rewrite ?Hrs in *. unfold len in *. split_and!; cbn; [done|lia|lia].
Qed.

(** ** Every run of the engine *)

Abbreviation steps := (eng_steps (B := customer_ops) retry_transient skip_permanent).

(** Every record before [n] is migrated, among the [pending] customers, or a dead letter. *)
Definition covered (n : nat) (ids : list string) (dead : list string) : Prop :=
  ∀ i record, (i < n)%nat → records !! i = Some record →
    (∀ v, delivered record = Some v → cr_ID record ∈ ids) ∧
    (∀ l, buried record = Some l → cr_ID record ∈ dead).

Lemma covered_mono n ids dead ids' dead' :
  covered n ids dead → (∀ x, x ∈ ids → x ∈ ids') → (∀ x, x ∈ dead → x ∈ dead') →
  covered n ids' dead'.
Proof.
  intros Hc H1 H2 i r Hi Hr. destruct (Hc i r Hi Hr) as [Hv Hl]. split; eauto.
Qed.

Section Run.
Context (c0 : list MigratedCustomer) (l0 : list DeadLetter) (cp0 : option Checkpoint).

(** The customers in the sink, having started from [c0]. *)
Definition content_from (w : customerWriter) : Prop :=
  wr_ok w ∧ c0 `prefix_of` content w ∧ Forall (λ v, v ∈ outputs) (content w).

Definition run_inv (e : CustomerEng) : Prop :=
  content_from (e_writer e) ∧ letters_from l0 (e_proc e) ∧
  match e_phase e with
  | Created | Opened =>
      reader_at 0 (e_reader e) ∧ untried 0 (p_attempts (e_proc e)) ∧
      content (e_writer e) = c0 ∧ letters (e_proc e) = l0 ∧
      RecordingCheckpointStore_Snapshot CheckpointKey (e_store e) = cp0
  | Running => ∃ n, reader_at n (e_reader e) ∧ untried n (p_attempts (e_proc e)) ∧
      Forall (λ v, v ∈ outputs) (e_pending e) ∧
      covered n (map mc_ID (content (e_writer e) ++ e_pending e))
        (map dl_CustomerID (letters (e_proc e)))
  | Stopped => True
  end.

Lemma write_from n w buf dead c o c' w' :
  content_from w → Forall (λ v, v ∈ outputs) buf →
  covered n (map mc_ID (content w ++ buf)) dead → writer_Write buf c w = (o, c', w') →
  content_from w' ∧ (o = Val tt → covered n (map mc_ID (content w' ++ [])) dead).
Proof.
  intros (Hok & Hpre & Hall) Hbuf Hcov Hr.
  destruct (customer_write_law _ _ _ _ _ _ Hok Hr) as (Hok' & j & Hj & Hval & Hc).
  assert (∀ v, v ∈ keep_first mc_ID (map mc_ID (content w)) (take j buf) → v ∈ buf) as Hsub.
  { intros v Hv. eapply elem_of_sublist; [|apply (sublist_take buf j)].
    by eapply keep_first_subset. }
  split.
  - split; [done|]. rewrite Hc. split; [by apply prefix_app_r|].
    apply Forall_app. split; [done|]. rewrite Forall_forall in *. auto.
  - intros Ho. rewrite app_nil_r, Hc, (Hval Ho), firstn_all.
    eapply covered_mono; [exact Hcov| |done].
    intros x. rewrite !map_app, !elem_of_app. intros [?|(v & -> & Hv)%list_elem_of_fmap]; [auto|].
    pose proof (keep_first_covers mc_ID (map mc_ID (content w)) buf v Hv) as Hk.
    by apply elem_of_app in Hk.
Qed.

Context (Hcov : ∀ cp, cp0 = Some cp →
  covered (Z.to_nat (cp_NextIndex cp)) (map mc_ID c0) (map dl_CustomerID l0)).

Definition grown (e : CustomerEng) : Prop :=
  content_from (e_writer e) ∧ letters_from l0 (e_proc e).

Lemma load_snapshot c st o c' st' :
  RecordingCheckpointStore_Load CheckpointKey c st = (o, c', st') →
  st' = st ∧ ∀ k, o = Val k → k = AnyValue <$> RecordingCheckpointStore_Snapshot CheckpointKey st.
Proof. intros Hr. unfold RecordingCheckpointStore_Load in Hr. go_inv Hr; (split; [done|]); by intros k [= <-]. Qed.

Lemma cust_item_post n r c r' c' record p p' v :
  reader_at n r → letters_from l0 p → untried n (p_attempts p) →
  reader_Read c r = (Val (Some record), c', r') →
  processed (B := customer_ops) retry_transient record p p' v →
  reader_at (S n) r' ∧ records !! n = Some record ∧ letters_from l0 p' ∧
  letters p `prefix_of` letters p' ∧ attempt_post (letters p) n record v p'.
Proof.
  intros Hr (Hok & Hpre & Hall) Hu Hread Hproc.
  destruct (cust_read_at _ _ _ _ _ _ Hr Hread) as [Hn Hr'].
  assert (attempt_post (letters p) n record v p') as Hpost by (by eapply cust_processed_post).
  destruct Hpost as [(Hok' & Hpre' & Hall') Hcases].
  split_and!; [done|done| |done|done]. split_and!; [done|by etrans|done].
Qed.

Lemma covered_S n record ids dead :
  records !! n = Some record → covered n ids dead →
  (∀ v, delivered record = Some v → cr_ID record ∈ ids) →
  (∀ l, buried record = Some l → cr_ID record ∈ dead) → covered (S n) ids dead.
Proof.
  intros Hn Hc Hv Hl i r Hi Hr. destruct (decide (i = n)) as [->|Hne].
  - by simplify_eq.
  - apply (Hc i r); [lia|done].
Qed.

Lemma exclusive record v l : delivered record = Some v → buried record = Some l → False.
Proof.
  unfold delivered, buried. destruct (missing_fields record); [done|]. cbn.
  by destruct (permanent record).
Qed.

Lemma prefix_ids {A} (f : A → string) (l1 l2 : list A) x :
  l1 `prefix_of` l2 → x ∈ map f l1 → x ∈ map f l2.
Proof. intros [l ->] Hx. rewrite map_app. apply elem_of_app. by left. Qed.

Lemma covered_delivered n record o w buf p p' :
  records !! n = Some record → delivered record = Some o → letters p `prefix_of` letters p' →
  covered n (map mc_ID (content w ++ buf)) (map dl_CustomerID (letters p)) →
  covered (S n) (map mc_ID (content w ++ (buf ++ [o]))) (map dl_CustomerID (letters p')).
Proof.
  intros Hn Ho Hpre Hc. apply (covered_S n record); [done| | |].
  - eapply covered_mono; [done| |intros x; by apply prefix_ids].
    intros x. apply prefix_ids. rewrite app_assoc. by apply prefix_app_r.
  - intros v Hv. simplify_eq. rewrite <- (delivered_id _ _ Ho), !map_app, !elem_of_app.
    right; right. apply list_elem_of_singleton. done.
  - intros l Hl. by destruct (exclusive record o l).
Qed.

Lemma covered_buried n record l w buf p p' :
  records !! n = Some record → buried record = Some l → letters p `prefix_of` letters p' →
  dl_CustomerID l ∈ map dl_CustomerID (letters p') →
  covered n (map mc_ID (content w ++ buf)) (map dl_CustomerID (letters p)) →
  covered (S n) (map mc_ID (content w ++ buf)) (map dl_CustomerID (letters p')).
Proof.
  intros Hn Hl Hpre Hin Hc. apply (covered_S n record); [done| | |].
  - eapply covered_mono; [done|done|intros x; by apply prefix_ids].
  - intros v Hv. by destruct (exclusive record v l).
  - intros l' Hl'. by rewrite <- (buried_id _ _ Hl).
Qed.

Lemma inv_item r w p st buf c c' r' record p' v :
  run_inv (mkEng r w p st buf Running) → reader_Read c r = (Val (Some record), c', r') →
  processed (B := customer_ops) retry_transient record p p' v →
  (∀ r'' st', run_inv (mkEng r'' w p' st' buf Stopped)) ∧
  (∀ o st', v = Val (Some o) → run_inv (mkEng r' w p' st' (buf ++ [o]) Running)) ∧
  ((v = Val None ∨ ∃ e, v = Fail e ∧ skip_permanent e = true) →
   ∀ st', run_inv (mkEng r' w p' st' buf Running)).
Proof.
  intros (Hw & Hl & n & Hr & Hu & Hbuf & Hc) Hread Hproc. cbn in *.
  destruct (cust_item_post _ _ _ _ _ _ _ _ _ Hr Hl Hu Hread Hproc) as (Hr' & Hn & Hl' & Hpre & _ & Hcases).
  split; [done|]. split.
  - intros o st' ->. destruct Hcases as [(o' & ? & Ho & Hu')|[(? & ? & ? & _)|(? & ? & _)]];
      [|done..]. simplify_eq. split; [done|]. split; [done|]. exists (S n). cbn.
    split_and!; [done|done| |by eapply covered_delivered].
    apply Forall_app. split; [done|]. apply Forall_singleton, list_elem_of_omap.
    exists record. split; [by eapply list_elem_of_lookup_2|done].
  - intros Hv st'.
    destruct Hcases as [(o & -> & _)|[(e & l & -> & Hs & _ & Hb & Hin & Hu')|(e & -> & Hs & _)]].
    + by destruct Hv as [?|(? & ? & ?)].
    + split; [done|]. split; [done|]. exists (S n). cbn.
      split_and!; [done..|by eapply covered_buried].
    + destruct Hv as [?|(? & ? & ?)]; [done|]. simplify_eq. congruence.
Qed.

Lemma inv_grown e : run_inv e → grown e.
Proof. by intros (Hw & Hl & _). Qed.

Lemma cust_inv_stopped e r st buf : run_inv e → run_inv (mkEng r (e_writer e) (e_proc e) st buf Stopped).
Proof. by intros (Hw & Hl & _). Qed.

Lemma cust_inv_write r w p st buf c c' w' o :
  run_inv (mkEng r w p st buf Running) → writer_Write buf c w = (o, c', w') →
  (∀ r' st' buf', run_inv (mkEng r' w' p st' buf' Stopped)) ∧
  (o = Val tt → ∀ st', run_inv (mkEng r w' p st' [] Running)).
Proof.
  intros (Hw & Hl & n & Hr & Hu & Hbuf & Hc) Hwr. cbn in *.
  destruct (write_from n w buf _ c o c' w' Hw Hbuf Hc Hwr) as [Hw' Hval].
  split; [done|]. intros Ho st'. split; [done|]. split; [done|]. exists n. cbn.
  split_and!; [done|done|constructor|by apply Hval].
Qed.

Lemma inv_start r0 r w p st n :
  run_inv (mkEng r0 w p st [] Opened) → reader_at n r →
  (n = 0%nat ∨ ∃ cp, cp0 = Some cp ∧ n = Z.to_nat (cp_NextIndex cp)) →
  ∀ st', run_inv (mkEng r w p st' [] Running).
Proof.
  intros (Hw & Hl & _ & Hu & Hcw & Hlp & _) Hr Hn st'. cbn in *.
  split; [done|]. split; [done|]. exists n. cbn.
  split_and!; [done|by apply (untried_le 0); [lia|]|constructor|].
  rewrite app_nil_r, Hcw, Hlp. destruct Hn as [->|(cp & Hcp & ->)]; [|by apply Hcov].
  intros i r' Hi. lia.
Qed.

Lemma checkpoint_same c r o c' r' : reader_Checkpoint c r = (o, c', r') → r' = r.
Proof. intros Hr. unfold reader_Checkpoint in Hr. by go_inv Hr. Qed.

Lemma ctxErr_same {S} c (s : S) o c' s' : ctxErr c s = (o, c', s') → s' = s.
Proof. by intros [-> _]%ctxErr_inv. Qed.

Lemma run_inv_step e e' :
  run_inv e → eng_step (B := customer_ops) retry_transient skip_permanent e e' → run_inv e'.
Proof.
  intros Hinv Hstep. destruct Hstep; unfold_ops_in customer_ops;
    repeat match goal with
      | H : saved_after _ _ _ _ |- _ => inversion H; subst; clear H
      end; unfold_ops_in customer_ops;
    unfold reader_Open, reader_Close, writer_Open, writer_Close in *;
    repeat match goal with
      | H : ctxErr _ _ = _ |- _ => apply ctxErr_same in H; subst
      | H : reader_Checkpoint _ _ = _ |- _ => apply checkpoint_same in H; subst
      | H : RecordingCheckpointStore_Load _ _ _ = _ |- _ => apply load_snapshot in H as [-> H]
      end.
  1: done.
  1: by eapply inv_start; [exact Hinv|apply Hinv|left].
  1: { pose proof Hinv as (_ & _ & Hr & _ & _ & _ & Hs). cbn [e_phase e_reader e_store] in Hr, Hs.
       specialize (H0 _ eq_refl). rewrite Hs in H0.
       symmetry in H0. apply fmap_Some in H0 as (cp & Hcp & ->).
       apply restore_at in H1; [|apply Hr].
       eapply inv_start; [exact Hinv|exact H1|right; eauto]. }
  1: by edestruct inv_item as (_ & HI & _); [done..|]; apply HI.
  1: by edestruct inv_item as (_ & _ & HD); [done..|]; apply HD.
  1-2: by edestruct inv_item as (HS & _); [done..|]; apply HS.
  1: { destruct Hinv as (Hw & Hl & n & Hr & Hrest). split; [done|]. split; [done|]. exists n.
       cbn in *. by destruct (cust_read_at _ _ _ _ _ _ Hr H0) as [_ ->]. }
  1: by edestruct cust_inv_write as [_ HV]; [done..|]; apply HV.
  1: by edestruct cust_inv_write as [HS _]; [done..|]; apply HS.
  1-4: by apply (cust_inv_stopped _ _ _ _ Hinv).
  1: by edestruct cust_inv_write as [HS _]; [done..|]; apply HS.
  1: by apply (cust_inv_stopped _ _ _ _ Hinv).
  1: by edestruct inv_item as (HS & _); [done..|]; apply HS.
  1: by edestruct cust_inv_write as [HS _]; [done..|]; apply HS.
  1-2: by apply (cust_inv_stopped _ _ _ _ Hinv).
  done.
Qed.

Lemma run_inv_steps e e' : run_inv e → steps e e' → run_inv e'.
Proof. intros Hi Hs. revert Hi. induction Hs; eauto using run_inv_step. Qed.

(** A run that has read every record and written its buffer covers all of them. *)
Lemma drained_covered e :
  run_inv e → e_phase e = Running → e_pending e = [] →
  fst (fst (reader_Read Background (e_reader e))) = Val None →
  ∀ n, covered n (map mc_ID (content (e_writer e))) (map dl_CustomerID (letters (e_proc e))).
Proof.
  intros (Hw & Hl & Hinv) Hph Hpend Hend n. rewrite Hph in Hinv.
  destruct Hinv as (m & Hr & _ & _ & Hc). rewrite Hpend, app_nil_r in Hc.
  destruct (reader_Read _ _) as [[o c] r'] eqn:E. cbn in Hend. subst o.
  destruct (cust_read_at _ _ _ _ _ _ Hr E) as [-> _].
  intros i r Hi Hir. apply (Hc i r); [by eapply lookup_lt_Some|done].
Qed.
End Run.
End Migration.

(** ** Properties of [RunBatch] *)

Definition sink_list (s : Stores) : list MigratedCustomer :=
  match s_Sink s with Some k => io_list k | None => [] end.
Definition letter_list (s : Stores) : list DeadLetter :=
  match s_DeadLetters s with Some d => io_list d | None => [] end.

Section RunBatchProperties.
Context `{GoUnicode}.

(** The stores hold prescribed migrated customers and dead letters only, once per ID. *)
Record stores_sound (s : Stores) : Prop := {
  ss_sink : ∃ k, s_Sink s = Some k ∧ io_wf k;
  ss_dead : ∃ d, s_DeadLetters s = Some d ∧ io_wf d;
  ss_migrated : Forall (λ v, v ∈ outputs defaultRecords) (sink_list s);
  ss_letters : Forall (λ l, l ∈ dead_outputs defaultRecords) (letter_list s)
}.

(** Every record before [n] is migrated or a dead letter. *)
Definition stores_cover (n : nat) (s : Stores) : Prop :=
  covered defaultRecords n (CustomerSink_IDs (s_Sink s)) (map dl_CustomerID (letter_list s)).

Definition checkpoint_covered (s : Stores) : Prop :=
  ∀ cp, RecordingCheckpointStore_Snapshot CheckpointKey (s_Checkpoints s) = Some cp →
    stores_cover (Z.to_nat (cp_NextIndex cp)) s.

(** A restart from these stores loses nothing. *)
Definition stores_consistent (s : Stores) : Prop := stores_sound s ∧ checkpoint_covered s.

Lemma default_records_int : in_int64 (len defaultRecords).
Proof. vm_compute; split; [intros ?; discriminate|reflexivity]. Qed.
Lemma default_records_nodup : NoDup (map cr_ID defaultRecords).
Proof. refine (bool_decide_eq_true_1 _ _). vm_compute; reflexivity. Qed.

Lemma sink_ids s k : s_Sink s = Some k → io_wf k → CustomerSink_IDs (s_Sink s) = map mc_ID (sink_list s).
Proof.
  intros Hk Hwf. unfold sink_list. rewrite Hk. symmetry. exact (io_list_keys k Hwf).
Qed.

Lemma normalize_some s : ∃ c k d, normalize s = mkStores (Some c) (Some k) (Some d).
Proof. destruct s as [s|]; unfold normalize, NewStores; eauto. Qed.

Lemma cover_grows s s' n :
  stores_sound s → stores_sound s' → sink_list s `prefix_of` sink_list s' →
  letter_list s `prefix_of` letter_list s' → stores_cover n s → stores_cover n s'.
Proof.
  intros [(k & Hk & Hwk) _ _ _] [(k' & Hk' & Hwk') _ _ _] Hs Hl.
  unfold stores_cover. rewrite (sink_ids s k), (sink_ids s' k') by done.
  intros Hc. eapply covered_mono; [done| |]; intros x; by apply prefix_ids.
Qed.

Lemma run_inv_initial options s :
  stores_sound s →
  run_inv defaultRecords (sink_list s) (letter_list s)
    (RecordingCheckpointStore_Snapshot CheckpointKey (s_Checkpoints s)) (initial_engine options s).
Proof.
  intros [(k & Hk & Hwk) (d & Hd & Hwd) Hv Hl]. unfold initial_engine, sink_list, letter_list in *.
  rewrite Hk, Hd in *. split.
  - split; [by exists k|]. split; [done|]. exact Hv.
  - split; [split; [by exists d|]; split; [done|]; exact Hl|]. cbn. split_and!; try done.
    split_and!; [done|done|lia].
Qed.

Lemma run_inv_sound l0 c0 cp0 e checkpoints :
  run_inv defaultRecords c0 l0 cp0 e →
  let s := mkStores checkpoints (w_sink (e_writer e)) (p_deadLetters (e_proc e)) in
  stores_sound s ∧ c0 `prefix_of` sink_list s ∧ l0 `prefix_of` letter_list s.
Proof.
  intros ((Hok & Hpre & Hall) & (Hdok & Hdpre & Hdall) & _) s. by split_and!.
Qed.
End RunBatchProperties.

Section RunBatchTheorems.
Context `{GoUnicode} (StatusFailed StatusCompleted : string).
Context (RetryErrors SkipErrors NewStep NewJob : option GoError).
Context (jobRun : Ctx → CustomerEng → Report * Ctx * CustomerEng).

(** The job keeps the documented order and the step's policies on this run. *)
Definition job_obeys (ctx : option Ctx) (options : RunOptions) : Prop :=
  ∀ rep c' e',
    let start := initial_engine (with_trigger options) (normalize (o_Stores options)) in
    jobRun (normalizeContext ctx) start = (rep, c', e') →
    obeys_policies customer_ops retry_transient skip_permanent StatusCompleted start rep e'.

Lemma run_batch_cases ctx options resp err ctx' stores' :
  RunBatch StatusFailed StatusCompleted RetryErrors SkipErrors NewStep NewJob jobRun ctx options
    = (resp, err, ctx', stores') →
  (stores' = normalize (o_Stores options) ∧ (rr_Status resp = StatusFailed ∨ rr_Status resp = "")) ∨
  ∃ rep c' sys,
    jobRun (normalizeContext ctx)
      (initial_engine (with_trigger options) (normalize (o_Stores options))) = (rep, c', sys) ∧
    err = rp_Err rep ∧ rr_Status resp = rp_Status rep ∧
    stores' = mkStores
      (if writer_crashed rep
       then snd (rollback (RecordingCheckpointStore_Snapshot CheckpointKey
                   (s_Checkpoints (normalize (o_Stores options)))) c' (e_store sys))
       else e_store sys) (w_sink (e_writer sys)) (p_deadLetters (e_proc sys)).
Proof.
  unfold RunBatch. intros Hr. destruct (validateCrashAfter _).
  { left. simplify_eq. by split; [|left]. }
  destruct RetryErrors; [left; simplify_eq; by split; [|right]|].
  destruct SkipErrors; [left; simplify_eq; by split; [|right]|].
  destruct NewStep; [left; simplify_eq; by split; [|right]|].
  destruct NewJob; [left; simplify_eq; by split; [|right]|].
  destruct (jobRun _ _) as [[rep c1] sys] eqn:E. simplify_eq. right. by exists rep, ctx', sys.
Qed.

Lemma rollback_snapshot before c s :
  let s' := snd (rollback before c s) in
  match s with
  | None => RecordingCheckpointStore_Snapshot CheckpointKey s' = None
  | Some _ => RecordingCheckpointStore_Snapshot CheckpointKey s' =
                Some (default (mkCheckpoint DefaultChunkSize) before)
  end.
Proof.
  unfold rollback, RecordingCheckpointStore_Save, bind, ctxErr. cbn.
  destruct s; cbn; [|done]. rewrite lookup_insert_eq. by destruct before.
Qed.

Lemma store_load_some c st o c' st' :
  is_Some st → RecordingCheckpointStore_Load CheckpointKey c st = (o, c', st') → is_Some st'.
Proof. intros Hs Hr. by apply load_snapshot in Hr as [-> _]. Qed.

Lemma store_save_some k c st o c' st' :
  is_Some st → RecordingCheckpointStore_Save CheckpointKey k c st = (o, c', st') → is_Some st'.
Proof. intros Hs Hr. unfold RecordingCheckpointStore_Save in Hr. go_inv Hr; eauto. Qed.

Lemma store_some_steps e e' :
  eng_steps (B := customer_ops) retry_transient skip_permanent e e' →
  is_Some (e_store e) → is_Some (e_store e').
Proof.
  induction 1 as [|e e1 e' Hstep _ IH]; [done|]. intros Hs. apply IH. clear IH.
  destruct Hstep; unfold_ops_in customer_ops;
    repeat match goal with
      | H : saved_after _ _ _ _ |- _ => inversion H; subst; clear H
      end; unfold_ops_in customer_ops; cbn [e_store] in *;
    eauto using store_load_some, store_save_some.
Qed.

(** C12: safety of the customer migration. Start from stores that lose nothing on a restart. Under
    any engine that follows the step's policies, with any crash injection and cancellation,
    [RunBatch] only adds prescribed customers and dead letters, never twice, and never removes or
    changes one. After an injected writer crash the stores lose nothing on a restart provided a
    checkpoint existed before the run (or the first chunk made it into the sink). A run reported
    as completed has migrated or buried every record. *)
Theorem run_batch_safe ctx options resp err ctx' stores' :
  let stores := normalize (o_Stores options) in
  StatusFailed ≠ StatusCompleted → StatusCompleted ≠ "" →
  stores_consistent stores → job_obeys ctx options →
  RunBatch StatusFailed StatusCompleted RetryErrors SkipErrors NewStep NewJob jobRun ctx options
    = (resp, err, ctx', stores') →
  (stores_sound stores' ∧ sink_list stores `prefix_of` sink_list stores' ∧
   letter_list stores `prefix_of` letter_list stores') ∧
  (∀ e, err = Some e → errors_Is e "customermigration.ErrWriterCrash" = true →
   is_Some (RecordingCheckpointStore_Snapshot CheckpointKey (s_Checkpoints stores)) ∨
     stores_cover (Z.to_nat DefaultChunkSize) stores' →
   stores_consistent stores') ∧
  (rr_Status resp = StatusCompleted → ∀ n, stores_cover n stores').
Proof.
  cbn zeta. intros Hne1 Hne2 [Hsound Hcp] Hjob Hr.
  apply run_batch_cases in Hr as [[-> Hst]|(rep & c1 & sys & Hrun & -> & Hst & ->)].
  { split_and!; try done. intros Hc. exfalso. destruct Hst as [E|E]; congruence. }
  destruct (Hjob _ _ _ Hrun) as [Hsteps Hdone]. clear Hjob Hrun.
  assert (∀ e, eng_steps (B := customer_ops) retry_transient skip_permanent
    (initial_engine (with_trigger options) (normalize (o_Stores options))) e →
    run_inv defaultRecords (sink_list (normalize (o_Stores options)))
      (letter_list (normalize (o_Stores options)))
      (RecordingCheckpointStore_Snapshot CheckpointKey
         (s_Checkpoints (normalize (o_Stores options)))) e) as Hinv.
  { intros e He. eapply run_inv_steps; [apply default_records_int|apply default_records_nodup| |
      by apply run_inv_initial|exact He].
    intros cp E. specialize (Hcp cp E). destruct Hsound as [(k & Hk & Hwk) _ _ _].
    unfold stores_cover in Hcp. by rewrite (sink_ids _ k) in Hcp. }
  set (cps := if writer_crashed rep then _ else _).
  destruct (run_inv_sound _ _ _ _ cps (Hinv _ Hsteps)) as (Hs' & Hp1 & Hp2).
  split; [done|]. split.
  - intros e He Hcrash Hbefore. split; [done|]. intros cp Hsnap. cbn [s_Checkpoints] in Hsnap.
    subst cps. unfold writer_crashed in *. rewrite He, Hcrash in *.
    pose proof (rollback_snapshot (RecordingCheckpointStore_Snapshot CheckpointKey
         (s_Checkpoints (normalize (o_Stores options)))) c1 (e_store sys)) as Hroll.
    cbn zeta in Hroll. destruct (e_store sys); rewrite Hroll in Hsnap; [|done].
    injection Hsnap as <-.
    destruct (RecordingCheckpointStore_Snapshot _ (s_Checkpoints _)) as [cp|] eqn:Eb.
    + eapply cover_grows; [exact Hsound|done..|]. by apply Hcp.
    + destruct Hbefore as [[? ?]|Hb]; [done|exact Hb].
  - rewrite Hst. intros Hc n.
    destruct (Hdone Hc) as (e1 & He1 & Hph & Hpend & Hend & Hproc & Hw).
    assert (w_sink (e_writer sys) = w_sink (e_writer e1)) as Hsink.
    { destruct Hw as [->|(c & o & c' & Hclose)]; [done|].
      change (writer_Close c (e_writer e1) = (o, c', e_writer sys)) in Hclose.
      unfold writer_Close in Hclose. by apply ctxErr_same in Hclose as ->. }
    pose proof (drained_covered _ default_records_int default_records_nodup _ _ _ _ (Hinv _ He1) Hph Hpend Hend n) as Hcov.
    destruct Hs' as [(k & Hk & Hwk) _ _ _]. unfold stores_cover. rewrite (sink_ids _ k Hk Hwk).
    unfold sink_list, letter_list in *. cbn [s_Sink s_DeadLetters] in *.
    rewrite Hsink, Hproc. exact Hcov.
Qed.

(** the checkpoint after a writer crash. The run's own progress is discarded: the checkpoint
    is the one from before the run, and when there was none it is 2 whatever the sink holds. *)
Theorem writer_crash_checkpoint ctx options resp err ctx' stores' :
  let stores := normalize (o_Stores options) in
  job_obeys ctx options →
  validateCrashAfter (o_CrashAfterNewWrites options) = None →
  RetryErrors = None → SkipErrors = None → NewStep = None → NewJob = None →
  RunBatch StatusFailed StatusCompleted RetryErrors SkipErrors NewStep NewJob jobRun ctx options
    = (resp, Some err, ctx', stores') →
  errors_Is err "customermigration.ErrWriterCrash" = true →
  RecordingCheckpointStore_Snapshot CheckpointKey (s_Checkpoints stores') =
    Some (default (mkCheckpoint DefaultChunkSize)
            (RecordingCheckpointStore_Snapshot CheckpointKey (s_Checkpoints stores))).
Proof.
  cbn zeta. intros Hjob Hval Hr1 Hr2 Hr3 Hr4 Hr Hcrash. unfold RunBatch in Hr.
  assert (o_CrashAfterNewWrites (with_trigger options) = o_CrashAfterNewWrites options) as Ho
    by (unfold with_trigger; by case_bool_decide).
  rewrite Ho, Hval, Hr1, Hr2, Hr3, Hr4 in Hr.
  destruct (jobRun _ _) as [[rep c1] sys] eqn:E.
  destruct (Hjob _ _ _ E) as [Hsteps _]. apply store_some_steps in Hsteps as [st Hst].
  2: { destruct (normalize_some (o_Stores options)) as (c & k & d & ->). by eexists. }
  injection Hr as _ Herr _ <-. cbn [s_Checkpoints].
  unfold writer_crashed. rewrite Herr, Hcrash, Hst. apply (rollback_snapshot _ _ (Some st)).
Qed.
End RunBatchTheorems.

(** ** Concrete runs *)

(** The chunk engine; the only error it can meet here is the injected crash. *)
Definition demo_job (c : Ctx) (e : CustomerEng) : Report * Ctx * CustomerEng :=
  let '(rep, c, e) :=
    policy_job (customer_ops (H := plain_unicode)) retry_transient skip_permanent 2 2 20 c e in
  (mkReport StepName (rp_Status rep) 0 0 0 0 0
     (if rp_IsFailure rep then Some (Errorf "write chunk: %w" [ErrWriterCrash] []) else None)
     (rp_IsFailure rep) [], c, e).

Lemma cust_demo_job_steps c e rep c' e' :
  e_phase e = Created → demo_job c e = (rep, c', e') →
  eng_steps (B := customer_ops (H := plain_unicode)) retry_transient skip_permanent e e'.
Proof.
  unfold demo_job. destruct (policy_job _ _ _ _ _ _ c e) as [[r1 c1] e1] eqn:E.
  intros Hph Hr. simplify_eq. by eapply policy_job_steps.
Qed.

Definition demo_options (crash : Z) (stores : Stores) : RunOptions :=
  mkRunOptions "run-1" "" (Some stores) crash None.
Definition demo_run (crash : Z) (stores : Stores) :=
  RunBatch "failed" "completed" None None None None demo_job None (demo_options crash stores).

(** The stores after a first run that crashes at the [crash]-th new write. *)
Definition demo_crashed (crash : Z) : Stores := snd (demo_run crash NewStores).

(** with the crash injected after the first write, the checkpoint saved by [RunBatch] skips a
    customer that was never written. The restart completes, and cust-1002 is neither migrated nor
    a dead letter; with the crash after the second write the restart migrates everyone. *)
Theorem first_write_crash_loses_customer :
  CustomerSink_IDs (s_Sink (demo_crashed 1)) = ["cust-1001"] ∧
  RecordingCheckpointStore_Snapshot CheckpointKey (s_Checkpoints (demo_crashed 1)) =
    Some (mkCheckpoint 2) ∧
  (let '(resp, err, _, _) := demo_run 0 (demo_crashed 1) in
   err = None ∧ rr_Status resp = "completed" ∧
   rr_MigratedIDs resp = ["cust-1001"; "cust-1003"; "cust-1005"] ∧
   map dl_CustomerID (rr_DeadLetters resp) = ["cust-1004"]) ∧
  (let '(resp, err, _, _) := demo_run 0 (demo_crashed 2) in
   rr_MigratedIDs resp = ["cust-1001"; "cust-1002"; "cust-1003"; "cust-1005"]).
Proof. split_and!; vm_compute; split_and?; reflexivity. Qed.


Lemma new_stores_consistent : stores_consistent (H := plain_unicode) NewStores.
Proof.
  split; [|by intros cp]. split.
  - exists NewCustomerSink. split; [done|apply new_customer_sink_wf].
  - exists NewDeadLetterStore. split; [done|apply new_letters_wf].
  - constructor.
  - constructor.
Qed.

(** What the demo job does to a run that starts from new stores. *)
Definition demo_start (crash : Z) : CustomerEng :=
  initial_engine (with_trigger (demo_options crash NewStores)) NewStores.
Definition demo_end (crash : Z) : Report * Ctx * CustomerEng := demo_job Background (demo_start crash).

Lemma demo_job_obeys :
  job_obeys (H := plain_unicode) "completed" demo_job None (demo_options 0 NewStores).
Proof.
  unfold job_obeys. cbn zeta. intros rep c' e' Hr.
  change (demo_job Background (demo_start 0) = (rep, c', e')) in Hr.
  assert (eng_steps (B := customer_ops (H := plain_unicode)) retry_transient skip_permanent
            (demo_start 0) e') as Hsteps by (by eapply cust_demo_job_steps; [|exact Hr]).
  split; [exact Hsteps|]. intros _. exists e'. split; [exact Hsteps|].
  assert (e' = snd (demo_end 0)) as E.
  { change e' with (snd (rep, c', e')). rewrite <- Hr. reflexivity. }
  clear Hr Hsteps. subst e'. split_and!; [vm_compute; reflexivity..|reflexivity|left; reflexivity].
Qed.

Lemma run_batch_safe_witness :
  stores_cover (H := plain_unicode) 5 (snd (demo_run 0 NewStores)).
Proof.
  destruct (demo_run 0 NewStores) as [[[resp err] ctx'] stores'] eqn:E.
  destruct (run_batch_safe (H := plain_unicode) "failed" "completed" None None None None demo_job
              None (demo_options 0 NewStores) resp err ctx' stores') as (_ & _ & Hcov).
  - discriminate.
  - discriminate.
  - exact new_stores_consistent.
  - exact demo_job_obeys.
  - exact E.
  - apply Hcov. transitivity (rr_Status (fst (fst (fst (demo_run 0 NewStores))))).
    + by rewrite E.
    + vm_compute. reflexivity.
Defined.

Lemma demo_crash_obeys :
  job_obeys (H := plain_unicode) "completed" demo_job None (demo_options 1 NewStores).
Proof.
  unfold job_obeys. cbn zeta. intros rep c' e' Hr.
  change (demo_job Background (demo_start 1) = (rep, c', e')) in Hr.
  split; [by eapply cust_demo_job_steps; [|exact Hr]|]. intros Hst. exfalso.
  assert (rp_Status rep = rp_Status (fst (fst (demo_end 1)))) as E.
  { unfold demo_end. by rewrite Hr. }
  rewrite E in Hst. revert Hst. vm_compute. discriminate.
Qed.

Lemma writer_crash_checkpoint_witness :
  RecordingCheckpointStore_Snapshot CheckpointKey (s_Checkpoints (demo_crashed 1)) =
    Some (mkCheckpoint 2).
Proof.
  unfold demo_crashed. destruct (demo_run 1 NewStores) as [[[resp err] ctx'] stores'] eqn:E.
  assert (err = Some (Errorf "write chunk: %w" [ErrWriterCrash] [])) as ->.
  { transitivity (snd (fst (fst (demo_run 1 NewStores)))).
    - by rewrite E.
    - vm_compute. reflexivity. }
  exact (writer_crash_checkpoint (H := plain_unicode) "failed" "completed" None None None None
           demo_job None (demo_options 1 NewStores) resp _ ctx' stores' demo_crash_obeys
           eq_refl eq_refl eq_refl eq_refl eq_refl E eq_refl).
Defined.
