(* ===== verification/CustomerService.v ===== *)
(** examples/customer-migration-batch-integration/internal/customermigration/{service,scheduler}.go:
    the run lifecycle of [Service], the leader gates, the HTTP handlers and [RunScheduler]. *)
From Stdlib Require Import Ascii String.
From S2P Require Import Prelude BatchProtocol CustomerEngine.

Definition errNoActiveRun : GoError := Sentinel "customermigration.errNoActiveRun" "no active run".

(** [regexp.MustCompile("^[A-Za-z0-9_.-]{1,64}$")]. *)
Definition run_id_char (c : ascii) : bool :=
  let n := nat_of_ascii c in
  (((65 <=? n) && (n <=? 90)) || ((97 <=? n) && (n <=? 122)) || ((48 <=? n) && (n <=? 57))
   || (n =? 95) || (n =? 46) || (n =? 45))%nat.
Definition runIDPattern (s : string) : bool :=
  let cs := list_ascii_of_string s in
  (1 <=? length cs)%nat && (length cs <=? 64)%nat && forallb run_id_char cs.

Definition validateRunID (value : string) : option GoError :=
  if runIDPattern value then None else Some (Errorf "%w: %q" [ErrInvalidRunID] [FStr value]).

Record StartRequest := mkStart { sr_RunID : string; sr_CrashAfterNewWrites : Z }.
Record ScheduleRequest := mkSchedule { sc_RunID : string }.
Record CancelResponse := mkCancel { cl_Status : string; cl_ErrorCode : string }.
Record CheckpointSnapshot := mkSnapshot { cs_Valid : bool; cs_Value : Checkpoint }.
Record StatusResponse := mkStatus {
  st_Active : bool; st_LeaderHeld : bool; st_LastRejectionCode : string;
  st_Checkpoint : CheckpointSnapshot; st_MigratedIDs : list string;
  st_DeadLetters : list DeadLetter; st_Latest : option RunResponse
}.

(** The copies the Go code makes of slices; values do not alias here. *)
Fixpoint cloneReportNode (report : ReportNode) : ReportNode :=
  mkReportNode (n_Name report) (n_Status report) (n_ReadCount report) (n_WriteCount report)
    (n_FilterCount report) (n_SkipCount report) (n_RetryCount report) (n_ErrorCode report)
    (map cloneReportNode (n_Children report)).
Definition cloneRunResponse (r : RunResponse) : RunResponse :=
  mkResponse (rr_RunID r) (rr_Trigger r) (rr_Status r) (rr_Checkpoint r) (rr_ReadIDs r)
    (rr_AcceptedIDs r) (rr_NewWrittenIDs r) (rr_MigratedIDs r) (rr_DeadLetters r) (rr_Summary r)
    (cloneReportNode (rr_Report r)) (rr_ErrorCode r) (rr_ErrorMessage r) (rr_FailedPhase r)
    (rr_Diagnostics r).
Definition cloneRunResponsePtr (r : Ptr RunResponse) : Ptr RunResponse := cloneRunResponse <$> r.

(** ** The state of the service *)

(** The fields the mutex guards, and the stores the service shares with its runs. [cancelActive]
    is a cancel function or nil. *)
Record Service := mkService {
  sv_active : bool; sv_cancelActive : bool; sv_stores : Stores; sv_latest : option RunResponse;
  sv_latestReport : option ReportNode; sv_lastRejectionCode : string
}.

Definition NewService (stores : Ptr Stores) : Service :=
  mkService false false (normalize stores) None None "".

Definition with_stores (stores : Stores) (s : Service) : Service :=
  mkService (sv_active s) (sv_cancelActive s) stores (sv_latest s) (sv_latestReport s)
    (sv_lastRejectionCode s).

Definition recordRejection (code : string) (s : Service) : Service :=
  mkService (sv_active s) (sv_cancelActive s) (sv_stores s) (sv_latest s) (sv_latestReport s) code.

(** [None]: [ErrRunInProgress]. *)
Definition beginRun (s : Service) : option Service :=
  if sv_active s then None
  else Some (mkService true true (sv_stores s) (sv_latest s) (sv_latestReport s)
               (sv_lastRejectionCode s)).

Definition finishRun (response : RunResponse) (s : Service) : Service :=
  mkService false false (sv_stores s) (Some (cloneRunResponse response))
    (Some (cloneReportNode (rr_Report response)))
    (if bool_decide (rr_ErrorCode response = "") then sv_lastRejectionCode s
     else rr_ErrorCode response).

(** The response, its error, and whether the active run was told to stop. *)
Definition CancelActiveRun (s : Service) : CancelResponse * option GoError * bool * Service :=
  if negb (sv_active s) || negb (sv_cancelActive s)
  then (mkCancel "" ErrorCodeNoActiveRun, Some errNoActiveRun, false,
        recordRejection ErrorCodeNoActiveRun s)
  else (mkCancel "cancel_requested" "", None, true, s).

Definition Report_ (s : Service) : ReportNode * option GoError * Service :=
  match sv_latestReport s with
  | None => (zero_node, Some (Errorf "%w: report" [errNoActiveRun] []),
             recordRejection ErrorCodeReportNotFound s)
  | Some r => (cloneReportNode r, None, s)
  end.

Definition snapshot_of (s : Service) : CheckpointSnapshot :=
  match RecordingCheckpointStore_Snapshot CheckpointKey (s_Checkpoints (sv_stores s)) with
  | Some cp => mkSnapshot true cp
  | None => mkSnapshot false zero_checkpoint
  end.

Definition Status (leaderHeld : bool) (s : Service) : StatusResponse :=
  mkStatus (sv_active s) leaderHeld (sv_lastRejectionCode s) (snapshot_of s)
    (CustomerSink_IDs (s_Sink (sv_stores s)))
    (DeadLetterStore_Snapshot (s_DeadLetters (sv_stores s))) (cloneRunResponsePtr (sv_latest s)).

(** ** Leader gates *)

Definition RunResult : Type := RunResponse * option GoError.

(** [LeaderGate]: [RunIfLeader(ctx, run)] for a [run] that works on a state [S]. *)
Class LeaderGate (G : Type) := {
  RunIfLeader : ∀ {S}, (Ctx → S → RunResult * S) → Ctx → G → S → RunResult * G * S;
  LeaderHeld : G → bool
}.

(** [staticLeaderGate]: the state is the [held] field. *)
Definition static_RunIfLeader {S} (run : Ctx → S → RunResult * S) (ctx : Ctx) (held : bool) (s : S)
    : RunResult * bool * S :=
  match ctx_poll ctx with
  | (Some e, _) => ((zero_response, Some e), held, s)
  | (None, ctx) =>
      if held then let '(r, s) := run ctx s in (r, held, s)
      else ((zero_response, Some ErrNotLeader), held, s)
  end.
#[export] Instance static_gate : LeaderGate bool :=
  {| RunIfLeader := @static_RunIfLeader; LeaderHeld held := held |}.

Section ElectorGate.
(** [leader.Elector]: its state, and what [Campaign], [Resign] and [IsLeader] answer. *)
Context {E : Type} (Campaign Resign : E → option GoError * E) (IsLeader : E → bool).

Definition is_already_leader (e : GoError) : bool := errors_Is e "leader.ErrAlreadyLeader".
Definition is_not_leader (e : GoError) : bool := errors_Is e "leader.ErrNotLeader".

Definition add_diagnostic (d : string) (r : RunResponse) : RunResponse :=
  mkResponse (rr_RunID r) (rr_Trigger r) (rr_Status r) (rr_Checkpoint r) (rr_ReadIDs r)
    (rr_AcceptedIDs r) (rr_NewWrittenIDs r) (rr_MigratedIDs r) (rr_DeadLetters r) (rr_Summary r)
    (rr_Report r) (rr_ErrorCode r) (rr_ErrorMessage r) (rr_FailedPhase r)
    (rr_Diagnostics r ++ [d]).

(** The cleanup context is fresh: [Resign] always runs after an acquired leadership. *)
Definition elector_RunIfLeader {S} (run : Ctx → S → RunResult * S) (ctx : Ctx) (g : E) (s : S)
    : RunResult * E * S :=
  match ctx_poll ctx with
  | (Some e, _) => ((zero_response, Some e), g, s)
  | (None, ctx) =>
      let '(err, g) := Campaign g in
      match err with
      | Some e =>
          if is_already_leader e then let '(r, s) := run ctx s in (r, g, s)
          else if is_not_leader e then ((zero_response, Some ErrNotLeader), g, s)
          else ((zero_response, Some e), g, s)
      | None =>
          let '(response, runErr, s) := run ctx s in
          let '(resignErr, g) := Resign g in
          match resignErr with
          | Some _ => ((add_diagnostic "leader_resign_failed" response, runErr), g, s)
          | None => ((response, runErr), g, s)
          end
      end
  end.
Definition elector_gate : LeaderGate E :=
  {| RunIfLeader := @elector_RunIfLeader; LeaderHeld := IsLeader |}.
End ElectorGate.

(** ** HTTP data *)

(** [c.ShouldBindJSON] on a body limited to [maxRequestBodyBytes]. *)
Inductive Bound (A : Type) := BoundTo (a : A) | BodyTooLarge | BodyInvalid.
Arguments BoundTo {A}.
Arguments BodyTooLarge {A}.
Arguments BodyInvalid {A}.

Definition maxRequestBodyBytes : Z := 8192.

Inductive HttpBody :=
  | BodyRun (r : RunResponse) | BodyError (code message : string) | BodyCancel (r : CancelResponse)
  | BodyStatus (r : StatusResponse) | BodyReport (r : ReportNode) | BodyOk.
Definition HttpResponse : Type := Z * HttpBody.

(** ** Operations *)

Section Operations.
Context `{GoUnicode} (StatusFailed StatusCompleted StatusCancelled : string).
Context (RetryErrors SkipErrors NewStep NewJob : option GoError).
Context (jobRun : Ctx → CustomerEng → Report * Ctx * CustomerEng).
(** The [BeforeRun] hook; it may cancel the run's context. *)
Context (beforeRun : option (Ctx → Ctx)).
Context {G : Type} `{LeaderGate G}.

Definition validationResponse (runID trigger code : string) (s : Service) : RunResponse :=
  mkResponse runID trigger
    (if bool_decide (code = ErrorCodeRequestCancelled) then StatusCancelled else StatusFailed)
    zero_checkpoint [] [] [] (CustomerSink_IDs (s_Sink (sv_stores s)))
    (DeadLetterStore_Snapshot (s_DeadLetters (sv_stores s)))
    (mkSummary 0 0 0 0 0 0 DefaultChunkSize true) zero_node code (publicMessage code)
    "validation" [].

(** [RunBatch(runCtx, options)] on the service's stores. *)
Definition batch (ctx : Ctx) (runID trigger : string) (crash : Z) (s : Service)
    : RunResult * Service :=
  let '(response, err, _, stores) :=
    RunBatch StatusFailed StatusCompleted RetryErrors SkipErrors NewStep NewJob jobRun (Some ctx)
      (mkRunOptions runID trigger (Some (sv_stores s)) crash None) in
  ((response, err), with_stores stores s).

(** [Service.run] without interference: begin, run and finish. *)
Definition run (runID trigger : string) (crash : Z) (ctx : Ctx) (s : Service)
    : RunResult * Service :=
  match beginRun s with
  | None =>
      ((validationResponse runID trigger ErrorCodeRunInProgress s, Some ErrRunInProgress),
       recordRejection ErrorCodeRunInProgress s)
  | Some s =>
      let ctx := match beforeRun with Some f => f ctx | None => ctx end in
      let '((response, err), s) := batch ctx runID trigger crash s in
      ((response, err), finishRun response s)
  end.

Definition StartManual (ctx : option Ctx) (request : StartRequest) (s : Service)
    : RunResult * Service :=
  let runID := TrimSpace (sr_RunID request) in
  match validateRunID runID with
  | Some e => ((validationResponse runID TriggerManual ErrorCodeInvalidRunID s, Some e), s)
  | None =>
      match validateCrashAfter (sr_CrashAfterNewWrites request) with
      | Some e =>
          ((validationResponse runID TriggerManual ErrorCodeInvalidCrashAfter s, Some e), s)
      | None =>
          run runID TriggerManual (sr_CrashAfterNewWrites request) (normalizeContext ctx) s
      end
  end.

Definition tick_code (e : GoError) : string :=
  if is_cancelled e then ErrorCodeRequestCancelled
  else if is_err e "customermigration.ErrNotLeader" || is_not_leader e then ErrorCodeNotLeader
  else errorCodeFor (Some e).

Definition with_status (status : string) (r : RunResponse) : RunResponse :=
  mkResponse (rr_RunID r) (rr_Trigger r) status (rr_Checkpoint r) (rr_ReadIDs r)
    (rr_AcceptedIDs r) (rr_NewWrittenIDs r) (rr_MigratedIDs r) (rr_DeadLetters r) (rr_Summary r)
    (rr_Report r) (rr_ErrorCode r) (rr_ErrorMessage r) (rr_FailedPhase r) (rr_Diagnostics r).

Definition RunScheduledTick (ctx : Ctx) (request : ScheduleRequest) (gs : G * Service)
    : RunResult * (G * Service) :=
  let '(g, s) := gs in
  let runID := TrimSpace (sc_RunID request) in
  match validateRunID runID with
  | Some e => ((validationResponse runID TriggerSchedule ErrorCodeInvalidRunID s, Some e), (g, s))
  | None =>
      let '((response, err), g, s) := RunIfLeader (run runID TriggerSchedule 0) ctx g s in
      match err with
      | None => ((response, None), (g, s))
      | Some e =>
          let code := tick_code e in
          let s := recordRejection code s in
          let response := validationResponse runID TriggerSchedule code s in
          let response := if bool_decide (code = ErrorCodeRequestCancelled)
                          then with_status StatusCancelled response else response in
          ((response, Some e), (g, s))
      end
  end.

(** ** HTTP handlers *)

Definition writeError (status : Z) (code : string) : HttpResponse :=
  (status, BodyError code (publicMessage code)).

Definition with_error (code message : string) (r : RunResponse) : RunResponse :=
  mkResponse (rr_RunID r) (rr_Trigger r) (rr_Status r) (rr_Checkpoint r) (rr_ReadIDs r)
    (rr_AcceptedIDs r) (rr_NewWrittenIDs r) (rr_MigratedIDs r) (rr_DeadLetters r) (rr_Summary r)
    (rr_Report r) code message (rr_FailedPhase r) (rr_Diagnostics r).

Definition code_in (code : string) (codes : list string) : bool := bool_decide (code ∈ codes).

Definition writeRunResponse (result : RunResult) : HttpResponse :=
  let '(response, err) := result in
  match err with
  | None => (200, BodyRun response)
  | Some e =>
      let code := rr_ErrorCode response in
      if code_in code [ErrorCodeInvalidRunID; ErrorCodeInvalidCrashAfter; ErrorCodeInvalidRequest]
      then (400, BodyRun response)
      else if code_in code [ErrorCodeRequestCancelled] then (408, BodyRun response)
      else if code_in code [ErrorCodeNotLeader; ErrorCodeRunInProgress; ErrorCodeWriterCrash;
                            ErrorCodeTransientCustomer; ErrorCodePermanentCustomer]
      then (409, BodyRun response)
      else if is_cancelled e
      then (408, BodyRun (with_error ErrorCodeRequestCancelled
                            (publicMessage ErrorCodeRequestCancelled) response))
      else (409, BodyRun response)
  end.

(** [bindJSON]: the error response, or the request. *)
Definition bindJSON {A} (body : Bound A) : HttpResponse + A :=
  match body with
  | BoundTo a => inr a
  | BodyTooLarge => inl (writeError 413 ErrorCodeRequestTooLarge)
  | BodyInvalid => inl (writeError 400 ErrorCodeInvalidRequest)
  end.

(** The routes of [NewRouter]. *)
Inductive HttpRequest :=
  | GetHealthz
  | PostStart (ctx : Ctx) (body : Bound StartRequest)
  | PostTick (ctx : Ctx) (body : Bound ScheduleRequest)
  | PostCancel (body : Bound string)
  | GetStatus
  | GetReport.

Definition handle (request : HttpRequest) (gs : G * Service) : HttpResponse * (G * Service) :=
  let '(g, s) := gs in
  match request with
  | GetHealthz => ((200, BodyOk), gs)
  | PostStart ctx body =>
      match bindJSON body with
      | inl r => (r, gs)
      | inr req => let '(result, s) := StartManual (Some ctx) req s in
                   (writeRunResponse result, (g, s))
      end
  | PostTick ctx body =>
      match bindJSON body with
      | inl r => (r, gs)
      | inr req => let '(result, gs) := RunScheduledTick ctx req gs in
                   (writeRunResponse result, gs)
      end
  | PostCancel body =>
      match bindJSON body with
      | inl r => (r, gs)
      | inr _ =>
          let '(response, err, _, s) := CancelActiveRun s in
          match err with
          | Some _ => (writeError 404 ErrorCodeNoActiveRun, (g, s))
          | None => ((202, BodyCancel response), (g, s))
          end
      end
  | GetStatus => ((200, BodyStatus (Status (LeaderHeld g) s)), gs)
  | GetReport =>
      let '(report, err, s) := Report_ s in
      match err with
      | Some _ => (writeError 404 ErrorCodeReportNotFound, (g, s))
      | None => ((200, BodyReport report), (g, s))
      end
  end.

(** ** Scheduler *)

(** What the [select] of [RunScheduler] takes next. *)
Inductive SchedulerEvent := TickReceived | TicksClosed | CtxDone (cause : CtxCause).

(** [fmt.Sprintf("%s-%03d", prefix, round)]. *)
Definition pad3 (n : nat) : string :=
  let s := pretty (N.of_nat n) in
  (String.concat EmptyString (replicate (3 - String.length s) "0") ++ s)%string.
Definition tick_id (prefix : string) (round : nat) : string :=
  (prefix ++ "-" ++ pad3 round)%string.

(** The events are consumed until the loop returns; [None]: it is still waiting. *)
Fixpoint scheduler_loop (prefix : string) (round : nat) (ctx : Ctx) (events : list SchedulerEvent)
    (gs : G * Service) : option (option GoError) * (G * Service) :=
  match events with
  | [] => (None, gs)
  | CtxDone cause :: _ => (Some (Some (cause_error cause)), gs)
  | TicksClosed :: _ => (Some None, gs)
  | TickReceived :: events =>
      let '(_, gs) := RunScheduledTick ctx (mkSchedule (tick_id prefix round)) gs in
      scheduler_loop prefix (S round) ctx events gs
  end.

Definition RunScheduler (ctx : Ctx) (service : Ptr (G * Service)) (events : list SchedulerEvent)
    (runIDPrefix : string) : option (option GoError) * Ptr (G * Service) :=
  match service with
  | None => (Some (Some (plain_error "service must not be nil")), None)
  | Some gs =>
      let prefix := if bool_decide (runIDPrefix = "") then "scheduled" else runIDPrefix in
      let '(r, gs) := scheduler_loop prefix 1 ctx events gs in (r, Some gs)
  end.
End Operations.

(** ** Copies *)

Lemma cloneReportNode_id report : cloneReportNode report = report.
Proof.
  revert report. fix IH 1. intros [n st r w f sk rt ec children]. cbn. f_equal.
  induction children as [|c cs IHcs]; [done|]. cbn. by rewrite IH, IHcs.
Qed.

Lemma cloneRunResponse_id r : cloneRunResponse r = r.
Proof. destruct r. unfold cloneRunResponse. cbn. by rewrite cloneReportNode_id. Qed.

(** ** Interleavings of requests *)

(** A call of [Service.run] between [beginRun] and [finishRun]. *)
Inductive Flight :=
  | Begun (runID trigger : string) (crash : Z)
  | Ran (response : RunResponse).

Record World := mkWorld { wd_service : Service; wd_flights : list Flight; wd_panicked : bool }.

Section Interleaving.
Context `{GoUnicode} (StatusFailed StatusCompleted : string).
Context (RetryErrors SkipErrors NewStep NewJob : option GoError).
Context (jobRun : Ctx → CustomerEng → Report * Ctx * CustomerEng).

Abbreviation batch :=
  (batch StatusFailed StatusCompleted RetryErrors SkipErrors NewStep NewJob jobRun).

(** What concurrent handlers can do to the service: each step is one critical section, or the
    batch itself, whose context other requests may have cancelled. A panic of the [BeforeRun] hook
    unwinds [Service.run], which only releases the context, and is recovered by the router. *)
Inductive service_step : World → World → Prop :=
  | st_begin s fs b s' runID trigger crash :
      beginRun s = Some s' → validateCrashAfter crash = None →
      service_step (mkWorld s fs b) (mkWorld s' (fs ++ [Begun runID trigger crash]) b)
  | st_rejected s fs b code :
      service_step (mkWorld s fs b) (mkWorld (recordRejection code s) fs b)
  | st_batch s fs1 fs2 b runID trigger crash ctx response err s' :
      batch ctx runID trigger crash s = ((response, err), s') →
      service_step (mkWorld s (fs1 ++ Begun runID trigger crash :: fs2) b)
        (mkWorld s' (fs1 ++ Ran response :: fs2) b)
  | st_finish s fs1 fs2 b response :
      service_step (mkWorld s (fs1 ++ Ran response :: fs2) b)
        (mkWorld (finishRun response s) (fs1 ++ fs2) b)
  | st_panic s fs1 fs2 b runID trigger crash :
      service_step (mkWorld s (fs1 ++ Begun runID trigger crash :: fs2) b)
        (mkWorld s (fs1 ++ fs2) true)
  | st_cancel s fs b :
      service_step (mkWorld s fs b) (mkWorld (snd (CancelActiveRun s)) fs b)
  | st_report s fs b :
      service_step (mkWorld s fs b) (mkWorld (snd (Report_ s)) fs b).

Definition service_steps := rtc service_step.

Lemma batch_active ctx runID trigger crash s r s' :
  batch ctx runID trigger crash s = (r, s') →
  sv_active s' = sv_active s ∧ sv_cancelActive s' = sv_cancelActive s ∧
  sv_latest s' = sv_latest s ∧ sv_lastRejectionCode s' = sv_lastRejectionCode s.
Proof.
  unfold CustomerService.batch. intros Hr. destruct (RunBatch _ _ _ _ _ _ _ _ _) as [[[? ?] ?] ?].
  by simplify_eq.
Qed.

(** The lock discipline: [active] is set exactly while a run is in flight, unless one panicked. *)
Definition flight_inv (w : World) : Prop :=
  (length (wd_flights w) ≤ 1)%nat ∧
  (wd_flights w ≠ [] → sv_active (wd_service w) = true) ∧
  (sv_active (wd_service w) = true → wd_flights w ≠ [] ∨ wd_panicked w = true) ∧
  sv_cancelActive (wd_service w) = sv_active (wd_service w).

Lemma cancel_active s :
  sv_active (snd (CancelActiveRun s)) = sv_active s ∧
  sv_cancelActive (snd (CancelActiveRun s)) = sv_cancelActive s.
Proof. unfold CancelActiveRun. by destruct (_ || _). Qed.
Lemma report_active s :
  sv_active (snd (Report_ s)) = sv_active s ∧
  sv_cancelActive (snd (Report_ s)) = sv_cancelActive s.
Proof. unfold Report_. by destruct (sv_latestReport s). Qed.

Lemma flight_inv_step w w' : flight_inv w → service_step w w' → flight_inv w'.
Proof.
  unfold flight_inv. intros (Hlen & Hact & Hpan & Hcan) Hstep. destruct Hstep; cbn in *.
  - unfold beginRun in *. destruct (sv_active s) eqn:E; [done|]. simplify_eq/=.
    assert (fs = []) as -> by (destruct fs; [done|]; by specialize (Hact ltac:(done))).
    cbn. split_and!; [lia|done|by left|done].
  - by split_and!.
  - apply batch_active in H0 as (-> & -> & _). rewrite !length_app in *. cbn in *.
    split_and!; [lia|intros _; apply Hact; by destruct fs1| |done].
    intros Ha. left. by destruct fs1.
  - rewrite length_app in *. cbn in *. assert (fs1 = [] ∧ fs2 = []) as [-> ->].
    { destruct fs1, fs2; cbn in *; try done; lia. }
    cbn. split_and!; [lia|done|done|done].
  - rewrite length_app in *. cbn in *. assert (fs1 = [] ∧ fs2 = []) as [-> ->].
    { destruct fs1, fs2; cbn in *; try done; lia. }
    cbn. split_and!; [lia|done|by right|done].
  - destruct (cancel_active s) as [-> ->]. by split_and!.
  - destruct (report_active s) as [-> ->]. by split_and!.
Qed.

Lemma flight_inv_steps w w' : flight_inv w → service_steps w w' → flight_inv w'.
Proof. intros Hi Hs. revert Hi. induction Hs; eauto using flight_inv_step. Qed.

(** C21: one run at a time. Whatever requests interleave, at most one [Service.run] is between its
    [beginRun] and its [finishRun]; while it is, [active] is set, every other start is rejected
    and a cancel request reaches it; and when no run has panicked, [active] is set only then, so
    a cancel request without a run is answered with [no_active_run]. *)
Theorem service_single_flight stores w :
  service_steps (mkWorld (NewService stores) [] false) w →
  (length (wd_flights w) ≤ 1)%nat ∧
  (wd_flights w ≠ [] → beginRun (wd_service w) = None ∧
     fst (CancelActiveRun (wd_service w)) = (mkCancel "cancel_requested" "", None, true)) ∧
  (wd_flights w = [] → wd_panicked w = false →
     is_Some (beginRun (wd_service w)) ∧
     snd (fst (fst (CancelActiveRun (wd_service w)))) = Some errNoActiveRun).
Proof.
  intros Hs. assert (flight_inv (mkWorld (NewService stores) [] false)) as Hinit.
  { split; [cbn; lia|]. by split_and!. }
  destruct (flight_inv_steps _ w Hinit Hs) as (Hlen & Hact & Hpan & Hcan).
  unfold beginRun, CancelActiveRun. split; [done|]. split.
  - intros Hf. by rewrite Hcan, (Hact Hf).
  - intros Hf Hp. destruct (sv_active (wd_service w)) eqn:E; [|by split].
    destruct (Hpan eq_refl); [done|congruence].
Qed.

(** a run that panics takes the service with it. [run] defers only the release of the
    context, not the reset of [active]: once a run has panicked and left the service, no later
    request ever begins a run again. *)
Theorem panicked_run_blocks_service w w' :
  wd_flights w = [] → sv_active (wd_service w) = true → service_steps w w' →
  wd_flights w' = [] ∧ sv_active (wd_service w') = true ∧ beginRun (wd_service w') = None.
Proof.
  intros Hf Ha Hs. revert Hf Ha. induction Hs as [w|w w1 w' Hstep _ IH]; intros Hf Ha.
  { unfold beginRun. by rewrite Ha. }
  apply IH; destruct Hstep; cbn in *; subst; try done;
    try (unfold beginRun in *; by rewrite Ha in * );
    try (by destruct fs1).
  - by rewrite (proj1 (cancel_active s)).
  - by rewrite (proj1 (report_active s)).
Qed.
End Interleaving.

(** ** Requests *)

Section Requests.
Context `{GoUnicode} (StatusFailed StatusCompleted StatusCancelled : string).
Context (RetryErrors SkipErrors NewStep NewJob : option GoError).
Context (jobRun : Ctx → CustomerEng → Report * Ctx * CustomerEng).
Context (beforeRun : option (Ctx → Ctx)).
Context {G : Type} {LG : LeaderGate G}.

Abbreviation handle := (handle StatusFailed StatusCompleted StatusCancelled RetryErrors SkipErrors
  NewStep NewJob jobRun beforeRun).

Lemma write_run_200 response err : fst (writeRunResponse (response, err)) = 200 ↔ err = None.
Proof.
  unfold writeRunResponse. destruct err as [e|]; [|done].
  repeat case_match; split; cbn; try done; lia.
Qed.

(** every outcome of POST /batch/start with a well-formed body. An invalid run ID or crash
    setting is answered with 400 and changes nothing; a start during a run with 409, and only the
    rejection code is recorded; otherwise [RunBatch] runs on the service's stores, its response
    becomes the latest one, the service is free again, and the answer is 200 exactly when the run
    had no error. *)
Theorem post_start_outcomes ctx request g s resp g' s' :
  let runID := TrimSpace (sr_RunID request) in
  let crash := sr_CrashAfterNewWrites request in
  let valid := runIDPattern runID = true ∧ 0 <= crash <= 5 in
  handle (PostStart ctx (BoundTo request)) (g, s) = (resp, (g', s')) →
  g' = g ∧
  ((¬ valid ∧ fst resp = 400 ∧ s' = s) ∨
   (valid ∧ sv_active s = true ∧ fst resp = 409 ∧
      s' = recordRejection ErrorCodeRunInProgress s) ∨
   (valid ∧ sv_active s = false ∧ ∃ response err ctx' stores',
      RunBatch StatusFailed StatusCompleted RetryErrors SkipErrors NewStep NewJob jobRun
        (Some (match beforeRun with Some f => f ctx | None => ctx end))
        (mkRunOptions runID TriggerManual (Some (sv_stores s)) crash None) =
        (response, err, ctx', stores') ∧
      sv_stores s' = stores' ∧ sv_active s' = false ∧ sv_latest s' = Some response ∧
      resp = writeRunResponse (response, err) ∧ (fst resp = 200 ↔ err = None))).
Proof.
  cbn zeta. cbn [CustomerService.handle bindJSON]. unfold StartManual, validateRunID.
  intros Hr. destruct (runIDPattern _) eqn:Hid; cbn [negb] in Hr.
  2: { simplify_eq. split; [done|left]. split; [by intros [? _]|]. done. }
  unfold validateCrashAfter in Hr. change (len defaultRecords) with 5 in Hr.
  destruct ((_ <? 0) || _) eqn:Hcrash in Hr.
  { simplify_eq. split; [done|left]. split; [|done].
    intros [_ Hv]. rewrite Z.gtb_ltb in Hcrash.
    apply orb_true_iff in Hcrash as [?%Z.ltb_lt|?%Z.ltb_lt]; lia. }
  rewrite Z.gtb_ltb in Hcrash. apply orb_false_iff in Hcrash as [?%Z.ltb_ge ?%Z.ltb_ge].
  unfold run, beginRun in Hr. destruct (sv_active s) eqn:Ha.
  { simplify_eq. split; [done|right; left]. done. }
  unfold CustomerService.batch in Hr. cbn [normalizeContext default sv_stores] in Hr.
  destruct (RunBatch _ _ _ _ _ _ _ _ _) as [[[response err] ctx'] stores'] eqn:E.
  simplify_eq. split; [done|right; right]. split; [done|]. split; [done|].
  exists response, err, ctx', stores'. split; [done|].
  cbn. rewrite cloneRunResponse_id. split_and!; try done; apply write_run_200.
Qed.
End Requests.

(** ** Leadership *)

Section Leadership.
Context {E S : Type} (Campaign Resign : E → option GoError * E) (IsLeader : E → bool).

(** What the leader package documents: a campaign that succeeds makes the caller the leader, one
    that fails changes nothing (also when it fails because the caller leads already); a successful
    resignation gives leadership up. *)
Definition elector_laws : Prop :=
  (∀ g, match Campaign g with
        | (None, g') => IsLeader g' = true ∧ IsLeader g = false
        | (Some e, g') => IsLeader g' = IsLeader g ∧
            (is_already_leader e = true → IsLeader g = true)
        end) ∧
  (∀ g, match Resign g with
        | (None, g') => IsLeader g' = false
        | (Some _, _) => True
        end).

(** [ElectorLeaderGate.RunIfLeader] does not leak leadership. The run happens at most once,
    and not at all when the context is done or leadership is refused, in which case its state is
    untouched; afterwards the process leads exactly if it led before, unless the response carries
    the [leader_resign_failed] diagnostic. *)
Theorem elector_gate_returns_leadership (run : Ctx → S → RunResult * S) ctx g s r err g' s' :
  elector_laws →
  elector_RunIfLeader Campaign Resign run ctx g s = ((r, err), g', s') →
  (s' = s ∨ ∃ c r0, run c s = ((r0, err), s')) ∧
  (s' = s ∨ IsLeader g = true ∨ fst (Campaign g) = None) ∧
  (IsLeader g' = IsLeader g ∨ last (rr_Diagnostics r) = Some "leader_resign_failed").
Proof.
  intros [Hc Hres] Hr. unfold elector_RunIfLeader in Hr.
  destruct (ctx_poll ctx) as [[e|] c]; [simplify_eq; auto|].
  specialize (Hc g). destruct (Campaign g) as [[e|] g1] eqn:Ec.
  - destruct (is_already_leader e) eqn:Hal; [|destruct (is_not_leader e); simplify_eq; naive_solver].
    destruct (run c s) as [[r1 e1] s1] eqn:Er. simplify_eq. destruct Hc as [Hc1 Hc2].
    split_and!; [right; eauto|right; left; auto|by left].
  - destruct (run c s) as [[r1 e1] s1] eqn:Er. specialize (Hres g1). destruct Hc as [Hc1 Hc2].
    destruct (Resign g1) as [[e|] g2]; simplify_eq.
    + split_and!; [right; eauto|by right; right|right]. cbn. apply last_snoc.
    + split_and!; [right; eauto|by right; right|left]. congruence.
Qed.
End Leadership.

(** ** Concrete runs *)

Abbreviation demo_step :=
  (service_step "failed" "completed" None None None None demo_job).
Abbreviation demo_steps :=
  (service_steps "failed" "completed" None None None None demo_job).

Definition new_world : World := mkWorld (NewService None) [] false.
Definition busy_service : Service := mkService true true NewStores None None "".
Definition busy_world : World := mkWorld busy_service [Begun "run-1" TriggerManual 0] false.
Definition stuck_world : World := mkWorld busy_service [] true.

Lemma busy_reachable : demo_steps new_world busy_world.
Proof. apply rtc_once, (st_begin _ _ _ _ _ _ _ _ [] false); reflexivity. Qed.

Lemma service_single_flight_witness :
  beginRun (wd_service busy_world) = None ∧ (length (wd_flights busy_world) ≤ 1)%nat.
Proof.
  destruct (service_single_flight "failed" "completed" None None None None
              demo_job None busy_world busy_reachable) as (Hlen & Hbusy & _).
  split; [apply Hbusy; discriminate|exact Hlen].
Defined.

Lemma stuck_reachable : demo_steps new_world stuck_world.
Proof.
  eapply rtc_r; [apply busy_reachable|].
  exact (st_panic _ _ _ _ _ _ _ busy_service [] [] false "run-1" TriggerManual 0).
Qed.

Lemma panicked_run_blocks_service_witness :
  demo_steps new_world stuck_world ∧
  beginRun (snd (Report_ (wd_service stuck_world))) = None.
Proof.
  split; [exact stuck_reachable|].
  apply (panicked_run_blocks_service "failed" "completed" None None None None
           demo_job stuck_world (mkWorld (snd (Report_ busy_service)) [] true)).
  - reflexivity.
  - reflexivity.
  - apply rtc_once. exact (st_report _ _ _ _ _ _ _ busy_service [] true).
Defined.

Definition demo_request : StartRequest := mkStart " run-7 " 9.
Definition demo_handle :=
  handle "failed" "completed" "cancelled" None None None None demo_job None
    (PostStart Background (BoundTo demo_request)) (true, NewService None).

Lemma post_start_outcomes_witness :
  fst (fst demo_handle) = 400 ∧ snd (snd demo_handle) = NewService None.
Proof.
  destruct demo_handle as [resp [g' s']] eqn:E.
  destruct (post_start_outcomes "failed" "completed" "cancelled"
              None None None None demo_job None Background demo_request true (NewService None)
              resp g' s' E) as [_ [(_ & Hs & ->)|[((_ & Hc) & _)|((_ & Hc) & _)]]].
  - by split.
  - cbn in Hc. lia.
  - cbn in Hc. lia.
Defined.

Definition demo_campaign (held : bool) : option GoError * bool :=
  if held then (Some (Sentinel "leader.ErrAlreadyLeader" "already leader"), true) else (None, true).
Definition demo_resign (held : bool) : option GoError * bool := (None, false).

Lemma elector_gate_returns_leadership_witness :
  let '((r, err), held, runs) :=
    elector_RunIfLeader demo_campaign demo_resign
      (λ _ (runs : nat), ((zero_response, None), S runs)) Background false 0%nat in
  runs = 1%nat ∧ (held = false ∨ last (rr_Diagnostics r) = Some "leader_resign_failed").
Proof.
  split; [reflexivity|].
  apply (elector_gate_returns_leadership demo_campaign demo_resign (λ held, held)
           (λ _ (runs : nat), ((zero_response, None), S runs)) Background false 0%nat
           zero_response None false 1%nat).
  - split; intros []; cbn; auto.
  - reflexivity.
Defined.
