(* ===== verification/GraphLib.v ===== *)
(** The graph library (bluetape-go/graph) as the graph examples see it, and the order in which Go
    iterates over maps. Both are code outside the repository: the library is an interface, the
    iteration order an oracle about which only the language's promise is assumed. *)
From S2P Require Export Prelude.

(** A property value, as type assertions to [string] and [int] tell it apart. *)
Inductive PropVal := PStr (s : string) | PInt (z : Z) | POther (type_name : string).
Definition Properties : Type := gmap string PropVal.

Definition prop_string (props : Properties) (key : string) : option string :=
  match props !! key with Some (PStr s) => Some s | _ => None end.

(** Vertices and edges with their accessors, all total functions of the value. *)
Class GraphLib := {
  Vertex : Type;
  Edge : Type;
  v_Validate : Vertex → option GoError;
  v_ID : Vertex → string;
  v_Label : Vertex → string;
  v_Properties : Vertex → Properties;
  e_Validate : Edge → option GoError;
  e_ID : Edge → string;
  e_Label : Edge → string;
  e_StartID : Edge → string;
  e_EndID : Edge → string;
  e_Properties : Edge → Properties;
  ParseVertex : string → string → Properties → GoError + Vertex;
  ParseEdge : string → string → string → string → Properties → GoError + Edge
}.

(** What the documentation promises of the constructors: the value carries what it was made of and
    is valid. *)
Class GraphLibLaws `{GraphLib} : Prop := {
  parse_vertex_law id label props v :
    ParseVertex id label props = inr v →
    v_Validate v = None ∧ v_ID v = id ∧ v_Label v = label ∧ v_Properties v = props;
  parse_edge_law id label start fin props e :
    ParseEdge id label start fin props = inr e →
    e_Validate e = None ∧ e_ID e = id ∧ e_Label e = label ∧ e_StartID e = start ∧
    e_EndID e = fin ∧ e_Properties e = props
}.

(** Paths of the library: alternating steps; and the zero value of its vertex type. *)
Class GraphPaths `{GraphLib} := {
  PathStep : Type;
  Path : Type;
  zero_Vertex : Vertex;
  VertexStep : Vertex → GoError + PathStep;
  EdgeStep : Edge → GoError + PathStep;
  NewPath : list PathStep → GoError + Path
}.

(** The library validates the values and the shape of a path, not its edges' endpoints: a step of a
    valid value exists, and steps of alternating vertices and edges form a path. *)
Fixpoint path_shape {V E : Type} (values : list (V + E)) : bool :=
  match values with
  | [inl _] => true
  | inl _ :: inr _ :: values => path_shape values
  | _ => false
  end.
Class GraphPathsLaws `{GraphPaths} : Prop := {
  vertex_step_law v : v_Validate v = None → ∃ s, VertexStep v = inr s;
  edge_step_law e : e_Validate e = None → ∃ s, EdgeStep e = inr s;
  new_path_law (values : list (Vertex + Edge)) steps :
    path_shape values = true →
    Forall2 (λ v s, match v with inl v => VertexStep v | inr e => EdgeStep e end = inr s) values steps →
    ∃ p, NewPath steps = inr p
}.

(** [for k, v := range m]: some order of the entries. *)
Class MapRange := {
  range : ∀ {A : Type}, gmap string A → list (string * A);
  range_perm : ∀ {A : Type} (m : gmap string A), range m ≡ₚ map_to_list m
}.

(** A plain graph library and iteration order, for concrete runs. *)
Record PlainVertex := mkVertex { pv_id : string; pv_label : string; pv_props : Properties }.
Record PlainEdge := mkEdge {
  pe_id : string; pe_label : string; pe_start : string; pe_end : string; pe_props : Properties
}.
Definition plain_graph : GraphLib := {|
  Vertex := PlainVertex;
  Edge := PlainEdge;
  v_Validate v := None;
  v_ID := pv_id;
  v_Label := pv_label;
  v_Properties := pv_props;
  e_Validate e := None;
  e_ID := pe_id;
  e_Label := pe_label;
  e_StartID := pe_start;
  e_EndID := pe_end;
  e_Properties := pe_props;
  ParseVertex id label props := inr (mkVertex id label props);
  ParseEdge id label start fin props := inr (mkEdge id label start fin props)
|}.
Lemma plain_graph_laws : GraphLibLaws (H := plain_graph).
Proof. split; cbn; intros *; intros [= <-]; by split_and!. Qed.

Definition plain_range : MapRange :=
  {| range A m := map_to_list m; range_perm A m := reflexivity _ |}.

Definition plain_paths : GraphPaths (H := plain_graph) :=
  @Build_GraphPaths plain_graph string (list string) (mkVertex "" "" ∅) (λ v : PlainVertex, inr (pv_id v))
    (λ e : PlainEdge, inr (pe_id e)) (λ steps, inr steps).
Lemma plain_paths_laws : GraphPathsLaws (H0 := plain_paths).
Proof. split; cbn; eauto. Qed.
