(* ===== verification/AbuseCluster.v ===== *)
(** examples/graph-abuse-cluster/internal/abusecluster: fixture, graph loading, component analysis,
    store and workflow. *)
From S2P Require Import Prelude GraphLib.

Definition IdentifierDevice : string := "device".
Definition IdentifierIP : string := "ip".
Definition IdentifierPaymentToken : string := "payment_token".
Definition FixtureID : string := "graph-abuse-cluster-v1".
Definition MaxVertices : Z := 256.
Definition MaxEdges : Z := 1024.

Definition ErrInvalidFixture : GoError :=
  Sentinel "abusecluster.ErrInvalidFixture" "graph abuse cluster: invalid fixture".
Definition ErrInvalidGraph : GoError :=
  Sentinel "abusecluster.ErrInvalidGraph" "graph abuse cluster: invalid graph".
Definition ErrGraphTooLarge : GoError :=
  Sentinel "abusecluster.ErrGraphTooLarge" "graph abuse cluster: graph too large".
Definition ErrConfiguration : GoError :=
  Sentinel "abusecluster.ErrConfiguration" "graph abuse cluster: invalid configuration".
Definition ErrBackend : GoError :=
  Sentinel "abusecluster.ErrBackend" "graph abuse cluster: backend operation failed".

Definition labelUser : string := "User".
Definition labelIdentifier : string := "Identifier".
Definition labelUsesIdentifier : string := "USES_IDENTIFIER".
Definition propertyOpaqueID : string := "opaque_id".
Definition propertyFixtureID : string := "fixture_id".
Definition propertyKind : string := "kind".

Record Evidence := mkEvidence {
  ev_Kind : string; ev_OpaqueID : string; ev_UserCount : Z; ev_Weight : Z
}.
Record Cluster := mkCluster {
  cl_ClusterID : string; cl_Users : list string; cl_Evidence : list Evidence; cl_RiskScore : Z
}.
Record Report := mkReport { rp_Clusters : list Cluster; rp_IsolatedUsers : list string }.

(** The reasons the analyzer gives. *)
Definition invalidGraphError (reason : string) : GoError :=
  Errorf "%w: %s" [ErrInvalidGraph] [FStr reason].
Definition invalidGraphCause (reason : string) (cause : GoError) : GoError :=
  Errorf "%w: %s: %w" [ErrInvalidGraph; cause] [FStr reason].

Definition validIdentifierKind (kind : string) : bool :=
  bool_decide (kind = IdentifierDevice) || bool_decide (kind = IdentifierIP)
  || bool_decide (kind = IdentifierPaymentToken).

Definition identifierWeight (kind : string) : Z :=
  if bool_decide (kind = IdentifierPaymentToken) then 5
  else if bool_decide (kind = IdentifierDevice) then 3
  else if bool_decide (kind = IdentifierIP) then 1
  else 0.

(** [(value, true)], or [None]. *)
Definition nonBlankString (props : Properties) (key : string) : option string :=
  match prop_string props key with
  | Some s => if bool_decide (TrimSpace s = "") then None else Some s
  | None => None
  end.

Record analyzedVertex := mkAnalyzed {
  av_backendID : string; av_opaqueID : string; av_label : string; av_kind : string
}.
Record logicalRelationship := mkLogical { lr_start : string; lr_end : string; lr_label : string }.

#[export] Instance logicalRelationship_eq_dec : EqDecision logicalRelationship.
Proof. solve_decision. Defined.
#[export] Instance logicalRelationship_countable : Countable logicalRelationship.
Proof.
  refine (inj_countable' (λ r, (lr_start r, lr_end r, lr_label r))
            (λ '(s, e, l), mkLogical s e l) _). by intros [].
Defined.

Definition is_user (v : analyzedVertex) : bool := bool_decide (av_label v = labelUser).

Section Loading.
Context `{GraphLib}.

(** ** loadVertices *)

(** The checks of the loop body that do not look at the vertices before: the analyzed vertex with
    the fixture ID it names. *)
Definition analyze_vertex (fixtureID : string) (opaqueIDs : gset string) (vertex : Vertex)
    : GoError + (analyzedVertex * string) :=
  let properties := v_Properties vertex in
  match nonBlankString properties propertyOpaqueID with
  | None => inl (invalidGraphError "invalid vertex properties")
  | Some opaqueID =>
      match nonBlankString properties propertyFixtureID with
      | None => inl (invalidGraphError "invalid vertex properties")
      | Some vertexFixtureID =>
          if negb (bool_decide (fixtureID = "")) && negb (bool_decide (vertexFixtureID = fixtureID))
          then inl (invalidGraphError "inconsistent fixture namespace")
          else if bool_decide (opaqueID ∈ opaqueIDs)
          then inl (invalidGraphError "duplicate vertex opaque id")
          else
            let label := v_Label vertex in
            if bool_decide (label = labelUser) then
              if bool_decide (size properties = 2%nat)
              then inr (mkAnalyzed (v_ID vertex) opaqueID label "", vertexFixtureID)
              else inl (invalidGraphError "invalid user properties")
            else if bool_decide (label = labelIdentifier) then
              match prop_string properties propertyKind with
              | Some kind =>
                  if bool_decide (size properties = 3%nat) && validIdentifierKind kind
                  then inr (mkAnalyzed (v_ID vertex) opaqueID label kind, vertexFixtureID)
                  else inl (invalidGraphError "invalid identifier properties")
              | None => inl (invalidGraphError "invalid identifier properties")
              end
            else inl (invalidGraphError "invalid vertex label")
      end
  end.

Fixpoint loadVertices_loop (loaded : gmap string analyzedVertex) (opaqueIDs : gset string)
    (fixtureID : string) (vertices : list Vertex)
    : GoError + (gmap string analyzedVertex * string) :=
  match vertices with
  | [] => inr (loaded, fixtureID)
  | vertex :: rest =>
      match v_Validate vertex with
      | Some e => inl (invalidGraphCause "invalid vertex" e)
      | None =>
          let backendID := v_ID vertex in
          if bool_decide (is_Some (loaded !! backendID))
          then inl (invalidGraphError "duplicate vertex id")
          else
            match analyze_vertex fixtureID opaqueIDs vertex with
            | inl e => inl e
            | inr (value, fixtureID) =>
                loadVertices_loop (<[backendID := value]> loaded)
                  ({[av_opaqueID value]} ∪ opaqueIDs) fixtureID rest
            end
      end
  end.

Definition loadVertices (vertices : list Vertex) : GoError + (gmap string analyzedVertex * string) :=
  loadVertices_loop ∅ ∅ "" vertices.

(** ** loadEdges *)

Record edgeState := mkEdgeState {
  es_adjacency : gmap string (list string); es_backendIDs : gset string;
  es_opaqueIDs : gset string; es_logicalEdges : gset logicalRelationship
}.

(** [adjacency[id] = append(adjacency[id], neighbor)]. *)
Definition link (id neighbor : string) (adjacency : gmap string (list string))
    : gmap string (list string) :=
  <[id := default [] (adjacency !! id) ++ [neighbor]]> adjacency.

Definition load_edge (vertices : gmap string analyzedVertex) (fixtureID : string) (edge : Edge)
    (s : edgeState) : GoError + edgeState :=
  match e_Validate edge with
  | Some e => inl (invalidGraphCause "invalid edge" e)
  | None =>
      let backendID := e_ID edge in
      if bool_decide (backendID ∈ es_backendIDs s) then inl (invalidGraphError "duplicate edge id")
      else if negb (bool_decide (e_Label edge = labelUsesIdentifier))
      then inl (invalidGraphError "invalid edge label")
      else
        let properties := e_Properties edge in
        match bool_decide (size properties = 2%nat), nonBlankString properties propertyOpaqueID,
              nonBlankString properties propertyFixtureID with
        | true, Some opaqueID, Some edgeFixtureID =>
            if bool_decide (fixtureID = "") || negb (bool_decide (edgeFixtureID = fixtureID))
            then inl (invalidGraphError "inconsistent fixture namespace")
            else if bool_decide (opaqueID ∈ es_opaqueIDs s)
            then inl (invalidGraphError "duplicate edge opaque id")
            else
              let startID := e_StartID edge in
              let endID := e_EndID edge in
              match vertices !! startID, vertices !! endID with
              | Some start, Some fin =>
                  if negb (bool_decide (av_label start = labelUser))
                     || negb (bool_decide (av_label fin = labelIdentifier))
                  then inl (invalidGraphError "invalid edge direction")
                  else
                    let logical := mkLogical startID endID (e_Label edge) in
                    if bool_decide (logical ∈ es_logicalEdges s)
                    then inl (invalidGraphError "duplicate logical edge")
                    else inr (mkEdgeState (link endID startID (link startID endID (es_adjacency s)))
                                ({[backendID]} ∪ es_backendIDs s) ({[opaqueID]} ∪ es_opaqueIDs s)
                                ({[logical]} ∪ es_logicalEdges s))
              | _, _ => inl (invalidGraphError "missing edge endpoint")
              end
        | _, _, _ => inl (invalidGraphError "invalid edge properties")
        end
  end.

Fixpoint load_edges (vertices : gmap string analyzedVertex) (fixtureID : string)
    (edges : list Edge) (s : edgeState) : GoError + edgeState :=
  match edges with
  | [] => inr s
  | edge :: rest =>
      match load_edge vertices fixtureID edge s with
      | inl e => inl e
      | inr s => load_edges vertices fixtureID rest s
      end
  end.

Definition zero_vertex : analyzedVertex := mkAnalyzed "" "" "" "".
(** [vertices[id]], the zero value when missing. *)
Definition vertex_at (vertices : gmap string analyzedVertex) (id : string) : analyzedVertex :=
  default zero_vertex (vertices !! id).

Definition by_opaque_id (vertices : gmap string analyzedVertex) (i j : string) : bool :=
  str_ltb (av_opaqueID (vertex_at vertices i)) (av_opaqueID (vertex_at vertices j)).

(** The last loop sorts the list of every key, in whatever order the keys come. *)
Definition loadEdges (edges : list Edge) (vertices : gmap string analyzedVertex)
    (fixtureID : string) : GoError + gmap string (list string) :=
  match load_edges vertices fixtureID edges (mkEdgeState ∅ ∅ ∅ ∅) with
  | inl e => inl e
  | inr s => inr (sort_by (by_opaque_id vertices) <$> es_adjacency s)
  end.
End Loading.

(** ** walkComponent *)

Section Components.
Context (vertices : gmap string analyzedVertex) (adjacency : gmap string (list string)).

Definition neighbors (id : string) : list string := default [] (adjacency !! id).

(** The inner loop: the neighbours not visited yet are marked and appended to the queue. *)
Fixpoint visit (ids : list string) (visited : gset string) : list string * gset string :=
  match ids with
  | [] => ([], visited)
  | id :: ids =>
      if bool_decide (id ∈ visited) then visit ids visited
      else let '(queue, visited) := visit ids ({[id]} ∪ visited) in (id :: queue, visited)
  end.

(** The state of the loop: the unread part of the queue, and the results so far. *)
Record walkState := mkWalk {
  wk_queue : list string; wk_visited : gset string; wk_users : list string;
  wk_identifiers : gset string
}.

Definition walk_step (id : string) (queue : list string) (s : walkState) : walkState :=
  let vertex := vertex_at vertices id in
  let '(found, visited) := visit (neighbors id) (wk_visited s) in
  if is_user vertex
  then mkWalk (queue ++ found) visited (wk_users s ++ [av_opaqueID vertex]) (wk_identifiers s)
  else mkWalk (queue ++ found) visited (wk_users s) ({[id]} ∪ wk_identifiers s).

Fixpoint walk (fuel : nat) (s : walkState) : walkState :=
  match fuel, wk_queue s with
  | S fuel, id :: queue => walk fuel (walk_step id queue s)
  | _, _ => s
  end.

(** One iteration per vertex is enough: see [walk_component_terminates]. *)
Definition walkComponent (start : string) (visited : gset string) : walkState :=
  walk (size vertices) (mkWalk [start] ({[start]} ∪ visited) [] ∅).

Definition distinctUserCount (backendIDs : list string) : Z :=
  Z.of_nat (size (list_to_set (C := gset string)
    (filter (λ id, is_user (vertex_at vertices id)) backendIDs))).

(** ** analyzeComponents *)

Definition evidence_for (backendID : string) : option Evidence :=
  let userCount := distinctUserCount (neighbors backendID) in
  if userCount <? 2 then None
  else
    let identifier := vertex_at vertices backendID in
    Some (mkEvidence (av_kind identifier) (av_opaqueID identifier) userCount
            (identifierWeight (av_kind identifier))).

Definition evidence_less (a b : Evidence) : bool :=
  if negb (bool_decide (ev_Kind a = ev_Kind b)) then str_ltb (ev_Kind a) (ev_Kind b)
  else str_ltb (ev_OpaqueID a) (ev_OpaqueID b).

(** The score accumulated over the evidence in the order it was found. *)
Definition risk_score (evidence : list Evidence) : Z :=
  foldl (λ score e, int_add score (ev_Weight e)) 0 evidence.

Definition cluster_less (left right : Cluster) : bool :=
  if negb (cl_RiskScore left =? cl_RiskScore right)
  then cl_RiskScore right <? cl_RiskScore left
  else if negb (len (cl_Users left) =? len (cl_Users right))
  then len (cl_Users right) <? len (cl_Users left)
  else str_ltb (default "" (head (cl_Users left))) (default "" (head (cl_Users right))).

Context `{MapRange}.

(** The keys of the identifier set, in map order. *)
Definition range_set (s : gset string) : list string :=
  map fst (range (gset_to_gmap tt s)).

Definition build_cluster (componentUsers : list string) (identifiers : gset string) : Cluster :=
  let evidence := omap evidence_for (range_set identifiers) in
  mkCluster ("cluster:" ++ default "" (head componentUsers))%string componentUsers
    (sort_by evidence_less evidence) (risk_score evidence).

Fixpoint components_loop (users : list analyzedVertex) (visited : gset string) (report : Report)
    : Report :=
  match users with
  | [] => report
  | start :: rest =>
      if bool_decide (av_backendID start ∈ visited) then components_loop rest visited report
      else
        let s := walkComponent (av_backendID start) visited in
        let componentUsers := sort_strings (wk_users s) in
        if len componentUsers <? 2
        then components_loop rest (wk_visited s)
               (mkReport (rp_Clusters report) (rp_IsolatedUsers report ++ componentUsers))
        else components_loop rest (wk_visited s)
               (mkReport (rp_Clusters report ++ [build_cluster componentUsers (wk_identifiers s)])
                  (rp_IsolatedUsers report))
  end.

Definition sorted_users : list analyzedVertex :=
  sort_by (key_less av_opaqueID) (filter (λ v, is_user v) (map snd (range vertices))).

Definition analyzeComponents : Report :=
  let report := components_loop sorted_users ∅ (mkReport [] []) in
  mkReport (sort_by cluster_less (rp_Clusters report)) (sort_strings (rp_IsolatedUsers report)).
End Components.

Definition Analyze `{GraphLib} `{MapRange} (vertices : list Vertex) (edges : list Edge)
    : GoError + Report :=
  if (len vertices >? MaxVertices) || (len edges >? MaxEdges)
  then inl (Errorf "%w: limit exceeded" [ErrGraphTooLarge] [])
  else
    match loadVertices vertices with
    | inl e => inl e
    | inr (loaded, fixtureID) =>
        match loadEdges edges loaded fixtureID with
        | inl e => inl e
        | inr adjacency => inr (analyzeComponents loaded adjacency)
        end
    end.
