(* ===== verification/AbuseFixture.v ===== *)
(** examples/graph-abuse-cluster/internal/abusecluster: the fixture with its validation, the Neo4j
    store, the workflow and the report encoding. The analyzer is in AbuseCluster. *)
From S2P Require Import Prelude GraphLib AbuseCluster.

(** ** fixture.go *)

Record identifierSpec := mkIdentifierSpec { is_opaqueID : string; is_kind : string }.
Record edgeSpec := mkEdgeSpec { sp_opaqueID : string; sp_userID : string; sp_identifierID : string }.

Definition fixtureUsers : list string :=
  ["usr-001"; "usr-002"; "usr-003"; "usr-004"; "usr-005"; "usr-006"].

Definition fixtureIdentifiers : list identifierSpec :=
  [mkIdentifierSpec "dev-001" IdentifierDevice; mkIdentifierSpec "ip-001" IdentifierIP;
   mkIdentifierSpec "pay-001" IdentifierPaymentToken; mkIdentifierSpec "dev-002" IdentifierDevice;
   mkIdentifierSpec "ip-002" IdentifierIP; mkIdentifierSpec "ip-003" IdentifierIP].

Definition fixtureEdges : list edgeSpec :=
  [mkEdgeSpec "uses-001" "usr-001" "dev-001"; mkEdgeSpec "uses-002" "usr-002" "dev-001";
   mkEdgeSpec "uses-003" "usr-002" "ip-001"; mkEdgeSpec "uses-004" "usr-003" "ip-001";
   mkEdgeSpec "uses-005" "usr-003" "pay-001"; mkEdgeSpec "uses-006" "usr-004" "dev-002";
   mkEdgeSpec "uses-007" "usr-005" "dev-002"; mkEdgeSpec "uses-008" "usr-004" "ip-002";
   mkEdgeSpec "uses-009" "usr-005" "ip-002"; mkEdgeSpec "uses-010" "usr-006" "ip-003"].

Definition fixtureBuildError (element : string) (index : Z) : GoError :=
  Errorf "%w: %s %d" [ErrInvalidFixture] [FStr element; FInt index].

Definition fixtureValidationError (element : string) (index : Z) (reason : string) : GoError :=
  Errorf "%w: %s %d: %s" [ErrInvalidFixture] [FStr element; FInt index; FStr reason].

Definition matchingStringProperty (properties : Properties) (key want : string) : bool :=
  match prop_string properties key with
  | Some value => negb (bool_decide (TrimSpace value = "")) && bool_decide (value = want)
  | None => false
  end.

Section Fixture.
Context `{GraphLib}.

Record Fixture := mkFixture { fx_ID : string; fx_Vertices : list Vertex; fx_Edges : list Edge }.

(** One iteration of the vertex loop of [ValidateFixture]: the labels by ID, or the error. *)
Definition validate_vertex (fixtureID : string) (index : Z) (vertex : Vertex)
    (vertexLabels : gmap string string) : GoError + gmap string string :=
  if bool_decide (is_Some (v_Validate vertex))
  then inl (fixtureValidationError "vertex" index "invalid value")
  else
    let id := v_ID vertex in
    if bool_decide (is_Some (vertexLabels !! id))
    then inl (fixtureValidationError "vertex" index "duplicate id")
    else
      let properties := v_Properties vertex in
      let accept := inr (<[id := v_Label vertex]> vertexLabels) in
      if bool_decide (v_Label vertex = labelUser) then
        if negb (bool_decide (size properties = 2%nat))
           || negb (matchingStringProperty properties propertyOpaqueID id)
           || negb (matchingStringProperty properties propertyFixtureID fixtureID)
        then inl (fixtureValidationError "vertex" index "invalid properties")
        else accept
      else if bool_decide (v_Label vertex = labelIdentifier) then
        let kind := prop_string properties propertyKind in
        if negb (bool_decide (size properties = 3%nat))
           || negb (matchingStringProperty properties propertyOpaqueID id)
           || negb (matchingStringProperty properties propertyFixtureID fixtureID)
           || negb (bool_decide (is_Some kind)) || negb (validIdentifierKind (default "" kind))
        then inl (fixtureValidationError "vertex" index "invalid properties")
        else accept
      else inl (fixtureValidationError "vertex" index "invalid label").

Fixpoint validate_vertices (fixtureID : string) (index : Z) (vertices : list Vertex)
    (vertexLabels : gmap string string) : GoError + gmap string string :=
  match vertices with
  | [] => inr vertexLabels
  | vertex :: rest =>
      match validate_vertex fixtureID index vertex vertexLabels with
      | inl e => inl e
      | inr vertexLabels => validate_vertices fixtureID (int_incr index) rest vertexLabels
      end
  end.

(** One iteration of the edge loop, with the sets of IDs and logical edges seen so far. *)
Definition validate_edge (fixtureID : string) (vertexLabels : gmap string string) (index : Z)
    (edge : Edge) (edgeIDs : gset string) (logicalEdges : gset logicalRelationship)
    : GoError + (gset string * gset logicalRelationship) :=
  let fail reason := inl (fixtureValidationError "edge" index reason) in
  if bool_decide (is_Some (e_Validate edge)) then fail "invalid value"
  else
    let id := e_ID edge in
    if bool_decide (id ∈ edgeIDs) then fail "duplicate id"
    else if negb (bool_decide (e_Label edge = labelUsesIdentifier)) then fail "invalid label"
    else
      let properties := e_Properties edge in
      if negb (bool_decide (size properties = 2%nat))
         || negb (matchingStringProperty properties propertyOpaqueID id)
         || negb (matchingStringProperty properties propertyFixtureID fixtureID)
      then fail "invalid properties"
      else
        match vertexLabels !! e_StartID edge, vertexLabels !! e_EndID edge with
        | Some startLabel, Some endLabel =>
            if negb (bool_decide (startLabel = labelUser))
               || negb (bool_decide (endLabel = labelIdentifier))
            then fail "invalid endpoints"
            else
              let key := mkLogical (e_StartID edge) (e_EndID edge) (e_Label edge) in
              if bool_decide (key ∈ logicalEdges) then fail "duplicate logical edge"
              else inr ({[id]} ∪ edgeIDs, {[key]} ∪ logicalEdges)
        | _, _ => fail "missing endpoint"
        end.

Fixpoint validate_edges (fixtureID : string) (vertexLabels : gmap string string) (index : Z)
    (edges : list Edge) (edgeIDs : gset string) (logicalEdges : gset logicalRelationship)
    : option GoError :=
  match edges with
  | [] => None
  | edge :: rest =>
      match validate_edge fixtureID vertexLabels index edge edgeIDs logicalEdges with
      | inl e => Some e
      | inr (edgeIDs, logicalEdges) =>
          validate_edges fixtureID vertexLabels (int_incr index) rest edgeIDs logicalEdges
      end
  end.

Definition ValidateFixture (fixture : Fixture) : option GoError :=
  if (len (fx_Vertices fixture) >? MaxVertices) || (len (fx_Edges fixture) >? MaxEdges)
  then Some (Errorf "%w: limit exceeded" [ErrGraphTooLarge] [])
  else if bool_decide (TrimSpace (fx_ID fixture) = "")
  then Some (Errorf "%w: blank id" [ErrInvalidFixture] [])
  else
    match validate_vertices (fx_ID fixture) 0 (fx_Vertices fixture) ∅ with
    | inl e => Some e
    | inr vertexLabels =>
        validate_edges (fx_ID fixture) vertexLabels 0 (fx_Edges fixture) ∅ ∅
    end.

(** [for index, x := range xs { y, err := parse(x); ... }], with the error of index [index]. *)
Fixpoint parse_all {A B} (parse : A → GoError + B) (element : string) (index : Z) (xs : list A)
    : GoError + list B :=
  match xs with
  | [] => inr []
  | x :: rest =>
      match parse x with
      | inl _ => inl (fixtureBuildError element index)
      | inr y =>
          match parse_all parse element (int_incr index) rest with
          | inl e => inl e
          | inr ys => inr (y :: ys)
          end
      end
  end.

Definition user_vertex (fixtureID opaqueID : string) : GoError + Vertex :=
  ParseVertex opaqueID labelUser
    (<[propertyOpaqueID := PStr opaqueID]> {[propertyFixtureID := PStr fixtureID]}).
Definition identifier_vertex (fixtureID : string) (spec : identifierSpec) : GoError + Vertex :=
  ParseVertex (is_opaqueID spec) labelIdentifier
    (<[propertyOpaqueID := PStr (is_opaqueID spec)]>
       (<[propertyFixtureID := PStr fixtureID]> {[propertyKind := PStr (is_kind spec)]})).
Definition uses_edge (fixtureID : string) (spec : edgeSpec) : GoError + Edge :=
  ParseEdge (sp_opaqueID spec) labelUsesIdentifier (sp_userID spec) (sp_identifierID spec)
    (<[propertyOpaqueID := PStr (sp_opaqueID spec)]> {[propertyFixtureID := PStr fixtureID]}).

Definition NewFixture (fixtureID : string) : GoError + Fixture :=
  if bool_decide (TrimSpace fixtureID = "") then inl (Errorf "%w: blank id" [ErrInvalidFixture] [])
  else
    match parse_all (user_vertex fixtureID) "vertex" 0 fixtureUsers with
    | inl e => inl e
    | inr users =>
        match parse_all (identifier_vertex fixtureID) "vertex" (len fixtureUsers)
                fixtureIdentifiers with
        | inl e => inl e
        | inr identifiers =>
            match parse_all (uses_edge fixtureID) "edge" 0 fixtureEdges with
            | inl e => inl e
            | inr edges =>
                let fixture := mkFixture fixtureID (users ++ identifiers) edges in
                match ValidateFixture fixture with
                | Some _ => inl (Errorf "%w: validation failed" [ErrInvalidFixture] [])
                | None => inr fixture
                end
            end
        end
    end.

Definition DefaultFixture : GoError + Fixture := NewFixture FixtureID.
End Fixture.

(** ** store.go *)

Definition replaceFixtureCypher : string :=
  "OPTIONAL MATCH (stale {fixture_id: $fixture_id})
WITH [node IN collect(stale) WHERE node IS NOT NULL] AS stale_nodes
FOREACH (node IN stale_nodes | DETACH DELETE node)
WITH size(stale_nodes) AS deleted
FOREACH (user IN $users |
  CREATE (:User {opaque_id: user.opaque_id, fixture_id: $fixture_id}))
FOREACH (identifier IN $identifiers |
  CREATE (:Identifier {opaque_id: identifier.opaque_id, kind: identifier.kind, fixture_id: $fixture_id}))
WITH deleted
UNWIND $edges AS edge
MATCH (user:User {opaque_id: edge.start, fixture_id: $fixture_id})
MATCH (identifier:Identifier {opaque_id: edge.end, fixture_id: $fixture_id})
CREATE (user)-[:USES_IDENTIFIER {opaque_id: edge.opaque_id, fixture_id: $fixture_id}]->(identifier)".
Definition readVerticesCypher : string :=
  "MATCH (n {fixture_id: $fixture_id}) WHERE n:User OR n:Identifier RETURN n ORDER BY elementId(n) LIMIT $limit".
Definition readEdgesCypher : string :=
  "MATCH ()-[r:USES_IDENTIFIER {fixture_id: $fixture_id}]->() RETURN r ORDER BY elementId(r) LIMIT $limit".
Definition vertexReadLimit : Z := MaxVertices + 1.
Definition edgeReadLimit : Z := MaxEdges + 1.

(** A query parameter of type [any]: a string, an int, or a list of rows; a missing property is a
    nil value of its row. *)
Inductive CypherArg :=
  | ArgStr (s : string)
  | ArgInt (z : Z)
  | ArgRows (rows : list (gmap string (option PropVal))).

(** The Neo4j client, which the repository imports: operations on its database. *)
Class Neo4jClient `{GraphLib} (DB : Type) := {
  ExecuteWrite : string → gmap string CypherArg → GoM DB unit;
  ReadVertices : string → gmap string CypherArg → string → GoM DB (list Vertex);
  ReadEdges : string → gmap string CypherArg → string → GoM DB (list Edge)
}.

(** [storeError] of a non-nil error: only the context's own errors are named besides the
    sentinel. *)
Definition storeError (err : GoError) : GoError :=
  if errors_Is err "context.Canceled" then Errorf "%w: %w" [ErrBackend; CtxCanceled] []
  else if errors_Is err "context.DeadlineExceeded"
  then Errorf "%w: %w" [ErrBackend; CtxDeadlineExceeded] []
  else ErrBackend.

Section Store.
Context `{GraphLib}.

Definition validateLoadedGraph (vertices : list Vertex) (edges : list Edge) : option GoError :=
  if (len vertices >? MaxVertices) || (len edges >? MaxEdges)
  then Some (Errorf "%w: limit exceeded" [ErrGraphTooLarge] [])
  else
    match loadVertices vertices with
    | inl e => Some e
    | inr (loaded, fixtureID) =>
        match loadEdges edges loaded fixtureID with
        | inl e => Some e
        | inr _ => None
        end
    end.

Definition user_rows (vertices : list Vertex) : list (gmap string (option PropVal)) :=
  omap (λ v, if bool_decide (v_Label v = labelUser)
             then Some {[propertyOpaqueID := Some (PStr (v_ID v))]} else None) vertices.
Definition identifier_rows (vertices : list Vertex) : list (gmap string (option PropVal)) :=
  omap (λ v, if bool_decide (v_Label v = labelUser) then None
             else if bool_decide (v_Label v = labelIdentifier)
             then Some (<[propertyOpaqueID := Some (PStr (v_ID v))]>
                          {[propertyKind := v_Properties v !! propertyKind]})
             else None) vertices.
Definition edge_rows (edges : list Edge) : list (gmap string (option PropVal)) :=
  map (λ e, <[propertyOpaqueID := Some (PStr (e_ID e))]>
              (<["start" := Some (PStr (e_StartID e))]>
                 {["end" := Some (PStr (e_EndID e))]})) edges.

Definition fixtureParameters (fixture : Fixture) : GoError + gmap string CypherArg :=
  match ValidateFixture fixture with
  | Some e => inl e
  | None =>
      inr (<["fixture_id" := ArgStr (fx_ID fixture)]>
             (<["users" := ArgRows (user_rows (fx_Vertices fixture))]>
                (<["identifiers" := ArgRows (identifier_rows (fx_Vertices fixture))]>
                   {["edges" := ArgRows (edge_rows (fx_Edges fixture))]})))
  end.

Context {DB : Type} `{!Neo4jClient DB}.

(** The result of a client call, its error passed through [storeError]. *)
Definition with_storeError {A} (m : GoM DB A) : GoM DB A :=
  λ c db, match m c db with
          | (Fail e, c, db) => (Fail (storeError e), c, db)
          | r => r
          end.

(** [*Store] and its [*neo4jgraph.Client], either of them nil; the client's state is the
    database. *)
Definition Store : Type := Ptr (Ptr DB).

(** [if s == nil || s.client == nil { return ErrBackend }] in front of a method. *)
Definition on_client {A} (m : GoM DB A) : GoM Store A :=
  λ c s, match s with
         | Some (Some db) => let '(o, c, db) := m c db in (o, c, Some (Some db))
         | _ => (Fail ErrBackend, c, s)
         end.

Definition NewStore (client : Ptr DB) : GoError + Store :=
  match client with
  | None => inl ErrBackend
  | Some db => inr (Some (Some db))
  end.

Definition Store_ReplaceFixture (fixture : Fixture) : GoM Store unit :=
  on_client
    match fixtureParameters fixture with
    | inl e => throw e
    | inr params => with_storeError (ExecuteWrite replaceFixtureCypher params)
    end.

Definition read_params (fixtureID : string) (limit : Z) : gmap string CypherArg :=
  <["fixture_id" := ArgStr fixtureID]> {["limit" := ArgInt limit]}.

Definition Store_LoadFixture (fixtureID : string) : GoM Store (list Vertex * list Edge) :=
  on_client
    (if bool_decide (TrimSpace fixtureID = "")
     then throw (Errorf "%w: blank id" [ErrInvalidFixture] [])
     else
       let! vertices := with_storeError
         (ReadVertices readVerticesCypher (read_params fixtureID vertexReadLimit) "n") in
       if len vertices >? MaxVertices
       then throw (Errorf "%w: vertex limit exceeded" [ErrGraphTooLarge] [])
       else
         let! edges := with_storeError
           (ReadEdges readEdgesCypher (read_params fixtureID edgeReadLimit) "r") in
         if len edges >? MaxEdges
         then throw (Errorf "%w: edge limit exceeded" [ErrGraphTooLarge] [])
         else
           match validateLoadedGraph vertices edges with
           | Some e => throw e
           | None => ret (vertices, edges)
           end).
End Store.

(** ** workflow.go *)

(** The interface [WorkflowBackend]; its implementation in the package is [Store]. *)
Class WorkflowBackend `{GraphLib} (B : Type) := {
  isNilWorkflowBackend : B → bool;
  ReplaceFixture : Fixture → GoM B unit;
  LoadFixture : string → GoM B (list Vertex * list Edge)
}.

#[export] Instance store_backend `{GraphLib} {DB : Type} `{!Neo4jClient DB}
    : WorkflowBackend (Store (DB := DB)) := {|
  isNilWorkflowBackend s := match s with None => true | Some _ => false end;
  ReplaceFixture := Store_ReplaceFixture;
  LoadFixture := Store_LoadFixture
|}.

Section Workflow.
Context `{GraphLib} `{MapRange} {B : Type} `{!WorkflowBackend B}.

Definition workflow_body (fixture : Fixture) : GoM B Report :=
  do! ctxErr;
  match ValidateFixture fixture with
  | Some e => throw e
  | None =>
      do! ReplaceFixture fixture;
      do! ctxErr;
      let! graph := LoadFixture (fx_ID fixture) in
      do! ctxErr;
      match Analyze (fst graph) (snd graph) with
      | inl e => throw e
      | inr report => ret report
      end
  end.

(** A nil context is refused at the first [workflowContextError]. *)
Definition Execute (ctx : option Ctx) (fixture : Fixture) (backend : B) : Outcome Report * B :=
  if isNilWorkflowBackend backend then (Fail ErrBackend, backend)
  else
    match ctx with
    | None => (Fail (Errorf "%w: nil context" [ErrConfiguration] []), backend)
    | Some c => let '(o, _, backend) := workflow_body fixture c backend in (o, backend)
    end.
End Workflow.

(** ** output.go *)

(** [EncodeReport]: the marshaler is an argument, nil when absent; nil slices and empty ones are
    the same list. *)
Definition errNilMarshalIndent : GoError :=
  Sentinel "abusecluster.errNilMarshalIndent" "graph abuse cluster: JSON marshaler unavailable".

Definition encodeReport (report : Report)
    (marshal : option (Report → string → string → GoError + string)) : GoError + string :=
  match marshal with
  | None => inl errNilMarshalIndent
  | Some marshal =>
      match marshal report "" "  " with
      | inl e => inl e
      | inr encoded => inr (encoded ++ String (Ascii.ascii_of_nat 10) "")%string
      end
  end.
