(* ===== verification/AbuseProofs.v ===== *)
(** Graph-theoretic facts about the abuse-cluster analyzer: the breadth-first walk computes
    connected components, loading does not depend on the order of its input, and the report is the
    one the graph determines. *)
From S2P Require Import Prelude GraphLib AbuseCluster.

(** ** The walk *)

Lemma visit_spec ids visited found visited' :
  visit ids visited = (found, visited') →
  NoDup found ∧ (∀ x, x ∈ found ↔ x ∈ ids ∧ x ∉ visited) ∧
  (∀ x, x ∈ visited' ↔ x ∈ visited ∨ x ∈ ids).
Proof.
  revert visited found visited'. induction ids as [|id ids IH]; intros visited found visited' H; cbn in H.
  { simplify_eq. split; [constructor|]. split; set_solver. }
  case_bool_decide as D.
  - destruct (IH _ _ _ H) as (Hnd & Hf & Hv). split; [done|]. split; intros x.
    + rewrite Hf. set_solver.
    + rewrite Hv. set_solver.
  - destruct (visit ids ({[id]} ∪ visited)) as [q v] eqn:E. simplify_eq.
    destruct (IH _ _ _ E) as (Hnd & Hf & Hv). split.
    + constructor; [|done]. rewrite Hf. set_solver.
    + split; intros x; rewrite ?elem_of_cons, ?Hf, ?Hv, elem_of_union, elem_of_singleton; clear -D;
        destruct (decide (x = id)) as [->|]; naive_solver.
Qed.

Section Walk.
Context (vertices : gmap string analyzedVertex) (adjacency : gmap string (list string)).

Abbreviation neighbors := (neighbors adjacency).

Definition linked (a b : string) : Prop := b ∈ neighbors a.
Definition connected : string → string → Prop := rtc linked.

(** What [loadEdges] guarantees of its result. *)
Class GoodAdjacency : Prop := {
  ga_sym a b : b ∈ neighbors a → a ∈ neighbors b;
  ga_dom a b : b ∈ neighbors a → is_Some (vertices !! b)
}.

Context `{GA : GoodAdjacency}.

Lemma connected_sym a b : connected a b → connected b a.
Proof.
  intros H. induction H as [|a b c Hab _ IH]; [done|].
  eapply rtc_r; [exact IH|]. by apply ga_sym.
Qed.

(** The opaque IDs of the users, and the backend IDs of the others, in a list of vertices. *)
Definition users_of (ids : list string) : list string :=
  map (λ id, av_opaqueID (vertex_at vertices id)) (filter (λ id, is_user (vertex_at vertices id)) ids).
Definition identifiers_of (ids : list string) : list string := filter (λ id, ¬ (is_user (vertex_at vertices id))) ids.

Section Invariant.
Context (start : string) (V0 : gset string).
Context (Hstart : is_Some (vertices !! start)) (Hfresh : start ∉ V0).
Context (Hclosed : ∀ a b, a ∈ V0 → linked a b → b ∈ V0).

Definition walk_inv (done : list string) (s : walkState) : Prop :=
  wk_users s = users_of done ∧
  (∀ x, x ∈ wk_identifiers s ↔ x ∈ identifiers_of done) ∧
  NoDup (done ++ wk_queue s) ∧
  (∀ x, x ∈ wk_visited s ↔ x ∈ V0 ∨ x ∈ done ++ wk_queue s) ∧
  (∀ x, x ∈ done ++ wk_queue s → (x ∉ V0) ∧ connected start x ∧ is_Some (vertices !! x)) ∧
  (∀ x y, x ∈ done → linked x y → y ∈ wk_visited s) ∧
  start ∈ done ++ wk_queue s.

Lemma walk_inv_start : walk_inv [] (mkWalk [start] ({[start]} ∪ V0) [] ∅).
Proof.
  split_and!; cbn; try done.
  - set_solver.
  - apply NoDup_singleton.
  - set_solver.
  - intros x ->%list_elem_of_singleton. split_and!; [done|apply rtc_refl|done].
  - by intros x y ?%elem_of_nil.
  - by apply list_elem_of_singleton.
Qed.

Lemma walk_inv_step done id queue s :
  walk_inv done s → wk_queue s = id :: queue →
  walk_inv (done ++ [id]) (walk_step vertices adjacency id queue s).
Proof.
  intros (Hu & Hi & Hnd & Hv & Hall & Hcl & Hst) Hq. unfold walk_step. rewrite Hq in *.
  destruct (visit (neighbors id) (wk_visited s)) as [found visited'] eqn:E.
  apply visit_spec in E as (Hfnd & Hf & Hv').
  set (s' := if is_user (vertex_at vertices id) then _ else _).
  assert (wk_queue s' = queue ++ found ∧ wk_visited s' = visited') as [Hq' Hvis']
    by (subst s'; by destruct (is_user (vertex_at vertices id))).
  assert ((done ++ [id]) ++ wk_queue s' = (done ++ id :: queue) ++ found) as Hlist
    by (rewrite Hq', <- !app_assoc; done).
  split_and!.
  - unfold users_of in *. rewrite filter_app, map_app, <- Hu. subst s'.
    rewrite filter_cons. destruct (is_user (vertex_at vertices id)); cbn; by rewrite ?app_nil_r.
  - intros x. unfold identifiers_of in *. rewrite filter_app, elem_of_app, <- Hi. subst s'.
    rewrite filter_cons. destruct (is_user (vertex_at vertices id)); cbn; set_solver.
  - rewrite Hlist. apply NoDup_app. split_and!; [done| |done].
    intros x Hx [_ Hn]%Hf. apply Hn, Hv. by right.
  - intros x. rewrite Hvis', Hlist, Hv', Hv, (elem_of_app (done ++ id :: queue) found), Hf.
    pose proof (Hv x) as Hvx. destruct (decide (x ∈ wk_visited s)); tauto.
  - rewrite Hlist. intros x [Hx|[Hx Hn]%Hf]%elem_of_app; [by apply Hall|].
    split; [intros ?; apply Hn, Hv; by left|]. split; [|by eapply ga_dom].
    eapply rtc_r; [apply (Hall id)|exact Hx]. apply elem_of_app. right. by left.
  - rewrite Hvis'. intros x y [Hx| ->%list_elem_of_singleton]%elem_of_app Hy; apply Hv'.
    + left. by eapply Hcl.
    + by right.
  - rewrite Hlist. apply elem_of_app. by left.
Qed.

Lemma walk_inv_run fuel done s :
  walk_inv done s → ∃ done', walk_inv done' (walk vertices adjacency fuel s) ∧
    (wk_queue (walk vertices adjacency fuel s) = [] ∨ length done' = (length done + fuel)%nat).
Proof.
  revert done s. induction fuel as [|fuel IH]; intros done s Hinv; cbn [walk].
  { exists done. split; [done|]. right. lia. }
  destruct (wk_queue s) as [|id queue] eqn:Hq; [exists done; auto|].
  destruct (IH _ _ (walk_inv_step _ _ _ _ Hinv Hq)) as (done' & Hinv' & Hend).
  exists done'. split; [done|]. destruct Hend as [?|Hlen]; [by left|right].
  rewrite Hlen, length_app. cbn. lia.
Qed.

(** The vertices of the component are distinct keys of the map, so that the fuel suffices. *)
Lemma walk_inv_bound done s : walk_inv done s → (length (done ++ wk_queue s) ≤ size vertices)%nat.
Proof.
  intros (_ & _ & Hnd & _ & Hall & _).
  rewrite <- (size_list_to_set (C := gset string)), <- (size_dom (D := gset string)) by done.
  apply subseteq_size. intros x Hx%elem_of_list_to_set. apply elem_of_dom. by apply Hall.
Qed.

Record is_component (comp : list string) : Prop := {
  ic_nodup : NoDup comp;
  ic_elem x : x ∈ comp ↔ connected start x;
  ic_dom x : x ∈ comp → is_Some (vertices !! x)
}.

Lemma walk_component_spec :
  let s := walkComponent vertices adjacency start V0 in
  wk_queue s = [] ∧ ∃ comp, is_component comp ∧ (∀ x, x ∈ comp → x ∉ V0) ∧
    wk_users s = users_of comp ∧ (∀ x, x ∈ wk_identifiers s ↔ x ∈ identifiers_of comp) ∧
    (∀ x, x ∈ wk_visited s ↔ x ∈ V0 ∨ x ∈ comp).
Proof.
  intros s. subst s. unfold walkComponent.
  destruct (walk_inv_run (size vertices) [] _ walk_inv_start) as (comp & Hinv & Hend).
  set (s := walk _ _ _ _) in *. pose proof (walk_inv_bound _ _ Hinv) as Hb.
  assert (wk_queue s = []) as Hq.
  { destruct Hend as [?|Hlen]; [done|]. rewrite length_app, Hlen in Hb. cbn in Hb.
    apply nil_length_inv. lia. }
  split; [done|]. destruct Hinv as (Hu & Hi & Hnd & Hv & Hall & Hcl & Hst).
  rewrite Hq, app_nil_r in *. exists comp. split; [|split_and!; [by apply Hall|done..]].
  split; [done| |by apply Hall]. intros x. split; [by apply Hall|].
  revert x. apply (rtc_ind_r (λ x, x ∈ comp)); [done|]. intros y z Hxy Hyz IH.
  specialize (Hcl _ _ IH Hyz). apply Hv in Hcl as [Hz|?]; [|done].
  destruct (Hall y IH) as [Hy _]. destruct Hy. eapply Hclosed; [exact Hz|by apply ga_sym].
Qed.
End Invariant.

Lemma walk_done fuel s : wk_queue s = [] → walk vertices adjacency fuel s = s.
Proof. intros Hq. destruct fuel; cbn; [done|]. by rewrite Hq. Qed.

Lemma walk_add m n s :
  walk vertices adjacency (m + n) s = walk vertices adjacency n (walk vertices adjacency m s).
Proof.
  revert s. induction m as [|m IH]; intros s; [done|]. cbn [walk Nat.add].
  destruct (wk_queue s) eqn:E; [by rewrite walk_done|apply IH].
Qed.

(** ** The loop over the users *)

(** The walks the loop makes, in order. *)
Fixpoint walks (users : list analyzedVertex) (visited : gset string) : list walkState :=
  match users with
  | [] => []
  | start :: rest =>
      if bool_decide (av_backendID start ∈ visited) then walks rest visited
      else let s := walkComponent vertices adjacency (av_backendID start) visited in
           s :: walks rest (wk_visited s)
  end.

Definition small (s : walkState) : bool := len (sort_strings (wk_users s)) <? 2.

Lemma components_loop_walks `{MapRange} users visited report :
  components_loop vertices adjacency users visited report =
    mkReport
      (rp_Clusters report ++
       map (λ s, build_cluster vertices adjacency (sort_strings (wk_users s)) (wk_identifiers s))
         (filter (λ s, small s = false) (walks users visited)))
      (rp_IsolatedUsers report ++
       concat (map (λ s, sort_strings (wk_users s))
                 (filter (λ s, small s = true) (walks users visited)))).
Proof.
  revert visited report. induction users as [|u us IH]; intros visited report; cbn.
  { destruct report. cbn. by rewrite !app_nil_r. }
  case_bool_decide; [by apply IH|]. set (s := walkComponent _ _ _ _).
  rewrite !filter_cons. fold (small s). destruct (small s) eqn:E.
  - rewrite decide_False, decide_True by done. rewrite IH. cbn. by rewrite <- app_assoc.
  - rewrite decide_True, decide_False by done. rewrite IH. cbn. by rewrite <- app_assoc.
Qed.

(** A walk of the loop and the component it found. *)
Definition walked (s : walkState) (comp : list string) : Prop :=
  wk_queue s = [] ∧
  wk_users s = users_of comp ∧ (∀ x, x ∈ wk_identifiers s ↔ x ∈ identifiers_of comp) ∧
  NoDup comp ∧ (∀ x, x ∈ comp → is_Some (vertices !! x)) ∧
  ∀ x, x ∈ comp → ∀ y, y ∈ comp ↔ connected x y.

Lemma walks_spec users visited :
  Forall (λ u, vertices !! av_backendID u = Some u) users →
  (∀ a b, a ∈ visited → linked a b → b ∈ visited) →
  ∃ comps, Forall2 walked (walks users visited) comps ∧ NoDup (concat comps) ∧
    (∀ x, x ∈ concat comps → x ∉ visited) ∧
    (∀ u, u ∈ users → av_backendID u ∈ visited ∨ av_backendID u ∈ concat comps).
Proof.
  intros Hus. revert visited. induction Hus as [|u us Hu _ IH]; intros visited Hcl; cbn [walks].
  { exists []. split_and!; [constructor|constructor|..]; set_solver. }
  case_bool_decide as D.
  { destruct (IH visited Hcl) as (comps & H1 & H2 & H3 & H4). exists comps.
    split_and!; [done..|]. intros v [->|Hv]%elem_of_cons; [by left|by apply H4]. }
  destruct (walk_component_spec (av_backendID u) visited) as (Hq & comp & Hc & Hfr & Hu' & Hi & Hv);
    [by eauto|done|done|].
  set (s := walkComponent _ _ _ _) in *.
  destruct (IH (wk_visited s)) as (comps & H1 & H2 & H3 & H4).
  { intros a b [Ha|Ha]%Hv Hab; apply Hv; [left; by eapply Hcl|right].
    apply (ic_elem _ _ Hc). eapply rtc_r; [by apply (ic_elem _ _ Hc)|done]. }
  exists (comp :: comps). split_and!.
  - constructor; [|done]. split_and!; [done..|apply Hc|apply Hc|].
    intros x Hx y. rewrite (ic_elem _ _ Hc). apply (ic_elem _ _ Hc) in Hx. split; intros Hy.
    + etrans; [by apply connected_sym|done].
    + by etrans.
  - cbn. apply NoDup_app. split_and!; [apply Hc| |done].
    intros x Hx Hx'. apply (H3 x Hx'). apply Hv. by right.
  - cbn. intros x [Hx|Hx]%elem_of_app; [by apply Hfr|].
    intros Hx'. apply (H3 x Hx). apply Hv. by left.
  - cbn. intros v [->|Hin]%elem_of_cons.
    + right. apply elem_of_app. left. apply (ic_elem _ _ Hc). apply rtc_refl.
    + destruct (H4 v Hin) as [[?|?]%Hv|?]; [by left|right..]; apply elem_of_app; auto.
Qed.

(** ** The report *)

(** What [loadVertices] guarantees of its result. *)
Class GoodVertices : Prop := {
  gv_key k v : vertices !! k = Some v → av_backendID v = k;
  gv_opaque k1 k2 v1 v2 :
    vertices !! k1 = Some v1 → vertices !! k2 = Some v2 → av_opaqueID v1 = av_opaqueID v2 → k1 = k2
}.
Context `{GV : GoodVertices} `{MR : MapRange}.

Definition is_user_id (x : string) : Prop := ∃ v, vertices !! x = Some v ∧ is_user v = true.

Lemma vertex_at_some x v : vertices !! x = Some v → vertex_at vertices x = v.
Proof. unfold vertex_at. by intros ->. Qed.

Lemma users_of_elem ids o :
  o ∈ users_of ids ↔
  ∃ x, x ∈ ids ∧ is_user (vertex_at vertices x) = true ∧ av_opaqueID (vertex_at vertices x) = o.
Proof.
  unfold users_of. rewrite list_elem_of_fmap. setoid_rewrite list_elem_of_filter.
  split.
  - intros (x & -> & Hu & Hx). exists x. split_and!; [done|by apply Is_true_true|done].
  - intros (x & Hx & Hu & <-). exists x. split_and!; [done|by apply Is_true_true|done].
Qed.

Lemma sorted_users_good : Forall (λ u, vertices !! av_backendID u = Some u) (sorted_users vertices).
Proof.
  apply Forall_forall. intros u Hu. unfold sorted_users in Hu.
  rewrite elem_of_sort_by in Hu. apply list_elem_of_filter in Hu as [_ Hu].
  apply list_elem_of_fmap in Hu as ([k v] & -> & Hin). rewrite range_perm in Hin.
  apply elem_of_map_to_list in Hin. cbn. by rewrite (gv_key _ _ Hin).
Qed.

Lemma elem_of_sorted_users x v :
  vertices !! x = Some v → is_user v = true → v ∈ sorted_users vertices.
Proof.
  intros Hx Hv. unfold sorted_users. rewrite elem_of_sort_by. apply list_elem_of_filter.
  split; [by rewrite Hv|]. apply list_elem_of_fmap. exists (x, v). split; [done|].
  rewrite range_perm. by apply elem_of_map_to_list.
Qed.

(** The walks of the analysis with their components. *)
Lemma analysis_walks :
  ∃ comps, Forall2 walked (walks (sorted_users vertices) ∅) comps ∧ NoDup (concat comps) ∧
    ∀ x, is_user_id x → x ∈ concat comps.
Proof.
  destruct (walks_spec (sorted_users vertices) ∅ sorted_users_good) as (comps & H1 & H2 & _ & H4).
  { intros a b Ha. by apply elem_of_empty in Ha. }
  exists comps. split_and!; [done..|]. intros x (v & Hx & Hv).
  destruct (H4 v (elem_of_sorted_users _ _ Hx Hv)) as [Hin|Hin];
    rewrite (gv_key _ _ Hx) in Hin; [by apply elem_of_empty in Hin|done].
Qed.

Definition user_vertices : list analyzedVertex :=
  filter (λ v, is_user v) (map snd (map_to_list vertices)).

Lemma users_of_concat comps : concat (map users_of comps) = users_of (concat comps).
Proof.
  induction comps as [|c cs IH]; [done|]. cbn. rewrite IH. unfold users_of.
  by rewrite filter_app, map_app.
Qed.

Lemma elem_of_user_ids x : x ∈ map av_backendID user_vertices ↔ is_user_id x.
Proof.
  unfold user_vertices. rewrite list_elem_of_fmap. setoid_rewrite list_elem_of_filter. split.
  - intros (v & -> & Hu & Hv). apply list_elem_of_fmap in Hv as ([k v'] & -> & Hin).
    apply elem_of_map_to_list in Hin. cbn in *. rewrite (gv_key _ _ Hin).
    exists v'. split; [done|by apply Is_true_true].
  - intros (v & Hx & Hu). exists v. split; [symmetry; by apply gv_key|].
    split; [by apply Is_true_true|]. apply list_elem_of_fmap. exists (x, v).
    split; [done|by apply elem_of_map_to_list].
Qed.

Lemma keys_of_values :
  map av_backendID (map snd (map_to_list vertices)) = map fst (map_to_list vertices).
Proof.
  rewrite map_map. apply map_ext_in. intros [k v] Hin%list_elem_of_In%elem_of_map_to_list.
  by apply gv_key.
Qed.

Lemma user_vertices_nodup : NoDup (map av_backendID user_vertices).
Proof.
  unfold user_vertices. apply (sublist_NoDup _ (map av_backendID (map snd (map_to_list vertices)))).
  - rewrite keys_of_values. apply NoDup_fst_map_to_list.
  - apply (fmap_sublist av_backendID (filter _ _) (map snd _)), sublist_filter.
Qed.

Lemma concat_dom comps ws x :
  Forall2 walked ws comps → x ∈ concat comps → is_Some (vertices !! x).
Proof.
  intros Hw Hx. induction Hw as [|s c ss cs (_ & _ & _ & _ & Hdom & _) _ IH]; cbn in Hx.
  - by apply elem_of_nil in Hx.
  - apply elem_of_app in Hx as [?|?]; auto.
Qed.

(** The users of the report are the users of the graph, each once. *)
Lemma report_users :
  let report := analyzeComponents vertices adjacency in
  concat (map cl_Users (rp_Clusters report)) ++ rp_IsolatedUsers report ≡ₚ
    map av_opaqueID user_vertices.
Proof.
  cbn zeta. unfold analyzeComponents. rewrite components_loop_walks.
  cbn [rp_Clusters rp_IsolatedUsers app].
  set (ws := walks _ _). unfold sort_strings at 2. rewrite !sort_by_perm, map_map.
  cbn [cl_Users build_cluster].
  assert (∀ l : list walkState,
    concat (map (λ s, sort_strings (wk_users s)) (filter (λ s, small s = false) l)) ++
    concat (map (λ s, sort_strings (wk_users s)) (filter (λ s, small s = true) l)) ≡ₚ
    concat (map wk_users l)) as Hsplit.
  { clear. induction l as [|s l IH]; [done|]. rewrite !filter_cons.
    pose proof (sort_by_perm str_ltb (wk_users s)) as Hs. fold (sort_strings (wk_users s)) in Hs.
    destruct (small s) eqn:E; cbn; rewrite <- IH, <- Hs.
    - rewrite decide_False, decide_True by done. cbn. by rewrite Permutation_app_swap_app.
    - rewrite decide_True, decide_False by done. cbn. by rewrite <- app_assoc. }
  rewrite Hsplit. destruct analysis_walks as (comps & Hw & Hnd & Hcov). fold ws in Hw.
  assert (map wk_users ws = map users_of comps) as ->.
  { clear - Hw. induction Hw as [|s c ss cs (_ & Hu & _) _ IH]; [done|]. cbn. by rewrite Hu, IH. }
  rewrite users_of_concat. unfold users_of.
  assert (filter (λ id, is_user (vertex_at vertices id)) (concat comps) ≡ₚ
            map av_backendID user_vertices) as ->.
  { apply NoDup_Permutation; [by apply NoDup_filter|apply user_vertices_nodup|].
    intros x. rewrite list_elem_of_filter, elem_of_user_ids. split.
    - intros [Hu Hx]. apply (concat_dom comps ws _ Hw) in Hx as [v Hv].
      rewrite (vertex_at_some _ _ Hv) in Hu. exists v. split; [done|by apply Is_true_true].
    - intros Hx. split; [|by apply Hcov]. destruct Hx as (v & Hv & Hu).
      by rewrite (vertex_at_some _ _ Hv), Hu. }
  rewrite map_map. erewrite map_ext_in; [done|]. intros v Hv%list_elem_of_In.
  unfold user_vertices in Hv. apply list_elem_of_filter in Hv as [_ Hv].
  apply list_elem_of_fmap in Hv as ([k v'] & -> & Hin). apply elem_of_map_to_list in Hin. cbn.
  by rewrite (gv_key _ _ Hin), (vertex_at_some _ _ Hin).
Qed.

Abbreviation report := (analyzeComponents vertices adjacency).

Lemma elem_of_clusters c :
  c ∈ rp_Clusters report ↔
  ∃ s, s ∈ walks (sorted_users vertices) ∅ ∧ small s = false ∧
    c = build_cluster vertices adjacency (sort_strings (wk_users s)) (wk_identifiers s).
Proof.
  unfold analyzeComponents. rewrite components_loop_walks. cbn [rp_Clusters app].
  rewrite elem_of_sort_by, list_elem_of_fmap. setoid_rewrite list_elem_of_filter. naive_solver.
Qed.

Lemma opaque_unique x y vx vy :
  vertices !! x = Some vx → vertices !! y = Some vy →
  av_opaqueID vx = av_opaqueID vy → x = y.
Proof. apply gv_opaque. Qed.

(** A user is in a component when its opaque ID is among the component's users. *)
Lemma opaque_in_component s comp x v :
  walked s comp → vertices !! x = Some v → is_user v = true →
  av_opaqueID v ∈ wk_users s ↔ x ∈ comp.
Proof.
  intros (_ & -> & _ & _ & Hdom & _) Hx Hv. rewrite users_of_elem. split.
  - intros (y & Hy & Hu & Ho). destruct (Hdom y Hy) as [vy Hvy].
    rewrite (vertex_at_some _ _ Hvy) in Ho. by rewrite (opaque_unique x y v vy).
  - intros Hin. exists x. by rewrite (vertex_at_some _ _ Hx).
Qed.

Lemma two_elements {A} (l : list A) a b : a ∈ l → b ∈ l → a ≠ b → (2 ≤ length l)%nat.
Proof.
  intros Ha Hb Hab. destruct l as [|x [|y l]]; cbn; [by apply elem_of_nil in Ha| |lia].
  apply list_elem_of_singleton in Ha, Hb. congruence.
Qed.

(** Two users share a cluster exactly when a chain of shared identifiers connects them. *)
Lemma report_clusters x y vx vy :
  vertices !! x = Some vx → is_user vx = true → vertices !! y = Some vy → is_user vy = true →
  x ≠ y →
  (∃ c, c ∈ rp_Clusters report ∧ av_opaqueID vx ∈ cl_Users c ∧ av_opaqueID vy ∈ cl_Users c) ↔
  connected x y.
Proof.
  intros Hx Hux Hy Huy Hne. destruct analysis_walks as (comps & Hw & Hnd & Hcov). split.
  - intros (c & (s & Hs & _ & ->)%elem_of_clusters & H1 & H2). cbn in H1, H2.
    unfold sort_strings in H1, H2. rewrite elem_of_sort_by in H1, H2.
    apply list_elem_of_lookup in Hs as [i Hi].
    destruct (Forall2_lookup_l _ _ _ _ _ Hw Hi) as (comp & _ & Hsc).
    apply (opaque_in_component _ _ x _ Hsc Hx Hux) in H1.
    apply (opaque_in_component _ _ y _ Hsc Hy Huy) in H2.
    destruct Hsc as (_ & _ & _ & _ & _ & Hconn). by apply (Hconn x H1).
  - intros Hxy. assert (x ∈ concat comps) as Hin by (apply Hcov; by exists vx).
    apply list_elem_of_In, in_concat in Hin as (comp & Hc & Hin).
    apply list_elem_of_In in Hc, Hin. apply list_elem_of_lookup in Hc as [i Hi].
    destruct (Forall2_lookup_r _ _ _ _ _ Hw Hi) as (s & Hs & Hsc).
    assert (y ∈ comp) as Hyin by (destruct Hsc as (_ & _ & _ & _ & _ & Hconn); by apply (Hconn x Hin)).
    apply (opaque_in_component _ _ x _ Hsc Hx Hux) in Hin.
    apply (opaque_in_component _ _ y _ Hsc Hy Huy) in Hyin.
    eexists. split; [apply elem_of_clusters; exists s; split; [by eapply list_elem_of_lookup_2|];
      split; [|reflexivity]|].
    + unfold small, sort_strings, len. rewrite length_sort_by. apply Z.ltb_ge.
      assert (av_opaqueID vx ≠ av_opaqueID vy) as Ho by (intros E; by apply Hne, (opaque_unique x y vx vy)).
      pose proof (two_elements _ _ _ Hin Hyin Ho). lia.
    + cbn. unfold sort_strings. by rewrite !elem_of_sort_by.
Qed.

(** ** Evidence *)

Lemma elem_of_range_set (m : gset string) x : x ∈ range_set m ↔ x ∈ m.
Proof.
  unfold range_set. rewrite range_perm, list_elem_of_fmap. split.
  - intros ([k []] & -> & Hin). apply elem_of_map_to_list, lookup_gset_to_gmap_Some in Hin.
    by destruct Hin.
  - intros Hx. exists (x, tt). split; [done|]. by apply elem_of_map_to_list, lookup_gset_to_gmap_Some.
Qed.

Lemma range_set_nodup (m : gset string) : NoDup (range_set m).
Proof.
  unfold range_set. rewrite range_perm. apply NoDup_fst_map_to_list.
Qed.

Lemma evidence_opaque id e :
  evidence_for vertices adjacency id = Some e →
  ev_OpaqueID e = av_opaqueID (vertex_at vertices id).
Proof. unfold evidence_for. by case_match; intros [= <-]. Qed.

Lemma evidence_nodup ids :
  NoDup ids → (∀ x, x ∈ ids → is_Some (vertices !! x)) →
  NoDup (map ev_OpaqueID (omap (evidence_for vertices adjacency) ids)).
Proof.
  induction 1 as [|id ids Hid Hnd IH]; intros Hdom; [constructor|]. rewrite omap_cons_eq.
  destruct (evidence_for vertices adjacency id) as [e|] eqn:E; [|apply IH; set_solver].
  cbn. apply NoDup_cons. split; [|apply IH; set_solver].
  intros (e' & Ho & He')%list_elem_of_fmap. apply list_elem_of_omap in He' as (id' & Hin & E').
  rewrite (evidence_opaque _ _ E), (evidence_opaque _ _ E') in Ho.
  destruct (Hdom id ltac:(left)) as [v Hv]. destruct (Hdom id' ltac:(by right)) as [v' Hv'].
  rewrite (vertex_at_some _ _ Hv), (vertex_at_some _ _ Hv') in Ho.
  by rewrite (opaque_unique _ _ _ _ Hv Hv' Ho) in Hid.
Qed.

Definition total_weight (evidence : list Evidence) : Z :=
  foldr (λ e sum, ev_Weight e + sum) 0 evidence.

Lemma risk_score_total evidence : risk_score evidence = wrap64 (total_weight evidence).
Proof.
  unfold risk_score. change 0 with (wrap64 0) at 1.
  assert (∀ acc, foldl (λ score e, int_add score (ev_Weight e)) (wrap64 acc) evidence =
    wrap64 (acc + total_weight evidence)) as H; [|by rewrite H].
  induction evidence as [|e l IH]; intros acc; cbn; [by rewrite Z.add_0_r|].
  unfold int_add at 2. rewrite wrap64_wrap_l, IH. unfold total_weight. f_equal. lia.
Qed.

Lemma total_weight_perm l l' : l ≡ₚ l' → total_weight l = total_weight l'.
Proof. unfold total_weight. induction 1; cbn; lia. Qed.

Lemma weight_bound kind : 0 <= identifierWeight kind <= 5.
Proof. unfold identifierWeight. repeat case_bool_decide; lia. Qed.

Lemma evidence_total_bound ids :
  0 <= total_weight (omap (evidence_for vertices adjacency) ids) <= 5 * len ids.
Proof.
  unfold total_weight, len in *.
  induction ids as [|id ids IH]; [cbn; lia|]. rewrite omap_cons_eq. cbn [length]. destruct (evidence_for vertices adjacency id) as [e|] eqn:E; [|lia].
  cbn [foldr].
  assert (0 <= ev_Weight e <= 5); [|lia].
  unfold evidence_for in E. destruct (_ <? 2); [done|]. injection E as <-. apply weight_bound.
Qed.

(** The evidence of a cluster: the identifiers connected to its users that at least two users
    share, each once; the risk score is the sum of their weights. *)
Lemma cluster_evidence c :
  c ∈ rp_Clusters report → Z.of_nat (size vertices) <= MaxVertices →
  NoDup (map ev_OpaqueID (cl_Evidence c)) ∧ cl_RiskScore c = total_weight (cl_Evidence c) ∧
  StronglySorted (sort_le str_ltb) (cl_Users c) ∧
  cl_ClusterID c = ("cluster:" ++ default "" (head (cl_Users c)))%string ∧
  ∀ e, e ∈ cl_Evidence c ↔ ∃ x vx id,
    vertices !! x = Some vx ∧ is_user vx = true ∧ av_opaqueID vx ∈ cl_Users c ∧
    connected x id ∧ is_user (vertex_at vertices id) = false ∧
    evidence_for vertices adjacency id = Some e.
Proof.
  intros (s & Hs & Hsmall & ->)%elem_of_clusters Hsize.
  destruct analysis_walks as (comps & Hw & _ & _). apply list_elem_of_lookup in Hs as [i Hi].
  destruct (Forall2_lookup_l _ _ _ _ _ Hw Hi) as (comp & _ & Hsc).
  pose proof Hsc as (_ & Hus & Hids & Hnd & Hdom & Hconn).
  cbn [build_cluster cl_Evidence cl_RiskScore cl_Users cl_ClusterID].
  assert (∀ x, x ∈ range_set (wk_identifiers s) ↔ x ∈ identifiers_of comp) as Hrange
    by (intros x; by rewrite elem_of_range_set).
  assert (∀ x, x ∈ range_set (wk_identifiers s) → is_Some (vertices !! x)) as Hrdom.
  { intros x Hx%Hrange. apply list_elem_of_filter in Hx as [_ Hx]. by apply Hdom. }
  split_and!; [|  |by apply sort_by_sorted, _|done|].
  - rewrite (Permutation_map ev_OpaqueID (sort_by_perm evidence_less _)).
    by apply evidence_nodup; [apply range_set_nodup|].
  - rewrite risk_score_total, (total_weight_perm _ _ (sort_by_perm evidence_less _)).
    apply wrap64_id. pose proof (evidence_total_bound (range_set (wk_identifiers s))) as Hb.
    assert (length (range_set (wk_identifiers s)) ≤ size vertices)%nat as Hlen.
    { rewrite <- (size_list_to_set (C := gset string)) by apply range_set_nodup.
      rewrite <- (size_dom (D := gset string)). apply subseteq_size.
      intros x Hx%elem_of_list_to_set. by apply elem_of_dom, Hrdom. }
    unfold in_int64, int_bits, len, MaxVertices in *. lia.
  - intros e. rewrite elem_of_sort_by, list_elem_of_omap. split.
    + intros (id & Hid%Hrange & He). apply list_elem_of_filter in Hid as [Hnu Hid].
      assert (∃ o, o ∈ wk_users s) as [o Ho].
      { unfold small, sort_strings, len in Hsmall. rewrite length_sort_by in Hsmall.
        apply Z.ltb_ge in Hsmall. destruct (wk_users s) as [|o l]; cbn in Hsmall; [lia|].
        exists o. left. }
      pose proof Ho as Ho'. rewrite Hus in Ho'. apply users_of_elem in Ho' as (x & Hx & Hux & Hox).
      destruct (Hdom x Hx) as [vx Hvx]. rewrite (vertex_at_some _ _ Hvx) in *.
      exists x, vx, id. split_and!; [done|done| |by apply (Hconn x Hx)|by apply Is_true_false|done].
      unfold sort_strings. by rewrite elem_of_sort_by, Hox.
    + intros (x & vx & id & Hx & Hux & Hin & Hxid & Hnu & He). exists id. split; [|done].
      unfold sort_strings in Hin. rewrite elem_of_sort_by in Hin.
      apply (opaque_in_component _ _ x _ Hsc Hx Hux) in Hin.
      apply Hrange, list_elem_of_filter. split; [rewrite Hnu; by intros []|]. by apply (Hconn x Hin).
Qed.
End Walk.

(** ** Loading vertices *)

Section LoadVertices.
Context `{GraphLib}.

(** A vertex the loader accepts under a fixture ID, and what it keeps of it. *)
Definition vertex_ok (fid : string) (vertex : Vertex) (value : analyzedVertex) : Prop :=
  v_Validate vertex = None ∧ fid ≠ "" ∧ analyze_vertex fid ∅ vertex = inr (value, fid) ∧
  av_backendID value = v_ID vertex.

Lemma nonblank_not_empty props key s : nonBlankString props key = Some s → s ≠ "".
Proof.
  unfold nonBlankString. destruct (prop_string props key) as [t|]; [|done].
  case_bool_decide as D; [done|]. intros [= <-] ->. by apply D.
Qed.

(** The checks of one vertex do not depend on the vertices before, but for its opaque ID and the
    fixture ID. *)
Lemma analyze_vertex_iff f opaques vertex value fid :
  analyze_vertex f opaques vertex = inr (value, fid) ↔
  (f = "" ∨ f = fid) ∧ fid ≠ "" ∧ (av_opaqueID value ∉ opaques) ∧
  analyze_vertex fid ∅ vertex = inr (value, fid).
Proof.
  unfold analyze_vertex.
  destruct (nonBlankString (v_Properties vertex) propertyOpaqueID) as [o|]; [|naive_solver].
  destruct (nonBlankString (v_Properties vertex) propertyFixtureID) as [vf|] eqn:Hvf; [|naive_solver].
  apply nonblank_not_empty in Hvf.
  rewrite (bool_decide_false (o ∈ ∅)) by set_solver.
  set (tail := if bool_decide (v_Label vertex = labelUser) then _ else _).
  assert (tail = inr (value, fid) → vf = fid ∧ av_opaqueID value = o) as Htail.
  { subst tail. repeat case_match; naive_solver. }
  destruct (decide (f = "")) as [->|Hf].
  - rewrite (bool_decide_true ("" = "")) by done. cbn [negb andb].
    case_bool_decide as D.
    + split; [done|]. intros (_ & _ & Hn & Ht).
      destruct (_ && _) in Ht; [done|]. by destruct (Htail Ht) as [_ <-].
    + split.
      * intros Ht. destruct (Htail Ht) as [<- <-]. split_and!; [by left|done|done|].
        rewrite (bool_decide_true (vf = vf)), andb_false_r by done. exact Ht.
      * intros (_ & _ & _ & Ht). by destruct (_ && _) in Ht.
  - rewrite (bool_decide_false (f = "")) by done. cbn [negb andb].
    destruct (decide (vf = f)) as [->|Hvf'].
    + rewrite (bool_decide_true (f = f)) by done. cbn [negb]. case_bool_decide as D.
      * split; [done|]. intros (_ & _ & Hn & Ht).
        destruct (_ && _) in Ht; [done|]. by destruct (Htail Ht) as [_ <-].
      * split.
        -- intros Ht. destruct (Htail Ht) as [<- <-]. split_and!; [by right|done|done|].
           rewrite (bool_decide_true (f = f)), andb_false_r by done. exact Ht.
        -- intros (_ & _ & _ & Ht). by destruct (_ && _) in Ht.
    + rewrite (bool_decide_false (vf = f)) by done. cbn [negb]. split; [done|].
      intros ([?|<-] & _ & _ & Ht); [done|].
      rewrite (bool_decide_false (f = "")), (bool_decide_false (vf = f)) in Ht by done. done.
Qed.

Lemma analyze_vertex_backend f O vertex value fid :
  analyze_vertex f O vertex = inr (value, fid) → av_backendID value = v_ID vertex.
Proof.
  unfold analyze_vertex. repeat (case_match; try done); by intros [= <- _].
Qed.

(** The map the loader builds from the values it keeps. *)
Definition insert_all (values : list analyzedVertex) (m : gmap string analyzedVertex)
    : gmap string analyzedVertex := foldl (λ m a, <[av_backendID a := a]> m) m values.

Lemma insert_all_lookup values m k v :
  NoDup (map av_backendID values) → (∀ a, a ∈ values → m !! av_backendID a = None) →
  insert_all values m !! k = Some v ↔ (v ∈ values ∧ av_backendID v = k) ∨ m !! k = Some v.
Proof.
  unfold insert_all. revert m. induction values as [|a values IH]; intros m Hnd Hm; cbn.
  { split; [by right|]. by intros [[?%elem_of_nil _]|?]. }
  cbn in Hnd. apply NoDup_cons in Hnd as [Ha Hnd]. rewrite IH; [|done|].
  - rewrite lookup_insert, elem_of_cons. case_decide as D.
    + subst k. rewrite (Hm a) by left. split.
      * intros [[Hv E]|[= <-]]; left; auto.
      * intros [[[->|Hv] E]|?]; [by right| |done]. left. done.
    + split; [intros [[? ?]|?]; auto|]. intros [[[->|?] ?]|?]; naive_solver.
  - intros b Hb. rewrite lookup_insert_ne; [apply Hm; by right|].
    intros E. apply Ha. rewrite E. by apply list_elem_of_fmap_2.
Qed.

Lemma load_vertices_iff L O f vs m fid :
  loadVertices_loop L O f vs = inr (m, fid) ↔
  ∃ values, Forall2 (vertex_ok fid) vs values ∧
    NoDup (map av_backendID values) ∧ (∀ a, a ∈ values → L !! av_backendID a = None) ∧
    NoDup (map av_opaqueID values) ∧ (∀ a, a ∈ values → av_opaqueID a ∉ O) ∧
    (vs = [] → fid = f) ∧ (vs ≠ [] → f = "" ∨ f = fid) ∧ m = insert_all values L.
Proof.
  revert L O f. induction vs as [|v vs IH]; intros L O f; cbn [loadVertices_loop].
  { split.
    - intros [= <- <-]. exists []. cbn. split_and!; try done; try constructor; set_solver.
    - intros (values & Hf & _ & _ & _ & _ & Hfid & _ & ->). apply Forall2_nil_inv_l in Hf as ->.
      by rewrite (Hfid eq_refl). }
  split.
  - destruct (v_Validate v) eqn:Hval; [done|]. case_bool_decide as Hdup; [done|].
    destruct (analyze_vertex f O v) as [e|[a f1]] eqn:Ha; [done|].
    pose proof (analyze_vertex_backend _ _ _ _ _ Ha) as Hb.
    apply analyze_vertex_iff in Ha as (Hf & Hf1 & Ho & Ha). rewrite IH.
    intros (values & HF & Hnd & HL & Hndo & HO & Hnil & Hcons & ->).
    assert (f1 = fid) as ->.
    { destruct vs; [by rewrite Hnil|]. by destruct Hcons. }
    assert (∀ b, b ∈ values → av_backendID b ≠ v_ID v ∧ L !! av_backendID b = None) as HL'.
    { intros b Hb'. specialize (HL b Hb'). by apply lookup_insert_None in HL as [? ?]. }
    exists (a :: values). cbn [map]. split_and!.
    + by constructor.
    + constructor; [|done]. rewrite Hb. intros (b & Hb1 & Hb2)%list_elem_of_fmap.
      by destruct (HL' b Hb2).
    + intros b [->|Hin]%elem_of_cons; [|by apply HL'].
      rewrite Hb. by apply eq_None_not_Some.
    + constructor; [|done]. intros (b & Hb1 & Hb2)%list_elem_of_fmap. specialize (HO b Hb2). set_solver.
    + intros b [->|Hin]%elem_of_cons; [done|]. specialize (HO b Hin). set_solver.
    + done.
    + intros _. destruct Hf; auto.
    + cbn. by rewrite Hb.
  - intros (values & HF & Hnd & HL & Hndo & HO & _ & Hcons & ->).
    apply Forall2_cons_inv_l in HF as (a & values' & (Hval & Hfid & Ha & Hb) & HF & ->).
    cbn [map] in Hnd, Hndo. apply NoDup_cons in Hnd as [Hna Hnd]. apply NoDup_cons in Hndo as [Hno Hndo].
    rewrite Hval. rewrite bool_decide_false.
    2: { rewrite <- Hb, (HL a) by left. by intros [? ?]. }
    assert (analyze_vertex f O v = inr (a, fid)) as ->.
    { apply analyze_vertex_iff. split_and!; [by apply Hcons|done|apply HO; left|done]. }
    apply IH. exists values'. split_and!; [done|done| |done| | |by right|by rewrite <- Hb].
    + intros b Hin. rewrite lookup_insert_ne; [apply HL; by right|].
      intros E. apply Hna. rewrite Hb, E. by apply list_elem_of_fmap_2.
    + intros b Hin [E%elem_of_singleton|Hx]%elem_of_union; [|by apply (HO b); [right|]].
      apply Hno. rewrite <- E. by apply list_elem_of_fmap_2.
    + done.
Qed.
End LoadVertices.

(** ** Loading edges *)

Section LoadEdges.
Context `{GraphLib} (vertices : gmap string analyzedVertex) (fid : string).

Definition edge_opaque (e : Edge) : string :=
  default "" (nonBlankString (e_Properties e) propertyOpaqueID).
Definition edge_logical (e : Edge) : logicalRelationship :=
  mkLogical (e_StartID e) (e_EndID e) (e_Label e).

(** An edge the loader accepts, apart from duplicates. *)
Record edge_ok (e : Edge) : Prop := {
  eo_valid : e_Validate e = None;
  eo_label : e_Label e = labelUsesIdentifier;
  eo_size : size (e_Properties e) = 2%nat;
  eo_opaque : nonBlankString (e_Properties e) propertyOpaqueID = Some (edge_opaque e);
  eo_fixture : nonBlankString (e_Properties e) propertyFixtureID = Some fid;
  eo_start : ∃ v, vertices !! e_StartID e = Some v ∧ av_label v = labelUser;
  eo_end : ∃ v, vertices !! e_EndID e = Some v ∧ av_label v = labelIdentifier
}.

Definition add_edge (s : edgeState) (e : Edge) : edgeState :=
  mkEdgeState (link (e_EndID e) (e_StartID e) (link (e_StartID e) (e_EndID e) (es_adjacency s)))
    ({[e_ID e]} ∪ es_backendIDs s) ({[edge_opaque e]} ∪ es_opaqueIDs s)
    ({[edge_logical e]} ∪ es_logicalEdges s).

Lemma load_edge_iff e s s' :
  load_edge vertices fid e s = inr s' ↔
  edge_ok e ∧ (e_ID e ∉ es_backendIDs s) ∧ (edge_opaque e ∉ es_opaqueIDs s) ∧
  (edge_logical e ∉ es_logicalEdges s) ∧ s' = add_edge s e.
Proof.
  unfold load_edge. split.
  - intros Hr. destruct (e_Validate e) eqn:Hval; [done|].
    case_bool_decide as Hid; [done|]. case_bool_decide as Hlab; [|done]. cbn [negb] in Hr.
    case_bool_decide as Hsize; [|done].
    destruct (nonBlankString _ propertyOpaqueID) as [o|] eqn:Ho; [|done].
    destruct (nonBlankString _ propertyFixtureID) as [f|] eqn:Hf; [|done].
    destruct (bool_decide (fid = "") || _) eqn:Hfid; [done|].
    apply orb_false_iff in Hfid as [_ Hfid%negb_false_iff%bool_decide_eq_true].
    case_bool_decide as Hod; [done|].
    destruct (vertices !! e_StartID e) as [vs|] eqn:Hs; [|done].
    destruct (vertices !! e_EndID e) as [ve|] eqn:He; [|done].
    destruct (_ || _) eqn:Hl in Hr; [done|].
    apply orb_false_iff in Hl as [Hl1%negb_false_iff%bool_decide_eq_true
                                  Hl2%negb_false_iff%bool_decide_eq_true].
    case_bool_decide as Hlog; [done|]. injection Hr as <-.
    assert (edge_opaque e = o) as Eo by (unfold edge_opaque; by rewrite Ho).
    split_and!; [|done|by rewrite Eo|done|].
    + split; [done|done|done|by rewrite Eo|by rewrite Hf, Hfid|by exists vs|by exists ve].
    + unfold add_edge. by rewrite Eo.
  - intros ([Hval Hlab Hsize Ho Hf (vs & Hs & Hl1) (ve & He & Hl2)] & Hid & Hod & Hlog & ->).
    rewrite Hval, (bool_decide_false (e_ID e ∈ _)), (bool_decide_true (e_Label e = _)) by done.
    cbn [negb]. rewrite (bool_decide_true (size _ = _)), Ho, Hf by done.
    assert (fid ≠ "") as Hne by (by eapply nonblank_not_empty).
    rewrite (bool_decide_false (fid = "")), (bool_decide_true (fid = fid)) by done. cbn [negb orb].
    rewrite (bool_decide_false (edge_opaque e ∈ _)), Hs, He, Hl1, Hl2 by done.
    rewrite !(bool_decide_true (_ = _)) by done. cbn [negb orb].
    by rewrite (bool_decide_false (mkLogical _ _ _ ∈ _)).
Qed.

Lemma load_edges_iff es s s' :
  load_edges vertices fid es s = inr s' ↔
  Forall edge_ok es ∧ fresh_keys e_ID (es_backendIDs s) es ∧
  fresh_keys edge_opaque (es_opaqueIDs s) es ∧ fresh_keys edge_logical (es_logicalEdges s) es ∧
  s' = foldl add_edge s es.
Proof.
  revert s. induction es as [|e es IH]; intros s; cbn [load_edges foldl].
  { split; [|by intros (_ & _ & _ & _ & ->)]. intros [= <-].
    split_and!; [constructor|apply fresh_keys_nil..|done]. }
  rewrite Forall_cons, !fresh_keys_cons. split.
  - destruct (load_edge vertices fid e s) as [?|s1] eqn:E; [done|].
    apply load_edge_iff in E as (Hok & H1 & H2 & H3 & ->). rewrite IH.
    intros (HF & F1 & F2 & F3 & ->). done.
  - intros ([Hok HF] & [H1 F1] & [H2 F2] & [H3 F3] & ->).
    assert (load_edge vertices fid e s = inr (add_edge s e)) as -> by (by apply load_edge_iff).
    by apply IH.
Qed.

(** The neighbours the edges give to a vertex, in edge order. *)
Definition incident (id : string) (es : list Edge) : list string :=
  omap (λ e, if bool_decide (e_StartID e = id) then Some (e_EndID e)
             else if bool_decide (e_EndID e = id) then Some (e_StartID e) else None) es.

Lemma endpoints_differ e : edge_ok e → e_StartID e ≠ e_EndID e.
Proof.
  intros [_ _ _ _ _ (v & Hv & H1) (w & Hw & H2)] E. rewrite E, Hw in Hv. injection Hv as <-.
  rewrite H1 in H2. done.
Qed.

Definition append_to (o : option (list string)) (l : list string) : option (list string) :=
  match o, l with None, [] => None | _, _ => Some (default [] o ++ l) end.

Lemma adjacency_lookup es s id :
  Forall edge_ok es →
  es_adjacency (foldl add_edge s es) !! id = append_to (es_adjacency s !! id) (incident id es).
Proof.
  intros HF. revert s. induction HF as [|e es Hok _ IH]; intros s; cbn [foldl].
  { unfold append_to. cbn. destruct (es_adjacency s !! id); [by rewrite app_nil_r|done]. }
  rewrite IH. cbn [es_adjacency add_edge]. unfold link, incident. rewrite omap_cons_eq.
  pose proof (endpoints_differ e Hok) as Hne.
  destruct (decide (e_StartID e = id)) as [<-|Hs].
  - rewrite (bool_decide_true (_ = _)), lookup_insert_ne, lookup_insert_eq by done.
    fold (incident (e_StartID e) es).
    destruct (es_adjacency s !! e_StartID e); cbn; by rewrite <- ?app_assoc.
  - rewrite (bool_decide_false (_ = _)) by done.
    destruct (decide (e_EndID e = id)) as [<-|He].
    + rewrite (bool_decide_true (_ = _)), lookup_insert_eq by done.
      rewrite lookup_insert_ne by done. fold (incident (e_EndID e) es).
      destruct (es_adjacency s !! e_EndID e); cbn; by rewrite <- ?app_assoc.
    + rewrite (bool_decide_false (_ = _)) by done. fold (incident id es).
      by rewrite !lookup_insert_ne.
Qed.

Lemma load_edges_adjacency es adjacency :
  loadEdges es vertices fid = inr adjacency ↔
  (Forall edge_ok es ∧ NoDup (map e_ID es) ∧ NoDup (map edge_opaque es) ∧
   NoDup (map edge_logical es)) ∧
  ∀ id, adjacency !! id =
    match incident id es with [] => None | l => Some (sort_by (by_opaque_id vertices) l) end.
Proof.
  unfold loadEdges. split.
  - destruct (load_edges _ _ _ _) as [|s] eqn:E; [done|]. intros [= <-].
    apply load_edges_iff in E as (HF & H1 & H2 & H3 & ->).
    apply fresh_keys_empty in H1, H2, H3. split; [done|].
    intros id. rewrite lookup_fmap, adjacency_lookup by done. cbn. unfold append_to.
    rewrite lookup_empty. by destruct (incident id es).
  - intros [(HF & H1 & H2 & H3) Hadj].
    assert (load_edges vertices fid es (mkEdgeState ∅ ∅ ∅ ∅) =
              inr (foldl add_edge (mkEdgeState ∅ ∅ ∅ ∅) es)) as ->.
    { apply load_edges_iff. split_and!; [done|by apply fresh_keys_empty..|done]. }
    f_equal. apply map_eq. intros id. rewrite Hadj, lookup_fmap, adjacency_lookup by done.
    cbn. unfold append_to. rewrite lookup_empty. by destruct (incident id es).
Qed.
End LoadEdges.
