(* ===== verification/AbuseTheorems.v ===== *)
(** What the abuse-cluster analyzer, fixture validation and workflow promise, stated on the
    vertices and edges they are given. *)
From S2P Require Import Prelude GraphLib AbuseCluster AbuseFixture AbuseProofs.

(** ** Graphs the loaders accept *)

Section Loaded.
Context `{GraphLib}.
Implicit Types (vs : list Vertex) (es : list Edge).

Definition opaque_of (v : Vertex) : string :=
  default "" (nonBlankString (v_Properties v) propertyOpaqueID).
Definition kind_of (v : Vertex) : string := default "" (prop_string (v_Properties v) propertyKind).
Definition is_user_vertex (v : Vertex) : bool := bool_decide (v_Label v = labelUser).

(** Two vertices joined by an edge, in either direction, and by a chain of edges. *)
Definition joined_by es (a b : string) : Prop :=
  ∃ e, e ∈ es ∧ ((e_StartID e = a ∧ e_EndID e = b) ∨ (e_EndID e = a ∧ e_StartID e = b)).
Definition joined es : string → string → Prop := rtc (joined_by es).

(** The properties of a vertex the analyzer accepts in fixture [fid]. *)
Record vertex_good (fid : string) (v : Vertex) : Prop := {
  vg_valid : v_Validate v = None;
  vg_opaque : nonBlankString (v_Properties v) propertyOpaqueID = Some (opaque_of v);
  vg_fixture : nonBlankString (v_Properties v) propertyFixtureID = Some fid;
  vg_label :
    (v_Label v = labelUser ∧ size (v_Properties v) = 2%nat) ∨
    (v_Label v = labelIdentifier ∧ size (v_Properties v) = 3%nat ∧
     is_Some (prop_string (v_Properties v) propertyKind) ∧ validIdentifierKind (kind_of v) = true)
}.

(** What the analyzer keeps of a vertex. *)
Definition kept (v : Vertex) : analyzedVertex :=
  mkAnalyzed (v_ID v) (opaque_of v) (v_Label v) (if is_user_vertex v then "" else kind_of v).

Lemma vertex_ok_good fid v a : vertex_ok fid v a ↔ vertex_good fid v ∧ a = kept v.
Proof.
  unfold vertex_ok, analyze_vertex, kept, is_user_vertex. split.
  - intros (Hval & Hne & Ha & _).
    destruct (nonBlankString _ propertyOpaqueID) as [o|] eqn:Ho; [|done].
    destruct (nonBlankString _ propertyFixtureID) as [f|] eqn:Hf; [|done].
    destruct (_ && _) in Ha; [done|]. rewrite (bool_decide_false (o ∈ ∅)) in Ha by set_solver.
    assert (opaque_of v = o) as Eo by (unfold opaque_of; by rewrite Ho).
    case_bool_decide as Hl.
    + case_bool_decide as Hs; [|done]. injection Ha as <- ->.
      split; [split; [done|by rewrite Eo|done|by left]|by rewrite Eo].
    + case_bool_decide as Hi; [|done]. destruct (prop_string _ propertyKind) as [k|] eqn:Hk; [|done].
      destruct (_ && _) eqn:E in Ha; [|done]. apply andb_true_iff in E as [E1%bool_decide_eq_true E2].
      injection Ha as <- ->.
      assert (kind_of v = k) as Ek by (unfold kind_of; by rewrite Hk).
      split; [split; [done|by rewrite Eo|done|right]|by rewrite Eo, Ek].
      split_and!; [done|done|by rewrite Hk|by rewrite Ek].
  - intros [[Hval Ho Hf Hlab] ->]. apply nonblank_not_empty in Hf as Hne.
    split_and!; [done|done| |done]. rewrite Ho, Hf, (bool_decide_true (fid = fid)), andb_false_r by done.
    rewrite (bool_decide_false (_ ∈ ∅)) by set_solver.
    destruct Hlab as [[Hl Hs]|(Hl & Hs & [k Hk] & Hv)]; rewrite Hl.
    + rewrite !(bool_decide_true (_ = _)) by done. done.
    + rewrite (bool_decide_false (labelIdentifier = labelUser)) by done.
      rewrite (bool_decide_true (labelIdentifier = _)), Hk, Hs by done.
      unfold kind_of in *. rewrite Hk in *. cbn in Hv |- *. rewrite Hv. done.
Qed.

(** The graphs the analyzer accepts, apart from their size. *)
Record GoodGraph vs es : Prop := {
  gg_fixture : ∃ fid, Forall (vertex_good fid) vs ∧
    Forall (λ e, nonBlankString (e_Properties e) propertyFixtureID = Some fid) es;
  gg_ids : NoDup (map v_ID vs);
  gg_opaques : NoDup (map opaque_of vs);
  gg_edges : Forall (λ e, e_Validate e = None ∧ e_Label e = labelUsesIdentifier ∧
      size (e_Properties e) = 2%nat ∧
      nonBlankString (e_Properties e) propertyOpaqueID = Some (edge_opaque e)) es;
  gg_endpoints : Forall (λ e,
      (∃ v, v ∈ vs ∧ v_ID v = e_StartID e ∧ v_Label v = labelUser) ∧
      (∃ v, v ∈ vs ∧ v_ID v = e_EndID e ∧ v_Label v = labelIdentifier)) es;
  gg_edge_ids : NoDup (map e_ID es);
  gg_edge_opaques : NoDup (map edge_opaque es);
  gg_logical : NoDup (map edge_logical es)
}.

Lemma kept_values fid vs values :
  Forall2 (vertex_ok fid) vs values ↔ Forall (vertex_good fid) vs ∧ values = map kept vs.
Proof.
  split.
  - induction 1 as [|v a vs values Hv _ (IH1 & ->)]; [by split|].
    apply vertex_ok_good in Hv as [? ->]. split; [by constructor|done].
  - intros [HF ->]. induction HF as [|v vs Hv _ IH]; [constructor|].
    cbn. constructor; [by apply vertex_ok_good|done].
Qed.

(** [loadVertices], declaratively. *)
Lemma load_vertices_good vs m fid :
  loadVertices vs = inr (m, fid) ↔
  Forall (vertex_good fid) vs ∧ NoDup (map v_ID vs) ∧ NoDup (map opaque_of vs) ∧
  (vs = [] → fid = "") ∧ m = insert_all (map kept vs) ∅.
Proof.
  unfold loadVertices. rewrite load_vertices_iff. split.
  - intros (values & [HF ->]%kept_values & H1 & _ & H2 & _ & H3 & _ & ->).
    rewrite map_map in H1, H2. done.
  - intros (HF & H1 & H2 & H3 & ->). exists (map kept vs). rewrite !map_map.
    split_and!; [by apply kept_values|done|by intros; apply lookup_empty|done| |done|by left|done].
    intros a _. set_solver.
Qed.

Lemma loaded_lookup vs k a :
  NoDup (map v_ID vs) →
  insert_all (map kept vs) ∅ !! k = Some a ↔ ∃ v, v ∈ vs ∧ v_ID v = k ∧ a = kept v.
Proof.
  intros Hnd. rewrite insert_all_lookup; [|by rewrite map_map|by intros; apply lookup_empty].
  rewrite lookup_empty, list_elem_of_fmap. split.
  - intros [[(v & -> & Hv) <-]|?]; [|done]. by exists v.
  - intros (v & Hv & <- & ->). left. split; [by exists v|done].
Qed.

Definition vertex_map vs : gmap string analyzedVertex := insert_all (map kept vs) ∅.

(** The adjacency [loadEdges] builds from accepted edges. *)
Definition adjacency_ok vs es (adjacency : gmap string (list string)) : Prop :=
  ∀ id, adjacency !! id =
    match incident id es with [] => None | l => Some (sort_by (by_opaque_id (vertex_map vs)) l) end.

Lemma edge_ok_good vs fid e :
  NoDup (map v_ID vs) →
  edge_ok (vertex_map vs) fid e ↔
  nonBlankString (e_Properties e) propertyFixtureID = Some fid ∧
  (e_Validate e = None ∧ e_Label e = labelUsesIdentifier ∧ size (e_Properties e) = 2%nat ∧
   nonBlankString (e_Properties e) propertyOpaqueID = Some (edge_opaque e)) ∧
  (∃ v, v ∈ vs ∧ v_ID v = e_StartID e ∧ v_Label v = labelUser) ∧
  (∃ v, v ∈ vs ∧ v_ID v = e_EndID e ∧ v_Label v = labelIdentifier).
Proof.
  intros Hnd. unfold vertex_map. split.
  - intros [H1 H2 H3 H4 H5 (a & Ha & La) (b & Hb & Lb)].
    apply loaded_lookup in Ha as (v & Hv & Ev & ->); [|done].
    apply loaded_lookup in Hb as (w & Hw & Ew & ->); [|done].
    split_and!; [done..|by exists v|by exists w].
  - intros (H5 & (H1 & H2 & H3 & H4) & (v & Hv & Ev & Lv) & w & Hw & Ew & Lw).
    split; [done..| |].
    + exists (kept v). split; [|done]. apply loaded_lookup; eauto.
    + exists (kept w). split; [|done]. apply loaded_lookup; eauto.
Qed.

Record LoadedGraph vs es (loaded : gmap string analyzedVertex)
    (adjacency : gmap string (list string)) : Prop := {
  lg_good : GoodGraph vs es;
  lg_vertices : loaded = vertex_map vs;
  lg_adjacency : adjacency_ok vs es adjacency
}.

(** The two loaders accept exactly the good graphs. *)
Lemma load_graph vs es loaded adjacency :
  (∃ fid, loadVertices vs = inr (loaded, fid) ∧ loadEdges es loaded fid = inr adjacency) ↔
  LoadedGraph vs es loaded adjacency.
Proof.
  split.
  - intros (fid & (HF & H1 & H2 & H3 & ->)%load_vertices_good & Hes).
    fold (vertex_map vs) in *.
    apply load_edges_adjacency in Hes as [(HE & E1 & E2 & E3) Hadj].
    assert (Forall (λ e, _) es) as HE' by
      (eapply Forall_impl; [exact HE|intros e; apply edge_ok_good, H1]).
    cbn beta in HE'. apply Forall_and in HE' as [Hfx HE']. apply Forall_and in HE' as [Hgood Hends].
    split; [split; [by exists fid|done..]|done|done].
  - intros [[(fid & HF & Hfx) H1 H2 Hgood Hends E1 E2 E3] -> Hadj].
    assert (∀ f, (vs ≠ [] → f = fid) → Forall (edge_ok (vertex_map vs) f) es) as Hok.
    { intros f Hf. apply Forall_forall. intros e He. rewrite !Forall_forall in *.
      apply edge_ok_good; [done|]. destruct (Hends e He) as [(v & Hv & Hv') ?].
      rewrite Hf by (intros ->; by apply elem_of_nil in Hv). split_and!; eauto; by apply Hgood. }
    exists (match vs with [] => "" | _ => fid end). split.
    + apply load_vertices_good. destruct vs; [split_and!; [constructor|done..]|split_and!; done].
    + apply load_edges_adjacency. split; [|done]. split_and!; [|done..].
      apply Hok. by destruct vs.
Qed.
End Loaded.

Lemma good_loaded `{GraphLib} vs es :
  GoodGraph vs es →
  LoadedGraph vs es (vertex_map vs)
    (sort_by (by_opaque_id (vertex_map vs)) <$> es_adjacency (foldl add_edge (mkEdgeState ∅ ∅ ∅ ∅) es)).
Proof.
  intros Hg. split; [done..|]. intros id. rewrite lookup_fmap.
  destruct Hg as [(fid & _ & Hfx) Hids _ Hgood Hends _ _ _].
  rewrite (adjacency_lookup (vertex_map vs) fid).
  - cbn. unfold append_to. rewrite lookup_empty. by destruct (incident id es).
  - rewrite !Forall_forall in *. intros e He. apply edge_ok_good; [done|]. split_and!; eauto.
    all: by apply Hgood || by apply Hends.
Qed.

Section LoadedFacts.
Context `{GraphLib} (vs : list Vertex) (es : list Edge).
Context (loaded : gmap string analyzedVertex) (adjacency : gmap string (list string)).
Context (LG : LoadedGraph vs es loaded adjacency).

Lemma loaded_iff k a : loaded !! k = Some a ↔ ∃ v, v ∈ vs ∧ v_ID v = k ∧ a = kept v.
Proof. rewrite (lg_vertices _ _ _ _ LG). apply loaded_lookup, LG. Qed.

Lemma loaded_vertex v : v ∈ vs → loaded !! v_ID v = Some (kept v).
Proof. intros Hv. apply loaded_iff. eauto. Qed.

Lemma vertex_at_kept v : v ∈ vs → vertex_at loaded (v_ID v) = kept v.
Proof. intros Hv. unfold vertex_at. by rewrite loaded_vertex. Qed.

Lemma neighbors_perm id : neighbors adjacency id ≡ₚ incident id es.
Proof.
  unfold neighbors. rewrite (lg_adjacency _ _ _ _ LG).
  destruct (incident id es); [done|]. cbn [default]. by rewrite sort_by_perm.
Qed.

Lemma elem_of_incident id x : x ∈ incident id es ↔ joined_by es id x.
Proof.
  unfold incident, joined_by. rewrite list_elem_of_omap. split.
  - intros (e & He & Hx). exists e. split; [done|].
    case_bool_decide; [by left; simplify_eq|]. case_bool_decide; [by right; simplify_eq|done].
  - intros (e & He & [[<- <-]|[<- <-]]); exists e; (split; [done|]).
    + by rewrite bool_decide_true.
    + assert (e_StartID e ≠ e_EndID e) as Hne.
      { pose proof (gg_endpoints _ _ (lg_good _ _ _ _ LG)) as Hends. rewrite Forall_forall in Hends.
        destruct (Hends e He) as [(v & Hv & Ev & Lv) (w & Hw & Ew & Lw)]. intros E.
        pose proof (loaded_vertex v Hv) as H1. pose proof (loaded_vertex w Hw) as H2.
        rewrite Ev, E, <- Ew, H2 in H1. injection H1 as _ _ El _.
        rewrite Lv, Lw in El. done. }
      by rewrite bool_decide_false, bool_decide_true.
Qed.

Lemma linked_iff a b : linked adjacency a b ↔ joined_by es a b.
Proof. unfold linked. by rewrite neighbors_perm, elem_of_incident. Qed.

Lemma connected_joined a b : connected adjacency a b ↔ joined es a b.
Proof.
  split; intros Hc; (eapply rtc_congruence with (f := id); [|exact Hc]); intros x y; apply linked_iff.
Qed.

#[local] Instance loaded_adjacency : GoodAdjacency loaded adjacency.
Proof.
  split; intros a b Hb; apply linked_iff in Hb as (e & He & Hb).
  - apply linked_iff. exists e. split; [done|]. destruct Hb as [[? ?]|[? ?]]; auto.
  - pose proof (gg_endpoints _ _ (lg_good _ _ _ _ LG)) as Hends. rewrite Forall_forall in Hends.
    destruct (Hends e He) as [(v & Hv & Ev & _) (w & Hw & Ew & _)].
    destruct Hb as [[_ <-]|[_ <-]]; [rewrite <- Ew|rewrite <- Ev]; rewrite loaded_vertex; eauto.
Qed.

Lemma opaque_of_inj v w : v ∈ vs → w ∈ vs → opaque_of v = opaque_of w → v = w.
Proof.
  intros [i Hi]%list_elem_of_lookup [j Hj]%list_elem_of_lookup E.
  assert (i = j) as ->; [|congruence].
  eapply (NoDup_lookup (map opaque_of vs)); [apply LG|..].
  - rewrite list_lookup_fmap, Hi. done.
  - rewrite list_lookup_fmap, Hj. cbn. by rewrite E.
Qed.

#[local] Instance loaded_good : GoodVertices loaded.
Proof.
  split.
  - intros k a (v & Hv & <- & ->)%loaded_iff. done.
  - intros k1 k2 a1 a2 (v & Hv & <- & ->)%loaded_iff (w & Hw & <- & ->)%loaded_iff.
    cbn. intros E. by rewrite (opaque_of_inj v w).
Qed.
End LoadedFacts.

(** ** The analyzer on accepted graphs *)

Section Analysis.
Context `{GraphLib}.
Implicit Types (vs : list Vertex) (es : list Edge).

Lemma analyze_success `{MapRange} vs es report :
  Analyze vs es = inr report ↔
  len vs <= MaxVertices ∧ len es <= MaxEdges ∧
  ∃ loaded adjacency, LoadedGraph vs es loaded adjacency ∧
    report = analyzeComponents loaded adjacency.
Proof.
  unfold Analyze. destruct (_ || _) eqn:Hsz.
  { split; [done|]. intros (H1 & H2 & _).
    apply orb_true_iff in Hsz as [?%Z.gtb_gt|?%Z.gtb_gt]; lia. }
  apply orb_false_iff in Hsz as [H1 H2]. rewrite Z.gtb_ltb in H1, H2. apply Z.ltb_ge in H1, H2.
  split.
  - destruct (loadVertices vs) as [?|[loaded fid]] eqn:Hv; [done|].
    destruct (loadEdges es loaded fid) as [?|adjacency] eqn:He; [done|]. intros [= <-].
    split_and!; [done..|]. exists loaded, adjacency. split; [|done]. apply load_graph. by exists fid.
  - intros (_ & _ & loaded & adjacency & (fid & -> & ->)%load_graph & ->). done.
Qed.

Lemma load_vertex_error f O v e :
  analyze_vertex f O v = inl e → errors_Is e "abusecluster.ErrInvalidGraph" = true.
Proof. unfold analyze_vertex. intros Ha. repeat (case_match; simplify_eq; try done). Qed.

Lemma load_vertices_error f O L vs e :
  loadVertices_loop L O f vs = inl e → errors_Is e "abusecluster.ErrInvalidGraph" = true.
Proof.
  revert f O L. induction vs as [|v vs IH]; intros f O L; cbn [loadVertices_loop]; [done|].
  destruct (v_Validate v); [by intros [= <-]|]. case_bool_decide; [by intros [= <-]|].
  destruct (analyze_vertex f O v) as [?|[a f1]] eqn:Ha; [|apply IH].
  intros [= <-]. by eapply load_vertex_error.
Qed.

Lemma load_edges_error es loaded fid e :
  loadEdges es loaded fid = inl e → errors_Is e "abusecluster.ErrInvalidGraph" = true.
Proof.
  unfold loadEdges. generalize (mkEdgeState ∅ ∅ ∅ ∅) as s. intros s.
  destruct (load_edges loaded fid es s) as [e'|] eqn:E; [|done]. intros [= <-]. revert s E.
  induction es as [|x es IH]; intros s; cbn [load_edges]; [done|].
  destruct (load_edge loaded fid x s) eqn:Ha; [|apply IH]. intros [= <-].
  unfold load_edge in Ha. repeat (case_match; simplify_eq; try done).
Qed.

(** The two loaders fail only with [ErrInvalidGraph]. *)
Lemma analyze_error `{MapRange} vs es e :
  Analyze vs es = inl e →
  (MaxVertices < len vs ∨ MaxEdges < len es) ∧ e = Errorf "%w: limit exceeded" [ErrGraphTooLarge] [] ∨
  (len vs <= MaxVertices ∧ len es <= MaxEdges) ∧ errors_Is e "abusecluster.ErrInvalidGraph" = true.
Proof.
  unfold Analyze. destruct (_ || _) eqn:Hsz.
  { intros [= <-]. left. split; [|done].
    apply orb_true_iff in Hsz as [?%Z.gtb_gt|?%Z.gtb_gt]; [left|right]; lia. }
  apply orb_false_iff in Hsz as [H1 H2]. rewrite Z.gtb_ltb in H1, H2. apply Z.ltb_ge in H1, H2.
  intros Hr. right. split; [done|].
  destruct (loadVertices vs) as [?|[loaded fid]] eqn:Hv; simplify_eq; [by eapply load_vertices_error|].
  destruct (loadEdges es loaded fid) as [?|adjacency] eqn:He; simplify_eq. by eapply load_edges_error.
Qed.

Lemma kept_is_user v : is_user (kept v) = is_user_vertex v.
Proof. done. Qed.

Lemma vertex_map_perm vs vs' : NoDup (map v_ID vs) → vs ≡ₚ vs' → vertex_map vs = vertex_map vs'.
Proof.
  intros Hnd Hp. apply map_eq. intros k. apply option_eq. intros a.
  unfold vertex_map. rewrite !loaded_lookup; [by setoid_rewrite Hp| |done]. by rewrite <- Hp.
Qed.

Section Loaded.
Context (vs : list Vertex) (es : list Edge).
Context (loaded : gmap string analyzedVertex) (adjacency : gmap string (list string)).
Context (LG : LoadedGraph vs es loaded adjacency).

Lemma user_vertices_perm :
  map av_opaqueID (user_vertices loaded) ≡ₚ map opaque_of (filter is_user_vertex vs).
Proof.
  assert (user_vertices loaded ≡ₚ map kept (filter is_user_vertex vs)) as ->;
    [|by rewrite map_map].
  apply NoDup_Permutation.
  - eapply (NoDup_fmap_1 av_backendID), user_vertices_nodup. by eapply loaded_good.
  - apply (NoDup_fmap_1 av_backendID). rewrite <- list_fmap_compose.
    eapply sublist_NoDup; [exact (gg_ids _ _ (lg_good _ _ _ _ LG))|].
    apply (fmap_sublist v_ID), sublist_filter.
  - intros a. unfold user_vertices. rewrite list_elem_of_fmap, list_elem_of_filter, list_elem_of_fmap.
    setoid_rewrite list_elem_of_filter. split.
    + intros (Hu & [k b] & -> & Hk%elem_of_map_to_list). cbn in *.
      apply (loaded_iff _ _ _ _ LG) in Hk as (v & Hv & _ & ->). by exists v.
    + intros (v & -> & Hu & Hv). split; [done|]. exists (v_ID v, kept v). split; [done|].
      apply elem_of_map_to_list. by eapply loaded_vertex.
Qed.

(** The users who share an identifier, as the edges name them. *)
Definition sharers (id : string) : gset string :=
  list_to_set (map e_StartID (filter (λ e, e_EndID e = id) es)).

Lemma distinct_users v :
  v ∈ vs → is_user_vertex v = false →
  distinctUserCount loaded (neighbors adjacency (v_ID v)) = Z.of_nat (size (sharers (v_ID v))).
Proof.
  intros Hv Hnu. unfold distinctUserCount. do 2 f_equal. apply set_eq. intros x.
  pose proof (gg_endpoints _ _ (lg_good _ _ _ _ LG)) as Hends. rewrite Forall_forall in Hends.
  unfold sharers. rewrite !elem_of_list_to_set, list_elem_of_filter, list_elem_of_fmap.
  rewrite (neighbors_perm _ _ _ _ LG), (elem_of_incident _ _ _ _ LG). setoid_rewrite list_elem_of_filter.
  split.
  - intros (_ & e & He & [[E _]|[E <-]]); [|by exists e].
    exfalso. destruct (Hends e He) as [(u & Hu & Eu & Lu) _].
    pose proof (loaded_vertex _ _ _ _ LG u Hu) as H1. pose proof (loaded_vertex _ _ _ _ LG v Hv) as H2.
    rewrite Eu, E, H2 in H1. injection H1 as _ _ El _. unfold is_user_vertex in Hnu.
    by rewrite El, Lu, bool_decide_true in Hnu.
  - intros (e & -> & E & He). destruct (Hends e He) as [(u & Hu & Eu & Lu) _]. split; [|by exists e; auto].
    rewrite <- Eu, (vertex_at_kept _ _ _ _ LG u Hu), kept_is_user. unfold is_user_vertex.
    by rewrite Lu, bool_decide_true.
Qed.

Lemma connected_vertex x id :
  is_Some (loaded !! x) → connected adjacency x id → ∃ i, i ∈ vs ∧ v_ID i = id.
Proof.
  intros Hx Hc. assert (is_Some (loaded !! id)) as [a Ha].
  { pose proof (loaded_adjacency _ _ _ _ LG) as GA.
    induction Hc as [|a b c Hab _ IH]; [done|]. apply IH. by eapply ga_dom. }
  apply (loaded_iff _ _ _ _ LG) in Ha as (v & ? & ? & _). by exists v.
Qed.

Lemma evidence_vertex i e :
  i ∈ vs → is_user_vertex i = false →
  evidence_for loaded adjacency (v_ID i) = Some e ↔
  2 <= Z.of_nat (size (sharers (v_ID i))) ∧
  e = mkEvidence (kind_of i) (opaque_of i) (Z.of_nat (size (sharers (v_ID i))))
        (identifierWeight (kind_of i)).
Proof.
  intros Hi Hnu. unfold evidence_for. rewrite distinct_users, (vertex_at_kept _ _ _ _ LG i Hi) by done.
  unfold kept. cbn [av_kind av_opaqueID]. rewrite Hnu.
  destruct (Z.ltb_spec (Z.of_nat (size (sharers (v_ID i)))) 2); [split; [done|lia]|].
  split; [by intros [= <-]|by intros [_ ->]].
Qed.

Lemma loaded_size : Z.of_nat (size loaded) = len vs.
Proof.
  unfold len. f_equal. rewrite <- length_map_to_list, <- (length_map kept vs).
  rewrite <- (length_map snd (map_to_list loaded)). apply Permutation_length, NoDup_Permutation.
  - apply (NoDup_fmap_1 av_backendID).
    change (NoDup (map av_backendID (map snd (map_to_list loaded)))).
    rewrite (keys_of_values loaded (GV := loaded_good _ _ _ _ LG)). apply NoDup_fst_map_to_list.
  - apply (NoDup_fmap_1 av_backendID). rewrite <- list_fmap_compose.
    exact (gg_ids _ _ (lg_good _ _ _ _ LG)).
  - intros a. rewrite !list_elem_of_fmap. split.
    + intros ([k b] & -> & Hk%elem_of_map_to_list).
      apply (loaded_iff _ _ _ _ LG) in Hk as (v & Hv & _ & ->). by exists v.
    + intros (v & -> & Hv). exists (v_ID v, kept v). split; [done|].
      apply elem_of_map_to_list. by eapply loaded_vertex.
Qed.
End Loaded.


#[export] Instance evidence_less_weak : WeakOrder evidence_less.
Proof.
  apply (lex_weak (λ a b, bool_decide (ev_Kind a = ev_Kind b)) (key_less ev_Kind) (key_less ev_OpaqueID));
    [|apply _..].
  intros a b. rewrite bool_decide_eq_true. unfold key_less. split.
  - intros ->. by rewrite str_ltb_irrefl.
  - intros [? ?]. by apply str_ltb_total.
Qed.

#[export] Instance cluster_less_weak : WeakOrder cluster_less.
Proof.
  apply (lex_weak (λ a b, cl_RiskScore a =? cl_RiskScore b)
           (λ a b, cl_RiskScore b <? cl_RiskScore a)); [|apply _|].
  { intros a b. rewrite Z.eqb_eq, !Z.ltb_ge. lia. }
  apply (lex_weak (λ a b, len (cl_Users a) =? len (cl_Users b))
           (λ a b, len (cl_Users b) <? len (cl_Users a))); [|apply (key_desc_weak (λ a, len (cl_Users a)))|].
  { intros a b. rewrite Z.eqb_eq, !Z.ltb_ge. lia. }
  apply (key_less_weak (λ c, default "" (head (cl_Users c)))).
Qed.

(** ** Independence of the iteration order *)

Section Ranges.
Context (vs : list Vertex) (es : list Edge).
Context (loaded : gmap string analyzedVertex) (adjacency : gmap string (list string)).
Context (LG : LoadedGraph vs es loaded adjacency) (R1 R2 : MapRange).
#[local] Existing Instances loaded_good loaded_adjacency.

Lemma sorted_users_range : sorted_users loaded (H := R1) = sorted_users loaded (H := R2).
Proof.
  unfold sorted_users. apply sort_key_unique; [|by rewrite !range_perm].
  rewrite range_perm. change (NoDup (map av_opaqueID (user_vertices loaded))).
  rewrite (user_vertices_perm _ _ _ _ LG). eapply sublist_NoDup; [exact (gg_opaques _ _ (lg_good _ _ _ _ LG))|].
  apply (fmap_sublist opaque_of), sublist_filter.
Qed.

Lemma build_cluster_range users identifiers :
  (∀ x, x ∈ identifiers → is_Some (loaded !! x)) →
  build_cluster loaded adjacency users identifiers (H := R1) =
  build_cluster loaded adjacency users identifiers (H := R2).
Proof.
  intros Hdom. unfold build_cluster.
  assert (range_set (H := R1) identifiers ≡ₚ range_set (H := R2) identifiers) as Hp.
  { unfold range_set. by rewrite !range_perm. }
  set (ev := omap (evidence_for loaded adjacency)).
  assert (ev (range_set (H := R1) identifiers) ≡ₚ ev (range_set (H := R2) identifiers)) as He.
  { unfold ev. by rewrite Hp. }
  f_equal; [|by rewrite !risk_score_total, (total_weight_perm _ _ He)].
  apply sort_by_unique; [apply _| |done].
  assert (NoDup (map ev_OpaqueID (ev (range_set (H := R1) identifiers)))) as Hnd.
  { apply (evidence_nodup loaded adjacency (GA := loaded_adjacency _ _ _ _ LG) (GV := loaded_good _ _ _ _ LG));
      [apply range_set_nodup|].
    intros x Hx%elem_of_range_set. by apply Hdom. }
  intros a b [i Hi]%list_elem_of_lookup [j Hj]%list_elem_of_lookup H1 H2.
  assert (ev_OpaqueID a = ev_OpaqueID b) as Eo.
  { unfold evidence_less in H1, H2. destruct (decide (ev_Kind a = ev_Kind b)) as [E1|E1].
    - rewrite E1, bool_decide_true in H1 by done. rewrite E1, bool_decide_true in H2 by done.
      by apply str_ltb_total.
    - rewrite bool_decide_false in H1 by done. rewrite bool_decide_false in H2 by congruence.
      by destruct E1; apply str_ltb_total. }
  assert (i = j) as ->; [|congruence].
  eapply (NoDup_lookup _ _ _ _ Hnd); rewrite list_lookup_fmap; [by rewrite Hi|].
  rewrite Hj. cbn. by rewrite Eo.
Qed.

Lemma analysis_range :
  analyzeComponents loaded adjacency (H := R1) = analyzeComponents loaded adjacency (H := R2).
Proof.
  unfold analyzeComponents. rewrite sorted_users_range.
  destruct (analysis_walks loaded adjacency (GA := loaded_adjacency _ _ _ _ LG)
              (GV := loaded_good _ _ _ _ LG) (MR := R2)) as (comps & Hw & _ & _).
  rewrite !components_loop_walks. cbn [rp_Clusters rp_IsolatedUsers app]. do 2 f_equal.
  apply map_ext_in. intros s [_ Hs]%list_elem_of_In%list_elem_of_filter.
  apply build_cluster_range. apply list_elem_of_lookup in Hs as [i Hi].
  destruct (Forall2_lookup_l _ _ _ _ _ Hw Hi) as (comp & _ & (_ & _ & Hids & _ & Hd & _)).
  intros x Hx%Hids. apply list_elem_of_filter in Hx as [_ Hx]. by apply Hd.
Qed.
End Ranges.

Lemma incident_perm id es es' : es ≡ₚ es' → incident id es ≡ₚ incident id es'.
Proof. unfold incident. by intros ->. Qed.

(** The loaded graph depends on the sets of vertices and edges only. *)
Lemma loaded_perm vs vs' es es' loaded adjacency loaded' adjacency' :
  vs ≡ₚ vs' → es ≡ₚ es' → LoadedGraph vs es loaded adjacency →
  LoadedGraph vs' es' loaded' adjacency' → loaded' = loaded ∧ adjacency' = adjacency.
Proof.
  intros Hv He LG LG'.
  assert (vertex_map vs = vertex_map vs') as Em by (apply vertex_map_perm; [apply LG|done]).
  split.
  - rewrite (lg_vertices _ _ _ _ LG), (lg_vertices _ _ _ _ LG'). done.
  - apply map_eq. intros id. rewrite (lg_adjacency _ _ _ _ LG), (lg_adjacency _ _ _ _ LG').
    pose proof (incident_perm id _ _ He) as Hp. rewrite <- Em.
    destruct (incident id es) as [|x l] eqn:E1, (incident id es') as [|x' l'] eqn:E2;
      [done|by apply Permutation_nil_cons in Hp|by symmetry in Hp; apply Permutation_nil_cons in Hp|].
    f_equal. apply sort_by_unique; [apply (key_less_weak (λ i, av_opaqueID (vertex_at (vertex_map vs) i)))| |done].
    assert (∀ a, a ∈ x' :: l' → ∃ v, v ∈ vs ∧ v_ID v = a) as Hin.
    { intros a Ha. rewrite <- E2, <- (incident_perm id _ _ He), <- (neighbors_perm _ _ _ _ LG) in Ha.
      apply (ga_dom loaded adjacency (GoodAdjacency := loaded_adjacency _ _ _ _ LG)) in Ha as [a' Ha].
      apply (loaded_iff _ _ _ _ LG) in Ha as (v & ? & ? & _). by exists v. }
    intros a b (v & Hv1 & <-)%Hin (w & Hw1 & <-)%Hin H1 H2.
    rewrite <- (lg_vertices _ _ _ _ LG) in H1, H2. unfold by_opaque_id in H1, H2.
    rewrite !(vertex_at_kept _ _ _ _ LG) in H1, H2 by done.
    pose proof (str_ltb_total _ _ H1 H2) as E. cbn in E. by rewrite (opaque_of_inj _ _ _ _ LG v w).
Qed.

Lemma good_perm vs vs' es es' : vs ≡ₚ vs' → es ≡ₚ es' → GoodGraph vs es → GoodGraph vs' es'.
Proof.
  intros Hv He [(fid & F1 & F2) H1 H2 H3 H4 H5 H6 H7]. split; [exists fid|..].
  - by rewrite <- Hv, <- He.
  - by rewrite <- Hv.
  - by rewrite <- Hv.
  - by rewrite <- He.
  - rewrite <- He. eapply Forall_impl; [exact H4|]. intros e. cbn. setoid_rewrite Hv. done.
  - by rewrite <- He.
  - by rewrite <- He.
  - by rewrite <- He.
Qed.
End Analysis.

(** ** Validated fixtures *)

Section Fixtures.
Context `{GraphLib}.
Implicit Types (vs : list Vertex) (es : list Edge).

Lemma matching_nonblank props key want :
  negb (matchingStringProperty props key want) = false → nonBlankString props key = Some want.
Proof.
  rewrite negb_false_iff. unfold matchingStringProperty, nonBlankString.
  destruct (prop_string props key) as [s|]; [|done].
  rewrite andb_true_iff, negb_true_iff, bool_decide_eq_true. intros [-> ->]. done.
Qed.

Lemma validate_vertex_ok fid i v labels labels' :
  validate_vertex fid i v labels = inr labels' →
  vertex_good fid v ∧ opaque_of v = v_ID v ∧ labels !! v_ID v = None ∧
  labels' = <[v_ID v := v_Label v]> labels.
Proof.
  unfold validate_vertex. destruct (v_Validate v) eqn:Hval.
  { by rewrite bool_decide_true. }
  rewrite bool_decide_false by (by intros [? ?]). case_bool_decide as Hd; [done|].
  apply eq_None_not_Some in Hd.
  case_bool_decide as Hl; [|case_bool_decide as Hi; [|done]].
  - destruct (_ || _) eqn:E; [done|]. intros [= <-]. rewrite !orb_false_iff in E.
    destruct E as [[E1%negb_false_iff%bool_decide_eq_true E2] E3].
    apply matching_nonblank in E2, E3.
    assert (opaque_of v = v_ID v) as Eo by (unfold opaque_of; by rewrite E2).
    split_and!; [|done..]. split; [done|by rewrite Eo|done|by left].
  - destruct (_ || _) eqn:E; [done|]. intros [= <-]. rewrite !orb_false_iff in E.
    destruct E as [[[[E1%negb_false_iff%bool_decide_eq_true E2] E3]
      E4%negb_false_iff%bool_decide_eq_true] E5%negb_false_iff].
    apply matching_nonblank in E2, E3.
    assert (opaque_of v = v_ID v) as Eo by (unfold opaque_of; by rewrite E2).
    split_and!; [|done..]. split; [done|by rewrite Eo|done|right; by split_and!].
Qed.

Lemma validate_vertices_ok fid i vs labels labels' :
  validate_vertices fid i vs labels = inr labels' →
  Forall (λ v, vertex_good fid v ∧ opaque_of v = v_ID v) vs ∧
  NoDup (map v_ID vs) ∧ (∀ v, v ∈ vs → labels !! v_ID v = None) ∧
  ∀ k l, labels' !! k = Some l →
    labels !! k = Some l ∨ ∃ v, v ∈ vs ∧ v_ID v = k ∧ v_Label v = l.
Proof.
  revert i labels. induction vs as [|v vs IH]; intros i labels; cbn [validate_vertices].
  { intros [= <-]. split_and!; [constructor|constructor|by intros ? ?%elem_of_nil|auto]. }
  destruct (validate_vertex fid i v labels) as [?|l1] eqn:E; [done|].
  apply validate_vertex_ok in E as (Hg & Ho & Hn & ->).
  intros (HF & Hnd & Hfr & Hl)%IH.
  assert (∀ w, w ∈ vs → v_ID w ≠ v_ID v ∧ labels !! v_ID w = None) as Hfr'.
  { intros w Hw. specialize (Hfr w Hw). apply lookup_insert_None in Hfr as [? ?]. done. }
  split_and!; [by constructor| |..].
  - cbn. constructor; [|done]. intros (w & E & Hw)%list_elem_of_fmap. by destruct (Hfr' w Hw).
  - intros w [->|Hw]%elem_of_cons; [done|]. by apply Hfr'.
  - intros k l [Hk|(w & ? & ? & ?)]%Hl; [|right; exists w; split; [by right|done]].
    rewrite lookup_insert in Hk. case_decide; [|by left].
    right. exists v. simplify_eq. split; [left|done].
Qed.

(** What [ValidateFixture] accepts of an edge. *)
Definition fixture_edge (fid : string) (labels : gmap string string) (e : Edge) : Prop :=
  nonBlankString (e_Properties e) propertyFixtureID = Some fid ∧
  (e_Validate e = None ∧ e_Label e = labelUsesIdentifier ∧ size (e_Properties e) = 2%nat ∧
   nonBlankString (e_Properties e) propertyOpaqueID = Some (e_ID e)) ∧
  labels !! e_StartID e = Some labelUser ∧ labels !! e_EndID e = Some labelIdentifier.

Lemma validate_edge_ok fid labels i e ids logical ids' logical' :
  validate_edge fid labels i e ids logical = inr (ids', logical') →
  fixture_edge fid labels e ∧ (e_ID e ∉ ids) ∧ (edge_logical e ∉ logical) ∧
  ids' = {[e_ID e]} ∪ ids ∧ logical' = {[edge_logical e]} ∪ logical.
Proof.
  unfold validate_edge. destruct (e_Validate e) eqn:Hval.
  { by rewrite bool_decide_true. }
  rewrite bool_decide_false by (by intros [? ?]). case_bool_decide as Hid; [done|].
  case_bool_decide as Hl; [|done]. cbn [negb].
  destruct (_ || _ || _) eqn:E; [done|]. rewrite !orb_false_iff in E.
  destruct E as [[E1%negb_false_iff%bool_decide_eq_true E2] E3]. apply matching_nonblank in E2, E3.
  destruct (labels !! e_StartID e) as [ls|] eqn:Hs; [|done].
  destruct (labels !! e_EndID e) as [le|] eqn:He; [|done].
  destruct (_ || _) eqn:E; [done|]. apply orb_false_iff in E as
    [->%negb_false_iff%bool_decide_eq_true ->%negb_false_iff%bool_decide_eq_true].
  case_bool_decide as Hlog; [done|]. intros [= <- <-]. unfold fixture_edge. by split_and!.
Qed.

Lemma validate_edges_ok fid labels i es ids logical :
  validate_edges fid labels i es ids logical = None →
  Forall (fixture_edge fid labels) es ∧ fresh_keys e_ID ids es ∧ fresh_keys edge_logical logical es.
Proof.
  revert i ids logical. induction es as [|e es IH]; intros i ids logical; cbn [validate_edges].
  { intros _. split_and!; [constructor|apply fresh_keys_nil..]. }
  destruct (validate_edge _ _ _ _ _ _) as [?|[ids' logical']] eqn:E; [done|].
  apply validate_edge_ok in E as (Hok & H1 & H2 & -> & ->). intros (HF & F1 & F2)%IH.
  split_and!; [by constructor|by apply fresh_keys_cons..].
Qed.

(** Every fixture that passes validation is a graph the loaders accept. *)
Lemma validated_good fixture :
  ValidateFixture fixture = None →
  len (fx_Vertices fixture) <= MaxVertices ∧ len (fx_Edges fixture) <= MaxEdges ∧
  GoodGraph (fx_Vertices fixture) (fx_Edges fixture).
Proof.
  unfold ValidateFixture. destruct (_ || _) eqn:Hsz; [done|].
  apply orb_false_iff in Hsz as [S1 S2]. rewrite Z.gtb_ltb in S1, S2. apply Z.ltb_ge in S1, S2.
  case_bool_decide; [done|].
  destruct (validate_vertices _ _ _ _) as [?|labels] eqn:Ev; [done|]. intros Ee.
  apply validate_vertices_ok in Ev as (HF & Hnd & _ & Hl).
  apply validate_edges_ok in Ee as (HE & F1 & F2). apply fresh_keys_empty in F1, F2.
  split_and!; [done..|]. apply Forall_and in HF as [HF Ho].
  assert (∀ k l, labels !! k = Some l → ∃ v, v ∈ fx_Vertices fixture ∧ v_ID v = k ∧ v_Label v = l)
    as Hlab by (intros k l [?|?]%Hl; [by rewrite lookup_empty in *|done]).
  assert (map opaque_of (fx_Vertices fixture) = map v_ID (fx_Vertices fixture)) as Eo.
  { apply map_ext_in. intros v Hv%list_elem_of_In. rewrite Forall_forall in Ho. by apply Ho. }
  assert (map edge_opaque (fx_Edges fixture) = map e_ID (fx_Edges fixture)) as Eoe.
  { apply map_ext_in. intros e He%list_elem_of_In. rewrite Forall_forall in HE.
    destruct (HE e He) as (_ & (_ & _ & _ & E) & _). unfold edge_opaque. by rewrite E. }
  split; [exists (fx_ID fixture); split; [done|]|done|by rewrite Eo| | |done|by rewrite Eoe|done].
  - eapply Forall_impl; [exact HE|]. by intros e (? & _).
  - eapply Forall_impl; [exact HE|]. intros e (_ & (E1 & E2 & E3 & E4) & _).
    split_and!; [done..|]. unfold edge_opaque. by rewrite E4.
  - eapply Forall_impl; [exact HE|]. intros e (_ & _ & ?%Hlab & ?%Hlab). done.
Qed.
End Fixtures.

(** ** The report *)

Section Reports.
Context `{GraphLib}.
Implicit Types (vs : list Vertex) (es : list Edge).

(** the analyzer accepts exactly the graphs within the limits whose vertices and edges are
    well formed, refuses larger ones with [ErrGraphTooLarge] and malformed ones with
    [ErrInvalidGraph]. *)
Theorem analyze_accepts `{MapRange} vs es :
  ((∃ report, Analyze vs es = inr report) ↔
     len vs <= MaxVertices ∧ len es <= MaxEdges ∧ GoodGraph vs es) ∧
  ∀ e, Analyze vs es = inl e →
    if (len vs >? MaxVertices) || (len es >? MaxEdges)
    then e = Errorf "%w: limit exceeded" [ErrGraphTooLarge] []
    else errors_Is e "abusecluster.ErrInvalidGraph" = true.
Proof.
  split; [split|].
  - intros (report & (H1 & H2 & loaded & adjacency & LG & _)%analyze_success).
    split_and!; [done..|apply LG].
  - intros (H1 & H2 & Hg). exists (analyzeComponents (vertex_map vs)
      (sort_by (by_opaque_id (vertex_map vs)) <$> es_adjacency (foldl add_edge (mkEdgeState ∅ ∅ ∅ ∅) es))).
    apply analyze_success. split_and!; [done..|]. do 2 eexists. split; [|done].
    by apply good_loaded.
  - intros e [[Hbig ->]|[[H1 H2] He]]%analyze_error.
    + assert ((len vs >? MaxVertices) || (len es >? MaxEdges) = true) as ->; [|done].
      rewrite orb_true_iff, !Z.gtb_gt. lia.
    + assert ((len vs >? MaxVertices) || (len es >? MaxEdges) = false) as ->; [|done].
      rewrite orb_false_iff, !Z.gtb_ltb, !Z.ltb_ge. done.
Qed.

(** C10: the report partitions the users of the graph: every user occurs exactly once, in a cluster
    or as isolated; two users share a cluster exactly when a chain of edges joins them. *)
Theorem analyze_clusters_are_components `{MapRange} vs es report :
  Analyze vs es = inr report →
  concat (map cl_Users (rp_Clusters report)) ++ rp_IsolatedUsers report ≡ₚ
    map opaque_of (filter is_user_vertex vs) ∧
  NoDup (concat (map cl_Users (rp_Clusters report)) ++ rp_IsolatedUsers report) ∧
  Forall (λ c, 2 <= len (cl_Users c)) (rp_Clusters report) ∧
  ∀ x y, x ∈ vs → y ∈ vs → is_user_vertex x = true → is_user_vertex y = true → v_ID x ≠ v_ID y →
    (∃ c, c ∈ rp_Clusters report ∧ opaque_of x ∈ cl_Users c ∧ opaque_of y ∈ cl_Users c) ↔
    joined es (v_ID x) (v_ID y).
Proof.
  intros (_ & _ & loaded & adjacency & LG & ->)%analyze_success.
  pose proof (loaded_adjacency _ _ _ _ LG) as GA. pose proof (loaded_good _ _ _ _ LG) as GV.
  pose proof (report_users loaded adjacency) as Hu. cbn zeta in Hu.
  rewrite (user_vertices_perm _ _ _ _ LG) in Hu. split_and!; [done|rewrite Hu| |].
  - eapply sublist_NoDup; [exact (gg_opaques _ _ (lg_good _ _ _ _ LG))|].
    apply (fmap_sublist opaque_of), sublist_filter.
  - apply Forall_forall. intros c (s & _ & Hs & ->)%elem_of_clusters. cbn.
    unfold small in Hs. apply Z.ltb_ge in Hs. done.
  - intros x y Hx Hy Hux Huy Hne. rewrite <- (connected_joined _ _ _ _ LG).
    by apply (report_clusters loaded adjacency (v_ID x) (v_ID y) (kept x) (kept y));
      try apply (loaded_vertex _ _ _ _ LG).
Qed.

(** the report does not depend on the order of the vertices and edges the database returns,
    nor on the order in which Go iterates over maps. *)
Theorem analyze_order_independent (R1 R2 : MapRange) vs vs' es es' report :
  vs ≡ₚ vs' → es ≡ₚ es' →
  Analyze (H0 := R1) vs es = inr report → Analyze (H0 := R2) vs' es' = inr report.
Proof.
  intros Hv He (H1 & H2 & loaded & adjacency & LG & ->)%analyze_success.
  unfold len in H1, H2. rewrite Hv in H1. rewrite He in H2.
  apply analyze_success. split_and!; [done..|].
  assert (∃ l a, LoadedGraph vs' es' l a) as (l & a & LG').
  { do 2 eexists. apply good_loaded. exact (good_perm _ _ _ _ Hv He (lg_good _ _ _ _ LG)). }
  destruct (loaded_perm _ _ _ _ _ _ _ _ Hv He LG LG') as [-> ->].
  exists loaded, adjacency. split; [done|by eapply analysis_range].
Qed.

(** the evidence of a cluster is exactly the identifiers joined to its users that at least two
    users share, with kind, number of sharers and weight; the risk score is the sum of the weights;
    users, evidence and clusters are sorted. *)
Theorem analyze_evidence_complete `{MapRange} vs es report :
  Analyze vs es = inr report →
  StronglySorted (sort_le cluster_less) (rp_Clusters report) ∧
  ∀ c, c ∈ rp_Clusters report →
    cl_ClusterID c = ("cluster:" ++ default "" (head (cl_Users c)))%string ∧
    cl_RiskScore c = total_weight (cl_Evidence c) ∧
    StronglySorted (sort_le str_ltb) (cl_Users c) ∧
    StronglySorted (sort_le evidence_less) (cl_Evidence c) ∧
    ∀ e, e ∈ cl_Evidence c ↔
      ∃ user identifier, user ∈ vs ∧ identifier ∈ vs ∧ is_user_vertex user = true ∧
        is_user_vertex identifier = false ∧ opaque_of user ∈ cl_Users c ∧
        joined es (v_ID user) (v_ID identifier) ∧
        2 <= Z.of_nat (size (sharers es (v_ID identifier))) ∧
        e = mkEvidence (kind_of identifier) (opaque_of identifier)
              (Z.of_nat (size (sharers es (v_ID identifier)))) (identifierWeight (kind_of identifier)).
Proof.
  intros (Hsize & _ & loaded & adjacency & LG & ->)%analyze_success.
  pose proof (loaded_adjacency _ _ _ _ LG) as GA. pose proof (loaded_good _ _ _ _ LG) as GV.
  split; [apply sort_by_sorted, _|]. intros c Hc.
  destruct (cluster_evidence loaded adjacency c Hc) as (_ & Hrisk & Hsorted & Hid & Hev).
  { by rewrite (loaded_size _ _ _ _ LG). }
  split_and!; [done..| |].
  { apply elem_of_clusters in Hc as (s & _ & _ & ->). apply sort_by_sorted, _. }
  intros e. rewrite Hev. clear Hev. split.
  - intros (x & vx & id & Hx & Hu & Hin & Hconn & Hnu & He).
    apply (loaded_iff _ _ _ _ LG) in Hx as (u & Hu1 & <- & ->).
    assert (∃ i, i ∈ vs ∧ v_ID i = id) as (i & Hi & <-).
    { apply (connected_vertex _ _ _ _ LG (v_ID u)); [|done]. eexists. by apply (loaded_vertex _ _ _ _ LG). }
    rewrite (vertex_at_kept _ _ _ _ LG i Hi) in Hnu. rewrite kept_is_user in Hnu.
    exists u, i. apply (evidence_vertex _ _ _ _ LG i e Hi Hnu) in He as [H2 ->].
    split_and!; try done. by apply (connected_joined _ _ _ _ LG).
  - intros (u & i & Hu & Hi & Huu & Hnu & Hin & Hj & H2 & He).
    exists (v_ID u), (kept u), (v_ID i). split_and!; [by eapply loaded_vertex|done|done| | |].
    + by apply (connected_joined _ _ _ _ LG).
    + by rewrite (vertex_at_kept _ _ _ _ LG i Hi).
    + by apply (evidence_vertex _ _ _ _ LG i e Hi Hnu).
Qed.
End Reports.

(** ** The workflow *)

(** The ways a run of the workflow over any backend can end. *)
Lemma workflow_inv `{GraphLib} `{MapRange} {B} `{!WorkflowBackend B} fixture c (b : B) o c' b' :
  workflow_body fixture c b = (o, c', b') →
  (ValidateFixture fixture ≠ None → b' = b) ∧
  ((∃ cause, o = Fail (cause_error cause)) ∨
   (∃ e, ValidateFixture fixture = Some e ∧ o = Fail e) ∨
   (∃ c1 e, o = Fail e ∧ ReplaceFixture fixture c1 b = (Fail e, c', b')) ∨
   (∃ c1 c2 b1 c3, ReplaceFixture fixture c1 b = (Val tt, c2, b1) ∧
      ((∃ e, o = Fail e ∧ LoadFixture (fx_ID fixture) c3 b1 = (Fail e, c', b')) ∨
       ∃ graph c4, LoadFixture (fx_ID fixture) c3 b1 = (Val graph, c4, b') ∧
         o = match Analyze (fst graph) (snd graph) with inl e => Fail e | inr r => Val r end)) ∨
   o = Panic).
Proof.
  unfold workflow_body. intros E. go_inv E; (split; [done || (intros; congruence)|]).
  all: try match goal with u : () |- _ => destruct u end.
  all: try match goal with Ha : Analyze _ _ = _ |- _ => rename Ha into Han end.
  all: first
    [ by do 4 right
    | left; by eexists
    | right; left; by eexists
    | right; right; left; by do 2 eexists
    | do 3 right; left; do 4 eexists; split; [eassumption|]; left; by eexists
    | do 3 right; left; do 4 eexists; split; [eassumption|]; right; do 2 eexists;
      split; [eassumption|]; by rewrite Han ].
Qed.

Section Workflow.
Context `{GraphLib} `{MapRange} {DB : Type} `{!Neo4jClient DB}.

(** The errors the package documents. *)
Definition package_error (e : GoError) : Prop :=
  errors_Is e "abusecluster.ErrInvalidFixture" = true ∨ errors_Is e "abusecluster.ErrInvalidGraph" = true ∨
  errors_Is e "abusecluster.ErrGraphTooLarge" = true ∨ errors_Is e "abusecluster.ErrBackend" = true ∨
  ∃ cause, e = cause_error cause.

Lemma store_error_backend e : errors_Is (storeError e) "abusecluster.ErrBackend" = true.
Proof. unfold storeError. repeat case_match; done. Qed.

Lemma validate_vertices_error fid i vs labels e :
  validate_vertices fid i vs labels = inl e → errors_Is e "abusecluster.ErrInvalidFixture" = true.
Proof.
  revert i labels. induction vs as [|v vs IH]; intros i labels; cbn [validate_vertices]; [done|].
  destruct (validate_vertex fid i v labels) as [?|l] eqn:E; [|apply IH]. intros [= <-].
  unfold validate_vertex in E. repeat (case_match; simplify_eq; try done).
Qed.

Lemma validate_edges_error fid labels i es ids logical e :
  validate_edges fid labels i es ids logical = Some e →
  errors_Is e "abusecluster.ErrInvalidFixture" = true.
Proof.
  revert i ids logical. induction es as [|x es IH]; intros i ids logical; cbn [validate_edges]; [done|].
  destruct (validate_edge _ _ _ _ _ _) as [?|[ids' logical']] eqn:E; [|apply IH]. intros [= <-].
  unfold validate_edge in E. repeat (case_match; simplify_eq; try done).
Qed.

Lemma validate_error fixture e : ValidateFixture fixture = Some e → package_error e.
Proof.
  unfold ValidateFixture, package_error. case_match; [intros [= <-]; by right; right; left|].
  case_match; [intros [= <-]; by left|].
  destruct (validate_vertices _ _ _ _) eqn:E.
  - intros [= <-]. left. by eapply validate_vertices_error.
  - intros He. left. by eapply validate_edges_error.
Qed.

(** [validateLoadedGraph] accepts what [Analyze] accepts. *)
Lemma validated_loaded vs es :
  match validateLoadedGraph vs es with
  | None => ∃ report, Analyze vs es = inr report
  | Some e => package_error e
  end.
Proof.
  unfold validateLoadedGraph, Analyze, package_error. destruct (_ || _); [by right; right; left|].
  destruct (loadVertices vs) as [?|[loaded fid]] eqn:Ev; [right; left; by eapply load_vertices_error|].
  destruct (loadEdges es loaded fid) eqn:Ee; [right; left; by eapply load_edges_error|by eauto].
Qed.

Lemma with_storeError_inv {A} (m : GoM DB A) c db o c' db' :
  with_storeError m c db = (o, c', db') →
  (∃ e, o = Fail (storeError e) ∧ m c db = (Fail e, c', db')) ∨
  (m c db = (o, c', db') ∧ ∀ e, o ≠ Fail e).
Proof. unfold with_storeError. destruct (m c db) as [[[]?]?]; intros [= <- <- <-]; eauto. Qed.

Lemma on_client_inv {A} (m : GoM DB A) c (s : Store (DB := DB)) o c' s' :
  on_client m c s = (o, c', s') →
  (o = Fail ErrBackend ∧ s' = s) ∨
  ∃ db db', s = Some (Some db) ∧ s' = Some (Some db') ∧ m c db = (o, c', db').
Proof.
  unfold on_client. destruct s as [[db|]|]; [|intros [= <- <- <-]; by left..].
  destruct (m c db) as [[o1 c1] db1] eqn:E. intros [= <- <- <-]. right. by exists db, db1.
Qed.

Lemma replace_fixture_error fixture c (s : Store (DB := DB)) e c' s' :
  Store_ReplaceFixture fixture c s = (Fail e, c', s') → package_error e.
Proof.
  intros [[[= ->] _]|(db & db' & -> & -> & E)]%on_client_inv.
  { right; right; right; by left. }
  unfold fixtureParameters in E. destruct (ValidateFixture fixture) eqn:Hv.
  - injection E as <- _ _. by eapply validate_error.
  - apply with_storeError_inv in E as [(e' & [= ->] & _)|[_ Hn]]; [|by destruct (Hn e)].
    right; right; right; left. apply store_error_backend.
Qed.

(** A successful [LoadFixture] returns a graph the analyzer accepts; a failed one reports an error of
    the package. *)
Lemma load_fixture_outcome fid c (s : Store (DB := DB)) o c' s' :
  Store_LoadFixture fid c s = (o, c', s') →
  (∀ vs es, o = Val (vs, es) → ∃ report, Analyze vs es = inr report) ∧
  (∀ e, o = Fail e → package_error e).
Proof.
  intros [[-> _]|(db & db' & -> & -> & E)]%on_client_inv.
  { split; [done|]. intros e [= <-]. right; right; right; by left. }
  case_bool_decide; go_inv E.
  { split; [done|]. intros e [= <-]. by left. }
  all: repeat match goal with
    | Hw : with_storeError _ _ _ = _ |- _ =>
        apply with_storeError_inv in Hw as [(? & ? & ?)|[? ?]]; simplify_eq
    end.
  all: split; [intros vs' es' Ho|intros e' Ho]; simplify_eq; try done.
  all: try (right; right; right; left; apply store_error_backend).
  all: try (right; right; by left).
  all: try match goal with
    | Hv : validateLoadedGraph ?v ?w = _ |- _ =>
        pose proof (validated_loaded v w) as Hg; rewrite Hv in Hg; exact Hg
    end.
  all: exfalso; naive_solver.
Qed.

(** a run of the workflow over the store replaces nothing when the fixture is invalid; it
    reports the analysis of the graph it reloaded after replacing the fixture, and that analysis
    never fails: every error is one the package documents and comes from before it. *)
Theorem execute_store_workflow c fixture (s : Store (DB := DB)) o s' :
  Execute (Some c) fixture s = (o, s') →
  (ValidateFixture fixture ≠ None → s' = s) ∧
  match o with
  | Val report =>
      ∃ vs es c1 c2 s1 c3 c4,
        Store_ReplaceFixture fixture c1 s = (Val tt, c2, s1) ∧
        Store_LoadFixture (fx_ID fixture) c3 s1 = (Val (vs, es), c4, s') ∧
        Analyze vs es = inr report
  | Fail e => package_error e
  | Panic => True
  end.
Proof.
  unfold Execute. cbn [isNilWorkflowBackend store_backend]. destruct s as [s|].
  2: { intros [= <- <-]. split; [done|]. right; right; right; by left. }
  intros Hr. assert (∃ c', workflow_body fixture c (Some s : Store) = (o, c', s')) as [c' E].
  { revert Hr. generalize (workflow_body fixture c (Some s : Store)). intros [[o1 c1] s1] [= -> ->]. eauto. }
  apply workflow_inv in E as [Hkeep Hcases]. split; [done|].
  destruct Hcases as [[cause ->]|[(e & He & ->)|[(c1 & e & -> & Hw)|
    [(c1 & c2 & s1 & c3 & Hw & [(e & -> & Hl)|([vs es] & c4 & Hl & ->)])| ->]]]].
  - do 4 right. by eexists.
  - by eapply validate_error.
  - exact (replace_fixture_error _ _ _ _ _ _ Hw).
  - exact (proj2 (load_fixture_outcome _ _ _ _ _ _ Hl) _ eq_refl).
  - destruct (proj1 (load_fixture_outcome _ _ _ _ _ _ Hl) vs es eq_refl) as [report Hr'].
    cbn [fst snd]. rewrite Hr'. by exists vs, es, c1, c2, s1, c3, c4.
  - done.
Qed.
End Workflow.

Section Walks.
Context `{GraphLib}.

(** on a loaded graph the breadth-first walk from an unvisited vertex terminates: with one
    iteration per vertex the queue is empty, more fuel changes nothing, and exactly the vertices
    joined to the start have been added to the visited ones. *)
Theorem walk_component_terminates (vs : list Vertex) (es : list Edge) loaded fid adjacency start
    visited fuel :
  loadVertices vs = inr (loaded, fid) → loadEdges es loaded fid = inr adjacency →
  is_Some (loaded !! start) → start ∉ visited →
  (∀ a b, a ∈ visited → joined_by es a b → b ∈ visited) → (size loaded ≤ fuel)%nat →
  let s := walkComponent loaded adjacency start visited in
  wk_queue s = [] ∧
  walk loaded adjacency fuel (mkWalk [start] ({[start]} ∪ visited) [] ∅) = s ∧
  ∀ x, x ∈ wk_visited s ↔ x ∈ visited ∨ joined es start x.
Proof.
  intros Hv He Hstart Hfresh Hcl Hfuel s.
  assert (LoadedGraph vs es loaded adjacency) as LG by (apply load_graph; eauto).
  destruct (walk_component_spec loaded adjacency (GA := loaded_adjacency _ _ _ _ LG) start visited)
    as (Hq & comp & Hc & _ & _ & _ & Hvis); [done|done| |].
  { intros a b Ha. rewrite (linked_iff _ _ _ _ LG). by apply Hcl. }
  split_and!; [done| |].
  - replace fuel with (size loaded + (fuel - size loaded))%nat by lia.
    rewrite walk_add. by apply walk_done.
  - intros x. unfold s. rewrite Hvis, (ic_elem _ _ _ _ Hc).
    by rewrite (connected_joined _ _ _ _ LG).
Qed.

(** a fixture that passes [ValidateFixture] is never refused by [Analyze]. *)
Theorem validated_fixture_analyzes `{MapRange} fixture :
  ValidateFixture fixture = None →
  ∃ report, Analyze (fx_Vertices fixture) (fx_Edges fixture) = inr report.
Proof.
  intros (H1 & H2 & Hg)%validated_good.
  eexists. apply analyze_success. split_and!; [done..|].
  do 2 eexists. split; [by apply good_loaded|done].
Qed.
End Walks.

(** ** Witnesses on the default fixture *)

Definition demo_vertices : list PlainVertex :=
  match DefaultFixture (H := plain_graph) with inr f => fx_Vertices f | inl _ => [] end.
Definition demo_edges : list PlainEdge :=
  match DefaultFixture (H := plain_graph) with inr f => fx_Edges f | inl _ => [] end.
Definition demo_report : Report :=
  mkReport
    [mkCluster "cluster:usr-001" ["usr-001"; "usr-002"; "usr-003"]
       [mkEvidence "device" "dev-001" 2 3; mkEvidence "ip" "ip-001" 2 1] 4;
     mkCluster "cluster:usr-004" ["usr-004"; "usr-005"]
       [mkEvidence "device" "dev-002" 2 3; mkEvidence "ip" "ip-002" 2 1] 4] ["usr-006"].

Lemma demo_analysis :
  Analyze (H := plain_graph) (H0 := plain_range) demo_vertices demo_edges = inr demo_report.
Proof. vm_compute. reflexivity. Qed.

Lemma analyze_clusters_are_components_witness :
  NoDup (concat (map cl_Users (rp_Clusters demo_report)) ++ rp_IsolatedUsers demo_report).
Proof.
  exact (proj1 (proj2 (analyze_clusters_are_components (H := plain_graph) (H0 := plain_range)
    demo_vertices demo_edges demo_report demo_analysis))).
Defined.

Lemma analyze_order_independent_witness :
  Analyze (H := plain_graph) (H0 := plain_range) (rev demo_vertices) (rev demo_edges) =
    inr demo_report.
Proof.
  apply (analyze_order_independent (H := plain_graph) plain_range plain_range demo_vertices
    (rev demo_vertices) demo_edges (rev demo_edges) demo_report);
    [apply Permutation_rev|apply Permutation_rev|exact demo_analysis].
Defined.

Lemma analyze_evidence_complete_witness :
  StronglySorted (sort_le cluster_less) (rp_Clusters demo_report).
Proof.
  exact (proj1 (analyze_evidence_complete (H := plain_graph) (H0 := plain_range)
    demo_vertices demo_edges demo_report demo_analysis)).
Defined.

Lemma analyze_accepts_witness :
  GoodGraph (H := plain_graph) demo_vertices demo_edges ∧
  errors_Is (Errorf "%w: limit exceeded" [ErrGraphTooLarge] []) "abusecluster.ErrGraphTooLarge" = true.
Proof.
  split; [|vm_compute; reflexivity].
  exact (proj2 (proj2 (proj1 (proj1 (analyze_accepts (H := plain_graph) (H0 := plain_range)
    demo_vertices demo_edges)) (ex_intro _ demo_report demo_analysis)))).
Defined.

Definition demo_fixture : Fixture (H := plain_graph) :=
  mkFixture (H := plain_graph) FixtureID demo_vertices demo_edges.

Lemma demo_validated : ValidateFixture (H := plain_graph) demo_fixture = None.
Proof. vm_compute. reflexivity. Qed.

Lemma validated_fixture_analyzes_witness :
  ∃ report, Analyze (H := plain_graph) (H0 := plain_range) demo_vertices demo_edges = inr report.
Proof.
  exact (validated_fixture_analyzes (H := plain_graph) (H0 := plain_range) demo_fixture demo_validated).
Defined.

Definition demo_loaded : gmap string analyzedVertex :=
  match loadVertices (H := plain_graph) demo_vertices with inr (m, _) => m | inl _ => ∅ end.
Definition demo_adjacency : gmap string (list string) :=
  match loadEdges (H := plain_graph) demo_edges demo_loaded FixtureID with inr m => m | inl _ => ∅ end.

Lemma demo_loads :
  loadVertices (H := plain_graph) demo_vertices = inr (demo_loaded, FixtureID) ∧
  loadEdges (H := plain_graph) demo_edges demo_loaded FixtureID = inr demo_adjacency ∧
  bool_decide (is_Some (demo_loaded !! "usr-001")) = true.
Proof. split_and!; vm_compute; reflexivity. Qed.

Lemma walk_component_terminates_witness :
  wk_queue (walkComponent demo_loaded demo_adjacency "usr-001" ∅) = [].
Proof.
  refine (proj1 (walk_component_terminates (H := plain_graph) demo_vertices demo_edges demo_loaded
    FixtureID demo_adjacency "usr-001" ∅ (size demo_loaded) (proj1 demo_loads)
    (proj1 (proj2 demo_loads)) _ (not_elem_of_empty _) _ (le_n _))).
  - apply (bool_decide_eq_true_1 _), demo_loads.
  - intros a b Ha. destruct (not_elem_of_empty _ Ha).
Defined.

(** A database in memory: the parameters of the last write, read back as nodes and relationships
    whose database IDs differ from the opaque ones. *)
Definition memory_rows (params : gmap string CypherArg) (key : string)
    : list (gmap string (option PropVal)) :=
  match params !! key with Some (ArgRows rows) => rows | _ => [] end.
Definition row_string (row : gmap string (option PropVal)) (key : string) : string :=
  match row !! key with Some (Some (PStr s)) => s | _ => "" end.
Definition memory_node (label fixtureID : string) (row : gmap string (option PropVal)) : PlainVertex :=
  mkVertex ("node:" ++ row_string row propertyOpaqueID) label
    (<[propertyFixtureID := PStr fixtureID]> (omap id row)).
Definition memory_relationship (fixtureID : string) (row : gmap string (option PropVal)) : PlainEdge :=
  mkEdge ("rel:" ++ row_string row propertyOpaqueID) labelUsesIdentifier
    ("node:" ++ row_string row "start") ("node:" ++ row_string row "end")
    (<[propertyFixtureID := PStr fixtureID]> {[propertyOpaqueID := PStr (row_string row propertyOpaqueID)]}).
Definition memory_id (params : gmap string CypherArg) : string :=
  match params !! "fixture_id" with Some (ArgStr s) => s | _ => "" end.

#[local] Instance memory_client : Neo4jClient (H := plain_graph) (gmap string CypherArg) :=
  @Build_Neo4jClient plain_graph (gmap string CypherArg)
  (λ _ params c _, (Val tt, c, params))
  (λ _ q _ c db,
    (Val (map (memory_node labelUser (memory_id q)) (memory_rows db "users") ++
          map (memory_node labelIdentifier (memory_id q)) (memory_rows db "identifiers")), c, db))
  (λ _ q _ c db,
    (Val (map (memory_relationship (memory_id q)) (memory_rows db "edges")), c, db)).

Lemma demo_execution :
  ∃ s', Execute (H := plain_graph) (H0 := plain_range) (Some Background) demo_fixture
          (Some (Some (∅ : gmap string CypherArg)) : Store) = (Val demo_report, s').
Proof. eexists. vm_compute. reflexivity. Qed.

Lemma execute_store_workflow_witness :
  ∃ (vs : list PlainVertex) (es : list PlainEdge),
    Analyze (H := plain_graph) (H0 := plain_range) vs es = inr demo_report.
Proof.
  destruct demo_execution as [s' E].
  destruct (proj2 (execute_store_workflow (H := plain_graph) (H0 := plain_range) Background
    demo_fixture (Some (Some ∅)) (Val demo_report) s' E))
    as (vs & es & _ & _ & _ & _ & _ & _ & _ & Han).
  exists vs, es. exact Han.
Defined.
