(* ===== verification/Recommendation.v ===== *)
(** examples/graph-recommendation/internal/recommendation: the indexed graph, product and follow
    recommendations, and the fixture. *)
From S2P Require Import Prelude GraphLib.

(** ** model.go, errors.go *)

Definition FixtureID : string := "graph-recommendation-v1".
Definition MaxVertices : Z := 256.
Definition MaxEdges : Z := 1024.

Definition ErrInvalidFixture : GoError :=
  Sentinel "recommendation.ErrInvalidFixture" "graph recommendation: invalid fixture".
Definition ErrInvalidGraph : GoError :=
  Sentinel "recommendation.ErrInvalidGraph" "graph recommendation: invalid graph".
Definition ErrGraphTooLarge : GoError :=
  Sentinel "recommendation.ErrGraphTooLarge" "graph recommendation: graph too large".
Definition ErrUnknownSeed : GoError :=
  Sentinel "recommendation.ErrUnknownSeed" "graph recommendation: unknown seed user".
Definition ErrInvalidLimit : GoError :=
  Sentinel "recommendation.ErrInvalidLimit" "graph recommendation: invalid limit".
Definition ErrInvalidContext : GoError :=
  Sentinel "recommendation.ErrInvalidContext" "graph recommendation: invalid context".

Definition labelUser : string := "User".
Definition labelProduct : string := "Product".
Definition labelPurchased : string := "PURCHASED".
Definition labelFollows : string := "FOLLOWS".
Definition propertyFixtureID : string := "fixture_id".
Definition propertyName : string := "name".
Definition propertyCategory : string := "category".
Definition propertyRating : string := "rating".

Record logicalEdgeKey := mkKey { lk_label : string; lk_start : string; lk_end : string }.
#[export] Instance logicalEdgeKey_eq_dec : EqDecision logicalEdgeKey.
Proof. solve_decision. Defined.
#[export] Instance logicalEdgeKey_countable : Countable logicalEdgeKey.
Proof.
  refine (inj_countable' (λ k, (lk_label k, lk_start k, lk_end k)) (λ '(l, s, e), mkKey l s e) _).
  by intros [].
Defined.

Definition stringProperty (properties : Properties) (key : string) : option string :=
  match prop_string properties key with
  | Some value => if bool_decide (TrimSpace value = "") then None else Some value
  | None => None
  end.
Definition nonBlankProperty (properties : Properties) (key : string) : bool :=
  match stringProperty properties key with
  | Some value => negb (bool_decide (TrimSpace value = ""))
  | None => false
  end.
(** [properties[key].(int)]. *)
Definition int_property (properties : Properties) (key : string) : option Z :=
  match properties !! key with Some (PInt rating) => Some rating | _ => None end.
Definition isValidRating (rating : option Z) : bool :=
  match rating with Some rating => (1 <=? rating) && (rating <=? 5) | None => false end.

Definition invalidGraph (reason : string) : GoError := Errorf "%w: %s" [ErrInvalidGraph] [FStr reason].

(** ** graph.go *)

Section Graph.
Context `{GraphLib}.

Record Fixture := mkFixture { fx_ID : string; fx_Vertices : list Vertex; fx_Edges : list Edge }.

Record purchase := mkPurchase {
  pu_edge : Edge; pu_userID : string; pu_productID : string; pu_rating : Z
}.
Record follow := mkFollow { fo_edge : Edge; fo_follower : string; fo_followee : string }.

Record Graph := mkGraph {
  g_fixtureID : string;
  g_vertices : gmap string Vertex;
  g_users : gmap string Vertex;
  g_products : gmap string Vertex;
  g_purchasesByUser : gmap string (list purchase);
  g_purchasesByProduct : gmap string (list purchase);
  g_followsByUser : gmap string (list follow)
}.
Definition empty_graph : Graph := mkGraph "" ∅ ∅ ∅ ∅ ∅ ∅.

(** [m[id]] of a map of slices. *)
Definition at_id {A} (m : gmap string (list A)) (id : string) : list A := default [] (m !! id).
Definition append_at {A} (id : string) (x : A) (m : gmap string (list A)) : gmap string (list A) :=
  <[id := at_id m id ++ [x]]> m.

(** One iteration of the vertex loop; the fixture ID is the graph's field here. *)
Definition add_vertex (vertex : Vertex) (g : Graph) : GoError + Graph :=
  if bool_decide (is_Some (v_Validate vertex)) then inl (invalidGraph "invalid vertex")
  else
    let id := v_ID vertex in
    if bool_decide (is_Some (g_vertices g !! id)) then inl (invalidGraph "duplicate vertex")
    else
      let properties := v_Properties vertex in
      match stringProperty properties propertyFixtureID with
      | None => inl (invalidGraph "invalid vertex properties")
      | Some vertexFixtureID =>
          if negb (bool_decide (g_fixtureID g = "")) && negb (bool_decide (g_fixtureID g = vertexFixtureID))
          then inl (invalidGraph "inconsistent namespace")
          else
            let fixtureID := vertexFixtureID in
            if bool_decide (v_Label vertex = labelUser) then
              if negb (bool_decide (size properties = 2%nat)) || negb (nonBlankProperty properties propertyName)
              then inl (invalidGraph "invalid user properties")
              else inr (mkGraph fixtureID (<[id := vertex]> (g_vertices g)) (<[id := vertex]> (g_users g))
                          (g_products g) (g_purchasesByUser g) (g_purchasesByProduct g) (g_followsByUser g))
            else if bool_decide (v_Label vertex = labelProduct) then
              if negb (bool_decide (size properties = 3%nat)) || negb (nonBlankProperty properties propertyName)
                 || negb (nonBlankProperty properties propertyCategory)
              then inl (invalidGraph "invalid product properties")
              else inr (mkGraph fixtureID (<[id := vertex]> (g_vertices g)) (g_users g)
                          (<[id := vertex]> (g_products g)) (g_purchasesByUser g) (g_purchasesByProduct g)
                          (g_followsByUser g))
            else inl (invalidGraph "invalid vertex label")
      end.

Fixpoint add_vertices (vertices : list Vertex) (g : Graph) : GoError + Graph :=
  match vertices with
  | [] => inr g
  | vertex :: rest =>
      match add_vertex vertex g with
      | inl e => inl e
      | inr g => add_vertices rest g
      end
  end.

Definition with_purchase (p : purchase) (g : Graph) : Graph :=
  mkGraph (g_fixtureID g) (g_vertices g) (g_users g) (g_products g)
    (append_at (pu_userID p) p (g_purchasesByUser g))
    (append_at (pu_productID p) p (g_purchasesByProduct g)) (g_followsByUser g).
Definition with_follow (f : follow) (g : Graph) : Graph :=
  mkGraph (g_fixtureID g) (g_vertices g) (g_users g) (g_products g) (g_purchasesByUser g)
    (g_purchasesByProduct g) (append_at (fo_follower f) f (g_followsByUser g)).

(** The switch on the label of an edge. *)
Definition index_edge (edge : Edge) (g : Graph) : GoError + Graph :=
  let properties := e_Properties edge in
  let startID := e_StartID edge in
  let endID := e_EndID edge in
  if bool_decide (e_Label edge = labelPurchased) then
    if negb (bool_decide (size properties = 2%nat)) || negb (isValidRating (int_property properties propertyRating))
    then inl (invalidGraph "invalid purchase properties")
    else if bool_decide (g_users g !! startID = None) then inl (invalidGraph "purchase start is not user")
    else if bool_decide (g_products g !! endID = None) then inl (invalidGraph "purchase end is not product")
    else inr (with_purchase
                (mkPurchase edge startID endID (default 0 (int_property properties propertyRating))) g)
  else if bool_decide (e_Label edge = labelFollows) then
    if negb (bool_decide (size properties = 1%nat)) then inl (invalidGraph "invalid follow properties")
    else if bool_decide (g_users g !! startID = None) then inl (invalidGraph "follow start is not user")
    else if bool_decide (g_users g !! endID = None) || bool_decide (startID = endID)
    then inl (invalidGraph "invalid follow endpoints")
    else inr (with_follow (mkFollow edge startID endID) g)
  else inl (invalidGraph "invalid edge label").

(** One iteration of the edge loop, with the IDs and logical edges seen so far. *)
Definition add_edge (edge : Edge) (edgeIDs : gset string) (logicalEdges : gset logicalEdgeKey) (g : Graph)
    : GoError + (gset string * gset logicalEdgeKey * Graph) :=
  if bool_decide (is_Some (e_Validate edge)) then inl (invalidGraph "invalid edge")
  else if bool_decide (e_ID edge ∈ edgeIDs) then inl (invalidGraph "duplicate edge")
  else
    match stringProperty (e_Properties edge) propertyFixtureID with
    | None => inl (invalidGraph "invalid edge namespace")
    | Some edgeFixtureID =>
        if negb (bool_decide (g_fixtureID g = "")) && negb (bool_decide (edgeFixtureID = g_fixtureID g))
        then inl (invalidGraph "invalid edge namespace")
        else if bool_decide (g_vertices g !! e_StartID edge = None) then inl (invalidGraph "missing edge start")
        else if bool_decide (g_vertices g !! e_EndID edge = None) then inl (invalidGraph "missing edge end")
        else
          let logicalKey := mkKey (e_Label edge) (e_StartID edge) (e_EndID edge) in
          if bool_decide (logicalKey ∈ logicalEdges) then inl (invalidGraph "duplicate logical edge")
          else
            match index_edge edge g with
            | inl e => inl e
            | inr g => inr ({[e_ID edge]} ∪ edgeIDs, {[logicalKey]} ∪ logicalEdges, g)
            end
    end.

Fixpoint add_edges (edges : list Edge) (edgeIDs : gset string) (logicalEdges : gset logicalEdgeKey)
    (g : Graph) : GoError + Graph :=
  match edges with
  | [] => inr g
  | edge :: rest =>
      match add_edge edge edgeIDs logicalEdges g with
      | inl e => inl e
      | inr (edgeIDs, logicalEdges, g) => add_edges rest edgeIDs logicalEdges g
      end
  end.

Definition by_product (left right : purchase) : bool :=
  if negb (bool_decide (pu_productID left = pu_productID right))
  then str_ltb (pu_productID left) (pu_productID right)
  else str_ltb (e_ID (pu_edge left)) (e_ID (pu_edge right)).
Definition by_user (left right : purchase) : bool :=
  if negb (bool_decide (pu_userID left = pu_userID right))
  then str_ltb (pu_userID left) (pu_userID right)
  else str_ltb (e_ID (pu_edge left)) (e_ID (pu_edge right)).
Definition by_followee (left right : follow) : bool :=
  if negb (bool_decide (fo_followee left = fo_followee right))
  then str_ltb (fo_followee left) (fo_followee right)
  else str_ltb (e_ID (fo_edge left)) (e_ID (fo_edge right)).

Definition sort_indexes (g : Graph) : Graph :=
  mkGraph (g_fixtureID g) (g_vertices g) (g_users g) (g_products g)
    (sort_by by_product <$> g_purchasesByUser g) (sort_by by_user <$> g_purchasesByProduct g)
    (sort_by by_followee <$> g_followsByUser g).

Definition NewGraph (vertices : list Vertex) (edges : list Edge) : GoError + Graph :=
  if (len vertices >? MaxVertices) || (len edges >? MaxEdges)
  then inl (Errorf "%w: limit exceeded" [ErrGraphTooLarge] [])
  else
    match add_vertices vertices empty_graph with
    | inl e => inl e
    | inr g =>
        match add_edges edges ∅ ∅ g with
        | inl e => inl e
        | inr g => inr (sort_indexes g)
        end
    end.

(** The lookups return the first matching entry of the sorted slice. *)
Definition productPurchase (g : Graph) (userID productID : string) : option purchase :=
  List.find (λ p, bool_decide (pu_productID p = productID)) (at_id (g_purchasesByUser g) userID).
Definition followEdge (g : Graph) (followerID followeeID : string) : option follow :=
  List.find (λ f, bool_decide (fo_followee f = followeeID)) (at_id (g_followsByUser g) followerID).
End Graph.

(** ** Requests and evidence paths *)

(** A nil context fails the request; afterwards the context is not nil. *)
Definition validateRequest `{GraphLib} (g : Graph) (seedID : string) (limit : Z) : GoM unit unit :=
  if limit <? 0 then throw ErrInvalidLimit
  else
    do! ctxErr;
    if bool_decide (g_users g !! seedID = None) then throw ErrUnknownSeed else ret tt.

(** The guards of a public method in front of its body: a nil graph, then a nil context. *)
Definition on_request `{GraphLib} {A} (g : Ptr Graph) (ctx : option Ctx) (body : Graph → GoM unit A)
    : Outcome A :=
  match g, ctx with
  | None, _ => Fail ErrInvalidGraph
  | _, None => Fail ErrInvalidContext
  | Some g, Some c => let '(o, _, _) := body g c tt in o
  end.

Section Paths.
Context `{GraphPaths}.

Definition pathStep (value : Vertex + Edge) : GoError + PathStep :=
  match value with inl v => VertexStep v | inr e => EdgeStep e end.

Fixpoint path_steps (values : list (Vertex + Edge)) : GoError + list PathStep :=
  match values with
  | [] => inr []
  | value :: rest =>
      match pathStep value with
      | inl e => inl e
      | inr step => match path_steps rest with inl e => inl e | inr steps => inr (step :: steps) end
      end
  end.

Definition path_of (values : list (Vertex + Edge)) : GoError + Path :=
  match path_steps values with inl e => inl e | inr steps => NewPath steps end.

(** [g.vertices[id]]. *)
Definition vertex_of (g : Graph) (id : string) : Vertex := default zero_Vertex (g_vertices g !! id).

Definition productEvidencePath (g : Graph) (seedID sharedProductID coBuyerID candidateID : string)
    : GoError + Path :=
  match productPurchase g seedID sharedProductID, productPurchase g coBuyerID sharedProductID,
        productPurchase g coBuyerID candidateID with
  | Some seedPurchase, Some coBuyerShared, Some coBuyerCandidate =>
      path_of
        [inl (vertex_of g seedID); inr (pu_edge seedPurchase);
         inl (vertex_of g sharedProductID); inr (pu_edge coBuyerShared);
         inl (vertex_of g coBuyerID); inr (pu_edge coBuyerCandidate);
         inl (vertex_of g candidateID)]
  | _, _, _ => inl ErrInvalidGraph
  end.

Definition followEvidencePath (g : Graph) (seedID viaUserID candidateID : string) : GoError + Path :=
  match followEdge g seedID viaUserID, followEdge g viaUserID candidateID with
  | Some first, Some second =>
      path_of
        [inl (vertex_of g seedID); inr (fo_edge first); inl (vertex_of g viaUserID);
         inr (fo_edge second); inl (vertex_of g candidateID)]
  | _, _ => inl ErrInvalidGraph
  end.
End Paths.

(** ** recommendation.go *)

Section Recommend.
Context `{GraphPaths} `{MapRange}.

Record ProductEvidence := mkProductEvidence {
  pe_CoBuyerID : string; pe_SharedProductID : string; pe_Path : list string; pe_graphPath : Path
}.
Record ProductRecommendation := mkProduct {
  pr_ProductID : string; pr_Score : Z; pr_Evidence : list ProductEvidence
}.
Record FollowEvidence := mkFollowEvidence {
  fe_ViaUserID : string; fe_Path : list string; fe_graphPath : Path
}.
Record FollowRecommendation := mkUser {
  fr_UserID : string; fr_Score : Z; fr_Evidence : list FollowEvidence
}.
Record Report := mkReport {
  rp_SeedUser : string;
  rp_ProductRecommendations : list ProductRecommendation;
  rp_FollowRecommendations : list FollowRecommendation
}.

(** The keys of a map, in map order. *)
Definition range_keys {A} (m : gmap string A) : list string := map fst (range m).

(** A library or evidence error inside the loops is reported as [ErrInvalidGraph]. *)
Definition or_invalid {A} (r : GoError + A) : GoM unit A :=
  match r with inl _ => throw ErrInvalidGraph | inr a => ret a end.

(** The body of the innermost loop: [candidateBuyers[candidateID][coBuyerID]] becomes the least
    shared product. *)
Definition note_candidate (seedPurchased : gset string) (sharedID coBuyerID : string)
    (candidatePurchase : purchase) (candidateBuyers : gmap string (gmap string string))
    : GoM unit (gmap string (gmap string string)) :=
  do! ctxErr;
  let candidateID := pu_productID candidatePurchase in
  if bool_decide (candidateID ∈ seedPurchased) then ret candidateBuyers
  else
    let buyers := default ∅ (candidateBuyers !! candidateID) in
    let better :=
      match buyers !! coBuyerID with Some previous => str_ltb sharedID previous | None => true end in
    ret (<[candidateID := if better then <[coBuyerID := sharedID]> buyers else buyers]> candidateBuyers).

Definition note_buyer (g : Graph) (seedID : string) (seedPurchased : gset string) (sharedID : string)
    (coBuyerPurchase : purchase) (candidateBuyers : gmap string (gmap string string))
    : GoM unit (gmap string (gmap string string)) :=
  do! ctxErr;
  let coBuyerID := pu_userID coBuyerPurchase in
  if bool_decide (coBuyerID = seedID) then ret candidateBuyers
  else foldM (at_id (g_purchasesByUser g) coBuyerID) (note_candidate seedPurchased sharedID coBuyerID)
         candidateBuyers.

Definition note_purchase (g : Graph) (seedID : string) (seedPurchased : gset string)
    (seedPurchase : purchase) (candidateBuyers : gmap string (gmap string string))
    : GoM unit (gmap string (gmap string string)) :=
  do! ctxErr;
  foldM (at_id (g_purchasesByProduct g) (pu_productID seedPurchase))
    (note_buyer g seedID seedPurchased (pu_productID seedPurchase)) candidateBuyers.

Definition seed_purchased (seedPurchases : list purchase) : GoM unit (gset string) :=
  foldM seedPurchases (λ p acc, do! ctxErr; ret ({[pu_productID p]} ∪ acc)) ∅.

Definition product_evidence (g : Graph) (seedID candidateID : string) (buyers : gmap string string)
    (coBuyerID : string) (evidence : list ProductEvidence) : GoM unit (list ProductEvidence) :=
  do! ctxErr;
  let sharedProductID := default "" (buyers !! coBuyerID) in
  let! path := or_invalid (productEvidencePath g seedID sharedProductID coBuyerID candidateID) in
  ret (evidence ++ [mkProductEvidence coBuyerID sharedProductID
                      [seedID; sharedProductID; coBuyerID; candidateID] path]).

Definition product_result (g : Graph) (seedID : string) (candidateBuyers : gmap string (gmap string string))
    (candidateID : string) (results : list ProductRecommendation) : GoM unit (list ProductRecommendation) :=
  do! ctxErr;
  let buyers := default ∅ (candidateBuyers !! candidateID) in
  let coBuyerIDs := sort_strings (range_keys buyers) in
  let! evidence := foldM coBuyerIDs (product_evidence g seedID candidateID buyers) [] in
  ret (results ++ [mkProduct candidateID (len coBuyerIDs) evidence]).

Definition product_less (a b : ProductRecommendation) : bool :=
  if negb (pr_Score a =? pr_Score b) then pr_Score b <? pr_Score a
  else str_ltb (pr_ProductID a) (pr_ProductID b).

(** [results[:limit]] unless the limit is 0 or not below the length. *)
Definition cap_results {A} (results : list A) (limit : Z) : list A :=
  if (limit =? 0) || (limit >=? len results) then results else take (Z.to_nat limit) results.

Definition products_body (seedID : string) (limit : Z) (g : Graph) : GoM unit (list ProductRecommendation) :=
  do! validateRequest g seedID limit;
  let seedPurchases := at_id (g_purchasesByUser g) seedID in
  let! seedPurchased := seed_purchased seedPurchases in
  let! candidateBuyers := foldM seedPurchases (note_purchase g seedID seedPurchased) ∅ in
  let! results := foldM (range_keys candidateBuyers) (product_result g seedID candidateBuyers) [] in
  do! ctxErr;
  ret (cap_results (sort_by product_less results) limit).

Definition RecommendProducts (g : Ptr Graph) (ctx : option Ctx) (seedID : string) (limit : Z)
    : Outcome (list ProductRecommendation) := on_request g ctx (products_body seedID limit).

(** The body of the inner loop over the second hops. *)
Definition note_second_hop (seedID : string) (direct : gset string) (via : string) (secondHop : follow)
    (candidateVia : gmap string (gset string)) : GoM unit (gmap string (gset string)) :=
  do! ctxErr;
  let candidateID := fo_followee secondHop in
  if bool_decide (candidateID = seedID) then ret candidateVia
  else if bool_decide (candidateID ∈ direct) then ret candidateVia
  else ret (<[candidateID := {[via]} ∪ default ∅ (candidateVia !! candidateID)]> candidateVia).

Definition note_first_hop (g : Graph) (seedID : string) (direct : gset string) (firstHop : follow)
    (candidateVia : gmap string (gset string)) : GoM unit (gmap string (gset string)) :=
  do! ctxErr;
  foldM (at_id (g_followsByUser g) (fo_followee firstHop))
    (note_second_hop seedID direct (fo_followee firstHop)) candidateVia.

Definition direct_follows (follows : list follow) : GoM unit (gset string) :=
  foldM follows (λ f acc, do! ctxErr; ret ({[fo_followee f]} ∪ acc)) ∅.

Definition follow_evidence (g : Graph) (seedID candidateID : string) (viaID : string)
    (evidence : list FollowEvidence) : GoM unit (list FollowEvidence) :=
  do! ctxErr;
  let! path := or_invalid (followEvidencePath g seedID viaID candidateID) in
  ret (evidence ++ [mkFollowEvidence viaID [seedID; viaID; candidateID] path]).

Definition follow_result (g : Graph) (seedID : string) (candidateVia : gmap string (gset string))
    (candidateID : string) (results : list FollowRecommendation) : GoM unit (list FollowRecommendation) :=
  do! ctxErr;
  let via := default ∅ (candidateVia !! candidateID) in
  let viaIDs := sort_strings (range_keys (gset_to_gmap tt via)) in
  let! evidence := foldM viaIDs (follow_evidence g seedID candidateID) [] in
  ret (results ++ [mkUser candidateID (len viaIDs) evidence]).

Definition follow_less (a b : FollowRecommendation) : bool :=
  if negb (fr_Score a =? fr_Score b) then fr_Score b <? fr_Score a
  else str_ltb (fr_UserID a) (fr_UserID b).

Definition follows_body (seedID : string) (limit : Z) (g : Graph) : GoM unit (list FollowRecommendation) :=
  do! validateRequest g seedID limit;
  let firstHops := at_id (g_followsByUser g) seedID in
  let! direct := direct_follows firstHops in
  let! candidateVia := foldM firstHops (note_first_hop g seedID direct) ∅ in
  let! results := foldM (range_keys candidateVia) (follow_result g seedID candidateVia) [] in
  do! ctxErr;
  ret (cap_results (sort_by follow_less results) limit).

Definition RecommendFollows (g : Ptr Graph) (ctx : option Ctx) (seedID : string) (limit : Z)
    : Outcome (list FollowRecommendation) := on_request g ctx (follows_body seedID limit).

Definition recommend_body (seedID : string) (limit : Z) (g : Graph) : GoM unit Report :=
  do! validateRequest g seedID limit;
  let! products := products_body seedID limit g in
  let! follows := follows_body seedID limit g in
  ret (mkReport seedID products follows).

Definition Recommend (g : Ptr Graph) (ctx : option Ctx) (seedID : string) (limit : Z) : Outcome Report :=
  on_request g ctx (recommend_body seedID limit).
End Recommend.

(** ** fixture.go *)

Record namedValue := mkNamed { nv_id : string; nv_name : string; nv_category : string }.
Record purchaseSpec := mkPurchaseSpec { ps_userID : string; ps_productID : string; ps_rating : Z }.
Record followSpec := mkFollowSpec { fs_follower : string; fs_followee : string }.

Definition fixtureUsers : list namedValue :=
  [mkNamed "alice" "Alice" ""; mkNamed "bob" "Bob" ""; mkNamed "carol" "Carol" "";
   mkNamed "dave" "Dave" ""; mkNamed "eve" "Eve" ""; mkNamed "frank" "Frank" ""].
Definition fixtureProducts : list namedValue :=
  [mkNamed "laptop" "Laptop" "Electronics"; mkNamed "phone" "Phone" "Electronics";
   mkNamed "tablet" "Tablet" "Electronics"; mkNamed "headphones" "Headphones" "Accessories";
   mkNamed "keyboard" "Keyboard" "Accessories"; mkNamed "mouse" "Mouse" "Accessories"].
Definition fixturePurchases : list purchaseSpec :=
  [mkPurchaseSpec "alice" "laptop" 5; mkPurchaseSpec "alice" "phone" 4; mkPurchaseSpec "alice" "tablet" 3;
   mkPurchaseSpec "bob" "laptop" 4; mkPurchaseSpec "bob" "headphones" 5;
   mkPurchaseSpec "carol" "phone" 5; mkPurchaseSpec "carol" "headphones" 4;
   mkPurchaseSpec "dave" "tablet" 4; mkPurchaseSpec "dave" "headphones" 3;
   mkPurchaseSpec "eve" "laptop" 3; mkPurchaseSpec "eve" "keyboard" 5;
   mkPurchaseSpec "frank" "phone" 3; mkPurchaseSpec "frank" "mouse" 4].
Definition fixtureFollows : list followSpec :=
  [mkFollowSpec "alice" "bob"; mkFollowSpec "alice" "carol"; mkFollowSpec "bob" "dave";
   mkFollowSpec "bob" "carol"; mkFollowSpec "carol" "eve"; mkFollowSpec "carol" "bob";
   mkFollowSpec "dave" "frank"; mkFollowSpec "dave" "eve"; mkFollowSpec "eve" "frank";
   mkFollowSpec "eve" "dave"; mkFollowSpec "frank" "alice"; mkFollowSpec "frank" "bob"].

(** [%03d] of a small positive number. *)
Definition pad3 (n : Z) : string :=
  let digits := pretty n in
  String.append (String.substring 0 (3 - String.length digits) "00") digits.

Section Fixture.
Context `{GraphLib}.

Definition fixture_error (element : string) : GoError :=
  Errorf ("%w: " ++ element) [ErrInvalidFixture] [].

(** [for index, x := range xs { y, err := parse(index, x); ... append }]. *)
Fixpoint parse_each {A B} (parse : Z → A → GoError + B) (element : string) (index : Z) (xs : list A)
    : GoError + list B :=
  match xs with
  | [] => inr []
  | x :: rest =>
      match parse index x with
      | inl _ => inl (fixture_error element)
      | inr y =>
          match parse_each parse element (int_incr index) rest with
          | inl e => inl e
          | inr ys => inr (y :: ys)
          end
      end
  end.

Definition user_vertex (fixtureID : string) (_ : Z) (value : namedValue) : GoError + Vertex :=
  ParseVertex (nv_id value) labelUser
    (<[propertyFixtureID := PStr fixtureID]> {[propertyName := PStr (nv_name value)]}).
Definition product_vertex (fixtureID : string) (_ : Z) (value : namedValue) : GoError + Vertex :=
  ParseVertex (nv_id value) labelProduct
    (<[propertyFixtureID := PStr fixtureID]>
       (<[propertyName := PStr (nv_name value)]> {[propertyCategory := PStr (nv_category value)]})).
Definition purchase_edge (fixtureID : string) (index : Z) (value : purchaseSpec) : GoError + Edge :=
  ParseEdge ("purchase-" ++ pad3 (int_incr index)) labelPurchased (ps_userID value) (ps_productID value)
    (<[propertyFixtureID := PStr fixtureID]> {[propertyRating := PInt (ps_rating value)]}).
Definition follow_edge (fixtureID : string) (index : Z) (value : followSpec) : GoError + Edge :=
  ParseEdge ("follow-" ++ pad3 (int_incr index)) labelFollows (fs_follower value) (fs_followee value)
    {[propertyFixtureID := PStr fixtureID]}.

Definition NewFixture (fixtureID : string) : GoError + Fixture :=
  if bool_decide (TrimSpace fixtureID = "") then inl (fixture_error "blank namespace")
  else
    match parse_each (user_vertex fixtureID) "user vertex" 0 fixtureUsers with
    | inl e => inl e
    | inr users =>
        match parse_each (product_vertex fixtureID) "product vertex" 0 fixtureProducts with
        | inl e => inl e
        | inr products =>
            match parse_each (purchase_edge fixtureID) "purchased edge" 0 fixturePurchases with
            | inl e => inl e
            | inr purchases =>
                match parse_each (follow_edge fixtureID) "follows edge" 0 fixtureFollows with
                | inl e => inl e
                | inr follows =>
                    let fixture := mkFixture fixtureID (users ++ products) (purchases ++ follows) in
                    match NewGraph (fx_Vertices fixture) (fx_Edges fixture) with
                    | inl _ => inl (fixture_error "validation failed")
                    | inr _ => inr fixture
                    end
                end
            end
        end
    end.

Definition DefaultFixture : GoError + Fixture := NewFixture FixtureID.
End Fixture.
