(* ===== verification/RecommendationProofs.v ===== *)
(** What the graph recommender promises: the indexes of [NewGraph] hold exactly the edges of the
    fixture, and the recommendations are the two-hop candidates with their evidence. *)
From S2P Require Import Prelude GraphLib Recommendation.

#[local] Arguments at_id : simpl never.
#[local] Arguments append_at : simpl never.

(** ** The indexes *)

Section Indexes.
Context `{GraphLib}.

Lemma at_id_append {A} (m : gmap string (list A)) id u x y :
  x ∈ at_id (append_at id y m) u ↔ x ∈ at_id m u ∨ (u = id ∧ x = y).
Proof.
  unfold at_id, append_at. rewrite lookup_insert. case_decide as D; cbn.
  - subst. fold (at_id m u). rewrite elem_of_app, list_elem_of_singleton. naive_solver.
  - naive_solver.
Qed.

Lemma at_id_sort {A} (less : A → A → bool) (m : gmap string (list A)) u x :
  x ∈ at_id (sort_by less <$> m) u ↔ x ∈ at_id m u.
Proof.
  unfold at_id. rewrite lookup_fmap. destruct (m !! u); cbn [default fmap option_fmap option_map];
    [apply elem_of_sort_by|done].
Qed.

Lemma exists_snoc {A} (P : A → Prop) l x : (∃ e, e ∈ l ++ [x] ∧ P e) ↔ (∃ e, e ∈ l ∧ P e) ∨ P x.
Proof.
  setoid_rewrite elem_of_app. setoid_rewrite list_elem_of_singleton. naive_solver.
Qed.

(** The index for a label gains the entry of an edge of that label, and no other. *)
Lemma index_gains {A} (label : string) (entry : Edge → A) (id_of : Edge → string) es e (m : gmap string (list A)) u x :
  e_Label e = label →
  (x ∈ at_id m u ↔ ∃ e, e ∈ es ∧ e_Label e = label ∧ x = entry e ∧ id_of e = u) →
  x ∈ at_id (append_at (id_of e) (entry e) m) u ↔
    ∃ e', e' ∈ es ++ [e] ∧ e_Label e' = label ∧ x = entry e' ∧ id_of e' = u.
Proof. intros Hl Hm. rewrite at_id_append, exists_snoc, Hm. clear -Hl. naive_solver. Qed.

Lemma index_same {A} (label : string) (entry : Edge → A) (id_of : Edge → string) es e (m : gmap string (list A)) u x :
  e_Label e ≠ label →
  (x ∈ at_id m u ↔ ∃ e, e ∈ es ∧ e_Label e = label ∧ x = entry e ∧ id_of e = u) →
  x ∈ at_id m u ↔ ∃ e', e' ∈ es ++ [e] ∧ e_Label e' = label ∧ x = entry e' ∧ id_of e' = u.
Proof. intros Hl Hm. rewrite exists_snoc, Hm. clear -Hl. naive_solver. Qed.

Definition purchase_of (e : Edge) : purchase :=
  mkPurchase e (e_StartID e) (e_EndID e) (default 0 (int_property (e_Properties e) propertyRating)).
Definition follow_of (e : Edge) : follow := mkFollow e (e_StartID e) (e_EndID e).

(** The relations the edges of a fixture describe. *)
Definition bought (es : list Edge) (user product : string) : Prop :=
  ∃ e, e ∈ es ∧ e_Label e = labelPurchased ∧ e_StartID e = user ∧ e_EndID e = product.
Definition followed (es : list Edge) (a b : string) : Prop :=
  ∃ e, e ∈ es ∧ e_Label e = labelFollows ∧ e_StartID e = a ∧ e_EndID e = b.

(** The graph holds the edges [es]. *)
Record holds (es : list Edge) (g : Graph) : Prop := {
  ho_byUser u x : x ∈ at_id (g_purchasesByUser g) u ↔
    ∃ e, e ∈ es ∧ e_Label e = labelPurchased ∧ x = purchase_of e ∧ e_StartID e = u;
  ho_byProduct p x : x ∈ at_id (g_purchasesByProduct g) p ↔
    ∃ e, e ∈ es ∧ e_Label e = labelPurchased ∧ x = purchase_of e ∧ e_EndID e = p;
  ho_follows u x : x ∈ at_id (g_followsByUser g) u ↔
    ∃ e, e ∈ es ∧ e_Label e = labelFollows ∧ x = follow_of e ∧ e_StartID e = u;
  ho_edges e : e ∈ es → e_Validate e = None ∧
    is_Some (g_vertices g !! e_StartID e) ∧ is_Some (g_vertices g !! e_EndID e);
  ho_vertices id v : g_vertices g !! id = Some v → v_Validate v = None ∧ v_ID v = id;
  ho_users id : is_Some (g_users g !! id) → is_Some (g_vertices g !! id);
  ho_self e : e ∈ es → e_Label e = labelFollows → e_StartID e ≠ e_EndID e
}.

Lemma holds_empty : holds [] empty_graph.
Proof.
  split; cbn; unfold at_id; try setoid_rewrite lookup_empty; cbn.
  1-3: intros; split; [by intros ?%elem_of_nil|by intros (e & ?%elem_of_nil & _)].
  - by intros ? ?%elem_of_nil.
  - by intros ? ? [=].
  - by intros ? [? [=]].
  - by intros ? ?%elem_of_nil.
Qed.

Lemma add_vertex_holds v g g' : holds [] g → add_vertex v g = inr g' → holds [] g'.
Proof.
  intros [H1 H2 H3 H4 H5 H6 H7]. unfold add_vertex.
  destruct (v_Validate v) eqn:Hv; [by rewrite bool_decide_true|].
  rewrite (bool_decide_false (is_Some None)) by (by intros [? ?]).
  case_bool_decide; [done|]. destruct (stringProperty _ _); [|done]. destruct (_ && _); [done|].
  assert (∀ id w, <[v_ID v:=v]> (g_vertices g) !! id = Some w → v_Validate w = None ∧ v_ID w = id) as Hins.
  { intros id w. rewrite lookup_insert. case_decide; [|apply H5]. intros [= <-]. by subst. }
  assert (∀ id, is_Some (g_vertices g !! id) → is_Some (<[v_ID v:=v]> (g_vertices g) !! id)) as Hmono.
  { intros id Hid. rewrite lookup_insert. case_decide; eauto. }
  repeat (case_match; try done); intros [= <-]; split; cbn; try done.
  - by intros e ?%elem_of_nil.
  - intros id [w Hw]. rewrite lookup_insert in Hw |- *. case_decide; [eauto|]. apply H6. by eexists.
  - by intros e ?%elem_of_nil.
  - intros id Hid. by apply Hmono, H6.
Qed.

Lemma add_vertices_holds vs g g' : holds [] g → add_vertices vs g = inr g' → holds [] g'.
Proof.
  revert g. induction vs as [|v vs IH]; intros g Hg; cbn; [by intros [= <-]|].
  destruct (add_vertex v g) eqn:E; [done|]. apply IH. by eapply add_vertex_holds.
Qed.

Lemma index_edge_holds es e g g' :
  holds es g → e_Validate e = None → is_Some (g_vertices g !! e_StartID e) →
  is_Some (g_vertices g !! e_EndID e) → index_edge e g = inr g' → holds (es ++ [e]) g'.
Proof.
  intros [H1 H2 H3 H4 H5 H6 H7] Hv Hs He. unfold index_edge.
  assert (∀ e', e' ∈ es ++ [e] → e_Validate e' = None ∧ is_Some (g_vertices g !! e_StartID e') ∧
            is_Some (g_vertices g !! e_EndID e')) as Hedges.
  { intros e' [?|Heq%list_elem_of_singleton]%elem_of_app; [by apply H4|by subst]. }
  case_bool_decide as Hl.
  - repeat (case_match; try done). intros [= <-].
    assert (e_Label e ≠ labelFollows) as Hnf by (by rewrite Hl).
    split; cbn; try done.
    + intros u x. by apply (index_gains labelPurchased purchase_of e_StartID).
    + intros u x. by apply (index_gains labelPurchased purchase_of e_EndID).
    + intros u x. by apply (index_same labelFollows follow_of e_StartID).
    + intros e' [?|Heq%list_elem_of_singleton]%elem_of_app; [by apply H7|by subst].
  - case_bool_decide as Hf; [|done]. destruct (negb _); [done|]. destruct (bool_decide (_ = None)); [done|].
    destruct (_ || _) eqn:Hends; [done|]. intros [= <-].
    apply orb_false_iff in Hends as [_ Hne%bool_decide_eq_false].
    split; cbn; try done.
    + intros u x. by apply (index_same labelPurchased purchase_of e_StartID).
    + intros u x. by apply (index_same labelPurchased purchase_of e_EndID).
    + intros u x. by apply (index_gains labelFollows follow_of e_StartID).
    + intros e' [?|Heq%list_elem_of_singleton]%elem_of_app; [by apply H7|by subst].
Qed.

Lemma add_edges_holds es seen ids logical g g' :
  holds seen g → add_edges es ids logical g = inr g' → holds (seen ++ es) g'.
Proof.
  revert seen ids logical g. induction es as [|e es IH]; intros seen ids logical g Hg; cbn.
  { intros [= <-]. by rewrite app_nil_r. }
  destruct (add_edge e ids logical g) as [?|[[ids' logical'] g1]] eqn:E; [done|]. intros Hr.
  replace (seen ++ e :: es) with ((seen ++ [e]) ++ es) by (by rewrite <- app_assoc).
  eapply IH; [|exact Hr]. unfold add_edge in E.
  destruct (e_Validate e) eqn:Hv; [by rewrite bool_decide_true in E|].
  rewrite (bool_decide_false (is_Some None)) in E by (by intros [? ?]).
  case_bool_decide; [done|]. destruct (stringProperty _ _); [|done]. destruct (_ && _); [done|].
  case_bool_decide as Hs; [done|]. case_bool_decide as He; [done|]. case_bool_decide; [done|].
  destruct (index_edge e g) as [?|g2] eqn:Ei; [done|]. injection E as <- <- <-.
  eapply index_edge_holds; [done..| | |exact Ei]; by apply not_eq_None_Some.
Qed.

Lemma new_graph_holds vs es g : NewGraph vs es = inr g → holds es g.
Proof.
  unfold NewGraph. destruct (_ || _); [done|].
  destruct (add_vertices vs empty_graph) as [?|g1] eqn:Ev; [done|].
  destruct (add_edges es ∅ ∅ g1) as [?|g2] eqn:Ee; [done|]. intros [= <-].
  apply (add_vertices_holds _ _ _ holds_empty) in Ev.
  apply (add_edges_holds _ [] _ _ _ _ Ev) in Ee as [H1 H2 H3 H4 H5 H6 H7].
  split; cbn; intros *; rewrite ?at_id_sort; auto.
Qed.

Context (es : list Edge) (g : Graph) (Hg : holds es g).

Lemma bought_iff u p : bought es u p ↔ ∃ x, x ∈ at_id (g_purchasesByUser g) u ∧ pu_productID x = p.
Proof.
  setoid_rewrite (ho_byUser _ _ Hg). unfold bought. split.
  - intros (e & He & Hl & <- & <-). exists (purchase_of e). split; [by exists e|done].
  - intros (x & (e & He & Hl & -> & <-) & <-). by exists e.
Qed.

Lemma bought_product_iff u p :
  bought es u p ↔ ∃ x, x ∈ at_id (g_purchasesByProduct g) p ∧ pu_userID x = u.
Proof.
  setoid_rewrite (ho_byProduct _ _ Hg). unfold bought. split.
  - intros (e & He & Hl & <- & <-). exists (purchase_of e). split; [by exists e|done].
  - intros (x & (e & He & Hl & -> & <-) & <-). by exists e.
Qed.

Lemma followed_iff a b : followed es a b ↔ ∃ x, x ∈ at_id (g_followsByUser g) a ∧ fo_followee x = b.
Proof.
  setoid_rewrite (ho_follows _ _ Hg). unfold followed. split.
  - intros (e & He & Hl & <- & <-). exists (follow_of e). split; [by exists e|done].
  - intros (x & (e & He & Hl & -> & <-) & <-). by exists e.
Qed.

Lemma find_some {A} (f : A → bool) l x : x ∈ l → f x = true → ∃ y, List.find f l = Some y ∧ y ∈ l ∧ f y = true.
Proof.
  intros Hx Hf. destruct (List.find f l) as [y|] eqn:E.
  - exists y. apply List.find_some in E as [? ?]. split_and!; [done|by apply list_elem_of_In|done].
  - eapply List.find_none in E; [|by apply list_elem_of_In]. congruence.
Qed.

Lemma product_purchase_some u p :
  bought es u p → ∃ x, productPurchase g u p = Some x ∧ e_Validate (pu_edge x) = None.
Proof.
  intros (x & Hx & Hp)%bought_iff.
  destruct (find_some (λ p', bool_decide (pu_productID p' = p)) _ x Hx) as (y & Hy & Hin & _);
    [by apply bool_decide_eq_true|].
  exists y. split; [done|]. apply (ho_byUser _ _ Hg) in Hin as (e & He & _ & -> & _). by apply Hg.
Qed.

Lemma follow_edge_some a b :
  followed es a b → ∃ x, followEdge g a b = Some x ∧ e_Validate (fo_edge x) = None.
Proof.
  intros (x & Hx & Hp)%followed_iff.
  destruct (find_some (λ f, bool_decide (fo_followee f = b)) _ x Hx) as (y & Hy & Hin & _);
    [by apply bool_decide_eq_true|].
  exists y. split; [done|]. apply (ho_follows _ _ Hg) in Hin as (e & He & _ & -> & _). by apply Hg.
Qed.
End Indexes.

(** ** Collecting candidates *)

(** [buyers] holds, for every candidate and co-buyer of the events [E], the least shared product. *)
Record collected (E : string → string → string → Prop) (buyers : gmap string (gmap string string)) : Prop := {
  co_some c b p : default ∅ (buyers !! c) !! b = Some p → E c b p;
  co_least c b p : E c b p → ∃ q, default ∅ (buyers !! c) !! b = Some q ∧ str_ltb p q = false;
  co_nonempty c m : buyers !! c = Some m → ∃ b p, m !! b = Some p
}.

Lemma collected_ext (E F : string → string → string → Prop) buyers :
  (∀ c b p, E c b p ↔ F c b p) → collected E buyers → collected F buyers.
Proof.
  intros HE [H1 H2 H3]. split; [|intros c b p Hp%HE|done]; [intros *; rewrite <- HE|]; auto.
Qed.

Section Products.
Context `{GraphPaths}.

Lemma note_candidate_collects E bought_set shared buyer x acc :
  collected E acc →
  polling (collected (λ cand b p, E cand b p ∨
    (b = buyer ∧ p = shared ∧ cand = pu_productID x ∧ cand ∉ bought_set)))
    (note_candidate bought_set shared buyer x acc).
Proof.
  intros [H1 H2 H3]. apply polling_seq. cbn zeta. set (cand := pu_productID x) in *.
  case_bool_decide as Hin; apply polling_ret.
  { split; [by left; apply H1| |done]. intros k b p [?|(_ & _ & -> & ?)]; [by apply H2|done]. }
  set (m := default ∅ (acc !! cand)) in *.
  set (m' := if match m !! buyer with Some q => str_ltb shared q | None => true end
             then <[buyer:=shared]> m else m).
  assert (∃ q, m' !! buyer = Some q ∧ str_ltb shared q = false ∧
            (q = shared ∨ m !! buyer = Some q) ∧ ∀ r, m !! buyer = Some r → str_ltb r q = false) as
    (q & Hq & Hle & Hor & Hold).
  { unfold m'. destruct (m !! buyer) as [q|] eqn:Eq.
    - destruct (str_ltb shared q) eqn:Elt.
      + exists shared. rewrite lookup_insert_eq, str_ltb_irrefl. split_and!; [done|done|by left|].
        intros r [= <-]. by apply str_ltb_asym.
      + exists q. split_and!; [done|done|by right|]. intros r [= <-]. apply str_ltb_irrefl.
    - exists shared. rewrite lookup_insert_eq, str_ltb_irrefl. split_and!; [done|done|by left|done]. }
  assert (∀ b, b ≠ buyer → m' !! b = m !! b) as Hother.
  { intros b Hb. unfold m'. case_match; [by rewrite lookup_insert_ne|done]. }
  assert (∀ k b, default ∅ (<[cand:=m']> acc !! k) !! b =
            if decide (k = cand) then m' !! b else default ∅ (acc !! k) !! b) as Hlook.
  { intros k b. destruct (decide (k = cand)) as [->|]; [by rewrite lookup_insert_eq|by rewrite lookup_insert_ne]. }
  split.
  - intros k b p. rewrite Hlook. destruct (decide (k = cand)) as [->|Hk]; [|intros ?; left; by apply H1].
    destruct (decide (b = buyer)) as [->|Hb]; [|rewrite Hother by done; intros ?; left; by apply H1].
    rewrite Hq. intros [= <-]. destruct Hor as [->|Hm]; [by right|left; by apply H1].
  - intros k b p Hp. rewrite Hlook. destruct (decide (k = cand)) as [->|Hk].
    + destruct (decide (b = buyer)) as [->|Hb].
      * exists q. split; [done|]. destruct Hp as [(r & Hr & Hpr)%H2|(_ & -> & _)]; [|done].
        eapply less_negtrans; [by apply Hold|exact Hpr].
      * rewrite Hother by done. destruct Hp as [?%H2|(-> & _)]; done.
    + destruct Hp as [?%H2|(_ & _ & -> & _)]; done.
  - intros k m0. rewrite lookup_insert. case_decide; [intros [= <-]; by eexists _, _|apply H3].
Qed.

(** A loop that collects, for each of its elements, the events [F] of the element. *)
Lemma collect_loop {A} (F : A → string → string → string → Prop) E (xs : list A)
    (f : A → gmap string (gmap string string) → GoM unit (gmap string (gmap string string))) acc :
  (∀ x E acc, collected E acc → polling (collected (λ k b p, E k b p ∨ F x k b p)) (f x acc)) →
  collected E acc →
  polling (collected (λ k b p, E k b p ∨ ∃ x, x ∈ xs ∧ F x k b p)) (foldM xs f acc).
Proof.
  intros Hf HE.
  apply (polling_foldM (λ seen, collected (λ k b p, E k b p ∨ ∃ x, x ∈ seen ∧ F x k b p))).
  - eapply collected_ext; [|exact HE]. intros k b p. split; [by left|].
    intros [?|(x & ?%elem_of_nil & _)]; done.
  - intros seen x acc0 H1 _. eapply polling_impl; [by apply Hf|]. intros m.
    apply collected_ext. intros k b p. cbn. rewrite exists_snoc. clear. tauto.
Qed.

Section Collect.
Context (es : list Edge) (g : Graph) (Hg : holds es g) (seed : string).

(** Co-buyer [b] leads from the seed to candidate [k] through product [p]. *)
Definition leads (k b p : string) : Prop :=
  bought es seed p ∧ bought es b p ∧ b ≠ seed ∧ bought es b k ∧ ¬ bought es seed k.

Lemma seed_purchased_elem purchases :
  polling (λ acc, ∀ p, p ∈ acc ↔ ∃ x, x ∈ purchases ∧ pu_productID x = p) (seed_purchased purchases).
Proof.
  apply (polling_foldM (λ seen acc, ∀ p, p ∈ acc ↔ ∃ x, x ∈ seen ∧ pu_productID x = p)).
  - intros p. split; [by intros ?%elem_of_empty|by intros (x & ?%elem_of_nil & _)].
  - intros seen x acc H1 _. apply polling_seq, polling_ret. intros p.
    rewrite exists_snoc, elem_of_union, elem_of_singleton, H1. clear. naive_solver.
Qed.

Lemma note_buyer_collects E bought_set shared x acc :
  collected E acc →
  polling (collected (λ k b p, E k b p ∨ (b = pu_userID x ∧ b ≠ seed ∧ p = shared ∧ (k ∉ bought_set) ∧
    ∃ y, y ∈ at_id (g_purchasesByUser g) b ∧ pu_productID y = k)))
    (note_buyer g seed bought_set shared x acc).
Proof.
  intros HE. apply polling_seq. cbn zeta. case_bool_decide as Hb.
  { apply polling_ret. eapply collected_ext; [|exact HE]. clear -Hb. naive_solver. }
  eapply polling_impl; [eapply (collect_loop (λ y k b p, b = pu_userID x ∧ p = shared ∧
    k = pu_productID y ∧ k ∉ bought_set)); [|exact HE]|].
  - intros y E0 acc0. apply note_candidate_collects.
  - intros m. apply collected_ext. cbn. clear -Hb. naive_solver.
Qed.

Lemma note_purchase_collects E bought_set x acc :
  collected E acc →
  polling (collected (λ k b p, E k b p ∨ (p = pu_productID x ∧ b ≠ seed ∧ (k ∉ bought_set) ∧
    (∃ y, y ∈ at_id (g_purchasesByProduct g) p ∧ pu_userID y = b) ∧
    ∃ y, y ∈ at_id (g_purchasesByUser g) b ∧ pu_productID y = k)))
    (note_purchase g seed bought_set x acc).
Proof.
  intros HE. apply polling_seq.
  eapply polling_impl; [eapply (collect_loop (λ z k b p, b = pu_userID z ∧ b ≠ seed ∧
    p = pu_productID x ∧ (k ∉ bought_set) ∧ ∃ y, y ∈ at_id (g_purchasesByUser g) b ∧ pu_productID y = k));
    [|exact HE]|].
  - intros y E0 acc0. apply note_buyer_collects.
  - intros m. apply collected_ext. cbn. clear. naive_solver.
Qed.

(** The candidates are exactly the two-hop candidates, each co-buyer with the least product that
    leads to it. *)
Lemma candidates_collected bought_set :
  (∀ p, p ∈ bought_set ↔ ∃ x, x ∈ at_id (g_purchasesByUser g) seed ∧ pu_productID x = p) →
  polling (collected leads)
    (foldM (at_id (g_purchasesByUser g) seed) (note_purchase g seed bought_set) ∅).
Proof.
  intros Hs.
  eapply polling_impl; [eapply (collect_loop (λ x k b p, p = pu_productID x ∧ b ≠ seed ∧ (k ∉ bought_set) ∧
    (∃ y, y ∈ at_id (g_purchasesByProduct g) p ∧ pu_userID y = b) ∧
    ∃ y, y ∈ at_id (g_purchasesByUser g) b ∧ pu_productID y = k) (λ _ _ _, False)); [|split]|].
  - intros y E0 acc0. apply note_purchase_collects.
  - intros k b p. by rewrite lookup_empty.
  - done.
  - intros k m. by rewrite lookup_empty.
  - intros m. apply collected_ext. intros k b p. unfold leads.
    rewrite (bought_iff _ _ Hg seed p), (bought_product_iff _ _ Hg b p), (bought_iff _ _ Hg b k),
      (bought_iff _ _ Hg seed k).
    pose proof (Hs k) as Hk. rewrite <- Hk. clear. naive_solver.
Qed.
End Collect.
End Products.

(** ** Ranking *)

(** [recs] are the first [limit] of [full], all of them for limit 0. *)
Definition first_results {A} (full : list A) (limit : Z) (recs : list A) : Prop :=
  recs `prefix_of` full ∧ len recs = (if limit =? 0 then len full else Z.min limit (len full)).

Lemma cap_first {A} (full : list A) limit : 0 <= limit → first_results full limit (cap_results full limit).
Proof.
  intros Hl. unfold first_results, cap_results, len.
  destruct (Z.eqb_spec limit 0); cbn [orb]; [done|]. rewrite Z.geb_leb.
  destruct (Z.leb_spec (Z.of_nat (length full)) limit); [split; [done|lia]|].
  split; [exists (drop (Z.to_nat limit) full); by rewrite take_drop|]. rewrite length_take. lia.
Qed.

Section Ranking.
Context `{GraphPaths} `{MapRange}.

Lemma elem_of_range_keys {A} (m : gmap string A) k : k ∈ range_keys m ↔ is_Some (m !! k).
Proof.
  unfold range_keys. rewrite range_perm, list_elem_of_fmap. split.
  - intros ([k' v] & -> & Hin%elem_of_map_to_list). by exists v.
  - intros [v Hv]. exists (k, v). split; [done|]. by apply elem_of_map_to_list.
Qed.

Lemma range_keys_nodup {A} (m : gmap string A) : NoDup (range_keys m).
Proof. unfold range_keys. rewrite range_perm. apply NoDup_fst_map_to_list. Qed.

Lemma sorted_keys {A} (m : gmap string A) :
  NoDup (sort_strings (range_keys m)) ∧ StronglySorted (sort_le str_ltb) (sort_strings (range_keys m)) ∧
  ∀ k, k ∈ sort_strings (range_keys m) ↔ is_Some (m !! k).
Proof.
  unfold sort_strings. split_and!.
  - rewrite sort_by_perm. apply range_keys_nodup.
  - apply sort_by_sorted, _.
  - intros k. by rewrite elem_of_sort_by, elem_of_range_keys.
Qed.

Lemma polling_or_invalid {A} (r : GoError + A) a : r = inr a → polling (λ b, b = a) (or_invalid r).
Proof. intros ->. by apply polling_ret. Qed.

#[export] Instance product_less_weak : WeakOrder product_less.
Proof.
  apply (lex_weak (λ a b, pr_Score a =? pr_Score b) (λ a b, pr_Score b <? pr_Score a)).
  - intros a b. rewrite Z.eqb_eq, !Z.ltb_ge. lia.
  - apply (key_desc_weak pr_Score).
  - apply (key_less_weak pr_ProductID).
Qed.
#[export] Instance follow_less_weak : WeakOrder follow_less.
Proof.
  apply (lex_weak (λ a b, fr_Score a =? fr_Score b) (λ a b, fr_Score b <? fr_Score a)).
  - intros a b. rewrite Z.eqb_eq, !Z.ltb_ge. lia.
  - apply (key_desc_weak fr_Score).
  - apply (key_less_weak fr_UserID).
Qed.

(** A loop that appends one result per element. *)
Lemma append_loop {A R} (ok : A → R → Prop) (xs : list A) (f : A → list R → GoM unit (list R)) :
  (∀ x acc, x ∈ xs → polling (λ acc', ∃ r, acc' = acc ++ [r] ∧ ok x r) (f x acc)) →
  polling (Forall2 ok xs) (foldM xs f []).
Proof.
  intros Hf. apply (polling_foldM (Forall2 ok)); [constructor|].
  intros seen x acc HF Hx. eapply polling_impl; [by apply Hf|].
  intros acc' (r & -> & Hr). apply Forall2_app; [done|by constructor].
Qed.

Context `{!GraphPathsLaws} (es : list Edge) (g : Graph) (Hg : holds es g).

(** Steps of valid values succeed. *)
Lemma path_of_ok values :
  path_shape values = true →
  Forall (λ v : Vertex + Edge, match v with inl v => v_Validate v = None | inr e => e_Validate e = None end) values →
  ∃ p, path_of values = inr p.
Proof.
  intros Hshape HF. unfold path_of.
  assert (∃ steps, path_steps values = inr steps ∧
    Forall2 (λ v s, match v with inl v => VertexStep v | inr e => EdgeStep e end = inr s) values steps)
    as (steps & -> & Hsteps).
  { clear Hshape. induction HF as [|v values Hv _ (steps & IH1 & IH2)]; [by exists []|]. cbn.
    assert (∃ s, pathStep v = inr s) as [s Hs].
    { destruct v; cbn; [by apply vertex_step_law|by apply edge_step_law]. }
    rewrite Hs, IH1. exists (s :: steps). split; [done|]. by constructor. }
  by apply (new_path_law values).
Qed.

Lemma vertex_of_valid id : is_Some (g_vertices g !! id) → v_Validate (vertex_of g id) = None.
Proof. intros [v Hv]. unfold vertex_of. rewrite Hv. by eapply ho_vertices. Qed.

Lemma bought_vertices u p :
  bought es u p → is_Some (g_vertices g !! u) ∧ is_Some (g_vertices g !! p).
Proof. intros (e & He & _ & <- & <-). by apply (ho_edges _ _ Hg) in He as (_ & ? & ?). Qed.
Lemma followed_vertices a b :
  followed es a b → is_Some (g_vertices g !! a) ∧ is_Some (g_vertices g !! b).
Proof. intros (e & He & _ & <- & <-). by apply (ho_edges _ _ Hg) in He as (_ & ? & ?). Qed.

Lemma product_path_ok seed p b k :
  leads es seed k b p → ∃ path, productEvidencePath g seed p b k = inr path.
Proof.
  intros (L1 & L2 & _ & L3 & _). unfold productEvidencePath.
  destruct (product_purchase_some es g Hg _ _ L1) as (x & -> & Vx).
  destruct (product_purchase_some es g Hg _ _ L2) as (y & -> & Vy).
  destruct (product_purchase_some es g Hg _ _ L3) as (z & -> & Vz).
  apply path_of_ok; [done|].
  destruct (bought_vertices _ _ L1), (bought_vertices _ _ L3).
  repeat (constructor; try done); by apply vertex_of_valid.
Qed.

Lemma follow_path_ok a b k :
  followed es a b → followed es b k → ∃ path, followEvidencePath g a b k = inr path.
Proof.
  intros L1 L2. unfold followEvidencePath.
  destruct (follow_edge_some es g Hg _ _ L1) as (x & -> & Vx).
  destruct (follow_edge_some es g Hg _ _ L2) as (y & -> & Vy).
  apply path_of_ok; [done|].
  destruct (followed_vertices _ _ L1), (followed_vertices _ _ L2).
  repeat (constructor; try done); by apply vertex_of_valid.
Qed.

Context (seed : string).

(** What a product recommendation says. *)
Record product_ok (r : ProductRecommendation) : Prop := {
  po_score : pr_Score r = len (pr_Evidence r);
  po_sorted : StronglySorted (sort_le str_ltb) (map pe_CoBuyerID (pr_Evidence r));
  po_nodup : NoDup (map pe_CoBuyerID (pr_Evidence r));
  po_buyers b : b ∈ map pe_CoBuyerID (pr_Evidence r) ↔ ∃ p, leads es seed (pr_ProductID r) b p;
  po_evidence e : e ∈ pr_Evidence r →
    leads es seed (pr_ProductID r) (pe_CoBuyerID e) (pe_SharedProductID e) ∧
    (∀ p, leads es seed (pr_ProductID r) (pe_CoBuyerID e) p → str_ltb p (pe_SharedProductID e) = false) ∧
    pe_Path e = [seed; pe_SharedProductID e; pe_CoBuyerID e; pr_ProductID r]
}.

Lemma product_evidence_loop buyers k :
  collected (leads es seed) buyers →
  polling (Forall2 (λ b e, pe_CoBuyerID e = b ∧
      default ∅ (buyers !! k) !! b = Some (pe_SharedProductID e) ∧
      pe_Path e = [seed; pe_SharedProductID e; b; k])
      (sort_strings (range_keys (default ∅ (buyers !! k)))))
    (foldM (sort_strings (range_keys (default ∅ (buyers !! k))))
       (product_evidence g seed k (default ∅ (buyers !! k))) []).
Proof.
  intros HC. apply append_loop. intros b acc Hb. apply polling_seq. cbn zeta.
  apply (sorted_keys (default ∅ (buyers !! k))) in Hb as [p Hp]. rewrite Hp. cbn.
  destruct (product_path_ok seed p b k) as [path Hpath]; [by apply (co_some _ _ HC)|].
  eapply polling_bind; [by apply polling_or_invalid|]. intros ? ->. apply polling_ret.
  by eexists.
Qed.

Lemma forall2_map {A B C} (f : A → C) (f' : B → C) (P : A → B → Prop) l l' :
  (∀ a b, P a b → f a = f' b) → Forall2 P l l' → map f l = map f' l'.
Proof. intros HP. induction 1 as [|a b l l' Hab _ IH]; cbn; [done|]. by rewrite IH, (HP a b). Qed.

Lemma product_result_ok buyers k acc :
  collected (leads es seed) buyers →
  polling (λ acc', ∃ r, acc' = acc ++ [r] ∧ pr_ProductID r = k ∧ product_ok r)
    (product_result g seed buyers k acc).
Proof.
  intros HC. apply polling_seq. cbn zeta.
  eapply polling_bind; [by apply product_evidence_loop|]. intros evidence HF. apply polling_ret.
  eexists. split; [reflexivity|]. split; [done|].
  destruct (sorted_keys (default ∅ (buyers !! k))) as (Hnd & Hsorted & Hin).
  assert (map pe_CoBuyerID evidence = sort_strings (range_keys (default ∅ (buyers !! k)))) as Em.
  { rewrite <- (map_id (sort_strings _)). symmetry. eapply forall2_map; [|exact HF].
    by intros b e (-> & _). }
  split; cbn [pr_Evidence pr_Score pr_ProductID]; rewrite ?Em; [|done|done| |].
  - unfold len. by rewrite (Forall2_length _ _ _ HF).
  - intros b. rewrite Hin. split.
    + intros [p Hp]. exists p. by apply (co_some _ _ HC).
    + intros (p & Hp). apply (co_least _ _ HC) in Hp as (q & -> & _). by exists q.
  - intros e [i Hi]%list_elem_of_lookup.
    destruct (Forall2_lookup_r _ _ _ _ _ HF Hi) as (b & _ & -> & Hp & Hpath).
    split_and!; [by apply (co_some _ _ HC)| |done].
    intros p (q & Hq & Hle)%(co_least _ _ HC). by simplify_eq.
Qed.

Lemma request_ok limit : 0 <= limit → is_Some (g_users g !! seed) → polling (λ _, True) (validateRequest g seed limit).
Proof.
  intros Hl [u Hu]. unfold validateRequest. destruct (Z.ltb_spec limit 0); [lia|].
  apply polling_seq. rewrite Hu. cbn. by apply polling_ret.
Qed.

Definition product_report (limit : Z) (recs : list ProductRecommendation) : Prop :=
  ∃ full, first_results full limit recs ∧ StronglySorted (sort_le product_less) full ∧
    NoDup (map pr_ProductID full) ∧ Forall product_ok full ∧
    ∀ k, k ∈ map pr_ProductID full ↔ ∃ b p, leads es seed k b p.

Lemma products_polling limit :
  0 <= limit → is_Some (g_users g !! seed) →
  polling (product_report limit) (products_body seed limit g).
Proof.
  intros Hl Hu. eapply polling_bind; [by apply request_ok|]. intros _ _. cbn zeta.
  eapply polling_bind; [apply seed_purchased_elem|]. intros bought_set Hs.
  eapply polling_bind; [by apply (candidates_collected es g Hg)|]. intros buyers HC.
  eapply polling_bind.
  { apply (append_loop (λ k r, pr_ProductID r = k ∧ product_ok r)). intros k acc _.
    by apply product_result_ok. }
  intros results HF. apply polling_seq, polling_ret. exists (sort_by product_less results).
  assert (map pr_ProductID results = range_keys buyers) as Em.
  { rewrite <- (map_id (range_keys buyers)). symmetry. eapply forall2_map; [|exact HF]. by intros k r [-> _]. }
  split_and!; [by apply cap_first|apply sort_by_sorted, _| | |].
  - rewrite (Permutation_map pr_ProductID (sort_by_perm product_less results)), Em. apply range_keys_nodup.
  - rewrite sort_by_perm. apply Forall_forall. intros r [i Hi]%list_elem_of_lookup.
    by destruct (Forall2_lookup_r _ _ _ _ _ HF Hi) as (k & _ & _ & ?).
  - intros k. rewrite (Permutation_map pr_ProductID (sort_by_perm product_less results)), Em.
    rewrite elem_of_range_keys. split.
    + intros [m Hm]. destruct (co_nonempty _ _ HC k m Hm) as (b & p & Hb). exists b, p.
      apply (co_some _ _ HC). by rewrite Hm.
    + intros (b & p & (q & Hq & _)%(co_least _ _ HC)).
      destruct (buyers !! k); [by eexists|cbn in Hq; by rewrite lookup_empty in Hq].
Qed.

(** ** Follow candidates *)

(** Direct follow [v] leads from the seed to candidate [k]. *)
Definition introduces (k v : string) : Prop :=
  followed es seed v ∧ followed es v k ∧ k ≠ seed ∧ ¬ followed es seed k.

Record collected_via (E : string → string → Prop) (via : gmap string (gset string)) : Prop := {
  cv_elem k v : v ∈ default ∅ (via !! k) ↔ E k v;
  cv_nonempty k s : via !! k = Some s → ∃ v, v ∈ s
}.

Lemma collected_via_ext (E F : string → string → Prop) via :
  (∀ k v, E k v ↔ F k v) → collected_via E via → collected_via F via.
Proof. intros HE [V1 V2]. split; [intros *; by rewrite V1|done]. Qed.

Lemma direct_follows_elem follows :
  polling (λ acc, ∀ p, p ∈ acc ↔ ∃ x, x ∈ follows ∧ fo_followee x = p) (direct_follows follows).
Proof.
  apply (polling_foldM (λ seen acc, ∀ p, p ∈ acc ↔ ∃ x, x ∈ seen ∧ fo_followee x = p)).
  - intros p. split; [by intros ?%elem_of_empty|by intros (x & ?%elem_of_nil & _)].
  - intros seen x acc V1 _. apply polling_seq, polling_ret. intros p.
    rewrite exists_snoc, elem_of_union, elem_of_singleton, V1. clear. naive_solver.
Qed.

Lemma note_second_hop_collects E direct v x acc :
  collected_via E acc →
  polling (collected_via (λ k w, E k w ∨ (w = v ∧ k = fo_followee x ∧ k ≠ seed ∧ k ∉ direct)))
    (note_second_hop seed direct v x acc).
Proof.
  intros HE. apply polling_seq. cbn zeta. set (cand := fo_followee x).
  case_bool_decide as Hs; [|case_bool_decide as Hd]; apply polling_ret.
  1-2: eapply collected_via_ext; [|exact HE]; intros k w; clear -Hs Hd || clear -Hs; naive_solver.
  destruct HE as [V1 V2]. split.
  - intros k w. rewrite lookup_insert, <- V1. case_decide as D; cbn [default from_option id].
    + subst k. rewrite elem_of_union, elem_of_singleton. clear -Hs Hd. naive_solver.
    + clear -D. naive_solver.
  - intros k s. rewrite lookup_insert. case_decide; [|apply V2]. intros [= <-].
    exists v. apply elem_of_union. left. by apply elem_of_singleton.
Qed.

Lemma note_first_hop_collects E direct x acc :
  collected_via E acc →
  polling (collected_via (λ k w, E k w ∨ (w = fo_followee x ∧ k ≠ seed ∧ (k ∉ direct) ∧
    ∃ y, y ∈ at_id (g_followsByUser g) w ∧ fo_followee y = k)))
    (note_first_hop g seed direct x acc).
Proof.
  intros HE. apply polling_seq. cbn zeta.
  eapply polling_impl.
  - apply (polling_foldM (λ seen, collected_via (λ k w, E k w ∨ (w = fo_followee x ∧ k ≠ seed ∧ (k ∉ direct) ∧
      ∃ y, y ∈ seen ∧ fo_followee y = k)))).
    + eapply collected_via_ext; [|exact HE]. intros k w. split; [by left|].
      intros [?|(_ & _ & _ & y & ?%elem_of_nil & _)]; done.
    + intros seen y acc0 HE0 _. eapply polling_impl; [by apply note_second_hop_collects|].
      intros m. apply collected_via_ext. intros k w. rewrite exists_snoc. clear. naive_solver.
  - intros m. apply collected_via_ext. intros k w. clear. naive_solver.
Qed.

Lemma via_collected direct :
  (∀ p, p ∈ direct ↔ ∃ x, x ∈ at_id (g_followsByUser g) seed ∧ fo_followee x = p) →
  polling (collected_via introduces) (foldM (at_id (g_followsByUser g) seed) (note_first_hop g seed direct) ∅).
Proof.
  intros Hs. eapply polling_impl.
  - apply (polling_foldM (λ seen, collected_via (λ k w, ∃ x, x ∈ seen ∧ (w = fo_followee x ∧ k ≠ seed ∧
      (k ∉ direct) ∧ ∃ y, y ∈ at_id (g_followsByUser g) w ∧ fo_followee y = k)))).
    + split; intros k; [|intros s; by rewrite lookup_empty]. intros v. rewrite lookup_empty. cbn.
      split; [by intros ?%elem_of_empty|by intros (x & ?%elem_of_nil & _)].
    + intros seen x acc HE _. eapply polling_impl; [by apply note_first_hop_collects|].
      intros m. apply collected_via_ext. intros k w. cbn. by rewrite exists_snoc.
  - intros m. apply collected_via_ext. intros k w. unfold introduces.
    rewrite (followed_iff _ _ Hg seed w), (followed_iff _ _ Hg w k), (followed_iff _ _ Hg seed k).
    pose proof (Hs k) as Hk. rewrite <- Hk. clear. naive_solver.
Qed.

(** What a follow recommendation says. *)
Record follow_ok (r : FollowRecommendation) : Prop := {
  fk_score : fr_Score r = len (fr_Evidence r);
  fk_sorted : StronglySorted (sort_le str_ltb) (map fe_ViaUserID (fr_Evidence r));
  fk_nodup : NoDup (map fe_ViaUserID (fr_Evidence r));
  fk_via v : v ∈ map fe_ViaUserID (fr_Evidence r) ↔ introduces (fr_UserID r) v;
  fk_path e : e ∈ fr_Evidence r → fe_Path e = [seed; fe_ViaUserID e; fr_UserID r]
}.

Lemma elem_of_sorted_set (s : gset string) v : v ∈ sort_strings (range_keys (gset_to_gmap tt s)) ↔ v ∈ s.
Proof.
  destruct (sorted_keys (gset_to_gmap tt s)) as (_ & _ & ->). split.
  - intros [[] [? _]%lookup_gset_to_gmap_Some]. done.
  - intros Hv. exists tt. by apply lookup_gset_to_gmap_Some.
Qed.

Lemma follow_result_ok via k acc :
  collected_via introduces via →
  polling (λ acc', ∃ r, acc' = acc ++ [r] ∧ fr_UserID r = k ∧ follow_ok r) (follow_result g seed via k acc).
Proof.
  intros HC. apply polling_seq. cbn zeta. set (ids := sort_strings (range_keys _)).
  eapply polling_bind.
  { apply (append_loop (λ v e, fe_ViaUserID e = v ∧ fe_Path e = [seed; v; k])). intros v acc0 Hv.
    unfold ids in Hv. rewrite elem_of_sorted_set, (cv_elem _ _ HC) in Hv.
    apply polling_seq. destruct (follow_path_ok seed v k) as [path Hpath]; [apply Hv..|].
    eapply polling_bind; [by apply polling_or_invalid|]. intros ? ->. apply polling_ret. by eexists. }
  intros evidence HF. apply polling_ret. eexists. split; [reflexivity|]. split; [done|].
  destruct (sorted_keys (gset_to_gmap tt (default ∅ (via !! k)))) as (Hnd & Hsorted & _).
  assert (map fe_ViaUserID evidence = ids) as Em.
  { rewrite <- (map_id ids). symmetry. eapply forall2_map; [|exact HF]. by intros v e [-> _]. }
  split; cbn [fr_Evidence fr_Score fr_UserID]; rewrite ?Em; [|done|done| |].
  - unfold len. by rewrite (Forall2_length _ _ _ HF).
  - intros v. unfold ids. by rewrite elem_of_sorted_set, (cv_elem _ _ HC).
  - intros e [i Hi]%list_elem_of_lookup.
    destruct (Forall2_lookup_r _ _ _ _ _ HF Hi) as (v & _ & -> & ?). done.
Qed.

Definition follow_report (limit : Z) (recs : list FollowRecommendation) : Prop :=
  ∃ full, first_results full limit recs ∧ StronglySorted (sort_le follow_less) full ∧
    NoDup (map fr_UserID full) ∧ Forall follow_ok full ∧
    ∀ k, k ∈ map fr_UserID full ↔ ∃ v, introduces k v.

Lemma follows_polling limit :
  0 <= limit → is_Some (g_users g !! seed) → polling (follow_report limit) (follows_body seed limit g).
Proof.
  intros Hl Hu. eapply polling_bind; [by apply request_ok|]. intros _ _. cbn zeta.
  eapply polling_bind; [apply direct_follows_elem|]. intros direct Hs.
  eapply polling_bind; [by apply via_collected|]. intros via HC.
  eapply polling_bind.
  { apply (append_loop (λ k r, fr_UserID r = k ∧ follow_ok r)). intros k acc _. by apply follow_result_ok. }
  intros results HF. apply polling_seq, polling_ret. exists (sort_by follow_less results).
  assert (map fr_UserID results = range_keys via) as Em.
  { rewrite <- (map_id (range_keys via)). symmetry. eapply forall2_map; [|exact HF]. by intros k r [-> _]. }
  split_and!; [by apply cap_first|apply sort_by_sorted, _| | |].
  - rewrite (Permutation_map fr_UserID (sort_by_perm follow_less results)), Em. apply range_keys_nodup.
  - rewrite sort_by_perm. apply Forall_forall. intros r [i Hi]%list_elem_of_lookup.
    by destruct (Forall2_lookup_r _ _ _ _ _ HF Hi) as (k & _ & _ & ?).
  - intros k. rewrite (Permutation_map fr_UserID (sort_by_perm follow_less results)), Em.
    rewrite elem_of_range_keys. setoid_rewrite <- (cv_elem _ _ HC). split.
    + intros [m Hm]. rewrite Hm. by apply (cv_nonempty _ _ HC k).
    + intros [v Hv]. destruct (via !! k); [by eexists|cbn in Hv; by apply elem_of_empty in Hv].
Qed.
End Ranking.

(** ** The recommender *)

Section Recommender.
Context `{GraphPaths} `{MapRange} `{!GraphPathsLaws}.

Lemma on_request_polling {A} (P : A → Prop) g c (body : Graph → GoM unit A) :
  polling P (body g) →
  (∃ a, on_request (Some g) (Some c) body = Val a ∧ P a) ∨
  (ctx_polls c ≠ None ∧ ∃ cause, on_request (Some g) (Some c) body = Fail (cause_error cause)).
Proof.
  intros Hm. unfold on_request. destruct (body g c tt) as [[o c'] s'] eqn:E.
  by apply Hm in E as [_ ?].
Qed.

(** C36: on the graph of a fixture, for a known seed and a limit that is not negative, only the
    context can stop [RecommendProducts]; otherwise it returns the first [limit] of the ranked list
    of exactly the products a co-buyer leads to and the seed has not bought, each with the distinct
    co-buyers as score and evidence, and for each of them the least product that leads to it. *)
Theorem recommend_products_spec vs es g c seed limit :
  NewGraph vs es = inr g → is_Some (g_users g !! seed) → 0 <= limit →
  (∃ recs, RecommendProducts (Some g) (Some c) seed limit = Val recs ∧ product_report es seed limit recs) ∨
  (ctx_polls c ≠ None ∧ ∃ cause, RecommendProducts (Some g) (Some c) seed limit = Fail (cause_error cause)).
Proof.
  intros Hg%new_graph_holds Hu Hl. apply on_request_polling. by apply products_polling.
Qed.

(** likewise [RecommendFollows] ranks exactly the users that a direct follow of the seed
    follows, other than the seed and its direct follows, by the number of those direct follows. *)
Theorem recommend_follows_spec vs es g c seed limit :
  NewGraph vs es = inr g → is_Some (g_users g !! seed) → 0 <= limit →
  (∃ recs, RecommendFollows (Some g) (Some c) seed limit = Val recs ∧ follow_report es seed limit recs) ∨
  (ctx_polls c ≠ None ∧ ∃ cause, RecommendFollows (Some g) (Some c) seed limit = Fail (cause_error cause)).
Proof.
  intros Hg%new_graph_holds Hu Hl. apply on_request_polling. by apply follows_polling.
Qed.

(** with a context that is never cancelled, [Recommend] returns a report for every known seed
    and non-negative limit, never [ErrInvalidGraph] for a graph of [NewGraph]; negative limits and
    unknown seeds are refused with their own errors, in this order. *)
Theorem recommend_outcomes vs es g seed limit :
  NewGraph vs es = inr g →
  let r := Recommend (Some g) (Some Background) seed limit in
  if limit <? 0 then r = Fail ErrInvalidLimit
  else if bool_decide (g_users g !! seed = None) then r = Fail ErrUnknownSeed
  else ∃ report, r = Val report ∧ rp_SeedUser report = seed ∧
    RecommendProducts (Some g) (Some Background) seed limit = Val (rp_ProductRecommendations report) ∧
    RecommendFollows (Some g) (Some Background) seed limit = Val (rp_FollowRecommendations report) ∧
    product_report es seed limit (rp_ProductRecommendations report) ∧
    follow_report es seed limit (rp_FollowRecommendations report).
Proof.
  intros Hg%new_graph_holds r. subst r. unfold Recommend, RecommendProducts, RecommendFollows, on_request.
  destruct (Z.ltb_spec limit 0) as [Hneg|Hl].
  { unfold recommend_body, validateRequest. by rewrite (proj2 (Z.ltb_lt limit 0)). }
  assert ((limit <? 0) = false) as El by (by apply Z.ltb_ge).
  case_bool_decide as Hu.
  { unfold recommend_body, validateRequest. rewrite El. unfold bind, ctxErr. cbn. by rewrite Hu. }
  apply not_eq_None_Some in Hu.
  assert (∀ {A} (P : A → Prop) (m : GoM unit A), polling P m →
            ∃ a, m Background tt = (Val a, Background, tt) ∧ P a) as Hlive.
  { intros A P m Hm. destruct (m Background tt) as [[o c'] []] eqn:E.
    destruct (Hm _ _ _ _ _ E) as [Hc [(a & -> & Ha)|[Hne _]]]; [|done]. exists a. by rewrite (Hc eq_refl). }
  destruct (Hlive _ _ _ (request_ok g seed limit Hl Hu)) as ([] & Er & _).
  destruct (Hlive _ _ _ (products_polling es g Hg seed limit Hl Hu)) as (products & Ep & Hp).
  destruct (Hlive _ _ _ (follows_polling es g Hg seed limit Hl Hu)) as (follows & Ef & Hf).
  exists (mkReport seed products follows). unfold recommend_body, bind. rewrite Er, Ep, Ef. by split_and!.
Qed.
End Recommender.

(** ** Witnesses on the default fixture *)

Definition shop : Fixture (H := plain_graph) :=
  match DefaultFixture (H := plain_graph) with inr f => f | inl _ => mkFixture (H := plain_graph) "" [] [] end.
Definition shop_graph : Graph (H := plain_graph) :=
  match NewGraph (H := plain_graph) (fx_Vertices shop) (fx_Edges shop) with
  | inr g => g
  | inl _ => empty_graph (H := plain_graph)
  end.

Lemma shop_loads : NewGraph (H := plain_graph) (fx_Vertices shop) (fx_Edges shop) = inr shop_graph.
Proof.
  assert (match NewGraph (H := plain_graph) (fx_Vertices shop) (fx_Edges shop) with inr _ => true | inl _ => false end
          = true) as E by (vm_compute; reflexivity).
  unfold shop_graph. destruct (NewGraph _ _); [discriminate E|reflexivity].
Qed.
Lemma shop_alice : is_Some (g_users (H := plain_graph) shop_graph !! "alice").
Proof. apply (bool_decide_eq_true_1 _). vm_compute. reflexivity. Qed.

#[local] Existing Instances plain_paths_laws.

Lemma recommend_products_spec_witness :
  ∃ recs, RecommendProducts (H := plain_graph) (H0 := plain_paths) (H1 := plain_range)
            (Some shop_graph) (Some Background) "alice" 2 = Val recs.
Proof.
  destruct (recommend_products_spec (H := plain_graph) (H0 := plain_paths) (H1 := plain_range)
    _ _ _ Background "alice" 2 shop_loads shop_alice ltac:(lia)) as [(recs & E & _)|[Hne _]].
  - exists recs. exact E.
  - destruct (Hne eq_refl).
Defined.

Lemma recommend_follows_spec_witness :
  ∃ recs, RecommendFollows (H := plain_graph) (H0 := plain_paths) (H1 := plain_range)
            (Some shop_graph) (Some Background) "alice" 0 = Val recs.
Proof.
  destruct (recommend_follows_spec (H := plain_graph) (H0 := plain_paths) (H1 := plain_range)
    _ _ _ Background "alice" 0 shop_loads shop_alice ltac:(lia)) as [(recs & E & _)|[Hne _]].
  - exists recs. exact E.
  - destruct (Hne eq_refl).
Defined.

Lemma recommend_outcomes_witness :
  Recommend (H := plain_graph) (H0 := plain_paths) (H1 := plain_range)
    (Some shop_graph) (Some Background) "nobody" 3 = Fail ErrUnknownSeed.
Proof.
  exact (recommend_outcomes (H := plain_graph) (H0 := plain_paths) (H1 := plain_range)
    _ _ _ "nobody" 3 shop_loads).
Defined.
