(* ===== verification/DocumentWorkflow.v ===== *)
(** examples/s3-sqs-dynamodb-document-workflow/internal/documentworkflow: submission and processing
    of documents over S3, SQS and DynamoDB clients. The clients are oracles: what a call answers may
    depend on every call made before it, and the calls made are recorded. *)
From Stdlib Require Import Ascii String.
From S2P Require Import Prelude.

Definition defaultWaitTimeSeconds : Z := 2.
Definition defaultVisibilitySeconds : Z := 30.
Definition defaultFailureVisibleSeconds : Z := 0.

Definition ErrInvalidDocument : GoError :=
  Sentinel "documentworkflow.ErrInvalidDocument" "documentworkflow: invalid document".
Definition ErrNoMessages : GoError :=
  Sentinel "documentworkflow.ErrNoMessages" "documentworkflow: no messages".
Definition ErrConditionalConflict : GoError :=
  Sentinel "documentworkflow.ErrConditionalConflict" "documentworkflow: conditional conflict".

Record Workflow := mkWorkflow {
  w_Bucket : string; w_QueueURL : string; w_Table : string;
  w_WaitTimeSeconds : Z; w_VisibilitySeconds : Z; w_FailureVisibleSeconds : Z
}.
Record DocumentUpload := mkUpload {
  du_TenantID : string; du_DocumentID : string; du_FileName : string; du_Body : string;
  du_Metadata : gmap string string
}.
Record DocumentEvent := mkEvent {
  ev_TenantID : string; ev_DocumentID : string; ev_FileName : string; ev_ObjectKey : string;
  ev_ContentType : string; ev_IdempotencyKey : string
}.
Definition zero_event : DocumentEvent := mkEvent "" "" "" "" "" "".
Record SubmittedDocument := mkSubmitted {
  sd_TenantID : string; sd_DocumentID : string; sd_ObjectKey : string; sd_ContentType : string;
  sd_Size : Z; sd_MessageID : string; sd_IdempotencyKey : string
}.
Record ProcessResult := mkResult {
  pr_Event : DocumentEvent; pr_MessageID : string; pr_ReceiptHandle : string; pr_BytesRead : Z;
  pr_Acked : bool; pr_Duplicate : bool; pr_RetryVisible : bool; pr_Failure : string;
  pr_NoMessage : bool; pr_VisibilitySeconds : Z
}.
Definition zero_result : ProcessResult := mkResult zero_event "" "" 0 false false false "" false 0.

(** ** Package path *)

Fixpoint split_slash (acc s : string) : list string :=
  match s with
  | EmptyString => [acc]
  | String c rest =>
      if bool_decide (c = "/"%char) then acc :: split_slash "" rest
      else split_slash (acc ++ String c "") rest
  end.

(** The segments [path.Clean] keeps, last first: empty and dot segments are dropped, a double dot
    removes the segment before it. *)
Fixpoint clean_segments (rooted : bool) (kept segments : list string) : list string :=
  match segments with
  | [] => kept
  | s :: rest =>
      if bool_decide (s = "") || bool_decide (s = ".") then clean_segments rooted kept rest
      else if bool_decide (s = "..") then
        match kept with
        | top :: below =>
            if bool_decide (top = "..") then clean_segments rooted (".." :: kept) rest
            else clean_segments rooted below rest
        | [] => clean_segments rooted (if rooted then [] else [".."]) rest
        end
      else clean_segments rooted (s :: kept) rest
  end.

Definition path_Clean (p : string) : string :=
  let rooted := starts_with "/" p in
  let body := String.concat "/" (rev (clean_segments rooted [] (split_slash "" p))) in
  if rooted then String.append "/" body else if bool_decide (body = "") then "." else body.

Definition path_Join (elems : list string) : string :=
  match filter (λ e, e ≠ "") elems with
  | [] => ""
  | elems => path_Clean (String.concat "/" elems)
  end.

(** [path.Base]: the last segment once trailing slashes are gone. *)
Fixpoint drop_slashes (s : string) : string :=
  match s with
  | String "/"%char rest => drop_slashes rest
  | _ => s
  end.
Definition path_Base (p : string) : string :=
  if bool_decide (p = "") then "."
  else
    let trimmed := rev_str (drop_slashes (rev_str p)) in
    let base := default "" (last (split_slash "" trimmed)) in
    if bool_decide (base = "") then "/" else base.

(** ** Keys and validation *)

Definition validateSegment (name value : string) : option GoError :=
  if bool_decide (value = "") || Contains value "/" || Contains value ".."
  then Some (Errorf "%w: %s must be a non-empty safe key segment" [ErrInvalidDocument] [FStr name])
  else None.

Definition validateFileName (fileName : string) : option GoError :=
  if bool_decide (fileName = "") || negb (bool_decide (path_Base fileName = fileName))
     || Contains fileName ".."
  then Some (Errorf "%w: file_name must be a safe base name" [ErrInvalidDocument] [])
  else None.

Definition objectKey (tenantID documentID fileName : string) : string :=
  path_Join ["tenants"; tenantID; "documents"; documentID; path_Base fileName].
Definition idempotencyKey (tenantID documentID : string) : string :=
  (tenantID ++ "/" ++ documentID ++ "/process")%string.
Definition tenantKey (tenantID : string) : string := ("TENANT#" ++ tenantID)%string.
Definition processingKey (documentID : string) : string :=
  ("DOCUMENT#" ++ documentID ++ "#PROCESSING")%string.

Definition required (name : string) : GoError := Errorf ("%w: " ++ name ++ " is required") [ErrInvalidDocument] [].

Definition validate_names (bucket queueURL table : string) : option GoError :=
  if bool_decide (bucket = "") then Some (required "bucket")
  else if bool_decide (queueURL = "") then Some (required "queue_url")
  else if bool_decide (table = "") then Some (required "table")
  else None.
Definition validate (w : Workflow) : option GoError :=
  validate_names (w_Bucket w) (w_QueueURL w) (w_Table w).

Definition NewWorkflow (bucket queueURL table : string)
    (waitTimeSeconds visibilitySeconds failureVisibleSeconds : Z) : GoError + Workflow :=
  match validate_names bucket queueURL table with
  | Some e => inl e
  | None =>
      inr (mkWorkflow bucket queueURL table
             (if waitTimeSeconds <=? 0 then defaultWaitTimeSeconds else waitTimeSeconds)
             (if visibilitySeconds <=? 0 then defaultVisibilitySeconds else visibilitySeconds)
             (if failureVisibleSeconds <? 0 then defaultFailureVisibleSeconds else failureVisibleSeconds))
  end.

Definition validateDocument (doc : DocumentUpload) : option GoError :=
  match validateSegment "tenant_id" (du_TenantID doc) with
  | Some e => Some e
  | None =>
      match validateSegment "document_id" (du_DocumentID doc) with
      | Some e => Some e
      | None =>
          match validateFileName (du_FileName doc) with
          | Some e => Some e
          | None => if bool_decide (du_Body doc = "") then Some (required "body") else None
          end
      end
  end.

Definition objectMetadata (doc : DocumentUpload) (key : string) : gmap string string :=
  <["idempotency_key" := key]>
    (<["document_id" := du_DocumentID doc]> (<["tenant_id" := du_TenantID doc]> (du_Metadata doc))).

(** ** Clients *)

Record PutObjectInput := mkPutObject {
  po_Bucket : string; po_Key : string; po_Body : string; po_ContentLength : Z;
  po_ContentType : string; po_Metadata : gmap string string
}.
Record SendMessageInput := mkSend {
  sm_QueueUrl : string; sm_Body : string; sm_Attributes : gmap string string
}.
Record ReceiveMessageInput := mkReceive {
  rm_QueueUrl : string; rm_Max : Z; rm_WaitTimeSeconds : Z; rm_VisibilityTimeout : Z;
  rm_AttributeNames : list string
}.
Record PutItemInput := mkPutItem {
  pi_TableName : string; pi_Item : gmap string string; pi_Condition : string;
  pi_Names : gmap string string
}.
(** The calls of the three clients, with their inputs. *)
Inductive Call :=
  | PutObject (input : PutObjectInput)
  | GetObject (bucket key : string)
  | SendMessage (input : SendMessageInput)
  | ReceiveMessage (input : ReceiveMessageInput)
  | DeleteMessage (queueURL receiptHandle : string)
  | ChangeMessageVisibility (queueURL receiptHandle : string) (timeout : Z)
  | PutItem (input : PutItemInput).

Record Message := mkMessage {
  ms_MessageId : Ptr string; ms_ReceiptHandle : Ptr string; ms_Body : Ptr string
}.

(** The AWS clients answer from the calls made so far. An object body is nil, or what reading it to
    its end gives. *)
Class AwsClients := {
  on_put_object : list Call → PutObjectInput → option GoError;
  on_get_object : list Call → string → string → GoError + Ptr (GoError + string);
  on_send : list Call → SendMessageInput → GoError + Ptr string;
  on_receive : list Call → ReceiveMessageInput → GoError + list Message;
  on_delete : list Call → string → string → option GoError;
  on_change : list Call → string → string → Z → option GoError;
  on_put_item : list Call → PutItemInput → option GoError
}.

(** The parts of the Go library that look at tables of their own: JSON of an event, and content
    types by extension and by content. *)
Class EventCodec := {
  Marshal : DocumentEvent → GoError + string;
  Unmarshal : string → GoError + DocumentEvent;
  TypeByExtension : string → string;
  DetectContentType : string → string
}.

Section Operations.
Context `{AwsClients} `{EventCodec} `{GoUnicode}.

(** A call: recorded, then answered by the oracle. *)
Definition call {R} (c : Call) (answer : list Call → R) : GoM (list Call) R :=
  λ ctx calls, (Val (answer calls), ctx, calls ++ [c]).

(** [filepath.Ext]. *)
Fixpoint ext_from (acc s : string) : string :=
  match s with
  | EmptyString => acc
  | String c rest =>
      if bool_decide (c = "."%char) then ext_from s rest
      else if bool_decide (c = "/"%char) then ext_from "" rest
      else ext_from acc rest
  end.
Definition filepath_Ext (p : string) : string := ext_from "" p.

Definition contentTypeForKey (key sample : string) : string :=
  let typ := TypeByExtension (filepath_Ext key) in
  if negb (bool_decide (typ = "")) then typ
  else if bool_decide (sample = "") then "application/octet-stream"
  else DetectContentType (String.substring 0 512 sample).

(** [isConditionalConflict]: the SDK's exception anywhere in the error. *)
Definition isConditionalConflict (err : GoError) : bool :=
  errors_Is err "types.ConditionalCheckFailedException".

(** ** Submit *)

Definition event_of (doc : DocumentUpload) : DocumentEvent :=
  mkEvent (du_TenantID doc) (du_DocumentID doc) (path_Base (du_FileName doc))
    (objectKey (du_TenantID doc) (du_DocumentID doc) (du_FileName doc))
    (contentTypeForKey (du_FileName doc) (du_Body doc))
    (idempotencyKey (du_TenantID doc) (du_DocumentID doc)).

Definition put_input (w : Workflow) (doc : DocumentUpload) : PutObjectInput :=
  let event := event_of doc in
  mkPutObject (w_Bucket w) (ev_ObjectKey event) (du_Body doc) (Z.of_nat (String.length (du_Body doc)))
    (ev_ContentType event) (objectMetadata doc (ev_IdempotencyKey event)).

Definition send_input (w : Workflow) (event : DocumentEvent) (body : string) : SendMessageInput :=
  mkSend (w_QueueURL w) body
    (<["content-type" := "application/json"]>
       (<["event-type" := "document.submitted"]> {["idempotency-key" := ev_IdempotencyKey event]})).

Definition Submit (w : Workflow) (doc : DocumentUpload) : GoM (list Call) SubmittedDocument :=
  do! ctxErr;
  do! fail_if (validate w);
  do! fail_if (validateDocument doc);
  let event := event_of doc in
  let! stored := call (PutObject (put_input w doc)) (λ calls, on_put_object calls (put_input w doc)) in
  do! fail_if (match stored with
               | Some e => Some (Errorf "store document %s: %w" [e] [FStr (ev_ObjectKey event)])
               | None => None
               end);
  let! body := or_fail (λ e, Errorf "marshal document event %s: %w" [e] [FStr (ev_IdempotencyKey event)])
                 (Marshal event) in
  let! sent := call (SendMessage (send_input w event body)) (λ calls, on_send calls (send_input w event body)) in
  let! messageID := or_fail (λ e, Errorf "send document event %s: %w" [e] [FStr (ev_IdempotencyKey event)])
                      sent in
  ret (mkSubmitted (ev_TenantID event) (ev_DocumentID event) (ev_ObjectKey event) (ev_ContentType event)
         (Z.of_nat (String.length (du_Body doc))) (default "" messageID) (ev_IdempotencyKey event)).

(** ** ProcessOnce *)

Definition mismatch (field got want : string) : GoError :=
  Errorf ("%w: " ++ field ++ " %q does not match %q") [ErrInvalidDocument] [FStr got; FStr want].

Definition check_event (event : DocumentEvent) : option GoError :=
  match validateSegment "tenant_id" (ev_TenantID event) with
  | Some e => Some e
  | None =>
      match validateSegment "document_id" (ev_DocumentID event) with
      | Some e => Some e
      | None =>
          match validateFileName (ev_FileName event) with
          | Some e => Some e
          | None =>
              if bool_decide (ev_ObjectKey event = "") || bool_decide (ev_ContentType event = "")
                 || bool_decide (ev_IdempotencyKey event = "")
              then Some (Errorf "%w: object_key, content_type, and idempotency_key are required"
                           [ErrInvalidDocument] [])
              else
                let key := objectKey (ev_TenantID event) (ev_DocumentID event) (ev_FileName event) in
                let idem := idempotencyKey (ev_TenantID event) (ev_DocumentID event) in
                if negb (bool_decide (ev_ObjectKey event = key))
                then Some (mismatch "object_key" (ev_ObjectKey event) key)
                else if negb (bool_decide (ev_IdempotencyKey event = idem))
                then Some (mismatch "idempotency_key" (ev_IdempotencyKey event) idem)
                else None
          end
      end
  end.

Definition decodeEvent (message : Message) : GoError + DocumentEvent :=
  let body := default "" (ms_Body message) in
  if bool_decide (body = "") then inl (Errorf "%w: message body is empty" [ErrInvalidDocument] [])
  else
    match Unmarshal body with
    | inl e => inl (Errorf "%w: decode message body: %w" [ErrInvalidDocument; e] [])
    | inr event => match check_event event with Some e => inl e | None => inr event end
    end.

Definition readObjectSize (w : Workflow) (event : DocumentEvent) : GoM (list Call) (GoError + Z) :=
  let! out := call (GetObject (w_Bucket w) (ev_ObjectKey event))
                (λ calls, on_get_object calls (w_Bucket w) (ev_ObjectKey event)) in
  ret match out with
      | inl e => inl (Errorf "download document %s: %w" [e] [FStr (ev_ObjectKey event)])
      | inr None => inl (Errorf "%w: object body is empty" [ErrInvalidDocument] [])
      | inr (Some (inl e)) => inl (Errorf "read document %s: %w" [e] [FStr (ev_ObjectKey event)])
      | inr (Some (inr payload)) => inr (Z.of_nat (String.length payload))
      end.

Definition item_input (w : Workflow) (event : DocumentEvent) (size : Z) : PutItemInput :=
  mkPutItem (w_Table w)
    (<["pk" := tenantKey (ev_TenantID event)]>
       (<["sk" := processingKey (ev_DocumentID event)]>
          (<["tenant_id" := ev_TenantID event]>
             (<["document_id" := ev_DocumentID event]>
                (<["object_key" := ev_ObjectKey event]>
                   (<["content_type" := ev_ContentType event]>
                      (<["idempotency_key" := ev_IdempotencyKey event]>
                         (<["status" := "PROCESSED"]> {["bytes_read" := pretty size]}))))))))
    "attribute_not_exists(#pk) AND attribute_not_exists(#sk)" (<["#pk" := "pk"]> {["#sk" := "sk"]}).

Definition recordProcessed (w : Workflow) (event : DocumentEvent) (size : Z)
    : GoM (list Call) (option GoError) :=
  let! err := call (PutItem (item_input w event size)) (λ calls, on_put_item calls (item_input w event size)) in
  let names := [FStr (ev_TenantID event); FStr (ev_DocumentID event)] in
  ret match err with
      | None => None
      | Some e =>
          if isConditionalConflict e
          then Some (Errorf "%w: document %s/%s: %w" [ErrConditionalConflict; e] names)
          else Some (Errorf "record document processing %s/%s: %w" [e] names)
      end.

Definition ack (w : Workflow) (receiptHandle : string) : GoM (list Call) (option GoError) :=
  if bool_decide (receiptHandle = "")
  then ret (Some (Errorf "%w: receipt handle is required for ack" [ErrInvalidDocument] []))
  else
    let! err := call (DeleteMessage (w_QueueURL w) receiptHandle)
                  (λ calls, on_delete calls (w_QueueURL w) receiptHandle) in
    ret match err with Some e => Some (Errorf "delete document event: %w" [e] []) | None => None end.

(** The results come with a possibly nil error; [retry] keeps its cause. *)
Definition with_event (e : DocumentEvent) (r : ProcessResult) : ProcessResult :=
  mkResult e (pr_MessageID r) (pr_ReceiptHandle r) (pr_BytesRead r) (pr_Acked r) (pr_Duplicate r)
    (pr_RetryVisible r) (pr_Failure r) (pr_NoMessage r) (pr_VisibilitySeconds r).
Definition with_size (n : Z) (r : ProcessResult) : ProcessResult :=
  mkResult (pr_Event r) (pr_MessageID r) (pr_ReceiptHandle r) n (pr_Acked r) (pr_Duplicate r)
    (pr_RetryVisible r) (pr_Failure r) (pr_NoMessage r) (pr_VisibilitySeconds r).
Definition with_acked (duplicate : bool) (r : ProcessResult) : ProcessResult :=
  mkResult (pr_Event r) (pr_MessageID r) (pr_ReceiptHandle r) (pr_BytesRead r) true duplicate
    (pr_RetryVisible r) (pr_Failure r) (pr_NoMessage r) (pr_VisibilitySeconds r).
Definition with_retry (failure : string) (seconds : Z) (r : ProcessResult) : ProcessResult :=
  mkResult (pr_Event r) (pr_MessageID r) (pr_ReceiptHandle r) (pr_BytesRead r) (pr_Acked r)
    (pr_Duplicate r) true failure (pr_NoMessage r) seconds.

Definition retry (w : Workflow) (result : ProcessResult) (cause : GoError)
    : GoM (list Call) (ProcessResult * option GoError) :=
  if bool_decide (pr_ReceiptHandle result = "") then ret (result, Some cause)
  else
    let! err := call (ChangeMessageVisibility (w_QueueURL w) (pr_ReceiptHandle result) (w_FailureVisibleSeconds w))
                  (λ calls, on_change calls (w_QueueURL w) (pr_ReceiptHandle result) (w_FailureVisibleSeconds w)) in
    ret match err with
        | Some e => (result, Some (Errorf "change failed document visibility: %w" [e] []))
        | None => (with_retry (Error cause) (w_FailureVisibleSeconds w) result, Some cause)
        end.

Definition receive_input (w : Workflow) : ReceiveMessageInput :=
  mkReceive (w_QueueURL w) 1 (w_WaitTimeSeconds w) (w_VisibilitySeconds w) ["All"].

(** The part of [ProcessOnce] after a message has been received. *)
Definition handle_message (w : Workflow) (message : Message)
    : GoM (list Call) (ProcessResult * option GoError) :=
  let result := mkResult zero_event (default "" (ms_MessageId message))
                  (default "" (ms_ReceiptHandle message)) 0 false false false "" false 0 in
  match decodeEvent message with
  | inl e => retry w result e
  | inr event =>
      let result := with_event event result in
      let! read := readObjectSize w event in
      match read with
      | inl e => retry w result e
      | inr size =>
          let result := with_size size result in
          let! recorded := recordProcessed w event size in
          match recorded with
          | Some e =>
              if errors_Is e "documentworkflow.ErrConditionalConflict" then
                let! ackErr := ack w (pr_ReceiptHandle result) in
                ret match ackErr with
                    | Some e => (result, Some e)
                    | None => (with_acked true result, None)
                    end
              else retry w result e
          | None =>
              let! ackErr := ack w (pr_ReceiptHandle result) in
              ret match ackErr with
                  | Some e => (result, Some e)
                  | None => (with_acked false result, None)
                  end
          end
      end
  end.

Definition ProcessOnce (w : Workflow) : GoM (list Call) (ProcessResult * option GoError) :=
  do! ctxErr;
  do! fail_if (validate w);
  let! out := call (ReceiveMessage (receive_input w)) (λ calls, on_receive calls (receive_input w)) in
  match out with
  | inl e => ret (zero_result, Some (Errorf "receive document event: %w" [e] []))
  | inr [] => ret (mkResult zero_event "" "" 0 false false false "" true 0, Some ErrNoMessages)
  | inr (message :: _) => handle_message w message
  end.
End Operations.

(** ** Previews *)

Definition SampleDocuments : list DocumentUpload :=
  let newline := String (ascii_of_nat 10) "" in
  [mkUpload "tenant-alpha" "doc-1001" "contract-1001.txt" ("contract 1001" ++ newline) {["source" := "portal"]};
   mkUpload "tenant-alpha" "doc-1002" "claim-1002.txt" ("claim 1002" ++ newline) {["source" := "batch"]}].

Record Preview := mkPreview {
  pv_Bucket : string; pv_QueueName : string; pv_Table : string; pv_ObjectPrefix : string;
  pv_StateKey : string; pv_Operations : list string; pv_IdempotencyRules : list string;
  pv_Prerequisites : list string; pv_SmokeTest : string
}.
Definition NewPreview (bucket queueName table : string) : GoError + Preview :=
  match NewWorkflow bucket ("https://sqs.local/000000000000/" ++ queueName) table 2 30 0 with
  | inl e => inl e
  | inr _ => inr {|
      pv_Bucket := bucket; pv_QueueName := queueName; pv_Table := table;
      pv_ObjectPrefix := "tenants/<tenant_id>/documents/<document_id>/<file_name>";
      pv_StateKey := "pk=TENANT#<tenant_id>, sk=DOCUMENT#<document_id>#PROCESSING";
      pv_Operations := [
        "Submit stores the document body in S3 before publishing the SQS event";
        "Submit sends an SQS JSON event with content-type, event-type, and idempotency-key attributes";
        "ProcessOnce receives one message, downloads the S3 object, and closes the body";
        "ProcessOnce records processing state with a DynamoDB conditional PutItem";
        "Success and duplicate events delete the SQS message; transient failures become visible for retry"];
      pv_IdempotencyRules := [
        "DynamoDB uses attribute_not_exists(pk) AND attribute_not_exists(sk)";
        "ConditionalCheckFailedException becomes ErrConditionalConflict and is acknowledged as duplicate work";
        "S3 or DynamoDB infrastructure errors do not delete the SQS message"];
      pv_Prerequisites := [
        "#59 S3 Floci storage"; "#60 SQS Floci worker"; "#61 DynamoDB conditional repository"];
      pv_SmokeTest := "BLUETAPE_DOCUMENT_WORKFLOW_SMOKE=1 go test -run TestFlociSmoke -count=1 ./examples/s3-sqs-dynamodb-document-workflow/..." |}
  end.
