(* ===== verification/DocumentProofs.v ===== *)
(** What the document workflow promises: a message is deleted only after terminal work, an object is
    stored before its event is sent, keys separate documents, and a submitted event is accepted by
    the worker. *)
From Stdlib Require Import Ascii String.
From S2P Require Import Prelude DocumentWorkflow.

#[local] Arguments String.append !_ _ : simpl nomatch.

(** ** Strings and segments *)

Lemma append_inv_head (a b c : string) : (a ++ b)%string = (a ++ c)%string → b = c.
Proof. induction a as [|x a IH]; cbn; [done|]. intros [= E]. by apply IH. Qed.
Lemma append_inv_tail (a b c : string) : (a ++ c)%string = (b ++ c)%string → a = b.
Proof.
  revert b. induction a as [|x a IH]; intros [|y b] E; cbn in E; [done|..].
  - apply (f_equal String.length) in E. cbn in E. rewrite append_length_s in E. lia.
  - apply (f_equal String.length) in E. cbn in E. rewrite append_length_s in E. lia.
  - injection E as -> E. f_equal. by apply IH.
Qed.

(** Strings without a slash. *)
Definition no_slash (s : string) : Prop := Contains s "/" = false.

Lemma no_slash_cons c s : no_slash (String c s) ↔ c ≠ "/"%char ∧ no_slash s.
Proof.
  unfold no_slash. cbn [Contains]. unfold starts_with. rewrite orb_false_iff.
  assert (String.prefix "/" (String c s) = bool_decide (c = "/"%char)) as ->.
  { cbn [String.prefix]. destruct (ascii_dec "/" c) as [->|Hne]; [by rewrite bool_decide_true; destruct s|].
    rewrite bool_decide_false; [done|congruence]. }
  by rewrite bool_decide_eq_false.
Qed.

Lemma split_slash_app acc s rest :
  no_slash s → split_slash acc (s ++ String "/" rest)%string = (acc ++ s)%string :: split_slash "" rest.
Proof.
  revert acc. induction s as [|c s IH]; intros acc Hs; cbn [split_slash String.append].
  - by rewrite bool_decide_true, append_nil_r_s.
  - apply no_slash_cons in Hs as [Hc Hs]. rewrite bool_decide_false by done.
    rewrite IH by done. by rewrite append_assoc_s.
Qed.

Lemma split_slash_last acc s : no_slash s → split_slash acc s = [(acc ++ s)%string].
Proof.
  revert acc. induction s as [|c s IH]; intros acc Hs; cbn [split_slash].
  - by rewrite append_nil_r_s.
  - apply no_slash_cons in Hs as [Hc Hs]. rewrite bool_decide_false by done.
    rewrite IH by done. by rewrite append_assoc_s.
Qed.

(** Joining segments and splitting them again is the identity. *)
Lemma split_join segments :
  segments ≠ [] → Forall no_slash segments → split_slash "" (String.concat "/" segments) = segments.
Proof.
  intros Hne HF. induction HF as [|s segments Hs HF IH]; [done|].
  destruct segments as [|s' segments]; cbn [String.concat].
  - by rewrite split_slash_last.
  - cbn [String.append]. rewrite split_slash_app by done. cbn [String.append]. f_equal. by apply IH.
Qed.

Lemma join_inj l l' :
  l ≠ [] → l' ≠ [] → Forall no_slash l → Forall no_slash l' →
  String.concat "/" l = String.concat "/" l' → l = l'.
Proof. intros H1 H2 F1 F2 E. by rewrite <- (split_join l), <- (split_join l'), E. Qed.

(** A segment that [path.Clean] keeps. *)
Definition plain_segment (s : string) : Prop := s ≠ "" ∧ s ≠ "." ∧ s ≠ ".." ∧ no_slash s.

Lemma clean_plain rooted kept segments :
  Forall plain_segment segments → clean_segments rooted kept segments = rev segments ++ kept.
Proof.
  intros HF. revert kept. induction HF as [|s segments (H1 & H2 & H3 & _) _ IH]; intros kept; [done|].
  cbn [clean_segments]. rewrite !bool_decide_false by done. cbn [orb]. rewrite IH. cbn.
  by rewrite <- app_assoc.
Qed.

Lemma join_plain segments :
  segments ≠ [] → Forall plain_segment segments →
  path_Join segments = String.concat "/" segments.
Proof.
  intros Hne HF. unfold path_Join.
  assert (filter (λ e, e ≠ "") segments = segments) as ->.
  { clear Hne. induction HF as [|s segments (Hs & _) _ IH]; [done|].
    by rewrite filter_cons_True, IH. }
  destruct segments as [|s segments]; [done|]. set (l := s :: segments) in *.
  assert (Forall no_slash l) as Hns by (eapply Forall_impl; [exact HF|]; by intros x (_ & _ & _ & ?)).
  unfold path_Clean. rewrite split_join, clean_plain, app_nil_r, rev_involutive by done.
  assert (starts_with "/" (String.concat "/" l) = false) as ->.
  { apply Forall_cons in HF as [(Hs & _ & _ & Hn) _]. destruct s as [|c s]; [done|].
    apply no_slash_cons in Hn as [Hc _]. unfold starts_with, l.
    assert (∃ t, String.concat "/" (String c s :: segments) = String c t) as [t ->]
      by (destruct segments; cbn; eauto).
    cbn [String.prefix]. destruct (ascii_dec "/" c) as [<-|]; [done|done]. }
  rewrite bool_decide_false; [done|]. intros E.
  apply Forall_cons in HF as [(Hs & _) _]. unfold l in E.
  destruct s as [|c s]; [done|]. by destruct segments.
Qed.

Lemma no_slash_append s t : no_slash s → no_slash t → no_slash (s ++ t)%string.
Proof.
  induction s as [|c s IH]; cbn; [done|]. rewrite !no_slash_cons. intros [Hc Hs] Ht. auto.
Qed.

Lemma split_no_slash acc s : no_slash acc → Forall no_slash (split_slash acc s).
Proof.
  revert acc. induction s as [|c s IH]; intros acc Ha; cbn [split_slash]; [by constructor|].
  case_bool_decide as Hc; [constructor; [done|by apply IH]|].
  apply IH. apply no_slash_append; [done|]. by apply no_slash_cons.
Qed.

Lemma base_no_slash f : path_Base f = f → f ≠ "/" → no_slash f.
Proof.
  unfold path_Base. case_bool_decide as He; [intros <-; done|]. cbn zeta.
  set (l := split_slash "" _). case_bool_decide as Hb; [by intros <-|]. intros Ef _. rewrite <- Ef.
  assert (Forall no_slash l) as HF by (by apply split_no_slash).
  destruct (last l) as [s|] eqn:El; [|done]. cbn. rewrite Forall_forall in HF.
  apply HF. by apply last_Some_elem_of.
Qed.

Lemma segment_ok name v :
  validateSegment name v = None ↔ v ≠ "" ∧ no_slash v ∧ Contains v ".." = false.
Proof.
  unfold validateSegment, no_slash. destruct (_ || _ || _) eqn:E.
  - split; [done|]. intros (H1 & H2 & H3). by rewrite bool_decide_false, H2, H3 in E.
  - rewrite !orb_false_iff in E. destruct E as [[?%bool_decide_eq_false ?] ?]. done.
Qed.

Lemma file_name_ok f :
  validateFileName f = None ↔ f ≠ "" ∧ path_Base f = f ∧ Contains f ".." = false.
Proof.
  unfold validateFileName. destruct (_ || _ || _) eqn:E.
  - split; [done|]. intros (H1 & H2 & H3). 
    by rewrite (bool_decide_false (f = "")), (bool_decide_true (path_Base f = f)), H3 in E.
  - rewrite !orb_false_iff in E.
    destruct E as [[?%bool_decide_eq_false ?%negb_false_iff%bool_decide_eq_true] ?]. done.
Qed.

Lemma document_ok doc :
  validateDocument doc = None ↔
  validateSegment "tenant_id" (du_TenantID doc) = None ∧
  validateSegment "document_id" (du_DocumentID doc) = None ∧
  validateFileName (du_FileName doc) = None ∧ du_Body doc ≠ "".
Proof.
  unfold validateDocument.
  destruct (validateSegment "tenant_id" _); [naive_solver|].
  destruct (validateSegment "document_id" _); [naive_solver|].
  destruct (validateFileName _); [naive_solver|]. case_bool_decide; naive_solver.
Qed.

(** Names the keys keep apart: those without a segment [path.Join] drops. *)
Definition proper_names (doc : DocumentUpload) : Prop :=
  du_TenantID doc ≠ "." ∧ du_DocumentID doc ≠ "." ∧ du_FileName doc ≠ "." ∧ du_FileName doc ≠ "/".

Definition doc_segments (doc : DocumentUpload) : list string :=
  ["tenants"; du_TenantID doc; "documents"; du_DocumentID doc; du_FileName doc].

Lemma dots_contained s : Contains s ".." = false → s ≠ "..".
Proof. by intros E ->. Qed.

Lemma doc_segments_plain doc :
  validateDocument doc = None → proper_names doc → Forall plain_segment (doc_segments doc).
Proof.
  intros (Ht & Hd & Hf & _)%document_ok (P1 & P2 & P3 & P4).
  apply segment_ok in Ht as (T1 & T2 & T3%dots_contained), Hd as (D1 & D2 & D3%dots_contained).
  apply file_name_ok in Hf as (F1 & F2 & F3%dots_contained). pose proof (base_no_slash _ F2 P4).
  repeat (constructor; [by split_and!|]). constructor.
Qed.

Definition object_key_of (doc : DocumentUpload) : string :=
  objectKey (du_TenantID doc) (du_DocumentID doc) (du_FileName doc).

Lemma object_key_joined doc :
  validateDocument doc = None → proper_names doc →
  object_key_of doc = String.concat "/" (doc_segments doc).
Proof.
  intros Hv Hp. unfold object_key_of, objectKey.
  pose proof Hv as (_ & _ & (_ & -> & _)%file_name_ok & _)%document_ok.
  apply join_plain; [done|]. by apply doc_segments_plain.
Qed.

Lemma plain_no_slash l : Forall plain_segment l → Forall no_slash l.
Proof. intros HF. eapply Forall_impl; [exact HF|]. by intros x (_ & _ & _ & ?). Qed.

Lemma object_key_not_empty doc : object_key_of doc ≠ "".
Proof.
  unfold object_key_of, objectKey, path_Join. rewrite filter_cons_True by done. set (l := filter _ _).
  unfold path_Clean. case_match; [done|]. by case_bool_decide.
Qed.

(** The keys of the DynamoDB item. *)
Lemma idempotency_joined t d : idempotencyKey t d = String.concat "/" [t; d; "process"].
Proof. done. Qed.

(** for accepted documents whose names are not a dot or a slash, the S3 key is the path of
    its five segments, and S3 keys, idempotency keys and DynamoDB keys each determine the document
    (S3 keys also the file). *)
Theorem keys_separate_documents doc doc' :
  validateDocument doc = None → validateDocument doc' = None →
  (proper_names doc →
     object_key_of doc = ("tenants/" ++ du_TenantID doc ++ "/documents/" ++ du_DocumentID doc ++ "/" ++
                            du_FileName doc)%string) ∧
  (proper_names doc → proper_names doc' → object_key_of doc = object_key_of doc' →
     du_TenantID doc = du_TenantID doc' ∧ du_DocumentID doc = du_DocumentID doc' ∧
     du_FileName doc = du_FileName doc') ∧
  (idempotencyKey (du_TenantID doc) (du_DocumentID doc) =
     idempotencyKey (du_TenantID doc') (du_DocumentID doc') →
     du_TenantID doc = du_TenantID doc' ∧ du_DocumentID doc = du_DocumentID doc') ∧
  (tenantKey (du_TenantID doc) = tenantKey (du_TenantID doc') →
   processingKey (du_DocumentID doc) = processingKey (du_DocumentID doc') →
     du_TenantID doc = du_TenantID doc' ∧ du_DocumentID doc = du_DocumentID doc').
Proof.
  intros Hv Hv'. split_and!.
  - intros Hp. by rewrite object_key_joined.
  - intros Hp Hp' E. rewrite !object_key_joined in E by done.
    apply join_inj in E; [by injection E|done|done|by apply plain_no_slash, doc_segments_plain..].
  - rewrite !idempotency_joined. intros E.
    apply document_ok in Hv as (Ht & Hd & _), Hv' as (Ht' & Hd' & _).
    apply segment_ok in Ht as (_ & ? & _), Hd as (_ & ? & _), Ht' as (_ & ? & _), Hd' as (_ & ? & _).
    apply join_inj in E; [by injection E|done|done|by repeat constructor..].
  - unfold tenantKey, processingKey. intros E1%append_inv_head E2%append_inv_head%append_inv_tail. done.
Qed.

Definition upload_of (tenant document file : string) : DocumentUpload :=
  mkUpload tenant document file "body" ∅.

Lemma keys_separate_documents_witness :
  object_key_of (upload_of "tenant-alpha" "doc-1" "a.txt") = "tenants/tenant-alpha/documents/doc-1/a.txt".
Proof.
  apply (proj1 (keys_separate_documents (upload_of "tenant-alpha" "doc-1" "a.txt")
    (upload_of "tenant-beta" "doc-1" "a.txt") eq_refl eq_refl)).
  split_and!; discriminate.
Defined.

(** The segment rules accept a dot (and the file name a slash), which [path.Join] drops:
    accepted documents of different tenants, or of different names, get the same S3 key. *)
Theorem dot_segments_share_object_keys :
  let across := upload_of "." "documents" "a.txt" in
  let other := upload_of "documents" "." "a.txt" in
  let dot := upload_of "tenant-alpha" "doc-1" "." in
  let slash := upload_of "tenant-alpha" "doc-1" "/" in
  let skipped := upload_of "tenant-alpha" "." "doc-1" in
  Forall (λ doc, validateDocument doc = None) [across; other; dot; slash; skipped] ∧
  object_key_of across = object_key_of other ∧
  object_key_of dot = object_key_of slash ∧ object_key_of dot = object_key_of skipped.
Proof. cbn zeta. split_and!; [repeat constructor|vm_compute; reflexivity..]. Qed.

(** ** Submission *)

(** How a submission can go, after the calls made before it. *)
Inductive submitted `{AwsClients} `{EventCodec} (w : Workflow) (doc : DocumentUpload) (calls : list Call)
    : Outcome SubmittedDocument → list Call → Prop :=
  | sub_refused e :
      validate w = Some e ∨ validateDocument doc = Some e ∨ (∃ cause, e = cause_error cause) →
      submitted w doc calls (Fail e) []
  | sub_not_stored e :
      validate w = None → validateDocument doc = None →
      on_put_object calls (put_input w doc) = Some e →
      submitted w doc calls (Fail (Errorf "store document %s: %w" [e] [FStr (object_key_of doc)]))
        [PutObject (put_input w doc)]
  | sub_not_encoded e :
      validate w = None → validateDocument doc = None →
      on_put_object calls (put_input w doc) = None → Marshal (event_of doc) = inl e →
      submitted w doc calls
        (Fail (Errorf "marshal document event %s: %w" [e] [FStr (ev_IdempotencyKey (event_of doc))]))
        [PutObject (put_input w doc)]
  | sub_not_sent e body :
      validate w = None → validateDocument doc = None →
      on_put_object calls (put_input w doc) = None → Marshal (event_of doc) = inr body →
      on_send (calls ++ [PutObject (put_input w doc)]) (send_input w (event_of doc) body) = inl e →
      submitted w doc calls
        (Fail (Errorf "send document event %s: %w" [e] [FStr (ev_IdempotencyKey (event_of doc))]))
        [PutObject (put_input w doc); SendMessage (send_input w (event_of doc) body)]
  | sub_sent body id :
      validate w = None → validateDocument doc = None →
      on_put_object calls (put_input w doc) = None → Marshal (event_of doc) = inr body →
      on_send (calls ++ [PutObject (put_input w doc)]) (send_input w (event_of doc) body) = inr id →
      submitted w doc calls
        (Val (mkSubmitted (du_TenantID doc) (du_DocumentID doc) (object_key_of doc)
                (contentTypeForKey (du_FileName doc) (du_Body doc))
                (Z.of_nat (String.length (du_Body doc))) (default "" id)
                (idempotencyKey (du_TenantID doc) (du_DocumentID doc))))
        [PutObject (put_input w doc); SendMessage (send_input w (event_of doc) body)].

Section Submission.
Context `{AwsClients} `{EventCodec}.

Lemma submit_run w doc c calls o c' calls' :
  Submit w doc c calls = (o, c', calls') →
  ∃ made, calls' = calls ++ made ∧ submitted w doc calls o made.
Proof.
  unfold Submit. intros Hr.
  apply bind_inv in Hr as [(u & c1 & s1 & H1 & Hr)|[(e & -> & H1)|[-> H1]]];
    apply ctxErr_inv in H1 as [-> Ho].
  2: { destruct Ho as [[=]|[cause [= ->]]]. exists []. rewrite app_nil_r. split; [done|].
       constructor. eauto. }
  2: by destruct Ho as [[=]|[cause [=]]].
  clear Ho. apply bind_inv in Hr as [(u' & c2 & s2 & H1 & Hr)|[(e & -> & H1)|[-> H1]]];
    apply fail_if_run in H1 as (-> & -> & [(Ho & Hw)|(e' & Ho & Hw)]); simplify_eq.
  2: { exists []. rewrite app_nil_r. split; [done|]. constructor. auto. }
  apply bind_inv in Hr as [(u' & c2 & s2 & H1 & Hr)|[(e & -> & H1)|[-> H1]]];
    apply fail_if_run in H1 as (-> & -> & [(Ho & Hd)|(e' & Ho & Hd)]); simplify_eq.
  2: { exists []. rewrite app_nil_r. split; [done|]. constructor. auto. }
  unfold bind, call, fail_if, or_fail, ret, throw in Hr. cbn beta iota in Hr.
  destruct (on_put_object _ _) as [e|] eqn:Hput; cbn in Hr.
  { simplify_eq. eexists. split; [done|]. by apply sub_not_stored. }
  destruct (Marshal _) as [e|body] eqn:Hm; cbn in Hr.
  { simplify_eq. eexists. split; [done|]. by apply sub_not_encoded. }
  destruct (on_send _ _) as [e|id] eqn:Hs; cbn in Hr; simplify_eq;
    (eexists; split; [by rewrite <- app_assoc|]); [by eapply sub_not_sent|by eapply sub_sent].
Qed.

(** whatever the clients answer, [Submit] sends an event only after the object of the document
    was stored; a refused document or workflow calls nothing; the submission succeeds exactly when
    the object was stored and the event sent, and then names the stored key and the message. *)
Theorem submit_stores_before_sending w doc c calls o c' calls' :
  Submit w doc c calls = (o, c', calls') →
  ∃ made, calls' = calls ++ made ∧
    (∀ input, SendMessage input ∈ made →
       made = [PutObject (put_input w doc); SendMessage input] ∧
       on_put_object calls (put_input w doc) = None) ∧
    (validate w ≠ None ∨ validateDocument doc ≠ None → made = []) ∧
    (∀ d, o = Val d →
       ∃ body id, Marshal (event_of doc) = inr body ∧
         made = [PutObject (put_input w doc); SendMessage (send_input w (event_of doc) body)] ∧
         on_send (calls ++ [PutObject (put_input w doc)]) (send_input w (event_of doc) body) = inr id ∧
         sd_ObjectKey d = po_Key (put_input w doc) ∧ sd_MessageID d = default "" id ∧
         sd_IdempotencyKey d = idempotencyKey (du_TenantID doc) (du_DocumentID doc) ∧
         sd_Size d = po_ContentLength (put_input w doc)) ∧
    ((∃ e, o = Fail e) ∨ ∃ d, o = Val d).
Proof.
  intros Hr. destruct (submit_run _ _ _ _ _ _ _ Hr) as (made & -> & Hs). exists made. split; [done|].
  destruct Hs; split_and!; try (by left; eexists); try (by right; eexists); try done.
  all: try (intros [?|?]; congruence).
  all: try (intros input Hin; rewrite ?elem_of_cons, ?elem_of_nil in Hin; naive_solver).
  all: try (intros d [= <-]; by do 2 eexists).
Qed.
End Submission.

(** ** The event's round trip *)

(** What the documentation promises of the codec: JSON of an event whose fields are valid UTF-8 is
    not empty and decodes to the event; content types are never empty when sniffed, and valid UTF-8. *)
Definition valid_event (e : DocumentEvent) : Prop :=
  forallb ValidString [ev_TenantID e; ev_DocumentID e; ev_FileName e; ev_ObjectKey e; ev_ContentType e;
                       ev_IdempotencyKey e] = true.
Class EventCodecLaws `{EventCodec} : Prop := {
  marshal_law e : valid_event e → ∃ body, Marshal e = inr body;
  unmarshal_law e body : valid_event e → Marshal e = inr body → body ≠ "" ∧ Unmarshal body = inr e;
  detect_law sample : DetectContentType sample ≠ "" ∧ ValidString (DetectContentType sample) = true;
  extension_law ext : ValidString (TypeByExtension ext) = true
}.

Section RoundTrip.
Context `{AwsClients} `{EventCodec} `{!EventCodecLaws} `{GoUnicode}.

Lemma content_type_ok key sample :
  contentTypeForKey key sample ≠ "" ∧ ValidString (contentTypeForKey key sample) = true.
Proof.
  unfold contentTypeForKey. case_bool_decide as Ht; cbn [negb].
  - case_bool_decide; [done|]. apply detect_law.
  - split; [done|]. apply extension_law.
Qed.

Lemma checked_event doc :
  validateDocument doc = None → check_event (event_of doc) = None.
Proof.
  intros (Ht & Hd & Hf & _)%document_ok. pose proof (object_key_not_empty doc) as Hk. unfold check_event, event_of. cbn [ev_TenantID ev_DocumentID
    ev_FileName ev_ObjectKey ev_ContentType ev_IdempotencyKey].
  pose proof Hf as (_ & -> & _)%file_name_ok. rewrite Ht, Hd, Hf.
  fold (object_key_of doc). rewrite !(bool_decide_false (_ = "")); [|by destruct (du_TenantID doc)|
    apply content_type_ok|done]. cbn [orb].
  by rewrite !bool_decide_true.
Qed.

(** an event sent by a successful [Submit] is accepted by the worker: when the names of the
    document are valid UTF-8, the body of the message decodes to the event that was submitted. *)
Theorem submitted_event_accepted w doc c calls d c' calls' id handle :
  forallb ValidString [du_TenantID doc; du_DocumentID doc; du_FileName doc; object_key_of doc;
                       idempotencyKey (du_TenantID doc) (du_DocumentID doc)] = true →
  Submit w doc c calls = (Val d, c', calls') →
  ∃ body, last calls' = Some (SendMessage (send_input w (event_of doc) body)) ∧
    decodeEvent (mkMessage id handle (Some body)) = inr (event_of doc).
Proof.
  intros Hutf Hr. destruct (submit_run _ _ _ _ _ _ _ Hr) as (made & -> & Hs).
  inversion Hs as [| | | |body mid Hw Hd Hput Hm Hsend]; subst.
  exists body. split.
  { change [PutObject (put_input w doc); SendMessage (send_input w (event_of doc) body)] with
      ([PutObject (put_input w doc)] ++ [SendMessage (send_input w (event_of doc) body)]).
    by rewrite app_assoc, last_snoc. }
  assert (valid_event (event_of doc)) as Hv.
  { unfold valid_event, event_of. cbn [ev_TenantID ev_DocumentID ev_FileName ev_ObjectKey ev_ContentType
      ev_IdempotencyKey forallb]. pose proof Hd as (_ & _ & (_ & -> & _)%file_name_ok & _)%document_ok.
    fold (object_key_of doc). cbn [forallb] in Hutf. rewrite !andb_true_iff in *.
    pose proof (content_type_ok (du_FileName doc) (du_Body doc)) as [_ ?]. naive_solver. }
  destruct (unmarshal_law _ _ Hv Hm) as [Hb Hu]. unfold decodeEvent. cbn.
  rewrite bool_decide_false, Hu by done. by rewrite checked_event.
Qed.
End RoundTrip.

(** ** Processing *)

Section Processing.
Context `{AwsClients} `{EventCodec} `{GoUnicode}.

(** The answers to the conditional write that end the work on a document: the row was created, or
    it existed. *)
Definition conflict (e : GoError) : bool :=
  isConditionalConflict e || errors_Is e "documentworkflow.ErrConditionalConflict".
Definition terminal (verdict : option GoError) : Prop :=
  match verdict with None => True | Some e => conflict e = true end.

Definition receipt (m : Message) : string := default "" (ms_ReceiptHandle m).

(** The work on a message: what was read and written, in terms of the clients' answers. *)
Inductive worked (w : Workflow) (m : Message) (calls : list Call)
    : list Call → GoError + (DocumentEvent * Z * bool) → Prop :=
  | wk_undecoded e : decodeEvent m = inl e → worked w m calls [] (inl e)
  | wk_unread event cause :
      decodeEvent m = inr event →
      (∀ payload, on_get_object calls (w_Bucket w) (ev_ObjectKey event) ≠ inr (Some (inr payload))) →
      worked w m calls [GetObject (w_Bucket w) (ev_ObjectKey event)] (inl cause)
  | wk_recorded event payload verdict :
      let get := GetObject (w_Bucket w) (ev_ObjectKey event) in
      let size := Z.of_nat (String.length payload) in
      let item := item_input w event size in
      decodeEvent m = inr event →
      on_get_object calls (w_Bucket w) (ev_ObjectKey event) = inr (Some (inr payload)) →
      on_put_item (calls ++ [get]) item = verdict → terminal verdict →
      worked w m calls [get; PutItem item] (inr (event, size, bool_decide (is_Some verdict)))
  | wk_unrecorded event payload e cause :
      let get := GetObject (w_Bucket w) (ev_ObjectKey event) in
      let item := item_input w event (Z.of_nat (String.length payload)) in
      decodeEvent m = inr event →
      on_get_object calls (w_Bucket w) (ev_ObjectKey event) = inr (Some (inr payload)) →
      on_put_item (calls ++ [get]) item = Some e → conflict e = false →
      worked w m calls [get; PutItem item] (inl cause).

(** How the work is settled: an acknowledgement, or a retry that makes the message visible again. *)
Definition settled (w : Workflow) (m : Message) (calls made : list Call)
    (work : GoError + (DocumentEvent * Z * bool)) (r : ProcessResult) (err : option GoError) : Prop :=
  match work with
  | inl cause =>
      pr_Acked r = false ∧ pr_Duplicate r = false ∧ is_Some err ∧
      (receipt m = "" ∧ made = [] ∧ err = Some cause ∧ pr_RetryVisible r = false ∨
       receipt m ≠ "" ∧
       made = [ChangeMessageVisibility (w_QueueURL w) (receipt m) (w_FailureVisibleSeconds w)] ∧
       (pr_RetryVisible r = true ↔
          on_change calls (w_QueueURL w) (receipt m) (w_FailureVisibleSeconds w) = None) ∧
       (pr_RetryVisible r = true → err = Some cause ∧ pr_Failure r = Error cause ∧
          pr_VisibilitySeconds r = w_FailureVisibleSeconds w))
  | inr (event, size, duplicate) =>
      pr_RetryVisible r = false ∧ pr_Event r = event ∧ pr_BytesRead r = size ∧
      (receipt m = "" ∧ made = [] ∧ is_Some err ∧ pr_Acked r = false ∨
       receipt m ≠ "" ∧ made = [DeleteMessage (w_QueueURL w) (receipt m)] ∧
       (err = None ↔ on_delete calls (w_QueueURL w) (receipt m) = None) ∧
       (pr_Acked r = true ↔ err = None) ∧ (err = None → pr_Duplicate r = duplicate))
  end.

Lemma retry_settles w m r cause c calls :
  pr_ReceiptHandle r = receipt m → pr_Acked r = false → pr_Duplicate r = false →
  pr_RetryVisible r = false →
  ∃ r' err made, retry w r cause c calls = (Val (r', err), c, calls ++ made) ∧
    settled w m calls made (inl cause) r' err.
Proof.
  intros Hh Ha Hd Hv. unfold retry. rewrite Hh. case_bool_decide as E.
  - eexists r, _, []. rewrite app_nil_r. split; [reflexivity|]. cbn. split_and!; eauto 8.
  - unfold bind, call, ret. destruct (on_change _ _ _ _) as [e|] eqn:Hc.
    all: do 3 eexists; split; [reflexivity|]; cbn; rewrite Hc, ?Hv; split_and!; try done; try (by eexists).
    all: right; split_and!; [done..|split; congruence|intros E1; first [discriminate E1|done]].
Qed.

Lemma ack_settles w m r event size duplicate c calls :
  pr_ReceiptHandle r = receipt m → pr_Acked r = false → pr_RetryVisible r = false →
  pr_Event r = event → pr_BytesRead r = size →
  ∃ r' err made,
    (let! ackErr := ack w (pr_ReceiptHandle r) in
     ret match ackErr with Some e => (r, Some e) | None => (with_acked duplicate r, None) end) c calls =
      (Val (r', err), c, calls ++ made) ∧
    settled w m calls made (inr (event, size, duplicate)) r' err.
Proof.
  intros Hh Ha Hv He Hs. unfold ack. rewrite Hh. case_bool_decide as E.
  - eexists r, _, []. rewrite app_nil_r. split; [reflexivity|]. cbn. split_and!; eauto 8.
  - unfold bind, call, ret. destruct (on_delete _ _ _) as [e|] eqn:Hc.
    all: do 3 eexists; split; [reflexivity|]; cbn; rewrite Hc, ?Ha; split_and!; try done.
    all: right; split_and!; [done..|split; congruence|split; congruence|intros E1; first [discriminate E1|done]].
Qed.

Lemma unread_settles w m event cause r1 c calls x :
  decodeEvent m = inr event →
  pr_ReceiptHandle r1 = receipt m → pr_Acked r1 = false → pr_Duplicate r1 = false →
  pr_RetryVisible r1 = false →
  (∀ payload, on_get_object calls (w_Bucket w) (ev_ObjectKey event) ≠ inr (Some (inr payload))) →
  x = retry w r1 cause c (calls ++ [GetObject (w_Bucket w) (ev_ObjectKey event)]) →
  ∃ r err work made made', x = (Val (r, err), c, calls ++ made ++ made') ∧
    worked w m calls made work ∧ settled w m (calls ++ made) made' work r err.
Proof.
  intros Hdec H1' H2 H3 H4 Hget ->.
  destruct (retry_settles w m r1 cause c (calls ++ [GetObject (w_Bucket w) (ev_ObjectKey event)]))
    as (r & err & made & Hr & Hs); [done..|].
  exists r, err, (inl cause), [GetObject (w_Bucket w) (ev_ObjectKey event)], made.
  rewrite Hr, <- app_assoc. split_and!; [done|by apply wk_unread|done].
Qed.

(** Handling a message always returns: it works on the message, then settles it. *)
Lemma handle_message_settles w m c calls :
  ∃ r err work made made', handle_message w m c calls = (Val (r, err), c, calls ++ made ++ made') ∧
    worked w m calls made work ∧ settled w m (calls ++ made) made' work r err.
Proof.
  unfold handle_message. destruct (decodeEvent m) as [e|event] eqn:Hdec.
  { destruct (retry_settles w m (mkResult zero_event (default "" (ms_MessageId m)) (receipt m) 0 false
      false false "" false 0) e c calls) as (r & err & made & Hr & Hs); [done..|].
    exists r, err, (inl e), [], made. rewrite app_nil_r. split_and!; [exact Hr|by constructor|done]. }
  set (r1 := with_event event _). set (get := GetObject (w_Bucket w) (ev_ObjectKey event)).
  unfold readObjectSize. fold get. unfold bind at 1. unfold bind at 1. unfold call at 1, ret at 1.
  destruct (on_get_object _ _ _) as [e|[[e|payload]|]] eqn:Hget.
  1,2,4: eapply (unread_settles w m event _ r1); [exact Hdec|done..| |reflexivity]; intros ?;
    by rewrite Hget.
  set (size := Z.of_nat (String.length payload)). set (r2 := with_size size r1).
  set (item := item_input w event size). unfold recordProcessed. fold item.
  unfold bind at 1. unfold bind at 1. unfold call at 1, ret at 1.
  destruct (on_put_item _ _) as [e|] eqn:Hput.
  - destruct (isConditionalConflict e) eqn:Hc.
    + match goal with |- context [errors_Is ?f ?n] => assert (errors_Is f n = true) as -> by done end.
      destruct (ack_settles w m r2 event size true c ((calls ++ [get]) ++ [PutItem item]))
        as (r & err & made & Hr & Hs); [done..|].
      exists r, err, (inr (event, size, true)), [get; PutItem item], made.
      rewrite Hr, <- !app_assoc in *. split_and!; [done| |done].
      apply (wk_recorded w m calls event payload (Some e)); [done..|]. cbn. unfold conflict. by rewrite Hc.
    + match goal with |- context [errors_Is ?f ?n] =>
        assert (errors_Is f n = errors_Is e n) as -> by (cbn; by rewrite orb_false_r) end.
      destruct (errors_Is e "documentworkflow.ErrConditionalConflict") eqn:Hd.
      * destruct (ack_settles w m r2 event size true c ((calls ++ [get]) ++ [PutItem item]))
          as (r & err & made & Hr & Hs); [done..|].
        exists r, err, (inr (event, size, true)), [get; PutItem item], made.
        rewrite Hr, <- !app_assoc in *. split_and!; [done| |done].
        apply (wk_recorded w m calls event payload (Some e)); [done..|]. cbn. unfold conflict.
        by rewrite Hc, Hd.
      * match goal with |- context [retry w r2 ?cause] =>
          destruct (retry_settles w m r2 cause c ((calls ++ [get]) ++ [PutItem item]))
            as (r & err & made & Hr & Hs); [done..|];
          exists r, err, (inl cause), [get; PutItem item], made end.
        rewrite Hr, <- !app_assoc in *. split_and!; [done| |done].
        eapply wk_unrecorded; [done..|]. unfold conflict. by rewrite Hc, Hd.
  - destruct (ack_settles w m r2 event size false c ((calls ++ [get]) ++ [PutItem item]))
      as (r & err & made & Hr & Hs); [done..|].
    exists r, err, (inr (event, size, false)), [get; PutItem item], made.
    rewrite Hr, <- !app_assoc in *. split_and!; [done| |done].
    by apply (wk_recorded w m calls event payload None).
Qed.

(** How a call of [ProcessOnce] can go: refused before any call, no message, or one message worked
    on and settled. *)
Inductive processed (w : Workflow) (calls : list Call)
    : Outcome (ProcessResult * option GoError) → list Call → Prop :=
  | pc_refused e : processed w calls (Fail e) []
  | pc_not_received e err :
      validate w = None → on_receive calls (receive_input w) = inl e →
      processed w calls (Val (zero_result, Some err)) [ReceiveMessage (receive_input w)]
  | pc_no_message r :
      validate w = None → on_receive calls (receive_input w) = inr [] → pr_NoMessage r = true →
      processed w calls (Val (r, Some ErrNoMessages)) [ReceiveMessage (receive_input w)]
  | pc_message m ms work made made' r err :
      let received := calls ++ [ReceiveMessage (receive_input w)] in
      validate w = None → on_receive calls (receive_input w) = inr (m :: ms) →
      worked w m received made work → settled w m (received ++ made) made' work r err →
      processed w calls (Val (r, err)) (ReceiveMessage (receive_input w) :: made ++ made').

Lemma process_once_run w c calls o c' calls' :
  ProcessOnce w c calls = (o, c', calls') →
  ∃ made, calls' = calls ++ made ∧ processed w calls o made.
Proof.
  unfold ProcessOnce. intros Hr.
  apply bind_inv in Hr as [(u & c1 & s1 & H2 & Hr)|[(e & -> & H2)|[-> H2]]];
    apply ctxErr_inv in H2 as [-> Ho].
  2: { exists []. rewrite app_nil_r. split; [done|]. constructor. }
  2: by destruct Ho as [[=]|[cause [=]]].
  apply bind_inv in Hr as [(u' & c2 & s2 & H2 & Hr)|[(e & -> & H2)|[-> H2]]];
    apply fail_if_run in H2 as (-> & -> & [(Ho' & Hw)|(e' & Ho' & Hw)]); simplify_eq.
  2: { exists []. rewrite app_nil_r. split; [done|]. constructor. }
  unfold bind, call at 1 in Hr. cbn beta iota in Hr.
  destruct (on_receive _ _) as [e|[|m ms]] eqn:Hrec.
  - unfold ret in Hr. simplify_eq. eexists. split; [done|]. by eapply pc_not_received.
  - unfold ret in Hr. simplify_eq. eexists. split; [done|]. by apply pc_no_message.
  - destruct (handle_message_settles w m c1 (calls ++ [ReceiveMessage (receive_input w)]))
      as (r & err & work & made & made' & Hm & Hwk & Hst). rewrite Hm in Hr. injection Hr as <- <- <-.
    eexists. split; [by rewrite <- app_assoc|]. exact (pc_message w calls m ms work made made' r err Hw Hrec Hwk Hst).
Qed.

(** C37: whatever the clients answer, [ProcessOnce] never panics, and it either calls nothing,
    receives no message, or works on the first message it received and settles it: by one delete
    after terminal work, or by making the message visible again after work that failed. *)
Theorem process_once_settles w c calls o c' calls' :
  ProcessOnce w c calls = (o, c', calls') →
  o ≠ Panic ∧ ∃ made, calls' = calls ++ made ∧ processed w calls o made.
Proof.
  intros (made & -> & Hp)%process_once_run. split; [by destruct Hp|eauto].
Qed.

(** C20: a message is deleted only when its event was accepted, its object was read to the end and
    the conditional write answered that the document is processed, now or before; the delete is
    then the last call, and the result is acknowledged exactly when the delete succeeded. *)
Theorem delete_only_terminal_work w c calls o c' calls' made url handle :
  ProcessOnce w c calls = (o, c', calls') → calls' = calls ++ made → DeleteMessage url handle ∈ made →
  ∃ m ms event payload r err,
    let receive := ReceiveMessage (receive_input w) in
    let get := GetObject (w_Bucket w) (ev_ObjectKey event) in
    let item := item_input w event (Z.of_nat (String.length payload)) in
    let verdict := on_put_item (calls ++ [receive; get]) item in
    on_receive calls (receive_input w) = inr (m :: ms) ∧ decodeEvent m = inr event ∧
    on_get_object (calls ++ [receive]) (w_Bucket w) (ev_ObjectKey event) = inr (Some (inr payload)) ∧
    terminal verdict ∧ url = w_QueueURL w ∧ handle = receipt m ∧
    made = [receive; get; PutItem item; DeleteMessage url handle] ∧ o = Val (r, err) ∧
    (pr_Acked r = true ↔ err = None) ∧
    (err = None → pr_Duplicate r = bool_decide (is_Some verdict)) ∧
    (err = None ↔ on_delete (calls ++ [receive; get; PutItem item]) url handle = None).
Proof.
  intros (made' & -> & Hp)%process_once_run ->%app_inv_head Hin.
  destruct Hp as [| | |m ms work mid fin r err received Hw Hrec Hwk Hst];
    [set_solver..|].
  destruct Hwk as [e Hdec|event cause Hdec Hget|event payload verdict get size item Hdec Hget Hput Ht
    |event payload e cause get item Hdec Hget Hput Hcf]; cbn in Hst.
  1,2,4: exfalso; destruct Hst as (_ & _ & _ & [(_ & -> & _)|(_ & -> & _)]); set_solver.
  destruct Hst as (_ & _ & _ & [(_ & -> & _)|(Hh & -> & Hd & Ha & Hdup)]); [exfalso; set_solver|].
  assert (url = w_QueueURL w ∧ handle = receipt m) as [-> ->].
  { rewrite !elem_of_cons, elem_of_app, !elem_of_cons, !elem_of_nil in Hin. naive_solver. }
  exists m, ms, event, payload, r, err. cbn zeta. unfold received, get, item, size in *.
  rewrite <- !app_assoc in *. cbn [app] in *. subst verdict. split_and!; try done.
Qed.
End Processing.

(** ** Concrete clients and codec *)

(** A codec that writes the six fields one behind the other. *)
Definition event_fields (e : DocumentEvent) : list string :=
  [ev_TenantID e; ev_DocumentID e; ev_FileName e; ev_ObjectKey e; ev_ContentType e; ev_IdempotencyKey e].

Definition plain_codec : EventCodec := {|
  Marshal e := inr (write_fields (event_fields e));
  Unmarshal body :=
    match read_fields 6 body with
    | Some [t; d; f; k; ct; i] => inr (mkEvent t d f k ct i)
    | _ => inl (plain_error "unexpected end of JSON input")
    end;
  TypeByExtension ext := if bool_decide (ext = ".txt") then "text/plain; charset=utf-8" else "";
  DetectContentType _ := "application/octet-stream"
|}.

Lemma plain_codec_laws : EventCodecLaws (H := plain_codec).
Proof.
  split; cbn -[read_fields write_fields event_fields].
  - eauto.
  - intros e body _ [= <-]. split; [by destruct (ev_TenantID e)|].
    pose proof (read_write_fields (event_fields e)) as E. change (length (event_fields e)) with 6%nat in E.
    change (read_fields 6 _) with (read_fields 6 (write_fields (event_fields e))). rewrite E. by destruct e.
  - done.
  - intros ext. by case_bool_decide.
Qed.

Definition sample_workflow : Workflow := mkWorkflow "docs" "https://sqs/docs" "documents" 2 30 0.
Definition sample_upload : DocumentUpload := upload_of "tenant-alpha" "doc-1001" "contract-1001.txt".
Definition sample_message : Message :=
  mkMessage (Some "m-1") (Some "r-1")
    (match Marshal (EventCodec := plain_codec) (event_of (H0 := plain_codec) sample_upload) with
     | inr body => Some body
     | inl _ => None
     end).

(** Clients that keep every object they are given, deliver the sample message, and refuse the second
    write of an item. *)
Definition plain_clients : AwsClients := {|
  on_put_object _ _ := None;
  on_get_object _ _ _ := inr (Some (inr "body"));
  on_send _ _ := inr (Some "m-1");
  on_receive _ _ := inr [sample_message];
  on_delete _ _ _ := None;
  on_change _ _ _ _ := None;
  on_put_item calls _ :=
    if existsb (λ c, match c with PutItem _ => true | _ => false end) calls
    then Some (Sentinel "types.ConditionalCheckFailedException" "the conditional request failed")
    else None
|}.

Definition sample_submit := Submit (H := plain_clients) (H0 := plain_codec) sample_workflow sample_upload.
Definition sample_process :=
  ProcessOnce (H := plain_clients) (H0 := plain_codec) (H1 := plain_unicode) sample_workflow.

Definition outcome_of {A} (run : Outcome A * Ctx * list Call) : Outcome A := run.1.1.
Definition calls_of {A} (run : Outcome A * Ctx * list Call) : list Call := run.2.
Definition ctx_of {A} (run : Outcome A * Ctx * list Call) : Ctx := run.1.2.

Lemma run_parts {A} (run : Outcome A * Ctx * list Call) : run = (outcome_of run, ctx_of run, calls_of run).
Proof. by destruct run as [[? ?] ?]. Qed.
Definition submit_run0 := sample_submit Background [].
Definition process_run0 := sample_process Background [].
Definition process_run1 := sample_process Background (calls_of process_run0).

Lemma submit_run0_sent :
  calls_of submit_run0 =
    [PutObject (put_input (H0 := plain_codec) sample_workflow sample_upload);
     SendMessage (send_input sample_workflow (event_of (H0 := plain_codec) sample_upload)
                    (default "" (ms_Body sample_message)))].
Proof. vm_compute. reflexivity. Qed.
Lemma process_run1_deletes :
  calls_of process_run1 =
    calls_of process_run0 ++
      [ReceiveMessage (receive_input sample_workflow);
       GetObject "docs" "tenants/tenant-alpha/documents/doc-1001/contract-1001.txt";
       PutItem (item_input sample_workflow (event_of (H0 := plain_codec) sample_upload) 4);
       DeleteMessage "https://sqs/docs" "r-1"].
Proof. vm_compute. reflexivity. Qed.

Lemma submit_stores_before_sending_witness :
  on_put_object (AwsClients := plain_clients) [] (put_input (H0 := plain_codec) sample_workflow sample_upload) =
    None.
Proof.
  destruct (submit_stores_before_sending (H := plain_clients) (H0 := plain_codec) sample_workflow sample_upload
    Background [] (outcome_of submit_run0) (ctx_of submit_run0) (calls_of submit_run0)
    (run_parts submit_run0)) as (made & Hmade & Hsend & _).
  rewrite submit_run0_sent in Hmade. cbn [app] in Hmade. subst made.
  eapply Hsend. apply elem_of_cons. right. apply elem_of_cons. left. reflexivity.
Defined.

Lemma submitted_event_accepted_witness :
  ∃ body, last (calls_of submit_run0) =
      Some (SendMessage (send_input sample_workflow (event_of (H0 := plain_codec) sample_upload) body)) ∧
    decodeEvent (H0 := plain_codec) (mkMessage None None (Some body)) =
      inr (event_of (H0 := plain_codec) sample_upload).
Proof.
  eapply (submitted_event_accepted (H := plain_clients) (H0 := plain_codec)
    (H1 := plain_codec_laws) sample_workflow sample_upload Background []
    (match outcome_of submit_run0 with Val d => d | _ => mkSubmitted "" "" "" "" 0 "" "" end)
    (ctx_of submit_run0) (calls_of submit_run0)); vm_compute; reflexivity.
Defined.

Lemma process_once_settles_witness :
  outcome_of process_run0 ≠ Panic ∧ ∃ made, calls_of process_run0 = [] ++ made ∧
    processed (H := plain_clients) (H0 := plain_codec) (H1 := plain_unicode) sample_workflow []
      (outcome_of process_run0) made.
Proof.
  exact (process_once_settles (H := plain_clients) (H0 := plain_codec) (H1 := plain_unicode) sample_workflow
    Background [] _ _ _ (run_parts process_run0)).
Defined.

(** The second delivery is acknowledged as a duplicate. *)
Lemma delete_only_terminal_work_witness :
  ∃ r, outcome_of process_run1 = Val (r, None) ∧ pr_Acked r = true ∧ pr_Duplicate r = true.
Proof.
  destruct (delete_only_terminal_work (H := plain_clients) (H0 := plain_codec) (H1 := plain_unicode)
    sample_workflow Background (calls_of process_run0) _ _ _ _ "https://sqs/docs" "r-1"
    (run_parts process_run1) process_run1_deletes)
    as (m & ms & event & payload & r & err & _ & _ & _ & _ & _ & _ & _ & Ho & Ha & Hd & He).
  - do 3 (apply elem_of_cons; right). apply elem_of_cons. left. reflexivity.
  - assert (err = None) as E by (apply He; reflexivity). exists r. split_and!.
    + rewrite <- E. exact Ho.
    + apply Ha. exact E.
    + rewrite (Hd E). vm_compute. reflexivity.
Defined.
