(* ===== verification/OrderHistory.v ===== *)
(** examples/audit-order-history/internal/orderhistory: orders whose audit entry is appended before
    their current state changes. The audit library and its repository are parameters; the calls of
    the repository and of the clock are recorded, and answered from the calls made before. *)
From Stdlib Require Import Ascii String.
From S2P Require Import Prelude.

Definition ErrInvalidConfig : GoError :=
  Sentinel "orderhistory.ErrInvalidConfig" "invalid order history configuration".
Definition ErrInvalidCommand : GoError :=
  Sentinel "orderhistory.ErrInvalidCommand" "invalid order history command".
Definition ErrOrderExists : GoError := Sentinel "orderhistory.ErrOrderExists" "order already exists".
Definition ErrOrderNotFound : GoError := Sentinel "orderhistory.ErrOrderNotFound" "order not found".
Definition ErrInvalidTransition : GoError :=
  Sentinel "orderhistory.ErrInvalidTransition" "invalid order status transition".

Abbreviation Status := string (only parsing).
Definition StatusPending : Status := "pending".
Definition StatusConfirmed : Status := "confirmed".
Definition StatusShipped : Status := "shipped".
Definition StatusCancelled : Status := "cancelled".
Definition aggregateType : string := "order".

(** ** Identifiers and reasons *)

Definition identifierPattern (s : string) : bool := safe_identifier s.

Definition normalizeIdentifier (name value : string) : GoError + string :=
  let value := TrimSpace value in
  if negb (identifierPattern value)
  then inl (Errorf "%w: %s is invalid" [ErrInvalidCommand] [FStr name])
  else inr value.

Definition normalizeReason (reason : string) : GoError + string :=
  if negb (ValidString reason)
  then inl (Errorf "%w: reason must be valid UTF-8" [ErrInvalidCommand] [])
  else
    let reason := TrimSpace reason in
    if 256 <? RuneCountInString reason
    then inl (Errorf "%w: reason exceeds 256 runes" [ErrInvalidCommand] [])
    else inr reason.

Definition normalizeCommand (orderID commandID : string) : GoError + (string * string) :=
  try! orderID := normalizeIdentifier "order_id" orderID in
  try! commandID := normalizeIdentifier "command_id" commandID in
  inr (orderID, commandID).

(** ** The audit library *)

Definition ErrRevisionConflict : GoError := Sentinel "audit.ErrRevisionConflict" "audit: revision conflict".
Definition ErrInvalidQuery : GoError := Sentinel "audit.ErrInvalidQuery" "audit: invalid query".

(** The opaque types of the library ([QueryFields]: the fields of a query the service passes on
    unread); instants are integers. *)
Class AuditTypes := {
  Revision : Type; AggregateID : Type; DomainEvent : Type; ChangeMetadata : Type; Entry : Type;
  History : Type; QueryFields : Type
}.

Section Options.
Context `{AuditTypes}.

Record EventOptions := mkEventOptions {
  eo_EventID : string; eo_EventType : string; eo_AggregateID : AggregateID; eo_Revision : Revision;
  eo_OccurredAt : Z; eo_RecordedAt : Z; eo_IdempotencyKey : string; eo_Metadata : gmap string string;
  eo_Payload : string
}.
Record EntryOptions := mkEntryOptions {
  en_Author : string; en_Event : DomainEvent; en_Change : Ptr ChangeMetadata
}.
Record Query := mkQuery {
  q_Aggregate : Ptr AggregateID; q_AggregateType : string; q_FromRevision : option Revision;
  q_NewestFirst : bool; q_Limit : Z; q_Other : QueryFields
}.

(** What the service and the repository exchange, with the answers. *)
Inductive Call :=
  | Append (entry : Entry) (answer : option GoError)
  | LoadHistory (aggregate : AggregateID) (answer : GoError + option History)
  | Find (query : Query) (answer : GoError + Ptr (list Entry))
  | Now (answer : Z).
End Options.

Class AuditLib `{AuditTypes} := {
  InitialRevision : Revision;
  Revision_Next : Revision → GoError + Revision;
  revision_of : Z → Revision;
  ValidationError : GoError → string → string → GoError;
  NewAggregateID : string → string → GoError + AggregateID;
  aggregate_Type : AggregateID → string;
  NewDomainEvent : EventOptions → GoError + DomainEvent;
  NewChangeMetadata : list string → string → gmap string string → GoError + ChangeMetadata;
  NewEntry : EntryOptions → GoError + Entry;
  no_fields : QueryFields;
  history_Entries : History → list Entry;
  entry_EventID : Entry → string; entry_EventType : Entry → string; entry_Revision : Entry → Revision;
  entry_OccurredAt : Entry → Z; entry_Author : Entry → string;
  entry_Attributes : Entry → Ptr (gmap string string)
}.

(** The repository and the clock the application passes in. *)
Class AuditRepository `{AuditTypes} := {
  on_append : list Call → Entry → option GoError;
  on_load : list Call → AggregateID → GoError + option History;
  on_find : list Call → Query → GoError + Ptr (list Entry);
  on_now : list Call → Z
}.

Section Service.
Context `{AuditTypes} `{!AuditLib} `{!AuditRepository}.

Record Order := mkOrder { o_OrderID : string; o_Status : Status; o_Revision : Revision; o_UpdatedAt : Z }.
Record CreateCommand := mkCreate { cc_OrderID : string; cc_CommandID : string }.
Record TransitionCommand := mkTransition { tc_OrderID : string; tc_CommandID : string }.
Record CancelCommand := mkCancel { kc_OrderID : string; kc_CommandID : string; kc_Reason : string }.

(** A service: whether its repository and clock are set, and its maps, nil in the zero value. *)
Record Service := mkService {
  sv_repo : bool; sv_author : string; sv_now : bool;
  sv_orders : Ptr (gmap string Order); sv_used : Ptr (gset string)
}.
(** The state of a method: its receiver and the calls made so far. *)
Record World := mkWorld { w_service : Ptr Service; w_calls : list Call }.
Definition set_service (s : Ptr Service) (w : World) : World := mkWorld s (w_calls w).

Record Options := mkOptions { op_Author : string; op_Now : bool }.

Definition NewService (repo : bool) (options : Options) : GoError + Service :=
  if negb repo then inl (Errorf "%w: repository is required" [ErrInvalidConfig] [])
  else
    let author := TrimSpace (op_Author options) in
    if bool_decide (author = "") || negb (ValidString author) || (128 <? RuneCountInString author)
    then inl (Errorf "%w: author must be valid UTF-8 and contain 1..128 runes" [ErrInvalidConfig] [])
    else inr (mkService true author true (Some ∅) (Some ∅)).

Definition ready (s : Service) : bool :=
  sv_repo s && sv_now s && bool_decide (is_Some (sv_orders s)) && bool_decide (is_Some (sv_used s)).
(** [if !s.ready() { return ErrInvalidConfig }], giving the receiver. *)
Definition receiver : GoM World Service :=
  on_part w_service set_service (deref_or ready ErrInvalidConfig).

(** A call: answered by an oracle, and recorded with its answer. *)
Definition call {R} (answer : list Call → R) (c : R → Call) : GoM World R :=
  λ ctx w, let r := answer (w_calls w) in
           (Val r, ctx, mkWorld (w_service w) (w_calls w ++ [c r])).

(** ** newEntry *)

Definition payload_of (before after : Status) (reason : string) : string :=
  let field name value := (quote_char ++ name ++ quote_char ++ ":" ++ json_string value)%string in
  let before := if bool_decide (before = "") then [] else [field "status_before" before] in
  let reason := if bool_decide (reason = "") then [] else [field "reason" reason] in
  ("{" ++ String.concat "," (before ++ [field "status_after" after] ++ reason) ++ "}")%string.

Definition newEntry (author orderID commandID eventType : string) (revision : Revision) (now : Z)
    (before after : Status) (reason : string) : GoError + Entry :=
  try! aggregate := wrapping (λ e, Errorf "create aggregate id: %w" [e] [])
                      (NewAggregateID aggregateType orderID) in
  try! event := wrapping (λ e, Errorf "create order event: %w" [e] [])
                  (NewDomainEvent
                     (mkEventOptions commandID eventType aggregate revision now now commandID
                        {["source" := "audit-order-history"]} (payload_of before after reason))) in
  try! change := wrapping (λ e, Errorf "create order change metadata: %w" [e] [])
                   (NewChangeMetadata ["status"] "order status changed"
                      (<["status_before" := before]> {["status_after" := after]})) in
  wrapping (λ e, Errorf "create order audit entry: %w" [e] []) (NewEntry (mkEntryOptions author event (Some change))).

(** ** apply *)

Definition orders_of (s : Service) : gmap string Order := default ∅ (sv_orders s).
Definition used_of (s : Service) : gset string := default ∅ (sv_used s).

Definition check_command (used : gset string) (commandID : string) : option GoError :=
  if bool_decide (commandID ∈ used)
  then Some (Errorf "duplicate command: %w" [ValidationError ErrRevisionConflict "event_id" commandID] [])
  else None.

Definition check_transition (current : option Order) (orderID eventType : string)
    (required target : Status) : option GoError :=
  if bool_decide (eventType = "order.created") then
    match current with Some _ => Some (Errorf "%w: %s" [ErrOrderExists] [FStr orderID]) | None => None end
  else
    match current with
    | None => Some (Errorf "%w: %s" [ErrOrderNotFound] [FStr orderID])
    | Some order =>
        if bool_decide (eventType = "order.cancelled") then
          if negb (bool_decide (o_Status order = StatusPending)) && negb (bool_decide (o_Status order = StatusConfirmed))
          then Some (Errorf "%w: cannot cancel %s" [ErrInvalidTransition] [FStr (o_Status order)])
          else None
        else if negb (bool_decide (o_Status order = required))
        then Some (Errorf "%w: %s to %s" [ErrInvalidTransition] [FStr (o_Status order); FStr target])
        else None
    end.

Definition next_revision (current : option Order) : GoError + Revision :=
  match current with
  | None => inr InitialRevision
  | Some order => wrapping (λ e, Errorf "next order revision: %w" [e] []) (Revision_Next (o_Revision order))
  end.
Definition before_of (current : option Order) : Status :=
  match current with Some order => o_Status order | None => "" end.

Definition put_order (order : Order) (commandID : string) (s : Service) : Service :=
  mkService (sv_repo s) (sv_author s) (sv_now s)
    (insert (o_OrderID order) order <$> sv_orders s) (union {[commandID]} <$> sv_used s).
Definition put_in (order : Order) (commandID : string) (w : World) : World :=
  set_service (put_order order commandID <$> w_service w) w.

(** The service's mutex makes the part after the first poll of the context atomic. *)
Definition apply (orderID commandID eventType : string) (required target : Status) (reason : string)
    : GoM World Order :=
  let! s := receiver in
  do! ctxErr;
  do! ctxErr;
  do! fail_if (check_command (used_of s) commandID);
  let current := orders_of s !! orderID in
  do! fail_if (check_transition current orderID eventType required target);
  let! revision := or_fail id (next_revision current) in
  let! now := call on_now Now in
  let! entry := or_fail id (newEntry (sv_author s) orderID commandID eventType revision now
                              (before_of current) target reason) in
  let! appended := call (λ calls, on_append calls entry) (Append entry) in
  do! fail_if (match appended with
               | Some e => Some (Errorf "append order audit entry: %w" [e] [])
               | None => None
               end);
  let updated := mkOrder orderID target revision now in
  do! modify (put_in updated commandID);
  ret updated.

(** ** Operations *)

Definition Create (command : CreateCommand) : GoM World Order :=
  let! _ := receiver in
  let! (orderID, commandID) := or_fail id (normalizeCommand (cc_OrderID command) (cc_CommandID command)) in
  apply orderID commandID "order.created" "" StatusPending "".

Definition Confirm (command : TransitionCommand) : GoM World Order :=
  let! _ := receiver in
  let! (orderID, commandID) := or_fail id (normalizeCommand (tc_OrderID command) (tc_CommandID command)) in
  apply orderID commandID "order.confirmed" StatusPending StatusConfirmed "".

Definition Ship (command : TransitionCommand) : GoM World Order :=
  let! _ := receiver in
  let! (orderID, commandID) := or_fail id (normalizeCommand (tc_OrderID command) (tc_CommandID command)) in
  apply orderID commandID "order.shipped" StatusConfirmed StatusShipped "".

Definition Cancel (command : CancelCommand) : GoM World Order :=
  let! _ := receiver in
  let! (orderID, commandID) := or_fail id (normalizeCommand (kc_OrderID command) (kc_CommandID command)) in
  let! reason := or_fail id (normalizeReason (kc_Reason command)) in
  apply orderID commandID "order.cancelled" "" StatusCancelled reason.

Definition Current (orderID : string) (w : World) : option Order :=
  match w_service w with
  | Some s => if ready s then orders_of s !! TrimSpace orderID else None
  | None => None
  end.

Definition History_of (orderID : string) : GoM World (option History) :=
  let! _ := receiver in
  let! orderID := or_fail id (normalizeIdentifier "order_id" orderID) in
  let! aggregate := or_fail (λ e, Errorf "create aggregate id: %w" [e] [])
                      (NewAggregateID aggregateType orderID) in
  let! loaded := call (λ calls, on_load calls aggregate) (LoadHistory aggregate) in
  or_fail (λ e, Errorf "load order history: %w" [e] []) loaded.

Definition with_type (query : Query) : Query :=
  mkQuery (q_Aggregate query) aggregateType (q_FromRevision query) (q_NewestFirst query)
    (if bool_decide (q_Limit query = 0) then 20 else q_Limit query) (q_Other query).

Definition check_query (query : Query) : option GoError :=
  if negb (bool_decide (q_AggregateType query = ""))
     && negb (bool_decide (TrimSpace (q_AggregateType query) = aggregateType))
  then Some (Errorf "%w: aggregate_type must be order" [ErrInvalidQuery] [])
  else
    match q_Aggregate query with
    | Some aggregate =>
        if negb (bool_decide (TrimSpace (aggregate_Type aggregate) = aggregateType))
        then Some (Errorf "%w: aggregate must have type order" [ErrInvalidQuery] [])
        else None
    | None => None
    end.

Definition Find_entries (query : Query) : GoM World (list Entry) :=
  let! _ := receiver in
  do! fail_if (check_query query);
  let query := with_type query in
  do! fail_if (if 100 <? q_Limit query then Some (Errorf "%w: limit exceeds 100" [ErrInvalidQuery] []) else None);
  let! found := call (λ calls, on_find calls query) (Find query) in
  let! entries := or_fail (λ e, Errorf "find order history: %w" [e] []) found in
  ret (default [] entries).

(** ** Previews *)

Record EntryView := mkView {
  ev_EventID : string; ev_EventType : string; ev_Revision : Revision; ev_OccurredAt : Z;
  ev_Author : string; ev_StatusBefore : Status; ev_StatusAfter : Status
}.
Record Preview := mkPreview {
  pv_Current : Order; pv_History : list EntryView; pv_RecentHistory : list EntryView
}.

Definition projectEntry (entry : Entry) : EntryView :=
  let attribute name :=
    match entry_Attributes entry with Some attributes => default "" (attributes !! name) | None => "" end in
  mkView (entry_EventID entry) (entry_EventType entry) (entry_Revision entry) (entry_OccurredAt entry)
    (entry_Author entry) (attribute "status_before") (attribute "status_after").
Definition projectEntries (entries : list Entry) : list EntryView := map projectEntry entries.

(** [if err != nil { return fmt.Errorf("...: %w", err) }] around a method. *)
Definition wrapped {A} (wrap : GoError → GoError) (m : GoM World A) : GoM World A :=
  λ c w, match m c w with (Fail e, c', w') => (Fail (wrap e), c', w') | r => r end.

Definition BuildPreview : GoM World Preview :=
  let! _ := on_part w_service set_service
              (deref_or (λ _, true) (Errorf "%w: service is required" [ErrInvalidConfig] [])) in
  do! wrapped (λ e, Errorf "create preview order: %w" [e] []) (Create (mkCreate "order-1001" "command-create-1001"));
  do! wrapped (λ e, Errorf "confirm preview order: %w" [e] [])
        (Confirm (mkTransition "order-1001" "command-confirm-1001"));
  let! current := wrapped (λ e, Errorf "ship preview order: %w" [e] [])
                    (Ship (mkTransition "order-1001" "command-ship-1001")) in
  let! history := History_of "order-1001" in
  match history with
  | None => throw (plain_error "preview history missing after commit")
  | Some history =>
      let! aggregate := or_fail (λ e, Errorf "create preview aggregate: %w" [e] [])
                          (NewAggregateID aggregateType "order-1001") in
      let! recent := Find_entries (mkQuery (Some aggregate) "" (Some (revision_of 2)) true 2 no_fields) in
      ret (mkPreview current (projectEntries (history_Entries history)) (projectEntries recent))
  end.
End Service.
