(* ===== verification/OrderHistoryProofs.v ===== *)
(** What the order history promises: the audit log explains the current state of every order, the
    lifecycle is a state machine with terminal states, and a failed command changes nothing. *)
From Stdlib Require Import Ascii String.
From S2P Require Import Prelude OrderHistory.

(** The moves of an order; [""] is the status of an order that does not exist. *)
Inductive lifecycle : Status → Status → Prop :=
  | lc_create : lifecycle "" StatusPending
  | lc_confirm : lifecycle StatusPending StatusConfirmed
  | lc_ship : lifecycle StatusConfirmed StatusShipped
  | lc_cancel_pending : lifecycle StatusPending StatusCancelled
  | lc_cancel_confirmed : lifecycle StatusConfirmed StatusCancelled.

Definition known_status (status : Status) : Prop :=
  status ∈ [StatusPending; StatusConfirmed; StatusShipped; StatusCancelled].
Definition terminal (status : Status) : Prop := status = StatusShipped ∨ status = StatusCancelled.

Lemma terminal_stuck status next : terminal status → ¬ lifecycle status next.
Proof. intros [-> | ->] H; inversion H. Qed.
Lemma lifecycle_known a b : lifecycle a b → known_status b.
Proof. unfold known_status. destruct 1; set_solver. Qed.

Section History.
Context `{AuditTypes} `{!AuditLib} `{!AuditRepository}.

(** ** The log as events *)

Record Event := mkEvent {
  e_order : string; e_command : string; e_type : string; e_before : Status; e_target : Status;
  e_revision : Revision; e_at : Z; e_reason : string
}.
Definition order_after (ev : Event) : Order :=
  mkOrder (e_order ev) (e_target ev) (e_revision ev) (e_at ev).
Definition replay (events : list Event) : gmap string Order :=
  foldl (λ m ev, <[e_order ev := order_after ev]> m) ∅ events.
Definition built (author : string) (ev : Event) (entry : Entry) : Prop :=
  newEntry author (e_order ev) (e_command ev) (e_type ev) (e_revision ev) (e_at ev) (e_before ev)
    (e_target ev) (e_reason ev) = inr entry.

(** An event the state machine allows after the events seen. *)
Record allowed (seen : list Event) (ev : Event) : Prop := {
  al_before : e_before ev = before_of (replay seen !! e_order ev);
  al_moves : lifecycle (e_before ev) (e_target ev);
  al_revision : next_revision (replay seen !! e_order ev) = inr (e_revision ev);
  al_new : e_command ev ∉ map e_command seen;
  al_ids : identifierPattern (e_order ev) = true ∧ identifierPattern (e_command ev) = true
}.
Inductive legal : list Event → Prop :=
  | legal_nil : legal []
  | legal_snoc events ev : legal events → allowed events ev → legal (events ++ [ev]).

(** The entries the repository accepted. *)
Definition accepted (c : Call) : option Entry :=
  match c with Append entry None => Some entry | _ => None end.
Definition log (w : World) : list Entry := omap accepted (w_calls w).

Definition explains (events : list Event) (s : Service) (w : World) : Prop :=
  legal events ∧ Forall2 (built (sv_author s)) events (log w) ∧
  sv_orders s = Some (replay events) ∧ sv_used s = Some (list_to_set (map e_command events)).

Lemma replay_snoc events ev : replay (events ++ [ev]) = <[e_order ev := order_after ev]> (replay events).
Proof. unfold replay. by rewrite foldl_app. Qed.

(** ** apply *)

(** How a command can go. *)
Inductive applied (orderID commandID eventType : string) (required target : Status) (reason : string)
    (w : World) : Outcome Order → World → Prop :=
  | ap_failed e w' : w_service w' = w_service w → log w' = log w →
      applied orderID commandID eventType required target reason w (Fail e) w'
  | ap_done s revision now entry w' :
      let current := orders_of s !! orderID in
      let updated := mkOrder orderID target revision now in
      w_service w = Some s → ready s = true →
      check_command (used_of s) commandID = None →
      check_transition current orderID eventType required target = None →
      next_revision current = inr revision →
      newEntry (sv_author s) orderID commandID eventType revision now (before_of current) target reason =
        inr entry →
      w_service w' = Some (put_order updated commandID s) → log w' = log w ++ [entry] →
      applied orderID commandID eventType required target reason w (Val updated) w'.

Lemma log_call sv calls c : log (mkWorld sv (calls ++ [c])) = log (mkWorld sv calls) ++ omap accepted [c].
Proof. unfold log. cbn [w_calls]. by rewrite omap_app. Qed.

Lemma receiver_run c w o c' w' :
  receiver c w = (o, c', w') →
  c' = c ∧ w' = w ∧ ((∃ s, w_service w = Some s ∧ ready s = true ∧ o = Val s) ∨ o = Fail ErrInvalidConfig).
Proof.
  unfold receiver, on_part. destruct w as [sv calls]. cbn. destruct (deref_or _ _ _ _) as [[o1 c1] s1] eqn:E.
  apply deref_or_inv in E as (-> & -> & E). intros [= <- <- <-]. naive_solver.
Qed.

Lemma apply_run orderID commandID eventType required target reason c w o c' w' :
  apply orderID commandID eventType required target reason c w = (o, c', w') →
  applied orderID commandID eventType required target reason w o w'.
Proof.
  unfold apply. intros Hr. destruct w as [sv calls].
  apply bind_inv in Hr as [(s & c1 & w1 & Hb & Hr)|[(e & -> & Hb)|[-> Hb]]];
    apply receiver_run in Hb as (-> & -> & Ho); [|by constructor|naive_solver].
  destruct Ho as [(s' & Hs & Hready & [= <-])|[=]].
  apply bind_inv in Hr as [(u & c2 & w2 & Hb & Hr)|[(e & -> & Hb)|[-> Hb]]];
    apply ctxErr_inv in Hb as [-> Ho]; [clear Ho|by constructor|naive_solver].
  apply bind_inv in Hr as [(u' & c3 & w3 & Hb & Hr)|[(e & -> & Hb)|[-> Hb]]];
    apply ctxErr_inv in Hb as [-> Ho]; [clear Ho|by constructor|naive_solver].
  unfold bind, fail_if, or_fail, call, modify, throw, ret in Hr. cbn in Hr.
  destruct (check_command _ _) eqn:Hc; [simplify_eq; by constructor|].
  destruct (check_transition _ _ _ _ _) eqn:Ht; [simplify_eq; by constructor|].
  destruct (next_revision _) as [|revision] eqn:Hn; [simplify_eq; by constructor|].
  cbn in Hr. destruct (newEntry _ _ _ _ _ _ _ _ _) as [|entry] eqn:He.
  { simplify_eq. constructor; [done|]. by rewrite log_call, app_nil_r. }
  cbn in Hr. destruct (on_append _ _) as [e|] eqn:Ha.
  { simplify_eq. constructor; [done|]. by rewrite !log_call, !app_nil_r. }
  simplify_eq. cbn in Hs. subst sv. econstructor; try done.
  unfold put_in, set_service. cbn [w_calls]. rewrite !log_call. cbn. by rewrite app_nil_r.
Qed.

(** ** Commands and reachable states *)

(** The arguments the four commands give to [apply]. *)
Inductive command_kind : string → Status → Status → Prop :=
  | ck_create : command_kind "order.created" "" StatusPending
  | ck_confirm : command_kind "order.confirmed" StatusPending StatusConfirmed
  | ck_ship : command_kind "order.shipped" StatusConfirmed StatusShipped
  | ck_cancel : command_kind "order.cancelled" "" StatusCancelled.

Lemma transition_iff eventType required target current orderID :
  command_kind eventType required target → (∀ o, current = Some o → known_status (o_Status o)) →
  check_transition current orderID eventType required target = None ↔ lifecycle (before_of current) target.
Proof.
  intros Hk Hknown. destruct current as [o|].
  2: { destruct Hk; cbn; split; [constructor|done|done|intros Hl; by inversion Hl|done|
         intros Hl; by inversion Hl|done|intros Hl; by inversion Hl]. }
  pose proof (Hknown o eq_refl) as Ho. unfold known_status in Ho.
  rewrite !elem_of_cons, elem_of_nil in Ho. unfold check_transition, before_of.
  assert (∀ (P : Prop) (e : GoError), ¬ P → Some e = None ↔ P) as No by (intros; split; [done|tauto]).
  assert (∀ P : Prop, P → (None : option GoError) = None ↔ P) as Yes by (intros; split; tauto).
  destruct Ho as [E|[E|[E|[E|[]]]]]; rewrite E; destruct Hk; cbn;
    first [apply No; intros Hl; by inversion Hl | apply Yes; constructor].
Qed.

Lemma command_check used commandID :
  check_command used commandID = None ↔ commandID ∉ used.
Proof. unfold check_command. case_bool_decide; naive_solver. Qed.

Lemma replay_known events : legal events → ∀ id o, replay events !! id = Some o →
  o_OrderID o = id ∧ known_status (o_Status o) ∧ identifierPattern id = true.
Proof.
  induction 1 as [|events ev Hl IH [? Hm ? ? [Hid _]]]; intros id o; [done|].
  rewrite replay_snoc. destruct (decide (e_order ev = id)) as [<-|Hne].
  - rewrite lookup_insert_eq. intros [= <-]. split_and!; [done|by eapply lifecycle_known|done].
  - rewrite lookup_insert_ne by done. apply IH.
Qed.

Lemma explains_step eventType required target orderID commandID reason events s w o w' :
  command_kind eventType required target →
  identifierPattern orderID = true → identifierPattern commandID = true →
  w_service w = Some s → explains events s w →
  applied orderID commandID eventType required target reason w (Val o) w' →
  ∃ ev s', w_service w' = Some s' ∧ sv_author s' = sv_author s ∧ ready s' = true ∧
    explains (events ++ [ev]) s' w' ∧ o = order_after ev ∧ e_command ev = commandID.
Proof.
  intros Hk Ho Hc Hw (Hl & Hlog & Hord & Hused) Ha.
  inversion Ha as [|s1 revision now entry w1 current updated Hs Hready Hdup Ht Hn Hentry Hw' Hlog']; subst.
  assert (s1 = s) as -> by congruence.
  assert (orders_of s = replay events) as Eo by (unfold orders_of; by rewrite Hord).
  assert (used_of s = list_to_set (map e_command events)) as Eu by (unfold used_of; by rewrite Hused).
  subst current. rewrite Eo in *. rewrite Eu in Hdup.
  exists (mkEvent orderID commandID eventType (before_of (replay events !! orderID)) target revision now reason).
  eexists. split; [exact Hw'|]. split_and!; try done.
  - unfold ready in *. cbn. rewrite !andb_true_iff in Hready. destruct Hready as [[[-> ->] _] _].
    by rewrite Hord, Hused.
  - unfold explains. split_and!.
    + apply legal_snoc; [exact Hl|]. split; cbn; try done.
      * by apply (transition_iff _ _ _ _ _ Hk (λ o E, proj1 (proj2 (replay_known _ Hl _ o E)))) in Ht.
      * apply command_check in Hdup. by rewrite elem_of_list_to_set in Hdup.
    + rewrite Hlog'. apply Forall2_app; [done|]. by repeat constructor.
    + cbn. by rewrite Hord, replay_snoc.
    + cbn. rewrite Hused. cbn. f_equal. rewrite map_app, list_to_set_app_L. set_solver.
Qed.

Inductive Op :=
  | OpCreate (c : CreateCommand) | OpConfirm (c : TransitionCommand) | OpShip (c : TransitionCommand)
  | OpCancel (c : CancelCommand) | OpHistory (orderID : string) | OpFind (query : Query).

Definition discard {A} (r : Outcome A * Ctx * World) : World := r.2.
(** A call of the service under a context, whatever it returns. *)
Definition run_op (w : World) (op : Op * Ctx) : World :=
  let '(op, ctx) := op in
  match op with
  | OpCreate c => discard (Create c ctx w)
  | OpConfirm c => discard (Confirm c ctx w)
  | OpShip c => discard (Ship c ctx w)
  | OpCancel c => discard (Cancel c ctx w)
  | OpHistory id => discard (History_of id ctx w)
  | OpFind query => discard (Find_entries query ctx w)
  end.
Definition run_ops (ops : list (Op * Ctx)) (w : World) : World := foldl run_op w ops.

(** A command is refused before [apply], or it is an [apply] with valid identifiers. *)
Inductive commanded (w : World) : Outcome Order → World → Prop :=
  | cm_refused e : commanded w (Fail e) w
  | cm_applied orderID commandID eventType required target reason o w' :
      identifierPattern orderID = true → identifierPattern commandID = true →
      command_kind eventType required target →
      applied orderID commandID eventType required target reason w o w' → commanded w o w'.

Lemma identifier_ok name value v :
  normalizeIdentifier name value = inr v → v = TrimSpace value ∧ identifierPattern v = true.
Proof. unfold normalizeIdentifier. destruct (identifierPattern _) eqn:E; cbn; intros [= <-]; done. Qed.
Lemma command_ok orderID commandID o c :
  normalizeCommand orderID commandID = inr (o, c) →
  o = TrimSpace orderID ∧ c = TrimSpace commandID ∧ identifierPattern o = true ∧ identifierPattern c = true.
Proof.
  unfold normalizeCommand. intros (o' & [-> Ho]%identifier_ok & Hr)%and_then_inr.
  apply and_then_inr in Hr as (c' & [-> Hc]%identifier_ok & [= <- <-]). done.
Qed.

(** The shape the four commands share. *)
Definition command_body (order command : string) (reason : GoError + string) eventType required target
    : GoM World Order :=
  let! _ := receiver in
  let! (orderID, commandID) := or_fail id (normalizeCommand order command) in
  let! reason := or_fail id reason in
  apply orderID commandID eventType required target reason.

Lemma command_run order command reason eventType required target c w o c' w' :
  command_kind eventType required target →
  command_body order command reason eventType required target c w = (o, c', w') → commanded w o w'.
Proof.
  intros Hk. unfold command_body. intros Hr.
  apply bind_inv in Hr as [(s & c1 & w1 & Hb & Hr)|[(e & -> & Hb)|[-> Hb]]];
    apply receiver_run in Hb as (-> & -> & Ho); [clear Ho|by constructor|naive_solver].
  apply bind_inv in Hr as [([id com] & c2 & w2 & Hb & Hr)|[(e & -> & Hb)|[-> Hb]]];
    apply or_fail_run in Hb as (-> & -> & Ho); [|by constructor|naive_solver].
  destruct Ho as [(p & [= <-] & (_ & _ & Hid & Hcom)%command_ok)|(e & [=] & _)].
  apply bind_inv in Hr as [(r & c3 & w3 & Hb & Hr)|[(e & -> & Hb)|[-> Hb]]];
    apply or_fail_run in Hb as (-> & -> & Ho); [clear Ho|by constructor|naive_solver].
  eapply cm_applied; [exact Hid|exact Hcom|exact Hk|by eapply apply_run].
Qed.

Lemma or_fail_inr {A} f (a : A) c (w : World) : or_fail f (inr a) c w = (Val a, c, w).
Proof. done. Qed.
Lemma Create_body cmd : Create cmd = command_body (cc_OrderID cmd) (cc_CommandID cmd) (inr "") "order.created" "" StatusPending.
Proof. done. Qed.
Lemma Confirm_body cmd : Confirm cmd =
  command_body (tc_OrderID cmd) (tc_CommandID cmd) (inr "") "order.confirmed" StatusPending StatusConfirmed.
Proof. done. Qed.
Lemma Ship_body cmd : Ship cmd =
  command_body (tc_OrderID cmd) (tc_CommandID cmd) (inr "") "order.shipped" StatusConfirmed StatusShipped.
Proof. done. Qed.
Lemma Cancel_body cmd : Cancel cmd =
  command_body (kc_OrderID cmd) (kc_CommandID cmd) (normalizeReason (kc_Reason cmd)) "order.cancelled" ""
    StatusCancelled.
Proof. done. Qed.

(** What one operation does to a service that its log explains: at most one event more. *)
Definition extends (events : list Event) (s : Service) (w' : World) : Prop :=
  ∃ more s', w_service w' = Some s' ∧ sv_author s' = sv_author s ∧ ready s' = ready s ∧
    explains (events ++ more) s' w'.

Lemma extends_same events s w w' :
  w_service w = Some s → explains events s w → w_service w' = w_service w → log w' = log w →
  extends events s w'.
Proof.
  intros Hs (? & Hlog & ?) Hs' Hlog'. exists [], s. rewrite app_nil_r. unfold explains.
  split_and!; try done; [congruence|by rewrite Hlog'|naive_solver..].
Qed.

Lemma commanded_extends events s w o w' :
  w_service w = Some s → explains events s w → commanded w o w' → extends events s w'.
Proof.
  intros Hs He Hc. destruct Hc as [e|orderID commandID eventType required target reason o w' Hid Hcom Hk Ha].
  { by eapply extends_same. }
  destruct o as [order|e|].
  - assert (ready s = true) as Hready.
    { inversion Ha; subst. assert (s0 = s) as -> by congruence. done. }
    destruct (explains_step _ _ _ _ _ _ _ _ _ _ _ Hk Hid Hcom Hs He Ha) as (ev & s' & ? & ? & ? & ? & _ & _).
    exists [ev], s'. split_and!; congruence || done.
  - inversion Ha as [e' w1 Hs1 Hlog1|]; subst. by eapply extends_same.
  - inversion Ha.
Qed.

Lemma history_reads orderID c w o c' w' :
  History_of orderID c w = (o, c', w') → w_service w' = w_service w ∧ log w' = log w.
Proof.
  unfold History_of. intros Hr.
  apply bind_inv in Hr as [(s & c1 & w1 & Hb & Hr)|[(e & -> & Hb)|[-> Hb]]];
    apply receiver_run in Hb as (-> & -> & Ho); [clear Ho|done|done].
  apply bind_inv in Hr as [(id & c2 & w2 & Hb & Hr)|[(e & -> & Hb)|[-> Hb]]];
    apply or_fail_run in Hb as (-> & -> & Ho); [clear Ho|done|done].
  apply bind_inv in Hr as [(aggregate & c3 & w3 & Hb & Hr)|[(e & -> & Hb)|[-> Hb]]];
    apply or_fail_run in Hb as (-> & -> & Ho); [clear Ho|done|done].
  unfold bind, call in Hr. cbn beta iota zeta in Hr. apply or_fail_run in Hr as (_ & -> & _).
  destruct w. split; [done|]. by rewrite log_call, app_nil_r.
Qed.

Lemma find_reads query c w o c' w' :
  Find_entries query c w = (o, c', w') → w_service w' = w_service w ∧ log w' = log w.
Proof.
  unfold Find_entries. intros Hr.
  apply bind_inv in Hr as [(s & c1 & w1 & Hb & Hr)|[(e & -> & Hb)|[-> Hb]]];
    apply receiver_run in Hb as (-> & -> & Ho); [clear Ho|done|done].
  apply bind_inv in Hr as [(u & c2 & w2 & Hb & Hr)|[(e & -> & Hb)|[-> Hb]]];
    apply fail_if_run in Hb as (-> & -> & Ho); [clear Ho|done|done].
  apply bind_inv in Hr as [(u' & c3 & w3 & Hb & Hr)|[(e & -> & Hb)|[-> Hb]]];
    apply fail_if_run in Hb as (-> & -> & Ho); [clear Ho|done|done].
  unfold bind, call, ret, or_fail, throw in Hr. cbn beta iota zeta in Hr.
  destruct w as [sv calls]. cbn [w_calls w_service] in *.
  destruct (on_find _ _); unfold ret in Hr; injection Hr as <- <- <-; (split; [done|]; by rewrite log_call, app_nil_r).
Qed.

Lemma run_op_extends events s w op :
  w_service w = Some s → explains events s w → extends events s (run_op w op).
Proof.
  intros Hs He. destruct op as [[c|c|c|c|id|query] ctx]; cbn [run_op]; unfold discard.
  - destruct (Create c ctx w) as [[o c'] w'] eqn:E. rewrite Create_body in E.
    eapply commanded_extends; [done|done|by eapply command_run; [constructor|]].
  - destruct (Confirm c ctx w) as [[o c'] w'] eqn:E. rewrite Confirm_body in E.
    eapply commanded_extends; [done|done|by eapply command_run; [constructor|]].
  - destruct (Ship c ctx w) as [[o c'] w'] eqn:E. rewrite Ship_body in E.
    eapply commanded_extends; [done|done|by eapply command_run; [constructor|]].
  - destruct (Cancel c ctx w) as [[o c'] w'] eqn:E. rewrite Cancel_body in E.
    eapply commanded_extends; [done|done|by eapply command_run; [constructor|]].
  - destruct (History_of id ctx w) as [[o c'] w'] eqn:E. apply history_reads in E as [].
    by eapply extends_same.
  - destruct (Find_entries query ctx w) as [[o c'] w'] eqn:E. apply find_reads in E as [].
    by eapply extends_same.
Qed.

Lemma run_ops_extends ops events s w :
  w_service w = Some s → explains events s w → extends events s (run_ops ops w).
Proof.
  revert events s w. induction ops as [|op ops IH]; intros events s w Hs He; cbn.
  { by eapply extends_same. }
  destruct (run_op_extends events s w op Hs He) as (more & s' & Hs' & Ha & Hr & He').
  destruct (IH _ _ _ Hs' He') as (more' & s'' & Hs'' & Ha' & Hr' & He'').
  exists (more ++ more'), s''. rewrite app_assoc. split_and!; congruence || done.
Qed.

(** ** What the log says of one order *)

Definition history_of (id : string) (events : list Event) : list Event :=
  filter (λ ev, e_order ev = id) events.

(** A history is a path of the state machine with consecutive revisions. *)
Fixpoint path (current : option Order) (events : list Event) : Prop :=
  match events with
  | [] => True
  | ev :: rest =>
      e_before ev = before_of current ∧ lifecycle (e_before ev) (e_target ev) ∧
      next_revision current = inr (e_revision ev) ∧ path (Some (order_after ev)) rest
  end.

Lemma path_snoc current events ev :
  let final := match last events with Some e => Some (order_after e) | None => current end in
  path current events → e_before ev = before_of final → lifecycle (e_before ev) (e_target ev) →
  next_revision final = inr (e_revision ev) → path current (events ++ [ev]).
Proof.
  cbn zeta. revert current. induction events as [|e events IH]; intros current; cbn; [done|].
  intros (? & ? & ? & Hp) Hb Hm Hn. change (match events with [] => Some e | _ :: _ => last events end)
    with (last (e :: events)) in *.
  assert (match last (e :: events) with Some e' => Some (order_after e') | None => current end =
          match last events with Some e' => Some (order_after e') | None => Some (order_after e) end) as Eq
    by (rewrite last_cons; by destruct (last events)).
  rewrite Eq in *. split_and!; try done. by apply IH.
Qed.

Lemma legal_history events id :
  legal events →
  path None (history_of id events) ∧ replay events !! id = order_after <$> last (history_of id events).
Proof.
  induction 1 as [|events ev Hl [IH1 IH2] [Hb Hm Hn _ _]]; [done|]. unfold history_of in *.
  rewrite filter_app, replay_snoc. destruct (decide (e_order ev = id)) as [<-|Hne].
  - rewrite (filter_cons_True _ ev []), filter_nil, last_snoc, lookup_insert_eq by done. split; [|done].
    apply path_snoc; [done|..]; destruct (last (filter _ _)); cbn in IH2; by rewrite IH2 in *.
  - rewrite (filter_cons_False _ ev []), filter_nil, app_nil_r, lookup_insert_ne by done. done.
Qed.

Lemma legal_commands events : legal events → NoDup (map e_command events).
Proof.
  induction 1 as [|events ev _ IH [_ _ _ Hnew _]]; [constructor|]. rewrite map_app. apply NoDup_app.
  split_and!; [done| |apply NoDup_singleton]. cbn. set_solver.
Qed.

Lemma new_service_explains options s : NewService true options = inr s → explains [] s (mkWorld (Some s) []).
Proof.
  unfold NewService. cbn. destruct (_ || _ || _); intros [= <-]. unfold explains. split_and!; try done. constructor.
Qed.

Lemma new_service_ready options s : NewService true options = inr s → ready s = true.
Proof. unfold NewService. cbn. destruct (_ || _ || _); by intros [= <-]. Qed.

Lemma current_explained events s w id :
  w_service w = Some s → ready s = true → explains events s w →
  Current id w = replay events !! TrimSpace id.
Proof. intros Hs Hr (_ & _ & Ho & _). unfold Current, orders_of. by rewrite Hs, Hr, Ho. Qed.

(** C7: after any operations on a new service, under any contexts and whatever the repository
    answers, the entries the repository accepted are those of a list of events that explains the
    state: the current order of an ID is what its last event made it, an order's events are a path of
    the state machine from nothing with consecutive revisions, and no command ID is used twice. *)
Theorem history_explains_orders options s ops :
  NewService true options = inr s →
  let w := run_ops ops (mkWorld (Some s) []) in
  ∃ events,
    Forall2 (built (sv_author s)) events (log w) ∧ NoDup (map e_command events) ∧
    ∀ id, Current id w = order_after <$> last (history_of (TrimSpace id) events) ∧
          path None (history_of (TrimSpace id) events).
Proof.
  intros Hn w. pose proof (new_service_explains _ _ Hn) as He0.
  destruct (run_ops_extends ops [] s (mkWorld (Some s) []) eq_refl He0)
    as (events & s' & Hs' & Ha & Hr & He). cbn in He. exists events.
  pose proof (new_service_ready _ _ Hn) as Hready.
  pose proof He as (Hl & Hlog & _ & _). rewrite Ha in Hlog. split_and!; [done|by apply legal_commands|].
  intros id. rewrite (current_explained events s' w id Hs') by (done || congruence).
  destruct (legal_history events (TrimSpace id) Hl) as [Hp ->]. done.
Qed.

(** a shipped or cancelled order never changes again, whatever is asked of the service. *)
Theorem terminal_orders_final options s ops more id o :
  NewService true options = inr s →
  Current id (run_ops ops (mkWorld (Some s) [])) = Some o → terminal (o_Status o) →
  Current id (run_ops (ops ++ more) (mkWorld (Some s) [])) = Some o.
Proof.
  intros Hn Hc Ht. pose proof (new_service_explains _ _ Hn) as He0.
  pose proof (new_service_ready _ _ Hn) as Hready.
  destruct (run_ops_extends ops [] s (mkWorld (Some s) []) eq_refl He0)
    as (events & s' & Hs' & _ & Hr & He). cbn in He. unfold run_ops in *. rewrite foldl_app.
  destruct (run_ops_extends more events s' _ Hs' He) as (evs & s'' & Hs'' & _ & Hr' & He').
  rewrite (current_explained _ _ _ id Hs' (eq_trans Hr Hready) He) in Hc.
  fold (run_ops more (foldl run_op (mkWorld (Some s) []) ops)).
  rewrite (current_explained _ _ _ id Hs'') by (done || congruence).
  destruct He' as (Hl & _). clear -Hc Ht Hl. induction evs as [|ev evs IH] using rev_ind.
  { by rewrite app_nil_r. }
  rewrite app_assoc in *. inversion Hl as [|events' ev' Hl' [Hb Hm _ _ _] E].
  { by destruct (events ++ evs). }
  apply app_inj_tail in E as [-> ->]. rewrite replay_snoc. destruct (decide (e_order ev = TrimSpace id)) as [E|Hne].
  - rewrite E, IH in Hb by done. cbn in Hb. rewrite Hb in Hm. by apply terminal_stuck in Hm.
  - rewrite lookup_insert_ne by done. by apply IH.
Qed.

(** ** Outcomes of commands *)

(** The documented promise of the library's validation error: it is the kind it is given. *)
Class ValidationLaw : Prop :=
  validation_law kind field value name :
    errors_Is kind name = true → errors_Is (ValidationError kind field value) name = true.

Lemma ctxErr_background {S} (s : S) : ctxErr Background s = (Val tt, Background, s).
Proof. done. Qed.

(** [apply] under a live context, step by step. *)
Lemma apply_background orderID commandID eventType required target reason s w :
  w_service w = Some s → ready s = true →
  apply orderID commandID eventType required target reason Background w =
  match check_command (used_of s) commandID with
  | Some e => (Fail e, Background, w)
  | None =>
      let current := orders_of s !! orderID in
      match check_transition current orderID eventType required target with
      | Some e => (Fail e, Background, w)
      | None =>
          bind (or_fail id (next_revision current)) (λ revision,
            let! now := call on_now Now in
            let! entry := or_fail id (newEntry (sv_author s) orderID commandID eventType revision now
                                        (before_of current) target reason) in
            let! appended := call (λ calls, on_append calls entry) (Append entry) in
            do! fail_if (match appended with
                         | Some e => Some (Errorf "append order audit entry: %w" [e] [])
                         | None => None
                         end);
            let updated := mkOrder orderID target revision now in
            do! modify (put_in updated commandID);
            ret updated) Background w
      end
  end.
Proof.
  intros Hs Hr. destruct w as [sv calls]. cbn in Hs. subst sv. unfold apply, receiver, on_part, deref_or.
  unfold bind at 1. cbn [w_service]. rewrite Hr. unfold set_service. cbn [w_calls].
  unfold bind at 1. rewrite ctxErr_background. unfold bind at 1. rewrite ctxErr_background.
  unfold bind at 1. destruct (check_command _ _) as [e|]; cbn [fail_if]; [done|]. unfold ret at 1.
  unfold bind at 1. cbn zeta. destruct (check_transition _ _ _ _ _) as [e|]; cbn [fail_if]; done.
Qed.

(** on a service its log explains, a command is refused with the error of what is wrong: a used
    command ID, an order that exists or does not, or a move the state machine has not; a command that
    fails, for whatever reason, changes neither the orders nor the log; any other command succeeds
    when the library builds its entry and the repository accepts it. *)
Theorem command_outcomes `{!ValidationLaw} eventType required target orderID commandID reason events s w o c' w' :
  command_kind eventType required target → w_service w = Some s → ready s = true → explains events s w →
  apply orderID commandID eventType required target reason Background w = (o, c', w') →
  let current := replay events !! orderID in
  let refused name := ∃ e, o = Fail e ∧ errors_Is e name = true in
  (∀ e, o = Fail e → w_service w' = w_service w ∧ log w' = log w) ∧
  (commandID ∈ map e_command events → refused "audit.ErrRevisionConflict") ∧
  (commandID ∉ map e_command events →
    (is_Some current → eventType = "order.created" → refused "orderhistory.ErrOrderExists") ∧
    (current = None → eventType ≠ "order.created" → refused "orderhistory.ErrOrderNotFound") ∧
    (is_Some current → eventType ≠ "order.created" → ¬ lifecycle (before_of current) target →
       refused "orderhistory.ErrInvalidTransition") ∧
    (∀ revision entry, lifecycle (before_of current) target → next_revision current = inr revision →
       let now := on_now (w_calls w) in
       newEntry (sv_author s) orderID commandID eventType revision now (before_of current) target reason =
         inr entry →
       on_append (w_calls w ++ [Now now]) entry = None → o = Val (mkOrder orderID target revision now))).
Proof.
  intros Hk Hs Hr He Hrun current refused. split.
  { intros e ->. apply apply_run in Hrun. by inversion Hrun. }
  pose proof He as (Hl & _ & Ho & Hu).
  rewrite (apply_background _ _ _ _ _ _ s w Hs Hr) in Hrun.
  assert (orders_of s = replay events) as Eo by (unfold orders_of; by rewrite Ho).
  assert (used_of s = list_to_set (map e_command events)) as Eu by (unfold used_of; by rewrite Hu).
  rewrite Eo, Eu in Hrun. fold current in Hrun.
  assert (∀ c, check_command (list_to_set (map e_command events)) c = None ↔ c ∉ map e_command events) as Hcc.
  { intros c. rewrite command_check. by rewrite elem_of_list_to_set. }
  assert (∀ o, current = Some o → known_status (o_Status o)) as Hknown.
  { intros x Hx. by apply (replay_known events Hl orderID). }
  pose proof (transition_iff eventType required target current orderID Hk Hknown) as Hti.
  split.
  - intros Hin. unfold check_command in Hrun. rewrite bool_decide_true in Hrun by (by apply elem_of_list_to_set).
    injection Hrun as <- _ _. eexists. split; [done|]. cbn. by rewrite validation_law.
  - intros Hnew%Hcc. rewrite Hnew in Hrun. cbn zeta in Hrun. split_and!.
    + intros [x Hx] ->. rewrite Hx in Hrun. cbn in Hrun. injection Hrun as <- _ _. eexists. by split.
    + intros Hx Hne. rewrite Hx in Hrun. unfold check_transition in Hrun.
      rewrite bool_decide_false in Hrun by done. injection Hrun as <- _ _. eexists. by split.
    + intros [x Hx] Hne Hno. destruct (check_transition _ _ _ _ _) as [e|] eqn:E; [|by exfalso; apply Hno, Hti].
      injection Hrun as <- _ _. eexists. split; [done|]. unfold check_transition in E.
      rewrite bool_decide_false, Hx in E by done. repeat case_match; by simplify_eq.
    + intros revision entry Hm Hn now He' Ha. apply Hti in Hm. rewrite Hm, Hn in Hrun.
      subst now. unfold bind, or_fail, call, ret, throw, fail_if, modify in Hrun. cbn -[newEntry before_of] in Hrun.
      rewrite He' in Hrun. cbn in Hrun. rewrite Ha in Hrun. cbn in Hrun. by injection Hrun as <- _ _.
Qed.

(** ** Progress *)

(** The text of an object whose members are strings. *)
Definition json_object (members : list (string * string)) : string :=
  ("{" ++ String.concat "," (map (λ kv, (quote_char ++ kv.1 ++ quote_char ++ ":" ++ json_string kv.2)%string) members) ++ "}")%string.
Record valid_event (number : Revision → Z) (json : string → Prop) (o : EventOptions) : Prop := {
  ve_ids : safe_identifier (eo_EventID o) = true ∧ safe_identifier (eo_IdempotencyKey o) = true;
  ve_type : safe_identifier (eo_EventType o) = true;
  ve_revision : 1 <= number (eo_Revision o);
  ve_payload : json (eo_Payload o)
}.
Definition author_ok (author : string) : Prop := author ≠ "" ∧ ValidString author = true ∧ RuneCountInString author <= 128.
(** What the library and its repository document, of what the service needs. Revisions are numbers, from 1 to a last one.
    Valid options give an entry that keeps them. The repository, which no one else appends to, takes an entry that has the
    next revision of its aggregate, and an event ID and an idempotency key that none of its entries has; what it does with
    any other entry is left open. *)
Class RepositoryContract := {
  number : Revision → Z;
  last_revision : Z;
  json : string → Prop;
  entry_Aggregate : Entry → AggregateID;
  entry_IdempotencyKey : Entry → string;
  aggregate_eq_dec :: EqDecision AggregateID;
  initial_number : number InitialRevision = 1;
  next_number r r' : Revision_Next r = inr r' → number r' = number r + 1;
  next_exists r : number r < last_revision → ∃ r', Revision_Next r = inr r';
  json_objects members : Forall (λ kv, safe_identifier kv.1 = true) members → json (json_object members);
  aggregate_made typ name : safe_identifier typ = true → safe_identifier name = true → ∃ a, NewAggregateID typ name = inr a;
  aggregate_distinct typ name name' a : NewAggregateID typ name = inr a → NewAggregateID typ name' = inr a → name = name';
  event_made o : valid_event number json o → ∃ event, NewDomainEvent o = inr event;
  change_made fields summary attributes : fields ≠ [] → summary ≠ "" → ∃ change, NewChangeMetadata fields summary attributes = inr change;
  entry_made author event change : author_ok author → ∃ entry, NewEntry (mkEntryOptions author event change) = inr entry;
  entry_kept o author event change entry :
    NewDomainEvent o = inr event → NewEntry (mkEntryOptions author event change) = inr entry →
    entry_Aggregate entry = eo_AggregateID o ∧ entry_EventID entry = eo_EventID o ∧
    entry_IdempotencyKey entry = eo_IdempotencyKey o ∧ entry_Revision entry = eo_Revision o;
  append_next calls entry :
    let entries := omap accepted calls in
    Forall (λ e, entry_EventID e ≠ entry_EventID entry ∧ entry_IdempotencyKey e ≠ entry_IdempotencyKey entry) entries →
    number (entry_Revision entry) = 1 + len (filter (λ e, entry_Aggregate e = entry_Aggregate entry) entries) →
    on_append calls entry = None
}.

Lemma payload_object before after reason :
  ∃ members, Forall (λ kv, safe_identifier kv.1 = true) members ∧ payload_of before after reason = json_object members.
Proof.
  exists ((if bool_decide (before = "") then [] else [("status_before", before)]) ++ [("status_after", after)] ++
          (if bool_decide (reason = "") then [] else [("reason", reason)])).
  unfold payload_of, json_object. repeat case_bool_decide; (split; [repeat constructor|done]).
Qed.
Lemma entry_exists `{!RepositoryContract} author orderID commandID eventType revision now before target reason :
  author_ok author → identifierPattern orderID = true → identifierPattern commandID = true → safe_identifier eventType = true →
  1 <= number revision → ∃ entry, newEntry author orderID commandID eventType revision now before target reason = inr entry.
Proof.
  intros Ha Ho Hc Ht Hr. unfold newEntry. destruct (aggregate_made aggregateType orderID) as [a ->]; [done..|]. cbn [wrapping and_then].
  destruct (payload_object before target reason) as (members & Hm & ->).
  edestruct event_made as [event ->]; [by split; [| | |apply json_objects]|]. cbn [wrapping and_then].
  edestruct (change_made ["status"]) as [change ->]; [done..|]. cbn [wrapping and_then].
  destruct (entry_made author event (Some change) Ha) as [entry ->]. by exists entry.
Qed.
Lemma built_entry `{!RepositoryContract} author ev entry :
  built author ev entry →
  NewAggregateID aggregateType (e_order ev) = inr (entry_Aggregate entry) ∧ entry_EventID entry = e_command ev ∧
  entry_IdempotencyKey entry = e_command ev ∧ entry_Revision entry = e_revision ev.
Proof.
  unfold built, newEntry, wrapping. intros (a & Ha & (event & He & (change & _ & Hj)%and_then_inr)%and_then_inr)%and_then_inr.
  destruct (NewAggregateID _ _) as [|a'] eqn:Ea; [done|]. injection Ha as ->.
  destruct (NewDomainEvent _) as [|event'] eqn:Ee; [done|]. injection He as ->.
  destruct (NewEntry _) as [|entry'] eqn:En; [done|]. injection Hj as ->.
  destruct (entry_kept _ _ _ _ _ Ee En) as (-> & -> & -> & ->). done.
Qed.
Definition events_of (id : string) (events : list Event) : list Event := filter (λ ev, e_order ev = id) events.
(** The entries of an order's aggregate are those of its events. *)
Lemma entries_counted `{!RepositoryContract} author events entries id a :
  Forall2 (built author) events entries → NewAggregateID aggregateType id = inr a →
  len (filter (λ e, entry_Aggregate e = a) entries) = len (events_of id events).
Proof.
  intros Hf Ha. unfold len, events_of. f_equal. induction Hf as [|ev entry events entries (Hb & _)%built_entry _ IH]; [done|].
  rewrite !filter_cons. destruct (decide (e_order ev = id)) as [<-|Hne].
  - rewrite decide_True by congruence. cbn [length]. by rewrite IH.
  - rewrite decide_False; [done|]. intros <-. by apply Hne, (aggregate_distinct _ _ _ _ Hb).
Qed.
(** The revision of an order counts its events. *)
Lemma events_numbered `{!RepositoryContract} events : legal events → ∀ id,
  match replay events !! id with Some o => number (o_Revision o) = len (events_of id events) | None => events_of id events = [] end.
Proof.
  induction 1 as [|events ev Hl IH [_ _ Hrev _ _]]; intros id; [done|]. unfold events_of in *. rewrite replay_snoc, filter_app, filter_cons. cbn [filter list_filter].
  destruct (decide (e_order ev = id)) as [<-|Hne].
  - rewrite lookup_insert_eq. cbn [order_after o_Revision]. unfold len. rewrite length_app. cbn [length]. specialize (IH (e_order ev)). unfold next_revision in Hrev.
    destruct (replay events !! e_order ev) as [o|].
    + unfold wrapping in Hrev. destruct (Revision_Next _) as [|r] eqn:En; [done|]. injection Hrev as <-. rewrite (next_number _ _ En), IH. unfold len. lia.
    + injection Hrev as <-. rewrite initial_number, IH. done.
  - rewrite lookup_insert_ne by done. rewrite app_nil_r. apply IH.
Qed.

Lemma command_applies order command eventType required target w s :
  w_service w = Some s → ready s = true → normalizeCommand order command = inr (order, command) →
  command_body order command (inr "") eventType required target Background w =
  apply order command eventType required target "" Background w.
Proof.
  intros Hs Hr Hn. unfold command_body. rewrite Hn. destruct w as [sv calls]. cbn in Hs. subst sv.
  unfold bind at 1, receiver at 1, on_part, deref_or. cbn [w_service]. rewrite Hr. done.
Qed.

(** A revision is left for the next event of an order. *)
Definition room `{!RepositoryContract} (current : option Order) : Prop :=
  match current with Some o => number (o_Revision o) < last_revision | None => True end.
Lemma next_room `{!RepositoryContract} current : room current → ∃ revision, next_revision current = inr revision.
Proof. destruct current as [o|]; cbn; [|by eexists]. intros (r & ->)%next_exists. by exists r. Qed.
Lemma next_appended `{!RepositoryContract} events id revision :
  legal events → next_revision (replay events !! id) = inr revision → number revision = 1 + len (events_of id events).
Proof.
  intros Hl Hn. pose proof (events_numbered events Hl id) as Hid. unfold next_revision in Hn. destruct (replay events !! id) as [o|].
  - unfold wrapping in Hn. destruct (Revision_Next _) as [|r] eqn:En; [done|]. injection Hn as <-. rewrite (next_number _ _ En). lia.
  - injection Hn as <-. by rewrite initial_number, Hid.
Qed.
Lemma appended `{!RepositoryContract} author events calls entry order command eventType revision now before target reason :
  legal events → Forall2 (built author) events (omap accepted calls) → command ∉ map e_command events →
  next_revision (replay events !! order) = inr revision →
  newEntry author order command eventType revision now before target reason = inr entry → on_append calls entry = None.
Proof.
  intros Hl Hlog Hnew Hnext Hentry.
  pose proof (built_entry author (mkEvent order command eventType before target revision now reason) entry Hentry) as (Ha & Hid & Hkey & Hrev).
  cbn in Ha, Hid, Hkey, Hrev. apply append_next.
  - apply Forall_forall. intros e Hin. rewrite Hid, Hkey. apply list_elem_of_lookup in Hin as [i Hi].
    destruct (Forall2_lookup_r _ _ _ _ _ Hlog Hi) as (ev & Hev & (_ & -> & -> & _)%built_entry).
    assert (e_command ev ∈ map e_command events) by (apply list_elem_of_fmap; exists ev; split; [done|by eapply list_elem_of_lookup_2]).
    split; congruence.
  - rewrite Hrev, (entries_counted _ _ _ _ _ Hlog Ha). by apply next_appended.
Qed.

Lemma command_succeeds `{!RepositoryContract} eventType required target order command events s w :
  command_kind eventType required target → w_service w = Some s → ready s = true → author_ok (sv_author s) → explains events s w →
  normalizeCommand order command = inr (order, command) → command ∉ map e_command events →
  lifecycle (before_of (replay events !! order)) target → room (replay events !! order) →
  ∃ ev s' w', (command_body order command (inr "") eventType required target Background w =
      (Val (order_after ev), Background, w')) ∧ e_order ev = order ∧ e_target ev = target ∧
    e_command ev = command ∧ w_service w' = Some s' ∧ ready s' = true ∧ sv_author s' = sv_author s ∧ explains (events ++ [ev]) s' w' ∧
    next_revision (replay events !! order) = inr (e_revision ev).
Proof.
  intros Hk Hs Hr Hauthor He Hn Hnew Hm Hroom. pose proof (command_ok _ _ _ _ Hn) as (_ & _ & Hid & Hcom).
  rewrite (command_applies _ _ _ _ _ _ _ Hs Hr Hn).
  destruct (apply order command eventType required target "" Background w) as [[o c'] w'] eqn:E.
  pose proof (apply_run _ _ _ _ _ _ _ _ _ _ _ E) as Ha.
  rewrite (apply_background _ _ _ _ _ _ s w Hs Hr) in E. pose proof He as (Hl & Hlog & Ho & Hu).
  unfold orders_of, used_of in E. rewrite Ho, Hu in E. cbn [default] in E.
  assert (check_command (list_to_set (map e_command events)) command = None) as Hc
    by (apply command_check; by rewrite elem_of_list_to_set).
  apply (transition_iff _ _ _ _ order Hk (λ o E, proj1 (proj2 (replay_known _ Hl _ o E)))) in Hm.
  cbn [from_option id] in E. rewrite Hc in E. cbn zeta in E. rewrite Hm in E.
  destruct (next_room _ Hroom) as [r Hnext].
  destruct (entry_exists (sv_author s) order command eventType r (on_now (w_calls w))
    (before_of (replay events !! order)) target "" Hauthor Hid Hcom) as [entry Hentry]; [by destruct Hk|rewrite (next_appended _ _ _ Hl Hnext); unfold len; lia|].
  rewrite Hnext in E. unfold bind, or_fail, call, ret, throw, fail_if, modify in E. cbn -[newEntry before_of] in E.
  rewrite Hentry in E. cbn in E. rewrite (appended (sv_author s) events _ entry order command eventType r (on_now (w_calls w))
    (before_of (replay events !! order)) target "") in E; [|done| |done..].
  2: { rewrite omap_app. cbn. by rewrite app_nil_r. }
  cbn in E. injection E as <- <- Ew.
  destruct (explains_step _ _ _ _ _ _ _ _ _ _ _ Hk Hid Hcom Hs He Ha)
    as (ev & s' & Hs' & Hauth & Hr' & He' & Ho' & Hc').
  unfold order_after in Ho'. injection Ho' as E1 E2 E3 E4.
  exists ev, s', w'. unfold order_after. rewrite <- E1, <- E2, <- E3, <- E4, Hc'. by split_and!.
Qed.

(** A confirmation confirms a pending order and leaves a confirmed one as it is. *)
Lemma confirm_reaches_confirmed `{!RepositoryContract} order c1 c2 o events s w :
  w_service w = Some s → ready s = true → author_ok (sv_author s) → explains events s w →
  normalizeCommand order c1 = inr (order, c1) → c1 ≠ c2 →
  c1 ∉ map e_command events → c2 ∉ map e_command events →
  replay events !! order = Some o → (¬ terminal (o_Status o)) → number (o_Revision o) < last_revision →
  let w' := run_op w (OpConfirm (mkTransition order c1), Background) in
  ∃ s' events' o', w_service w' = Some s' ∧ ready s' = true ∧ sv_author s' = sv_author s ∧ explains events' s' w' ∧
    (c2 ∉ map e_command events') ∧ replay events' !! order = Some o' ∧ o_Status o' = StatusConfirmed ∧
    number (o_Revision o') <= number (o_Revision o) + 1.
Proof.
  intros Hs Hr Hauthor He Hn Hne Hf1 Hf2 Hcur Hopen Hroom. cbn [run_op]. rewrite Confirm_body. cbn [tc_OrderID tc_CommandID].
  pose proof He as (Hl & _ & Hord & Hu).
  assert (o_Status o = StatusPending ∨ o_Status o = StatusConfirmed) as [Ho|Ho].
  { pose proof (replay_known events Hl order o Hcur) as (_ & Hk & _). unfold known_status, terminal in *.
    rewrite !elem_of_cons, elem_of_nil in Hk. naive_solver. }
  - destruct (command_succeeds "order.confirmed" StatusPending StatusConfirmed order c1 events s w)
      as (ev & s2 & w2 & Hrun & Hid & Ht & Hc & Hs2 & Hr2 & Ha2 & He2 & Hrev); try done; [constructor|..].
    { rewrite Hcur. cbn. rewrite Ho. constructor. }
    { by rewrite Hcur. }
    exists s2, (events ++ [ev]), (order_after ev). rewrite Hrun. split_and!; try done.
    + rewrite map_app. set_solver.
    + by rewrite replay_snoc, Hid, lookup_insert_eq.
    + rewrite Hcur in Hrev. cbn in Hrev. unfold wrapping in Hrev. destruct (Revision_Next _) as [|r] eqn:En; [done|]. injection Hrev as Hrev.
      cbn [order_after o_Revision]. rewrite <- Hrev, (next_number _ _ En). lia.
  - rewrite (command_applies _ _ _ _ _ _ s Hs Hr Hn), (apply_background _ _ _ _ _ _ s w Hs Hr).
    exists s, events, o. unfold used_of, orders_of. rewrite Hord, Hu. cbn [default from_option id].
    rewrite (proj2 (command_check _ c1)) by (by rewrite elem_of_list_to_set).
    cbn zeta. rewrite Hcur. unfold check_transition. rewrite !bool_decide_false by done.
    rewrite Ho. cbn. split_and!; try done. lia.
Qed.

Lemma new_service_author options s : NewService true options = inr s → author_ok (sv_author s).
Proof.
  unfold NewService, author_ok. cbn. destruct (_ || _ || _) eqn:Eo; [done|]. intros [= <-]. cbn.
  rewrite !orb_false_iff, bool_decide_eq_false, negb_false_iff, Z.ltb_ge in Eo. tauto.
Qed.

(** C39: over a library and a repository that do what they document, whatever was asked of the service before, every
    order that is not shipped or cancelled can still be shipped, as long as two revisions are left for it: a confirmation
    and a shipment with two fresh command IDs ship it. *)
Theorem open_orders_can_ship `{!RepositoryContract} options s ops orderID c1 c2 o :
  NewService true options = inr s →
  let w := run_ops ops (mkWorld (Some s) []) in
  normalizeCommand orderID c1 = inr (orderID, c1) → normalizeCommand orderID c2 = inr (orderID, c2) → c1 ≠ c2 →
  (∀ s', w_service w = Some s' → (c1 ∉ used_of s') ∧ (c2 ∉ used_of s')) →
  Current orderID w = Some o → (¬ terminal (o_Status o)) → number (o_Revision o) + 2 <= last_revision →
  let requests := [(OpConfirm (mkTransition orderID c1), Background); (OpShip (mkTransition orderID c2), Background)] in
  ∃ o', Current orderID (run_ops requests w) = Some o' ∧ o_Status o' = StatusShipped.
Proof.
  intros Hn w Hn1 Hn2 Hne Hfresh Hcur Hopen Hroom requests.
  pose proof (new_service_explains _ _ Hn) as He0.
  pose proof (new_service_ready _ _ Hn) as Hready. pose proof (new_service_author _ _ Hn) as Hauthor.
  destruct (run_ops_extends ops [] s (mkWorld (Some s) []) eq_refl He0)
    as (events & s1 & Hs1 & Ha1 & Hr1 & He1). cbn in He1. fold w in Hs1, He1. rewrite Hready in Hr1. rewrite <- Ha1 in Hauthor.
  destruct (Hfresh s1 Hs1) as [Hf1 Hf2]. pose proof He1 as (Hl & _ & _ & Hu).
  unfold used_of in Hf1, Hf2. rewrite Hu in Hf1, Hf2. cbn in Hf1, Hf2. rewrite elem_of_list_to_set in Hf1, Hf2.
  rewrite (current_explained events s1 w orderID Hs1 Hr1 He1) in Hcur.
  pose proof (command_ok _ _ _ _ Hn1) as (Htrim & _). rewrite <- Htrim in Hcur.
  destruct (confirm_reaches_confirmed orderID c1 c2 o events s1 w) as (s2 & evs & o2 & Hs2 & Hr2 & Ha2 & He2 & Hf2' & Ho2 & Hb2 & Hv2);
    [done..|lia|].
  set (w2 := run_op w (OpConfirm (mkTransition orderID c1), Background)) in *.
  unfold requests, run_ops. cbn [foldl]. fold w2. cbn [run_op]. rewrite Ship_body. cbn [tc_OrderID tc_CommandID].
  destruct (command_succeeds "order.shipped" StatusConfirmed StatusShipped orderID c2 evs s2 w2)
    as (ev & s3 & w3 & Hrun & Hid & Ht & Hc & Hs3 & Hr3 & _ & He3 & _); try done; [constructor|by rewrite Ha2|..].
  { rewrite Ho2. cbn. rewrite Hb2. constructor. }
  { rewrite Ho2. cbn. lia. }
  rewrite Hrun. exists (order_after ev). cbn [discard snd]. split; [|done].
  unfold discard. cbn [snd]. rewrite (current_explained _ _ _ orderID Hs3 Hr3 He3), <- Htrim.
  by rewrite replay_snoc, Hid, lookup_insert_eq.
Qed.
End History.

(** ** A concrete library *)

Record PlainEntry := mkPlain {
  pl_options : (string * string * (string * string)) * (Z * Z); pl_key : string; pl_author : string;
  pl_attributes : gmap string string
}.
Definition plain_types : AuditTypes := {|
  Revision := Z; AggregateID := string * string;
  DomainEvent := (string * string * (string * string)) * (Z * Z) * string;
  ChangeMetadata := gmap string string; Entry := PlainEntry; History := list PlainEntry; QueryFields := unit
|}.
#[local] Existing Instance plain_types.

Definition plain_lib : AuditLib := {|
  InitialRevision := 1;
  Revision_Next := λ r : Z, if r <? 2 ^ 63 - 1 then inr (r + 1) else inl (plain_error "audit: last revision");
  revision_of := λ z, z;
  ValidationError := λ kind field value, Errorf "audit: %s %q: %w" [kind] [FStr field; FStr value];
  NewAggregateID := λ type name, if bool_decide (name = "") then inl (plain_error "audit: empty id") else inr (type, name);
  aggregate_Type := λ a : string * string, a.1;
  NewDomainEvent := λ o, inr ((eo_EventID o, eo_EventType o, eo_AggregateID o), (eo_Revision o, eo_OccurredAt o), eo_IdempotencyKey o);
  NewChangeMetadata := λ _ _ attributes, inr attributes;
  NewEntry := λ o, inr (mkPlain (en_Event o).1 (en_Event o).2 (en_Author o) (default ∅ (en_Change o)));
  no_fields := tt;
  history_Entries := λ h, h;
  entry_EventID := λ e, (pl_options e).1.1.1; entry_EventType := λ e, (pl_options e).1.1.2;
  entry_Revision := λ e, (pl_options e).2.1; entry_OccurredAt := λ e, (pl_options e).2.2;
  entry_Author := pl_author; entry_Attributes := λ e, Some (pl_attributes e)
|}.
#[local] Existing Instance plain_lib.

Definition plain_log (calls : list Call) : list PlainEntry :=
  omap (λ c, match c with Append e None => Some (e : PlainEntry) | _ => None end) calls.

(** Whether an entry is the next one of its aggregate, and new. *)
Definition continues (entries : list PlainEntry) (entry : PlainEntry) : bool :=
  forallb (λ e, negb (bool_decide ((pl_options e).1.1.1 = (pl_options entry).1.1.1)) && negb (bool_decide (pl_key e = pl_key entry))) entries
  && bool_decide ((pl_options entry).2.1 = 1 + len (filter (λ e, (pl_options e).1.2 = (pl_options entry).1.2) entries)).
(** A repository in memory, and a clock that ticks with the calls. *)
Definition plain_repository : AuditRepository := {|
  on_append := λ calls entry, if continues (plain_log calls) entry then None else Some ErrRevisionConflict;
  on_load := λ calls aggregate,
    inr (match filter (λ e, (pl_options e).1.2 = aggregate) (plain_log calls) with
         | [] => None
         | entries => Some entries
         end);
  on_find := λ calls query,
    inr (Some (take (Z.to_nat (q_Limit query))
                 (filter (λ e, default 0 (q_FromRevision query) ≤ (pl_options e).2.1)
                    (if q_NewestFirst query then rev (plain_log calls) else plain_log calls))));
  on_now := len
|}.
#[local] Existing Instance plain_repository.

Definition plain_options : Options := mkOptions " auditor " true.
Definition plain_service : Service :=
  match NewService true plain_options with inr s => s | inl _ => mkService false "" false None None end.
Definition create_1 : Op * Ctx := (OpCreate (mkCreate "order-1" "c-1"), Background).
Definition cancel_1 : Op * Ctx := (OpCancel (mkCancel "order-1" "c-2" "no stock"), Background).
Definition confirm_1 : Op * Ctx := (OpConfirm (mkTransition "order-1" "c-3"), Background).

Definition no_order : Order := mkOrder (H := plain_types) "" "" 0 0.

Lemma plain_service_new : NewService true plain_options = inr plain_service.
Proof. vm_compute. reflexivity. Qed.

Lemma plain_validation : ValidationLaw.
Proof. intros kind field value name Hk. cbn. by rewrite Hk. Qed.

Lemma identifier_not_empty s : identifierPattern s = true → s ≠ "".
Proof. by destruct s. Qed.
#[local, refine] Instance plain_contract : RepositoryContract := {|
  number := (λ r, r) : Z → Z; last_revision := 2 ^ 63 - 1; json _ := True;
  entry_Aggregate := (λ e, (pl_options e).1.2) : PlainEntry → string * string; entry_IdempotencyKey := pl_key : PlainEntry → string;
  aggregate_eq_dec := _ : EqDecision (string * string)
|}.
Proof.
  - done.
  - intros r r'. cbn. destruct (r <? _); [by intros [= <-]|done].
  - intros r Hr. cbn. rewrite (proj2 (Z.ltb_lt _ _) Hr). by eexists.
  - done.
  - intros typ name _ Hn%identifier_not_empty. cbn. rewrite bool_decide_false by done. by eexists.
  - intros typ name name' a. cbn. do 2 (case_bool_decide; [done|]). by intros [= <-] [= <-].
  - intros o _. by eexists.
  - intros fields summary attributes _ _. by eexists.
  - intros author event change _. by eexists.
  - by intros o author event change entry [= <-] [= <-].
  - intros calls entry. change (omap accepted calls) with (plain_log calls). intros entries Hnew Hnext. cbn. unfold continues.
    fold entries. assert (forallb (λ e, negb (bool_decide ((pl_options e).1.1.1 = (pl_options entry).1.1.1)) && negb (bool_decide (pl_key e = pl_key entry))) entries = true) as ->.
    { apply forallb_forall. intros e He%list_elem_of_In. rewrite Forall_forall in Hnew. destruct (Hnew e He) as [H1 H2]. by rewrite !bool_decide_false. }
    cbn [andb]. rewrite bool_decide_true; [done|exact Hnext].
Defined.

(** The preview of the README: revision 3 is shipped, and the two newest entries are found. *)
Example preview_runs :
  match BuildPreview Background (mkWorld (Some plain_service) []) with
  | (Val p, _, _) =>
      (o_Status (pv_Current p), o_Revision (pv_Current p) : Z,
       map ev_StatusAfter (pv_History p), map ev_EventID (pv_RecentHistory p))
  | _ => ("", 0, [], [])
  end = ("shipped", 3, ["pending"; "confirmed"; "shipped"], ["command-ship-1001"; "command-confirm-1001"]).
Proof. vm_compute. reflexivity. Qed.

Lemma history_explains_orders_witness :
  ∃ events, length events = 2%nat ∧ NoDup (map e_command events).
Proof.
  destruct (history_explains_orders plain_options plain_service [create_1; cancel_1; confirm_1] plain_service_new)
    as (events & Hlog & Hnodup & _).
  exists events. split; [|exact Hnodup]. apply Forall2_length in Hlog. rewrite Hlog. vm_compute. reflexivity.
Defined.

Lemma terminal_orders_final_witness :
  o_Status <$> Current "order-1" (run_ops [create_1; cancel_1; confirm_1] (mkWorld (Some plain_service) [])) =
    Some StatusCancelled.
Proof.
  rewrite (terminal_orders_final plain_options plain_service [create_1; cancel_1] [confirm_1] "order-1"
    (default no_order
       (Current "order-1" (run_ops [create_1; cancel_1] (mkWorld (Some plain_service) []))))
    plain_service_new).
  - vm_compute. reflexivity.
  - vm_compute. reflexivity.
  - right. vm_compute. reflexivity.
Defined.

Definition refused_run := Confirm (mkTransition "order-1" "c-3") Background (mkWorld (Some plain_service) []).
Definition apply_1 := apply "order-1" "c-3" "order.confirmed" StatusPending StatusConfirmed "" Background
  (mkWorld (Some plain_service) []).

Lemma command_outcomes_witness :
  ∃ e, apply_1.1.1 = Fail e ∧ errors_Is e "orderhistory.ErrOrderNotFound" = true.
Proof.
  destruct apply_1 as [[o c'] w'] eqn:E. cbn [fst]. unfold apply_1 in E.
  pose proof (new_service_ready _ _ plain_service_new) as Hready.
  pose proof (new_service_explains _ _ plain_service_new) as He.
  pose proof (command_outcomes (H2 := plain_validation) "order.confirmed" StatusPending StatusConfirmed
    "order-1" "c-3" "" [] plain_service (mkWorld (Some plain_service) []) o c' w'
    ck_confirm eq_refl Hready He E) as Hall.
  apply (proj1 (proj2 (proj2 (proj2 Hall) (not_elem_of_nil "c-3")))); [reflexivity|discriminate].
Defined.

Lemma open_orders_can_ship_witness :
  ∃ o, Current "order-1"
         (run_ops [(OpConfirm (mkTransition "order-1" "c-3"), Background);
                   (OpShip (mkTransition "order-1" "c-4"), Background)]
            (run_ops [create_1] (mkWorld (Some plain_service) []))) = Some o ∧ o_Status o = StatusShipped.
Proof.
  apply (open_orders_can_ship plain_options plain_service [create_1] "order-1" "c-3"
    "c-4" (default no_order
             (Current "order-1" (run_ops [create_1] (mkWorld (Some plain_service) [])))) plain_service_new).
  - vm_compute. reflexivity.
  - vm_compute. reflexivity.
  - discriminate.
  - intros s' Hs. assert (s' = default plain_service (w_service (run_ops [create_1] (mkWorld (Some plain_service) []))))
      as -> by (rewrite Hs; reflexivity).
    split; apply (bool_decide_unpack _); vm_compute; exact I.
  - vm_compute. reflexivity.
  - intros [E|E]; vm_compute in E; discriminate E.
  - vm_compute. discriminate.
Defined.
