(* ===== verification/Moderation.v ===== *)
(** examples/gin-content-moderation-workflow/internal/moderationapi: the moderation service with its
    bounded record store and cursor search. The text library (language detector, tokenizers, blockword
    dictionary) is a parameter; its processors are immutable, so their methods are functions. *)
From Stdlib Require Import Ascii String.
From S2P Require Import Prelude GraphLib.

Definition defaultSearchLimit : Z := 20.
Definition contentIDPattern (s : string) : bool := safe_identifier s.

Definition ErrInvalidConfig : GoError :=
  Sentinel "moderationapi.ErrInvalidConfig" "moderationapi: invalid config".
Definition ErrInvalidRequest : GoError :=
  Sentinel "moderationapi.ErrInvalidRequest" "moderationapi: invalid request".
Definition ErrDuplicateContentID : GoError :=
  Sentinel "moderationapi.ErrDuplicateContentID" "moderationapi: duplicate content id".
Definition ErrRecordNotFound : GoError :=
  Sentinel "moderationapi.ErrRecordNotFound" "moderationapi: record not found".
Definition ErrStoreCapacity : GoError :=
  Sentinel "moderationapi.ErrStoreCapacity" "moderationapi: store capacity reached".
Definition ErrWorkflow : GoError := Sentinel "moderationapi.ErrWorkflow" "moderationapi: workflow failure".

Definition OutcomeAllowed : string := "allowed".
Definition OutcomeMasked : string := "masked".
Definition OutcomeManualReview : string := "manual-review".
Definition ManualReviewDisplayText : string := "[pending manual review]".
Definition ReasonTextTooShort : string := "text-too-short".
Definition ReasonLanguageUnknown : string := "language-unknown".
Definition ReasonLowConfidence : string := "low-confidence".
Definition ReasonMixedLanguage : string := "mixed-language".
Definition ReasonAmbiguousCJKScript : string := "ambiguous-cjk-script".
Definition ReasonUnsupportedLanguage : string := "unsupported-language".

Record ServiceConfig := mkServiceConfig {
  sc_MinimumConfidence : float64; sc_MinimumRunes : Z; sc_MaximumContentRunes : Z;
  sc_MaximumRecords : Z; sc_MaximumSearchResults : Z
}.
Record HTTPConfig := mkHTTPConfig { hc_MaximumBodyBytes : Z; hc_RequestTimeout : Z }.
Record AppConfig := mkAppConfig { ac_Service : ServiceConfig; ac_HTTP : HTTPConfig }.
(** 0.70 as a float64; durations are nanoseconds. *)
Definition DefaultConfig : AppConfig :=
  mkAppConfig
    (mkServiceConfig (S754_finite false 6305039478318694 (-53)) 8 8000 1000 100)
    (mkHTTPConfig (Z.shiftl 64 10) (2 * 1000000000)).

Record CreateRequest := mkCreate { cr_ContentID : string; cr_Content : string; cr_Metadata : gmap string string }.
Record SearchRequest := mkSearch {
  sr_Query : string; sr_Metadata : gmap string string; sr_Limit : Z; sr_AfterContentID : string
}.
Record Confidence := mkConfidence {
  cf_Language : string; cf_ISO6391 : string; cf_ISO6393 : string; cf_Value : float64
}.
Record Section_ := mkSection {
  se_Language : string; se_ISO6391 : string; se_ISO6393 : string; se_Start : Z; se_End : Z; se_Text : string
}.
Record Finding := mkFinding {
  fd_ID : string; fd_Text : string; fd_Start : Z; fd_End : Z; fd_Severity : string;
  fd_Metadata : gmap string string
}.
Record PreparedToken := mkToken {
  pt_Text : string; pt_Normalized : string; pt_BaseForm : string; pt_POS : string; pt_Start : Z; pt_End : Z;
  pt_Metadata : gmap string string
}.
Record ModRecord := mkRecord {
  r_ContentID : string; r_Content : string; r_DisplayText : string; r_Metadata : gmap string string;
  r_Outcome : string; r_Language : string; r_ISO6391 : string; r_ISO6393 : string; r_Confidence : float64;
  r_Confidences : list Confidence; r_Sections : list Section_; r_ScriptHints : list string;
  r_ReviewReasons : list string; r_Findings : list Finding; r_Tokens : list PreparedToken;
  r_Terms : list string; r_CreatedAt : Z
}.
Record SearchHit := mkHit {
  sh_ContentID : string; sh_Outcome : string; sh_DisplayText : string; sh_Metadata : gmap string string;
  sh_Language : string
}.
Record SearchResponse := mkResponse {
  rs_Hits : list SearchHit; rs_Truncated : bool; rs_NextAfterContentID : string
}.

(** ** The text library *)

Class TextTypes := {
  Language : Type; Language_eq :: EqDecision Language;
  Severity : Type; Severity_eq :: EqDecision Severity;
  Detector : Type; JapaneseTokenizer : Type; SimpleTokenizer : Type; BlockwordDictionary : Type;
  BlockwordRequest : Type; TokenizeRequest : Type
}.

Section LibraryData.
Context `{TextTypes}.

Record Detection := mkDetection {
  de_Language : Language; de_Detected : bool; de_ISO6391 : string; de_ISO6393 : string; de_Confidence : float64
}.
Record LangConfidence := mkLangConfidence {
  lc_Language : Language; lc_ISO6391 : string; lc_ISO6393 : string; lc_Value : float64
}.
Record LangSection := mkLangSection {
  ls_Language : Language; ls_ISO6391 : string; ls_ISO6393 : string; ls_Start : Z; ls_End : Z; ls_Text : string
}.
Record BlockwordEntry := mkEntry {
  be_ID : string; be_Text : string; be_Severity : Severity; be_Metadata : gmap string string
}.
Record BlockwordMatch := mkMatch { bm_Entry : BlockwordEntry; bm_Text : string; bm_Start : Z; bm_End : Z }.
Record BlockwordOptions := mkBlockwordOptions { bo_Mask : string; bo_MinSeverity : Severity }.
Record Token := mkTextToken {
  tk_Text : string; tk_Normalized : string; tk_POS : string; tk_Start : Z; tk_End : Z;
  tk_Metadata : gmap string string
}.
End LibraryData.

(** The library's functions, with the constant options the service passes (ignoring case, NFC, Unicode
    word boundaries, the Japanese Search mode) applied. *)
Class TextLib `{TextTypes} := {
  English : Language; Korean : Language; Japanese : Language; Chinese : Language; Unknown : Language;
  Language_String : Language → string;
  SeverityHigh : Severity; SeverityMiddle : Severity;
  NewDetector : list Language → GoError + Detector;
  NewTokenizer : GoError + JapaneseTokenizer;
  NewSimpleTokenizer : SimpleTokenizer;
  NewBlockwordDictionary : list BlockwordEntry → GoError + BlockwordDictionary;
  Detect : Detector → string → GoError + Detection;
  Confidences : Detector → string → GoError + list LangConfidence;
  DetectMultiple : Detector → string → GoError + list LangSection;
  NewBlockwordRequest : string → BlockwordOptions → GoError + BlockwordRequest;
  Process : BlockwordDictionary → BlockwordRequest → GoError + (string * list BlockwordMatch);
  NewTokenizeRequest : string → GoError + TokenizeRequest;
  Tokenize : SimpleTokenizer → TokenizeRequest → GoError + list Token;
  TokenizeJapanese : JapaneseTokenizer → TokenizeRequest → GoError + list Token;
  FilterTokens : list Token → (Token → bool) → list Token;
  IsNoun : Token → bool; IsVerb : Token → bool;
  MetadataBaseForm : string; POSWord : string; POSNumber : string;
  NormalizeNFC : string → string;
  ContainsLatin : string → bool; ContainsKorean : string → bool; ContainsJapanese : string → bool;
  ContainsChinese : string → bool
}.

Section Service.
Context `{TextTypes} `{!TextLib} `{MapRange} `{GoUnicode}.

(** The clock's reading at its n-th use. *)
Definition Clock := nat → Z.
Record serviceOptions := mkServiceOptions { so_clock : Ptr Clock }.
Definition ServiceOption : Type := serviceOptions → GoError + serviceOptions.
Definition WithClock (clock : Ptr Clock) : ServiceOption :=
  λ _, match clock with
       | None => inl (Errorf "%w: clock is nil" [ErrInvalidConfig] [])
       | Some _ => inr (mkServiceOptions clock)
       end.

Record Service := mkService {
  sv_config : ServiceConfig; sv_detector : Ptr Detector; sv_japaneseTokenizer : Ptr JapaneseTokenizer;
  sv_simpleTokenizer : Ptr SimpleTokenizer; sv_dictionary : Ptr BlockwordDictionary;
  sv_blockwordOptions : BlockwordOptions; sv_clock : Ptr Clock; sv_records : Ptr (gmap string ModRecord)
}.
(** The state of a method: its receiver, and how often the clock was read. *)
Record World := mkWorld { w_service : Ptr Service; w_ticks : nat }.
Definition set_service (s : Ptr Service) (w : World) : World := mkWorld s (w_ticks w).

Definition validateServiceConfig (config : ServiceConfig) : option GoError :=
  let confidence := sc_MinimumConfidence config in
  if IsNaN confidence || IsInf confidence || SFltb confidence f64_zero || SFltb f64_one confidence
  then Some (Errorf "%w: minimum confidence must be finite and between zero and one" [ErrInvalidConfig] [])
  else if (sc_MinimumRunes config <=? 0) || (sc_MaximumContentRunes config <=? 0) || (sc_MaximumRecords config <=? 0)
  then Some (Errorf "%w: service limits must be positive" [ErrInvalidConfig] [])
  else if sc_MaximumSearchResults config <? defaultSearchLimit
  then Some (Errorf "%w: maximum search results must be at least %d" [ErrInvalidConfig] [FInt defaultSearchLimit])
  else None.

Definition defaultBlockwordEntries : list BlockwordEntry :=
  let entry id text severity category := mkEntry id text severity {["category" := category]} in
  [entry "abuse-bad" "bad" SeverityMiddle "abuse";
   entry "abuse-bad-wolf" "bad wolf" SeverityHigh "abuse";
   entry "fraud-scam" "scam" SeverityHigh "fraud";
   entry "ko-abuse" "욕설" SeverityHigh "abuse";
   entry "ko-fraud" "무료 돈" SeverityMiddle "fraud"].

Fixpoint apply_options (options : list (Ptr ServiceOption)) (configured : serviceOptions)
    : GoError + serviceOptions :=
  match options with
  | [] => inr configured
  | None :: _ => inl (Errorf "%w: service option is nil" [ErrInvalidConfig] [])
  | Some option :: rest => try! configured := option configured in apply_options rest configured
  end.

Definition workflow_error (text : string) (e : GoError) : GoError :=
  Errorf ("%w: " ++ text ++ ": %w") [ErrWorkflow; e] [].

(** [time_Now] is the clock of the Go runtime. *)
Definition NewService (time_Now : Clock) (config : ServiceConfig) (options : list (Ptr ServiceOption))
    : GoError + Service :=
  try! _ := check (validateServiceConfig config) in
  try! configured := apply_options options (mkServiceOptions (Some time_Now)) in
  try! detector := wrapping (workflow_error "construct language detector")
                     (NewDetector [English; Korean; Japanese; Chinese]) in
  try! japaneseTokenizer := wrapping (workflow_error "construct Japanese tokenizer") NewTokenizer in
  try! dictionary := wrapping (workflow_error "construct moderation dictionary")
                       (NewBlockwordDictionary defaultBlockwordEntries) in
  inr (mkService config (Some detector) (Some japaneseTokenizer) (Some NewSimpleTokenizer) (Some dictionary)
         (mkBlockwordOptions "*" SeverityMiddle) (so_clock configured) (Some ∅)).

Definition ready (s : Service) : bool :=
  bool_decide (is_Some (sv_detector s)) && bool_decide (is_Some (sv_japaneseTokenizer s))
  && bool_decide (is_Some (sv_simpleTokenizer s)) && bool_decide (is_Some (sv_dictionary s))
  && bool_decide (is_Some (sv_clock s)) && bool_decide (is_Some (sv_records s)).
(** [if !s.ready() { return ErrInvalidConfig }], giving the receiver. *)
Definition receiver : GoM World Service :=
  on_part w_service set_service (deref_or ready ErrInvalidConfig).
(** A method of a field; a nil field would panic. *)
Definition with_field {A B} (field : Ptr A) (f : A → GoError + B) (wrap : GoError → GoError) : GoM World B :=
  match field with Some a => or_fail wrap (f a) | None => panic end.
Definition records_of (s : Service) : gmap string ModRecord := default ∅ (sv_records s).

(** ** Requests *)

Fixpoint canonical_loop (entries : list (string * string)) (result : gmap string string)
    : GoError + gmap string string :=
  match entries with
  | [] => inr result
  | (key, value) :: rest =>
      let canonicalKey := TrimSpace key in
      if bool_decide (canonicalKey = "") then inl (Errorf "%w: metadata key is blank" [ErrInvalidRequest] [])
      else if bool_decide (is_Some (result !! canonicalKey))
      then inl (Errorf "%w: metadata keys collide after trimming" [ErrInvalidRequest] [])
      else canonical_loop rest (<[canonicalKey := value]> result)
  end.
Definition canonicalMetadata (input : gmap string string) : GoError + gmap string string :=
  canonical_loop (range input) ∅.

Definition invalid (text : string) (args : list FmtArg) : GoError :=
  Errorf ("%w: " ++ text) [ErrInvalidRequest] args.

Definition check_text (config : ServiceConfig) (name text : string) : option GoError :=
  if negb (ValidString text) || bool_decide (TrimSpace text = "")
  then Some (invalid (name ++ " must be nonblank UTF-8") [])
  else if sc_MaximumContentRunes config <? RuneCountInString text
  then Some (invalid (name ++ " exceeds %d runes") [FInt (sc_MaximumContentRunes config)])
  else None.

Definition validateCreateRequest (config : ServiceConfig) (request : CreateRequest)
    : GoError + (string * gmap string string) :=
  let contentID := TrimSpace (cr_ContentID request) in
  if negb (contentIDPattern contentID) then inl (invalid "content_id is not path safe" [])
  else
    try! _ := check (check_text config "content" (cr_Content request)) in
    try! metadata := canonicalMetadata (cr_Metadata request) in
    inr (contentID, metadata).

Definition validateSearchRequest (config : ServiceConfig) (request : SearchRequest)
    : GoError + (string * gmap string string * Z * string) :=
  try! _ := check (check_text config "query" (sr_Query request)) in
  try! metadata := canonicalMetadata (sr_Metadata request) in
  let limit := if bool_decide (sr_Limit request = 0) then defaultSearchLimit else sr_Limit request in
  if (limit <? 0) || (sc_MaximumSearchResults config <? limit)
  then inl (invalid "limit must be between one and %d" [FInt (sc_MaximumSearchResults config)])
  else
    let afterContentID := TrimSpace (sr_AfterContentID request) in
    if negb (bool_decide (afterContentID = "")) && negb (contentIDPattern afterContentID)
    then inl (invalid "after_content_id is not path safe" [])
    else inr (sr_Query request, metadata, limit, afterContentID).

(** [record[key] != value]: a missing key reads as an empty value. *)
Definition metadataMatches (record filters : gmap string string) : bool :=
  forallb (λ kv, bool_decide (default "" (record !! kv.1) = kv.2)) (range filters).
Definition containsAllTerms (recordTerms queryTerms : list string) : bool :=
  let available : gset string := list_to_set recordTerms in
  forallb (λ term, bool_decide (term ∈ available)) queryTerms.

(** ** Routing *)

Definition projectConfidences (values : list LangConfidence) : list Confidence :=
  map (λ v, mkConfidence (Language_String (lc_Language v)) (lc_ISO6391 v) (lc_ISO6393 v) (lc_Value v)) values.
Definition projectSections (values : list LangSection) : list Section_ :=
  map (λ v, mkSection (Language_String (ls_Language v)) (ls_ISO6391 v) (ls_ISO6393 v) (ls_Start v) (ls_End v)
              (ls_Text v)) values.
Definition scriptHints (text : string) : list string :=
  (if ContainsLatin text then ["latin"] else []) ++ (if ContainsKorean text then ["hangul"] else []) ++
  (if ContainsJapanese text then ["kana"] else []) ++ (if ContainsChinese text then ["han"] else []).

Fixpoint multiple_languages (values : list LangSection) (seen : list Language) : bool :=
  match values with
  | [] => false
  | value :: rest =>
      if decide (ls_Language value = Unknown) then multiple_languages rest seen
      else
        let seen := if decide (ls_Language value ∈ seen) then seen else ls_Language value :: seen in
        if (1 <? length seen)%nat then true else multiple_languages rest seen
  end.
Definition hasMultipleLanguages (values : list LangSection) : bool := multiple_languages values [].

Definition when (b : bool) (reason : string) : list string := if b then [reason] else [].

Definition review_reasons (config : ServiceConfig) (content : string) (detected : Detection)
    (sections : list LangSection) : list string :=
  let lang := de_Language detected in
  let unknown := negb (de_Detected detected) || bool_decide (lang = Unknown) in
  let reasons :=
    when (RuneCountInString content <? sc_MinimumRunes config) ReasonTextTooShort ++
    when unknown ReasonLanguageUnknown ++
    when (negb unknown && SFltb (de_Confidence detected) (sc_MinimumConfidence config)) ReasonLowConfidence ++
    when (hasMultipleLanguages sections) ReasonMixedLanguage ++
    when (bool_decide (lang = Japanese) && negb (ContainsJapanese content)) ReasonAmbiguousCJKScript ++
    when (bool_decide (lang = Chinese)) ReasonUnsupportedLanguage in
  if negb (0 <? length reasons)%nat && negb (bool_decide (lang = English)) && negb (bool_decide (lang = Korean))
     && negb (bool_decide (lang = Japanese))
  then reasons ++ [ReasonUnsupportedLanguage] else reasons.

Definition routed_record (config : ServiceConfig) (contentID content : string) (metadata : gmap string string)
    (detected : Detection) (confidences : list LangConfidence) (sections : list LangSection) : ModRecord :=
  {| r_ContentID := contentID; r_Content := content; r_DisplayText := ""; r_Metadata := metadata;
     r_Outcome := OutcomeManualReview;
     r_Language := if de_Detected detected then Language_String (de_Language detected) else "unknown";
     r_ISO6391 := de_ISO6391 detected; r_ISO6393 := de_ISO6393 detected; r_Confidence := de_Confidence detected;
     r_Confidences := projectConfidences confidences; r_Sections := projectSections sections;
     r_ScriptHints := scriptHints content;
     r_ReviewReasons := review_reasons config content detected sections;
     r_Findings := []; r_Tokens := []; r_Terms := []; r_CreatedAt := 0 |}.

Definition detectAndRoute (s : Service) (contentID content : string) (metadata : gmap string string)
    : GoM World (ModRecord * Language * bool) :=
  do! ctxErr;
  let! detected := with_field (sv_detector s) (λ d, Detect d content) (workflow_error "detect language") in
  do! ctxErr;
  let! confidences := with_field (sv_detector s) (λ d, Confidences d content) (workflow_error "compute confidences") in
  do! ctxErr;
  let! sections := with_field (sv_detector s) (λ d, DetectMultiple d content) (workflow_error "detect sections") in
  let record := routed_record (sv_config s) contentID content metadata detected confidences sections in
  ret (record, de_Language detected, (0 <? length (r_ReviewReasons record))%nat).

(** ** Moderation and preparation *)

Definition severityName (value : Severity) : string :=
  if decide (value = SeverityHigh) then "high" else if decide (value = SeverityMiddle) then "middle" else "low".
Definition projectFindings (matches : list BlockwordMatch) : list Finding :=
  map (λ m, mkFinding (be_ID (bm_Entry m)) (bm_Text m) (bm_Start m) (bm_End m)
              (severityName (be_Severity (bm_Entry m))) (be_Metadata (bm_Entry m))) matches.

(** The non-empty terms, each at its first occurrence. *)
Definition add_term (terms : list string) (term : string) : list string :=
  if bool_decide (term = "") then terms else if bool_decide (term ∈ terms) then terms else terms ++ [term].

Definition simple_terms (tokens : list Token) : list string :=
  foldl (λ terms token,
      if negb (bool_decide (tk_POS token = POSWord)) && negb (bool_decide (tk_POS token = POSNumber)) then terms
      else add_term terms (ToLower (tk_Normalized token))) [] tokens.
Definition prepareSimpleTerms (tokenizer : SimpleTokenizer) (content : string) : GoError + list string :=
  try! request := NewTokenizeRequest content in
  try! tokens := Tokenize tokenizer request in
  inr (simple_terms tokens).

Definition prepared_token (token : Token) : PreparedToken :=
  mkToken (tk_Text token) (tk_Normalized token) (default "" (tk_Metadata token !! MetadataBaseForm)) (tk_POS token)
    (tk_Start token) (tk_End token) (tk_Metadata token).
Definition japaneseIndexTerm (token : PreparedToken) : string :=
  let term := pt_BaseForm token in
  let term := if bool_decide (term = "") || bool_decide (term = "*") then pt_Text token else term in
  NormalizeNFC term.
Definition prepareJapaneseTerms (tokenizer : JapaneseTokenizer) (content : string)
    : GoError + (list PreparedToken * list string) :=
  try! request := NewTokenizeRequest content in
  try! tokens := TokenizeJapanese tokenizer request in
  let selected := FilterTokens tokens (λ token, IsNoun token || IsVerb token) in
  let prepared := map prepared_token selected in
  inr (prepared, foldl (λ terms token, add_term terms (japaneseIndexTerm token)) [] prepared).

(** ** Create, Get and Search *)

(** Records are values here: [cloneRecord] copies every map and slice of a record, and no one writes to
    a stored record, so a stored record and its clones are equal. *)
Definition cloneRecord (input : ModRecord) : ModRecord := input.

Definition with_manual_review (r : ModRecord) : ModRecord :=
  {| r_ContentID := r_ContentID r; r_Content := r_Content r; r_DisplayText := ManualReviewDisplayText;
     r_Metadata := r_Metadata r; r_Outcome := r_Outcome r; r_Language := r_Language r; r_ISO6391 := r_ISO6391 r;
     r_ISO6393 := r_ISO6393 r; r_Confidence := r_Confidence r; r_Confidences := r_Confidences r;
     r_Sections := r_Sections r; r_ScriptHints := r_ScriptHints r; r_ReviewReasons := r_ReviewReasons r;
     r_Findings := r_Findings r; r_Tokens := r_Tokens r; r_Terms := r_Terms r; r_CreatedAt := r_CreatedAt r |}.
Definition with_moderation (display : string) (findings : list Finding) (tokens : list PreparedToken)
    (terms : list string) (r : ModRecord) : ModRecord :=
  {| r_ContentID := r_ContentID r; r_Content := r_Content r; r_DisplayText := display;
     r_Metadata := r_Metadata r;
     r_Outcome := if (0 <? length findings)%nat then OutcomeMasked else OutcomeAllowed;
     r_Language := r_Language r; r_ISO6391 := r_ISO6391 r; r_ISO6393 := r_ISO6393 r;
     r_Confidence := r_Confidence r; r_Confidences := r_Confidences r; r_Sections := r_Sections r;
     r_ScriptHints := r_ScriptHints r; r_ReviewReasons := r_ReviewReasons r; r_Findings := findings;
     r_Tokens := tokens; r_Terms := terms; r_CreatedAt := r_CreatedAt r |}.
Definition with_created (at_ : Z) (r : ModRecord) : ModRecord :=
  {| r_ContentID := r_ContentID r; r_Content := r_Content r; r_DisplayText := r_DisplayText r;
     r_Metadata := r_Metadata r; r_Outcome := r_Outcome r; r_Language := r_Language r; r_ISO6391 := r_ISO6391 r;
     r_ISO6393 := r_ISO6393 r; r_Confidence := r_Confidence r; r_Confidences := r_Confidences r;
     r_Sections := r_Sections r; r_ScriptHints := r_ScriptHints r; r_ReviewReasons := r_ReviewReasons r;
     r_Findings := r_Findings r; r_Tokens := r_Tokens r; r_Terms := r_Terms r; r_CreatedAt := at_ |}.

(** The part of [Create] for content that needs no manual review. *)
Definition moderate (s : Service) (content : string) (detectedLanguage : Language) (record : ModRecord)
    : GoM World ModRecord :=
  do! ctxErr;
  let! blockRequest := or_fail (workflow_error "prepare moderation request")
                         (NewBlockwordRequest content (sv_blockwordOptions s)) in
  do! ctxErr;
  let! (masked, matches) := with_field (sv_dictionary s) (λ d, Process d blockRequest) (workflow_error "moderate content") in
  do! ctxErr;
  let! (tokens, terms) :=
    if decide (detectedLanguage = Japanese)
    then with_field (sv_japaneseTokenizer s) (λ t, prepareJapaneseTerms t content) (workflow_error "prepare search terms")
    else with_field (sv_simpleTokenizer s) (λ t, try! terms := prepareSimpleTerms t content in inr ([], terms))
           (workflow_error "prepare search terms") in
  ret (with_moderation masked (projectFindings matches) tokens terms record).

Definition check_store (s : Service) (contentID : string) : option GoError :=
  if bool_decide (is_Some (records_of s !! contentID))
  then Some (Errorf "%w: %s" [ErrDuplicateContentID] [FStr contentID])
  else if sc_MaximumRecords (sv_config s) <=? Z.of_nat (size (records_of s)) then Some ErrStoreCapacity
  else None.

(** [s.clock().UTC()]. *)
Definition read_clock (s : Service) : GoM World Z :=
  λ c w, match sv_clock s with
         | Some clock => (Val (clock (w_ticks w)), c, mkWorld (w_service w) (S (w_ticks w)))
         | None => (Panic, c, w)
         end.
Definition put_record (record : ModRecord) (s : Service) : Service :=
  mkService (sv_config s) (sv_detector s) (sv_japaneseTokenizer s) (sv_simpleTokenizer s) (sv_dictionary s)
    (sv_blockwordOptions s) (sv_clock s) (insert (r_ContentID record) record <$> sv_records s).

(** The critical section of [Create], which the service's mutex makes atomic. *)
Definition commit (contentID : string) (record : ModRecord) : GoM World ModRecord :=
  let! s := on_part w_service set_service deref in
  do! ctxErr;
  do! fail_if (check_store s contentID);
  let! now := read_clock s in
  do! ctxErr;
  let stored := cloneRecord (with_created now record) in
  do! modify (λ w, set_service (put_record stored <$> w_service w) w);
  ret (cloneRecord stored).

Definition Create (request : CreateRequest) : GoM World ModRecord :=
  let! s := receiver in
  do! ctxErr;
  let! (contentID, metadata) := or_fail id (validateCreateRequest (sv_config s) request) in
  let! (record, detectedLanguage, manualReview) := detectAndRoute s contentID (cr_Content request) metadata in
  let! record := if manualReview : bool then ret (with_manual_review record)
                 else moderate s (cr_Content request) detectedLanguage record in
  do! ctxErr;
  commit contentID record.

Definition Get (contentID : string) : GoM World ModRecord :=
  let! s := receiver in
  do! ctxErr;
  let contentID := TrimSpace contentID in
  do! fail_if (if negb (contentIDPattern contentID) then Some (invalid "content_id is not path safe" []) else None);
  match records_of s !! contentID with
  | None => throw (Errorf "%w: %s" [ErrRecordNotFound] [FStr contentID])
  | Some record => ret (cloneRecord record)
  end.

Definition query_terms (s : Service) (query : string) : GoM World (list string) :=
  if ContainsJapanese query
  then with_field (sv_japaneseTokenizer s) (λ t, try! (_, terms) := prepareJapaneseTerms t query in inr terms)
         (workflow_error "prepare query terms")
  else with_field (sv_simpleTokenizer s) (λ t, prepareSimpleTerms t query) (workflow_error "prepare query terms").

(** Whether [Search] keeps a record. *)
Definition selects (terms : list string) (metadata : gmap string string) (afterContentID : string)
    (record : ModRecord) : bool :=
  negb (negb (str_ltb afterContentID (r_ContentID record))
        || (negb (bool_decide (r_Outcome record = OutcomeAllowed)) && negb (bool_decide (r_Outcome record = OutcomeMasked))))
  && negb (negb (metadataMatches (r_Metadata record) metadata) || negb (containsAllTerms (r_Terms record) terms)).
Definition hit_of (record : ModRecord) : SearchHit :=
  mkHit (r_ContentID record) (r_Outcome record) (r_DisplayText record) (r_Metadata record) (r_Language record).

Fixpoint collect_hits (terms : list string) (metadata : gmap string string) (afterContentID : string)
    (i : nat) (snapshot : list ModRecord) (hits : list SearchHit) : GoM World (list SearchHit) :=
  match snapshot with
  | [] => ret hits
  | record :: rest =>
      do! (if (i mod 32 =? 0)%nat then ctxErr else ret tt);
      collect_hits terms metadata afterContentID (S i) rest
        (if selects terms metadata afterContentID record then hits ++ [hit_of record] else hits)
  end.

Definition page_of (limit : Z) (hits : list SearchHit) : SearchResponse :=
  if limit <? len hits then
    let page := take (Z.to_nat limit) hits in
    mkResponse page true (match last page with Some hit => sh_ContentID hit | None => "" end)
  else mkResponse hits false "".

Definition Search (request : SearchRequest) : GoM World SearchResponse :=
  let! s := receiver in
  do! ctxErr;
  let! (query, metadata, limit, afterContentID) := or_fail id (validateSearchRequest (sv_config s) request) in
  let! terms := query_terms s query in
  do! fail_if (if bool_decide (terms = []) then Some (invalid "query has no searchable terms" []) else None);
  do! ctxErr;
  let snapshot := map snd (range (records_of s)) in
  (* make([]SearchHit, 0, min(limit+1, len(snapshot))) panics for a negative capacity *)
  if int_incr limit <? 0 then panic
  else
    let! hits := collect_hits terms metadata afterContentID 0 snapshot [] in
    ret (page_of limit (sort_by (key_less sh_ContentID) hits)).
End Service.
