(* ===== verification/ModerationProofs.v ===== *)
(** What the moderation service promises: stored records are well formed and within the limits, search
    pages enumerate the matching records, and created content is found again. *)
From Stdlib Require Import Ascii String.
From S2P Require Import Prelude GraphLib Moderation.

Section Moderation.
Context `{TT : TextTypes} `{TL : !TextLib} `{MR : MapRange} `{GU : GoUnicode}.

(** ** Creation *)

(** A record as [Create] builds it from a request. *)
Inductive built (s : Service) (request : CreateRequest) : ModRecord → Prop :=
  | bt_review id metadata d detected confidences sections now :
      let routed := routed_record (sv_config s) id (cr_Content request) metadata detected confidences sections in
      validateCreateRequest (sv_config s) request = inr (id, metadata) →
      sv_detector s = Some d → Detect d (cr_Content request) = inr detected →
      r_ReviewReasons routed ≠ [] →
      built s request (with_created now (with_manual_review routed))
  | bt_moderated id metadata d detected confidences sections now masked findings tokens terms :
      let routed := routed_record (sv_config s) id (cr_Content request) metadata detected confidences sections in
      validateCreateRequest (sv_config s) request = inr (id, metadata) →
      sv_detector s = Some d → Detect d (cr_Content request) = inr detected →
      r_ReviewReasons routed = [] →
      (de_Language detected = Japanese → ∃ t, sv_japaneseTokenizer s = Some t ∧
         prepareJapaneseTerms t (cr_Content request) = inr (tokens, terms)) →
      (de_Language detected ≠ Japanese → ∃ t, sv_simpleTokenizer s = Some t ∧
         prepareSimpleTerms t (cr_Content request) = inr terms) →
      built s request (with_created now (with_moderation masked findings tokens terms routed)).

(** How a creation can go. *)
Inductive created (request : CreateRequest) (w : World) : Outcome ModRecord → World → Prop :=
  | cd_failed e w' : w_service w' = w_service w → created request w (Fail e) w'
  | cd_stored s r w' :
      w_service w = Some s → ready s = true → built s request r → check_store s (r_ContentID r) = None →
      w_service w' = Some (put_record r s) → created request w (Val r) w'.

Lemma mod_receiver_run c w o c' w' :
  receiver c w = (o, c', w') →
  c' = c ∧ w' = w ∧ ((∃ s, w_service w = Some s ∧ ready s = true ∧ o = Val s) ∨ o = Fail ErrInvalidConfig).
Proof.
  unfold receiver, on_part. destruct w as [sv n]. cbn. destruct (deref_or _ _ _ _) as [[o1 c1] s1] eqn:E.
  apply deref_or_inv in E as (-> & -> & E). intros [= <- <- <-]. naive_solver.
Qed.

Lemma with_field_run {A B} (field : Ptr A) (f : A → GoError + B) wrap c w o c' w' :
  is_Some field → with_field field f wrap c w = (o, c', w') →
  c' = c ∧ w' = w ∧ ((∃ a b, field = Some a ∧ f a = inr b ∧ o = Val b) ∨ ∃ e, o = Fail e).
Proof.
  intros [a ->] Hr. apply or_fail_run in Hr as (-> & -> & [(b & -> & E)|(e & -> & _)]); naive_solver.
Qed.

(** The fields a ready service has. *)
Lemma ready_fields s :
  ready s = true ↔
  is_Some (sv_detector s) ∧ is_Some (sv_japaneseTokenizer s) ∧ is_Some (sv_simpleTokenizer s) ∧
  is_Some (sv_dictionary s) ∧ is_Some (sv_clock s) ∧ is_Some (sv_records s).
Proof. unfold ready. rewrite !andb_true_iff, !bool_decide_eq_true. naive_solver. Qed.

Lemma route_run s id content metadata c w o c' w' :
  ready s = true → detectAndRoute s id content metadata c w = (o, c', w') →
  w' = w ∧ ((∃ e, o = Fail e) ∨ ∃ d detected confidences sections,
    let routed := routed_record (sv_config s) id content metadata detected confidences sections in
    sv_detector s = Some d ∧ Detect d content = inr detected ∧
    o = Val (routed, de_Language detected, (0 <? length (r_ReviewReasons routed))%nat)).
Proof.
  intros (Hd & _)%ready_fields. unfold detectAndRoute. intros Hr.
  apply bind_inv in Hr as [(u & c1 & w1 & Hb & Hr)|[(e & -> & Hb)|[-> Hb]]];
    apply ctxErr_inv in Hb as [-> Ho]; [clear Ho|naive_solver..].
  apply bind_inv in Hr as [(det & c2 & w2 & Hb & Hr)|[(e & -> & Hb)|[-> Hb]]];
    apply with_field_run in Hb as (-> & -> & Ho); try done; [|naive_solver..].
  destruct Ho as [(d & b & Ed & Edet & [= ->])|[? [=]]].
  apply bind_inv in Hr as [(u' & c3 & w3 & Hb & Hr)|[(e & -> & Hb)|[-> Hb]]];
    apply ctxErr_inv in Hb as [-> Ho]; [clear Ho|naive_solver..].
  apply bind_inv in Hr as [(confs & c4 & w4 & Hb & Hr)|[(e & -> & Hb)|[-> Hb]]];
    apply with_field_run in Hb as (-> & -> & Ho); try done; [clear Ho|naive_solver..].
  apply bind_inv in Hr as [(u'' & c5 & w5 & Hb & Hr)|[(e & -> & Hb)|[-> Hb]]];
    apply ctxErr_inv in Hb as [-> Ho]; [clear Ho|naive_solver..].
  apply bind_inv in Hr as [(secs & c6 & w6 & Hb & Hr)|[(e & -> & Hb)|[-> Hb]]];
    apply with_field_run in Hb as (-> & -> & Ho); try done; [clear Ho|naive_solver..].
  unfold ret in Hr. injection Hr as <- <- <-. split; [done|]. right. by exists d, b, confs, secs.
Qed.

Lemma moderate_run s content lang record c w o c' w' :
  ready s = true → moderate s content lang record c w = (o, c', w') →
  w' = w ∧ ((∃ e, o = Fail e) ∨ ∃ masked findings tokens terms,
    o = Val (with_moderation masked findings tokens terms record) ∧
    (lang = Japanese → ∃ t, sv_japaneseTokenizer s = Some t ∧ prepareJapaneseTerms t content = inr (tokens, terms)) ∧
    (lang ≠ Japanese → ∃ t, sv_simpleTokenizer s = Some t ∧ prepareSimpleTerms t content = inr terms)).
Proof.
  intros (_ & Hj & Hs & Hd & _)%ready_fields. unfold moderate. intros Hr.
  apply bind_inv in Hr as [(u & c1 & w1 & Hb & Hr)|[(e & -> & Hb)|[-> Hb]]];
    apply ctxErr_inv in Hb as [-> Ho]; [clear Ho|naive_solver..].
  apply bind_inv in Hr as [(req & c2 & w2 & Hb & Hr)|[(e & -> & Hb)|[-> Hb]]];
    apply or_fail_run in Hb as (-> & -> & Ho); [clear Ho|naive_solver..].
  apply bind_inv in Hr as [(u' & c3 & w3 & Hb & Hr)|[(e & -> & Hb)|[-> Hb]]];
    apply ctxErr_inv in Hb as [-> Ho]; [clear Ho|naive_solver..].
  apply bind_inv in Hr as [([masked matches] & c4 & w4 & Hb & Hr)|[(e & -> & Hb)|[-> Hb]]];
    apply with_field_run in Hb as (-> & -> & Ho); try done; [clear Ho|naive_solver..].
  apply bind_inv in Hr as [(u'' & c5 & w5 & Hb & Hr)|[(e & -> & Hb)|[-> Hb]]];
    apply ctxErr_inv in Hb as [-> Ho]; [clear Ho|naive_solver..].
  apply bind_inv in Hr as [([tokens terms] & c6 & w6 & Hb & Hr)|[(e & -> & Hb)|[-> Hb]]];
    destruct (decide (lang = Japanese)) as [E|E]; apply with_field_run in Hb as (-> & -> & Ho); try done;
    try (by destruct Ho as [(? & ? & ? & ? & [=])|(? & [=])]); try (split; [done|by left; eexists]).
  all: unfold ret in Hr; injection Hr as <- <- <-; split; [done|]; right.
  all: destruct Ho as [(t & b & Et & Ef & [= <-])|(? & [=])].
  - exists masked, (projectFindings matches), tokens, terms. split_and!; [done|eauto|done].
  - apply and_then_inr in Ef as (terms' & Ef & [= <- <-]).
    exists masked, (projectFindings matches), [], terms'. split_and!; [done|done|eauto].
Qed.

Lemma commit_run s id record c w o c' w' :
  ready s = true → w_service w = Some s → commit id record c w = (o, c', w') →
  (∃ e, o = Fail e ∧ w_service w' = w_service w) ∨
  ∃ now, o = Val (with_created now record) ∧ check_store s id = None ∧
    w_service w' = Some (put_record (with_created now record) s).
Proof.
  intros (_ & _ & _ & _ & [clock Hclock] & _)%ready_fields Hw. destruct w as [sv n]. cbn in Hw. subst sv.
  unfold commit. intros Hr. unfold bind at 1, on_part, deref in Hr. cbn [w_service set_service w_ticks] in Hr.
  apply bind_inv in Hr as [(u & c1 & w1 & Hb & Hr)|[(e & -> & Hb)|[-> Hb]]];
    apply ctxErr_inv in Hb as [-> Ho]; [clear Ho|naive_solver..].
  apply bind_inv in Hr as [(u' & c2 & w2 & Hb & Hr)|[(e & -> & Hb)|[-> Hb]]];
    apply fail_if_run in Hb as (-> & -> & Ho); [|naive_solver..].
  destruct Ho as [(_ & Hst)|(? & [=] & _)].
  unfold bind at 1, read_clock at 1 in Hr. rewrite Hclock in Hr. cbn [w_service w_ticks set_service] in Hr.
  apply bind_inv in Hr as [(u'' & c3 & w3 & Hb & Hr)|[(e & -> & Hb)|[-> Hb]]];
    apply ctxErr_inv in Hb as [-> Ho]; [clear Ho|naive_solver..].
  unfold bind, modify, ret in Hr. cbn in Hr. injection Hr as <- <- <-. right. by eexists.
Qed.

Lemma create_run request c w o c' w' :
  Create request c w = (o, c', w') → created request w o w'.
Proof.
  unfold Create. intros Hr.
  apply bind_inv in Hr as [(s & c1 & w1 & Hb & Hr)|[(e & -> & Hb)|[-> Hb]]];
    apply mod_receiver_run in Hb as (-> & -> & Ho); [|by constructor|naive_solver].
  destruct Ho as [(s' & Hs & Hready & [= <-])|[=]].
  apply bind_inv in Hr as [(u & c2 & w2 & Hb & Hr)|[(e & -> & Hb)|[-> Hb]]];
    apply ctxErr_inv in Hb as [-> Ho]; [clear Ho|by constructor|naive_solver].
  apply bind_inv in Hr as [([id metadata] & c3 & w3 & Hb & Hr)|[(e & -> & Hb)|[-> Hb]]];
    apply or_fail_run in Hb as (-> & -> & Ho); [|by constructor|naive_solver].
  destruct Ho as [(p & [= <-] & Hv)|(e & [=] & _)].
  apply bind_inv in Hr as [([[record lang] manual] & c4 & w4 & Hb & Hr)|[(e & -> & Hb)|[-> Hb]]];
    apply route_run in Hb as (-> & Ho); try done; [|by constructor|naive_solver].
  destruct Ho as [[e [=]]|(d & detected & confs & secs & Hd & Hdet & [= -> -> ->])].
  set (routed := routed_record _ _ _ _ _ _ _) in *.
  apply bind_inv in Hr as [(r & c5 & w5 & Hb & Hr)|[(e & -> & Hb)|[-> Hb]]].
  2-3: destruct (0 <? _)%nat; [done|]; apply moderate_run in Hb as (-> & Ho); [by constructor || naive_solver|done].
  assert (w5 = w ∧ (∀ now, built s request (with_created now r)) ∧ r_ContentID r = id) as (-> & Hbuilt & Hid).
  { destruct (0 <? _)%nat eqn:E.
    - unfold ret in Hb. injection Hb as <- _ <-. split_and!; [done| |done]. intros now.
      apply (bt_review s request id metadata d detected confs secs now); try done. intros E'. change (r_ReviewReasons routed = []) in E'.
      assert ((0 <? length (r_ReviewReasons routed))%nat = true) as E2 by exact E. by rewrite E' in E2.
    - apply moderate_run in Hb as (-> & [[e [=]]|(masked & findings & tokens & terms & [= ->] & Hj & Hs')]); [|done].
      split_and!; [done| |done]. intros now.
      apply (bt_moderated s request id metadata d detected confs secs now); try done.
      assert ((0 <? length (r_ReviewReasons routed))%nat = false) as E2 by exact E.
      change (r_ReviewReasons routed = []). by destruct (r_ReviewReasons routed). }
  apply bind_inv in Hr as [(u' & c6 & w6 & Hb' & Hr)|[(e & -> & Hb')|[-> Hb']]];
    apply ctxErr_inv in Hb' as [-> Ho]; [clear Ho|by constructor|naive_solver].
  apply (commit_run s) in Hr as [(e & -> & Hw')|(now & -> & Hst & Hw')]; [by constructor| |done|done].
  apply (cd_stored request w s); try done. cbn. by rewrite Hid.
Qed.

(** ** Well-formed records and stores *)

Record well_formed (config : ServiceConfig) (r : ModRecord) : Prop := {
  wf_id : contentIDPattern (r_ContentID r) = true;
  wf_content : ValidString (r_Content r) = true ∧ TrimSpace (r_Content r) ≠ "" ∧
    RuneCountInString (r_Content r) <= sc_MaximumContentRunes config;
  wf_terms : NoDup (r_Terms r) ∧ "" ∉ r_Terms r;
  wf_outcome :
    (r_Outcome r = OutcomeManualReview ∧ r_ReviewReasons r ≠ [] ∧ r_DisplayText r = ManualReviewDisplayText ∧
     r_Findings r = [] ∧ r_Tokens r = [] ∧ r_Terms r = []) ∨
    (r_ReviewReasons r = [] ∧
     r_Outcome r = if bool_decide (r_Findings r = []) then OutcomeAllowed else OutcomeMasked)
}.

Record good (s : Service) : Prop := {
  gd_ready : ready s = true;
  gd_config : validateServiceConfig (sv_config s) = None;
  gd_records id r : records_of s !! id = Some r → r_ContentID r = id ∧ well_formed (sv_config s) r;
  gd_size : Z.of_nat (size (records_of s)) <= sc_MaximumRecords (sv_config s)
}.

Lemma add_term_ok terms term :
  NoDup terms ∧ "" ∉ terms → NoDup (add_term terms term) ∧ "" ∉ add_term terms term.
Proof.
  intros [Hn He]. unfold add_term. case_bool_decide as E1; [done|]. case_bool_decide as E2; [done|]. split.
  - apply NoDup_app. split_and!; [done| |apply NoDup_singleton]. intros x Hx Hx'. set_solver.
  - set_solver.
Qed.

Lemma fold_terms_ok {A} (f : list string → A → list string) xs :
  (∀ terms x, NoDup terms ∧ "" ∉ terms → NoDup (f terms x) ∧ "" ∉ f terms x) →
  NoDup (foldl f [] xs) ∧ "" ∉ foldl f [] xs.
Proof.
  intros Hf. assert (∀ terms, NoDup terms ∧ "" ∉ terms → NoDup (foldl f terms xs) ∧ "" ∉ foldl f terms xs) as HG.
  { induction xs as [|x xs IH]; [done|]. intros terms Ht. by apply IH, Hf. }
  apply HG. split; [constructor|set_solver].
Qed.

Lemma simple_terms_ok t content terms : prepareSimpleTerms t content = inr terms → NoDup terms ∧ "" ∉ terms.
Proof.
  unfold prepareSimpleTerms. intros (req & _ & (tokens & _ & [= <-])%and_then_inr)%and_then_inr.
  apply fold_terms_ok. intros terms x Ht. case_match; [done|]. by apply add_term_ok.
Qed.
Lemma japanese_terms_ok t content tokens terms :
  prepareJapaneseTerms t content = inr (tokens, terms) → NoDup terms ∧ "" ∉ terms.
Proof.
  unfold prepareJapaneseTerms. intros (req & _ & (toks & _ & [= <- <-])%and_then_inr)%and_then_inr.
  apply fold_terms_ok. intros terms x Ht. by apply add_term_ok.
Qed.

Lemma check_text_ok config name text :
  check_text config name text = None ↔
  ValidString text = true ∧ TrimSpace text ≠ "" ∧ RuneCountInString text <= sc_MaximumContentRunes config.
Proof.
  unfold check_text. destruct (ValidString text) eqn:E; cbn; [|naive_solver].
  case_bool_decide; [naive_solver|]. destruct (_ <? _) eqn:E2; [naive_solver lia|]. naive_solver lia.
Qed.

Lemma create_request_ok config request id metadata :
  validateCreateRequest config request = inr (id, metadata) →
  id = TrimSpace (cr_ContentID request) ∧ contentIDPattern id = true ∧
  check_text config "content" (cr_Content request) = None ∧ canonicalMetadata (cr_Metadata request) = inr metadata.
Proof.
  unfold validateCreateRequest. destruct (contentIDPattern _) eqn:E; cbn; [|done].
  intros (u & Hc%check_inr & (m & Hm & [= <- <-])%and_then_inr)%and_then_inr. done.
Qed.

Lemma built_well_formed s request r : built s request r → well_formed (sv_config s) r.
Proof.
  destruct 1 as [id metadata d detected confidences sections now routed Hv _ _ Hr
    |id metadata d detected confidences sections now masked findings tokens terms routed Hv _ _ Hr Hj Hs];
    apply create_request_ok in Hv as (_ & Hid & Hc%check_text_ok & _).
  - split; cbn; try done. + split; [constructor|set_solver]. + left. done.
  - split; cbn; try done.
    + destruct (decide (de_Language detected = Japanese)) as [E|E].
      * destruct (Hj E) as (t & _ & Ht). by eapply japanese_terms_ok.
      * destruct (Hs E) as (t & _ & Ht). by eapply simple_terms_ok.
    + right. split; [done|]. by destruct findings.
Qed.

Lemma check_store_ok s id :
  check_store s id = None ↔
  records_of s !! id = None ∧ Z.of_nat (size (records_of s)) < sc_MaximumRecords (sv_config s).
Proof.
  unfold check_store. rewrite (eq_None_not_Some (records_of s !! id)). case_bool_decide as E1; [by split; [|intros [? _]]|].
  destruct (_ <=? _) eqn:E2; split; try done; [intros [_ ?]; lia|].
  intros _. split; [done|lia].
Qed.

Lemma put_record_records s r :
  ready s = true → records_of (put_record r s) = <[r_ContentID r := r]> (records_of s).
Proof.
  rewrite ready_fields. intros (_ & _ & _ & _ & _ & [m Hm]). unfold records_of, put_record. cbn. by rewrite Hm.
Qed.

Lemma put_record_good s r request :
  good s → built s request r → check_store s (r_ContentID r) = None → good (put_record r s).
Proof.
  intros [Hready Hconf Hrec Hsize] Hb [En Hlt]%check_store_ok.
  pose proof (put_record_records s r Hready) as Er. split; [|done| |].
  - rewrite ready_fields in *. destruct Hready as (? & ? & ? & ? & ? & [m Hm]).
    split_and!; try done. cbn. rewrite Hm. by eexists.
  - intros id r'. rewrite Er, lookup_insert_Some. intros [[<- <-]|[_ Hl]].
    + split; [done|]. exact (built_well_formed _ _ _ Hb).
    + by apply Hrec.
  - rewrite Er, map_size_insert_None by done. cbn [put_record sv_config]. lia.
Qed.

(** ** Reading *)

Definition unchanged (w w' : World) : Prop := w_service w' = w_service w.
#[local] Instance unchanged_refl : Reflexive unchanged.
Proof. done. Qed.
#[local] Instance unchanged_trans : Transitive unchanged.
Proof. intros w1 w2 w3 H1 H2. unfold unchanged in *. congruence. Qed.

Lemma moves_receiver : moves unchanged receiver.
Proof. intros c w o c' w' (_ & -> & _)%mod_receiver_run. done. Qed.
Lemma moves_with_field {A B} (field : Ptr A) (f : A → GoError + B) wrap : moves unchanged (with_field field f wrap).
Proof. unfold with_field. destruct field; [by apply moves_or_fail; apply _|by apply moves_panic; apply _]. Qed.
Lemma moves_collect terms metadata after i snapshot hits :
  moves unchanged (collect_hits terms metadata after i snapshot hits).
Proof.
  revert i hits. induction snapshot as [|r snapshot IH]; intros i hits; cbn [collect_hits].
  - apply moves_ret; apply _.
  - apply moves_bind; [apply _|case_match; [apply moves_ctxErr|apply moves_ret]; apply _|intros _; apply IH].
Qed.
#[local] Hint Resolve moves_receiver moves_with_field moves_collect unchanged_refl unchanged_trans : gom.

Lemma search_reads request : moves unchanged (Search request).
Proof.
  unfold Search, query_terms. repeat (apply moves_bind; [apply _| |intros ?]);
    repeat case_match; eauto with gom typeclass_instances.
  all: repeat (apply moves_bind; [apply _| |intros ?]); repeat case_match; eauto with gom typeclass_instances.
Qed.
Lemma get_reads id : moves unchanged (Get id).
Proof.
  unfold Get. repeat (apply moves_bind; [apply _| |intros ?]);
    repeat case_match; eauto with gom typeclass_instances.
Qed.

(** ** Reachable services *)

Inductive Op := OpCreate (request : CreateRequest) | OpGet (id : string) | OpSearch (request : SearchRequest).
(** A call of the service under a context, whatever it returns. *)
Definition run_op (w : World) (op : Op * Ctx) : World :=
  match op.1 with
  | OpCreate request => (Create request op.2 w).2
  | OpGet id => (Get id op.2 w).2
  | OpSearch request => (Search request op.2 w).2
  end.
Definition run_ops (ops : list (Op * Ctx)) (w : World) : World := foldl run_op w ops.

Definition grows (s s' : Service) : Prop :=
  sv_config s' = sv_config s ∧ ∀ id r, records_of s !! id = Some r → records_of s' !! id = Some r.

Lemma create_good request c w o c' w' s :
  Create request c w = (o, c', w') → w_service w = Some s → good s →
  ∃ s', w_service w' = Some s' ∧ good s' ∧ grows s s'.
Proof.
  intros Hr%create_run Hs Hg. destruct Hr as [e w' Hw|s1 r w' Hs1 Hready Hb Hst Hw].
  - exists s. split_and!; [congruence|done|done].
  - assert (s1 = s) as -> by congruence. exists (put_record r s).
    split_and!; [done|by eapply put_record_good|]. split; [done|]. intros id r' Hl.
    apply check_store_ok in Hst as [Hst _]. rewrite put_record_records by done.
    rewrite lookup_insert_ne; [done|congruence].
Qed.

Lemma run_ops_good ops w s :
  w_service w = Some s → good s →
  ∃ s', w_service (run_ops ops w) = Some s' ∧ good s' ∧ grows s s'.
Proof.
  revert w s. induction ops as [|[op c] ops IH]; intros w s Hs Hg; cbn; [by exists s|].
  assert (∃ s1, w_service (run_op w (op, c)) = Some s1 ∧ good s1 ∧ grows s s1) as (s1 & Hs1 & Hg1 & [Hc1 Hr1]).
  { unfold run_op. cbn. destruct op as [request|id|request].
    - destruct (Create request c w) as [[o c'] w'] eqn:E. by eapply create_good.
    - destruct (Get id c w) as [[o c'] w'] eqn:E. apply get_reads in E. exists s. cbn. by rewrite E.
    - destruct (Search request c w) as [[o c'] w'] eqn:E. apply search_reads in E. exists s. cbn. by rewrite E. }
  destruct (IH _ _ Hs1 Hg1) as (s2 & Hs2 & Hg2 & [Hc2 Hr2]). exists s2.
  split_and!; [done|done|]. split; [congruence|auto].
Qed.

Definition clocked (options : list (Ptr ServiceOption)) : Prop :=
  ∀ start configured, is_Some (so_clock start) → apply_options options start = inr configured →
    is_Some (so_clock configured).

(** [WithClock] is the only option there is. *)
Definition clock_options (clocks : list (Ptr (Ptr Clock))) : list (Ptr ServiceOption) :=
  map (fmap WithClock) clocks.
Lemma clock_options_clocked clocks : clocked (clock_options clocks).
Proof.
  induction clocks as [|[[clock|]|] clocks IH]; intros start configured Hs; cbn.
  - by intros [= <-].
  - intros Hr. eapply IH; [|exact Hr]. by eexists.
  - done.
  - done.
Qed.

Lemma new_service_good time_Now config options s :
  clocked options → NewService time_Now config options = inr s →
  good s ∧ sv_config s = config ∧ records_of s = ∅.
Proof.
  intros Hclock. unfold NewService.
  intros (u & Hc%check_inr & (conf & Ho & (d & _ & (j & _ & (b & _ & [= <-])%and_then_inr)%and_then_inr)
    %and_then_inr)%and_then_inr)%and_then_inr.
  assert (0 < sc_MaximumRecords config) as Hpos.
  { unfold validateServiceConfig in Hc. repeat case_match; try done. rewrite !orb_false_iff in *. lia. }
  destruct (Hclock (mkServiceOptions (Some time_Now)) conf (mk_is_Some _ _ eq_refl) Ho) as [clock Hcl]. split; [|done].
  split; [|done|done|].
  - rewrite ready_fields. cbn. rewrite Hcl. split_and!; by eexists.
  - unfold records_of. cbn [sv_records default from_option sv_config]. unfold id. rewrite map_size_empty. lia.
Qed.

(** C34: every record a service ever stores is well formed: its ID is path safe and its key, its content
    is valid, nonblank and within the rune limit, its search terms are distinct and nonempty, and it is
    either under manual review, with reasons and nothing shown or searchable, or moderated, and then
    masked exactly when there are findings; the store never exceeds its capacity and never loses or
    changes a record. *)
Theorem stored_records_well_formed time_Now config clocks s ops more :
  NewService time_Now config (clock_options clocks) = inr s →
  ∃ s1 s2, w_service (run_ops ops (mkWorld (Some s) 0)) = Some s1 ∧
    w_service (run_ops (ops ++ more) (mkWorld (Some s) 0)) = Some s2 ∧
    (∀ id r, records_of s1 !! id = Some r → r_ContentID r = id ∧ well_formed config r) ∧
    Z.of_nat (size (records_of s1)) <= sc_MaximumRecords config ∧
    (∀ id r, records_of s1 !! id = Some r → records_of s2 !! id = Some r).
Proof.
  intros Hn. destruct (new_service_good _ _ _ _ (clock_options_clocked clocks) Hn) as (Hg & Hc & _).
  destruct (run_ops_good ops (mkWorld (Some s) 0) s eq_refl Hg) as (s1 & Hs1 & Hg1 & [Hc1 _]).
  destruct (run_ops_good more _ s1 Hs1 Hg1) as (s2 & Hs2 & _ & [_ Hr2]).
  exists s1, s2. unfold run_ops. rewrite foldl_app. split_and!; try done.
  - intros id r Hr. rewrite <- Hc, <- Hc1. by apply gd_records.
  - rewrite <- Hc, <- Hc1. by apply gd_size.
Qed.

(** ** Search *)

Definition sorted_records (s : Service) : list ModRecord :=
  sort_by (key_less r_ContentID) (map snd (map_to_list (records_of s))).
(** The reference: the selected records after a cursor, in the order of their IDs. *)
Definition matching (s : Service) (terms : list string) (metadata : gmap string string) (after : string)
    : list ModRecord :=
  filter (λ r, selects terms metadata after r = true) (sorted_records s).
Definition terms_of (s : Service) (query : string) : GoError + list string :=
  if ContainsJapanese query then
    match sv_japaneseTokenizer s with
    | Some t => try! (_, terms) := prepareJapaneseTerms t query in inr terms
    | None => inl ErrInvalidConfig
    end
  else match sv_simpleTokenizer s with Some t => prepareSimpleTerms t query | None => inl ErrInvalidConfig end.

Lemma collect_run terms metadata after i snapshot hits w :
  collect_hits terms metadata after i snapshot hits Background w =
  (Val (hits ++ map hit_of (filter (λ r, selects terms metadata after r = true) snapshot)), Background, w).
Proof.
  revert i hits. induction snapshot as [|r snapshot IH]; intros i hits; cbn [collect_hits].
  - by rewrite app_nil_r.
  - assert ((if (i mod 32 =? 0)%nat then ctxErr else ret tt) Background w = (Val tt, Background, w)) as E
      by (by destruct (_ =? _)%nat).
    unfold bind. rewrite E, IH. destruct (selects _ _ _ r) eqn:Es.
    + rewrite filter_cons_True by done. by rewrite <- app_assoc.
    + rewrite filter_cons_False by congruence. done.
Qed.

Lemma records_keys s : good s → map r_ContentID (map snd (map_to_list (records_of s))) = map fst (map_to_list (records_of s)).
Proof.
  intros Hg. rewrite map_map. apply map_ext_in. intros [id r] Hin%list_elem_of_In%elem_of_map_to_list.
  cbn. by apply (gd_records s Hg) in Hin as [? _].
Qed.

Lemma snapshot_perm s : map snd (range (records_of s)) ≡ₚ sorted_records s.
Proof. unfold sorted_records. rewrite sort_by_perm. by rewrite range_perm. Qed.

Lemma sorted_distinct s : good s → NoDup (map r_ContentID (sorted_records s)).
Proof.
  intros Hg. assert (map r_ContentID (sorted_records s) ≡ₚ map fst (map_to_list (records_of s))) as ->.
  { rewrite <- (records_keys s Hg). unfold sorted_records. by rewrite sort_by_perm. }
  apply NoDup_fst_map_to_list.
Qed.

Lemma matching_ok s terms metadata after :
  good s → StronglySorted (sort_le (key_less r_ContentID)) (matching s terms metadata after) ∧
  NoDup (map r_ContentID (matching s terms metadata after)).
Proof.
  intros Hg. unfold matching. split; [apply sorted_filter, sort_by_sorted; apply _|].
  by apply filter_fmap_nodup, sorted_distinct.
Qed.

Lemma hits_sorted s terms metadata after :
  good s →
  sort_by (key_less sh_ContentID)
    (map hit_of (filter (λ r, selects terms metadata after r = true) (map snd (range (records_of s))))) =
  map hit_of (matching s terms metadata after).
Proof.
  intros Hg. destruct (matching_ok s terms metadata after Hg) as [Hs Hnd]. apply sort_key_sorted.
  - unfold matching. by rewrite snapshot_perm.
  - eapply sorted_map, Hs. done.
  - change (NoDup (map sh_ContentID (map hit_of (matching s terms metadata after)))). by rewrite map_map.
Qed.

(** A search of a good service under a live context. *)
Lemma search_background s request query metadata limit after terms w :
  good s → w_service w = Some s →
  validateSearchRequest (sv_config s) request = inr (query, metadata, limit, after) →
  terms_of s query = inr terms → terms ≠ [] → 0 <= limit < 2 ^ 63 - 1 →
  Search request Background w =
    (Val (page_of limit (map hit_of (matching s terms metadata after))), Background, w).
Proof.
  intros Hg Hs Hv Ht Hne Hlimit. destruct w as [sv n]. cbn in Hs. subst sv.
  pose proof (gd_ready s Hg) as Hready. unfold Search, receiver, on_part, deref_or.
  unfold bind at 1. cbn [w_service]. rewrite Hready. unfold set_service. cbn [w_ticks].
  unfold bind at 1. change (ctxErr Background ?x) with (@Val unit tt, Background, x).
  unfold bind at 1. rewrite Hv. cbn [or_fail]. unfold ret at 1.
  assert (∀ w', query_terms s query Background w' = (Val terms, Background, w')) as Hq.
  { intros w'. unfold query_terms, terms_of, with_field in *.
    destruct (ContainsJapanese query); [destruct (sv_japaneseTokenizer s)|destruct (sv_simpleTokenizer s)];
      try done; by rewrite Ht. }
  unfold bind at 1. rewrite Hq. rewrite bool_decide_false by done. cbn [fail_if]. unfold bind at 1, ret at 1.
  unfold bind at 1. change (ctxErr Background ?x) with (@Val unit tt, Background, x).
  assert ((int_incr limit <? 0) = false) as ->.
  { unfold int_incr, int_add. rewrite wrap64_id by (unfold in_int64, int_bits; lia). lia. }
  unfold bind. rewrite collect_run. unfold ret. cbn [app]. by rewrite hits_sorted.
Qed.

(** Following the cursor of every truncated page. *)
Definition at_cursor (request : SearchRequest) (after : string) : SearchRequest :=
  mkSearch (sr_Query request) (sr_Metadata request) (sr_Limit request) after.
Fixpoint crawl (pages : nat) (request : SearchRequest) (after : string) (w : World) : option (list SearchHit) :=
  match pages with
  | O => None
  | S pages' =>
      match Search (at_cursor request after) Background w with
      | (Val page, _, w') =>
          if rs_Truncated page then app (rs_Hits page) <$> crawl pages' request (rs_NextAfterContentID page) w'
          else Some (rs_Hits page)
      | _ => None
      end
  end.

Lemma search_request_ok config request query metadata limit after :
  validateSearchRequest config request = inr (query, metadata, limit, after) →
  validateServiceConfig config = None →
  query = sr_Query request ∧ after = TrimSpace (sr_AfterContentID request) ∧ 0 < limit <= sc_MaximumSearchResults config ∧
  ∀ cursor, contentIDPattern cursor = true →
    validateSearchRequest config (at_cursor request cursor) = inr (query, metadata, limit, cursor).
Proof.
  unfold validateSearchRequest. intros Hr Hc.
  assert (defaultSearchLimit <= sc_MaximumSearchResults config) as Hmax.
  { unfold validateServiceConfig in Hc. repeat case_match; try done; lia. }
  destruct (check _) as [|u] eqn:E1; [done|]. cbn [and_then] in Hr.
  destruct (canonicalMetadata _) as [|m] eqn:E2; [done|]. cbn [and_then] in Hr.
  set (l := if bool_decide _ then _ else _) in *. destruct (_ || _) eqn:E3; [done|].
  destruct (negb _ && negb _) eqn:E4; [done|]. injection Hr as <- <- <- <-.
  apply orb_false_iff in E3 as [E3 E3']. split_and!; [done|done| |by apply Z.ltb_ge in E3'|].
  - clear E1 E2 E4. apply Z.ltb_ge in E3. subst l. unfold defaultSearchLimit in *. case_bool_decide; lia.
  - intros cursor Hcur. cbn [sr_Query sr_Metadata sr_Limit sr_AfterContentID at_cursor].
    rewrite E1, E2. cbn [and_then]. fold l. rewrite E3, E3'. cbn [orb].
    rewrite trim_safe by done. rewrite Hcur. by rewrite andb_false_r.
Qed.

Lemma matching_in s terms metadata after r :
  r ∈ matching s terms metadata after → r ∈ sorted_records s ∧ selects terms metadata after r = true.
Proof. unfold matching. by intros [? ?]%list_elem_of_filter. Qed.
Lemma sorted_in s r : good s → r ∈ sorted_records s ↔ records_of s !! r_ContentID r = Some r.
Proof.
  intros Hg. unfold sorted_records. rewrite elem_of_sort_by, list_elem_of_fmap. split.
  - intros ([id r'] & -> & Hin%elem_of_map_to_list). cbn. by destruct (gd_records s Hg _ _ Hin) as [-> _].
  - intros Hl. exists (r_ContentID r, r). split; [done|]. by apply elem_of_map_to_list.
Qed.

(** The records after the last one of a page are those behind it. *)
Lemma matching_after s terms metadata after xs x ys :
  good s → matching s terms metadata after = xs ++ x :: ys →
  matching s terms metadata (r_ContentID x) = ys.
Proof.
  intros Hg Hm. destruct (matching_ok s terms metadata after Hg) as [Hs Hnd]. rewrite Hm in Hs, Hnd.
  rewrite <- (filter_after r_ContentID xs x ys Hs Hnd), <- Hm. unfold matching. rewrite list_filter_filter.
  apply list_filter_iff. intros r.
  assert (str_ltb after (r_ContentID x) = true) as Hx.
  { assert (x ∈ matching s terms metadata after) as [_ Hsel]%matching_in by (rewrite Hm; set_solver).
    unfold selects in Hsel. by destruct (str_ltb after (r_ContentID x)). }
  unfold selects. destruct (str_ltb (r_ContentID x) (r_ContentID r)) eqn:E; cbn.
  - rewrite (str_ltb_trans _ _ _ Hx E). cbn. tauto.
  - by split; [|intros [? ?]].
Qed.

Lemma page_hits limit (l : list ModRecord) :
  0 < limit →
  (len l <= limit → page_of limit (map hit_of l) = mkResponse (map hit_of l) false "") ∧
  (limit < len l → ∃ xs x ys, l = xs ++ x :: ys ∧
     page_of limit (map hit_of l) = mkResponse (map hit_of (xs ++ [x])) true (r_ContentID x)).
Proof.
  intros Hl. unfold page_of, len. rewrite length_map. split.
  - intros Hle. by rewrite (proj2 (Z.ltb_ge _ _) Hle).
  - intros Hlt. rewrite (proj2 (Z.ltb_lt _ _) Hlt).
    destruct (last (take (Z.to_nat limit) l)) as [x|] eqn:Ex.
    2: { apply last_None in Ex. apply (f_equal length) in Ex. rewrite length_take in Ex. cbn in Ex. lia. }
    apply last_Some in Ex as [xs Exs]. exists xs, x, (drop (Z.to_nat limit) l).
    split; [by rewrite <- (take_drop (Z.to_nat limit) l) at 1; rewrite Exs, <- app_assoc|].
    rewrite firstn_map, Exs, map_app. cbn [map]. by rewrite last_snoc.
Qed.




Lemma crawl_enumerates s request query metadata limit terms w :
  good s → w_service w = Some s → sr_AfterContentID request = "" →
  validateSearchRequest (sv_config s) request = inr (query, metadata, limit, "") →
  terms_of s query = inr terms → terms ≠ [] → limit < 2 ^ 63 - 1 →
  ∀ n after, after = "" ∨ contentIDPattern after = true → (length (matching s terms metadata after) < n)%nat →
    crawl n request after w = Some (map hit_of (matching s terms metadata after)).
Proof.
  intros Hg Hs Ha Hv Ht Hne Hlimit. pose proof (gd_config s Hg) as Hconf.
  destruct (search_request_ok _ _ _ _ _ _ Hv Hconf) as (_ & _ & Hpos & Hcursor).
  assert (at_cursor request "" = request) as Hnone by (unfold at_cursor; rewrite <- Ha; by destruct request).
  induction n as [|n IH]; intros after Hafter Hn; [lia|]. cbn [crawl].
  rewrite (search_background s _ query metadata limit after terms w); try done; [| |lia].
  2: { destruct Hafter as [->|Hc]; [by rewrite Hnone|by apply Hcursor]. }
  destruct (page_hits limit (matching s terms metadata after)) as [Hlast Hmore]; [lia|].
  destruct (decide (len (matching s terms metadata after) <= limit)) as [Hle|Hgt]; [by rewrite (Hlast Hle)|].
  destruct (Hmore ltac:(lia)) as (xs & x & ys & Em & ->). cbn [rs_Truncated rs_Hits rs_NextAfterContentID].
  pose proof (matching_after s terms metadata after xs x ys Hg Em) as Hys.
  rewrite IH, Hys, Em; [cbn; by rewrite <- map_app, <- app_assoc| |].
  - right. assert (x ∈ matching s terms metadata after) as [Hin _]%matching_in by (rewrite Em; set_solver).
    apply (sorted_in s x Hg), (gd_records s Hg) in Hin as [_ Hwf]. apply Hwf.
  - rewrite Hys. rewrite Em, length_app in Hn. cbn in Hn. lia.
Qed.


(** *** What a search asks for *)




(** ** Finding what was created *)

Lemma no_review config content detected sections :
  review_reasons config content detected sections = [] →
  (de_Language detected = Japanese → ContainsJapanese content = true) ∧
  de_Detected detected = true ∧ de_Language detected ≠ Unknown ∧ de_Language detected ≠ Chinese ∧
  sc_MinimumRunes config <= RuneCountInString content ∧ hasMultipleLanguages sections = false ∧
  SFltb (de_Confidence detected) (sc_MinimumConfidence config) = false.
Proof.
  unfold review_reasons. set (reasons := _ ++ _). intros Hr.
  assert (reasons = []) as E by (case_match; [by apply app_eq_nil in Hr as [_ ?]|done]). clear Hr.
  assert (∀ b reason, when b reason = [] → b = false) as Hw by (by intros []).
  subst reasons. apply app_eq_nil in E as [E1%Hw E]. apply app_eq_nil in E as [E2%Hw E].
  apply app_eq_nil in E as [E3%Hw E]. apply app_eq_nil in E as [E4%Hw E]. apply app_eq_nil in E as [E5%Hw E6%Hw].
  rewrite E2 in E3. cbn in E3. apply orb_false_iff in E2 as [Ed%negb_false_iff Eu%bool_decide_eq_false].
  apply bool_decide_eq_false in E6. apply Z.ltb_ge in E1. split_and!; try done.
  intros Hj. rewrite bool_decide_true in E5 by done. by apply negb_false_iff in E5.
Qed.

Lemma self_matching md : metadataMatches md md = true.
Proof.
  unfold metadataMatches. apply forallb_forall. intros [k v] Hin%list_elem_of_In. cbn.
  rewrite range_perm in Hin. apply elem_of_map_to_list in Hin. rewrite Hin. by apply bool_decide_true.
Qed.
Lemma self_terms terms : containsAllTerms terms terms = true.
Proof.
  unfold containsAllTerms. apply forallb_forall. intros t Hin%list_elem_of_In.
  apply bool_decide_true. by apply elem_of_list_to_set.
Qed.

Lemma well_formed_selected config r after md :
  well_formed config r → r_Outcome r ≠ OutcomeManualReview → str_ltb after (r_ContentID r) = true →
  metadataMatches (r_Metadata r) md = true → selects (r_Terms r) md after r = true.
Proof.
  intros Hwf Ho Ha Hm. unfold selects. rewrite Ha, Hm, self_terms.
  destruct (wf_outcome _ _ Hwf) as [[E _]|[_ E]]; [done|]. rewrite E.
  by case_bool_decide.
Qed.

Lemma empty_before id : contentIDPattern id = true → str_ltb "" id = true.
Proof. by destruct id. Qed.

(** The search for a record's own content, with its metadata. *)
Definition own_search (request : CreateRequest) : SearchRequest :=
  mkSearch (cr_Content request) (cr_Metadata request) 0 "".

Lemma own_search_valid config request id metadata :
  validateServiceConfig config = None → validateCreateRequest config request = inr (id, metadata) →
  validateSearchRequest config (own_search request) = inr (cr_Content request, metadata, defaultSearchLimit, "").
Proof.
  intros Hc (_ & _ & Ht%check_text_ok & Hm)%create_request_ok.
  assert (defaultSearchLimit <= sc_MaximumSearchResults config) as Hmax.
  { unfold validateServiceConfig in Hc. repeat case_match; try done; lia. }
  unfold validateSearchRequest, own_search. cbn [sr_Query sr_Metadata sr_Limit sr_AfterContentID].
  rewrite (proj2 (check_text_ok config "query" (cr_Content request)) Ht), Hm. cbn [check and_then].
  rewrite (bool_decide_true (0 = 0)) by done. rewrite (proj2 (Z.ltb_ge _ _) Hmax). done.
Qed.

Lemma own_terms s request r :
  good s → built s request r → r_Outcome r ≠ OutcomeManualReview →
  (∀ d detected, sv_detector s = Some d → Detect d (cr_Content request) = inr detected →
     de_Language detected = Japanese ∨ ContainsJapanese (cr_Content request) = false) →
  terms_of s (cr_Content request) = inr (r_Terms r).
Proof.
  intros Hg Hb Ho Hlang.
  destruct Hb as [|id metadata d detected confs secs now masked findings tokens terms routed Hv Hd Hdet Hrev Hj Hs];
    [done|]. cbn [with_created with_moderation r_Terms].
  assert (de_Language detected = Japanese → ContainsJapanese (cr_Content request) = true) as Hkana
    by (by apply (no_review (sv_config s) (cr_Content request) detected secs)).
  unfold terms_of. destruct (decide (de_Language detected = Japanese)) as [E|E].
  - rewrite (Hkana E). destruct (Hj E) as (t & -> & ->). done.
  - destruct (Hlang d detected Hd Hdet) as [?| ->]; [done|]. by destruct (Hs E) as (t & -> & ->).
Qed.

(** content that was created is found again. [Get] returns the record, and paging through a search
    for the content itself, with its metadata, finds it when it was moderated and has terms, provided the
    tokenizers of creation and search agree: the content was detected as Japanese or holds no kana. *)
Theorem created_content_found s request w r c' w' :
  good s → w_service w = Some s → Create request Background w = (Val r, c', w') →
  Get (cr_ContentID request) Background w' = (Val r, Background, w') ∧
  (r_Outcome r ≠ OutcomeManualReview → r_Terms r ≠ [] →
   (∀ d detected, sv_detector s = Some d → Detect d (cr_Content request) = inr detected →
      de_Language detected = Japanese ∨ ContainsJapanese (cr_Content request) = false) →
   ∃ pages hits, crawl pages (own_search request) "" w' = Some hits ∧ hit_of r ∈ hits).
Proof.
  intros Hg Hs Hr%create_run. inversion Hr as [|s1 r1 w1 Hs1 Hready Hb Hst Hw']; subst.
  assert (s1 = s) as -> by congruence. pose proof (put_record_good s r request Hg Hb Hst) as Hg'.
  pose proof (put_record_records s r Hready) as Er.
  assert (records_of (put_record r s) !! r_ContentID r = Some r) as Hl by (by rewrite Er, lookup_insert_eq).
  assert (∃ id metadata, validateCreateRequest (sv_config s) request = inr (id, metadata) ∧
    r_ContentID r = id ∧ r_Metadata r = metadata) as (id & metadata & Hv & Hid & Hmeta)
    by (destruct Hb; by do 2 eexists).
  pose proof (create_request_ok _ _ _ _ Hv) as (Htrim & Hpat & _). split.
  - destruct w' as [sv n]. cbn in Hw'. subst sv. unfold Get, receiver, on_part, deref_or.
    unfold bind at 1. cbn [w_service]. rewrite (gd_ready _ Hg'). unfold set_service. cbn [w_ticks].
    unfold bind at 1. change (ctxErr Background ?x) with (@Val unit tt, Background, x).
    rewrite <- Htrim, Hpat. cbn [negb fail_if]. unfold bind, ret. by rewrite <- Hid, Hl.
  - intros Ho Hne Hlang. pose proof (own_terms s request r Hg Hb Ho Hlang) as Ht.
    assert (r ∈ matching (put_record r s) (r_Terms r) metadata "") as Hin.
    { unfold matching. apply list_elem_of_filter. split; [|by apply sorted_in].
      eapply well_formed_selected; [by apply (gd_records _ Hg' _ _ Hl)|done| |].
      - apply empty_before. by rewrite Hid.
      - rewrite Hmeta. apply self_matching. }
    exists (S (length (matching (put_record r s) (r_Terms r) metadata ""))), (map hit_of (matching (put_record r s) (r_Terms r) metadata "")).
    split; [|by apply list_elem_of_fmap_2].
    apply (crawl_enumerates (put_record r s) (own_search request) (cr_Content request) metadata defaultSearchLimit); try done.
    + by apply (own_search_valid _ _ _ _ (gd_config _ Hg)  Hv).
    + by left.
    + lia.
Qed.
End Moderation.

(** ** A concrete library *)

Fixpoint words (acc s : string) : list string :=
  match s with
  | EmptyString => [acc]
  | String c rest =>
      if bool_decide (c = " "%char) then acc :: words "" rest else words (acc ++ String c "")%string rest
  end.
Definition plain_text : TextTypes := {|
  Language := string; Severity := nat; Detector := unit; JapaneseTokenizer := unit; SimpleTokenizer := unit;
  BlockwordDictionary := list string; BlockwordRequest := string; TokenizeRequest := string
|}.
#[local] Existing Instance plain_text.
#[local] Existing Instance plain_range.
#[local] Existing Instance plain_unicode.

Definition word_tokens (s : string) : list Token := map (λ w, mkTextToken w w "word" 0 0 ∅) (words "" s).
Definition bad_word : BlockwordMatch := mkMatch (mkEntry "abuse-bad" "bad" (1%nat : Severity) ∅) "bad" 0 3.

(** Everything is confident English, and only the word of one entry is masked. *)
Definition plain_text_lib : TextLib := {|
  English := "English" : Language; Korean := "Korean" : Language; Japanese := "Japanese" : Language;
  Chinese := "Chinese" : Language; Unknown := "Unknown" : Language;
  Language_String l := l;
  SeverityHigh := 2%nat : Severity; SeverityMiddle := 1%nat : Severity;
  NewDetector _ := inr (tt : Detector); NewTokenizer := inr (tt : JapaneseTokenizer);
  NewSimpleTokenizer := tt : SimpleTokenizer;
  NewBlockwordDictionary entries := inr (map be_Text entries : BlockwordDictionary);
  Detect _ _ := inr (mkDetection ("English" : Language) true "en" "eng" f64_one);
  Confidences _ _ := inr []; DetectMultiple _ _ := inr [];
  NewBlockwordRequest text _ := inr (text : BlockwordRequest);
  Process _ text := if Contains text "bad" then inr ("***", [bad_word]) else inr (text, []);
  NewTokenizeRequest text := inr (text : TokenizeRequest);
  Tokenize _ text := inr (word_tokens text);
  TokenizeJapanese _ text := inr (word_tokens text);
  FilterTokens tokens keep := filter (λ t, keep t = true) tokens;
  IsNoun _ := true; IsVerb _ := false; MetadataBaseForm := "base"; POSWord := "word"; POSNumber := "number";
  NormalizeNFC text := text; ContainsLatin _ := true; ContainsKorean _ := false; ContainsJapanese _ := false;
  ContainsChinese _ := false
|}.
#[local] Existing Instance plain_text_lib.

Definition ticking : Clock := Z.of_nat.
Definition small_config : ServiceConfig := mkServiceConfig f64_zero 1 100 3 20.
Definition plain_service : Service :=
  match NewService ticking small_config (clock_options [Some (Some ticking)]) with
  | inr s => s
  | inl _ => mkService small_config None None None None (mkBlockwordOptions "" (0%nat : Severity)) None None
  end.
Lemma plain_moderation_new : NewService ticking small_config (clock_options [Some (Some ticking)]) = inr plain_service.
Proof. vm_compute. reflexivity. Qed.

Definition post (id content : string) : CreateRequest := mkCreate id content {["tenant" := "demo"]}.
Definition three : list (Op * Ctx) :=
  [(OpCreate (post "b" "good day"), Background); (OpCreate (post "a" "bad day"), Background);
   (OpCreate (post "c" "day off"), Background); (OpCreate (post "d" "too many"), Background)].
Definition world3 : World := run_ops three (mkWorld (Some plain_service) 0).
Definition day_search : SearchRequest := mkSearch "day" ∅ 2 "".


Lemma stored_records_well_formed_witness :
  ∃ s1, w_service world3 = Some s1 ∧ Z.of_nat (size (records_of s1)) <= 3.
Proof.
  destruct (stored_records_well_formed ticking small_config [Some (Some ticking)] plain_service three [] plain_moderation_new)
    as (s1 & _ & Hs1 & _ & _ & Hsize & _).
  exists s1. split; [exact Hs1|exact Hsize].
Defined.

Example day_search_found : option_map (map sh_ContentID) (crawl 4 day_search "" world3) = Some ["a"; "b"; "c"].
Proof. vm_compute. reflexivity. Qed.

Definition good_day : CreateRequest := post "b" "good day".
Definition created_run := Create good_day Background (mkWorld (Some plain_service) 0).
Definition created_record : ModRecord :=
  match created_run.1.1 with Val r => r | _ => routed_record small_config "" "" ∅ (mkDetection ("" : Language) false "" "" f64_zero) [] [] end.

Lemma created_content_found_witness :
  Get "b" Background created_run.2 = (Val created_record, Background, created_run.2) ∧
  ∃ pages hits, crawl pages (own_search good_day) "" created_run.2 = Some hits ∧ hit_of created_record ∈ hits.
Proof.
  assert (created_run = (Val created_record, created_run.1.2, created_run.2)) as E by (vm_compute; reflexivity).
  destruct (new_service_good _ _ _ _ (clock_options_clocked [Some (Some ticking)]) plain_moderation_new) as (Hg & _).
  destruct (created_content_found plain_service good_day (mkWorld (Some plain_service) 0) created_record
    created_run.1.2 created_run.2 Hg eq_refl E) as [Hget Hfind].
  split; [exact Hget|]. apply Hfind.
  - vm_compute. discriminate.
  - vm_compute. discriminate.
  - intros d detected _ _. right. reflexivity.
Defined.
