(* ===== verification/TextMasking.v ===== *)
(** examples/text-moderation-masking/internal/moderation: review of a comment against blockwords and an
    allowlist, and masking of the accepted matches. The text library is a parameter. *)
From Stdlib Require Import Ascii String.
From S2P Require Import Prelude.

Definition maxReviewTextRunes : Z := 8000.
Definition ErrInvalidReview : GoError := Sentinel "moderation.ErrInvalidReview" "moderation: invalid review".
Definition DecisionAllowed : string := "allowed".
Definition DecisionMasked : string := "masked".

(** The types of the library: severities, normalisation modes, and what it compiles and returns. *)
Class MaskTypes := {
  Severity : Type; NormalizeMode : Type; BlockwordDictionary : Type; Matcher : Type
}.

Section Data.
Context `{MaskTypes}.

Record BlockwordEntry := mkEntry {
  be_ID : string; be_Text : string; be_Severity : Severity; be_Metadata : gmap string string
}.
Record BlockwordMatch := mkMatch { bm_Entry : BlockwordEntry; bm_Text : string; bm_Start : Z; bm_End : Z }.
Record BlockwordOptions := mkOptions { bo_Mask : string; bo_MinSeverity : Severity }.
Record BlockwordRequest := mkRequest { br_Text : string; br_Options : BlockwordOptions }.
(** A match of a compiled pattern, with the ID of the pattern. *)
Record Match := mkPatternMatch { mt_PatternID : string; mt_Text : string; mt_Start : Z; mt_End : Z }.

Record AllowPhrase := mkAllow { ap_ID : string; ap_Text : string; ap_Reason : string }.
Record Policy := mkPolicy {
  pl_Entries : list BlockwordEntry; pl_AllowPhrases : list AllowPhrase; pl_MinSeverity : Severity;
  pl_Mask : string; pl_NormalizeMode : NormalizeMode
}.
Record Service := mkService {
  sv_dictionary : BlockwordDictionary; sv_allowMatcher : Ptr Matcher;
  sv_allowPhrases : gmap string AllowPhrase; sv_options : BlockwordOptions
}.
Record ReviewRequest := mkReview { rq_ContentID : string; rq_Text : string }.
Record Finding := mkFinding {
  fd_ID : string; fd_Text : string; fd_Severity : Severity; fd_Category : string; fd_Start : Z; fd_End : Z
}.
Record AllowlistHit := mkHit { ah_ID : string; ah_Text : string; ah_Reason : string; ah_Start : Z; ah_End : Z }.
Record ReviewResult := mkResult {
  rr_ContentID : string; rr_Decision : string; rr_OriginalText : string; rr_MaskedText : string;
  rr_Findings : list Finding; rr_AllowlistHits : list AllowlistHit; rr_BoundaryNotes : list string
}.
End Data.

(** The library's functions; case is ignored and boundaries are Unicode words in every call, and the
    allowlist takes the leftmost longest matches. *)
Class MaskLib `{MaskTypes} := {
  SeverityMiddle : Severity; SeverityHigh : Severity; NormalizeNFC : NormalizeMode;
  NewBlockwordDictionary : list BlockwordEntry → NormalizeMode → GoError + BlockwordDictionary;
  Compile : list (string * string) → NormalizeMode → GoError + Matcher;
  FindAll : Matcher → string → list Match;
  NewBlockwordRequest : string → BlockwordOptions → GoError + BlockwordRequest;
  Detect : BlockwordDictionary → string → BlockwordOptions → list BlockwordMatch
}.

Section Review.
Context `{MaskTypes} `{!MaskLib}.

Definition DefaultPolicy : Policy :=
  let entry id text severity category := mkEntry id text severity {["category" := category]} in
  mkPolicy
    [entry "abuse-bad" "bad" SeverityMiddle "abuse"; entry "abuse-bad-wolf" "bad wolf" SeverityHigh "abuse";
     entry "fraud-scam" "scam" SeverityHigh "fraud"; entry "ko-abuse" "욕설" SeverityHigh "abuse";
     entry "ko-fraud" "무료 돈" SeverityMiddle "fraud"]
    [mkAllow "title-bad-wolf-book-club" "bad wolf book club" "book title discussion"]
    SeverityMiddle "*" NormalizeNFC.

(** ** Compiling a policy *)

Fixpoint collect_phrases (phrases : list AllowPhrase) (patterns : list (string * string))
    (lookup : gmap string AllowPhrase) : GoError + (list (string * string) * gmap string AllowPhrase) :=
  match phrases with
  | [] => inr (patterns, lookup)
  | phrase :: rest =>
      if bool_decide (TrimSpace (ap_ID phrase) = "") || bool_decide (TrimSpace (ap_Text phrase) = "")
      then inl (Errorf "%w: allow phrase id and text are required" [ErrInvalidReview] [])
      else collect_phrases rest (patterns ++ [(ap_ID phrase, ap_Text phrase)]) (<[ap_ID phrase := phrase]> lookup)
  end.
Definition compileAllowPhrases (phrases : list AllowPhrase) (mode : NormalizeMode)
    : GoError + (Ptr Matcher * gmap string AllowPhrase) :=
  match phrases with
  | [] => inr (None, ∅)
  | _ =>
      try! (patterns, lookup) := collect_phrases phrases [] ∅ in
      try! matcher := wrapping (λ e, Errorf "compile allow phrases: %w" [e] []) (Compile patterns mode) in
      inr (Some matcher, lookup)
  end.

Definition NewService (policy : Policy) : GoError + Service :=
  let mask := if bool_decide (pl_Mask policy = "") then "*" else pl_Mask policy in
  try! dictionary := wrapping (λ e, Errorf "compile blockword policy: %w" [e] [])
                       (NewBlockwordDictionary (pl_Entries policy) (pl_NormalizeMode policy)) in
  try! (allowMatcher, allowPhrases) := compileAllowPhrases (pl_AllowPhrases policy) (pl_NormalizeMode policy) in
  inr (mkService dictionary allowMatcher allowPhrases (mkOptions mask (pl_MinSeverity policy))).

(** ** Review *)

Definition zero_phrase : AllowPhrase := mkAllow "" "" "".
Definition hit_of (s : Service) (m : Match) : AllowlistHit :=
  let phrase := default zero_phrase (sv_allowPhrases s !! mt_PatternID m) in
  mkHit (ap_ID phrase) (mt_Text m) (ap_Reason phrase) (mt_Start m) (mt_End m).
Definition detectAllowlist (s : Service) (input : string) : list AllowlistHit :=
  match sv_allowMatcher s with None => [] | Some matcher => map (hit_of s) (FindAll matcher input) end.

Definition containedInAllowlist (start end_ : Z) (hits : list AllowlistHit) : bool :=
  existsb (λ hit, (ah_Start hit <=? start) && (end_ <=? ah_End hit)) hits.

(** The matches that stay are moved to the front of the library's own slice, which no one reads again. *)
Definition filterAllowedMatches (matches : list BlockwordMatch) (hits : list AllowlistHit) : list BlockwordMatch :=
  if bool_decide (matches = []) || bool_decide (hits = []) then matches
  else filter (λ m, containedInAllowlist (bm_Start m) (bm_End m) hits = false) matches.

Definition finding_of (m : BlockwordMatch) : Finding :=
  mkFinding (be_ID (bm_Entry m)) (bm_Text m) (be_Severity (bm_Entry m))
    (default "" (be_Metadata (bm_Entry m) !! "category")) (bm_Start m) (bm_End m).
Definition finding_less (a b : Finding) : bool :=
  if negb (fd_Start a =? fd_Start b) then fd_Start a <? fd_Start b else fd_End b <? fd_End a.
Definition findingsFromMatches (matches : list BlockwordMatch) : list Finding :=
  SliceStable finding_less (map finding_of matches).

Fixpoint mask_loop (input : string) (matches : list BlockwordMatch) (mask : string) (offset : Z) (builder : string)
    : option string :=
  match matches with
  | [] => match go_slice input offset (Z.of_nat (String.length input)) with
          | Some rest => Some (builder ++ rest)%string
          | None => None
          end
  | m :: ms =>
      match go_slice input offset (bm_Start m), Repeat mask (RuneCountInString (bm_Text m)) with
      | Some before, Some masked => mask_loop input ms mask (bm_End m) (builder ++ before ++ masked)%string
      | _, _ => None
      end
  end.
(** [None]: the slicing panics. *)
Definition maskMatches (input : string) (matches : list BlockwordMatch) (mask : string) : option string :=
  match matches with [] => Some input | _ => mask_loop input matches mask 0 "" end.

Definition BoundaryNotes : list string :=
  ["BoundaryUnicodeWord prevents substring matches inside words such as badge or badwolf.";
   "Allowlist phrases remove contained blockword matches before masking."].

Definition Evaluate (s : Service) (request : ReviewRequest) : GoM unit ReviewResult :=
  do! ctxErr;
  do! fail_if (if bool_decide (TrimSpace (rq_ContentID request) = "")
               then Some (Errorf "%w: content_id is required" [ErrInvalidReview] [])
               else if maxReviewTextRunes <? RuneCountInString (rq_Text request)
               then Some (Errorf "%w: text length exceeds %d runes" [ErrInvalidReview] [FInt maxReviewTextRunes])
               else None);
  let! blockRequest := or_fail (λ e, Errorf "%w: %w" [ErrInvalidReview; e] [])
                         (NewBlockwordRequest (rq_Text request) (sv_options s)) in
  let allowHits := detectAllowlist s (rq_Text request) in
  let matches := filterAllowedMatches (Detect (sv_dictionary s) (br_Text blockRequest) (br_Options blockRequest)) allowHits in
  let findings := findingsFromMatches matches in
  match maskMatches (br_Text blockRequest) matches (bo_Mask (br_Options blockRequest)) with
  | None => panic
  | Some masked =>
      ret (mkResult (rq_ContentID request) (if (0 <? length findings)%nat then DecisionMasked else DecisionAllowed)
             (rq_Text request) masked findings allowHits BoundaryNotes)
  end.

(** ** Previews *)

Record PreviewPolicy := mkPreviewPolicy {
  pp_Boundary : string; pp_Normalization : string; pp_Mask : string; pp_Blockwords : list string;
  pp_AllowPhrases : list string
}.
Record Preview := mkPreview {
  pv_Scenario : string; pv_Policy : PreviewPolicy; pv_Samples : list ReviewResult; pv_Commands : list string
}.
Definition sample_requests : list ReviewRequest :=
  [mkReview "comment-1001" "bad wolf offer와 욕설 포함"; mkReview "comment-1002" "bad wolf book club discusses scam risk";
   mkReview "comment-1003" "badge bad badwolf bad."].

Definition NewPreview : GoM unit Preview :=
  let! service := or_fail id (NewService DefaultPolicy) in
  let! results := foldM sample_requests (λ sample results,
                    let! result := withoutCancel (Evaluate service sample) in ret (results ++ [result])) [] in
  ret (mkPreview "review marketplace comments with deterministic blockword masking"
         (mkPreviewPolicy "Unicode word boundary" "NFC" "*" ["bad"; "bad wolf"; "scam"; "욕설"; "무료 돈"]
            ["bad wolf book club"])
         results
         ["go run ./examples/text-moderation-masking"; "go test -count=1 ./examples/text-moderation-masking/...";
          "go test -race -count=1 ./examples/text-moderation-masking/..."]).
End Review.
