(* ===== verification/TextMaskingProofs.v ===== *)
(** What the text moderation promises: masking is exact, byte by byte, never slices out of range, and a
    review reports exactly the matches the allowlist leaves. *)
From Stdlib Require Import Ascii String.
From S2P Require Import Prelude TextMasking.

#[local] Arguments String.append !_ _ : simpl nomatch.

(** ** Strings *)

Lemma take_drop_str n s : (take_str n s ++ drop_str n s)%string = s.
Proof. revert s. induction n as [|n IH]; intros s; [done|]. destruct s as [|c s]; cbn; [done|]. by rewrite IH. Qed.
Lemma length_drop_str n s : String.length (drop_str n s) = (String.length s - n)%nat.
Proof. revert s. induction n as [|n IH]; intros s; [cbn; lia|]. destruct s as [|c s]; cbn; [done|apply IH]. Qed.
Lemma length_take_str n s : String.length (take_str n s) = Nat.min n (String.length s).
Proof. revert s. induction n as [|n IH]; intros s; [done|]. destruct s as [|c s]; cbn; [done|]. by rewrite IH. Qed.
Lemma drop_drop_str n m s : drop_str n (drop_str m s) = drop_str (m + n) s.
Proof. revert s. induction m as [|m IH]; intros s; [done|]. destruct s as [|c s]; cbn; [by destruct n|apply IH]. Qed.
Lemma take_all_str n s : (String.length s <= n)%nat → take_str n s = s.
Proof. revert s. induction n as [|n IH]; intros [|c s]; cbn; try done; try lia. intros ?. rewrite IH; [done|lia]. Qed.

Section Masking.
Context `{MT : MaskTypes}.

(** ** The reference *)

(** The masks that start at a byte, and whether a byte is masked. *)
Definition masks_at (matches : list BlockwordMatch) (mask : string) (i : Z) : string :=
  String.concat "" (map (λ m, repeat_str mask (Z.to_nat (RuneCountInString (bm_Text m))))
                      (filter (λ m, bm_Start m = i) matches)).
Definition covered (matches : list BlockwordMatch) (i : Z) : bool :=
  existsb (λ m, (bm_Start m <=? i) && (i <? bm_End m)) matches.
(** Byte by byte from position [i]: a match's mask where it starts, and every byte no match covers. *)
Fixpoint mask_bytes (matches : list BlockwordMatch) (mask : string) (i : Z) (s : string) : string :=
  match s with
  | EmptyString => ""
  | String c rest =>
      (masks_at matches mask i ++ (if covered matches i then "" else String c "") ++
       mask_bytes matches mask (i + 1) rest)%string
  end.

(** Matches in the order of their places, without overlap, inside a text of [size] bytes. *)
Fixpoint placed (offset size : Z) (matches : list BlockwordMatch) : Prop :=
  match matches with
  | [] => offset <= size
  | m :: ms => offset <= bm_Start m ∧ bm_Start m < bm_End m ∧ placed (bm_End m) size ms
  end.

Lemma placed_bounds offset size ms : placed offset size ms → offset <= size.
Proof. revert offset. induction ms as [|m ms IH]; cbn; [done|]. intros offset (? & ? & ?%IH). lia. Qed.
Lemma placed_le offset offset' size ms : offset' <= offset → placed offset size ms → placed offset' size ms.
Proof. destruct ms as [|m ms]; cbn; [lia|]. intros ? (? & ? & ?). split_and!; [lia|done|done]. Qed.
Lemma placed_starts offset size ms m : placed offset size ms → m ∈ ms → offset <= bm_Start m < bm_End m.
Proof.
  revert offset. induction ms as [|m' ms IH]; cbn; intros offset Hp Hm; [by apply elem_of_nil in Hm|].
  destruct Hp as (? & ? & Hp). apply elem_of_cons in Hm as [->|Hm]; [lia|]. pose proof (IH _ Hp Hm). lia.
Qed.
Lemma placed_filter offset size ms (P : BlockwordMatch → Prop) `{!∀ m, Decision (P m)} :
  placed offset size ms → placed offset size (filter P ms).
Proof.
  revert offset. induction ms as [|m ms IH]; intros offset; [done|]. intros (? & ? & Hp). rewrite filter_cons.
  case_decide; [by split_and!; [..|apply IH]|]. apply IH. eapply placed_le, Hp. lia.
Qed.

(** ** The loop follows the reference *)

Lemma mask_bytes_app ms mask i a b :
  mask_bytes ms mask i (a ++ b) =
    (mask_bytes ms mask i a ++ mask_bytes ms mask (i + Z.of_nat (String.length a)) b)%string.
Proof.
  revert i. induction a as [|c a IH]; intros i; cbn [String.append mask_bytes String.length].
  - by rewrite Z.add_0_r.
  - rewrite IH, !append_assoc_s. do 4 f_equal. lia.
Qed.

Lemma no_starts ms mask i : (∀ m, m ∈ ms → bm_Start m ≠ i) → masks_at ms mask i = "".
Proof.
  intros Hs. unfold masks_at. assert (filter (λ m, bm_Start m = i) ms = []) as ->; [|done].
  induction ms as [|m ms IH]; [done|]. rewrite filter_cons_False by (apply Hs; by left). apply IH.
  intros m' Hm'. apply Hs. by right.
Qed.
Lemma not_covered ms i : (∀ m, m ∈ ms → i < bm_Start m ∨ bm_End m <= i) → covered ms i = false.
Proof.
  intros Hs. unfold covered. induction ms as [|m ms IH]; cbn; [done|]. rewrite IH by (intros m' ?; apply Hs; by right).
  destruct (Hs m ltac:(by left)) as [?|?]; rewrite orb_false_r; apply andb_false_iff; [left|right]; lia.
Qed.

(** Bytes before every match are kept. *)
Lemma mask_before ms mask i a :
  (∀ m, m ∈ ms → i + Z.of_nat (String.length a) <= bm_Start m) → mask_bytes ms mask i a = a.
Proof.
  revert i. induction a as [|c a IH]; intros i Hs; cbn [mask_bytes]; [done|].
  assert (∀ m, m ∈ ms → i < bm_Start m) as Hi by (intros m Hm; pose proof (Hs m Hm); cbn in *; lia).
  rewrite no_starts by (intros m Hm; pose proof (Hi m Hm); lia).
  rewrite not_covered by (intros m Hm; left; by apply Hi). cbn. rewrite IH; [done|].
  intros m Hm. pose proof (Hs m Hm). cbn in *. lia.
Qed.

(** Bytes inside the first match, behind its start, are dropped. *)
Lemma mask_inside m ms mask i a :
  bm_Start m < i → i + Z.of_nat (String.length a) <= bm_End m → (∀ m', m' ∈ ms → bm_End m <= bm_Start m') →
  mask_bytes (m :: ms) mask i a = "".
Proof.
  revert i. induction a as [|c a IH]; intros i Hi Ha Hms; cbn [mask_bytes]; [done|]. cbn in Ha.
  rewrite no_starts.
  2: { intros m' [->|Hm']%elem_of_cons; [lia|]. pose proof (Hms m' Hm'). lia. }
  assert (covered (m :: ms) i = true) as ->.
  { unfold covered. cbn. apply orb_true_iff. left. lia. }
  cbn. apply IH; [lia|lia|done].
Qed.

(** Bytes behind the first match are masked by the others. *)
Lemma mask_behind m ms mask i a :
  bm_Start m < bm_End m → bm_End m <= i → mask_bytes (m :: ms) mask i a = mask_bytes ms mask i a.
Proof.
  intros Hm. revert i. induction a as [|c a IH]; intros i Hi; cbn [mask_bytes]; [done|].
  assert (masks_at (m :: ms) mask i = masks_at ms mask i) as ->.
  { unfold masks_at. rewrite filter_cons_False by lia. done. }
  assert (covered (m :: ms) i = covered ms i) as ->.
  { unfold covered. cbn. assert ((bm_Start m <=? i) && (i <? bm_End m) = false) as ->; [|done].
    apply andb_false_iff. right. lia. }
  rewrite IH by lia. done.
Qed.

Lemma mask_match m ms mask a :
  bm_Start m < bm_End m → Z.of_nat (String.length a) = bm_End m - bm_Start m →
  (∀ m', m' ∈ ms → bm_End m <= bm_Start m') →
  mask_bytes (m :: ms) mask (bm_Start m) a = repeat_str mask (Z.to_nat (RuneCountInString (bm_Text m))).
Proof.
  intros Hm Ha Hms. destruct a as [|c a]; [cbn in Ha; lia|]. cbn [mask_bytes String.length] in *.
  rewrite mask_inside by (done || lia).
  assert (covered (m :: ms) (bm_Start m) = true) as ->.
  { unfold covered. cbn. apply orb_true_iff. left. lia. }
  unfold masks_at. rewrite filter_cons_True by done.
  assert (filter (λ m', bm_Start m' = bm_Start m) ms = []) as ->.
  { clear -Hm Hms. induction ms as [|m' ms IH]; [done|]. rewrite filter_cons_False.
    - apply IH. intros m'' ?. apply Hms. by right.
    - pose proof (Hms m' ltac:(by left)). lia. }
  cbn. by rewrite !append_nil_r_s.
Qed.

Lemma slice_run s from to :
  0 <= from <= to → to <= Z.of_nat (String.length s) →
  go_slice s from to = Some (take_str (Z.to_nat (to - from)) (drop_str (Z.to_nat from) s)).
Proof.
  intros H1 H2. unfold go_slice.
  assert ((0 <=? from) && (from <=? to) && (to <=? Z.of_nat (String.length s)) = true) as ->; [|done].
  rewrite !andb_true_iff. lia.
Qed.

Definition repeatable (mask : string) (m : BlockwordMatch) : Prop :=
  Z.of_nat (String.length mask) * RuneCountInString (bm_Text m) <= 2 ^ 63 - 1.
Lemma repeat_run mask m :
  repeatable mask m →
  Repeat mask (RuneCountInString (bm_Text m)) = Some (repeat_str mask (Z.to_nat (RuneCountInString (bm_Text m)))).
Proof.
  unfold repeatable, Repeat. intros Hr.
  assert (0 <= RuneCountInString (bm_Text m)) by (unfold RuneCountInString, len; lia).
  assert ((RuneCountInString (bm_Text m) <? 0) ||
          (2 ^ 63 - 1 <? Z.of_nat (String.length mask) * RuneCountInString (bm_Text m)) = false) as ->; [|done].
  apply orb_false_iff. lia.
Qed.

Lemma mask_step m ms mask offset size s :
  0 <= offset → placed offset size (m :: ms) → size = Z.of_nat (String.length s) →
  mask_bytes (m :: ms) mask offset (drop_str (Z.to_nat offset) s) =
    (take_str (Z.to_nat (bm_Start m - offset)) (drop_str (Z.to_nat offset) s) ++
     repeat_str mask (Z.to_nat (RuneCountInString (bm_Text m))) ++
     mask_bytes ms mask (bm_End m) (drop_str (Z.to_nat (bm_End m)) s))%string.
Proof.
  intros Hoff (Ho & Hm & Hp) ->. pose proof (placed_bounds _ _ _ Hp) as Hend.
  assert (∀ m', m' ∈ ms → bm_End m <= bm_Start m') as Hms by (intros m' Hm'; by apply (placed_starts _ _ _ _ Hp)).
  set (rest := drop_str (Z.to_nat offset) s).
  rewrite <- (take_drop_str (Z.to_nat (bm_Start m - offset)) rest) at 1.
  assert (String.length rest = String.length s - Z.to_nat offset)%nat as Hlen by apply length_drop_str.
  rewrite mask_bytes_app, length_take_str, Hlen.
  rewrite mask_before.
  2: { intros m' Hm'. rewrite length_take_str, Hlen. apply elem_of_cons in Hm' as [->|Hm']; [lia|].
       pose proof (Hms m' Hm'). lia. }
  f_equal. replace (offset + Z.of_nat (Nat.min (Z.to_nat (bm_Start m - offset)) (String.length s - Z.to_nat offset)))
    with (bm_Start m) by lia.
  rewrite <- (take_drop_str (Z.to_nat (bm_End m - bm_Start m)) (drop_str _ rest)), mask_bytes_app.
  subst rest. rewrite !drop_drop_str, length_take_str, length_drop_str.
  rewrite mask_match; [| done | rewrite length_take_str, length_drop_str; lia | done].
  f_equal. rewrite mask_behind by lia. f_equal; [lia|]. f_equal. lia.
Qed.

Lemma loop_reference ms mask input offset builder :
  0 <= offset → placed offset (Z.of_nat (String.length input)) ms → Forall (repeatable mask) ms →
  mask_loop input ms mask offset builder =
    Some (builder ++ mask_bytes ms mask offset (drop_str (Z.to_nat offset) input))%string.
Proof.
  revert offset builder. induction ms as [|m ms IH]; intros offset builder Hoff Hp HF; cbn [mask_loop].
  - cbn in Hp. rewrite slice_run, take_all_str by (rewrite ?length_drop_str; lia). by rewrite mask_before by (intros ? []%elem_of_nil).
  - apply Forall_cons in HF as [Hr HF]. pose proof Hp as (Ho & Hm & Hp'). pose proof (placed_bounds _ _ _ Hp').
    rewrite slice_run, repeat_run by (done || lia). rewrite IH by (done || lia).
    rewrite (mask_step m ms mask offset _ input Hoff Hp eq_refl). by rewrite !append_assoc_s.
Qed.

Lemma mask_matches_run input matches mask :
  placed 0 (Z.of_nat (String.length input)) matches → Forall (repeatable mask) matches →
  maskMatches input matches mask = Some (mask_bytes matches mask 0 input).
Proof.
  intros Hp HF. unfold maskMatches. destruct matches as [|m ms]; [|by rewrite loop_reference].
  by rewrite mask_before by (intros ? []%elem_of_nil).
Qed.

(** C35: for matches in the order of their places, without overlap and inside the text, masking never
    slices out of range: it gives the text byte by byte, each match's mask where the match starts, every
    byte outside the matches kept and every byte inside dropped; a byte is kept exactly when no match
    covers it, and without matches the text is unchanged. *)
Theorem mask_equals_reference input matches mask :
  placed 0 (Z.of_nat (String.length input)) matches → Forall (repeatable mask) matches →
  maskMatches input matches mask = Some (mask_bytes matches mask 0 input) ∧
  maskMatches input [] mask = Some input.
Proof. intros Hp HF. split; [by apply mask_matches_run|done]. Qed.

(** ** Reviews *)

Context `{ML : !MaskLib}.

(** What the library documents of its matches: leftmost-longest matches in the order of their places,
    without overlap and inside the text, with the text they match. *)
Class DetectLaws : Prop := {
  detect_placed d text options : placed 0 (Z.of_nat (String.length text)) (Detect d text options);
  detect_text d text options m : m ∈ Detect d text options →
    RuneCountInString (bm_Text m) <= Z.of_nat (String.length text)
}.

Lemma filter_matches matches hits :
  filterAllowedMatches matches hits =
    filter (λ m, containedInAllowlist (bm_Start m) (bm_End m) hits = false) matches.
Proof.
  unfold filterAllowedMatches. case_bool_decide as E1; [by subst|]. case_bool_decide as E2; [|done].
  cbn [orb]. subst hits. symmetry. clear E1. induction matches as [|m ms IH]; [done|].
  rewrite filter_cons_True by done. by rewrite IH.
Qed.

Lemma findings_in_place offset size ms :
  placed offset size ms → findingsFromMatches ms = map finding_of ms.
Proof.
  intros Hp. apply stable_sorted. revert offset Hp. induction ms as [|m ms IH]; intros offset; cbn; [constructor|].
  intros (? & ? & Hp). constructor; [by eapply IH|]. apply Forall_fmap, Forall_forall. intros m' Hm'.
  pose proof (placed_starts _ _ _ _ Hp Hm'). unfold finding_less, finding_of. cbn.
  assert ((bm_Start m' =? bm_Start m) = false) as -> by lia. cbn. lia.
Qed.

Lemma allowlist_spec start end_ hits :
  containedInAllowlist start end_ hits = true ↔ ∃ hit, hit ∈ hits ∧ ah_Start hit <= start ∧ end_ <= ah_End hit.
Proof.
  unfold containedInAllowlist. rewrite existsb_exists. split.
  - intros (hit & Hin & Hb). exists hit. rewrite andb_true_iff, !Z.leb_le in Hb. split; [|lia].
    by apply list_elem_of_In.
  - intros (hit & Hin & Hb). exists hit. rewrite andb_true_iff, !Z.leb_le. split; [|lia]. by apply list_elem_of_In.
Qed.

(** A review never panics, and when it succeeds it reports exactly the detected matches that no
    allowlist hit contains, in the order of their places; it decides to mask exactly when there are such
    matches, masks exactly those, keeps the original text, and never reviews more than 8000 runes. *)
Theorem evaluate_reports_accepted `{!DetectLaws} s request c o c' u :
  (∀ r, NewBlockwordRequest (rq_Text request) (sv_options s) = inr r →
     Z.of_nat (String.length (bo_Mask (br_Options r))) * Z.of_nat (String.length (br_Text r)) <= 2 ^ 63 - 1) →
  Evaluate s request c tt = (o, c', u) →
  o ≠ Panic ∧ ∀ result, o = Val result →
    ∃ r accepted, NewBlockwordRequest (rq_Text request) (sv_options s) = inr r ∧
      (∀ m, m ∈ accepted ↔ m ∈ Detect (sv_dictionary s) (br_Text r) (br_Options r) ∧
         ¬ ∃ hit, hit ∈ rr_AllowlistHits result ∧ ah_Start hit <= bm_Start m ∧ bm_End m <= ah_End hit) ∧
      placed 0 (Z.of_nat (String.length (br_Text r))) accepted ∧
      rr_Findings result = map finding_of accepted ∧
      rr_MaskedText result = mask_bytes accepted (bo_Mask (br_Options r)) 0 (br_Text r) ∧
      (rr_Decision result = DecisionMasked ↔ accepted ≠ []) ∧
      (rr_Decision result = DecisionAllowed ↔ accepted = []) ∧
      rr_OriginalText result = rq_Text request ∧ RuneCountInString (rq_Text request) <= 8000.
Proof.
  intros Hsize. unfold Evaluate. intros Hr.
  apply bind_inv in Hr as [(u1 & c1 & w1 & Hb & Hr)|[(e & -> & Hb)|[-> Hb]]];
    apply ctxErr_inv in Hb as [-> Ho]; [clear Ho|naive_solver..].
  apply bind_inv in Hr as [(u2 & c2 & w2 & Hb & Hr)|[(e & -> & Hb)|[-> Hb]]];
    apply fail_if_run in Hb as (-> & -> & Ho); [|naive_solver..].
  destruct Ho as [(_ & Hchecks)|(e & [=] & _)].
  apply bind_inv in Hr as [(r & c3 & w3 & Hb & Hr)|[(e & -> & Hb)|[-> Hb]]];
    apply or_fail_run in Hb as (-> & -> & Ho); [|naive_solver..].
  destruct Ho as [(r' & [= <-] & Hreq)|(e & [=] & _)]. specialize (Hsize r Hreq).
  set (hits := detectAllowlist s (rq_Text request)) in *.
  set (found := Detect _ _ _) in *. set (accepted := filterAllowedMatches found hits) in *.
  assert (accepted = filter (λ m, containedInAllowlist (bm_Start m) (bm_End m) hits = false) found) as Ea
    by apply filter_matches.
  assert (placed 0 (Z.of_nat (String.length (br_Text r))) accepted) as Hplaced.
  { rewrite Ea. apply placed_filter, detect_placed. }
  assert (Forall (repeatable (bo_Mask (br_Options r))) accepted) as Hrep.
  { apply Forall_forall. intros m Hm. rewrite Ea in Hm. apply list_elem_of_filter in Hm as [_ Hm%detect_text].
    unfold repeatable. nia. }
  rewrite mask_matches_run in Hr by done. unfold ret in Hr. injection Hr as <- _ _. split; [done|].
  intros result [= <-]. exists r, accepted. cbn.
  rewrite (findings_in_place 0 _ accepted Hplaced). split_and!; try done.
  - intros m. rewrite Ea, list_elem_of_filter, <- allowlist_spec, not_true_iff_false. tauto.
  - destruct accepted; cbn; naive_solver.
  - destruct accepted; cbn; naive_solver.
  - case_bool_decide; [done|]. destruct (_ <? _) eqn:E; [done|]. unfold maxReviewTextRunes in E. lia.
Qed.
End Masking.

(** ** A concrete library *)

Definition plain_mask : MaskTypes :=
  {| Severity := nat; NormalizeMode := unit; BlockwordDictionary := list string; Matcher := string |}.
#[local] Existing Instance plain_mask.
Definition bad_match (start : Z) : BlockwordMatch :=
  mkMatch (mkEntry "abuse-bad" "bad" (1%nat : Severity) {["category" := "abuse"]}) "bad" start (start + 3).

(** Every occurrence of one word, from left to right. *)
Fixpoint occurrences (skip : nat) (i : Z) (s : string) : list BlockwordMatch :=
  match s, skip with
  | EmptyString, _ => []
  | String _ rest, S skip' => occurrences skip' (i + 1) rest
  | String _ rest, O =>
      if starts_with "bad" s then bad_match i :: occurrences 2 (i + 1) rest else occurrences 0 (i + 1) rest
  end.

Lemma starts_with_length p s : starts_with p s = true → (String.length p <= String.length s)%nat.
Proof.
  revert s. induction p as [|c p IH]; intros [|d s]; cbn; try done; [lia|]. unfold starts_with in *. cbn.
  destruct (ascii_dec c d); [|done]. intros ?%IH. lia.
Qed.
Lemma placed_at offset size offset' size' ms :
  placed offset size ms → offset = offset' → size = size' → placed offset' size' ms.
Proof. by intros ? <- <-. Qed.
Lemma occurrences_placed skip i s :
  placed (i + Z.of_nat skip) (i + Z.of_nat (Nat.max skip (String.length s))) (occurrences skip i s).
Proof.
  revert skip i. induction s as [|c s IH]; intros skip i; [cbn; lia|].
  destruct skip as [|skip].
  - cbn [occurrences]. destruct (starts_with _ _) eqn:E.
    + apply starts_with_length in E. cbn [String.length] in *. specialize (IH 2%nat (i + 1)).
      cbn [placed bad_match bm_Start bm_End]. split_and!; [lia|lia|].
      eapply placed_at; [exact IH|lia|lia].
    + specialize (IH 0%nat (i + 1)). eapply (placed_le (i + 1)); [lia|].
      eapply placed_at; [exact IH|lia|cbn [String.length]; lia].
  - specialize (IH skip (i + 1)). cbn [occurrences String.length].
    eapply placed_at; [exact IH|lia|lia].
Qed.
Lemma occurrences_text skip i s m : m ∈ occurrences skip i s → bm_Text m = "bad" ∧ (3 <= String.length s)%nat.
Proof.
  revert skip i. induction s as [|c s IH]; intros skip i; [by intros ?%elem_of_nil|]. destruct skip as [|skip].
  - cbn [occurrences]. destruct (starts_with _ _) eqn:E.
    + apply starts_with_length in E. intros [->|Hm]%elem_of_cons; [done|].
      destruct (IH _ _ Hm). cbn in *. split; [done|lia].
    + intros Hm. destruct (IH _ _ Hm). cbn. split; [done|lia].
  - intros Hm. destruct (IH _ _ Hm). cbn. split; [done|lia].
Qed.

Definition plain_mask_lib : MaskLib := {|
  SeverityMiddle := 1%nat : Severity; SeverityHigh := 2%nat : Severity; NormalizeNFC := tt : NormalizeMode;
  NewBlockwordDictionary entries _ := inr (map be_Text entries : BlockwordDictionary);
  Compile patterns _ := inr (String.concat "," (map snd patterns) : Matcher);
  FindAll phrase text := if starts_with phrase text then [mkPatternMatch "title" phrase 0 (Z.of_nat (String.length phrase))] else [];
  NewBlockwordRequest text options := inr (mkRequest text options);
  Detect _ text _ := occurrences 0 0 text
|}.
#[local] Existing Instance plain_mask_lib.
Lemma plain_detect_laws : DetectLaws.
Proof.
  split.
  - intros d text options. apply (occurrences_placed 0 0 text).
  - intros d text options m Hm. destruct (occurrences_text 0 0 text m Hm) as [-> Hlen].
    change (RuneCountInString "bad") with 3. lia.
Qed.

Lemma mask_equals_reference_witness :
  maskMatches "a bad, bad day" (occurrences 0 0 "a bad, bad day") "*" = Some "a ***, *** day".
Proof.
  rewrite (proj1 (mask_equals_reference "a bad, bad day" (occurrences 0 0 "a bad, bad day") "*"
    (occurrences_placed 0 0 "a bad, bad day")
    ltac:(apply (proj2 (Forall_forall _ _)); intros m Hm; destruct (occurrences_text _ _ _ _ Hm) as [E _];
          unfold repeatable; rewrite E; vm_compute; discriminate))).
  vm_compute. reflexivity.
Defined.

Definition plain_review_service : Service :=
  mkService (["bad"] : BlockwordDictionary) (Some ("bad wolf club" : Matcher)) {["title" := mkAllow "title" "bad wolf club" "book"]}
    (mkOptions "*" (1%nat : Severity)).
Definition plain_review : ReviewRequest := mkReview "comment-1" "bad wolf club: bad day".
Definition review_run := Evaluate plain_review_service plain_review Background tt.

Lemma evaluate_reports_accepted_witness :
  ∃ result accepted, review_run.1.1 = Val result ∧ rr_Findings result = map finding_of accepted ∧
    rr_MaskedText result = mask_bytes accepted "*" 0 "bad wolf club: bad day" ∧ rr_Decision result = DecisionMasked.
Proof.
  destruct (evaluate_reports_accepted (H := plain_detect_laws) plain_review_service plain_review Background
    review_run.1.1 review_run.1.2 review_run.2) as [_ Hval].
  - intros r [= <-]. vm_compute. discriminate.
  - change (review_run = (review_run.1.1, review_run.1.2, review_run.2)). destruct review_run as [[? ?] ?]. reflexivity.
  - destruct (Hval _ ltac:(vm_compute; reflexivity)) as (r & accepted & [= <-] & _ & _ & Hf & Hm & _).
    do 2 eexists. split_and!; [vm_compute; reflexivity|exact Hf|exact Hm|vm_compute; reflexivity].
Defined.

Example review_masks :
  match review_run.1.1 with Val r => (rr_MaskedText r, length (rr_Findings r), length (rr_AllowlistHits r)) | _ => ("", 0%nat, 0%nat) end
  = ("bad wolf club: *** day", 1%nat, 1%nat).
Proof. vm_compute. reflexivity. Qed.
