(* ===== verification/JwtLib.v ===== *)
(** What the token examples share: Go durations and clocks, the scope and bearer-header helpers each of
    them repeats, and the interface of bluetape-go's jwt and id packages with the laws theorems use. *)
From Stdlib Require Import Ascii String.
From S2P Require Import Prelude.

(** ** Durations, clocks and identifiers *)

(** A [time.Duration] counts nanoseconds in 64 bits. *)
Definition Second : Z := 1000000000.
Definition Minute : Z := 60 * Second.
Definition Hour : Z := 60 * Minute.
(** [time.Duration(n) * time.Second]. *)
Definition seconds (n : Z) : Z := wrap64 (n * Second).

(** [float64(n)] and [int(x)]: nearest even, and towards zero; the conversion back is only used on
    values an [int] holds. *)
Definition float64_of_int (n : Z) : float64 := binary_normalize 53 1024 n 0 false.
Definition int_of_float64 (x : float64) : Z :=
  match x with
  | S754_finite s m e =>
      let z := if 0 <=? e then Z.pos m * 2 ^ e else Z.pos m / 2 ^ (- e) in
      if s then - z else z
  | _ => 0
  end.
(** [d.Seconds()]. *)
Definition Seconds (d : Z) : float64 :=
  SFadd 53 1024 (float64_of_int (Z.quot d Second))
    (SFdiv 53 1024 (float64_of_int (Z.rem d Second)) (float64_of_int Second)).

(** A clock is a [func() time.Time]: a function of the instant it is read at. *)
Definition Clock : Type := Z → Z.
(** The instant of every reading, in the order of the readings. *)
Class Timeline := instant : nat → Z.
(** The id package's generators, and what they draw from. *)
Class IdLib := {
  Generator : Type;
  IdSource : Type;
  NextString : Generator → IdSource → (GoError + string) * IdSource
}.

Section World.
Context `{Timeline} `{IdLib}.

Record World := mkWorld { wd_reads : nat; wd_ids : IdSource }.

Definition reading (clock : Clock) (n : nat) : Z := clock (instant n).
Definition readClock (clock : Clock) : GoM World Z :=
  λ c w, (Val (reading clock (wd_reads w)), c, mkWorld (S (wd_reads w)) (wd_ids w)).
Definition nextString (g : Generator) (wrap : GoError → GoError) : GoM World string :=
  λ c w, let '(r, ids) := NextString g (wd_ids w) in
         or_fail wrap r c (mkWorld (wd_reads w) ids).
End World.

(** ** Tokens *)

Inductive ComposeOption :=
  | WithIssuer (issuer : string) | WithSubject (subject : string) | WithAudience (audience : string)
  | WithExpiresAfter (ttl : Z) | WithJWTID (id : string) | WithClaim (name value : string).
(** The clock of [WithParseClock] is read for the call, like the clock of the provider. *)
Inductive ParseOption :=
  | WithExpectedIssuer (issuer : string) | WithExpectedAudience (audience : string)
  | WithExpirationRequired.

Class JwtTypes := { Provider : Type; Reader : Type }.
Class JwtLib `{JwtTypes} := {
  NewFixedHMACProvider : string → string → Clock → (GoError + string) → GoError + Provider;
  (** [Compose] and [Parse] at a reading of their clock. *)
  Compose : Provider → Z → list ComposeOption → GoError + string;
  Parse : Provider → Z → list ParseOption → string → GoError + Reader;
  Subject : Reader → string;
  Audience : Reader → list string;
  (** [None] is the second result [false]. *)
  ClaimString : Reader → string → option string;
  RemainingTTL : Reader → Z → Z
}.

Definition HS256 : string := "HS256".
(** The sentinel the source compares with. *)
Definition jwtErrExpiredToken : string := "jwt.ErrExpiredToken".

(** The claims a list of options sets. *)
Record TokenClaims := mkClaims {
  tc_issuer : string; tc_subject : string; tc_audience : list string; tc_ttl : option Z;
  tc_id : string; tc_claims : gmap string string
}.
Definition no_claims : TokenClaims := mkClaims "" "" [] None "" ∅.
Definition set_claim (o : ComposeOption) (t : TokenClaims) : TokenClaims :=
  match o with
  | WithIssuer s => mkClaims s (tc_subject t) (tc_audience t) (tc_ttl t) (tc_id t) (tc_claims t)
  | WithSubject s => mkClaims (tc_issuer t) s (tc_audience t) (tc_ttl t) (tc_id t) (tc_claims t)
  | WithAudience s => mkClaims (tc_issuer t) (tc_subject t) [s] (tc_ttl t) (tc_id t) (tc_claims t)
  | WithExpiresAfter d => mkClaims (tc_issuer t) (tc_subject t) (tc_audience t) (Some d) (tc_id t) (tc_claims t)
  | WithJWTID s => mkClaims (tc_issuer t) (tc_subject t) (tc_audience t) (tc_ttl t) s (tc_claims t)
  | WithClaim k v => mkClaims (tc_issuer t) (tc_subject t) (tc_audience t) (tc_ttl t) (tc_id t) (<[k := v]> (tc_claims t))
  end.
Definition claims_of (opts : list ComposeOption) : TokenClaims := fold_left (λ t o, set_claim o t) opts no_claims.

(** JSON carries text without loss when it is UTF-8. *)
Definition option_text (o : ComposeOption) : bool :=
  match o with
  | WithIssuer s | WithSubject s | WithAudience s | WithJWTID s => ValidString s
  | WithExpiresAfter _ => true
  | WithClaim k v => ValidString k && ValidString v
  end.
Definition options_text (opts : list ComposeOption) : Prop := forallb option_text opts = true.

(** The names [WithClaim] leaves to the registered claims. *)
Definition registered : list string := ["iss"; "sub"; "aud"; "exp"; "nbf"; "iat"; "jti"].

Definition meets (t : TokenClaims) (o : ParseOption) : bool :=
  match o with
  | WithExpectedIssuer s => bool_decide (tc_issuer t = s)
  | WithExpectedAudience s => bool_decide (s ∈ tc_audience t)
  | WithExpirationRequired => bool_decide (is_Some (tc_ttl t))
  end.

(** The alphabet of a compact token: base64url parts and dots. *)
Definition token_text (s : string) : Prop :=
  s ≠ "" ∧ forallb ident_char (list_ascii_of_string s) = true.

Definition shows `{JwtLib} (r : Reader) (t : TokenClaims) : Prop :=
  Subject r = tc_subject t ∧ Audience r = tc_audience t ∧
  ∀ k, k ∉ registered → ClaimString r k = tc_claims t !! k.

(** The laws of signed tokens: what a provider composes it parses to the same claims; it accepts it
    from its composition to a second before its expiry (the precision of NumericDate), and reports it
    as expired from its expiry on. *)
Class JwtLaws `{JwtLib} : Prop := {
  compose_text p t opts tok : Compose p t opts = inr tok → token_text tok;
  parse_shows p t t' opts popts tok r :
    options_text opts → Compose p t opts = inr tok → Parse p t' popts tok = inr r → shows r (claims_of opts);
  parse_meets p t t' opts popts tok r :
    options_text opts → Compose p t opts = inr tok → Parse p t' popts tok = inr r →
    forallb (meets (claims_of opts)) popts = true;
  parse_accepts p t t' d opts popts tok :
    options_text opts → Compose p t opts = inr tok → tc_ttl (claims_of opts) = Some d →
    forallb (meets (claims_of opts)) popts = true → t <= t' → t' + Second <= t + d →
    ∃ r, Parse p t' popts tok = inr r;
  parse_expires p t t' d opts popts tok :
    options_text opts → Compose p t opts = inr tok → tc_ttl (claims_of opts) = Some d →
    forallb (meets (claims_of opts)) popts = true → t <= t' → t + d <= t' →
    ∃ e, Parse p t' popts tok = inl e ∧ errors_Is e jwtErrExpiredToken = true
}.

(** ** Scopes and bearer headers *)

Definition word (s : string) : list string := if bool_decide (s = "") then [] else [s].
Fixpoint fields_loop (fuel : nat) (cur s : string) : list string :=
  match fuel, s with
  | S fuel', String c rest =>
      match strip_one space_runes s with
      | Some s' => word cur ++ fields_loop fuel' "" s'
      | None => fields_loop fuel' (cur ++ String c "")%string rest
      end
  | _, _ => word cur
  end.
(** [strings.Fields]: no encoding of a space starts inside another rune, so the bytes can be scanned. *)
Definition Fields (s : string) : list string := fields_loop (String.length s) "" s.
(** [strings.Join]. *)
Definition Join_strings (xs : list string) (sep : string) : string := String.concat sep xs.
(** [strings.TrimPrefix]. *)
Definition TrimPrefix (s prefix : string) : string :=
  if starts_with prefix s then drop_str (String.length prefix) s else s.

Fixpoint normalize_scopes (scopes : list string) : list string :=
  match scopes with
  | [] => []
  | scope :: rest =>
      let scope := TrimSpace scope in
      if bool_decide (scope = "") then normalize_scopes rest else scope :: normalize_scopes rest
  end.
Definition has_scope (scopeClaim required : string) : bool :=
  existsb (λ scope, bool_decide (scope = required)) (Fields scopeClaim).

Definition bearer_token (missing invalid : GoError) (authorization : string) : GoError + string :=
  if bool_decide (TrimSpace authorization = "") then inl missing
  else if negb (starts_with "Bearer " authorization)
  then inl (Errorf "%w: Authorization must use Bearer scheme" [invalid] [])
  else
    let token := TrimSpace (TrimPrefix authorization "Bearer ") in
    if bool_decide (token = "") then inl missing else inr token.

(** ** Their lemmas *)

Lemma seconds_le n : 0 < n → seconds n <= n * Second.
Proof.
  intros Hn. unfold seconds, wrap64, int_bits, Second. set (x := n * 1000000000).
  assert (0 <= x) as Hx by lia. clearbody x.
  pose proof (Z.mod_le (x + 2 ^ (64 - 1)) (2 ^ 64)). lia.
Qed.
Lemma seconds_exact n : 0 < n → (seconds n = n * Second ↔ n <= 9223372036).
Proof.
  intros Hn. unfold seconds. pose proof (wrap64_range (n * Second)) as Hr. unfold in_int64, int_bits, Second in *.
  split; [lia|]. intros H. apply wrap64_id. unfold in_int64, int_bits. lia.
Qed.

Lemma ascii_valid s : ascii_only s = true → ValidString s = true.
Proof.
  unfold ValidString, runes_of. induction s as [|c s IH]; [done|]. unfold ascii_only. cbn.
  intros [Hc Hs]%andb_true_iff. unfold is_ascii in Hc. rewrite Hc. cbn. by apply IH.
Qed.

#[local] Arguments String.append !_ _ : simpl nomatch.

Definition rune_blank_free (r : string) : bool :=
  match r with
  | EmptyString => false
  | String _ tail => forallb (λ c, negb (bool_decide (c = " "%char))) (list_ascii_of_string tail)
  end.
Lemma space_runes_blank_free : forallb rune_blank_free space_runes = true.
Proof. by vm_compute. Qed.

Lemma starts_with_cons x r c s :
  starts_with (String x r) (String c s) = if ascii_dec x c then starts_with r s else false.
Proof. unfold starts_with. cbn. by destruct (ascii_dec x c). Qed.
Lemma starts_with_blank_tail r a b :
  forallb (λ c, negb (bool_decide (c = " "%char))) (list_ascii_of_string r) = true →
  starts_with r (a ++ String " " b) = starts_with r a.
Proof.
  revert a. induction r as [|x r IH]; intros a; [by destruct a|]. cbn [list_ascii_of_string forallb].
  intros [Hx Hr]%andb_true_iff. destruct a as [|c a]; cbn [String.append].
  - rewrite starts_with_cons. destruct (ascii_dec x " ") as [->|]; [by rewrite bool_decide_eq_true_2 in Hx|done].
  - rewrite !starts_with_cons. destruct (ascii_dec x c); [by apply IH|done].
Qed.
Lemma drop_str_app n a b : (n <= String.length a)%nat → drop_str n (a ++ b) = (drop_str n a ++ b)%string.
Proof. revert a. induction n as [|n IH]; intros [|c a]; cbn; try done; try lia. intros ?. apply IH. lia. Qed.
Lemma starts_with_split r s : starts_with r s = true → s = (r ++ drop_str (String.length r) s)%string.
Proof.
  revert s. induction r as [|x r IH]; intros [|c s]; [done..|]. rewrite starts_with_cons. destruct (ascii_dec x c) as [->|]; [|done].
  intros H%IH. cbn. by rewrite <- H.
Qed.
Lemma starts_with_self r t : starts_with r (r ++ t) = true.
Proof. induction r as [|x r IH]; [by destruct t|]. cbn [String.append]. rewrite starts_with_cons. by destruct (ascii_dec x x). Qed.
Lemma drop_self r t : drop_str (String.length r) (r ++ t) = t.
Proof. by induction r. Qed.
Lemma prefix_shorter r s : starts_with r s = true → (String.length r <= String.length s)%nat.
Proof.
  revert s. induction r as [|x r IH]; intros [|c s]; cbn [String.length]; try lia; [done|].
  rewrite starts_with_cons. destruct (ascii_dec x c); [|done]. intros ?%IH. lia.
Qed.

Lemma strip_one_app runes c a b :
  forallb rune_blank_free runes = true →
  strip_one runes (String c a ++ String " " b) =
    match strip_one runes (String c a) with Some s => Some (s ++ String " " b)%string | None => None end.
Proof.
  intros Hr. unfold strip_one. induction runes as [|r runes IH]; [done|]. cbn [forallb List.find] in *.
  apply andb_true_iff in Hr as [Hr Hrs]. destruct r as [|x r]; [done|].
  assert (starts_with (String x r) (String c a ++ String " " b) = starts_with (String x r) (String c a)) as ->.
  { cbn [String.append]. rewrite !starts_with_cons. destruct (ascii_dec x c); [|done].
    by apply starts_with_blank_tail. }
  destruct (starts_with (String x r) (String c a)) eqn:E; [|by apply IH].
  f_equal. apply drop_str_app. by apply prefix_shorter in E.
Qed.
Lemma strip_one_shorter s s' : strip_one space_runes s = Some s' → (String.length s' < String.length s)%nat.
Proof.
  unfold strip_one. destruct (List.find _ _) as [r|] eqn:E; [|done]. intros [= <-].
  apply find_some in E as [Hin Hs]. apply prefix_shorter in Hs.
  assert (0 < String.length r)%nat.
  { pose proof space_runes_blank_free as Hf. rewrite forallb_forall in Hf. specialize (Hf r Hin).
    destruct r; [done|cbn; lia]. }
  assert (∀ n t, String.length (drop_str n t) = (String.length t - n)%nat) as ->; [|lia].
  intros n. induction n as [|n IHn]; intros t; [cbn; lia|]. destruct t; cbn; [done|apply IHn].
Qed.

Lemma fields_fuel f1 f2 cur s :
  (String.length s <= f1)%nat → (String.length s <= f2)%nat → fields_loop f1 cur s = fields_loop f2 cur s.
Proof.
  revert f2 cur s. induction f1 as [|f1 IH]; intros f2 cur s H1 H2.
  { destruct s; [by destruct f2|cbn in H1; lia]. }
  destruct f2 as [|f2]; [destruct s; [done|cbn in H2; lia]|]. destruct s as [|c s]; [done|]. cbn [fields_loop].
  destruct (strip_one space_runes (String c s)) as [s'|] eqn:E; [|apply IH; cbn in *; lia].
  f_equal. apply strip_one_shorter in E. apply IH; cbn in *; lia.
Qed.

Lemma fields_split f cur a b :
  (String.length (a ++ String " " b) <= f)%nat →
  fields_loop f cur (a ++ String " " b) = fields_loop (String.length a) cur a ++ Fields b.
Proof.
  revert cur a. induction f as [|f IH]; intros cur a Hf; [rewrite append_length_s in Hf; cbn in Hf; lia|].
  destruct a as [|c a].
  - cbn [String.append fields_loop String.length] in *.
    assert (strip_one space_runes (String " " b) = Some b) as -> by (by destruct b). f_equal. apply fields_fuel; lia.
  - cbn [String.append fields_loop String.length] in *.
    pose proof (strip_one_app space_runes c a b space_runes_blank_free) as E. cbn [String.append] in E. rewrite E.
    destruct (strip_one space_runes (String c a)) as [s|] eqn:Es.
    + apply strip_one_shorter in Es. rewrite append_length_s in Hf. cbn in *.
      rewrite IH by (rewrite append_length_s; cbn; lia).
      rewrite (fields_fuel (String.length s) (String.length a)) by lia. by rewrite app_assoc.
    + apply IH. lia.
Qed.
(** Fields of words joined by blanks. *)
Lemma Fields_blank a b : Fields (a ++ String " " b) = Fields a ++ Fields b.
Proof. by apply fields_split. Qed.
Lemma Fields_join xs : Fields (Join_strings xs " ") = concat (map Fields xs).
Proof.
  unfold Join_strings. induction xs as [|x xs IH]; [done|]. destruct xs as [|y xs].
  - cbn. by rewrite app_nil_r.
  - change (String.concat " " (x :: y :: xs)) with (x ++ String " " (String.concat " " (y :: xs)))%string.
    by rewrite Fields_blank, IH.
Qed.

Lemma has_scope_join scopes required :
  has_scope (Join_strings (normalize_scopes scopes) " ") required =
  existsb (λ scope, has_scope (TrimSpace scope) required) scopes.
Proof.
  unfold has_scope. rewrite Fields_join. induction scopes as [|x xs IH]; [done|]. cbn [normalize_scopes existsb].
  case_bool_decide as E; [rewrite E; apply IH|]. cbn [map concat]. by rewrite existsb_app, IH.
Qed.

Lemma bearer_of_token missing invalid tok :
  token_text tok → bearer_token missing invalid ("Bearer " ++ tok) = inr tok.
Proof.
  intros [Hne Ht]. unfold bearer_token.
  assert (TrimSpace ("Bearer " ++ tok) = "Bearer " ++ tok)%string as ->.
  { destruct (rev_ident tok Hne Ht) as (d & t & E & Hd).
    apply (trim_ends "B" ("earer " ++ tok) d (t ++ rev_str "Bearer ")); [done..|].
    change (String "B" ("earer " ++ tok)) with ("Bearer " ++ tok)%string. rewrite rev_str_app, E. done. }
  assert (∀ p, starts_with p (p ++ tok) = true) as Hp.
  { intros p. induction p as [|x p IHp]; [by destruct tok|]. cbn [String.append]. rewrite starts_with_cons.
    by destruct (ascii_dec x x). }
  unfold TrimPrefix. rewrite bool_decide_eq_false_2 by done. rewrite Hp.
  change (drop_str (String.length "Bearer ") ("Bearer " ++ tok)) with tok.
  rewrite (trim_ident tok Ht). by rewrite bool_decide_eq_false_2.
Qed.

(** The header [Bearer] and a token, with blanks around it. *)
Definition bearer (authorization token : string) : Prop := ∃ rest, authorization = ("Bearer " ++ rest)%string ∧ token = TrimSpace rest.
Lemma bearer_token_cases missing invalid authorization :
  match bearer_token missing invalid authorization with
  | inr token => bearer authorization token ∧ token ≠ ""
  | inl e =>
      e = missing ∧ (TrimSpace authorization = "" ∨ bearer authorization "") ∨
      e = Errorf "%w: Authorization must use Bearer scheme" [invalid] [] ∧ TrimSpace authorization ≠ "" ∧ ∀ token, ¬ bearer authorization token
  end.
Proof.
  unfold bearer_token. case_bool_decide as Hb; [by left; split; [|left]|]. destruct (starts_with "Bearer " authorization) eqn:Es; cbn [negb].
  - unfold TrimPrefix. rewrite Es. pose proof (starts_with_split _ _ Es) as Hs. case_bool_decide as Ht.
    + left. split; [done|]. right. eexists. by split.
    + split; [|done]. eexists. by split.
  - right. split; [done|]. split; [done|]. intros token (rest & -> & _). by rewrite starts_with_self in Es.
Qed.
Lemma has_scope_in claim required : has_scope claim required = true ↔ required ∈ Fields claim.
Proof.
  unfold has_scope. rewrite existsb_exists. split.
  - intros (x & Hin%list_elem_of_In & Hx). by apply bool_decide_eq_true in Hx as ->.
  - intros Hin. exists required. split; [by apply list_elem_of_In|by apply bool_decide_eq_true].
Qed.

(** ** Methods that never panic *)

Definition no_panic {S A} (m : GoM S A) : Prop := ∀ c s, (m c s).1.1 ≠ Panic.

Section NoPanic.
Context {S : Type}.
Lemma no_panic_ret {A} (a : A) : no_panic (ret (S := S) a).
Proof. done. Qed.
Lemma no_panic_throw {A} e : no_panic (throw e : GoM S A).
Proof. done. Qed.
Lemma no_panic_fail_if e : no_panic (fail_if (S := S) e).
Proof. by destruct e. Qed.
Lemma no_panic_or_fail {A} f (r : GoError + A) : no_panic (or_fail (S := S) f r).
Proof. by destruct r. Qed.
Lemma no_panic_bind {A B} (m : GoM S A) (k : A → GoM S B) :
  no_panic m → (∀ a, no_panic (k a)) → no_panic (bind m k).
Proof.
  intros Hm Hk c s. unfold bind. specialize (Hm c s). destruct (m c s) as [[[a|e|] c'] s'] eqn:E; [apply Hk|done..].
Qed.
Lemma no_panic_if {A} (b : bool) (m k : GoM S A) : no_panic m → no_panic k → no_panic (if b then m else k).
Proof. by destruct b. Qed.
End NoPanic.

Lemma no_panic_readClock `{Timeline} `{IdLib} clock : no_panic (readClock clock).
Proof. done. Qed.
Lemma no_panic_nextString `{IdLib} g wrap : no_panic (nextString g wrap).
Proof. intros c w. unfold nextString. destruct (NextString _ _). apply no_panic_or_fail. Qed.
#[export] Hint Resolve no_panic_ret no_panic_throw no_panic_fail_if no_panic_or_fail no_panic_bind no_panic_if
  no_panic_readClock no_panic_nextString : gom.
