(* ===== verification/JwtModel.v ===== *)
(** A lawful implementation of [JwtLib] and of the generators, on which the token examples are evaluated:
    a token is the provider's secret, the time of composition and the options, written as digits. *)
From Stdlib Require Import Ascii String.
From S2P Require Import Prelude JwtLib.

(** ** Digits *)

Fixpoint digits (p : positive) : string :=
  match p with
  | xH => "." | xO q => String "0" (digits q) | xI q => String "1" (digits q)
  end.
Fixpoint undigits (s : string) : option positive :=
  match s with
  | String "0" t => xO <$> undigits t
  | String "1" t => xI <$> undigits t
  | String "." EmptyString => Some xH
  | _ => None
  end.
Lemma undigits_digits p : undigits (digits p) = Some p.
Proof. induction p as [p IH|p IH|]; cbn; [by rewrite IH..|done]. Qed.
Lemma digits_text p : token_text (digits p).
Proof.
  split; [by destruct p|]. induction p as [p IH|p IH|]; [cbn [digits list_ascii_of_string forallb]; by rewrite IH..|done].
Qed.

(** ** Countable options *)

#[export] Instance compose_option_eq_dec : EqDecision ComposeOption.
Proof. solve_decision. Defined.
Definition option_sum (o : ComposeOption) : (string + string) + ((string + Z) + (string + string * string)) :=
  match o with
  | WithIssuer s => inl (inl s) | WithSubject s => inl (inr s)
  | WithAudience s => inr (inl (inl s)) | WithExpiresAfter d => inr (inl (inr d))
  | WithJWTID s => inr (inr (inl s)) | WithClaim k v => inr (inr (inr (k, v)))
  end.
Definition sum_option (x : (string + string) + ((string + Z) + (string + string * string))) : ComposeOption :=
  match x with
  | inl (inl s) => WithIssuer s | inl (inr s) => WithSubject s
  | inr (inl (inl s)) => WithAudience s | inr (inl (inr d)) => WithExpiresAfter d
  | inr (inr (inl s)) => WithJWTID s | inr (inr (inr (k, v))) => WithClaim k v
  end.
#[export] Instance compose_option_countable : Countable ComposeOption.
Proof. apply (inj_countable' option_sum sum_option). by intros []. Defined.

(** ** The implementation *)

Definition model_types : JwtTypes := {| Provider := string; Reader := TokenClaims * Z |}.

Definition Item : Type := (Z + string) + ComposeOption.
Definition token_items (secret : string) (now : Z) (opts : list ComposeOption) : list Item :=
  inl (inl now) :: inl (inr secret) :: map inr opts.
Definition item_option (i : Item) : option ComposeOption := match i with inr o => Some o | inl _ => None end.

Definition model_compose (secret : string) (now : Z) (opts : list ComposeOption) : GoError + string :=
  inr (digits (encode (token_items secret now opts))).
Definition jwt_invalid : GoError := Sentinel "jwt.ErrInvalidToken" "jwt: invalid token".
Definition jwt_expired : GoError := Sentinel jwtErrExpiredToken "jwt: expired token".
Definition model_parse (secret : string) (now : Z) (popts : list ParseOption) (token : string)
    : GoError + (TokenClaims * Z) :=
  match undigits token ≫= decode (A := list Item) with
  | Some (inl (inl issued) :: inl (inr signer) :: items) =>
      let claims := claims_of (omap item_option items) in
      if bool_decide (signer = secret) && forallb (meets claims) popts then
        match tc_ttl claims with
        | Some ttl => if issued + ttl <=? now then inl jwt_expired else inr (claims, issued + ttl)
        | None => inr (claims, now)
        end
      else inl jwt_invalid
  | _ => inl jwt_invalid
  end.

Definition model_lib : @JwtLib model_types :=
  @Build_JwtLib model_types (λ _ secret _ _, inr secret) model_compose model_parse
    (λ r, tc_subject (fst r)) (λ r, tc_audience (fst r)) (λ r k, tc_claims (fst r) !! k)
    (λ r now, snd r - now).

Lemma items_options opts : omap item_option (map inr opts : list Item) = opts.
Proof. induction opts as [|o opts IH]; cbn; [done|by rewrite IH]. Qed.
Lemma model_parse_composed secret t t' opts popts tok :
  model_compose secret t opts = inr tok →
  model_parse secret t' popts tok =
    if forallb (meets (claims_of opts)) popts then
      match tc_ttl (claims_of opts) with
      | Some ttl => if t + ttl <=? t' then inl jwt_expired else inr (claims_of opts, t + ttl)
      | None => inr (claims_of opts, t')
      end
    else inl jwt_invalid.
Proof.
  intros [= <-]. unfold model_parse. rewrite undigits_digits. cbn [mbind option_bind].
  rewrite decode_encode. cbn [token_items]. rewrite items_options.
  by rewrite bool_decide_eq_true_2.
Qed.

Lemma model_laws : @JwtLaws model_types model_lib.
Proof.
  split; cbn [Compose Parse model_lib].
  - intros p t opts tok [= <-]. apply digits_text.
  - intros p t t' opts popts tok r _ Hc. rewrite (model_parse_composed _ _ _ _ _ _ Hc). intros Hr.
    repeat case_match; simplify_eq; done.
  - intros p t t' opts popts tok r _ Hc. rewrite (model_parse_composed _ _ _ _ _ _ Hc). intros Hr.
    repeat case_match; simplify_eq; done.
  - intros p t t' d opts popts tok _ Hc Hd Hm Ht Ht'. rewrite (model_parse_composed _ _ _ _ _ _ Hc), Hm, Hd.
    assert ((t + d <=? t') = false) as -> by (unfold Second in *; lia). eauto.
  - intros p t t' d opts popts tok _ Hc Hd Hm Ht Ht'. rewrite (model_parse_composed _ _ _ _ _ _ Hc), Hm, Hd.
    assert ((t + d <=? t') = true) as -> by lia. eauto.
Qed.

(** ** Generators that count *)

(** Identifiers end in a letter; drawing fails when nothing is left. *)
Definition letter (n : nat) : string := String (ascii_of_nat (97 + n mod 26)) "".
Definition counting_ids : IdLib :=
  {| Generator := unit; IdSource := nat * nat;
     NextString := λ _ source,
       match source with
       | (S left_, n) => (inr ("id-" ++ letter n)%string, (left_, S n))
       | (O, n) => (inl (plain_error "entropy exhausted"), (O, n))
       end |}.
Lemma letter_ascii n : ascii_only ("id-" ++ letter n) = true.
Proof.
  unfold letter. assert (n mod 26 < 26)%nat as Hlt by (apply Nat.mod_upper_bound; lia).
  revert Hlt. generalize (n mod 26)%nat. clear n. intros n Hn.
  by do 26 (destruct n as [|n]; [done|]); lia.
Qed.
Lemma counting_text (g : @Generator counting_ids) source v source' :
  NextString g source = (inr v, source') → ValidString v = true.
Proof.
  destruct source as [[|left_] n]; cbn; [done|]. intros [= <- _]. apply ascii_valid, letter_ascii.
Qed.
