(* ===== verification/IdJwtBoundary.v ===== *)
(** examples/id-jwt-boundary/internal/idjwtboundary: a signed token guards the creation of orders, whose
    identifiers are drawn inside the boundary. *)
From Stdlib Require Import Ascii String.
From S2P Require Import Prelude JwtLib JwtModel.

#[local] Arguments String.append !_ _ : simpl nomatch.

Definition DefaultIssuer : string := "id-jwt-boundary".
Definition DefaultAudience : string := "orders-api".
Definition defaultRole : string := "customer".
Definition defaultScope : string := "orders:create".

Definition ErrMissingToken : GoError := Sentinel "idjwtboundary.ErrMissingToken" "idjwtboundary: missing token".
Definition ErrInvalidToken : GoError := Sentinel "idjwtboundary.ErrInvalidToken" "idjwtboundary: invalid token".
Definition ErrExpiredToken : GoError := Sentinel "idjwtboundary.ErrExpiredToken" "idjwtboundary: expired token".
Definition ErrForbidden : GoError := Sentinel "idjwtboundary.ErrForbidden" "idjwtboundary: forbidden".
Definition ErrInvalidRequest : GoError := Sentinel "idjwtboundary.ErrInvalidRequest" "idjwtboundary: invalid request".

(** ** Data *)

Record TokenRequest := mkTokenRequest { tr_Subject : string; tr_Role : string; tr_Scopes : list string; tr_TTLSeconds : Z }.
Record TokenResponse := mkTokenResponse { tp_TokenType : string; tp_ExpiresInSeconds : Z; tp_Token : string }.
Record OrderRequest := mkOrderRequest { or_SKU : string; or_Quantity : Z }.
Record OrderResponse := mkOrderResponse {
  op_OrderID : string; op_RequestID : string; op_Subject : string; op_Role : string; op_Scope : string;
  op_SKU : string; op_Quantity : Z
}.
Record ErrorResponse := mkError { er_ErrorCode : string; er_Message : string }.
Record tokenClaims := mkTokenClaims { tk_subject : string; tk_role : string; tk_scope : string }.

(** [id.NewUUIDV7Generator]. *)
Class UUIDLib `{IdLib} := NewUUIDV7Generator : GoError + Generator.

Section Service.
Context `{Timeline} `{IdLib} `{!UUIDLib} `{JwtLib}.

Record Config := mkConfig {
  cf_issuer : string; cf_audience : string; cf_requiredRole : string; cf_requiredScope : string;
  cf_secret : string; cf_clock : Clock; cf_idGenerator : Generator
}.
Definition Option : Type := Config → Config.
Definition WithClock (clock : Ptr Clock) : Option := λ cfg,
  match clock with
  | Some clock => mkConfig (cf_issuer cfg) (cf_audience cfg) (cf_requiredRole cfg) (cf_requiredScope cfg)
                    (cf_secret cfg) clock (cf_idGenerator cfg)
  | None => cfg
  end.
Definition WithSecret (secret : string) : Option := λ cfg,
  mkConfig (cf_issuer cfg) (cf_audience cfg) (cf_requiredRole cfg) (cf_requiredScope cfg) secret (cf_clock cfg)
    (cf_idGenerator cfg).
Definition WithIDGenerator (generator : Ptr Generator) : Option := λ cfg,
  match generator with
  | Some g => mkConfig (cf_issuer cfg) (cf_audience cfg) (cf_requiredRole cfg) (cf_requiredScope cfg) (cf_secret cfg)
                (cf_clock cfg) g
  | None => cfg
  end.

Record Service := mkService {
  sv_provider : Provider; sv_idGenerator : Generator; sv_clock : Clock; sv_issuer : string;
  sv_audience : string; sv_requiredRole : string; sv_requiredScope : string
}.

Definition defaultConfig : GoError + Config :=
  try! generator := NewUUIDV7Generator in
  inr (mkConfig DefaultIssuer DefaultAudience defaultRole defaultScope "local-demo-secret-32-byte-value!!" id generator).
Definition apply_options (options : list (Ptr Option)) (cfg : Config) : Config :=
  fold_left (λ cfg option, match option with Some f => f cfg | None => cfg end) options cfg.
Definition NewService (options : list (Ptr Option)) : GoError + Service :=
  try! cfg := defaultConfig in
  let cfg := apply_options options cfg in
  if (String.length (cf_secret cfg) <? 32)%nat
  then inl (Errorf "%w: HMAC secret must be at least 32 bytes" [ErrInvalidRequest] [])
  else
    try! provider := NewFixedHMACProvider HS256 (cf_secret cfg) (cf_clock cfg) (inr "local-demo-key") in
    inr (mkService provider (cf_idGenerator cfg) (cf_clock cfg) (cf_issuer cfg) (cf_audience cfg)
           (cf_requiredRole cfg) (cf_requiredScope cfg)).

(** ** Helpers *)

Definition normalizeScopes (scopes : list string) : list string := normalize_scopes scopes.
Definition hasScope (scopeClaim required : string) : bool := has_scope scopeClaim required.
Definition bearerToken (authorization : string) : GoError + string :=
  bearer_token ErrMissingToken ErrInvalidToken authorization.

Definition validateTokenRequest (request : TokenRequest) : option GoError :=
  if bool_decide (TrimSpace (tr_Subject request) = "")
  then Some (Errorf "%w: subject is required" [ErrInvalidRequest] [])
  else if bool_decide (TrimSpace (tr_Role request) = "")
  then Some (Errorf "%w: role is required" [ErrInvalidRequest] [])
  else if bool_decide (len (normalizeScopes (tr_Scopes request)) = 0)
  then Some (Errorf "%w: at least one scope is required" [ErrInvalidRequest] [])
  else if tr_TTLSeconds request <=? 0
  then Some (Errorf "%w: ttl_seconds must be positive" [ErrInvalidRequest] [])
  else None.
Definition validateOrderRequest (request : OrderRequest) : option GoError :=
  if bool_decide (TrimSpace (or_SKU request) = "")
  then Some (Errorf "%w: sku is required" [ErrInvalidRequest] [])
  else if or_Quantity request <=? 0
  then Some (Errorf "%w: quantity must be positive" [ErrInvalidRequest] [])
  else None.

(** ** Operations *)

Definition token_options (s : Service) (request : TokenRequest) : list ComposeOption :=
  [WithIssuer (sv_issuer s); WithSubject (TrimSpace (tr_Subject request)); WithAudience (sv_audience s);
   WithExpiresAfter (seconds (tr_TTLSeconds request)); WithClaim "role" (TrimSpace (tr_Role request));
   WithClaim "scope" (Join_strings (normalizeScopes (tr_Scopes request)) " ")].
Definition IssueToken (s : Service) (request : TokenRequest) : GoM World TokenResponse :=
  do! fail_if (validateTokenRequest request);
  let! now := readClock (sv_clock s) in
  let! token := or_fail (λ _, Errorf "%w: compose token" [ErrInvalidToken] [])
                  (Compose (sv_provider s) now (token_options s request)) in
  ret (mkTokenResponse "Bearer" (tr_TTLSeconds request) token).

Definition parse_error (e : GoError) : GoError :=
  if errors_Is e jwtErrExpiredToken then Errorf "%w: token expired" [ErrExpiredToken] []
  else Errorf "%w: token could not be verified" [ErrInvalidToken] [].
Definition parse_options (s : Service) : list ParseOption :=
  [WithExpectedIssuer (sv_issuer s); WithExpectedAudience (sv_audience s); WithExpirationRequired].
Definition claim (reader : Reader) (name : string) : string := default "" (ClaimString reader name).
Definition forbidden : GoError := Errorf "%w: required role or scope missing" [ErrForbidden] [].
Definition verifyAuthorization (s : Service) (authorization : string) : GoM World tokenClaims :=
  let! token := or_fail id (bearerToken authorization) in
  let! now := readClock (sv_clock s) in
  let! reader := or_fail parse_error (Parse (sv_provider s) now (parse_options s) token) in
  let claims := mkTokenClaims (Subject reader) (claim reader "role") (claim reader "scope") in
  if bool_decide (tk_subject claims = "") || bool_decide (tk_role claims ≠ sv_requiredRole s)
     || negb (hasScope (tk_scope claims) (sv_requiredScope s))
  then throw forbidden else ret claims.

Definition CreateOrder (s : Service) (authorization : string) (request : OrderRequest) : GoM World OrderResponse :=
  let! claims := verifyAuthorization s authorization in
  do! fail_if (validateOrderRequest request);
  let! orderID := nextString (sv_idGenerator s) (λ e, Errorf "generate order id: %w" [e] []) in
  let! requestID := nextString (sv_idGenerator s) (λ e, Errorf "generate request id: %w" [e] []) in
  ret (mkOrderResponse orderID requestID (tk_subject claims) (tk_role claims) (sv_requiredScope s)
         (TrimSpace (or_SKU request)) (or_Quantity request)).

(** ** HTTP *)

Definition publicError (err : GoError) : Z * ErrorResponse :=
  if errors_Is err "idjwtboundary.ErrMissingToken"
  then (401, mkError "missing_token" "A bearer token is required.")
  else if errors_Is err "idjwtboundary.ErrExpiredToken"
  then (401, mkError "expired_token" "The bearer token has expired.")
  else if errors_Is err "idjwtboundary.ErrInvalidToken"
  then (401, mkError "invalid_token" "The bearer token could not be verified.")
  else if errors_Is err "idjwtboundary.ErrForbidden"
  then (403, mkError "forbidden" "The verified token is not allowed to create orders.")
  else if errors_Is err "idjwtboundary.ErrInvalidRequest"
  then (400, mkError "invalid_request" "The request body is invalid.")
  else (500, mkError "internal_error" "The order boundary could not process the request.").

Inductive Body :=
  | BodyHealth | BodyToken (r : TokenResponse) | BodyOrder (r : OrderResponse) | BodyError (r : ErrorResponse).
(** The routes; gin binds a JSON body, after [MaxBytesReader], to a request or an error. *)
Inductive HttpRequest :=
  | GetHealthz | PostTokens (bound : GoError + TokenRequest)
  | PostOrders (authorization : string) (bound : GoError + OrderRequest).

Definition writeError (err : GoError) : Z * Body := let '(status, response) := publicError err in (status, BodyError response).
Definition respond {A} (status : Z) (body : A → Body) (m : GoM World A) : GoM World (Z * Body) :=
  λ c w, match m c w with
         | (Val a, c', w') => (Val (status, body a), c', w')
         | (Fail e, c', w') => (Val (writeError e), c', w')
         | (Panic, c', w') => (Panic, c', w')
         end.
Definition bind_body {A} (bound : GoError + A) (k : A → GoM World (Z * Body)) : GoM World (Z * Body) :=
  match bound with inl _ => ret (writeError ErrInvalidRequest) | inr a => k a end.
Definition serve (s : Service) (request : HttpRequest) : GoM World (Z * Body) :=
  match request with
  | GetHealthz => ret (200, BodyHealth)
  | PostTokens bound => bind_body bound (λ request, respond 200 BodyToken (IssueToken s request))
  | PostOrders authorization bound =>
      bind_body bound (λ request, respond 201 BodyOrder (CreateOrder s authorization request))
  end.
End Service.

(** ** What the boundary promises *)

Section Promises.
Context `{TL : Timeline} `{IL : IdLib} `{UL : !UUIDLib} `{JT : JwtTypes} `{JL : !JwtLib} `{LW : !JwtLaws}.

(** The options the package offers leave its policy alone. *)
Inductive offered : Ptr Option → Prop :=
  | offered_nil : offered None
  | offered_clock clock : offered (Some (WithClock clock))
  | offered_secret secret : offered (Some (WithSecret secret))
  | offered_generator g : offered (Some (WithIDGenerator g)).
Record standard (s : Service) : Prop := {
  std_issuer : sv_issuer s = DefaultIssuer; std_audience : sv_audience s = DefaultAudience;
  std_role : sv_requiredRole s = defaultRole; std_scope : sv_requiredScope s = defaultScope
}.
Lemma offered_policy options cfg :
  Forall offered options →
  let cfg' := apply_options options cfg in
  cf_issuer cfg' = cf_issuer cfg ∧ cf_audience cfg' = cf_audience cfg ∧
  cf_requiredRole cfg' = cf_requiredRole cfg ∧ cf_requiredScope cfg' = cf_requiredScope cfg.
Proof.
  intros Hf. revert cfg. induction Hf as [|o options Ho _ IH]; intros cfg; [done|].
  destruct Ho as [|[clock|]|secret|[g|]].
  - exact (IH cfg).
  - exact (IH (WithClock (Some clock) cfg)).
  - exact (IH cfg).
  - exact (IH (WithSecret secret cfg)).
  - exact (IH (WithIDGenerator (Some g) cfg)).
  - exact (IH cfg).
Qed.
Lemma boundary_standard options s : Forall offered options → NewService options = inr s → standard s.
Proof.
  intros Ho. unfold NewService, defaultConfig.
  intros (cfg & (g & _ & [= <-])%and_then_inr & H)%and_then_inr.
  pose proof (offered_policy options (mkConfig DefaultIssuer DefaultAudience defaultRole defaultScope
    "local-demo-secret-32-byte-value!!" id g) Ho) as (H1 & H2 & H3 & H4).
  case_match; [done|]. apply and_then_inr in H as (provider & _ & [= <-]).
  split; cbn; [by rewrite H1|by rewrite H2|by rewrite H3|by rewrite H4].
Qed.

Definition now_of (s : Service) (w : World) : Z := reading (sv_clock s) (wd_reads w).
Definition request_text (request : TokenRequest) : Prop :=
  ValidString (TrimSpace (tr_Subject request)) = true ∧ ValidString (TrimSpace (tr_Role request)) = true ∧
  ValidString (Join_strings (normalizeScopes (tr_Scopes request)) " ") = true.

Lemma IssueToken_run s request c w response c' w' :
  standard s → request_text request → IssueToken s request c w = (Val response, c', w') →
  validateTokenRequest request = None ∧ options_text (token_options s request) ∧
  Compose (sv_provider s) (now_of s w) (token_options s request) = inr (tp_Token response).
Proof.
  intros [E1 E2 _ _] (H1 & H2 & H3) H. unfold IssueToken in H.
  apply bind_inv in H as [([] & c1 & w1 & (-> & -> & [[_ Hv]|(? & [=] & _)])%fail_if_run & H)|[(? & [=] & _)|([=] & _)]].
  apply bind_inv in H as [(now & c2 & w2 & [= <- <- <-] & H)|[(? & [=] & _)|([=] & _)]].
  apply bind_inv in H as [(tok & c3 & w3 & (-> & -> & [(? & [= <-] & Hc)|(? & [=] & _)])%or_fail_run & H)|[(? & [=] & _)|([=] & _)]].
  injection H as <- _ _. split; [done|]. split; [|done].
  unfold options_text, token_options. cbn [forallb option_text]. by rewrite E1, E2, H1, H2, H3.
Qed.

Lemma nextString_inv g wrap c (w : World) o c' w' :
  nextString g wrap c w = (o, c', w') →
  c' = c ∧ wd_reads w' = wd_reads w ∧
  ((∃ v, o = Val v ∧ NextString g (wd_ids w) = (inr v, wd_ids w')) ∨
   ∃ e, o = Fail (wrap e) ∧ NextString g (wd_ids w) = (inl e, wd_ids w')).
Proof.
  unfold nextString. destruct (NextString g (wd_ids w)) as [r ids].
  intros (-> & -> & [(v & -> & ->)|(e & -> & ->)])%or_fail_run; cbn; eauto 8.
Qed.

(** What a header shows: a bearer token that parses for the boundary's issuer and audience and before it expires. *)
Definition parsed (s : Service) (authorization : string) (w : World) (result : GoError + Reader) : Prop :=
  ∃ token, bearer authorization token ∧ token ≠ "" ∧
    Parse (sv_provider s) (now_of s w)
      [WithExpectedIssuer (sv_issuer s); WithExpectedAudience (sv_audience s); WithExpirationRequired] token = result.
(** Whom the boundary lets in: a subject with the required role, whose scopes hold the required one. *)
Definition claimed (reader : Reader) (name : string) : string := match ClaimString reader name with Some value => value | None => "" end.
Definition permitted (s : Service) (reader : Reader) : Prop :=
  Subject reader ≠ "" ∧ claimed reader "role" = sv_requiredRole s ∧ sv_requiredScope s ∈ Fields (claimed reader "scope").
Definition orderable (request : OrderRequest) : Prop := TrimSpace (or_SKU request) ≠ "" ∧ 0 < or_Quantity request.
(** Why an order is refused, by the error it is refused with and the status of the answer. *)
Inductive refusal (s : Service) (authorization : string) (request : OrderRequest) (w : World) : string → Z → Prop :=
  | no_header : TrimSpace authorization = "" → refusal s authorization request w "idjwtboundary.ErrMissingToken" 401
  | no_token : bearer authorization "" → refusal s authorization request w "idjwtboundary.ErrMissingToken" 401
  | no_bearer : TrimSpace authorization ≠ "" → (∀ token, ¬ bearer authorization token) →
      refusal s authorization request w "idjwtboundary.ErrInvalidToken" 401
  | expired e : parsed s authorization w (inl e) → errors_Is e "jwt.ErrExpiredToken" = true →
      refusal s authorization request w "idjwtboundary.ErrExpiredToken" 401
  | not_parsed e : parsed s authorization w (inl e) → errors_Is e "jwt.ErrExpiredToken" = false →
      refusal s authorization request w "idjwtboundary.ErrInvalidToken" 401
  | not_permitted reader : parsed s authorization w (inr reader) → ¬ permitted s reader →
      refusal s authorization request w "idjwtboundary.ErrForbidden" 403
  | not_orderable reader : parsed s authorization w (inr reader) → permitted s reader → ¬ orderable request →
      refusal s authorization request w "idjwtboundary.ErrInvalidRequest" 400.

Lemma validate_order request : validateOrderRequest request = None ↔ orderable request.
Proof.
  unfold validateOrderRequest, orderable. case_bool_decide; [split; [done|tauto]|]. destruct (Z.leb_spec (or_Quantity request) 0); split; (done || lia).
Qed.
Lemma boundary_verify_run s authorization c w o c' w' :
  verifyAuthorization s authorization c w = (o, c', w') →
  wd_ids w' = wd_ids w ∧
  ((∃ reader, parsed s authorization w (inr reader) ∧ permitted s reader ∧
      o = Val (mkTokenClaims (Subject reader) (sv_requiredRole s) (claimed reader "scope"))) ∨
    ∃ e name status, o = Fail e ∧ errors_Is e name = true ∧ (publicError e).1 = status ∧
      ∀ request, refusal s authorization request w name status).
Proof.
  assert (∀ e name status, errors_Is e name = true → (publicError e).1 = status → (∀ request, refusal s authorization request w name status) →
    ∃ e' name status, @Fail tokenClaims e = Fail e' ∧ errors_Is e' name = true ∧ (publicError e').1 = status ∧
      ∀ request, refusal s authorization request w name status) as Hrefuse by (intros e name status; by exists e, name, status).
  unfold verifyAuthorization. pose proof (bearer_token_cases ErrMissingToken ErrInvalidToken authorization) as Hb. fold (bearerToken authorization) in Hb.
  destruct (bearerToken authorization) as [e|token]; unfold bind; cbn [or_fail throw ret].
  { intros [= <- _ <-]. split; [done|]. right. destruct Hb as [(-> & [Hb|Hb])|(-> & Hne & Hb)].
    - eapply (Hrefuse _ "idjwtboundary.ErrMissingToken"); [done|done|]. intros request. by apply no_header.
    - eapply (Hrefuse _ "idjwtboundary.ErrMissingToken"); [done|done|]. intros request. by apply no_token.
    - eapply (Hrefuse _ "idjwtboundary.ErrInvalidToken"); [done|done|]. intros request. by apply no_bearer. }
  destruct Hb as [Hb Hne]. unfold readClock. fold (now_of s w).
  destruct (Parse (sv_provider s) (now_of s w) (parse_options s) token) as [e|reader] eqn:Hp; cbn [or_fail throw ret].
  { intros [= <- _ <-]. split; [done|]. right. assert (parsed s authorization w (inl e)) as He by by exists token.
    unfold parse_error. destruct (errors_Is e jwtErrExpiredToken) eqn:Ee.
    - eapply (Hrefuse _ "idjwtboundary.ErrExpiredToken"); [done|done|]. intros request. by eapply expired.
    - eapply (Hrefuse _ "idjwtboundary.ErrInvalidToken"); [done|done|]. intros request. by eapply not_parsed. }
  assert (parsed s authorization w (inr reader)) as Hr by by exists token.
  cbn [tk_subject tk_role tk_scope]. change (claim reader) with (claimed reader).
  destruct (_ || _) eqn:Eg; intros [= <- _ <-]; (split; [done|]); [right|left].
  - eapply (Hrefuse _ "idjwtboundary.ErrForbidden"); [done|done|]. intros request. apply not_permitted with reader; [done|].
    intros (H1 & H2 & H3). unfold hasScope in Eg. rewrite (proj2 (has_scope_in _ _) H3), bool_decide_false, bool_decide_false in Eg by tauto. done.
  - rewrite !orb_false_iff, !bool_decide_eq_false, negb_false_iff in Eg. destruct Eg as [[H1 H2%dec_stable] H3%has_scope_in].
    exists reader. split; [done|]. split; [done|]. by rewrite H2.
Qed.

(** C38: No order without a verified token: an order is created only when the header carries a bearer token that the
    provider parses for the issuer and audience of the boundary, with an expiry, whose subject is not empty, whose role
    is the required one and whose scopes hold the required one, and when the request names an SKU and a positive
    quantity; it is then the request's order for that subject, under the next two identifiers of the generator. A request
    that is not so is refused with the error and the status of what it lacks, and draws no identifier; only the generator
    can fail an order that is verified, and nothing panics. *)
Theorem order_needs_verified_token s authorization request c w o c' w' :
  CreateOrder s authorization request c w = (o, c', w') →
  match o with
  | Val r =>
      orderable request ∧ op_SKU r = TrimSpace (or_SKU request) ∧ op_Quantity r = or_Quantity request ∧
      (∃ reader, parsed s authorization w (inr reader) ∧ permitted s reader ∧
         op_Subject r = Subject reader ∧ op_Role r = sv_requiredRole s ∧ op_Scope r = sv_requiredScope s) ∧
      ∃ ids, NextString (sv_idGenerator s) (wd_ids w) = (inr (op_OrderID r), ids) ∧
             NextString (sv_idGenerator s) ids = (inr (op_RequestID r), wd_ids w')
  | Fail e =>
      (wd_ids w' = wd_ids w ∧ ∃ name status, refusal s authorization request w name status ∧
         errors_Is e name = true ∧ (publicError e).1 = status) ∨
      ∃ e' what ids, e = Errorf (String.append "generate " what) [e'] [] ∧
        NextString (sv_idGenerator s) ids = (inl e', wd_ids w') ∧ orderable request ∧
        ∃ reader, parsed s authorization w (inr reader) ∧ permitted s reader
  | Panic => False
  end.
Proof.
  unfold CreateOrder. unfold bind at 1. destruct (verifyAuthorization s authorization c w) as [[o1 c1] w1] eqn:Ev.
  apply boundary_verify_run in Ev as [Hi [(reader & Hp & Hper & ->)|(e & name & status & -> & He & Hs & Hr)]].
  2: { intros [= <- _ <-]. left. split; [done|]. by exists name, status. }
  unfold bind at 1. destruct (validateOrderRequest request) as [e|] eqn:Hv; cbn [fail_if throw ret].
  { intros [= <- _ <-]. left. split; [done|]. exists "idjwtboundary.ErrInvalidRequest", 400. split.
    - apply not_orderable with reader; [done..|]. intros Ho%validate_order. congruence.
    - unfold validateOrderRequest in Hv. repeat case_match; simplify_eq; by split. }
  apply validate_order in Hv. intros H.
  assert (∃ reader, parsed s authorization w (inr reader) ∧ permitted s reader) as Hverified by eauto.
  apply bind_inv in H as [(oid & c3 & w3 & (-> & _ & [(? & [= <-] & H1)|(? & [=] & _)])%nextString_inv & H)|
    [(e & -> & (_ & _ & [(? & [=] & _)|(e' & [= ->] & H1)])%nextString_inv)|[-> (_ & _ & [(? & [=] & _)|(? & [=] & _)])%nextString_inv]]].
  2: { right. by exists e', "order id: %w", (wd_ids w1). }
  apply bind_inv in H as [(rid & c4 & w4 & (-> & _ & [(? & [= <-] & H2)|(? & [=] & _)])%nextString_inv & H)|
    [(e & -> & (_ & _ & [(? & [=] & _)|(e' & [= ->] & H2)])%nextString_inv)|[-> (_ & _ & [(? & [=] & _)|(? & [=] & _)])%nextString_inv]]].
  2: { right. by exists e', "request id: %w", (wd_ids w3). }
  injection H as <- _ <-. cbn. rewrite Hi in H1. split_and!; [done..| |eauto]. by exists reader.
Qed.

Lemma boundary_token_shows s request reader :
  shows reader (claims_of (token_options s request)) →
  Subject reader = TrimSpace (tr_Subject request) ∧ claim reader "role" = TrimSpace (tr_Role request) ∧
  claim reader "scope" = Join_strings (normalizeScopes (tr_Scopes request)) " ".
Proof. intros (Hsub & _ & Hc). unfold claim. rewrite Hsub, !Hc by compute_done. by vm_compute. Qed.

(** A token issued by [IssueToken] creates orders, from its issue to a second before its lifetime
    ends, exactly when its role is the required one and one of its scopes contains the required scope:
    a valid request then becomes an order for the token's subject under the next two identifiers, and
    otherwise the answer is [ErrForbidden] and no identifier is drawn. *)
Theorem issued_token_places_orders s options request c w response c1 w1 order c2 w2 orderID ids requestID ids' :
  Forall offered options → NewService options = inr s →
  request_text request → IssueToken s request c w = (Val response, c1, w1) →
  now_of s w <= now_of s w2 → now_of s w2 + Second <= now_of s w + seconds (tr_TTLSeconds request) →
  validateOrderRequest order = None → NextString (sv_idGenerator s) (wd_ids w2) = (inr orderID, ids) →
  NextString (sv_idGenerator s) ids = (inr requestID, ids') →
  let permitted := bool_decide (TrimSpace (tr_Role request) = defaultRole) &&
    existsb (λ scope, has_scope (TrimSpace scope) defaultScope) (tr_Scopes request) in
  CreateOrder s (String.append "Bearer " (tp_Token response)) order c2 w2 =
    (if permitted
     then Val (mkOrderResponse orderID requestID (TrimSpace (tr_Subject request)) defaultRole defaultScope
                 (TrimSpace (or_SKU order)) (or_Quantity order))
     else Fail forbidden, c2, mkWorld (S (wd_reads w2)) (if permitted then ids' else wd_ids w2)).
Proof.
  intros Hoffered Hnew Htext Hissue H1 H2 Horder Hid1 Hid2 permitted.
  pose proof (boundary_standard _ _ Hoffered Hnew) as Hstd.
  apply IssueToken_run in Hissue as (Hval & Hopt & Hc); [|done..].
  destruct (parse_accepts _ _ (now_of s w2) (seconds (tr_TTLSeconds request)) _ (parse_options s) _ Hopt Hc)
    as [reader Hp]; [done| |done|done|].
  { cbn. rewrite !bool_decide_eq_true_2 by (by eauto || (by left)). done. }
  pose proof (parse_shows _ _ _ _ _ _ _ Hopt Hc Hp) as (Hsub & Hrole & Hscope)%boundary_token_shows.
  assert (TrimSpace (tr_Subject request) ≠ "") as Hne.
  { unfold validateTokenRequest in Hval. by destruct (bool_decide_reflect (TrimSpace (tr_Subject request) = "")). }
  unfold CreateOrder, verifyAuthorization, bearerToken.
  rewrite (bearer_of_token _ _ _ (compose_text _ _ _ _ Hc)). unfold bind at 1 2 3. cbn [or_fail].
  unfold readClock, ret at 1, bind at 1. fold (now_of s w2). rewrite Hp. cbn [or_fail]. unfold ret at 1.
  rewrite Hsub, Hrole, Hscope. cbn [tk_subject tk_role tk_scope]. rewrite (bool_decide_eq_false_2 _ Hne).
  subst permitted. unfold hasScope, normalizeScopes. destruct Hstd as [_ _ -> ->]. rewrite has_scope_join.
  destruct (bool_decide_reflect (TrimSpace (tr_Role request) = defaultRole)) as [->|Hr];
    [|by rewrite bool_decide_eq_true_2].
  rewrite (bool_decide_eq_false_2 (_ ≠ _)) by congruence. cbn [orb andb].
  destruct (existsb _ _); [|done]. cbn [negb]. rewrite Horder.
  unfold bind, fail_if, nextString, ret. cbn [wd_ids wd_reads]. rewrite Hid1. cbn. rewrite Hid2. done.
Qed.
End Promises.

(** ** Witnesses *)

Section Demo.
#[local] Existing Instances model_types model_lib model_laws counting_ids.
#[local] Instance every_second : Timeline := λ n, Z.of_nat n * Second.
#[local] Instance demo_uuid : UUIDLib := inr tt.

Definition demo : Service :=
  mkService "0123456789abcdef0123456789abcdef" tt id DefaultIssuer DefaultAudience defaultRole defaultScope.
Definition demo_options : list (Ptr Option) := [Some (WithSecret "0123456789abcdef0123456789abcdef"); Some (WithClock None)].
Definition world_at (n : nat) : World := mkWorld n (20, 0)%nat.
Definition customer : TokenRequest := mkTokenRequest " customer-7 " "customer" ["orders:read orders:create"] 60.
Definition two_books : OrderRequest := mkOrderRequest " book-1 " 2.
Definition demo_token : string :=
  match Compose (sv_provider demo) 0 (token_options demo customer) with inr t => t | inl _ => "" end.

Lemma boundary_demo_issued :
  IssueToken demo customer Background (world_at 0) = (Val (mkTokenResponse "Bearer" 60 demo_token), Background, world_at 1).
Proof. by vm_compute. Qed.
Lemma demo_configured : Forall offered demo_options ∧ NewService demo_options = inr demo.
Proof. split; [repeat constructor|by vm_compute]. Qed.

Lemma issued_token_places_orders_witness :
  CreateOrder demo (String.append "Bearer " demo_token) two_books Background (world_at 30) =
    (Val (mkOrderResponse "id-a" "id-b" "customer-7" "customer" "orders:create" "book-1" 2), Background,
     mkWorld 31 (18, 2)%nat).
Proof.
  destruct demo_configured as [Ho Hn]. assert (request_text customer) as Ht by by vm_compute.
  pose proof (issued_token_places_orders demo demo_options customer Background (world_at 0) _ _ _ two_books
    Background (world_at 30) "id-a" (19, 1)%nat "id-b" (18, 2)%nat Ho Hn Ht boundary_demo_issued) as H.
  cbn [tp_Token] in H. rewrite H; [reflexivity|by vm_compute..].
Defined.

Lemma order_needs_verified_token_witness :
  ∃ reader, parsed demo (String.append "Bearer " demo_token) (world_at 30) (inr reader) ∧ Subject reader = "customer-7".
Proof.
  assert (CreateOrder demo (String.append "Bearer " demo_token) two_books Background (world_at 30) =
    (Val (mkOrderResponse "id-a" "id-b" "customer-7" "customer" "orders:create" "book-1" 2), Background, mkWorld 31 (18, 2)%nat)) as Hr
    by (vm_compute; reflexivity).
  destruct (order_needs_verified_token _ _ _ _ _ _ _ _ Hr) as (_ & _ & _ & (reader & Hp & _ & Hs & _) & _).
  exists reader. split; [exact Hp|]. symmetry. exact Hs.
Defined.
End Demo.
