(* ===== verification/TokenRefresh.v ===== *)
(** examples/token-refresh-claims/internal/tokenrefresh: sessions of an access and a refresh token, the
    validation of their claims, and the exchange of a refresh token for an access token. *)
From Stdlib Require Import Ascii String.
From S2P Require Import Prelude JwtLib.

Definition DefaultIssuer : string := "token-refresh-claims".
Definition AccessAudience : string := "session-api".
Definition RefreshAudience : string := "token-refresh".
Definition TokenUseAccess : string := "access".
Definition TokenUseRefresh : string := "refresh".
Definition defaultRole : string := "customer".
Definition defaultScope : string := "profile:read".
Definition defaultAccessTTL : Z := 5 * Minute.
Definition defaultRefreshTTL : Z := 24 * Hour.

Definition ErrMissingToken : GoError := Sentinel "tokenrefresh.ErrMissingToken" "tokenrefresh: missing token".
Definition ErrInvalidToken : GoError := Sentinel "tokenrefresh.ErrInvalidToken" "tokenrefresh: invalid token".
Definition ErrExpiredToken : GoError := Sentinel "tokenrefresh.ErrExpiredToken" "tokenrefresh: expired token".
Definition ErrInvalidClaims : GoError := Sentinel "tokenrefresh.ErrInvalidClaims" "tokenrefresh: invalid claims".
Definition ErrInvalidRequest : GoError := Sentinel "tokenrefresh.ErrInvalidRequest" "tokenrefresh: invalid request".

(** ** Data *)

Record SessionRequest := mkSessionRequest {
  rq_Subject : string; rq_Role : string; rq_Scopes : list string; rq_TTLSeconds : Z
}.
Record SessionResponse := mkSessionResponse {
  sr_TokenType : string; sr_AccessExpiresInSeconds : Z; sr_RefreshExpiresInSeconds : Z;
  sr_AccessToken : string; sr_RefreshToken : string; sr_SessionID : string
}.
Record RefreshRequest := mkRefreshRequest { rf_RefreshToken : string }.
Record AccessTokenResponse := mkAccessTokenResponse {
  ar_TokenType : string; ar_ExpiresInSeconds : Z; ar_AccessToken : string; ar_SessionID : string
}.
Record ProfileResponse := mkProfile {
  pr_Subject : string; pr_Role : string; pr_Scope : string; pr_SessionID : string;
  pr_AccessExpiresInSeconds : Z
}.
Record ErrorResponse := mkError { er_ErrorCode : string; er_Message : string }.
Record accessClaims := mkAccessClaims {
  ac_subject : string; ac_role : string; ac_scope : string; ac_sessionID : string; ac_expiresIn : Z
}.
Record refreshClaims := mkRefreshClaims { rc_subject : string; rc_sessionID : string }.

(** [crypto/rand]: sixteen bytes, or an error. *)
Class CryptoRand `{IdLib} := rand_Read : IdSource → (GoError + list ascii) * IdSource.

Section Service.
Context `{Timeline} `{IdLib} `{!CryptoRand} `{JwtLib}.

(** The values of the interface: the package's own generator, or a caller's. *)
Inductive stringGenerator := randomIDGenerator | Custom (g : Generator).

(** [hex.EncodeToString]. *)
Definition hex_byte (b : ascii) : list ascii :=
  let n := nat_of_ascii b in [hex_digit (n / 16); hex_digit (n mod 16)].
Definition hex_string (bytes : list ascii) : string := string_of_list_ascii (concat (map hex_byte bytes)).
Definition random_NextString (source : IdSource) : (GoError + string) * IdSource :=
  match rand_Read source with
  | (inl e, source) => (inl e, source)
  | (inr bytes, source) => (inr (hex_string bytes), source)
  end.
Definition generate (g : stringGenerator) (wrap : GoError → GoError) : GoM World string :=
  match g with
  | Custom g => nextString g wrap
  | randomIDGenerator =>
      λ c w, let '(r, ids) := random_NextString (wd_ids w) in or_fail wrap r c (mkWorld (wd_reads w) ids)
  end.

Record Config := mkConfig {
  cf_issuer : string; cf_accessAudience : string; cf_refreshAudience : string; cf_requiredRole : string;
  cf_requiredScope : string; cf_secret : string; cf_clock : Clock; cf_idGenerator : stringGenerator
}.
Definition Option : Type := Config → Config.

Definition WithClock (clock : Ptr Clock) : Option := λ cfg,
  match clock with
  | Some clock => mkConfig (cf_issuer cfg) (cf_accessAudience cfg) (cf_refreshAudience cfg) (cf_requiredRole cfg)
                    (cf_requiredScope cfg) (cf_secret cfg) clock (cf_idGenerator cfg)
  | None => cfg
  end.
Definition WithSecret (secret : string) : Option := λ cfg,
  mkConfig (cf_issuer cfg) (cf_accessAudience cfg) (cf_refreshAudience cfg) (cf_requiredRole cfg)
    (cf_requiredScope cfg) secret (cf_clock cfg) (cf_idGenerator cfg).
Definition WithIDGenerator (generator : Ptr stringGenerator) : Option := λ cfg,
  match generator with
  | Some g => mkConfig (cf_issuer cfg) (cf_accessAudience cfg) (cf_refreshAudience cfg) (cf_requiredRole cfg)
                (cf_requiredScope cfg) (cf_secret cfg) (cf_clock cfg) g
  | None => cfg
  end.

Record Service := mkService {
  sv_provider : Provider; sv_idGenerator : stringGenerator; sv_clock : Clock; sv_issuer : string;
  sv_accessAudience : string; sv_refreshAudience : string; sv_requiredRole : string; sv_requiredScope : string
}.

Definition defaultConfig : Config :=
  mkConfig DefaultIssuer AccessAudience RefreshAudience defaultRole defaultScope
    "local-demo-secret-32-byte-value!!" id randomIDGenerator.

(** A nil option is skipped. *)
Definition apply_options (options : list (Ptr Option)) (cfg : Config) : Config :=
  fold_left (λ cfg option, match option with Some f => f cfg | None => cfg end) options cfg.
Definition NewService (options : list (Ptr Option)) : GoError + Service :=
  let cfg := apply_options options defaultConfig in
  if (String.length (cf_secret cfg) <? 32)%nat
  then inl (Errorf "%w: HMAC secret must be at least 32 bytes" [ErrInvalidRequest] [])
  else
    try! provider := NewFixedHMACProvider HS256 (cf_secret cfg) (cf_clock cfg) (inr "local-demo-key") in
    inr (mkService provider (cf_idGenerator cfg) (cf_clock cfg) (cf_issuer cfg) (cf_accessAudience cfg)
           (cf_refreshAudience cfg) (cf_requiredRole cfg) (cf_requiredScope cfg)).

(** ** Helpers *)

Definition normalizeScopes (scopes : list string) : list string := normalize_scopes scopes.
Definition hasScope (scopeClaim required : string) : bool := has_scope scopeClaim required.
Definition hasAudience (audiences : list string) (required : string) : bool :=
  existsb (λ audience, bool_decide (audience = required)) audiences.
Definition bearerToken (authorization : string) : GoError + string :=
  bearer_token ErrMissingToken ErrInvalidToken authorization.

Definition validateSessionRequest (request : SessionRequest) : option GoError :=
  if bool_decide (TrimSpace (rq_Subject request) = "")
  then Some (Errorf "%w: subject is required" [ErrInvalidRequest] [])
  else if bool_decide (TrimSpace (rq_Role request) = "")
  then Some (Errorf "%w: role is required" [ErrInvalidRequest] [])
  else if bool_decide (len (normalizeScopes (rq_Scopes request)) = 0)
  then Some (Errorf "%w: at least one scope is required" [ErrInvalidRequest] [])
  else if rq_TTLSeconds request <=? 0
  then Some (Errorf "%w: ttl_seconds must be positive" [ErrInvalidRequest] [])
  else None.

(** ** Issuing *)

Definition nextID (s : Service) : GoM World string :=
  generate (sv_idGenerator s) (λ e, Errorf "generate token id: %w" [e] []).

(** The provider was given the service's clock. *)
Definition access_options (s : Service) (subject role scope sessionID jti : string) (ttl : Z) : list ComposeOption :=
  [WithIssuer (sv_issuer s); WithSubject subject; WithAudience (sv_accessAudience s); WithExpiresAfter ttl;
   WithJWTID jti; WithClaim "token_use" TokenUseAccess; WithClaim "role" role; WithClaim "scope" scope;
   WithClaim "session_id" sessionID].
Definition issueAccessToken (s : Service) (subject role scope sessionID : string) (ttl : Z) : GoM World string :=
  let! jti := nextID s in
  let! now := readClock (sv_clock s) in
  or_fail (λ _, Errorf "%w: compose access token" [ErrInvalidToken] [])
    (Compose (sv_provider s) now (access_options s subject role scope sessionID jti ttl)).

Definition refresh_options (s : Service) (subject sessionID jti : string) : list ComposeOption :=
  [WithIssuer (sv_issuer s); WithSubject subject; WithAudience (sv_refreshAudience s);
   WithExpiresAfter defaultRefreshTTL; WithJWTID jti; WithClaim "token_use" TokenUseRefresh;
   WithClaim "session_id" sessionID].
Definition IssueSession (s : Service) (request : SessionRequest) : GoM World SessionResponse :=
  do! fail_if (validateSessionRequest request);
  let ttl := seconds (rq_TTLSeconds request) in
  let subject := TrimSpace (rq_Subject request) in
  let role := TrimSpace (rq_Role request) in
  let scope := Join_strings (normalizeScopes (rq_Scopes request)) " " in
  let! sessionID := nextID s in
  let! accessToken := issueAccessToken s subject role scope sessionID ttl in
  let! refreshJTI := nextID s in
  let! now := readClock (sv_clock s) in
  let! refreshToken := or_fail (λ _, Errorf "%w: compose refresh token" [ErrInvalidToken] [])
                         (Compose (sv_provider s) now (refresh_options s subject sessionID refreshJTI)) in
  ret (mkSessionResponse "Bearer" (rq_TTLSeconds request) (Z.quot defaultRefreshTTL Second) accessToken
         refreshToken sessionID).

(** ** Validation *)

Definition parse_error (e : GoError) : GoError :=
  if errors_Is e jwtErrExpiredToken then Errorf "%w: token expired" [ErrExpiredToken] []
  else Errorf "%w: token could not be verified" [ErrInvalidToken] [].
Definition parse_options (s : Service) : list ParseOption := [WithExpectedIssuer (sv_issuer s); WithExpirationRequired].
Definition parseToken (s : Service) (token : string) : GoM World Reader :=
  let! now := readClock (sv_clock s) in
  or_fail parse_error (Parse (sv_provider s) now (parse_options s) token).

(** [value, _ := reader.ClaimString(name)]. *)
Definition claim (reader : Reader) (name : string) : string := default "" (ClaimString reader name).

Definition parseAccessToken (s : Service) (token : string) : GoM World accessClaims :=
  let! reader := parseToken s token in
  let tokenUse := claim reader "token_use" in
  let! now := readClock (sv_clock s) in
  let claims := mkAccessClaims (Subject reader) (claim reader "role") (claim reader "scope") (claim reader "session_id")
                  (int_of_float64 (Seconds (RemainingTTL reader now))) in
  if bool_decide (ac_subject claims = "") || bool_decide (ac_sessionID claims = "") ||
     bool_decide (tokenUse ≠ TokenUseAccess) || negb (hasAudience (Audience reader) (sv_accessAudience s)) ||
     bool_decide (ac_role claims ≠ sv_requiredRole s) || negb (hasScope (ac_scope claims) (sv_requiredScope s))
  then throw (Errorf "%w: access token claim contract mismatch" [ErrInvalidClaims] [])
  else if ac_expiresIn claims <? 0
  then ret (mkAccessClaims (ac_subject claims) (ac_role claims) (ac_scope claims) (ac_sessionID claims) 0)
  else ret claims.

Definition parseRefreshToken (s : Service) (token : string) : GoM World refreshClaims :=
  let! reader := parseToken s token in
  let tokenUse := claim reader "token_use" in
  let claims := mkRefreshClaims (Subject reader) (claim reader "session_id") in
  if bool_decide (rc_subject claims = "") || bool_decide (rc_sessionID claims = "") ||
     bool_decide (tokenUse ≠ TokenUseRefresh) || negb (hasAudience (Audience reader) (sv_refreshAudience s))
  then throw (Errorf "%w: refresh token claim contract mismatch" [ErrInvalidClaims] [])
  else ret claims.

Definition ValidateAccess (s : Service) (authorization : string) : GoM World ProfileResponse :=
  let! token := or_fail id (bearerToken authorization) in
  let! claims := parseAccessToken s token in
  ret (mkProfile (ac_subject claims) (ac_role claims) (sv_requiredScope s) (ac_sessionID claims) (ac_expiresIn claims)).

Definition RefreshAccess (s : Service) (request : RefreshRequest) : GoM World AccessTokenResponse :=
  let token := TrimSpace (rf_RefreshToken request) in
  if bool_decide (token = "") then throw (Errorf "%w: refresh_token is required" [ErrInvalidRequest] [])
  else
    let! claims := parseRefreshToken s token in
    let! accessToken := issueAccessToken s (rc_subject claims) (sv_requiredRole s) (sv_requiredScope s)
                          (rc_sessionID claims) defaultAccessTTL in
    ret (mkAccessTokenResponse "Bearer" (Z.quot defaultAccessTTL Second) accessToken (rc_sessionID claims)).

(** ** HTTP *)

Definition StatusOK : Z := 200.
Definition StatusUnauthorized : Z := 401.
Definition StatusForbidden : Z := 403.
Definition StatusBadRequest : Z := 400.
Definition StatusInternalServerError : Z := 500.

Definition publicError (err : GoError) : Z * ErrorResponse :=
  if errors_Is err "tokenrefresh.ErrMissingToken"
  then (StatusUnauthorized, mkError "missing_token" "A bearer token is required.")
  else if errors_Is err "tokenrefresh.ErrExpiredToken"
  then (StatusUnauthorized, mkError "expired_token" "The token has expired.")
  else if errors_Is err "tokenrefresh.ErrInvalidToken"
  then (StatusUnauthorized, mkError "invalid_token" "The token could not be verified.")
  else if errors_Is err "tokenrefresh.ErrInvalidClaims"
  then (StatusForbidden, mkError "invalid_claims" "The verified token is not allowed for this operation.")
  else if errors_Is err "tokenrefresh.ErrInvalidRequest"
  then (StatusBadRequest, mkError "invalid_request" "The request body is invalid.")
  else (StatusInternalServerError, mkError "internal_error" "The token boundary could not process the request.").

Inductive Body :=
  | BodyHealth | BodySession (r : SessionResponse) | BodyProfile (r : ProfileResponse)
  | BodyAccess (r : AccessTokenResponse) | BodyError (r : ErrorResponse).
(** The routes; gin binds a JSON body, after [MaxBytesReader], to a request or an error. *)
Inductive HttpRequest :=
  | GetHealthz | PostSessions (bound : GoError + SessionRequest) | GetProfile (authorization : string)
  | PostRefresh (bound : GoError + RefreshRequest).

Definition writeError (err : GoError) : Z * Body := let '(status, response) := publicError err in (status, BodyError response).
(** [response, err := m; if err != nil { writeError(c, err); return }; c.JSON(status, response)]. *)
Definition respond {A} (status : Z) (body : A → Body) (m : GoM World A) : GoM World (Z * Body) :=
  λ c w, match m c w with
         | (Val a, c', w') => (Val (status, body a), c', w')
         | (Fail e, c', w') => (Val (writeError e), c', w')
         | (Panic, c', w') => (Panic, c', w')
         end.
Definition bind_body {A} (bound : GoError + A) (k : A → GoM World (Z * Body)) : GoM World (Z * Body) :=
  match bound with inl _ => ret (writeError ErrInvalidRequest) | inr a => k a end.
Definition serve (s : Service) (request : HttpRequest) : GoM World (Z * Body) :=
  match request with
  | GetHealthz => ret (StatusOK, BodyHealth)
  | PostSessions bound => bind_body bound (λ request, respond StatusOK BodySession (IssueSession s request))
  | GetProfile authorization => respond StatusOK BodyProfile (ValidateAccess s authorization)
  | PostRefresh bound => bind_body bound (λ request, respond StatusOK BodyAccess (RefreshAccess s request))
  end.
End Service.
