(* ===== verification/TokenRefreshProofs.v ===== *)
(** What the token service promises: an issued access token is accepted exactly when it carries the
    required role and scope; tokens do not stand in for each other; what a refresh grants; lifetimes. *)
From Stdlib Require Import Ascii String.
From S2P Require Import Prelude JwtLib JwtModel TokenRefresh.

#[local] Arguments String.append !_ _ : simpl nomatch.

(** ** Text of the identifiers *)

Lemma hex_byte_ascii b : forallb is_ascii (hex_byte b) = true.
Proof. by destruct b as [[] [] [] [] [] [] [] []]. Qed.
Lemma hex_string_valid bytes : ValidString (hex_string bytes) = true.
Proof.
  apply ascii_valid. unfold ascii_only, hex_string. rewrite list_string_ascii.
  induction bytes as [|b bytes IH]; [done|]. cbn [map concat]. by rewrite forallb_app, hex_byte_ascii, IH.
Qed.

Section Tokens.
Context `{TL : Timeline} `{IL : IdLib} `{CR : !CryptoRand} `{JT : JwtTypes} `{JL : !JwtLib} `{LW : !JwtLaws}.
Hypothesis custom_text : ∀ g source v source', NextString g source = (inr v, source') → ValidString v = true.

(** ** Configuration *)

(** The options the package offers. *)
Inductive offered : Ptr Option → Prop :=
  | offered_nil : offered None
  | offered_clock clock : offered (Some (WithClock clock))
  | offered_secret secret : offered (Some (WithSecret secret))
  | offered_generator g : offered (Some (WithIDGenerator g)).

Record standard (s : Service) : Prop := {
  std_issuer : sv_issuer s = DefaultIssuer; std_access : sv_accessAudience s = AccessAudience;
  std_refresh : sv_refreshAudience s = RefreshAudience; std_role : sv_requiredRole s = defaultRole;
  std_scope : sv_requiredScope s = defaultScope
}.

Lemma offered_options options cfg :
  Forall offered options →
  let cfg' := apply_options options cfg in
  cf_issuer cfg' = cf_issuer cfg ∧ cf_accessAudience cfg' = cf_accessAudience cfg ∧
  cf_refreshAudience cfg' = cf_refreshAudience cfg ∧ cf_requiredRole cfg' = cf_requiredRole cfg ∧
  cf_requiredScope cfg' = cf_requiredScope cfg.
Proof.
  intros Hf. revert cfg. induction Hf as [|o options Ho _ IH]; intros cfg; [done|].
  destruct Ho as [|[clock|]|secret|[g|]].
  - exact (IH cfg).
  - exact (IH (WithClock (Some clock) cfg)).
  - exact (IH cfg).
  - exact (IH (WithSecret secret cfg)).
  - exact (IH (WithIDGenerator (Some g) cfg)).
  - exact (IH cfg).
Qed.
Lemma NewService_standard options s : Forall offered options → NewService options = inr s → standard s.
Proof.
  intros Ho. pose proof (offered_options options defaultConfig Ho) as (H1 & H2 & H3 & H4 & H5).
  unfold NewService. case_match; [done|]. intros (provider & _ & [= <-])%and_then_inr.
  split; cbn; [by rewrite H1|by rewrite H2|by rewrite H3|by rewrite H4|by rewrite H5].
Qed.

(** ** Issuing *)

Definition request_text (request : SessionRequest) : Prop :=
  ValidString (TrimSpace (rq_Subject request)) = true ∧ ValidString (TrimSpace (rq_Role request)) = true ∧
  ValidString (Join_strings (normalizeScopes (rq_Scopes request)) " ") = true.

Lemma nextID_run s c w o c' w' :
  nextID s c w = (o, c', w') →
  c' = c ∧ wd_reads w' = wd_reads w ∧
  ((∃ v, o = Val v ∧ ValidString v = true) ∨ ∃ e, o = Fail (Errorf "generate token id: %w" [e] [])).
Proof.
  unfold nextID, generate. destruct (sv_idGenerator s) as [|g].
  - destruct (random_NextString (wd_ids w)) as [r ids] eqn:E.
    intros (-> & -> & [(v & -> & ->)|(e & -> & ->)])%or_fail_run; (split; [done|]; split; [done|]); [left|eauto].
    exists v. split; [done|]. unfold random_NextString in E. destruct (rand_Read (wd_ids w)) as [[e|bytes] src]; [done|].
    injection E as <- _. apply hex_string_valid.
  - unfold nextString. destruct (NextString g (wd_ids w)) as [r ids] eqn:E.
    intros (-> & -> & [(v & -> & ->)|(e & -> & ->)])%or_fail_run; (split; [done|]; split; [done|]); [left|eauto].
    exists v. split; [done|]. by eapply custom_text.
Qed.

Lemma readClock_run clock c w o c' w' :
  readClock clock c w = (o, c', w') →
  o = Val (reading clock (wd_reads w)) ∧ c' = c ∧ w' = mkWorld (S (wd_reads w)) (wd_ids w).
Proof. unfold readClock. by intros [= <- <- <-]. Qed.

(** The service's provider signed these options at this reading of its clock. *)
Definition signed (s : Service) (at_ : Z) (opts : list ComposeOption) (token : string) : Prop :=
  options_text opts ∧ Compose (sv_provider s) at_ opts = inr token.
Definition texts (xs : list string) : Prop := forallb ValidString xs = true.

Lemma standard_texts s : standard s → texts [sv_issuer s; sv_accessAudience s; sv_refreshAudience s;
  sv_requiredRole s; sv_requiredScope s].
Proof. intros [-> -> -> -> ->]. by vm_compute. Qed.

Lemma access_text s subject role scope sessionID jti ttl :
  standard s → texts [subject; role; scope; sessionID; jti] →
  options_text (access_options s subject role scope sessionID jti ttl).
Proof.
  intros [E1 E2 _ _ _]. unfold texts, options_text, access_options. cbn [forallb option_text].
  rewrite !andb_true_iff, E1, E2. intros (? & ? & ? & ? & ? & _). by repeat split.
Qed.
Lemma refresh_text s subject sessionID jti :
  standard s → texts [subject; sessionID; jti] → options_text (refresh_options s subject sessionID jti).
Proof.
  intros [E1 _ E3 _ _]. unfold texts, options_text, refresh_options. cbn [forallb option_text].
  rewrite !andb_true_iff, E1, E3. intros (? & ? & ? & _). by repeat split.
Qed.

Lemma issueAccessToken_run s subject role scope sessionID ttl c w token c' w' :
  standard s → texts [subject; role; scope; sessionID] →
  issueAccessToken s subject role scope sessionID ttl c w = (Val token, c', w') →
  c' = c ∧ wd_reads w' = S (wd_reads w) ∧
  ∃ jti, signed s (reading (sv_clock s) (wd_reads w)) (access_options s subject role scope sessionID jti ttl) token.
Proof.
  intros Hs Ht. unfold issueAccessToken.
  intros [(jti & c1 & w1 & (-> & Hr1 & [(v & [= <-] & Hv)|(? & [=])])%nextID_run & H)|[(? & [=] & _)|([=] & _)]]%bind_inv.
  apply bind_inv in H as [(now & c2 & w2 & ([= ->] & -> & ->)%readClock_run & H)|[(? & [=] & _)|([=] & _)]].
  apply or_fail_run in H as (-> & -> & [(? & [= <-] & Hc)|(? & [=] & _)]). rewrite Hr1 in Hc.
  split; [done|]. split; [cbn; by rewrite Hr1|]. exists jti. split; [|done]. apply access_text; [done|].
  unfold texts in *. cbn [forallb] in *. rewrite !andb_true_iff in *. naive_solver.
Qed.

Lemma IssueSession_run s request c w response c' w' :
  standard s → request_text request → IssueSession s request c w = (Val response, c', w') →
  let subject := TrimSpace (rq_Subject request) in
  let role := TrimSpace (rq_Role request) in
  let scope := Join_strings (normalizeScopes (rq_Scopes request)) " " in
  let sessionID := sr_SessionID response in
  validateSessionRequest request = None ∧ c' = c ∧ wd_reads w' = S (S (wd_reads w)) ∧
  sr_AccessExpiresInSeconds response = rq_TTLSeconds request ∧ ValidString sessionID = true ∧
  (∃ jti, signed s (reading (sv_clock s) (wd_reads w))
            (access_options s subject role scope sessionID jti (seconds (rq_TTLSeconds request))) (sr_AccessToken response)) ∧
  (∃ jti, signed s (reading (sv_clock s) (S (wd_reads w))) (refresh_options s subject sessionID jti) (sr_RefreshToken response)).
Proof.
  intros Hs (Ht1 & Ht2 & Ht3) H subject role scope sessionID. unfold IssueSession in H.
  apply bind_inv in H as [([] & c1 & w1 & (-> & -> & [[_ Hv]|(? & [=] & _)])%fail_if_run & H)|[(? & [=] & _)|([=] & _)]].
  apply bind_inv in H as [(sid & c2 & w2 & (-> & Hr2 & [(v & [= <-] & Hsid)|(? & [=])])%nextID_run & H)|[(? & [=] & _)|([=] & _)]].
  apply bind_inv in H as [(acc & c3 & w3 & Ha & H)|[(? & [=] & _)|([=] & _)]].
  apply issueAccessToken_run in Ha as (-> & Hr3 & jti & Hacc); [|done|unfold texts; cbn [forallb]; by rewrite Ht1, Ht2, Ht3, Hsid].
  apply bind_inv in H as [(rj & c4 & w4 & (-> & Hr4 & [(v & [= <-] & Hrj)|(? & [=])])%nextID_run & H)|[(? & [=] & _)|([=] & _)]].
  apply bind_inv in H as [(now & c5 & w5 & ([= ->] & -> & ->)%readClock_run & H)|[(? & [=] & _)|([=] & _)]].
  apply bind_inv in H as [(ref & c6 & w6 & (-> & -> & [(? & [= <-] & Hc)|(? & [=] & _)])%or_fail_run & H)|[(? & [=] & _)|([=] & _)]].
  injection H as <- <- <-. cbn in sessionID. subst sessionID subject role scope. cbn [sr_SessionID sr_AccessToken sr_RefreshToken sr_AccessExpiresInSeconds wd_reads].
  rewrite Hr4, Hr3, Hr2 in *. split_and!; [done..| |].
  - exists jti. exact Hacc.
  - exists rj. split; [|exact Hc]. apply refresh_text; [done|]. unfold texts. cbn [forallb]. by rewrite Ht1, Hsid, Hrj.
Qed.

(** ** What a signed token shows *)

Lemma access_shows s subject role scope sessionID jti ttl reader :
  shows reader (claims_of (access_options s subject role scope sessionID jti ttl)) →
  Subject reader = subject ∧ Audience reader = [sv_accessAudience s] ∧ claim reader "token_use" = TokenUseAccess ∧
  claim reader "role" = role ∧ claim reader "scope" = scope ∧ claim reader "session_id" = sessionID.
Proof.
  intros (Hsub & Haud & Hc). unfold claim.
  rewrite Hsub, Haud, !Hc by compute_done. by vm_compute.
Qed.
Lemma refresh_shows s subject sessionID jti reader :
  shows reader (claims_of (refresh_options s subject sessionID jti)) →
  Subject reader = subject ∧ Audience reader = [sv_refreshAudience s] ∧ claim reader "token_use" = TokenUseRefresh ∧
  claim reader "session_id" = sessionID.
Proof.
  intros (Hsub & Haud & Hc). unfold claim.
  rewrite Hsub, Haud, !Hc by compute_done. by vm_compute.
Qed.

(** ** Parsing what was signed *)

Definition advance (w : World) : World := mkWorld (S (wd_reads w)) (wd_ids w).
Definition now_of (s : Service) (w : World) : Z := reading (sv_clock s) (wd_reads w).

Lemma parseToken_eq s token c w :
  parseToken s token c w =
    or_fail parse_error (Parse (sv_provider s) (now_of s w) (parse_options s) token) c (advance w).
Proof. done. Qed.

Lemma parseToken_shows s at_ opts token c w reader c' w' :
  signed s at_ opts token → parseToken s token c w = (Val reader, c', w') → shows reader (claims_of opts).
Proof.
  intros [Ht Hc]. rewrite parseToken_eq.
  intros (_ & _ & [(? & [= <-] & Hp)|(? & [=] & _)])%or_fail_run. by eapply parse_shows.
Qed.

Lemma access_meets s subject role scope sessionID jti ttl :
  forallb (meets (claims_of (access_options s subject role scope sessionID jti ttl))) (parse_options s) = true.
Proof. cbn. by rewrite !bool_decide_eq_true_2. Qed.
Lemma refresh_meets s subject sessionID jti :
  forallb (meets (claims_of (refresh_options s subject sessionID jti))) (parse_options s) = true.
Proof. cbn. by rewrite !bool_decide_eq_true_2. Qed.

(** Live: accepted. Dead: expired. *)
Lemma parseToken_live s at_ opts d token c w :
  signed s at_ opts token → tc_ttl (claims_of opts) = Some d →
  forallb (meets (claims_of opts)) (parse_options s) = true →
  at_ <= now_of s w → now_of s w + Second <= at_ + d →
  ∃ reader, parseToken s token c w = (Val reader, c, advance w) ∧ shows reader (claims_of opts).
Proof.
  intros Hs Hd Hm H1 H2. pose proof Hs as [Ht Hc].
  destruct (parse_accepts _ _ _ _ _ _ _ Ht Hc Hd Hm H1 H2) as [reader Hr]. exists reader.
  rewrite parseToken_eq, Hr. split; [done|]. by eapply parse_shows.
Qed.
Lemma parseToken_dead s at_ opts d token c w :
  signed s at_ opts token → tc_ttl (claims_of opts) = Some d →
  forallb (meets (claims_of opts)) (parse_options s) = true →
  at_ <= now_of s w → at_ + d <= now_of s w →
  parseToken s token c w = (Fail (Errorf "%w: token expired" [ErrExpiredToken] []), c, advance w).
Proof.
  intros [Ht Hc] Hd Hm H1 H2. destruct (parse_expires _ _ _ _ _ _ _ Ht Hc Hd Hm H1 H2) as (e & Hp & He).
  rewrite parseToken_eq, Hp. cbn. unfold throw, parse_error. by rewrite He.
Qed.

(** ** What validation grants *)

Definition grants (s : Service) (subject role scope sessionID : string) : bool :=
  bool_decide (subject ≠ "") && bool_decide (sessionID ≠ "") && bool_decide (role = sv_requiredRole s)
  && hasScope scope (sv_requiredScope s).
Definition claim_mismatch (use : string) : GoError :=
  Errorf (String.append "%w: " (String.append use " token claim contract mismatch")) [ErrInvalidClaims] [].

Lemma hasAudience_own a : hasAudience [a] a = true.
Proof. unfold hasAudience. cbn. by rewrite bool_decide_eq_true_2. Qed.

Lemma ValidateAccess_token s token c w :
  token_text token →
  ValidateAccess s (String.append "Bearer " token) c w =
    bind (parseAccessToken s token) (λ claims, ret (mkProfile (ac_subject claims) (ac_role claims)
      (sv_requiredScope s) (ac_sessionID claims) (ac_expiresIn claims))) c w.
Proof. intros Ht. unfold ValidateAccess, bearerToken. by rewrite (bearer_of_token _ _ _ Ht). Qed.

Lemma validate_shown s token reader subject role scope sessionID jti ttl c w :
  token_text token → parseToken s token c w = (Val reader, c, advance w) →
  shows reader (claims_of (access_options s subject role scope sessionID jti ttl)) →
  ValidateAccess s (String.append "Bearer " token) c w =
    (if grants s subject role scope sessionID
     then Val (mkProfile subject (sv_requiredRole s) (sv_requiredScope s) sessionID
                 (Z.max 0 (int_of_float64 (Seconds (RemainingTTL reader (now_of s (advance w)))))))
     else Fail (claim_mismatch "access"), c, advance (advance w)).
Proof.
  intros Ht Hp Hs. rewrite (ValidateAccess_token _ _ _ _ Ht). unfold parseAccessToken, bind at 1 2. rewrite Hp.
  apply access_shows in Hs as (-> & -> & Euse & -> & -> & ->). rewrite Euse.
  unfold grants, bind, readClock, ret. cbn [ac_subject ac_role ac_scope ac_sessionID ac_expiresIn].
  rewrite hasAudience_own, (bool_decide_eq_false_2 (TokenUseAccess ≠ TokenUseAccess)) by congruence.
  destruct (bool_decide_reflect (subject = "")); [by rewrite (bool_decide_eq_false_2 (subject ≠ "")) by congruence|].
  rewrite (bool_decide_eq_true_2 (subject ≠ "")) by done.
  destruct (bool_decide_reflect (sessionID = "")); [by rewrite (bool_decide_eq_false_2 (sessionID ≠ "")) by congruence|].
  rewrite (bool_decide_eq_true_2 (sessionID ≠ "")) by done.
  destruct (bool_decide_reflect (role = sv_requiredRole s)) as [->|]; [|by rewrite (bool_decide_eq_true_2 (role ≠ _)) by done].
  rewrite (bool_decide_eq_false_2 (_ ≠ sv_requiredRole s)) by congruence. cbn.
  destruct (hasScope scope (sv_requiredScope s)); cbn; [|done].
  unfold now_of, advance. cbn. destruct (Z.ltb_spec (int_of_float64 (Seconds (RemainingTTL reader
    (reading (sv_clock s) (S (wd_reads w)))))) 0); cbn; repeat f_equal; lia.
Qed.

(** A token of the other kind is never accepted, whenever it is presented. *)
Definition refused {A} (r : Outcome A) : Prop :=
  ∃ e, r = Fail e ∧ (publicError e).1 ∈ [StatusUnauthorized; StatusForbidden].

Lemma parse_refused s token c w :
  (∃ reader, parseToken s token c w = (Val reader, c, advance w)) ∨
  ∃ e, parseToken s token c w = (Fail (parse_error e), c, advance w) ∧ (publicError (parse_error e)).1 = StatusUnauthorized.
Proof.
  rewrite parseToken_eq. destruct (Parse _ _ _ _) as [e|reader]; [right|left; eauto].
  exists e. split; [done|]. unfold parse_error. by destruct (errors_Is e jwtErrExpiredToken).
Qed.

Lemma refresh_token_refused s at_ subject sessionID jti token c w :
  token_text token → signed s at_ (refresh_options s subject sessionID jti) token →
  refused (ValidateAccess s (String.append "Bearer " token) c w).1.1.
Proof.
  intros Ht Hs. rewrite (ValidateAccess_token _ _ _ _ Ht). unfold parseAccessToken, bind at 1 2.
  destruct (parse_refused s token c w) as [[reader Hp]|(e & Hp & He)]; rewrite Hp.
  - pose proof (parseToken_shows _ _ _ _ _ _ _ _ _ Hs Hp) as (_ & _ & Euse & _)%refresh_shows. rewrite Euse.
    rewrite (bool_decide_eq_true_2 (TokenUseRefresh ≠ TokenUseAccess)) by done. unfold bind, readClock.
    rewrite !orb_true_r. cbn. exists (claim_mismatch "access"). split; [done|]. compute_done.
  - exists (parse_error e). split; [done|]. rewrite He. by left.
Qed.
Lemma access_token_refused s at_ subject role scope sessionID jti ttl token c w :
  token_text token → signed s at_ (access_options s subject role scope sessionID jti ttl) token →
  refused (RefreshAccess s (mkRefreshRequest token) c w).1.1.
Proof.
  intros [Hne Ht] Hs. unfold RefreshAccess. cbn [rf_RefreshToken]. rewrite (trim_ident _ Ht).
  rewrite bool_decide_eq_false_2 by done. unfold parseRefreshToken, bind at 1 2.
  destruct (parse_refused s token c w) as [[reader Hp]|(e & Hp & He)]; rewrite Hp.
  - pose proof (parseToken_shows _ _ _ _ _ _ _ _ _ Hs Hp) as (_ & _ & Euse & _)%access_shows. rewrite Euse.
    rewrite (bool_decide_eq_true_2 (TokenUseAccess ≠ TokenUseRefresh)) by done.
    rewrite !orb_true_r. cbn. exists (claim_mismatch "refresh"). split; [done|]. compute_done.
  - exists (parse_error e). split; [done|]. rewrite He. by left.
Qed.

(** ** Refreshing *)

Lemma issueAccessToken_outcome s subject role scope sessionID ttl c w o c' w' :
  issueAccessToken s subject role scope sessionID ttl c w = (o, c', w') →
  c' = c ∧ ((∃ token, o = Val token) ∨ (∃ e, o = Fail (Errorf "generate token id: %w" [e] [])) ∨
            o = Fail (Errorf "%w: compose access token" [ErrInvalidToken] [])).
Proof.
  unfold issueAccessToken.
  intros [(jti & c1 & w1 & (-> & _ & _)%nextID_run & H)|[(e & -> & (-> & _ & [(? & [=] & _)|(? & [= ->])])%nextID_run)|
    [-> (_ & _ & [(? & [=] & _)|(? & [=])])%nextID_run]]]%bind_inv; [|eauto].
  apply bind_inv in H as [(now & c2 & w2 & (_ & -> & _)%readClock_run & H)|
    [(e & _ & ([=] & _ & _)%readClock_run)|[_ ([=] & _ & _)%readClock_run]]].
  apply or_fail_run in H as (-> & _ & [(? & -> & _)|(? & -> & _)]); eauto.
Qed.

Lemma refresh_live s at_ subject sessionID jti token c w :
  token_text token → signed s at_ (refresh_options s subject sessionID jti) token →
  subject ≠ "" → sessionID ≠ "" → at_ <= now_of s w → now_of s w + Second <= at_ + defaultRefreshTTL →
  RefreshAccess s (mkRefreshRequest token) c w =
    bind (issueAccessToken s subject (sv_requiredRole s) (sv_requiredScope s) sessionID defaultAccessTTL)
      (λ accessToken, ret (mkAccessTokenResponse "Bearer" (Z.quot defaultAccessTTL Second) accessToken sessionID)) c (advance w).
Proof.
  intros [Hne Ht] Hs Hsub Hsid H1 H2. unfold RefreshAccess. cbn [rf_RefreshToken]. rewrite (trim_ident _ Ht).
  rewrite bool_decide_eq_false_2 by done.
  destruct (parseToken_live s at_ _ defaultRefreshTTL token c w Hs eq_refl (refresh_meets _ _ _ _) H1 H2) as (reader & Hp & Hr).
  unfold parseRefreshToken, bind at 1 2. rewrite Hp. apply refresh_shows in Hr as (-> & -> & -> & ->).
  cbn [rc_subject rc_sessionID]. rewrite hasAudience_own, !bool_decide_eq_false_2 by (done || congruence). done.
Qed.

(** ** The theorems *)

Section Sessions.
Context (s : Service) (options : list (Ptr Option)) (Hoffered : Forall offered options)
        (Hnew : NewService options = inr s).

(** C22: An access token issued by [IssueSession] is accepted by [ValidateAccess], at any time from its
    issue to a second before its lifetime ends, exactly when the request's role is the required one, one
    of its scopes contains the required scope and the session has an identifier; the profile then shows
    the subject and the session of the request, and otherwise the answer is [ErrInvalidClaims]. *)
Theorem issued_access_token_accepted_iff request c w response c1 w1 c2 w2 :
  request_text request → IssueSession s request c w = (Val response, c1, w1) →
  now_of s w <= now_of s w2 → now_of s w2 + Second <= now_of s w + seconds (rq_TTLSeconds request) →
  ∃ remaining,
    ValidateAccess s (String.append "Bearer " (sr_AccessToken response)) c2 w2 =
      (if bool_decide (sr_SessionID response ≠ "") && bool_decide (TrimSpace (rq_Role request) = defaultRole) &&
          existsb (λ scope, has_scope (TrimSpace scope) defaultScope) (rq_Scopes request)
       then Val (mkProfile (TrimSpace (rq_Subject request)) defaultRole defaultScope (sr_SessionID response) remaining)
       else Fail (claim_mismatch "access"), c2, advance (advance w2)) ∧ 0 <= remaining.
Proof.
  intros Htext Hissue H1 H2. pose proof (NewService_standard _ _ Hoffered Hnew) as Hstd.
  apply IssueSession_run in Hissue as (Hval & _ & _ & _ & _ & (jti & Hsig) & _); [|done..].
  destruct (parseToken_live s _ _ _ _ c2 w2 Hsig eq_refl (access_meets _ _ _ _ _ _ _) H1 H2) as (reader & Hp & Hr).
  pose proof (compose_text _ _ _ _ (proj2 Hsig)) as Htok.
  rewrite (validate_shown s _ reader _ _ _ _ _ _ c2 w2 Htok Hp Hr). unfold grants, hasScope, normalizeScopes.
  destruct Hstd as [_ _ _ -> ->]. rewrite has_scope_join.
  assert (TrimSpace (rq_Subject request) ≠ "") as Hsub.
  { unfold validateSessionRequest in Hval. by destruct (bool_decide_reflect (TrimSpace (rq_Subject request) = "")). }
  rewrite (bool_decide_eq_true_2 _ Hsub). cbn [andb].
  eexists. split; [reflexivity|lia].
Qed.

(** C17: The tokens of a session do not stand in for each other: at any time and in any world,
    [ValidateAccess] refuses the refresh token and [RefreshAccess] the access token, with 401 or 403. *)
Theorem tokens_not_interchangeable request c w response c1 w1 c2 w2 :
  request_text request → IssueSession s request c w = (Val response, c1, w1) →
  refused (ValidateAccess s (String.append "Bearer " (sr_RefreshToken response)) c2 w2).1.1 ∧
  refused (RefreshAccess s (mkRefreshRequest (sr_AccessToken response)) c2 w2).1.1.
Proof.
  intros Htext Hissue. pose proof (NewService_standard _ _ Hoffered Hnew) as Hstd.
  apply IssueSession_run in Hissue as (_ & _ & _ & _ & _ & (jti & Hsig) & (jti' & Hsig')); [|done..].
  split.
  - eapply refresh_token_refused, Hsig'. exact (compose_text _ _ _ _ (proj2 Hsig')).
  - eapply access_token_refused, Hsig. exact (compose_text _ _ _ _ (proj2 Hsig)).
Qed.

(** A refresh in the lifetime of a refresh token ends in an access token for the same subject and
    session, unless an identifier or a token cannot be made; that token is accepted with the required
    role and scope for five minutes, whatever role and scopes the session was issued with, even when
    the access token of the session itself is always refused. *)
Theorem refresh_grants_required_role request c w response c1 w1 c2 w2 o c3 w3 :
  request_text request → IssueSession s request c w = (Val response, c1, w1) → sr_SessionID response ≠ "" →
  now_of s (advance w) <= now_of s w2 → now_of s w2 + Second <= now_of s (advance w) + defaultRefreshTTL →
  RefreshAccess s (mkRefreshRequest (sr_RefreshToken response)) c2 w2 = (o, c3, w3) →
  (grants s (TrimSpace (rq_Subject request)) (TrimSpace (rq_Role request))
     (Join_strings (normalizeScopes (rq_Scopes request)) " ") (sr_SessionID response) = false →
   ∀ c4 w4, refused (ValidateAccess s (String.append "Bearer " (sr_AccessToken response)) c4 w4).1.1) ∧
  ((∃ e, o = Fail (Errorf "generate token id: %w" [e] [])) ∨
   o = Fail (Errorf "%w: compose access token" [ErrInvalidToken] []) ∨
   ∃ refreshed, o = Val refreshed ∧ ar_SessionID refreshed = sr_SessionID response ∧
     ∀ c4 w4, now_of s (advance w2) <= now_of s w4 →
       now_of s w4 + Second <= now_of s (advance w2) + ar_ExpiresInSeconds refreshed * Second →
       ∃ remaining, ValidateAccess s (String.append "Bearer " (ar_AccessToken refreshed)) c4 w4 =
         (Val (mkProfile (TrimSpace (rq_Subject request)) defaultRole defaultScope (sr_SessionID response) remaining),
          c4, advance (advance w4))).
Proof.
  intros Htext Hissue Hsid H1 H2 Hrun. pose proof (NewService_standard _ _ Hoffered Hnew) as Hstd.
  apply IssueSession_run in Hissue as (Hval & _ & _ & _ & Hsidt & (jti & Hsig) & (jti' & Hsig')); [|done..].
  assert (TrimSpace (rq_Subject request) ≠ "") as Hsub.
  { unfold validateSessionRequest in Hval. by destruct (bool_decide_reflect (TrimSpace (rq_Subject request) = "")). }
  split.
  { intros Hg c4 w4. pose proof (compose_text _ _ _ _ (proj2 Hsig)) as Htok.
    destruct (parse_refused s (sr_AccessToken response) c4 w4) as [[reader Hp]|(e & Hp & He)].
    - rewrite (validate_shown s _ reader _ _ _ _ _ _ c4 w4 Htok Hp (parseToken_shows _ _ _ _ _ _ _ _ _ Hsig Hp)), Hg.
      exists (claim_mismatch "access"). split; [done|]. compute_done.
    - rewrite (ValidateAccess_token _ _ _ _ Htok). unfold parseAccessToken, bind at 1 2. rewrite Hp.
      exists (parse_error e). split; [done|]. rewrite He. by left. }
  rewrite (refresh_live s _ _ _ _ _ c2 w2 (compose_text _ _ _ _ (proj2 Hsig')) Hsig' Hsub Hsid H1 H2) in Hrun.
  unfold bind in Hrun. destruct (issueAccessToken _ _ _ _ _ _ _ _) as [[o' c'] w'] eqn:E.
  destruct (issueAccessToken_outcome _ _ _ _ _ _ _ _ _ _ _ E) as [_ [[token ->]|[[e ->]| ->]]];
    [|injection Hrun as <- _ _; eauto..].
  injection Hrun as <- _ _. do 2 right. eexists. split; [reflexivity|]. split; [done|]. intros c4 w4 H3 H4.
  cbn [ar_AccessToken ar_ExpiresInSeconds ar_SessionID] in *.
  apply issueAccessToken_run in E as (_ & _ & jti2 & Hsig2); [|done|].
  2: { destruct Htext as (Ht1 & _). destruct Hstd as [_ _ _ -> ->]. unfold texts. cbn [forallb]. by rewrite Ht1, Hsidt. }
  destruct (parseToken_live s _ _ _ _ c4 w4 Hsig2 eq_refl (access_meets _ _ _ _ _ _ _) H3 H4) as (reader & Hp & Hr).
  rewrite (validate_shown s _ reader _ _ _ _ _ _ c4 w4 (compose_text _ _ _ _ (proj2 Hsig2)) Hp Hr). unfold grants.
  destruct Hstd as [_ _ _ -> ->]. rewrite !bool_decide_eq_true_2 by done.
  eexists. reflexivity.
Qed.

(** The lifetime of an access token is the requested number of seconds exactly up to 9223372036;
    beyond, the 64 bits of a duration wrap and the token lives shorter than the response says. From the
    end of its lifetime on, [ValidateAccess] answers [ErrExpiredToken]. *)
Theorem access_token_lifetime request c w response c1 w1 c2 w2 :
  request_text request → in_int64 (rq_TTLSeconds request) →
  IssueSession s request c w = (Val response, c1, w1) →
  let promised := sr_AccessExpiresInSeconds response * Second in
  let lifetime := seconds (rq_TTLSeconds request) in
  lifetime <= promised ∧ (lifetime = promised ↔ rq_TTLSeconds request <= 9223372036) ∧
  (now_of s w <= now_of s w2 → now_of s w + lifetime <= now_of s w2 →
   ValidateAccess s (String.append "Bearer " (sr_AccessToken response)) c2 w2 =
     (Fail (Errorf "%w: token expired" [ErrExpiredToken] []), c2, advance w2)).
Proof.
  intros Htext H64 Hissue promised lifetime. pose proof (NewService_standard _ _ Hoffered Hnew) as Hstd.
  apply IssueSession_run in Hissue as (Hval & _ & _ & Hn & _ & (jti & Hsig) & _); [|done..].
  assert (0 < rq_TTLSeconds request) as Hpos.
  { unfold validateSessionRequest in Hval. destruct (Z.leb_spec (rq_TTLSeconds request) 0); [|done].
    by repeat case_bool_decide. }
  subst promised lifetime. rewrite Hn. split; [|split].
  - by apply seconds_le.
  - by apply seconds_exact.
  - intros H1 H2. pose proof (compose_text _ _ _ _ (proj2 Hsig)) as Htok.
    rewrite (ValidateAccess_token _ _ _ _ Htok). unfold parseAccessToken, bind.
    by rewrite (parseToken_dead s _ _ _ _ c2 w2 Hsig eq_refl (access_meets _ _ _ _ _ _ _) H1 H2).
Qed.
End Sessions.
End Tokens.

(** ** HTTP *)

Definition public_errors : list (Z * ErrorResponse) :=
  [(401, mkError "missing_token" "A bearer token is required."); (401, mkError "expired_token" "The token has expired.");
   (401, mkError "invalid_token" "The token could not be verified.");
   (403, mkError "invalid_claims" "The verified token is not allowed for this operation.");
   (400, mkError "invalid_request" "The request body is invalid.");
   (500, mkError "internal_error" "The token boundary could not process the request.")].

Lemma publicError_fixed e : publicError e ∈ public_errors.
Proof.
  unfold publicError, public_errors.
  repeat match goal with |- context [if ?b then _ else _] => destruct b end; repeat (left; reflexivity) || right.
Qed.

Section Http.
Context `{TL : Timeline} `{IL : IdLib} `{CR : !CryptoRand} `{JT : JwtTypes} `{JL : !JwtLib}.

Lemma no_panic_nextID s : no_panic (nextID s).
Proof.
  intros c w. unfold nextID, generate. destruct (sv_idGenerator s); [|apply no_panic_nextString].
  destruct (random_NextString _). apply no_panic_or_fail.
Qed.
#[local] Hint Resolve no_panic_nextID : gom.
Lemma no_panic_issue s request : no_panic (IssueSession s request).
Proof. unfold IssueSession, issueAccessToken. auto 20 with gom. Qed.
Lemma no_panic_validate s authorization : no_panic (ValidateAccess s authorization).
Proof. unfold ValidateAccess, parseAccessToken, parseToken. auto 20 with gom. Qed.
Lemma no_panic_refresh s request : no_panic (RefreshAccess s request).
Proof. unfold RefreshAccess, parseRefreshToken, parseToken, issueAccessToken. auto 30 with gom. Qed.

Lemma respond_total {A} (body : A → Body) (m : GoM World A) c w :
  no_panic m → ∃ status b c' w', respond StatusOK body m c w = (Val (status, b), c', w') ∧
    ((∃ a, (m c w).1.1 = Val a ∧ status = 200 ∧ b = body a) ∨
     ∃ e er, (m c w).1.1 = Fail e ∧ b = BodyError er ∧ (status, er) ∈ public_errors).
Proof.
  intros Hm. unfold respond. specialize (Hm c w). destruct (m c w) as [[[a|e|] c'] w']; [| |done].
  - do 4 eexists. split; [done|]. left. eauto.
  - unfold writeError. pose proof (publicError_fixed e) as Hf. destruct (publicError e) as [status er].
    do 4 eexists. split; [done|]. right. eauto.
Qed.

(** Every request is answered, in every state and without a panic; the answer is 200 with the result
    of the operation when it succeeded, and otherwise one of six constant pairs of status and error:
    nothing of a token, a secret or an error text of the libraries appears in it. *)
Theorem every_request_answered s request c w :
  ∃ status body c' w', serve s request c w = (Val (status, body), c', w') ∧
    match body with
    | BodyError er => (status, er) ∈ public_errors
    | BodyHealth => status = 200 ∧ request = GetHealthz
    | BodySession r => status = 200 ∧ ∃ req, request = PostSessions (inr req) ∧ (IssueSession s req c w).1.1 = Val r
    | BodyProfile r => status = 200 ∧ ∃ h, request = GetProfile h ∧ (ValidateAccess s h c w).1.1 = Val r
    | BodyAccess r => status = 200 ∧ ∃ req, request = PostRefresh (inr req) ∧ (RefreshAccess s req c w).1.1 = Val r
    end.
Proof.
  assert (writeError ErrInvalidRequest = (400, BodyError (mkError "invalid_request" "The request body is invalid."))) as Hbad by done.
  destruct request as [|[e|req]|h|[e|req]]; cbn [serve bind_body]; rewrite ?Hbad; unfold ret.
  - do 4 eexists. split; [done|]. done.
  - do 4 eexists. split; [done|]. by apply list_elem_of_In; cbn; auto 10.
  - destruct (respond_total BodySession _ c w (no_panic_issue s req)) as (st & b & c' & w' & -> & H).
    do 4 eexists. split; [done|]. destruct H as [(a & Ha & -> & ->)|(e & er & _ & -> & H)]; eauto.
  - destruct (respond_total BodyProfile _ c w (no_panic_validate s h)) as (st & b & c' & w' & -> & H).
    do 4 eexists. split; [done|]. destruct H as [(a & Ha & -> & ->)|(e & er & _ & -> & H)]; eauto.
  - do 4 eexists. split; [done|]. by apply list_elem_of_In; cbn; auto 10.
  - destruct (respond_total BodyAccess _ c w (no_panic_refresh s req)) as (st & b & c' & w' & -> & H).
    do 4 eexists. split; [done|]. destruct H as [(a & Ha & -> & ->)|(e & er & _ & -> & H)]; eauto.
Qed.
End Http.

(** ** Witnesses *)

Section Demo.
#[local] Existing Instances model_types model_lib model_laws counting_ids.
#[local] Instance every_second : Timeline := λ n, Z.of_nat n * Second.
#[local] Instance no_rand : CryptoRand := λ source, (inl (plain_error "no entropy"), source).

Definition demo_options : list (Ptr Option) :=
  [Some (WithSecret "0123456789abcdef0123456789abcdef"); Some (WithIDGenerator (Some (Custom tt))); None].
Definition demo : Service :=
  mkService "0123456789abcdef0123456789abcdef" (Custom tt) id DefaultIssuer AccessAudience RefreshAudience defaultRole defaultScope.
Definition customer : SessionRequest := mkSessionRequest " customer-1001 " "customer" ["other"; "profile:read"] 300.
Definition guest : SessionRequest := mkSessionRequest "guest-7" "guest" ["none"] 300.
Definition eternal : SessionRequest := mkSessionRequest "customer-1001" "customer" ["profile:read"] 18446744074.
Definition world_at (n : nat) : World := mkWorld n (20, 0)%nat.
Definition demo_response (request : SessionRequest) : SessionResponse :=
  match IssueSession demo request Background (world_at 0) with
  | (Val response, _, _) => response
  | _ => mkSessionResponse "" 0 0 "" "" ""
  end.
Definition issues (request : SessionRequest) : bool :=
  match IssueSession demo request Background (world_at 0) with (Val _, _, _) => true | _ => false end.
Lemma demo_issued request :
  issues request = true →
  ∃ c w, IssueSession demo request Background (world_at 0) = (Val (demo_response request), c, w).
Proof.
  unfold issues, demo_response. destruct (IssueSession demo request Background (world_at 0)) as [[[r| |] c] w]; eauto; done.
Qed.
Lemma demo_session : sr_SessionID (demo_response customer) = "id-a".
Proof. by vm_compute. Qed.
Lemma eternal_int64 : in_int64 (rq_TTLSeconds eternal).
Proof. by vm_compute. Qed.
Lemma demo_offered : Forall offered demo_options.
Proof. repeat constructor. Qed.
Lemma demo_new : NewService demo_options = inr demo.
Proof. by vm_compute. Qed.

Lemma demo_texts : request_text customer ∧ request_text guest ∧ request_text eternal.
Proof. by vm_compute. Qed.

Lemma issued_access_token_accepted_iff_witness :
  ∃ remaining,
    ValidateAccess demo (String.append "Bearer " (sr_AccessToken (demo_response customer))) Background (world_at 299) =
      (Val (mkProfile "customer-1001" "customer" "profile:read" "id-a" remaining), Background, advance (advance (world_at 299)))
    ∧ 0 <= remaining.
Proof.
  destruct (demo_issued customer) as (c & w & E); [by vm_compute|].
  destruct (issued_access_token_accepted_iff counting_text demo demo_options demo_offered demo_new customer
              Background (world_at 0) (demo_response customer) c w Background (world_at 299) (proj1 demo_texts) E)
    as (remaining & H & Hr); [by vm_compute|by vm_compute|].
  exists remaining. split; [|exact Hr]. rewrite H, demo_session. reflexivity.
Defined.

Lemma tokens_not_interchangeable_witness :
  refused (ValidateAccess demo (String.append "Bearer " (sr_RefreshToken (demo_response customer))) Background (world_at 2)).1.1 ∧
  refused (RefreshAccess demo (mkRefreshRequest (sr_AccessToken (demo_response customer))) Background (world_at 2)).1.1.
Proof.
  destruct (demo_issued customer) as (c & w & E); [by vm_compute|].
  apply (tokens_not_interchangeable counting_text demo demo_options demo_offered demo_new customer
           Background (world_at 0) (demo_response customer) c w Background (world_at 2));
    [apply demo_texts|exact E].
Defined.

Lemma refresh_grants_required_role_witness :
  (∀ c4 w4, refused (ValidateAccess demo (String.append "Bearer " (sr_AccessToken (demo_response guest))) c4 w4).1.1) ∧
  ∃ refreshed, (RefreshAccess demo (mkRefreshRequest (sr_RefreshToken (demo_response guest))) Background (world_at 5)).1.1 = Val refreshed ∧
    ∃ remaining, ValidateAccess demo (String.append "Bearer " (ar_AccessToken refreshed)) Background (world_at 100) =
      (Val (mkProfile "guest-7" "customer" "profile:read" "id-a" remaining), Background, advance (advance (world_at 100))).
Proof.
  destruct (demo_issued guest) as (c & w & E); [by vm_compute|].
  destruct (RefreshAccess demo (mkRefreshRequest (sr_RefreshToken (demo_response guest))) Background (world_at 5))
    as [[o c3] w3] eqn:E3.
  assert (match o with Val r => (ar_ExpiresInSeconds r =? 300) | _ => false end = true) as Ho.
  { change o with (o, c3, w3).1.1. rewrite <- E3. by vm_compute. }
  destruct (refresh_grants_required_role counting_text demo demo_options demo_offered demo_new guest
           Background (world_at 0) (demo_response guest) c w Background (world_at 5) o c3 w3) as [Hown Hrefresh];
    [apply demo_texts|exact E|by vm_compute|by vm_compute|by vm_compute|exact E3|].
  split; [apply Hown; by vm_compute|]. clear E E3 Hown.
  destruct Hrefresh as [[e ->]|[->|(refreshed & -> & _ & Hval)]]; [discriminate Ho..|].
  exists refreshed. split; [reflexivity|].
  apply Hval; [by vm_compute|]. apply Z.eqb_eq in Ho. rewrite Ho. by vm_compute.
Defined.

(** Half a millennium promised, a third of a second granted. *)
Lemma access_token_lifetime_witness :
  sr_AccessExpiresInSeconds (demo_response eternal) = 18446744074 ∧
  (ValidateAccess demo (String.append "Bearer " (sr_AccessToken (demo_response eternal))) Background (world_at 1)).1.1 =
    Fail (Errorf "%w: token expired" [ErrExpiredToken] []).
Proof.
  destruct (demo_issued eternal) as (c & w & E); [by vm_compute|]. split; [by vm_compute|].
  destruct (access_token_lifetime counting_text demo demo_options demo_offered demo_new eternal
           Background (world_at 0) (demo_response eternal) c w Background (world_at 1) (proj2 (proj2 demo_texts))
           eternal_int64 E) as (_ & _ & Hdead). clear E. rewrite Hdead; [reflexivity|by vm_compute|by vm_compute].
Defined.
End Demo.
