(* ===== verification/MoneyLib.v ===== *)
(** What the pricing examples share: the interface of bluetape-go's money package with the laws theorems
    use, the formatting of amounts, and the calls each example wraps in the same way. *)
From Stdlib Require Import Ascii String QArith Qabs Lqa.
From S2P Require Import Prelude JwtLib.
Open Scope Z_scope.

#[local] Arguments String.append !_ _ : simpl nomatch.

(** ** The library *)

(** The money package: exact decimals with a currency. *)
Class MoneyTypes := { Currency : Type; Money : Type }.
Class MoneyLib `{MoneyTypes} := {
  ParseCurrency : string → GoError + Currency;
  Code : Currency → string;
  Scale : Currency → Z;
  MoneyNew : string → Currency → GoError + Money;
  MoneyZero : Currency → GoError + Money;
  Mul : Money → string → GoError + Money;
  Round : Money → GoError + Money;
  Add : Money → Money → GoError + Money;
  Sub : Money → Money → GoError + Money;
  Cmp : Money → Money → GoError + Z;
  Amount : Money → string;
  CurrencyOf : Money → Currency
}.
Definition moneyErrors : list string := ["money.ErrInvalidCurrency"; "money.ErrInvalidMoney"; "money.ErrInvalidAmount"].
Definition moneyErrCurrencyMismatch : string := "money.ErrCurrencyMismatch".

(** ** Decimal numerals *)

(** [strings.Cut] at a dot. *)
Fixpoint Cut_dot (s : string) : option (string * string) :=
  match s with
  | EmptyString => None
  | String c rest =>
      if bool_decide (c = "."%char) then Some ("", rest)
      else match Cut_dot rest with Some (before, after) => Some (String c before, after) | None => None end
  end.
Definition digit_value (c : ascii) : option Z :=
  let n := nat_of_ascii c in if byte_in 48 57 n then Some (Z.of_nat n - 48) else None.
Fixpoint digits_value (s : string) (acc : Z) : option Z :=
  match s with
  | EmptyString => Some acc
  | String c rest => match digit_value c with Some d => digits_value rest (acc * 10 + d) | None => None end
  end.
Definition pow10 (k : Z) : positive := Z.to_pos (10 ^ k).
(** Digits, and how many of them stand behind the dot. *)
Definition unsigned_parts (s : string) : option (Z * nat) :=
  match Cut_dot s with
  | None => option_map (λ z, (z, O)) (digits_value s 0)
  | Some (whole, frac) => option_map (λ z, (z, String.length frac)) (digits_value (whole ++ frac) 0)
  end.
Definition decimal_parts (s : string) : option (Z * nat) :=
  if starts_with "-" s then option_map (λ p, (- fst p, snd p)) (unsigned_parts (drop_str 1 s)) else unsigned_parts s.
Definition parts_value (p : Z * nat) : Q := Qmake (fst p) (pow10 (Z.of_nat (snd p))).
(** The number a plain decimal numeral denotes. *)
Definition decimal (s : string) : option Q := option_map parts_value (decimal_parts s).

(** ** Laws *)

(** A scale counts the digits of a minor unit. *)
Class ScaleLaws `{MoneyLib} : Prop := scale_range c : 0 <= Scale c < 2 ^ 32.

(** Money is an exact number of a currency; arithmetic is exact and stays in the currency; rounding goes
    to a nearest multiple of the minor unit; an amount is printed as the numeral of its value. *)
Class MoneyValues `{MoneyLib} := value : Money → Q.
Definition minor `{MoneyLib} (c : Currency) : positive := pow10 (Scale c).
Definition rounded `{MoneyValues} (m : Money) : Prop := ∃ z, value m == Qmake z (minor (CurrencyOf m)).
(** [m] is [q] of the currency [c], rounded. *)
Definition nearest `{MoneyValues} (q : Q) (c : Currency) (m : Money) : Prop :=
  CurrencyOf m = c ∧ rounded m ∧ (2 * Qabs (value m - q) <= 1 # minor c)%Q.
(** A rounded share of a base where a rule applies, and nothing elsewhere. *)
Definition share `{MoneyValues} (base : Money) (factor : Q) (applies : bool) (m : Money) : Prop :=
  CurrencyOf m = CurrencyOf base ∧ rounded m ∧
  if applies then nearest (value base * factor) (CurrencyOf base) m else (value m == 0)%Q.
(** A priced line with the 5 % discount and the 20 % tax on the rest, where the rules apply. *)
Record LinePrice `{MoneyTypes} := mkLine { lp_line : Money; lp_discount : Money; lp_tax : Money }.
#[global] Arguments mkLine {_} _ _ _.
Definition rules_price `{MoneyValues} (discounted taxed : bool) (p : LinePrice) : Prop :=
  share (lp_line p) (5 # 100) discounted (lp_discount p) ∧
  ∃ base, Sub (lp_line p) (lp_discount p) = inr base ∧ (value base == value (lp_line p) - value (lp_discount p))%Q ∧
     share base (20 # 100) taxed (lp_tax p).
Definition sum_of `{MoneyValues} {A} (part : A → Money) (xs : list A) : Q :=
  foldr (λ x acc, value (part x) + acc)%Q 0%Q xs.
Class MoneyLaws `{MoneyValues} : Prop := {
  zero_law c m : MoneyZero c = inr m → value m == 0 ∧ CurrencyOf m = c;
  new_law s c q m : decimal s = Some q → MoneyNew s c = inr m → value m == q;
  new_currency s c m : MoneyNew s c = inr m → CurrencyOf m = c;
  mul_law a s q m : decimal s = Some q → Mul a s = inr m → value m == value a * q;
  mul_currency a s m : Mul a s = inr m → CurrencyOf m = CurrencyOf a;
  add_law a b m : Add a b = inr m → value m == value a + value b ∧ CurrencyOf b = CurrencyOf a ∧ CurrencyOf m = CurrencyOf a;
  sub_law a b m : Sub a b = inr m → value m == value a - value b ∧ CurrencyOf b = CurrencyOf a ∧ CurrencyOf m = CurrencyOf a;
  round_law a m : Round a = inr m → nearest (value a) (CurrencyOf a) m;
  cmp_law a b z : Cmp a b = inr z → 0 < z ↔ (value b < value a)%Q;
  amount_law m : ∃ q, decimal (Amount m) = Some q ∧ q == value m
}.

(** ** Formatting amounts *)

Record MoneyValue := mkMoneyValue { mv_Amount : string; mv_Currency : string }.
(** A call that may panic with a value otherwise. *)
Definition or_panic {S A} (r : option A) : GoM S A := match r with Some a => ret a | None => panic end.

(** An amount with [scale] digits behind the dot; [None]: a slice or a repetition panics. *)
Definition fixed_amount (amount : string) (scale : Z) : option string :=
  let negative := starts_with "-" amount in
  let sign := if negative then "-" else "" in
  let amount := if negative then TrimPrefix amount "-" else amount in
  match Cut_dot amount with
  | None =>
      match Repeat "0" scale with Some zeros => Some (sign ++ amount ++ "." ++ zeros)%string | None => None end
  | Some (whole, fractional) =>
      if scale <=? Z.of_nat (String.length fractional) then
        match go_slice fractional 0 scale with Some digits => Some (sign ++ whole ++ "." ++ digits)%string | None => None end
      else
        match Repeat "0" (scale - Z.of_nat (String.length fractional)) with
        | Some zeros => Some (sign ++ whole ++ "." ++ fractional ++ zeros)%string
        | None => None
        end
  end.
(** The two variants: without a minor unit, the whole part, or the amount as it is. *)
Definition format_whole (amount : string) (scale : Z) : option string :=
  if scale =? 0 then Some (match Cut_dot amount with Some (whole, _) => whole | None => amount end)
  else fixed_amount amount scale.
Definition format_plain (amount : string) (scale : Z) : option string :=
  if scale =? 0 then Some amount else fixed_amount amount scale.

(** ** The calls of the examples *)

Section Calls.
Context `{MoneyLib} {St : Type} (wrap : GoError → GoError) (format : string → Z → option string).

(** [x, err := m; if err != nil { return mapMoneyError(err) }]. *)
Definition money_call {A} (r : GoError + A) : GoM St A := or_fail wrap r.
Definition money_value (value : Money) : GoM St MoneyValue :=
  let! amount := or_panic (format (Amount value) (Scale (CurrencyOf value))) in
  ret (mkMoneyValue amount (Code (CurrencyOf value))).
Definition rounded_zero (currency : Currency) : GoM St Money :=
  let! zero := money_call (MoneyZero currency) in money_call (Round zero).
(** [a.Mul(factor)], rounded. *)
Definition rounded_share (base : Money) (factor : string) : GoM St Money :=
  let! part := money_call (Mul base factor) in money_call (Round part).
End Calls.

(** ** Formatting *)

Lemma Repeat_zeros n : 0 <= n < 2 ^ 63 → Repeat "0" n = Some (repeat_str "0" (Z.to_nat n)).
Proof.
  intros Hn. unfold Repeat. cbn [String.length]. destruct (Z.ltb_spec n 0); [lia|].
  by destruct (Z.ltb_spec (2 ^ 63 - 1) (Z.of_nat 1 * n)); [lia|].
Qed.
Lemma zeros_length n : String.length (repeat_str "0" n) = n.
Proof. induction n as [|n IH]; [done|]. cbn. by rewrite IH. Qed.
Lemma take_length n s : (n <= String.length s)%nat → String.length (take_str n s) = n.
Proof. revert s. induction n as [|n IH]; intros [|c s]; cbn; try lia. intros ?. rewrite IH; lia. Qed.

(** The text of a fixed amount: sign, whole part, dot and exactly [scale] digits. *)
Definition unsigned (s : string) : string := if starts_with "-" s then TrimPrefix s "-" else s.
Definition sign_of (s : string) : string := if starts_with "-" s then "-" else "".
Definition whole_part (s : string) : string := match Cut_dot s with Some (whole, _) => whole | None => s end.
Definition frac_part (s : string) : string := match Cut_dot s with Some (_, frac) => frac | None => "" end.
Definition exactly (scale : nat) (frac : string) : string :=
  (take_str scale frac ++ repeat_str "0" (scale - String.length frac))%string.

Lemma exactly_length scale frac : String.length (exactly scale frac) = scale.
Proof.
  unfold exactly. rewrite append_length_s, zeros_length. destruct (Nat.le_gt_cases scale (String.length frac)).
  - rewrite take_length; lia.
  - assert (∀ n s, (String.length s <= n)%nat → take_str n s = s) as ->; [|lia|lia].
    induction n as [|n IH]; intros [|c s]; cbn; try done; try lia. intros ?. rewrite IH; [done|lia].
Qed.
Lemma take_all n s : (String.length s <= n)%nat → take_str n s = s.
Proof. revert s. induction n as [|n IH]; intros [|c s]; cbn; try done; try lia. intros ?. rewrite IH; [done|lia]. Qed.

Lemma fixed_amount_text amount scale :
  0 <= scale < 2 ^ 32 →
  fixed_amount amount scale =
    Some (sign_of amount ++ whole_part (unsigned amount) ++ "." ++ exactly (Z.to_nat scale) (frac_part (unsigned amount)))%string.
Proof.
  intros Hs. unfold fixed_amount, whole_part, frac_part, exactly. fold (sign_of amount). fold (unsigned amount).
  destruct (Cut_dot (unsigned amount)) as [[whole frac]|].
  - destruct (Z.leb_spec scale (Z.of_nat (String.length frac))).
    + assert (go_slice frac 0 scale = Some (take_str (Z.to_nat scale) frac)) as ->.
      { unfold go_slice. rewrite Z.sub_0_r. destruct (Z.leb_spec 0 0), (Z.leb_spec 0 scale), (Z.leb_spec scale (Z.of_nat (String.length frac)));
          (done || lia). }
      replace (Z.to_nat scale - String.length frac)%nat with O by lia. cbn [repeat_str]. by rewrite append_nil_r_s.
    + rewrite Repeat_zeros by lia. rewrite take_all by lia. by rewrite Z2Nat.inj_sub, Nat2Z.id by lia.
  - rewrite Repeat_zeros by lia. cbn [String.length]. rewrite Nat.sub_0_r. by destruct (Z.to_nat scale).
Qed.

(** A format that never panics on a currency's amounts. *)
Definition total_format (format : string → Z → option string) : Prop :=
  ∀ amount scale, 0 <= scale < 2 ^ 32 → is_Some (format amount scale).
Lemma format_whole_total : total_format format_whole.
Proof. intros amount scale Hs. unfold format_whole. destruct (scale =? 0); [eauto|]. rewrite fixed_amount_text by done. eauto. Qed.
Lemma format_plain_total : total_format format_plain.
Proof. intros amount scale Hs. unfold format_plain. destruct (scale =? 0); [eauto|]. rewrite fixed_amount_text by done. eauto. Qed.

(** ** Pure methods *)

Section Pure.
Context `{MT : MoneyTypes} `{ML : !MoneyLib} {St : Type}.

(** Pricing reads no context and touches no state. *)
Definition pure_method {A} (m : GoM St A) : Prop := ∃ o, o ≠ Panic ∧ ∀ c s, m c s = (o, c, s).

Lemma pure_ret {A} (a : A) : pure_method (ret a).
Proof. by exists (Val a). Qed.
Lemma pure_throw {A} e : pure_method (throw e : GoM St A).
Proof. by exists (Fail e). Qed.
Lemma pure_fail_if e : pure_method (fail_if e).
Proof. destruct e; [apply pure_throw|apply pure_ret]. Qed.
Lemma pure_or_fail {A} f (r : GoError + A) : pure_method (or_fail f r).
Proof. destruct r; [apply pure_throw|apply pure_ret]. Qed.
Lemma pure_money {A} wrap (r : GoError + A) : pure_method (money_call wrap r).
Proof. apply pure_or_fail. Qed.
Lemma pure_bind {A B} (m : GoM St A) (k : A → GoM St B) :
  pure_method m → (∀ a, pure_method (k a)) → pure_method (bind m k).
Proof.
  intros (o & Ho & Hm) Hk. destruct o as [a|e|]; [|by exists (Fail e); split; [done|]; intros; unfold bind; rewrite Hm|done].
  destruct (Hk a) as (o & Ho' & Hka). exists o. split; [done|]. intros c s. unfold bind. rewrite Hm. apply Hka.
Qed.
Lemma pure_if {A} (b : bool) (m k : GoM St A) : pure_method m → pure_method k → pure_method (if b then m else k).
Proof. by destruct b. Qed.
Lemma pure_foldM_in {A B} (xs : list A) (f : A → B → GoM St B) b :
  (∀ x b, x ∈ xs → pure_method (f x b)) → pure_method (foldM xs f b).
Proof.
  revert b. induction xs as [|x xs IH]; intros b Hf; [apply pure_ret|].
  apply pure_bind; [apply Hf; left|]. intros b'. apply IH. intros y b'' Hy. apply Hf. by right.
Qed.
Lemma pure_foldM {A B} (xs : list A) (f : A → B → GoM St B) b :
  (∀ x b, pure_method (f x b)) → pure_method (foldM xs f b).
Proof. intros Hf. apply pure_foldM_in. auto. Qed.
Lemma pure_money_value `{SL : !ScaleLaws} format v : total_format format → pure_method (money_value format v).
Proof.
  intros Hf. apply pure_bind; [|intros; apply pure_ret]. destruct (Hf (Amount v) _ (scale_range (CurrencyOf v))) as [t ->].
  apply pure_ret.
Qed.
Lemma pure_rounded_zero wrap c : pure_method (rounded_zero wrap c).
Proof. apply pure_bind; intros; apply pure_money. Qed.
Lemma pure_rounded_share wrap m s : pure_method (rounded_share wrap m s).
Proof. apply pure_bind; intros; apply pure_money. Qed.
End Pure.
#[export] Hint Resolve format_whole_total format_plain_total : gom.
#[export] Hint Resolve pure_ret pure_throw pure_fail_if pure_or_fail pure_money pure_bind pure_if pure_foldM pure_money_value
  pure_rounded_zero pure_rounded_share : gom.

(** ** Minor units *)

Lemma minor_le a b u : (2 * Qmake a u <= 2 * Qmake b u + Qmake 1 u)%Q → a <= b.
Proof. unfold Qle, Qplus, Qmult. cbn. rewrite ?Pos2Z.inj_mul. nia. Qed.
Lemma minor_le_Q a b u : a <= b → (Qmake a u <= Qmake b u)%Q.
Proof. unfold Qle. cbn. nia. Qed.

Section Values.
Context `{MT : MoneyTypes} `{ML : !MoneyLib} `{MV : !MoneyValues}.

Lemma nearest_bounds q c m :
  nearest q c m → (2 * value m <= 2 * q + (1 # minor c))%Q ∧ (2 * q <= 2 * value m + (1 # minor c))%Q.
Proof.
  intros (_ & _ & H). destruct (Qabs_Qle_condition (value m - q) ((1 # minor c) * (1 # 2))) as [[H1 H2] _].
  { set (a := Qabs (value m - q)) in *. lra. }
  split; lra.
Qed.
Lemma rounded_in m c : rounded m → CurrencyOf m = c → ∃ z, (value m == Qmake z (minor c))%Q.
Proof. by intros [z Hz] <-; exists z. Qed.

(** Rounding does not cross what is rounded already. *)
Lemma nearest_le q c m b : nearest q c m → rounded b → CurrencyOf b = c → (q <= value b)%Q → (value m <= value b)%Q.
Proof.
  intros Hn Hb Hc Hq. destruct (nearest_bounds _ _ _ Hn) as [H _]. destruct Hn as (Hm & Hr & _).
  destruct (rounded_in _ _ Hr Hm) as [z Hz], (rounded_in _ _ Hb Hc) as [y Hy]. rewrite Hz, Hy in *.
  apply minor_le_Q, (minor_le _ _ (minor c)). lra.
Qed.
Lemma nearest_ge q c m b : nearest q c m → rounded b → CurrencyOf b = c → (value b <= q)%Q → (value b <= value m)%Q.
Proof.
  intros Hn Hb Hc Hq. destruct (nearest_bounds _ _ _ Hn) as [_ H]. destruct Hn as (Hm & Hr & _).
  destruct (rounded_in _ _ Hr Hm) as [z Hz], (rounded_in _ _ Hb Hc) as [y Hy]. rewrite Hz, Hy in *.
  apply minor_le_Q, (minor_le _ _ (minor c)). lra.
Qed.
Lemma nearest_fixed a m : rounded a → nearest (value a) (CurrencyOf a) m → (value m == value a)%Q.
Proof.
  intros Ha Hn. apply Qle_antisym; [eapply nearest_le|eapply nearest_ge]; try done; lra.
Qed.
Lemma nearest_ext q q' c m : (q == q')%Q → nearest q c m → nearest q' c m.
Proof. intros Hq (H1 & H2 & H3). split; [done|]. split; [done|]. by rewrite <- Hq. Qed.

(** A share of something positive lies between nothing and all of it. *)
Lemma share_bounds base factor applies m :
  rounded base → (0 <= value base)%Q → (0 <= factor <= 1)%Q → share base factor applies m →
  (0 <= value m <= value base)%Q.
Proof.
  intros Hr Hb [Hf1 Hf2] (Hc & Hm & H). destruct applies; [|rewrite H; split; lra].
  assert (0 <= value base * factor)%Q as Hlow by (by apply Qmult_le_0_compat).
  assert (value base * factor <= value base)%Q as Hhigh by (set (v := value base) in *; nra).
  split; [|by eapply nearest_le].
  destruct (nearest_bounds _ _ _ H) as [_ Hn]. destruct (rounded_in _ _ Hm Hc) as [z Hz]. rewrite Hz in *.
  apply (Qle_trans _ (0 # minor (CurrencyOf base))); [by unfold Qle|]. apply minor_le_Q, (minor_le _ _ (minor (CurrencyOf base))).
  assert (0 # minor (CurrencyOf base) == 0)%Q as -> by done. lra.
Qed.

Lemma sum_of_cons {A} (part : A → Money) x xs : (sum_of part (x :: xs) == value (part x) + sum_of part xs)%Q.
Proof. done. Qed.
Lemma sum_of_one {A} (part : A → Money) x : (sum_of part [x] == value (part x))%Q.
Proof. unfold sum_of. cbn [foldr]. ring. Qed.
Lemma sum_of_app {A} (part : A → Money) xs ys : (sum_of part (xs ++ ys) == sum_of part xs + sum_of part ys)%Q.
Proof.
  induction xs as [|x xs IH]; [unfold sum_of; cbn [app foldr]; ring|]. cbn [app]. rewrite !sum_of_cons, IH. ring.
Qed.

Context `{MLW : !MoneyLaws}.

Lemma add_rounded a b m : rounded a → rounded b → Add a b = inr m → rounded m.
Proof.
  intros [x Hx] [y Hy] (Hv & Hb & Hm)%add_law. exists (x + y). rewrite Hv, Hx, Hy, Hm, Hb.
  unfold Qeq, Qplus. cbn. rewrite !Pos2Z.inj_mul. lia.
Qed.
Lemma sub_rounded a b m : rounded a → rounded b → Sub a b = inr m → rounded m.
Proof.
  intros [x Hx] [y Hy] (Hv & Hb & Hm)%sub_law. exists (x - y). rewrite Hv, Hx, Hy, Hm, Hb.
  unfold Qeq, Qplus, Qminus, Qopp. cbn. rewrite !Pos2Z.inj_mul. lia.
Qed.
(** On a line that is not negative the discount takes at most the line, and the tax adds at most the rest. *)
Lemma rules_price_bounds discounted taxed p :
  rounded (lp_line p) → (0 <= value (lp_line p))%Q → rules_price discounted taxed p →
  (0 <= value (lp_discount p) <= value (lp_line p))%Q ∧
  (0 <= value (lp_tax p) <= value (lp_line p) - value (lp_discount p))%Q.
Proof.
  intros Hr Hpos (Hd & base & Hs & Hb & Ht).
  destruct (share_bounds (lp_line p) (5 # 100) discounted (lp_discount p) Hr Hpos) as [Hd1 Hd2]; [split; by vm_compute|done|].
  assert (rounded base) as Hrb by (eapply sub_rounded; [done|apply Hd|done]).
  destruct (share_bounds base (20 # 100) taxed (lp_tax p) Hrb) as [Ht1 Ht2]; [rewrite Hb; lra|split; by vm_compute|done|].
  by rewrite Hb in Ht2.
Qed.
Lemma round_fixed a m : rounded a → Round a = inr m → (value m == value a)%Q.
Proof. intros Ha Hr%round_law. by apply nearest_fixed. Qed.
Lemma zero_rounded c m : MoneyZero c = inr m → rounded m.
Proof. intros [Hv _]%zero_law. exists 0. by rewrite Hv. Qed.

(** ** Calls that succeed *)

Context {St : Type} (wrap : GoError → GoError) (format : string → Z → option string).

(** How a response shows money. *)
Definition shown (m : Money) (v : MoneyValue) : Prop :=
  format (Amount m) (Scale (CurrencyOf m)) = Some (mv_Amount v) ∧ mv_Currency v = Code (CurrencyOf m).

Lemma bind_val {A B} (m : GoM St A) (k : A → GoM St B) c s b c' s' :
  bind m k c s = (Val b, c', s') → ∃ a c1 s1, m c s = (Val a, c1, s1) ∧ k a c1 s1 = (Val b, c', s').
Proof. intros [H|[(? & [=] & _)|([=] & _)]]%bind_inv. exact H. Qed.
Lemma foldM_val {A B} (I : list A → B → Prop) (f : A → B → GoM St B) xs b c s b' c' s' :
  I [] b → (∀ seen x b c s b' c' s', I seen b → f x b c s = (Val b', c', s') → I (seen ++ [x]) b') →
  foldM xs f b c s = (Val b', c', s') → I xs b'.
Proof.
  intros H0 Hstep. change (I xs b') with (I ([] ++ xs) b'). revert H0. generalize (@nil A) as seen.
  revert b c s. induction xs as [|x xs IH]; intros b c s seen H0; cbn [foldM].
  { intros [= <- _ _]. by rewrite app_nil_r. }
  intros (b1 & c1 & s1 & H1 & H2)%bind_val. rewrite cons_middle, app_assoc. eapply IH, H2. by eapply Hstep, H1.
Qed.
Lemma money_call_val {A} (r : GoError + A) c (s : St) a c' s' :
  money_call wrap r c s = (Val a, c', s') → r = inr a ∧ c' = c ∧ s' = s.
Proof. by intros (-> & -> & [(? & [= <-] & ->)|(? & [=] & _)])%or_fail_run. Qed.
Lemma money_value_val m c (s : St) v c' s' : money_value format m c s = (Val v, c', s') → shown m v ∧ c' = c ∧ s' = s.
Proof.
  unfold money_value, bind, or_panic, shown. destruct (format _ _) as [t|]; [|done]. by intros [= <- <- <-].
Qed.
Lemma rounded_zero_val cur c (s : St) z c' s' :
  rounded_zero wrap cur c s = (Val z, c', s') → (value z == 0)%Q ∧ rounded z ∧ CurrencyOf z = cur.
Proof.
  intros (z0 & c1 & s1 & (Hz & _ & _)%money_call_val & (Hr & _ & _)%money_call_val)%bind_val. destruct (zero_law _ _ Hz) as [Hv Hc].
  pose proof (round_law _ _ Hr) as (Hcz & Hrz & _). split; [|split; [done|congruence]].
  by rewrite (round_fixed _ _ (zero_rounded _ _ Hz) Hr).
Qed.
Lemma rounded_share_val a factor q c (s : St) m c' s' :
  decimal factor = Some q → rounded_share wrap a factor c s = (Val m, c', s') →
  nearest (value a * q) (CurrencyOf a) m.
Proof.
  intros Hq (p & c1 & s1 & (Hp & _ & _)%money_call_val & (Hr & _ & _)%money_call_val)%bind_val. apply round_law in Hr.
  rewrite (mul_currency _ _ _ Hp) in Hr. eapply nearest_ext, Hr. exact (mul_law _ _ _ _ Hq Hp).
Qed.
Lemma zero_share base factor c (s : St) z c' s' :
  rounded_zero wrap (CurrencyOf base) c s = (Val z, c', s') → share base factor false z.
Proof. intros (Hz & Hr & Hc)%rounded_zero_val. exact (conj Hc (conj Hr Hz)). Qed.
Lemma share_run base text factor c (s : St) m c' s' :
  decimal text = Some factor → rounded_share wrap base text c s = (Val m, c', s') → share base factor true m.
Proof.
  intros Hf Hm. apply (rounded_share_val _ _ _ _ _ _ _ _ Hf) in Hm. pose proof Hm as (Hc & Hr & _).
  exact (conj Hc (conj Hr Hm)).
Qed.
End Values.

(** ** Shown amounts parse back *)

Lemma digits_app a b acc :
  digits_value (a ++ b) acc = match digits_value a acc with Some x => digits_value b x | None => None end.
Proof. revert acc. induction a as [|c a IH]; intros acc; cbn; [done|]. by destruct (digit_value c). Qed.
Lemma digit_range c d : digit_value c = Some d → 0 <= d < 10.
Proof.
  unfold digit_value, byte_in. destruct ((48 <=? nat_of_ascii c)%nat && (nat_of_ascii c <=? 57)%nat) eqn:E; [|done].
  intros [= <-]. apply andb_true_iff in E as [E1%Nat.leb_le E2%Nat.leb_le]. lia.
Qed.
Lemma digits_shift s acc x :
  digits_value s acc = Some x →
  ∃ r, 0 <= r < 10 ^ Z.of_nat (String.length s) ∧ x = acc * 10 ^ Z.of_nat (String.length s) + r.
Proof.
  revert acc x. induction s as [|c s IH]; intros acc x; cbn [digits_value String.length].
  { intros [= <-]. exists 0. cbn. lia. }
  destruct (digit_value c) as [d|] eqn:Ed; [|done]. apply digit_range in Ed. intros (r & Hr & ->)%IH.
  rewrite Nat2Z.inj_succ, Z.pow_succ_r by lia. exists (d * 10 ^ Z.of_nat (String.length s) + r). split; [nia|lia].
Qed.
Lemma digits_zeros n acc : digits_value (repeat_str "0" n) acc = Some (acc * 10 ^ Z.of_nat n).
Proof.
  revert acc. induction n as [|n IH]; intros acc; [cbn; f_equal; lia|].
  change (digits_value (repeat_str "0" (S n)) acc) with (digits_value (repeat_str "0" n) (acc * 10 + 0)). rewrite IH, Nat2Z.inj_succ, Z.pow_succ_r by lia. f_equal. lia.
Qed.
Lemma cut_none s t : Cut_dot s = None → Cut_dot (s ++ String "." t) = Some (s, t).
Proof.
  induction s as [|c s IH]; [done|]. cbn [Cut_dot String.append]. case_bool_decide; [done|].
  destruct (Cut_dot s) as [[? ?]|] eqn:E; [done|]. intros _. rewrite IH by done. done.
Qed.
Lemma cut_some s a b : Cut_dot s = Some (a, b) → s = (a ++ String "." b)%string ∧ Cut_dot a = None.
Proof.
  revert a. induction s as [|c s IH]; intros a; cbn [Cut_dot]; [done|]. case_bool_decide as Hc; [by intros [= <- <-]; subst|].
  destruct (Cut_dot s) as [[x y]|] eqn:E; [|done]. intros [= <- <-]. destruct (IH _ eq_refl) as [-> Hx]. split; [done|].
  cbn. by rewrite bool_decide_eq_false_2, Hx.
Qed.
Lemma starts_with_head_eq c s : starts_with "-" (String c s) = if ascii_dec "-" c then true else false.
Proof. rewrite starts_with_cons. destruct (ascii_dec "-" c); [by destruct s|done]. Qed.
Lemma take_drop s n : (take_str n s ++ drop_str n s)%string = s.
Proof. revert n. induction s as [|c s IH]; intros [|n]; cbn; try done. by rewrite IH. Qed.

(** Cutting or padding the fraction keeps a value that is a multiple of the last place. *)
Lemma exactly_digits whole frac n scale :
  digits_value (whole ++ frac) 0 = Some n →
  ∃ n', digits_value (whole ++ exactly scale frac) 0 = Some n' ∧
    ((String.length frac <= scale)%nat ∧ n' = n * 10 ^ Z.of_nat (scale - String.length frac) ∨
     (scale < String.length frac)%nat ∧
       ∃ r, 0 <= r < 10 ^ Z.of_nat (String.length frac - scale) ∧ n = n' * 10 ^ Z.of_nat (String.length frac - scale) + r).
Proof.
  intros Hn. unfold exactly. destruct (Nat.le_gt_cases (String.length frac) scale) as [Hle|Hlt].
  - rewrite take_all by done. eexists. split; [|by left].
    by rewrite <- append_assoc_s, digits_app, Hn, digits_zeros.
  - replace (scale - String.length frac)%nat with O by lia. cbn [repeat_str]. rewrite append_nil_r_s.
    rewrite <- (take_drop frac scale), <- append_assoc_s, digits_app in Hn.
    destruct (digits_value (whole ++ take_str scale frac) 0) as [n'|]; [|done]. exists n'. split; [done|]. right. split; [done|].
    apply digits_shift in Hn as (r & Hr & ->). exists r.
    assert (String.length (drop_str scale frac) = String.length frac - scale)%nat as El.
    { clear. revert frac. induction scale as [|k IH]; intros frac; [cbn; lia|]. destruct frac; cbn; [done|apply IH]. }
    rewrite El in *. done.
Qed.

Lemma pow10_pos k : Z.pos (pow10 (Z.of_nat k)) = 10 ^ Z.of_nat k.
Proof. unfold pow10. rewrite Z2Pos.id; [done|]. apply Z.pow_pos_nonneg; lia. Qed.
Lemma exactly_value sgn n n' k scale z :
  (Qmake (sgn * n) (pow10 (Z.of_nat k)) == Qmake z (pow10 (Z.of_nat scale)))%Q → sgn = 1 ∨ sgn = -1 →
  ((k <= scale)%nat ∧ n' = n * 10 ^ Z.of_nat (scale - k) ∨
   (scale < k)%nat ∧ ∃ r, 0 <= r < 10 ^ Z.of_nat (k - scale) ∧ n = n' * 10 ^ Z.of_nat (k - scale) + r) →
  (Qmake (sgn * n') (pow10 (Z.of_nat scale)) == Qmake (sgn * n) (pow10 (Z.of_nat k)))%Q.
Proof.
  unfold Qeq. cbn [Qnum Qden]. rewrite !pow10_pos. intros Hz Hs [[Hle ->]|(Hlt & r & Hr & ->)].
  - replace scale with (k + (scale - k))%nat at 2 by lia. rewrite Nat2Z.inj_add, Z.pow_add_r by lia. lia.
  - assert (10 ^ Z.of_nat k = 10 ^ Z.of_nat scale * 10 ^ Z.of_nat (k - scale)) as Ek.
    { rewrite <- Z.pow_add_r by lia. f_equal. lia. }
    rewrite Ek in *. set (a := 10 ^ Z.of_nat (k - scale)) in *. set (b := 10 ^ Z.of_nat scale) in *.
    assert (0 < b) by (apply Z.pow_pos_nonneg; lia).
    assert (sgn * (n' * a + r) = z * a) as E by nia. assert (r = 0) as ->; [|lia].
    assert (r = a * (sgn * z - n')) as Er by (destruct Hs as [-> | ->]; nia).
    destruct (Z.lt_trichotomy (sgn * z - n') 0) as [?|[?|?]]; nia.
Qed.

Lemma decimal_fixed amount q scale z :
  decimal amount = Some q → (q == Qmake z (pow10 scale))%Q → 0 <= scale < 2 ^ 32 →
  ∃ t q', fixed_amount amount scale = Some t ∧ decimal t = Some q' ∧ (q' == q)%Q.
Proof.
  intros Hd Hq Hs. rewrite fixed_amount_text by done.
  assert (∃ sgn n, (sgn = 1 ∨ sgn = -1) ∧ sgn = (if starts_with "-" amount then -1 else 1) ∧
    digits_value (whole_part (unsigned amount) ++ frac_part (unsigned amount)) 0 = Some n ∧
    q = Qmake (sgn * n) (pow10 (Z.of_nat (String.length (frac_part (unsigned amount)))))) as (sgn & n & Hsgn & Esgn & Hn & ->).
  { unfold decimal, decimal_parts in Hd. unfold unsigned, TrimPrefix. destruct (starts_with "-" amount);
      unfold unsigned_parts in Hd; unfold whole_part, frac_part; cbn [String.length] in *.
    - destruct (Cut_dot (drop_str 1 amount)) as [[w f]|]; [|rewrite append_nil_r_s];
        (destruct (digits_value _ 0) as [n|]; [|done]); injection Hd as <-; exists (-1), n;
        (split; [by right|]); (split; [done|]); (split; [done|]); unfold parts_value; cbn [fst snd]; f_equal; lia.
    - destruct (Cut_dot amount) as [[w f]|]; [|rewrite append_nil_r_s];
        (destruct (digits_value _ 0) as [n|]; [|done]); injection Hd as <-; exists 1, n;
        (split; [by left|]); (split; [done|]); (split; [done|]); unfold parts_value; cbn [fst snd]; f_equal; lia. }
  destruct (exactly_digits _ _ _ (Z.to_nat scale) Hn) as (n' & Hn' & Hcase).
  assert (Cut_dot (whole_part (unsigned amount)) = None ∧
          (starts_with "-" amount = false → starts_with "-" (whole_part (unsigned amount) ++ "." ++
             exactly (Z.to_nat scale) (frac_part (unsigned amount))) = false)) as [Hcut Hstart].
  { unfold whole_part, frac_part. destruct (Cut_dot (unsigned amount)) as [[w f]|] eqn:E.
    - apply cut_some in E as [E Hw]. split; [done|]. intros Hno. unfold unsigned in E. rewrite Hno in E. subst amount.
      destruct w as [|c w]; [done|]. cbn [String.append] in *. rewrite starts_with_head_eq in *. done.
    - split; [done|]. intros Hno. unfold unsigned in *. rewrite Hno in *. destruct amount as [|c w]; [done|].
      cbn [String.append] in *. rewrite starts_with_head_eq in *. done. }
  exists (sign_of amount ++ whole_part (unsigned amount) ++ "." ++ exactly (Z.to_nat scale) (frac_part (unsigned amount)))%string,
    (Qmake (sgn * n') (pow10 (Z.of_nat (Z.to_nat scale)))). split; [done|].
  assert (Qmake (sgn * n') (pow10 (Z.of_nat (Z.to_nat scale))) == Qmake (sgn * n) (pow10 (Z.of_nat (String.length (frac_part (unsigned amount))))))%Q as Hval.
  { eapply exactly_value; [|done|exact Hcase]. rewrite Hq, Z2Nat.id by lia. done. }
  split; [|exact Hval]. clear Hd Hval. unfold decimal, decimal_parts, sign_of. destruct (starts_with "-" amount).
  - assert (∀ s, starts_with "-" (String "-" s) = true) as Hm by by intros []. cbn [String.append]. rewrite Hm. cbn [drop_str].
    unfold unsigned_parts. rewrite (cut_none _ _ Hcut), Hn'. cbn [option_map fst snd].
    unfold parts_value. cbn [fst snd]. rewrite exactly_length. do 2 f_equal. lia.
  - cbn [String.append] in *. rewrite Hstart by done. unfold unsigned_parts. rewrite (cut_none _ _ Hcut), Hn'.
    cbn [option_map fst snd]. unfold parts_value. cbn [fst snd]. rewrite exactly_length. do 2 f_equal. lia.
Qed.

Lemma digits_plain s acc x : digits_value s acc = Some x → Cut_dot s = None ∧ starts_with "-" s = false.
Proof.
  intros H. split.
  - revert acc H. induction s as [|c s IH]; intros acc; [done|]. cbn [digits_value Cut_dot].
    destruct (digit_value c) as [d|] eqn:Ed; [|done]. intros H. case_bool_decide as Hc; [by subst|]. by rewrite (IH _ H).
  - destruct s as [|c s]; [done|]. rewrite starts_with_head_eq. destruct (ascii_dec "-" c) as [<-|]; [|done]. cbn in H. done.
Qed.
Lemma digits_decimal s x : digits_value s 0 = Some x → decimal s = Some (Qmake x 1).
Proof.
  intros H. destruct (digits_plain _ _ _ H) as [Hc Hm]. unfold decimal, decimal_parts, unsigned_parts. by rewrite Hm, Hc, H.
Qed.
Lemma digits_pretty_go x s : digits_value (pretty_N_go x s) 0 = digits_value s (Z.of_N x).
Proof.
  revert s. induction (N.lt_wf_0 x) as [x _ IH]; intros s. destruct (decide (0 < x)%N) as [Hx|Hx].
  - rewrite pretty_N_go_step by done. rewrite IH by (apply N.div_lt; lia). cbn [digits_value].
    assert (digit_value (pretty_N_char (x mod 10)) = Some (Z.of_N (x mod 10))) as ->.
    { assert (x mod 10 < 10)%N as Hd by (apply N.mod_lt; lia). revert Hd. generalize (x mod 10)%N. intros d Hd.
      assert (d ∈ [0; 1; 2; 3; 4; 5; 6; 7; 8; 9]%N) as Hin by (rewrite !elem_of_cons; lia).
      rewrite !elem_of_cons, elem_of_nil in Hin. destruct_or! Hin; subst; by vm_compute. }
    f_equal. rewrite N2Z.inj_div, N2Z.inj_mod. pose proof (Z.div_mod (Z.of_N x) 10). lia.
  - assert (x = 0%N) as -> by lia. by rewrite pretty_N_go_0.
Qed.
Lemma digits_pretty z : 0 <= z → digits_value (pretty z) 0 = Some z.
Proof.
  intros Hz. destruct z as [|p|p]; [done| |lia].
  change (pretty (Z.pos p)) with (pretty (N.pos p)). unfold pretty, pretty_N. rewrite decide_False by done.
  by rewrite digits_pretty_go.
Qed.
Lemma decimal_pretty z : decimal (pretty z) = Some (Qmake z 1).
Proof.
  destruct (Z_le_gt_dec 0 z) as [Hz|Hz]; [by apply digits_decimal, digits_pretty|]. destruct z as [|p|p]; [lia..|].
  pose proof (digits_pretty (Z.pos p) ltac:(lia)) as Hd. change (pretty (Z.pos p)) with (pretty (N.pos p)) in Hd.
  change (pretty (Z.neg p)) with (String "-" (pretty (N.pos p))).
  unfold decimal, decimal_parts. rewrite starts_with_head_eq. cbn [drop_str]. destruct (ascii_dec "-" "-"); [|done].
  unfold unsigned_parts. by rewrite (proj1 (digits_plain _ _ _ Hd)), Hd.
Qed.

Section Shown.
Context `{MT : MoneyTypes} `{ML : !MoneyLib} `{SL : !ScaleLaws} `{MV : !MoneyValues} `{MLW : !MoneyLaws}.

(** What a response shows of a rounded amount parses back to it. *)
Lemma shown_decimal m v :
  rounded m → shown format_plain m v → ∃ q, decimal (mv_Amount v) = Some q ∧ (q == value m)%Q.
Proof.
  intros [z Hz] [Hf _]. destruct (amount_law m) as (q & Hq & Hv). unfold format_plain in Hf.
  destruct (Scale (CurrencyOf m) =? 0); [injection Hf as <-; eauto|].
  destruct (decimal_fixed (Amount m) q (Scale (CurrencyOf m)) z Hq) as (t & q' & Ht & Hq' & Heq).
  - by rewrite Hv, Hz.
  - apply scale_range.
  - rewrite Ht in Hf. injection Hf as <-. exists q'. split; [done|]. by rewrite Heq.
Qed.
End Shown.
