(* ===== verification/MoneyModel.v ===== *)
(** An implementation of the money interface that satisfies its laws: decimal numbers as a mantissa and a
    count of digits behind the dot, in three currencies, rounded half up. The witnesses run on it. *)
From Stdlib Require Import Ascii String QArith Qabs Lqa.
From S2P Require Import Prelude JwtLib MoneyLib.
Open Scope Z_scope.

#[local] Arguments String.append !_ _ : simpl nomatch.

(** ** Definitions *)

Record Decimal := mkDecimal { dc_mantissa : Z; dc_digits : nat; dc_currency : string }.
Definition ten (k : nat) : Z := 10 ^ Z.of_nat k.
(** The last [k] digits of a number. *)
Fixpoint last_digits (k : nat) (r : Z) : string :=
  match k with
  | O => ""
  | S k => last_digits k (r / 10) ++ String (pretty_N_char (Z.to_N (r mod 10))) ""
  end.
Definition show_unsigned (z : Z) (k : nat) : string :=
  (pretty (z / ten k) ++ (if (k =? 0)%nat then "" else "." ++ last_digits k z))%string.
Definition show_decimal (z : Z) (k : nat) : string :=
  if z <? 0 then ("-" ++ show_unsigned (- z) k)%string else show_unsigned z k.

Definition amount_error : GoError := Sentinel "money.ErrInvalidAmount" "money: invalid amount".
Definition currency_error : GoError := Sentinel "money.ErrInvalidCurrency" "money: invalid currency".
Definition mismatch_error : GoError := Sentinel moneyErrCurrencyMismatch "money: currency mismatch".
Definition minor_digits (c : string) : nat := if bool_decide (c = "JPY") then 0%nat else 2%nat.

Definition with_parts (s : string) (k : Z → nat → Decimal) : GoError + Decimal :=
  if bool_decide (s = "") then inl amount_error
  else match decimal_parts s with Some (z, n) => inr (k z n) | None => inl amount_error end.
Definition same_currency {A} (a b : Decimal) (v : A) : GoError + A :=
  if bool_decide (dc_currency b = dc_currency a) then inr v else inl mismatch_error.
(** Both mantissas at the finer of the two scales. *)
Definition aligned (f : Z → Z → Z) (a b : Decimal) : Decimal :=
  let n := Nat.max (dc_digits a) (dc_digits b) in
  mkDecimal (f (dc_mantissa a * ten (n - dc_digits a)) (dc_mantissa b * ten (n - dc_digits b))) n (dc_currency a).
Definition half_up (m : Decimal) : Decimal :=
  let s := minor_digits (dc_currency m) in
  mkDecimal ((2 * dc_mantissa m * ten s + ten (dc_digits m)) / (2 * ten (dc_digits m))) s (dc_currency m).
Definition compare_decimals (a b : Decimal) : Z := Z.sgn (dc_mantissa (aligned Z.sub a b)).

Definition decimal_types : MoneyTypes := {| Currency := string; Money := Decimal |}.
Definition decimal_money : @MoneyLib decimal_types :=
  @Build_MoneyLib decimal_types
    (λ s, if bool_decide (s ∈ ["USD"; "EUR"; "JPY"]) then inr s else inl currency_error)
    id (λ c, Z.of_nat (minor_digits c)) (λ s c, with_parts s (λ z n, mkDecimal z n c)) (λ c, inr (mkDecimal 0 0 c))
    (λ m s, with_parts s (λ z n, mkDecimal (dc_mantissa m * z) (dc_digits m + n) (dc_currency m)))
    (λ m, inr (half_up m)) (λ a b, same_currency a b (aligned Z.add a b)) (λ a b, same_currency a b (aligned Z.sub a b))
    (λ a b, same_currency a b (compare_decimals a b)) (λ m, show_decimal (dc_mantissa m) (dc_digits m)) dc_currency.
Definition decimal_value : @MoneyValues decimal_types decimal_money :=
  λ m : Decimal, Qmake (dc_mantissa m) (pow10 (Z.of_nat (dc_digits m))).

(** ** Laws *)

Lemma ten_pos k : 0 < ten k.
Proof. apply Z.pow_pos_nonneg; lia. Qed.
Lemma ten_add a b : ten (a + b) = ten a * ten b.
Proof. unfold ten. rewrite Nat2Z.inj_add, Z.pow_add_r; lia. Qed.
Lemma ten_split n k : (k <= n)%nat → ten n = ten k * ten (n - k).
Proof. intros Hk. rewrite <- ten_add. f_equal. lia. Qed.
Lemma pow10_ten k : Z.pos (pow10 (Z.of_nat k)) = ten k.
Proof. apply pow10_pos. Qed.

Lemma last_digits_length k r : String.length (last_digits k r) = k.
Proof. revert r. induction k as [|k IH]; intros r; [done|]. cbn [last_digits]. rewrite append_length_s, IH. cbn. lia. Qed.
Lemma digit_char d : 0 <= d < 10 → digit_value (pretty_N_char (Z.to_N d)) = Some d.
Proof.
  intros Hd. assert (d ∈ [0; 1; 2; 3; 4; 5; 6; 7; 8; 9]) as Hin by (rewrite !elem_of_cons; lia).
  rewrite !elem_of_cons, elem_of_nil in Hin. destruct_or! Hin; subst; by vm_compute.
Qed.
Lemma last_digits_value k r acc : digits_value (last_digits k r) acc = Some (acc * ten k + r mod ten k).
Proof.
  revert r. induction k as [|k IH]; intros r; cbn [last_digits]; [cbn; rewrite Z.mod_1_r; f_equal; unfold ten; cbn; lia|].
  rewrite digits_app, IH. cbn [digits_value]. rewrite digit_char by (apply Z.mod_pos_bound; lia). f_equal.
  replace (S k) with (1 + k)%nat by lia. rewrite ten_add. change (ten 1) with 10. pose proof (ten_pos k).
  rewrite Z.rem_mul_r by lia. lia.
Qed.

Lemma show_unsigned_parts z k : 0 <= z → starts_with "-" (show_unsigned z k) = false ∧ unsigned_parts (show_unsigned z k) = Some (z, k).
Proof.
  intros Hz. pose proof (ten_pos k). assert (0 <= z / ten k) as Hq by (apply Z.div_pos; lia).
  pose proof (digits_pretty _ Hq) as Hd. destruct (digits_plain _ _ _ Hd) as [Hcut Hminus].
  unfold show_unsigned, unsigned_parts. destruct (Nat.eqb_spec k 0) as [->|Hk].
  - rewrite append_nil_r_s, Hcut, Hd. split; [done|]. cbn. by rewrite Z.div_1_r.
  - change ("." ++ last_digits k z)%string with (String "." (last_digits k z)). rewrite (cut_none _ _ Hcut). split.
    + destruct (pretty (z / ten k)) as [|c s]; [done|]. cbn [String.append]. by rewrite starts_with_head_eq in *.
    + rewrite digits_app, Hd, last_digits_value, last_digits_length. cbn. do 2 f_equal.
      pose proof (Z.div_mod z (ten k)). lia.
Qed.
Lemma show_decimal_parts z k : decimal_parts (show_decimal z k) = Some (z, k).
Proof.
  unfold show_decimal, decimal_parts. destruct (Z.ltb_spec z 0).
  - destruct (show_unsigned_parts (- z) k) as [_ Hp]; [lia|].
    change ("-" ++ show_unsigned (- z) k)%string with (String "-" (show_unsigned (- z) k)).
    rewrite starts_with_head_eq. cbn [drop_str]. destruct (ascii_dec "-" "-"); [|done]. rewrite Hp. cbn. do 2 f_equal. lia.
  - by destruct (show_unsigned_parts z k) as [-> ->].
Qed.

Lemma with_parts_inr s k m : with_parts s k = inr m → ∃ z n, decimal_parts s = Some (z, n) ∧ m = k z n.
Proof. unfold with_parts. case_bool_decide; [done|]. destruct (decimal_parts s) as [[z n]|]; [|done]. intros [= <-]. eauto. Qed.
Lemma same_currency_inr {A} a b (v m : A) : same_currency a b v = inr m → dc_currency b = dc_currency a ∧ m = v.
Proof. unfold same_currency. case_bool_decide; [by intros [= <-]|done]. Qed.

Lemma aligned_value (f : Z → Z → Z) (g : Q → Q → Q) a b :
  (∀ x y (u : positive), f x y # u == g (x # u) (y # u))%Q → Proper (Qeq ==> Qeq ==> Qeq) g →
  (decimal_value (aligned f a b) == g (decimal_value a) (decimal_value b))%Q.
Proof.
  intros Hf Hg. unfold decimal_value, aligned. cbn [dc_mantissa dc_digits]. rewrite Hf.
  assert (∀ (m : Decimal) n, (dc_digits m <= n)%nat →
    (dc_mantissa m * ten (n - dc_digits m) # pow10 (Z.of_nat n) == dc_mantissa m # pow10 (Z.of_nat (dc_digits m)))%Q) as Hm.
  { intros m n Hn. unfold Qeq. cbn [Qnum Qden]. rewrite !pow10_ten, (ten_split _ _ Hn). lia. }
  apply Hg; apply Hm; lia.
Qed.
Lemma half_up_nearest (m : Decimal) :
  (2 * Qabs (decimal_value (half_up m) - decimal_value m) <= 1 # pow10 (Z.of_nat (minor_digits (dc_currency m))))%Q.
Proof.
  destruct m as [z k c]. unfold half_up, decimal_value. cbn [dc_mantissa dc_digits dc_currency]. generalize (minor_digits c). intros s.
  set (n := _ / _). assert (2 * ten k * n <= 2 * z * ten s + ten k < 2 * ten k * n + 2 * ten k) as Hn.
  { pose proof (ten_pos k). pose proof (Z.div_mod (2 * z * ten s + ten k) (2 * ten k)).
    pose proof (Z.mod_pos_bound (2 * z * ten s + ten k) (2 * ten k)). unfold n. lia. }
  assert (∀ q u, (- (1 # u) <= 2 * q <= 1 # u)%Q → (2 * Qabs q <= 1 # u)%Q) as Habs.
  { intros q u [H1 H2]. assert (Qabs q <= (1 # u) * (1 # 2))%Q as H by (apply Qabs_Qle_condition; split; lra). lra. }
  apply Habs. unfold Qle, Qminus, Qopp, Qplus, Qmult. cbn [Qnum Qden]. rewrite ?Pos2Z.inj_mul, !pow10_ten.
  pose proof (ten_pos k). pose proof (ten_pos s). split; nia.
Qed.

Lemma decimal_scale : @ScaleLaws decimal_types decimal_money.
Proof. intros c. cbn. unfold minor_digits. case_bool_decide; lia. Qed.
Lemma decimal_laws : @MoneyLaws decimal_types decimal_money decimal_value.
Proof.
  split; cbn.
  - by intros c m [= <-].
  - intros s c q m Hq (z & n & Hp & ->)%with_parts_inr. unfold decimal in Hq. rewrite Hp in Hq. by injection Hq as <-.
  - by intros s c m (z & n & Hp & ->)%with_parts_inr.
  - intros a s q m Hq (z & n & Hp & ->)%with_parts_inr. unfold decimal in Hq. rewrite Hp in Hq. injection Hq as <-.
    unfold value, decimal_value, parts_value, Qeq, Qmult. cbn [Qnum Qden dc_mantissa dc_digits fst snd].
    rewrite !Pos2Z.inj_mul, !pow10_ten, ten_add. lia.
  - by intros a s m (z & n & Hp & ->)%with_parts_inr.
  - intros a b m [Hc ->]%same_currency_inr. split; [|done]. apply (aligned_value Z.add Qplus); [|typeclasses eauto].
    intros x y u. unfold Qeq, Qplus. cbn. lia.
  - intros a b m [Hc ->]%same_currency_inr. split; [|done]. apply (aligned_value Z.sub Qminus); [|typeclasses eauto].
    intros x y u. unfold Qeq, Qminus, Qopp, Qplus. cbn. lia.
  - intros a m [= <-]. split; [done|]. split; [by eexists|]. apply half_up_nearest.
  - intros a b z [_ ->]%same_currency_inr. unfold compare_decimals.
    assert (decimal_value (aligned Z.sub a b) == decimal_value a - decimal_value b)%Q as Hv.
    { apply (aligned_value Z.sub Qminus); [|typeclasses eauto]. intros x y u. unfold Qeq, Qminus, Qopp, Qplus. cbn. lia. }
    unfold decimal_value at 1 in Hv. set (n := dc_mantissa (aligned Z.sub a b)) in *.
    assert ((0 < n # pow10 (Z.of_nat (dc_digits (aligned Z.sub a b))))%Q ↔ 0 < n) as Hn by (unfold Qlt; cbn; lia).
    rewrite Hv in Hn. transitivity (0 < n); [lia|]. rewrite <- Hn. unfold value. split; intros ?; lra.
  - intros m. unfold decimal. rewrite show_decimal_parts. by eexists.
Qed.
