(* ===== verification/CheckoutGuard.v ===== *)
(** examples/checkout-guard-integration/internal/checkoutguard: a signed token, the pricing rules and a
    Bloom filter of idempotency keys guard the submission of a checkout. The jwt, id, money and
    probabilistic packages are parameters. *)
From Stdlib Require Import Ascii String.
From S2P Require Import Prelude JwtLib MoneyLib.

Definition DefaultIssuer : string := "checkout-guard-integration".
Definition AccessAudience : string := "checkout-api".
Definition TokenUseAccess : string := "access".
Definition RequiredScope : string := "checkout:submit".
Definition defaultRole : string := "customer".
Definition defaultExpectedN : Z := 1000.
(** The float64 nearest to 0.01. *)
Definition defaultTargetFPP : float64 := S754_finite false 5764607523034235 (-59).
Definition defaultScenario : string := "checkout-submission-guard".
Definition restrictedCategory : string := "restricted".

Definition ErrMissingToken : GoError := Sentinel "checkoutguard.ErrMissingToken" "checkoutguard: missing token".
Definition ErrInvalidToken : GoError := Sentinel "checkoutguard.ErrInvalidToken" "checkoutguard: invalid token".
Definition ErrExpiredToken : GoError := Sentinel "checkoutguard.ErrExpiredToken" "checkoutguard: expired token".
Definition ErrInvalidClaims : GoError := Sentinel "checkoutguard.ErrInvalidClaims" "checkoutguard: invalid claims".
Definition ErrInvalidRequest : GoError := Sentinel "checkoutguard.ErrInvalidRequest" "checkoutguard: invalid request".
Definition ErrInvalidMoney : GoError := Sentinel "checkoutguard.ErrInvalidMoney" "checkoutguard: invalid money".
Definition ErrRuleDenied : GoError := Sentinel "checkoutguard.ErrRuleDenied" "checkoutguard: rule denied".
Definition ErrDuplicateSubmission : GoError :=
  Sentinel "checkoutguard.ErrDuplicateSubmission" "checkoutguard: duplicate submission".
Definition ErrGuard : GoError := Sentinel "checkoutguard.ErrGuard" "checkoutguard: guard error".

Definition DecisionAdmit : string := "admit".
Definition ReasonDefinitelyNew : string := "definitely_new".
Definition RuleAccepted : string := "accepted".
Definition RuleSkipped : string := "skipped".

(** ** The libraries *)

(** The probabilistic package's Bloom filter of strings. *)
Class BloomTypes := { BloomConfig : Type; Filter : Type }.
Class BloomLib `{BloomTypes} := {
  NewBloomConfig : Z → float64 → GoError + BloomConfig;
  NewStringBloomFilter : BloomConfig → GoError + Filter;
  MightContain : Filter → string → bool;
  Put : Filter → string → Filter;
  ExpectedInsertions : Filter → Z;
  FalsePositiveProbability : Filter → float64;
  ApproximateElementCount : Filter → Z;
  ExpectedFPP : Filter → float64;
  BitSize : Filter → Z;
  HashFunctionCount : Filter → Z
}.
(** [id.NewUUIDV7Generator]. *)
Class UUIDLib `{IdLib} := NewUUIDV7Generator : GoError + Generator.

(** ** Data *)

Record TokenRequest := mkTokenRequest { tr_Subject : string; tr_Role : string; tr_Scopes : list string; tr_TTLSeconds : Z }.
Record TokenResponse := mkTokenResponse {
  tp_TokenType : string; tp_ExpiresInSeconds : Z; tp_Token : string; tp_SessionID : string
}.
Record LineItemRequest := mkItem {
  li_LineID : string; li_SKU : string; li_UnitPrice : string; li_Currency : string; li_Quantity : Z; li_Category : string
}.
Record CheckoutRequest := mkCheckout {
  co_CheckoutID : string; co_IdempotencyKey : string; co_CustomerTier : string; co_Region : string;
  co_Currency : string; co_Items : list LineItemRequest
}.
Record LineQuote := mkQuote {
  lq_LineID : string; lq_SKU : string; lq_Category : string; lq_Quantity : Z; lq_LineTotal : MoneyValue
}.
Record PricingSummary := mkPricing {
  ps_Currency : string; ps_Subtotal : MoneyValue; ps_DiscountTotal : MoneyValue; ps_TaxTotal : MoneyValue;
  ps_Total : MoneyValue; ps_Lines : list LineQuote
}.
Record RuleDecision := mkRule {
  rd_Name : string; rd_LineID : string; rd_Status : string; rd_Currency : string; rd_Amount : Ptr MoneyValue;
  rd_Reason : string
}.
Record FilterStats := mkStats {
  fs_ExpectedInsertions : Z; fs_TargetFalsePositiveProbability : float64; fs_ApproximateElementCount : Z;
  fs_ExpectedFalsePositiveProbability : float64; fs_BitSize : Z; fs_HashFunctionCount : Z;
  fs_DurableAuthoritativeStoreRequired : bool; fs_ProbabilisticFalsePositivePossible : bool
}.
Record AdmissionDecision := mkAdmission {
  ad_IdempotencyKey : string; ad_Scenario : string; ad_Decision : string; ad_Reason : string; ad_Accepted : bool;
  ad_Stats : FilterStats
}.
Record CheckoutResponse := mkCheckoutResponse {
  cr_CheckoutID : string; cr_RequestID : string; cr_OrderID : string; cr_Subject : string; cr_SessionID : string;
  cr_Admission : AdmissionDecision; cr_Pricing : PricingSummary; cr_Rules : list RuleDecision
}.
Record ErrorResponse := mkError { er_ErrorCode : string; er_Message : string }.
Record tokenClaims := mkTokenClaims { tk_subject : string; tk_role : string; tk_scope : string; tk_sessionID : string }.

Section Pricing.
Context `{MoneyLib} `{GoUnicode} {St : Type}.

Definition mapMoneyError (err : GoError) : GoError :=
  if existsb (errors_Is err) moneyErrors then Errorf "%w: invalid money input" [ErrInvalidMoney] [] else err.
#[local] Abbreviation call := (money_call mapMoneyError).

Definition formatAmount : string → Z → option string := format_whole.
Definition moneyValue (value : Money) : GoM St MoneyValue := money_value formatAmount value.
Definition roundedZero (currency : Currency) : GoM St Money := rounded_zero mapMoneyError currency.

Definition applyDiscountRule (lineTotal : Money) (item : LineItemRequest) (customerTier : string)
    : GoM St (Money * RuleDecision) :=
  let! zero := roundedZero (CurrencyOf lineTotal) in
  let rule := mkRule "vip-service-discount" (li_LineID item) RuleSkipped (Code (CurrencyOf lineTotal)) None in
  if negb (EqualFold (TrimSpace customerTier) "vip") then ret (zero, rule "tier_not_eligible")
  else if negb (EqualFold (li_Category item) "service") then ret (zero, rule "category_not_service")
  else
    let! discount := rounded_share mapMoneyError lineTotal "0.05" in
    let! amount := moneyValue discount in
    ret (discount, mkRule "vip-service-discount" (li_LineID item) RuleAccepted (Code (CurrencyOf lineTotal)) (Some amount) "").
Definition applyTaxRule (taxBase : Money) (item : LineItemRequest) (region : string) : GoM St (Money * RuleDecision) :=
  let! zero := roundedZero (CurrencyOf taxBase) in
  let rule := mkRule "regional-vat" (li_LineID item) RuleSkipped (Code (CurrencyOf taxBase)) None in
  if negb (EqualFold (TrimSpace region) "EU") then ret (zero, rule "region_not_eu")
  else if EqualFold (li_Category item) "tax_exempt" then ret (zero, rule "category_tax_exempt")
  else
    let! tax := rounded_share mapMoneyError taxBase "0.20" in
    let! amount := moneyValue tax in
    ret (tax, mkRule "regional-vat" (li_LineID item) RuleAccepted (Code (CurrencyOf taxBase)) (Some amount) "").

Record Totals := mkTotals {
  tt_subtotal : Money; tt_discountTotal : Money; tt_taxTotal : Money; tt_lines : list LineQuote; tt_rules : list RuleDecision
}.
(** One turn of the loop over the items. The rules returned with an error are dropped by the caller. *)
Definition price_item (request : CheckoutRequest) (currency : Currency) (item : LineItemRequest) (t : Totals) : GoM St Totals :=
  if EqualFold (li_Category item) restrictedCategory
  then throw (Errorf "%w: restricted item category" [ErrRuleDenied] [])
  else
    let! unitPrice := call (MoneyNew (li_UnitPrice item) currency) in
    let! lineTotal := call (Mul unitPrice (pretty (li_Quantity item))) in
    let! lineTotal := call (Round lineTotal) in
    let! subtotal := call (Add (tt_subtotal t) lineTotal) in
    let! lineValue := moneyValue lineTotal in
    let lines := tt_lines t ++ [mkQuote (li_LineID item) (li_SKU item) (li_Category item) (li_Quantity item) lineValue] in
    let! (discount, discountRule) := applyDiscountRule lineTotal item (co_CustomerTier request) in
    let! discountTotal := call (Add (tt_discountTotal t) discount) in
    let! taxBase := call (Sub lineTotal discount) in
    let! (tax, taxRule) := applyTaxRule taxBase item (co_Region request) in
    let! taxTotal := call (Add (tt_taxTotal t) tax) in
    ret (mkTotals subtotal discountTotal taxTotal lines (tt_rules t ++ [discountRule] ++ [taxRule])).
Definition priceCheckout (request : CheckoutRequest) (currency : Currency) : GoM St (PricingSummary * list RuleDecision) :=
  let! subtotal := roundedZero currency in
  let! discountTotal := roundedZero currency in
  let! taxTotal := roundedZero currency in
  let! t := foldM (co_Items request) (price_item request currency) (mkTotals subtotal discountTotal taxTotal [] []) in
  let! total := call (Sub (tt_subtotal t) (tt_discountTotal t)) in
  let! total := call (Add total (tt_taxTotal t)) in
  let! total := call (Round total) in
  let! subtotal := moneyValue (tt_subtotal t) in
  let! discountTotal := moneyValue (tt_discountTotal t) in
  let! taxTotal := moneyValue (tt_taxTotal t) in
  let! total := moneyValue total in
  ret (mkPricing (Code currency) subtotal discountTotal taxTotal total (tt_lines t), tt_rules t).

(** ** Normalisation *)

Definition trim_item (item : LineItemRequest) : LineItemRequest :=
  mkItem (TrimSpace (li_LineID item)) (TrimSpace (li_SKU item)) (TrimSpace (li_UnitPrice item))
    (TrimSpace (li_Currency item)) (li_Quantity item) (TrimSpace (li_Category item)).
Definition item_error (item : LineItemRequest) : option GoError :=
  if bool_decide (li_LineID item = "") then Some (Errorf "%w: line_id is required" [ErrInvalidRequest] [])
  else if bool_decide (li_SKU item = "") then Some (Errorf "%w: sku is required" [ErrInvalidRequest] [])
  else if bool_decide (li_UnitPrice item = "") then Some (Errorf "%w: unit_price is required" [ErrInvalidRequest] [])
  else if li_Quantity item <=? 0 then Some (Errorf "%w: quantity must be positive" [ErrInvalidRequest] [])
  else None.
Definition normalize_item (currency : Currency) (item : LineItemRequest) (items : list LineItemRequest)
    : GoM St (list LineItemRequest) :=
  let item := trim_item item in
  do! fail_if (item_error item);
  let! lineCurrency := call (ParseCurrency (li_Currency item)) in
  if bool_decide (Code lineCurrency ≠ Code currency)
  then throw (Errorf "%w: checkout uses one settlement currency" [ErrInvalidMoney] [])
  else ret (items ++ [item]).
Definition normalizeCheckoutRequest (request : CheckoutRequest) : GoM St (CheckoutRequest * Currency) :=
  let checkoutID := TrimSpace (co_CheckoutID request) in
  if bool_decide (checkoutID = "") then throw (Errorf "%w: checkout_id is required" [ErrInvalidRequest] [])
  else
    let idempotencyKey := TrimSpace (co_IdempotencyKey request) in
    if bool_decide (idempotencyKey = "") then throw (Errorf "%w: idempotency_key is required" [ErrInvalidRequest] [])
    else if bool_decide (len (co_Items request) = 0) then throw (Errorf "%w: at least one item is required" [ErrInvalidRequest] [])
    else
      let! currency := call (ParseCurrency (TrimSpace (co_Currency request))) in
      let! items := foldM (co_Items request) (normalize_item currency) [] in
      ret (mkCheckout checkoutID idempotencyKey (TrimSpace (co_CustomerTier request)) (TrimSpace (co_Region request))
             (Code currency) items, currency).
End Pricing.

Section Service.
Context `{Timeline} `{IdLib} `{!UUIDLib} `{JwtLib} `{MoneyLib} `{BloomLib} `{GoUnicode}.

Record Config := mkConfig {
  cf_issuer : string; cf_accessAudience : string; cf_requiredRole : string; cf_requiredScope : string;
  cf_secret : string; cf_clock : Clock; cf_idGenerator : Generator; cf_expectedInsertions : Z;
  cf_falsePositiveProbability : float64; cf_scenarioName : string
}.
Definition Option : Type := Config → Config.
Definition WithClock (clock : Ptr Clock) : Option := λ cfg,
  match clock with
  | Some clock => mkConfig (cf_issuer cfg) (cf_accessAudience cfg) (cf_requiredRole cfg) (cf_requiredScope cfg)
      (cf_secret cfg) clock (cf_idGenerator cfg) (cf_expectedInsertions cfg) (cf_falsePositiveProbability cfg) (cf_scenarioName cfg)
  | None => cfg
  end.
Definition WithSecret (secret : string) : Option := λ cfg,
  mkConfig (cf_issuer cfg) (cf_accessAudience cfg) (cf_requiredRole cfg) (cf_requiredScope cfg)
    secret (cf_clock cfg) (cf_idGenerator cfg) (cf_expectedInsertions cfg) (cf_falsePositiveProbability cfg) (cf_scenarioName cfg).
Definition WithIDGenerator (generator : Ptr Generator) : Option := λ cfg,
  match generator with
  | Some g => mkConfig (cf_issuer cfg) (cf_accessAudience cfg) (cf_requiredRole cfg) (cf_requiredScope cfg)
      (cf_secret cfg) (cf_clock cfg) g (cf_expectedInsertions cfg) (cf_falsePositiveProbability cfg) (cf_scenarioName cfg)
  | None => cfg
  end.
(** The count is a uint64. *)
Definition WithBloomConfig (expectedInsertions : Z) (falsePositiveProbability : float64) : Option := λ cfg,
  mkConfig (cf_issuer cfg) (cf_accessAudience cfg) (cf_requiredRole cfg) (cf_requiredScope cfg) (cf_secret cfg)
    (cf_clock cfg) (cf_idGenerator cfg)
    (if 0 <? expectedInsertions then expectedInsertions else cf_expectedInsertions cfg)
    (if SFltb f64_zero falsePositiveProbability then falsePositiveProbability else cf_falsePositiveProbability cfg)
    (cf_scenarioName cfg).

(** The fields of the service that never change; the filter is part of the state. *)
Record Service := mkService {
  sv_provider : Provider; sv_idGenerator : Generator; sv_clock : Clock; sv_issuer : string;
  sv_accessAudience : string; sv_requiredRole : string; sv_requiredScope : string; sv_scenarioName : string
}.
Record Guard := mkGuard { gd_world : World; gd_filter : Filter }.
Definition with_world (w : World) (g : Guard) : Guard := mkGuard w (gd_filter g).
Definition outside {A} (m : GoM World A) : GoM Guard A := on_part gd_world with_world m.

Definition defaultConfig : GoError + Config :=
  try! generator := wrapping (λ e, Errorf "%w: create id generator: %w" [ErrGuard; e] []) NewUUIDV7Generator in
  inr (mkConfig DefaultIssuer AccessAudience defaultRole RequiredScope "checkout-guard-integration-demo-secret" id
         generator defaultExpectedN defaultTargetFPP defaultScenario).
Definition apply_options (options : list (Ptr Option)) (cfg : Config) : Config :=
  fold_left (λ cfg option, match option with Some f => f cfg | None => cfg end) options cfg.
(** The service and its filter. *)
Definition NewService (options : list (Ptr Option)) : GoError + (Service * Filter) :=
  try! cfg := defaultConfig in
  let cfg := apply_options options cfg in
  if (String.length (cf_secret cfg) <? 32)%nat
  then inl (Errorf "%w: HMAC secret must be at least 32 bytes" [ErrInvalidRequest] [])
  else
    try! provider := wrapping (λ e, Errorf "%w: create jwt provider: %w" [ErrInvalidToken; e] [])
                       (NewFixedHMACProvider HS256 (cf_secret cfg) (cf_clock cfg) (inr "local-demo-key")) in
    try! bloomConfig := wrapping (λ e, Errorf "%w: create bloom config: %w" [ErrGuard; e] [])
                          (NewBloomConfig (cf_expectedInsertions cfg) (cf_falsePositiveProbability cfg)) in
    try! filter := wrapping (λ e, Errorf "%w: create bloom filter: %w" [ErrGuard; e] []) (NewStringBloomFilter bloomConfig) in
    inr (mkService provider (cf_idGenerator cfg) (cf_clock cfg) (cf_issuer cfg) (cf_accessAudience cfg)
           (cf_requiredRole cfg) (cf_requiredScope cfg) (cf_scenarioName cfg), filter).

(** ** Helpers *)

Definition normalizeScopes (scopes : list string) : list string := normalize_scopes scopes.
Definition hasScope (scopeClaim required : string) : bool := has_scope scopeClaim required.
Definition bearerToken (authorization : string) : GoError + string :=
  bearer_token ErrMissingToken ErrInvalidToken authorization.
Definition nextID (s : Service) : GoM Guard string :=
  outside (nextString (sv_idGenerator s) (λ e, Errorf "%w: generate id: %w" [ErrGuard; e] [])).

Definition validateTokenRequest (request : TokenRequest) : option GoError :=
  if bool_decide (TrimSpace (tr_Subject request) = "")
  then Some (Errorf "%w: subject is required" [ErrInvalidRequest] [])
  else if bool_decide (TrimSpace (tr_Role request) = "")
  then Some (Errorf "%w: role is required" [ErrInvalidRequest] [])
  else if bool_decide (len (normalizeScopes (tr_Scopes request)) = 0)
  then Some (Errorf "%w: at least one scope is required" [ErrInvalidRequest] [])
  else if tr_TTLSeconds request <=? 0
  then Some (Errorf "%w: ttl_seconds must be positive" [ErrInvalidRequest] [])
  else None.

(** ** Tokens *)

Definition token_options (s : Service) (request : TokenRequest) (sessionID jti : string) : list ComposeOption :=
  [WithIssuer (sv_issuer s); WithSubject (TrimSpace (tr_Subject request)); WithAudience (sv_accessAudience s);
   WithExpiresAfter (seconds (tr_TTLSeconds request)); WithJWTID jti; WithClaim "token_use" TokenUseAccess;
   WithClaim "role" (TrimSpace (tr_Role request));
   WithClaim "scope" (Join_strings (normalizeScopes (tr_Scopes request)) " "); WithClaim "session_id" sessionID].
Definition IssueToken (s : Service) (request : TokenRequest) : GoM Guard TokenResponse :=
  do! fail_if (validateTokenRequest request);
  let! sessionID := nextID s in
  let! jti := nextID s in
  let! now := outside (readClock (sv_clock s)) in
  let! token := or_fail (λ _, Errorf "%w: compose access token" [ErrInvalidToken] [])
                  (Compose (sv_provider s) now (token_options s request sessionID jti)) in
  ret (mkTokenResponse "Bearer" (tr_TTLSeconds request) token sessionID).

Definition parse_error (e : GoError) : GoError :=
  if errors_Is e jwtErrExpiredToken then Errorf "%w: token expired" [ErrExpiredToken] []
  else Errorf "%w: token could not be verified" [ErrInvalidToken] [].
Definition parse_options (s : Service) : list ParseOption :=
  [WithExpectedIssuer (sv_issuer s); WithExpectedAudience (sv_accessAudience s); WithExpirationRequired].
Definition claim (reader : Reader) (name : string) : string := default "" (ClaimString reader name).
Definition claim_mismatch : GoError := Errorf "%w: access token claim contract mismatch" [ErrInvalidClaims] [].
Definition verifyAuthorization (s : Service) (authorization : string) : GoM Guard tokenClaims :=
  let! token := or_fail id (bearerToken authorization) in
  let! now := outside (readClock (sv_clock s)) in
  let! reader := or_fail parse_error (Parse (sv_provider s) now (parse_options s) token) in
  let tokenUse := claim reader "token_use" in
  let claims := mkTokenClaims (Subject reader) (claim reader "role") (claim reader "scope") (claim reader "session_id") in
  if bool_decide (tk_subject claims = "") || bool_decide (tk_sessionID claims = "") ||
     bool_decide (tokenUse ≠ TokenUseAccess) || bool_decide (tk_role claims ≠ sv_requiredRole s) ||
     negb (hasScope (tk_scope claims) (sv_requiredScope s))
  then throw claim_mismatch else ret claims.

(** ** Admission *)

Definition statsLocked (f : Filter) : FilterStats :=
  mkStats (ExpectedInsertions f) (FalsePositiveProbability f) (ApproximateElementCount f) (ExpectedFPP f) (BitSize f)
    (HashFunctionCount f) true true.
(** Under the lock. *)
Definition Service_admit (s : Service) (idempotencyKey : string) : GoM Guard AdmissionDecision :=
  let! g := get in
  if MightContain (gd_filter g) idempotencyKey
  then throw (Errorf "%w: idempotency key probably seen" [ErrDuplicateSubmission] [])
  else
    do! modify (λ g, mkGuard (gd_world g) (Put (gd_filter g) idempotencyKey));
    let! g := get in
    ret (mkAdmission idempotencyKey (sv_scenarioName s) DecisionAdmit ReasonDefinitelyNew true (statsLocked (gd_filter g))).

Definition GuardCheckout (s : Service) (authorization : string) (request : CheckoutRequest) : GoM Guard CheckoutResponse :=
  let! claims := verifyAuthorization s authorization in
  let! (normalized, currency) := normalizeCheckoutRequest request in
  let! (pricing, rules) := priceCheckout normalized currency in
  let! admission := Service_admit s (co_IdempotencyKey normalized) in
  let! requestID := nextID s in
  let! orderID := nextID s in
  ret (mkCheckoutResponse (co_CheckoutID normalized) requestID orderID (tk_subject claims) (tk_sessionID claims)
         admission pricing rules).

(** ** HTTP *)

Definition publicError (err : GoError) : Z * ErrorResponse :=
  if errors_Is err "checkoutguard.ErrMissingToken"
  then (401, mkError "missing_token" "A bearer token is required.")
  else if errors_Is err "checkoutguard.ErrExpiredToken"
  then (401, mkError "expired_token" "The token has expired.")
  else if errors_Is err "checkoutguard.ErrInvalidToken"
  then (401, mkError "invalid_token" "The token could not be verified.")
  else if errors_Is err "checkoutguard.ErrInvalidClaims"
  then (403, mkError "invalid_claims" "The verified token is not allowed for checkout.")
  else if errors_Is err "checkoutguard.ErrInvalidRequest"
  then (400, mkError "invalid_request" "The request body is invalid.")
  else if errors_Is err "checkoutguard.ErrInvalidMoney"
  then (400, mkError "invalid_money" "The money input is invalid.")
  else if errors_Is err "checkoutguard.ErrRuleDenied"
  then (422, mkError "rule_denied" "A checkout eligibility rule denied the submission.")
  else if errors_Is err "checkoutguard.ErrDuplicateSubmission"
  then (409, mkError "duplicate_submission" "The checkout was already seen or may be a false positive.")
  else (500, mkError "checkout_error" "The checkout guard could not process the request.").

Inductive Body :=
  | BodyHealth | BodyToken (r : TokenResponse) | BodyCheckout (r : CheckoutResponse) | BodyError (r : ErrorResponse).
(** The routes; gin binds a JSON body, after [MaxBytesReader], to a request or an error. *)
Inductive HttpRequest :=
  | GetHealthz | PostTokens (bound : GoError + TokenRequest)
  | PostCheckout (authorization : string) (bound : GoError + CheckoutRequest).

Definition writeError (err : GoError) : Z * Body := let '(status, response) := publicError err in (status, BodyError response).
(** gin's Recovery answers a panic with an empty 500. *)
Definition respond {A} (status : Z) (body : A → Body) (m : GoM Guard A) : GoM Guard (Z * Body) :=
  λ c g, match m c g with
         | (Val a, c', g') => (Val (status, body a), c', g')
         | (Fail e, c', g') => (Val (writeError e), c', g')
         | (Panic, c', g') => (Panic, c', g')
         end.
Definition bind_body {A} (bound : GoError + A) (k : A → GoM Guard (Z * Body)) : GoM Guard (Z * Body) :=
  match bound with inl _ => ret (writeError ErrInvalidRequest) | inr a => k a end.
Definition serve (s : Service) (request : HttpRequest) : GoM Guard (Z * Body) :=
  match request with
  | GetHealthz => ret (200, BodyHealth)
  | PostTokens bound => bind_body bound (λ request, respond 200 BodyToken (IssueToken s request))
  | PostCheckout authorization bound =>
      bind_body bound (λ request, respond 201 BodyCheckout (GuardCheckout s authorization request))
  end.
End Service.
