(* ===== verification/CheckoutProofs.v ===== *)
(** What the checkout guard promises: a key is accepted at most once; when a call leaves a trace in the
    filter; prices add up; amounts are formatted without a panic. *)
From Stdlib Require Import Ascii String QArith Lqa.
From S2P Require Import Prelude JwtLib JwtModel MoneyLib MoneyModel CheckoutGuard.
Open Scope Z_scope.

#[local] Arguments String.append !_ _ : simpl nomatch.

(** The filter has no false negatives. *)
Class BloomLaws `{BloomLib} : Prop := {
  put_contains f k : MightContain (Put f k) k = true;
  put_keeps f k k' : MightContain f k' = true → MightContain (Put f k) k' = true
}.
(** ** An exact filter *)

Definition set_types : BloomTypes := {| BloomConfig := Z * float64; Filter := gset string |}.
Definition set_filter : @BloomLib set_types :=
  @Build_BloomLib set_types (λ n p, inr (n, p)) (λ _, inr ∅) (λ f k, bool_decide (k ∈ f)) (λ f k, {[k]} ∪ f)
    (λ _, 1000) (λ _, defaultTargetFPP) (λ f, Z.of_nat (size f)) (λ _, f64_zero) (λ _, 9586) (λ _, 7).
Lemma set_laws : @BloomLaws set_types set_filter.
Proof.
  split; cbn.
  - intros f k. apply bool_decide_eq_true_2. set_solver.
  - intros f k k' H%bool_decide_eq_true_1. apply bool_decide_eq_true_2. set_solver.
Qed.

(** ** Pricing is pure *)

Section PurePricing.
Context `{MT : MoneyTypes} `{ML : !MoneyLib} `{SL : !ScaleLaws} `{GU : GoUnicode} {St : Type}.

Lemma pure_zero c : pure_method (St := St) (roundedZero c).
Proof. unfold roundedZero. auto with gom. Qed.
Lemma pure_value v : pure_method (St := St) (moneyValue v).
Proof. unfold moneyValue, formatAmount. auto with gom. Qed.
#[local] Hint Resolve pure_zero pure_value : gom.
Lemma pure_discount l item tier : pure_method (St := St) (applyDiscountRule l item tier).
Proof. unfold applyDiscountRule. auto 12 with gom. Qed.
Lemma pure_tax l item region : pure_method (St := St) (applyTaxRule l item region).
Proof. unfold applyTaxRule. auto 12 with gom. Qed.
#[local] Hint Resolve pure_discount pure_tax : gom.
Lemma pure_price_item request currency item t : pure_method (St := St) (price_item request currency item t).
Proof.
  unfold price_item. apply pure_if; [auto with gom|].
  repeat first [apply pure_ret|apply pure_bind; [solve [auto with gom]|intros ?; try case_match]].
Qed.
#[local] Hint Resolve pure_price_item : gom.
Lemma pure_price request currency : pure_method (St := St) (priceCheckout request currency).
Proof.
  unfold priceCheckout. repeat first [apply pure_ret|apply pure_bind; [solve [auto with gom]|intros ?]].
Qed.
Lemma pure_normalize request : pure_method (St := St) (normalizeCheckoutRequest request).
Proof.
  unfold normalizeCheckoutRequest. repeat (apply pure_if; [auto with gom|]).
  apply pure_bind; [auto with gom|intros currency].
  apply pure_bind; [apply pure_foldM; intros x b; unfold normalize_item; auto 10 with gom|auto with gom].
Qed.
End PurePricing.

(** ** One call *)

Section Calls.
Context `{TL : Timeline} `{IL : IdLib} `{JT : JwtTypes} `{JL : !JwtLib} `{MT : MoneyTypes} `{ML : !MoneyLib}
        `{BT : BloomTypes} `{BL : !BloomLib} `{GU : GoUnicode} `{SL : !ScaleLaws} `{BLW : !BloomLaws}.

Definition now_of (s : Service) (g : Guard) : Z := reading (sv_clock s) (wd_reads (gd_world g)).
(** What a verified header shows. *)
Definition verified (s : Service) (authorization : string) (g : Guard) (claims : tokenClaims) : Prop :=
  ∃ token reader, bearerToken authorization = inr token ∧
    Parse (sv_provider s) (now_of s g) (parse_options s) token = inr reader ∧
    claims = mkTokenClaims (Subject reader) (sv_requiredRole s) (claim reader "scope") (claim reader "session_id") ∧
    tk_subject claims ≠ "" ∧ tk_sessionID claims ≠ "" ∧ claim reader "token_use" = TokenUseAccess ∧
    claim reader "role" = sv_requiredRole s ∧ hasScope (claim reader "scope") (sv_requiredScope s) = true.

Definition untouched (g g' : Guard) : Prop := gd_filter g' = gd_filter g ∧ wd_ids (gd_world g') = wd_ids (gd_world g).

Lemma checkout_verify_run s authorization c g o c' g' :
  verifyAuthorization s authorization c g = (o, c', g') →
  untouched g g' ∧ ((∃ claims, o = Val claims ∧ verified s authorization g claims) ∨
    ∃ e, o = Fail e ∧ (publicError e).1 ∈ [401; 403]).
Proof.
  unfold verifyAuthorization.
  intros [(token & c1 & g1 & (-> & -> & [(? & [= <-] & Hb)|(? & [=] & _)])%or_fail_run & H)|
    [(e & -> & (_ & -> & [(? & [=] & _)|(e' & [= ->] & Hb)])%or_fail_run)|[_ (_ & _ & [(? & [=] & _)|(? & [=] & _)])%or_fail_run]]]%bind_inv.
  2: { split; [done|]. right. exists (id e'). split; [done|]. unfold bearerToken, bearer_token in Hb.
       repeat case_match; simplify_eq; compute_done. }
  apply bind_inv in H as [(now & c2 & g2 & [= <- <- <-] & H)|[(? & _ & [=])|(_ & [=])]].
  apply bind_inv in H as [(reader & c3 & g3 & (-> & -> & [(? & [= <-] & Hp)|(? & [=] & _)])%or_fail_run & H)|
    [(e & -> & (_ & -> & [(? & [=] & _)|(e' & [= ->] & Hp)])%or_fail_run)|[_ (_ & _ & [(? & [=] & _)|(? & [=] & _)])%or_fail_run]]].
  2: { split; [done|]. right. exists (parse_error e'). split; [done|]. unfold parse_error.
       destruct (errors_Is e' jwtErrExpiredToken); compute_done. }
  assert (∀ o, throw claim_mismatch c (with_world (mkWorld (S (wd_reads (gd_world g))) (wd_ids (gd_world g))) g) = (o, c', g') →
    untouched g g' ∧ ((∃ claims : tokenClaims, o = Val claims ∧ verified s authorization g claims) ∨
      ∃ e, o = Fail e ∧ (publicError e).1 ∈ [401; 403])) as Hmis.
  { intros o' [= <- _ <-]. split; [done|]. right. exists claim_mismatch. split; [done|]. compute_done. }
  cbn [tk_subject tk_role tk_scope tk_sessionID] in H.
  destruct (bool_decide_reflect (Subject reader = "")) as [|Hsub]; [by apply Hmis|].
  destruct (bool_decide_reflect (claim reader "session_id" = "")) as [|Hsid]; [by apply Hmis|].
  destruct (bool_decide_reflect (claim reader "token_use" ≠ TokenUseAccess)) as [|Huse]; [by apply Hmis|].
  destruct (bool_decide_reflect (claim reader "role" ≠ sv_requiredRole s)) as [|Hrole]; [by apply Hmis|].
  destruct (hasScope (claim reader "scope") (sv_requiredScope s)) eqn:Hscope; [|by apply Hmis].
  injection H as <- _ <-. split; [done|]. left. apply dec_stable in Hrole, Huse.
  eexists. split; [reflexivity|]. exists token, reader. split_and!; [done|done|by rewrite Hrole|done..].
Qed.

Lemma checkout_nextID_run s c g o c' g' :
  nextID s c g = (o, c', g') →
  gd_filter g' = gd_filter g ∧
  ((∃ v, o = Val v ∧ NextString (sv_idGenerator s) (wd_ids (gd_world g)) = (inr v, wd_ids (gd_world g'))) ∨
   ∃ e, o = Fail (Errorf "%w: generate id: %w" [ErrGuard; e] [])).
Proof.
  unfold nextID, outside, on_part, nextString. destruct (NextString _ _) as [[e|v] ids]; intros [= <- <- <-]; eauto.
Qed.

Lemma admit_run s key c g o c' g' :
  Service_admit s key c g = (o, c', g') →
  gd_world g' = gd_world g ∧
  (MightContain (gd_filter g) key = true ∧ g' = g ∧ o = Fail (Errorf "%w: idempotency key probably seen" [ErrDuplicateSubmission] []) ∨
   MightContain (gd_filter g) key = false ∧ gd_filter g' = Put (gd_filter g) key ∧
   o = Val (mkAdmission key (sv_scenarioName s) DecisionAdmit ReasonDefinitelyNew true (statsLocked (gd_filter g')))).
Proof.
  unfold Service_admit, bind, get, modify. destruct (MightContain (gd_filter g) key) eqn:E; intros [= <- <- <-]; cbn; eauto 8.
Qed.

Lemma normalized_key {S} request c (s : S) normalized currency c' s' :
  normalizeCheckoutRequest request c s = (Val (normalized, currency), c', s') →
  co_IdempotencyKey normalized = TrimSpace (co_IdempotencyKey request) ∧
  co_CheckoutID normalized = TrimSpace (co_CheckoutID request).
Proof.
  unfold normalizeCheckoutRequest. repeat (case_match; [done|]).
  intros [(cur & c1 & s1 & _ & H2)|[(? & [=] & _)|([=] & _)]]%bind_inv.
  apply bind_inv in H2 as [(items & c2 & s2 & _ & H2)|[(? & [=] & _)|([=] & _)]]. by injection H2 as <- _ _ _.
Qed.

(** The parts of a call before the admission. *)
Definition prepare (request : CheckoutRequest) : GoM Guard (CheckoutRequest * (PricingSummary * list RuleDecision)) :=
  let! (normalized, currency) := normalizeCheckoutRequest request in
  let! priced := priceCheckout normalized currency in ret (normalized, priced).

Lemma prepare_pure request : pure_method (prepare request).
Proof.
  unfold prepare. apply pure_bind; [apply pure_normalize|]. intros [n cur]. apply pure_bind; [apply pure_price|].
  intros p. apply pure_ret.
Qed.
Lemma prepared_key request c g normalized priced c' g' :
  prepare request c g = (Val (normalized, priced), c', g') →
  co_IdempotencyKey normalized = TrimSpace (co_IdempotencyKey request) ∧
  co_CheckoutID normalized = TrimSpace (co_CheckoutID request).
Proof.
  unfold prepare. intros [([n cur] & c2 & g2 & Hn & Hrest)|[(? & [=] & _)|([=] & _)]]%bind_inv.
  apply bind_inv in Hrest as [(pr & c3 & g3 & _ & Hrest)|[(? & [=] & _)|([=] & _)]].
  injection Hrest as -> _ _ _. by eapply normalized_key.
Qed.
Lemma GuardCheckout_split s authorization request c g :
  GuardCheckout s authorization request c g =
    bind (verifyAuthorization s authorization) (λ claims,
      let! (normalized, (pricing, rules)) := prepare request in
      let! admission := Service_admit s (co_IdempotencyKey normalized) in
      let! requestID := nextID s in
      let! orderID := nextID s in
      ret (mkCheckoutResponse (co_CheckoutID normalized) requestID orderID (tk_subject claims) (tk_sessionID claims)
             admission pricing rules)) c g.
Proof.
  unfold GuardCheckout, prepare, bind. destruct (verifyAuthorization _ _ _ _) as [[[claims| |] c1] g1]; [|done..].
  destruct (normalizeCheckoutRequest _ _ _) as [[[[n cur]| |] c2] g2]; [|done..].
  destruct (priceCheckout _ _ _ _) as [[[[p r]| |] c3] g3]; done.
Qed.

(** What a call may come to. *)
Definition call_result (s : Service) (authorization : string) (request : CheckoutRequest) (c : Ctx) (g : Guard)
    (o : Outcome CheckoutResponse) (g' : Guard) : Prop :=
  let key := TrimSpace (co_IdempotencyKey request) in
  let admitted := MightContain (gd_filter g) key = false ∧ gd_filter g' = Put (gd_filter g) key in
  match o with
  | Val r =>
      admitted ∧ cr_CheckoutID r = TrimSpace (co_CheckoutID request) ∧
      ad_IdempotencyKey (cr_Admission r) = key ∧ ad_Accepted (cr_Admission r) = true ∧
      (∃ claims, verified s authorization g claims ∧ cr_Subject r = tk_subject claims ∧ cr_SessionID r = tk_sessionID claims) ∧
      (∃ normalized, (prepare request c g).1.1 = Val (normalized, (cr_Pricing r, cr_Rules r))) ∧
      ∃ ids, NextString (sv_idGenerator s) (wd_ids (gd_world g)) = (inr (cr_RequestID r), ids) ∧
             NextString (sv_idGenerator s) ids = (inr (cr_OrderID r), wd_ids (gd_world g'))
  | Fail e =>
      untouched g g' ∧ ((publicError e).1 ∈ [401; 403] ∨ (prepare request c g).1.1 = Fail e ∨
                        MightContain (gd_filter g) key = true ∧ publicError e = publicError ErrDuplicateSubmission) ∨
      admitted ∧ ∃ e', e = Errorf "%w: generate id: %w" [ErrGuard; e'] []
  | Panic => False
  end.

Lemma GuardCheckout_run s authorization request c g o c' g' :
  GuardCheckout s authorization request c g = (o, c', g') → call_result s authorization request c g o g'.
Proof.
  rewrite GuardCheckout_split. unfold call_result. set (key := TrimSpace (co_IdempotencyKey request)). intros H.
  cbv zeta.
  apply bind_inv in H as [(claims & c1 & g1 & [Hun [(? & [= <-] & Hv)|(? & [=] & _)]]%checkout_verify_run & H)|
    [(e & -> & [Hun [(? & [=] & _)|(? & [= <-] & He)]]%checkout_verify_run)|[-> [_ [(? & [=] & _)|(? & [=] & _)]]%checkout_verify_run]]].
  2: { left. split; [done|by left]. }
  destruct (prepare_pure request) as (p & Hp & Hprep). rewrite Hprep. unfold bind at 1 in H. rewrite Hprep in H.
  destruct p as [[normalized [pricing rules]]|e|]; [|injection H as <- _ <-; left; by split; [|right; left]|done].
  pose proof (prepared_key _ _ _ _ _ _ _ (Hprep c g)) as [Hkey Hid]. fold key in Hkey.
  apply bind_inv in H as [(adm & c2 & g2 & [Hw [(_ & _ & [=])|(Hmc & Hput & [= ->])]]%admit_run & H)|
    [(e & -> & [Hw [(Hmc & -> & [= ->])|(_ & _ & [=])]]%admit_run)|[-> [_ [(_ & _ & [=])|(_ & _ & [=])]]%admit_run]]].
  2: { left. rewrite Hkey in Hmc. destruct Hun as [Hf Hi]. rewrite Hf in Hmc. split; [done|]. by do 2 right. }
  destruct Hun as [Hf Hi]. rewrite Hkey, Hf in *.
  apply bind_inv in H as [(rid & c3 & g3 & [Hf3 [(? & [= <-] & H1)|(? & [=])]]%checkout_nextID_run & H)|
    [(e & -> & [Hf3 [(? & [=] & _)|(e' & [= ->])]]%checkout_nextID_run)|[-> [_ [(? & [=] & _)|(? & [=])]]%checkout_nextID_run]]].
  2: { right. split; [split; [done|congruence]|eauto]. }
  apply bind_inv in H as [(oid & c4 & g4 & [Hf4 [(? & [= <-] & H2)|(? & [=])]]%checkout_nextID_run & H)|
    [(e & -> & [Hf4 [(? & [=] & _)|(e' & [= ->])]]%checkout_nextID_run)|[-> [_ [(? & [=] & _)|(? & [=])]]%checkout_nextID_run]]].
  2: { right. split; [split; [done|congruence]|eauto]. }
  injection H as <- _ <-. cbn. rewrite Hw, Hi in H1.
  split_and!; [done|congruence|done|done|done|by exists claims|by exists normalized|eauto].
Qed.

(** What a call of [GuardCheckout] comes to. A response needs a verified token and a priced request,
    whose key was not in the filter and now is, and carries the next two identifiers. A refusal before
    the admission, for the token, the request, the money or a rule, leaves filter and identifiers alone,
    so the key can be used again; a key the filter may contain is a duplicate. The remaining failure is
    that of the generator after the admission: then the key is in the filter although no order was made.
    Nothing panics. *)
Theorem guard_outcomes s authorization request c g :
  let '(o, _, g') := GuardCheckout s authorization request c g in call_result s authorization request c g o g'.
Proof.
  destruct (GuardCheckout s authorization request c g) as [[o c'] g'] eqn:E. by eapply GuardCheckout_run.
Qed.

(** ** Histories *)

(** Requests in the order of their admissions, each in a world of its own: whatever passes between two
    admissions, only an admission touches the filter, and it holds the lock. *)
Record Event := mkEvent { ev_ctx : Ctx; ev_world : World; ev_request : HttpRequest }.
Fixpoint serve_all (s : Service) (events : list Event) (f : Filter) : list (Outcome (Z * Body)) * Filter :=
  match events with
  | [] => ([], f)
  | e :: events =>
      let '(o, _, g) := serve s (ev_request e) (ev_ctx e) (mkGuard (ev_world e) f) in
      let '(os, f') := serve_all s events (gd_filter g) in (o :: os, f')
  end.
Definition accepted_key (o : Outcome (Z * Body)) : option string :=
  match o with Val (_, BodyCheckout r) => Some (ad_IdempotencyKey (cr_Admission r)) | _ => None end.
Definition accepted_keys (os : list (Outcome (Z * Body))) : list string := omap accepted_key os.

Definition keeps (g g' : Guard) : Prop := ∀ k, MightContain (gd_filter g) k = true → MightContain (gd_filter g') k = true.

Lemma IssueToken_filter s request : moves (λ g g', gd_filter g' = gd_filter g) (IssueToken s request).
Proof.
  assert (Reflexive (λ g g' : Guard, gd_filter g' = gd_filter g)) by by intros g.
  assert (Transitive (λ g g' : Guard, gd_filter g' = gd_filter g)) by (intros g1 g2 g3 H1 H2; by rewrite H2, H1).
  assert (∀ A (m : GoM World A), moves (λ g g' : Guard, gd_filter g' = gd_filter g) (outside m)) as Hout.
  { intros A m c g o c' g'. unfold outside, on_part. destruct (m c (gd_world g)) as [[? ?] ?]. by intros [= _ _ <-]. }
  unfold IssueToken. repeat first [apply moves_bind; [done|..|intros ?]|apply Hout]; auto with gom.
Qed.

Lemma serve_filter s request c g o c' g' :
  serve s request c g = (o, c', g') →
  keeps g g' ∧ ∀ k, accepted_key o = Some k → MightContain (gd_filter g) k = false ∧ MightContain (gd_filter g') k = true.
Proof.
  assert (∀ e, (writeError e).2 ≠ BodyHealth ∧ accepted_key (Val (writeError e)) = None) as Herr.
  { intros e. unfold writeError. by destruct (publicError e). }
  destruct request as [|[e|req]|auth [e|req]]; cbn [serve bind_body].
  - intros [= <- _ <-]. split; [by intros k|by intros k [=]].
  - intros [= <- _ <-]. split; [by intros k|by intros k [=]].
  - unfold respond. destruct (IssueToken s req c g) as [[[r|e|] c1] g1] eqn:E; apply IssueToken_filter in E;
      intros [= <- _ <-]; (split; [unfold keeps; by rewrite E|]); [done| |done].
    intros k. by rewrite (proj2 (Herr e)).
  - intros [= <- _ <-]. split; [by intros k|by intros k [=]].
  - unfold respond. destruct (GuardCheckout s auth req c g) as [[[r|e|] c1] g1] eqn:E; apply GuardCheckout_run in E;
      cbn in E; intros [= <- _ <-].
    + destruct E as ([Hnot Hput] & _ & Hkey & _). split.
      * intros k Hk. rewrite Hput. by apply put_keeps.
      * intros k [= <-]. rewrite Hkey, Hput. split; [done|]. apply put_contains.
    + split; [|intros k; by rewrite (proj2 (Herr e))]. unfold keeps.
      destruct E as [[[-> _] _]|[[_ ->] _]]; [done|]. intros k. apply put_keeps.
    + done.
Qed.

Lemma known_key_refused s events f k :
  MightContain f k = true → k ∉ accepted_keys (serve_all s events f).1.
Proof.
  revert f. induction events as [|e events IH]; intros f Hk; [apply not_elem_of_nil|]. cbn [serve_all].
  destruct (serve s (ev_request e) (ev_ctx e) (mkGuard (ev_world e) f)) as [[o c'] g] eqn:E.
  apply serve_filter in E as [Hkeep Hacc]. specialize (IH (gd_filter g) (Hkeep k Hk)).
  destruct (serve_all s events (gd_filter g)) as [os f']. cbn in *.
  destruct (accepted_key o) as [k'|]; [|done]. apply not_elem_of_cons. split; [|done].
  intros <-. destruct (Hacc k eq_refl) as [Hf _]. cbn in Hf. congruence.
Qed.

(** C16: An idempotency key is accepted at most once: over any sequence of requests, in any order, with
    any tokens, contexts and times, the keys of the accepted checkouts are distinct, and none was in the
    filter before. *)
Theorem checkout_accepted_once s events f :
  let accepted := accepted_keys (serve_all s events f).1 in
  NoDup accepted ∧ ∀ k, k ∈ accepted → MightContain f k = false.
Proof.
  revert f. induction events as [|e events IH]; intros f; [by split; [constructor|intros k ?%elem_of_nil]|]. cbn [serve_all].
  destruct (serve s (ev_request e) (ev_ctx e) (mkGuard (ev_world e) f)) as [[o c'] g] eqn:E.
  apply serve_filter in E as [Hkeep Hacc]. pose proof (λ k, known_key_refused s events (gd_filter g) k) as Hknown.
  destruct (IH (gd_filter g)) as [Hnd Hin]. destruct (serve_all s events (gd_filter g)) as [os f']. cbn in *.
  assert (∀ k, k ∈ accepted_keys os → MightContain f k = false) as Hold.
  { intros k Hk%Hin. destruct (MightContain f k) eqn:Ef; [|done]. apply Hkeep in Ef. cbn in Ef. congruence. }
  destruct (accepted_key o) as [k|]; [|done]. destruct (Hacc k eq_refl) as [Hf Hg]. split.
  - constructor; [by apply Hknown|done].
  - intros k' [->|Hk']%elem_of_cons; [done|by apply Hold].
Qed.

(** A generator that fails after the admission burns the key: the verified and priced checkout of a
    new key ends in an error without an order, and no later request with that key is ever accepted. *)
Theorem failed_draw_burns_key s authorization request c g claims c1 g1 priced e ids events :
  let key := TrimSpace (co_IdempotencyKey request) in
  verifyAuthorization s authorization c g = (Val claims, c1, g1) → (prepare request c g).1.1 = Val priced →
  MightContain (gd_filter g) key = false →
  NextString (sv_idGenerator s) (wd_ids (gd_world g)) = (inl e, ids) →
  ∃ c' g', GuardCheckout s authorization request c g = (Fail (Errorf "%w: generate id: %w" [ErrGuard; e] []), c', g') ∧
    key ∉ accepted_keys (serve_all s events (gd_filter g')).1.
Proof.
  intros key Hv Hp Hnew Hdraw. rewrite GuardCheckout_split. unfold bind at 1. rewrite Hv.
  apply checkout_verify_run in Hv as [[Hf Hi] _].
  destruct (prepare_pure request) as (p & _ & Hprep). rewrite Hprep in Hp. cbn in Hp. subst p.
  unfold bind at 1. rewrite Hprep. destruct priced as [normalized [pricing rules]].
  pose proof (prepared_key _ _ _ _ _ _ _ (Hprep c g)) as [-> _]. fold key.
  unfold Service_admit, bind, get, modify. rewrite Hf, Hnew. unfold nextID, outside, on_part, nextString.
  cbn. rewrite Hi, Hdraw. cbn. do 2 eexists. split; [reflexivity|]. cbn.
  apply known_key_refused, put_contains.
Qed.
End Calls.

(** ** Prices *)

Section Prices.
Context `{MT : MoneyTypes} `{ML : !MoneyLib} `{GU : GoUnicode} `{MV : !MoneyValues} `{MLW : !MoneyLaws} {St : Type}.

(** ** The specification *)

Definition discounted (tier : string) (item : LineItemRequest) : bool :=
  EqualFold (TrimSpace tier) "vip" && EqualFold (li_Category item) "service".
Definition taxed (region : string) (item : LineItemRequest) : bool :=
  EqualFold (TrimSpace region) "EU" && negb (EqualFold (li_Category item) "tax_exempt").
Definition line_price (request : CheckoutRequest) (currency : Currency) (item : LineItemRequest) (p : LinePrice) : Prop :=
  EqualFold (li_Category item) restrictedCategory = false ∧
  (∃ unit_, MoneyNew (li_UnitPrice item) currency = inr unit_ ∧
     nearest (value unit_ * inject_Z (li_Quantity item)) currency (lp_line p)) ∧
  rules_price (discounted (co_CustomerTier request) item) (taxed (co_Region request) item) p.
(** How a response shows a line and a rule. *)
Definition quoted (ip : LineItemRequest * LinePrice) (q : LineQuote) : Prop :=
  lq_LineID q = li_LineID ip.1 ∧ lq_SKU q = li_SKU ip.1 ∧ lq_Category q = li_Category ip.1 ∧
  lq_Quantity q = li_Quantity ip.1 ∧ shown formatAmount (lp_line ip.2) (lq_LineTotal q).
Definition status_of (applies : bool) : string := if applies then RuleAccepted else RuleSkipped.
Definition item_rules (request : CheckoutRequest) (item : LineItemRequest) : list (string * string * string) :=
  [("vip-service-discount", li_LineID item, status_of (discounted (co_CustomerTier request) item));
   ("regional-vat", li_LineID item, status_of (taxed (co_Region request) item))].
Definition rule_key (r : RuleDecision) : string * string * string := (rd_Name r, rd_LineID r, rd_Status r).

(** ** Running the parts *)

Lemma applyDiscountRule_val l item tier c (s : St) m rule c' s' :
  applyDiscountRule l item tier c s = (Val (m, rule), c', s') →
  share l (5 # 100) (discounted tier item) m ∧
  rule_key rule = ("vip-service-discount", li_LineID item, status_of (discounted tier item)).
Proof.
  unfold applyDiscountRule, discounted.
  intros (z & c1 & s1 & Hz%(zero_share _ _ (5 # 100)) & H)%bind_val.
  destruct (EqualFold (TrimSpace tier) "vip"); cbn [negb andb] in *; [|by injection H as <- <- _ _].
  destruct (EqualFold (li_Category item) "service"); cbn [negb] in *; [|by injection H as <- <- _ _].
  apply bind_val in H as (d & c3 & s3 & Hd%(share_run _ _ _ (5 # 100)) & H); [|done].
  apply bind_val in H as (v & c4 & s4 & _ & H). by injection H as <- <- _ _.
Qed.
Lemma applyTaxRule_val l item region c (s : St) m rule c' s' :
  applyTaxRule l item region c s = (Val (m, rule), c', s') →
  share l (20 # 100) (taxed region item) m ∧
  rule_key rule = ("regional-vat", li_LineID item, status_of (taxed region item)).
Proof.
  unfold applyTaxRule, taxed.
  intros (z & c1 & s1 & Hz%(zero_share _ _ (20 # 100)) & H)%bind_val.
  destruct (EqualFold (TrimSpace region) "EU"); cbn [negb andb] in *; [|by injection H as <- <- _ _].
  destruct (EqualFold (li_Category item) "tax_exempt"); cbn [negb] in *; [by injection H as <- <- _ _|].
  apply bind_val in H as (d & c3 & s3 & Hd%(share_run _ _ _ (20 # 100)) & H); [|done].
  apply bind_val in H as (v & c4 & s4 & _ & H). by injection H as <- <- _ _.
Qed.

(** What one turn, and what the loop, adds to the totals. *)
Definition rounded_totals (t : Totals) : Prop :=
  rounded (tt_subtotal t) ∧ rounded (tt_discountTotal t) ∧ rounded (tt_taxTotal t).
Record added (request : CheckoutRequest) (currency : Currency) (items : list LineItemRequest) (t t' : Totals)
    (lines : list LinePrice) : Prop := {
  add_lines : Forall2 (line_price request currency) items lines;
  add_subtotal : (value (tt_subtotal t') == value (tt_subtotal t) + sum_of lp_line lines)%Q;
  add_discount : (value (tt_discountTotal t') == value (tt_discountTotal t) + sum_of lp_discount lines)%Q;
  add_tax : (value (tt_taxTotal t') == value (tt_taxTotal t) + sum_of lp_tax lines)%Q;
  add_totals : rounded_totals t';
  add_quotes : ∃ quotes, tt_lines t' = tt_lines t ++ quotes ∧ Forall2 quoted (zip items lines) quotes;
  add_rules : ∃ rules, tt_rules t' = tt_rules t ++ rules ∧ map rule_key rules = concat (map (item_rules request) items)
}.

Lemma price_item_added request currency item t c (s : St) t' c' s' :
  rounded_totals t → price_item request currency item t c s = (Val t', c', s') →
  ∃ p, added request currency [item] t t' [p].
Proof.
  intros (Hr1 & Hr2 & Hr3). unfold price_item.
  destruct (EqualFold (li_Category item) restrictedCategory) eqn:Hcat; [done|].
  intros (unit_ & c1 & s1 & (Hunit & _ & _)%money_call_val & H)%bind_val.
  apply bind_val in H as (raw & c2 & s2 & (Hraw & _ & _)%money_call_val & H).
  apply bind_val in H as (line & c3 & s3 & (Hline & _ & _)%money_call_val & H).
  apply bind_val in H as (sub & c4 & s4 & (Hsub & _ & _)%money_call_val & H).
  apply bind_val in H as (v & c5 & s5 & (Hv & _ & _)%money_value_val & H).
  apply bind_val in H as ([d dr] & c6 & s6 & [Hd Hdr]%applyDiscountRule_val & H).
  apply bind_val in H as (dt & c7 & s7 & (Hdt & _ & _)%money_call_val & H).
  apply bind_val in H as (base & c8 & s8 & (Hbase & _ & _)%money_call_val & H).
  apply bind_val in H as ([x xr] & c9 & s9 & [Hx Hxr]%applyTaxRule_val & H).
  apply bind_val in H as (xt & c10 & s10 & (Hxt & _ & _)%money_call_val & H). injection H as <- _ _.
  pose proof (round_law _ _ Hline) as Hnear. rewrite (mul_currency _ _ _ Hraw), (new_currency _ _ _ Hunit) in Hnear.
  pose proof Hnear as (_ & Hlr & _). pose proof Hd as (_ & Hdr' & _). pose proof Hx as (_ & Hxr' & _).
  exists (mkLine line d x). split; cbn [tt_subtotal tt_discountTotal tt_taxTotal tt_lines tt_rules].
  - constructor; [|constructor]. refine (conj Hcat (conj _ _)).
    + exists unit_. split; [done|]. eapply nearest_ext, Hnear. exact (mul_law _ _ _ _ (decimal_pretty _) Hraw).
    + split; [exact Hd|]. exists base. exact (conj Hbase (conj (proj1 (sub_law _ _ _ Hbase)) Hx)).
  - rewrite (proj1 (add_law _ _ _ Hsub)). cbn. ring.
  - rewrite (proj1 (add_law _ _ _ Hdt)). cbn. ring.
  - rewrite (proj1 (add_law _ _ _ Hxt)). cbn. ring.
  - exact (conj (add_rounded _ _ _ Hr1 Hlr Hsub) (conj (add_rounded _ _ _ Hr2 Hdr' Hdt) (add_rounded _ _ _ Hr3 Hxr' Hxt))).
  - eexists. split; [done|]. constructor; [|constructor]. by split_and!.
  - exists [dr; xr]. split; [done|]. cbn. by rewrite Hdr, Hxr.
Qed.

Lemma foldM_added request currency items t c (s : St) t' c' s' :
  rounded_totals t → foldM items (price_item request currency) t c s = (Val t', c', s') →
  ∃ lines, added request currency items t t' lines.
Proof.
  revert t c s. induction items as [|item items IH]; intros t c s Hr; cbn [foldM].
  { intros [= <- _ _]. exists []. split; cbn [sum_of foldr]; [constructor|ring..|done|by exists []; rewrite app_nil_r|by exists []; rewrite app_nil_r]. }
  intros (t1 & c1 & s1 & (p & Hp)%price_item_added & (lines & Hl)%IH)%bind_val; [|apply Hp|done].
  exists (p :: lines). destruct Hp as [P1 P2 P3 P4 P5 (q1 & P6 & P7) (r1 & P8 & P9)].
  destruct Hl as [L1 L2 L3 L4 L5 (q2 & L6 & L7) (r2 & L8 & L9)]. split.
  - constructor; [|done]. by inversion P1.
  - rewrite L2, P2, sum_of_one, sum_of_cons. ring.
  - rewrite L3, P3, sum_of_one, sum_of_cons. ring.
  - rewrite L4, P4, sum_of_one, sum_of_cons. ring.
  - done.
  - exists (q1 ++ q2). rewrite L6, P6, app_assoc. split; [done|].
    change (zip (item :: items) (p :: lines)) with (zip [item] [p] ++ zip items lines). by apply Forall2_app.
  - exists (r1 ++ r2). rewrite L8, P8, app_assoc. split; [done|]. rewrite map_app, P9, L9. cbn [map concat].
    by rewrite app_nil_r.
Qed.

(** The prices add up: a checkout is priced only when no item is restricted; each line is
    the unit price times the quantity, rounded to a nearest minor unit, its discount the rounded 5 % for
    services of vip customers, its tax the rounded 20 % of the rest in the EU unless exempt, and nothing
    otherwise. The response shows the
    exact sums of lines, discounts and taxes, the total that is subtotal less discounts plus taxes, the
    lines in order, and for each of them the two rules with their status. *)
Theorem pricing_adds_up request currency c (s : St) summary rules c' s' :
  priceCheckout request currency c s = (Val (summary, rules), c', s') →
  ∃ lines subtotal discounts taxes total,
    Forall2 (line_price request currency) (co_Items request) lines ∧
    (value subtotal == sum_of lp_line lines)%Q ∧ (value discounts == sum_of lp_discount lines)%Q ∧
    (value taxes == sum_of lp_tax lines)%Q ∧ (value total == value subtotal - value discounts + value taxes)%Q ∧
    shown formatAmount subtotal (ps_Subtotal summary) ∧ shown formatAmount discounts (ps_DiscountTotal summary) ∧
    shown formatAmount taxes (ps_TaxTotal summary) ∧ shown formatAmount total (ps_Total summary) ∧ ps_Currency summary = Code currency ∧
    Forall2 quoted (zip (co_Items request) lines) (ps_Lines summary) ∧
    map rule_key rules = concat (map (item_rules request) (co_Items request)).
Proof.
  intros (z1 & c1 & s1 & (Hz1 & Hr1 & _)%rounded_zero_val & H)%bind_val.
  apply bind_val in H as (z2 & c2 & s2 & (Hz2 & Hr2 & _)%rounded_zero_val & H).
  apply bind_val in H as (z3 & c3 & s3 & (Hz3 & Hr3 & _)%rounded_zero_val & H).
  apply bind_val in H as (t & c4 & s4 & (lines & [L1 L2 L3 L4 (T1 & T2 & T3) (q & Lq & Q) (r & Lr & R)])%foldM_added & H); [|by split_and!].
  apply bind_val in H as (n1 & c5 & s5 & (Hn1 & _ & _)%money_call_val & H).
  apply bind_val in H as (n2 & c6 & s6 & (Hn2 & _ & _)%money_call_val & H).
  apply bind_val in H as (n3 & c7 & s7 & (Hn3 & _ & _)%money_call_val & H).
  apply bind_val in H as (v1 & c8 & s8 & (Hv1 & _ & _)%money_value_val & H).
  apply bind_val in H as (v2 & c9 & s9 & (Hv2 & _ & _)%money_value_val & H).
  apply bind_val in H as (v3 & c10 & s10 & (Hv3 & _ & _)%money_value_val & H).
  apply bind_val in H as (v4 & c11 & s11 & (Hv4 & _ & _)%money_value_val & H). injection H as <- <- _ _.
  cbn [tt_subtotal tt_discountTotal tt_taxTotal tt_lines tt_rules app] in *.
  pose proof (sub_rounded _ _ _ T1 T2 Hn1) as Hr4. pose proof (add_rounded _ _ _ Hr4 T3 Hn2) as Hr5.
  exists lines, (tt_subtotal t), (tt_discountTotal t), (tt_taxTotal t), n3.
  split_and!; [done|by rewrite L2, Hz1; ring|by rewrite L3, Hz2; ring|by rewrite L4, Hz3; ring| |done..|by rewrite Lq|by rewrite Lr].
  by rewrite (round_fixed _ _ Hr5 Hn3), (proj1 (add_law _ _ _ Hn2)), (proj1 (sub_law _ _ _ Hn1)).
Qed.
End Prices.

(** ** Witnesses *)

Section Demo.
#[local] Existing Instances model_types model_lib model_laws counting_ids set_types set_filter set_laws
  decimal_types decimal_money decimal_scale decimal_value decimal_laws plain_unicode.
#[local] Instance every_second : Timeline := λ n, Z.of_nat n * Second.

Definition demo : Service :=
  mkService "0123456789abcdef0123456789abcdef" tt id DefaultIssuer AccessAudience defaultRole RequiredScope defaultScenario.
Definition buyer : TokenRequest := mkTokenRequest "customer-7" "customer" ["checkout:submit"] 3600.
Definition demo_header : string :=
  match Compose (sv_provider demo) 0 (token_options demo buyer "session-1" "jti-1") with
  | inr t => String.append "Bearer " t | inl _ => ""
  end.
Definition two_hours (key : string) : CheckoutRequest :=
  mkCheckout "checkout-1" key "VIP" "eu" "EUR" [mkItem "line-1" "consulting" "10.00" "EUR" 2 "service"].
Definition euro : @Currency decimal_types := "EUR".
Definition guard_at (n left_ : nat) (f : gset string) : Guard := mkGuard (mkWorld n (left_, 0%nat)) f.
Definition event_at (n left_ : nat) (key : string) : Event :=
  mkEvent Background (mkWorld n (left_, 0%nat)) (PostCheckout demo_header (inr (two_hours key))).

Lemma guard_outcomes_witness :
  let '(o, _, g') := GuardCheckout demo demo_header (two_hours " key-1 ") Background (guard_at 5 9 ∅) in
  (if o is Val _ then True else False) ∧
  call_result demo demo_header (two_hours " key-1 ") Background (guard_at 5 9 ∅) o g'.
Proof.
  pose proof (guard_outcomes demo demo_header (two_hours " key-1 ") Background (guard_at 5 9 ∅)) as H.
  destruct (GuardCheckout demo demo_header (two_hours " key-1 ") Background (guard_at 5 9 ∅)) as [[o c'] g'] eqn:E.
  assert (match o with Val _ => true | _ => false end = true) as Ho.
  { change o with (o, c', g').1.1. rewrite <- E. by vm_compute. }
  clear E. split; [|exact H]. destruct o; [exact I|discriminate Ho..].
Defined.

Lemma checkout_accepted_once_witness :
  let accepted := accepted_keys (serve_all demo [event_at 5 9 "key-1"; event_at 6 9 " key-1"; event_at 7 9 "key-2"] ∅).1 in
  accepted = ["key-1"; "key-2"] ∧ NoDup accepted.
Proof.
  split; [by vm_compute|].
  apply (checkout_accepted_once demo [event_at 5 9 "key-1"; event_at 6 9 " key-1"; event_at 7 9 "key-2"] ∅).
Defined.

(** The generator has one identifier left, and two are needed; the retry finds a healthy one. *)
Lemma failed_draw_burns_key_witness :
  ∃ e c' g', GuardCheckout demo demo_header (two_hours "key-1") Background (guard_at 5 0 ∅) = (Fail e, c', g') ∧
    "key-1" ∉ accepted_keys (serve_all demo [event_at 6 9 "key-1"] (gd_filter g')).1.
Proof.
  assert (MightContain (gd_filter (guard_at 5 0 ∅)) (TrimSpace (co_IdempotencyKey (two_hours "key-1"))) = false)
    as Hnew by by vm_compute.
  destruct (verifyAuthorization demo demo_header Background (guard_at 5 0 ∅)) as [[o1 c1] g1] eqn:E1.
  assert (match o1 with Val _ => true | _ => false end = true) as Ho.
  { change o1 with (o1, c1, g1).1.1. rewrite <- E1. by vm_compute. }
  destruct o1 as [claims| |]; [|discriminate Ho..].
  destruct (prepare (two_hours "key-1") Background (guard_at 5 0 ∅)) as [[o2 c2] g2] eqn:E2.
  assert (match o2 with Val _ => true | _ => false end = true) as Hp.
  { change o2 with (o2, c2, g2).1.1. rewrite <- E2. by vm_compute. }
  destruct o2 as [priced| |]; [|discriminate Hp..]. apply (f_equal (λ r, r.1.1)) in E2.
  destruct (failed_draw_burns_key demo demo_header (two_hours "key-1") Background (guard_at 5 0 ∅) claims c1 g1 priced
    (plain_error "entropy exhausted") (0, 0)%nat [event_at 6 9 "key-1"] E1 E2 Hnew eq_refl) as (c' & g' & Hrun & Hk).
  eexists _, c', g'. split; [exact Hrun|exact Hk].
Defined.

Lemma pricing_adds_up_witness :
  ∃ summary rules total, priceCheckout (two_hours "key-1") euro Background tt = (Val (summary, rules), Background, tt) ∧
    ps_Total summary = mkMoneyValue "22.80" "EUR" ∧ shown formatAmount total (ps_Total summary) ∧
    map rule_key rules = [("vip-service-discount", "line-1", "accepted"); ("regional-vat", "line-1", "accepted")].
Proof.
  destruct (priceCheckout (two_hours "key-1") euro Background tt) as [[o c'] []] eqn:E.
  pose proof (f_equal (λ r, match r.1.1 with Val (s, _) => ps_Total s | _ => mkMoneyValue "" "" end) E) as Htotal.
  vm_compute in Htotal. destruct o as [[summary rules]|e|]; [|discriminate Htotal..].
  destruct (pricing_adds_up (two_hours "key-1") euro Background tt summary rules c' tt E)
    as (lines & subtotal & discounts & taxes & total & _ & _ & _ & _ & _ & _ & _ & _ & Hshown & _ & _ & Hrules).
  assert (c' = Background) as -> by (apply (f_equal (λ r, r.1.2)) in E; symmetry; exact E).
  exists summary, rules, total. split; [reflexivity|]. split; [symmetry; exact Htotal|].
  split; [exact Hshown|]. rewrite Hrules. by vm_compute.
Defined.
End Demo.
