(* ===== verification/InvoiceRules.v ===== *)
(** examples/multi-currency-invoice-rules/internal/invoicerules: the lines of an invoice are priced one by
    one, and their totals, discounts and taxes are kept apart by currency. The money package is a
    parameter. *)
From Stdlib Require Import Ascii String.
From S2P Require Import Prelude GraphLib JwtLib MoneyLib.

Definition ErrInvalidRequest : GoError := Sentinel "invoicerules.ErrInvalidRequest" "invoicerules: invalid request".
Definition ErrInvalidMoney : GoError := Sentinel "invoicerules.ErrInvalidMoney" "invoicerules: invalid money".
Definition RuleAccepted : string := "accepted".
Definition RuleSkipped : string := "skipped".

(** ** Data *)

Record LineItemRequest := mkItem {
  li_LineID : string; li_Description : string; li_Amount : string; li_Currency : string; li_Quantity : Z; li_Category : string
}.
Record InvoiceRequest := mkInvoice {
  iv_InvoiceID : string; iv_CustomerTier : string; iv_Region : string; iv_Lines : list LineItemRequest
}.
Record CurrencyTotal := mkTotal {
  ct_Currency : string; ct_Subtotal : MoneyValue; ct_DiscountTotal : MoneyValue; ct_TaxTotal : MoneyValue; ct_Total : MoneyValue
}.
Record LineItemQuote := mkQuote {
  lq_LineID : string; lq_Description : string; lq_Category : string; lq_UnitAmount : MoneyValue; lq_Quantity : Z;
  lq_LineTotal : MoneyValue
}.
Record RuleDecision := mkRule {
  rd_Name : string; rd_LineID : string; rd_Currency : string; rd_Status : string; rd_Amount : Ptr MoneyValue;
  rd_Reason : string
}.
Record InvoiceResponse := mkResponse {
  ir_InvoiceID : string; ir_TotalsByCurrency : list CurrencyTotal; ir_Lines : list LineItemQuote;
  ir_Rules : list RuleDecision; ir_ConversionApplied : bool
}.
Record ErrorResponse := mkError { er_ErrorCode : string; er_Message : string }.

Definition invalid_request (text : string) : GoError := Errorf ("%w: " ++ text) [ErrInvalidRequest] [].
Definition mapMoneyError (err : GoError) : GoError :=
  if existsb (errors_Is err) moneyErrors then Errorf "%w: invalid money input" [ErrInvalidMoney] [] else err.

Section Invoices.
Context `{MT : MoneyTypes} `{ML : !MoneyLib} `{GU : GoUnicode} `{MR : MapRange} {St : Type}.

#[local] Abbreviation call := (money_call mapMoneyError).

Definition parseCurrency (value : string) : GoM St Currency := call (ParseCurrency value).
Definition formatAmount : string → Z → option string := format_whole.
Definition moneyValue (value : Money) : GoM St MoneyValue := money_value formatAmount value.
Definition roundedZero (currency : Currency) : GoM St Money := rounded_zero mapMoneyError currency.

(** ** One line *)

Definition priceLine (item : LineItemRequest) : GoM St (LineItemQuote * Money) :=
  let lineID := TrimSpace (li_LineID item) in
  if bool_decide (lineID = "") then throw (invalid_request "line_id is required")
  else if li_Quantity item <=? 0 then throw (invalid_request "quantity must be positive")
  else
    let category := ToLower (TrimSpace (li_Category item)) in
    if bool_decide (category = "") then throw (invalid_request "category is required")
    else
      let! currency := parseCurrency (li_Currency item) in
      let! unit := call (MoneyNew (li_Amount item) currency) in
      let! lineTotal := rounded_share mapMoneyError unit (pretty (li_Quantity item)) in
      let! unit := call (Round unit) in
      let! unitAmount := moneyValue unit in
      let! lineAmount := moneyValue lineTotal in
      ret (mkQuote lineID (TrimSpace (li_Description item)) category unitAmount (li_Quantity item) lineAmount, lineTotal).

Definition applyDiscountRule (lineTotal : Money) (line : LineItemQuote) (customerTier : string)
    : GoM St (Money * RuleDecision) :=
  let! zero := roundedZero (CurrencyOf lineTotal) in
  let rule := mkRule "vip-service-discount" (lq_LineID line) (mv_Currency (lq_LineTotal line)) in
  if negb (EqualFold (TrimSpace customerTier) "vip") then ret (zero, rule RuleSkipped None "tier_not_eligible")
  else if bool_decide (lq_Category line ≠ "service") then ret (zero, rule RuleSkipped None "category_not_service")
  else
    let! discount := rounded_share mapMoneyError lineTotal "0.05" in
    let! amount := moneyValue discount in
    ret (discount, rule RuleAccepted (Some amount) "").
Definition applyTaxRule (taxBase : Money) (line : LineItemQuote) (region : string) : GoM St (Money * RuleDecision) :=
  let! zero := roundedZero (CurrencyOf taxBase) in
  let rule := mkRule "regional-vat" (lq_LineID line) (mv_Currency (lq_LineTotal line)) in
  if negb (EqualFold (TrimSpace region) "EU") then ret (zero, rule RuleSkipped None "region_not_eu")
  else if bool_decide (lq_Category line = "tax_exempt") then ret (zero, rule RuleSkipped None "category_tax_exempt")
  else
    let! tax := rounded_share mapMoneyError taxBase "0.20" in
    let! amount := moneyValue tax in
    ret (tax, rule RuleAccepted (Some amount) "").

(** ** Totals by currency *)

Record currencyAccumulator := mkAccumulator {
  ac_currency : Currency; ac_subtotal : Money; ac_discount : Money; ac_tax : Money
}.
(** The map holds pointers, and only this loop follows them: reading and storing the record is what it does. *)
#[local] Abbreviation Accumulators := (gmap string currencyAccumulator).
Definition accumulatorFor (accumulators : Accumulators) (currency : Currency) : GoM St currencyAccumulator :=
  match accumulators !! Code currency with
  | Some accumulator => ret accumulator
  | None => let! zero := roundedZero currency in ret (mkAccumulator currency zero zero zero)
  end.

Record Progress := mkProgress { pg_accumulators : Accumulators; pg_lines : list LineItemQuote; pg_rules : list RuleDecision }.
(** One turn of the loop of [Evaluate]; what an error leaves behind is dropped. *)
Definition evaluate_line (request : InvoiceRequest) (line : LineItemRequest) (p : Progress) : GoM St Progress :=
  let! (quote, lineTotal) := priceLine line in
  let! accumulator := accumulatorFor (pg_accumulators p) (CurrencyOf lineTotal) in
  let! subtotal := call (Add (ac_subtotal accumulator) lineTotal) in
  let! (discount, discountRule) := applyDiscountRule lineTotal quote (iv_CustomerTier request) in
  let! discountTotal := call (Add (ac_discount accumulator) discount) in
  let! taxBase := call (Sub lineTotal discount) in
  let! (tax, taxRule) := applyTaxRule taxBase quote (iv_Region request) in
  let! taxTotal := call (Add (ac_tax accumulator) tax) in
  let accumulator := mkAccumulator (ac_currency accumulator) subtotal discountTotal taxTotal in
  ret (mkProgress (<[Code (CurrencyOf lineTotal) := accumulator]> (pg_accumulators p)) (pg_lines p ++ [quote])
         (pg_rules p ++ [discountRule; taxRule])).

Definition currency_total (accumulator : currencyAccumulator) : GoM St CurrencyTotal :=
  let! subtotal := call (Round (ac_subtotal accumulator)) in
  let! discount := call (Round (ac_discount accumulator)) in
  let! tax := call (Round (ac_tax accumulator)) in
  let! total := call (Sub subtotal discount) in
  let! total := call (Add total tax) in
  let! total := call (Round total) in
  let! subtotal := moneyValue subtotal in
  let! discount := moneyValue discount in
  let! tax := moneyValue tax in
  let! total := moneyValue total in
  ret (mkTotal (Code (ac_currency accumulator)) subtotal discount tax total).
(** A missing code would be a nil dereference. *)
Definition total_of (accumulators : Accumulators) (code : string) (totals : list CurrencyTotal) : GoM St (list CurrencyTotal) :=
  let! accumulator := or_panic (accumulators !! code) in
  let! total := currency_total accumulator in ret (totals ++ [total]).
Definition totalsByCurrency (accumulators : Accumulators) : GoM St (list CurrencyTotal) :=
  foldM (sort_strings (map fst (range accumulators))) (total_of accumulators) [].

(** ** The service *)

Definition rule_less (a b : RuleDecision) : bool :=
  if negb (String.eqb (rd_Currency a) (rd_Currency b)) then str_ltb (rd_Currency a) (rd_Currency b)
  else if negb (String.eqb (rd_LineID a) (rd_LineID b)) then str_ltb (rd_LineID a) (rd_LineID b)
  else str_ltb (rd_Name a) (rd_Name b).
(** The service has no fields; [None] is a nil receiver. *)
Definition Evaluate (s : Ptr unit) (request : InvoiceRequest) : GoM St InvoiceResponse :=
  match s with
  | None => throw (invalid_request "service is nil")
  | Some _ =>
      let invoiceID := TrimSpace (iv_InvoiceID request) in
      if bool_decide (invoiceID = "") then throw (invalid_request "invoice_id is required")
      else if bool_decide (len (iv_Lines request) = 0) then throw (invalid_request "at least one line is required")
      else
        let! p := foldM (iv_Lines request) (evaluate_line request) (mkProgress ∅ [] []) in
        let! totals := totalsByCurrency (pg_accumulators p) in
        ret (mkResponse invoiceID totals (pg_lines p) (SliceStable rule_less (pg_rules p)) false)
  end.

(** ** HTTP *)

Definition writeInvoiceError (err : GoError) : Z * ErrorResponse :=
  if errors_Is err "invoicerules.ErrInvalidRequest" then (400, mkError "invalid_request" "invalid invoice request")
  else if errors_Is err "invoicerules.ErrInvalidMoney" then (400, mkError "invalid_money" "invalid money input")
  else (500, mkError "invoice_error" "invoice evaluation failed").
Inductive Body := BodyHealth | BodyInvoice (r : InvoiceResponse) | BodyError (r : ErrorResponse).
(** The routes; gin binds a JSON body, after [MaxBytesReader], to a request or an error. *)
Inductive HttpRequest := GetHealthz | PostEvaluate (bound : GoError + InvoiceRequest).
(** A panic is passed on to gin's Recovery. *)
Definition serve (s : Ptr unit) (request : HttpRequest) : GoM St (Z * Body) :=
  match request with
  | GetHealthz => ret (200, BodyHealth)
  | PostEvaluate (inl _) => ret (400, BodyError (mkError "invalid_request" "invalid invoice request"))
  | PostEvaluate (inr request) => λ c st,
      match Evaluate s request c st with
      | (Val invoice, c', st') => (Val (200, BodyInvoice invoice), c', st')
      | (Fail err, c', st') => let '(status, response) := writeInvoiceError err in (Val (status, BodyError response), c', st')
      | (Panic, c', st') => (Panic, c', st')
      end
  end.
End Invoices.
