(* ===== verification/InvoiceProofs.v ===== *)
(** What the invoice rules promise: one total for each currency, in order, that adds up exactly; rules in
    order; no panic and no dependence on Go's map order. *)
From Stdlib Require Import Ascii String QArith Lqa.
From S2P Require Import Prelude GraphLib JwtLib MoneyLib MoneyModel InvoiceRules.
Open Scope Z_scope.

(** ** Orderings *)

Lemma strictly_sorted xs :
  StronglySorted (sort_le str_ltb) xs → NoDup xs → StronglySorted (λ a b, str_ltb a b = true) xs.
Proof.
  induction 1 as [|x xs Hs IH HF]; [constructor|]. intros [Hx Hnd]%NoDup_cons. constructor; [by apply IH|].
  apply Forall_forall. intros y Hy. rewrite Forall_forall in HF. specialize (HF y Hy). unfold sort_le in HF.
  destruct (str_ltb x y) eqn:E; [done|]. exfalso. apply Hx. by rewrite (str_ltb_total _ _ E HF).
Qed.
Lemma range_codes `{MapRange} {A} (m : gmap string A) :
  NoDup (map fst (range m)) ∧ ∀ code, code ∈ map fst (range m) ↔ is_Some (m !! code).
Proof.
  assert (map fst (range m) ≡ₚ map fst (map_to_list m)) as Hp by by rewrite range_perm. rewrite Hp.
  split; [apply NoDup_fst_map_to_list|]. intros code. rewrite Hp. split.
  - intros ([k v] & -> & Hin%elem_of_map_to_list)%list_elem_of_fmap. eauto.
  - intros [v Hv]. apply list_elem_of_fmap. exists (code, v). by rewrite elem_of_map_to_list.
Qed.


#[export] Instance rule_less_weak : WeakOrder rule_less.
Proof.
  assert (∀ a b, (a =? b)%string = true ↔ str_ltb a b = false ∧ str_ltb b a = false) as Hs.
  { intros a b. rewrite String.eqb_eq. split; [intros ->; by rewrite str_ltb_irrefl|intros [H1 H2]; by apply str_ltb_total]. }
  unfold rule_less. apply (lex_weak _ (key_less rd_Currency)); [|apply _|].
  - intros a b. apply Hs.
  - apply (lex_weak _ (key_less rd_LineID)); [|apply _|apply (key_less_weak rd_Name)]. intros a b. apply Hs.
Qed.

Section Specification.
Context `{MT : MoneyTypes} `{ML : !MoneyLib} `{GU : GoUnicode} `{MV : !MoneyValues}.

(** ** The specification *)

Definition code_of (p : LinePrice) : string := Code (CurrencyOf (lp_line p)).
Definition category_of (item : LineItemRequest) : string := ToLower (TrimSpace (li_Category item)).
Definition discounted (request : InvoiceRequest) (item : LineItemRequest) : bool :=
  EqualFold (TrimSpace (iv_CustomerTier request)) "vip" && bool_decide (category_of item = "service").
Definition taxed (request : InvoiceRequest) (item : LineItemRequest) : bool :=
  EqualFold (TrimSpace (iv_Region request)) "EU" && bool_decide (category_of item ≠ "tax_exempt").
(** The unit amount the caller wrote. *)
Definition unit_of (item : LineItemRequest) (currency : Currency) (unit_ : Money) : Prop :=
  ParseCurrency (li_Currency item) = inr currency ∧ MoneyNew (li_Amount item) currency = inr unit_.
Definition line_price (request : InvoiceRequest) (item : LineItemRequest) (p : LinePrice) : Prop :=
  TrimSpace (li_LineID item) ≠ "" ∧ 0 < li_Quantity item ∧ category_of item ≠ "" ∧
  (∃ currency unit_, unit_of item currency unit_ ∧
     nearest (value unit_ * inject_Z (li_Quantity item)) currency (lp_line p)) ∧
  rules_price (discounted request item) (taxed request item) p.
Definition quoted (ip : LineItemRequest * LinePrice) (q : LineItemQuote) : Prop :=
  lq_LineID q = TrimSpace (li_LineID ip.1) ∧ lq_Description q = TrimSpace (li_Description ip.1) ∧
  lq_Category q = category_of ip.1 ∧ lq_Quantity q = li_Quantity ip.1 ∧ shown formatAmount (lp_line ip.2) (lq_LineTotal q) ∧
  ∃ currency unit_ r, unit_of ip.1 currency unit_ ∧ Round unit_ = inr r ∧ shown formatAmount r (lq_UnitAmount q).
(** What a rule decided for a line, and how the response says so. *)
Record Verdict := mkVerdict { de_name : string; de_line : string; de_code : string; de_applies : bool; de_amount : Money }.
Definition line_decisions (request : InvoiceRequest) (ip : LineItemRequest * LinePrice) : list Verdict :=
  [mkVerdict "vip-service-discount" (TrimSpace (li_LineID ip.1)) (code_of ip.2) (discounted request ip.1) (lp_discount ip.2);
   mkVerdict "regional-vat" (TrimSpace (li_LineID ip.1)) (code_of ip.2) (taxed request ip.1) (lp_tax ip.2)].
Definition decided (d : Verdict) (r : RuleDecision) : Prop :=
  rd_Name r = de_name d ∧ rd_LineID r = de_line d ∧ rd_Currency r = de_code d ∧
  if de_applies d then rd_Status r = RuleAccepted ∧ ∃ v, rd_Amount r = Some v ∧ shown formatAmount (de_amount d) v
  else rd_Status r = RuleSkipped ∧ rd_Amount r = None.
Definition own (code : string) (lines : list LinePrice) : list LinePrice := filter (λ p, code_of p = code) lines.
(** The totals of a currency: exact sums over its lines. *)
Definition total_shown (lines : list LinePrice) (t : CurrencyTotal) : Prop :=
  let own := own (ct_Currency t) lines in
  ∃ subtotal discounts taxes total,
    (value subtotal == sum_of lp_line own)%Q ∧ (value discounts == sum_of lp_discount own)%Q ∧
    (value taxes == sum_of lp_tax own)%Q ∧ (value total == value subtotal - value discounts + value taxes)%Q ∧
    ((∀ p, p ∈ own → (0 <= value (lp_line p))%Q) → (0 <= value total)%Q) ∧
    shown formatAmount subtotal (ct_Subtotal t) ∧ shown formatAmount discounts (ct_DiscountTotal t) ∧
    shown formatAmount taxes (ct_TaxTotal t) ∧ shown formatAmount total (ct_Total t).
Definition rule_place (r : RuleDecision) : string * string * string := (rd_Currency r, rd_LineID r, rd_Name r).
(** One place is before another: by its currency, then by its line, then by its rule. *)
Inductive precedes : string * string * string → string * string * string → Prop :=
  | by_currency c l n c' l' n' : str_ltb c c' = true → precedes (c, l, n) (c', l', n')
  | by_line c l n l' n' : str_ltb l l' = true → precedes (c, l, n) (c, l', n')
  | by_rule c l n n' : str_ltb n n' = true → precedes (c, l, n) (c, l, n').
Lemma rule_less_precedes a b : rule_less a b = true ↔ precedes (rule_place a) (rule_place b).
Proof.
  unfold rule_less, rule_place. destruct (String.eqb_spec (rd_Currency a) (rd_Currency b)) as [Ec|Hc]; cbn [negb].
  - rewrite Ec. destruct (String.eqb_spec (rd_LineID a) (rd_LineID b)) as [El|Hl]; cbn [negb].
    + rewrite El. split; [by apply by_rule|]. inversion 1; subst; [|by rewrite str_ltb_irrefl in *..|done]. by rewrite str_ltb_irrefl in *.
    + split; [by apply by_line|]. inversion 1; subst; [by rewrite str_ltb_irrefl in *|done|done].
  - split; [by apply by_currency|]. by inversion 1.
Qed.
Record priced (request : InvoiceRequest) (lines : list LinePrice) (r : InvoiceResponse) : Prop := {
  pr_lines : Forall2 (line_price request) (iv_Lines request) lines;
  pr_quotes : Forall2 quoted (zip (iv_Lines request) lines) (ir_Lines r);
  pr_codes : StronglySorted (λ a b, str_ltb a b = true) (map ct_Currency (ir_TotalsByCurrency r));
  pr_each : ∀ code, code ∈ map ct_Currency (ir_TotalsByCurrency r) ↔ code ∈ map code_of lines;
  pr_totals : Forall (total_shown lines) (ir_TotalsByCurrency r);
  pr_rules : ∃ rules, Forall2 decided (concat (map (line_decisions request) (zip (iv_Lines request) lines))) rules ∧
    ir_Rules r ≡ₚ rules ∧ StronglySorted (λ a b, ¬ precedes (rule_place b) (rule_place a)) (ir_Rules r) ∧
    ∀ place, filter (λ r, rule_place r = place) (ir_Rules r) = filter (λ r, rule_place r = place) rules
}.
End Specification.

Section Evaluation.
Context `{MT : MoneyTypes} `{ML : !MoneyLib} `{GU : GoUnicode} `{MV : !MoneyValues} `{MLW : !MoneyLaws} {St : Type}.

(** ** One line *)

Lemma priceLine_val item c (s : St) quote line c' s' :
  priceLine item c s = (Val (quote, line), c', s') →
  TrimSpace (li_LineID item) ≠ "" ∧ 0 < li_Quantity item ∧ category_of item ≠ "" ∧
  (∃ currency unit_, unit_of item currency unit_ ∧ nearest (value unit_ * inject_Z (li_Quantity item)) currency line) ∧
  ∀ p, lp_line p = line → quoted (item, p) quote.
Proof.
  unfold priceLine. case_bool_decide as Hid; [done|]. destruct (Z.leb_spec (li_Quantity item) 0) as [|Hq]; [done|].
  case_bool_decide as Hcat; [done|].
  intros (cur & c1 & s1 & (Hcur & _ & _)%money_call_val & H)%bind_val.
  apply bind_val in H as (u & c2 & s2 & (Hu & _ & _)%money_call_val & H).
  apply bind_val in H as (l & c3 & s3 & Hl%(rounded_share_val _ _ _ _ _ _ _ _ _ (decimal_pretty _)) & H).
  apply bind_val in H as (r & c4 & s4 & (Hr & _ & _)%money_call_val & H).
  apply bind_val in H as (v1 & c5 & s5 & (Hv1 & _ & _)%money_value_val & H).
  apply bind_val in H as (v2 & c6 & s6 & (Hv2 & _ & _)%money_value_val & H). injection H as <- <- _ _.
  rewrite (new_currency _ _ _ Hu) in Hl. split; [done|]. split; [done|]. split; [done|]. split; [by exists cur, u|].
  intros p <-. repeat (split; [done|]). by exists cur, u, r.
Qed.

Lemma discount_val l item quote request c (s : St) m rule c' s' p :
  quoted (item, p) quote → lp_line p = l →
  applyDiscountRule l quote (iv_CustomerTier request) c s = (Val (m, rule), c', s') →
  share l (5 # 100) (discounted request item) m ∧
  decided (mkVerdict "vip-service-discount" (TrimSpace (li_LineID item)) (code_of p) (discounted request item) m) rule.
Proof.
  intros (Hid & _ & Hcat & _ & [_ Hcur] & _) <-. cbn [fst snd] in *. unfold applyDiscountRule, discounted, code_of. rewrite Hid, Hcat, Hcur.
  intros (z & c1 & s1 & Hz%(zero_share _ _ (5 # 100)) & H)%bind_val.
  destruct (EqualFold (TrimSpace (iv_CustomerTier request)) "vip"); cbn [negb andb] in *; [|by injection H as <- <- _ _].
  destruct (decide (category_of item = "service")) as [Hc|Hc].
  - rewrite bool_decide_eq_false_2 in H by (intros F; exact (F Hc)). rewrite bool_decide_eq_true_2 by done.
    apply bind_val in H as (d & c3 & s3 & Hd%(share_run _ _ _ (5 # 100)) & H); [|done].
    apply bind_val in H as (v & c4 & s4 & (Hv & _ & _)%money_value_val & H). injection H as <- <- _ _.
    split; [done|]. repeat (split; [done|]). by exists v.
  - rewrite bool_decide_eq_true_2 in H by done. rewrite bool_decide_eq_false_2 by done. by injection H as <- <- _ _.
Qed.
Lemma tax_val base item quote request c (s : St) m rule c' s' p :
  quoted (item, p) quote → applyTaxRule base quote (iv_Region request) c s = (Val (m, rule), c', s') →
  share base (20 # 100) (taxed request item) m ∧
  decided (mkVerdict "regional-vat" (TrimSpace (li_LineID item)) (code_of p) (taxed request item) m) rule.
Proof.
  intros (Hid & _ & Hcat & _ & [_ Hcur] & _). cbn [fst snd] in *. unfold applyTaxRule, taxed, code_of. rewrite Hid, Hcat, Hcur.
  intros (z & c1 & s1 & Hz%(zero_share _ _ (20 # 100)) & H)%bind_val.
  destruct (EqualFold (TrimSpace (iv_Region request)) "EU"); cbn [negb andb] in *; [|by injection H as <- <- _ _].
  destruct (decide (category_of item = "tax_exempt")) as [Hc|Hc].
  - rewrite bool_decide_eq_true_2 in H by done. rewrite (bool_decide_eq_false_2 (_ ≠ _)) by (intros F; exact (F Hc)). by injection H as <- <- _ _.
  - rewrite bool_decide_eq_false_2 in H by done. rewrite (bool_decide_eq_true_2 (_ ≠ _)) by done.
    apply bind_val in H as (d & c3 & s3 & Hd%(share_run _ _ _ (20 # 100)) & H); [|done].
    apply bind_val in H as (v & c4 & s4 & (Hv & _ & _)%money_value_val & H). injection H as <- <- _ _.
    split; [done|]. repeat (split; [done|]). by exists v.
Qed.

(** ** The accumulators *)

Definition sums (lines : list LinePrice) (code : string) (a : currencyAccumulator) : Prop :=
  Code (ac_currency a) = code ∧ rounded (ac_subtotal a) ∧ rounded (ac_discount a) ∧ rounded (ac_tax a) ∧
  (value (ac_subtotal a) == sum_of lp_line (own code lines))%Q ∧
  (value (ac_discount a) == sum_of lp_discount (own code lines))%Q ∧
  (value (ac_tax a) == sum_of lp_tax (own code lines))%Q.
Definition accumulated (lines : list LinePrice) (code : string) (o : option currencyAccumulator) : Prop :=
  match o with None => own code lines = [] | Some a => code ∈ map code_of lines ∧ sums lines code a end.

Lemma accumulatorFor_val lines accs currency c (s : St) a c' s' :
  accumulated lines (Code currency) (accs !! Code currency) →
  accumulatorFor accs currency c s = (Val a, c', s') → sums lines (Code currency) a.
Proof.
  unfold accumulatorFor. destruct (accs !! Code currency) as [a'|].
  - intros [_ Ha]. by intros [= <- _ _].
  - cbn. intros Hown (z & c1 & s1 & (Hz & Hr & _)%rounded_zero_val & H)%bind_val. injection H as <- _ _.
    unfold sums. rewrite Hown. by repeat split.
Qed.
Lemma own_snoc_same p lines : own (code_of p) (lines ++ [p]) = own (code_of p) lines ++ [p].
Proof. unfold own. by rewrite filter_app, filter_cons_True. Qed.
Lemma own_snoc_other code p lines : code ≠ code_of p → own code (lines ++ [p]) = own code lines.
Proof. intros Hne. unfold own. rewrite filter_app, filter_cons_False by (intros ?; by apply Hne). by rewrite app_nil_r. Qed.

Lemma accumulated_snoc lines p (accs : gmap string currencyAccumulator) a :
  (∀ code, accumulated lines code (accs !! code)) → sums (lines ++ [p]) (code_of p) a →
  ∀ code, accumulated (lines ++ [p]) code (<[code_of p := a]> accs !! code).
Proof.
  intros Hall Ha code. unfold accumulated. rewrite map_app. destruct (decide (code = code_of p)) as [->|Hne].
  - rewrite lookup_insert_eq. split; [set_solver|done].
  - rewrite lookup_insert_ne by done. specialize (Hall code). unfold accumulated in Hall.
    destruct (accs !! code) as [b|]; [|by rewrite own_snoc_other]. destruct Hall as [Hin Hs]. split; [set_solver|].
    unfold sums in *. by rewrite own_snoc_other.
Qed.

(** ** The loop *)

Record progressed (request : InvoiceRequest) (items : list LineItemRequest) (lines : list LinePrice) (p : Progress) : Prop := {
  po_lines : Forall2 (line_price request) items lines;
  po_quotes : Forall2 quoted (zip items lines) (pg_lines p);
  po_rules : Forall2 decided (concat (map (line_decisions request) (zip items lines))) (pg_rules p);
  po_accumulators : ∀ code, accumulated lines code (pg_accumulators p !! code)
}.

Lemma evaluate_line_val request items lines p item c (s : St) p' c' s' :
  progressed request items lines p → evaluate_line request item p c s = (Val p', c', s') →
  ∃ l, progressed request (items ++ [item]) (lines ++ [l]) p'.
Proof.
  intros [P1 P2 P3 P4].
  intros ([quote line] & c1 & s1 & (Hid & Hq & Hcat & Hunit & Hquoted)%priceLine_val & H)%bind_val.
  apply bind_val in H as (a & c2 & s2 & Ha%(accumulatorFor_val lines) & H); [|apply P4].
  apply bind_val in H as (sub & c3 & s3 & (Hsub & _ & _)%money_call_val & H).
  apply bind_val in H as ([d dr] & c4 & s4 & Hd & H).
  apply bind_val in H as (dt & c5 & s5 & (Hdt & _ & _)%money_call_val & H).
  apply bind_val in H as (base & c6 & s6 & (Hbase & _ & _)%money_call_val & H).
  apply bind_val in H as ([x xr] & c7 & s7 & Hx & H).
  apply bind_val in H as (xt & c8 & s8 & (Hxt & _ & _)%money_call_val & H). injection H as <- _ _.
  set (l := mkLine line d x). assert (quoted (item, l) quote) as Hql by by apply Hquoted.
  destruct (discount_val _ _ _ _ _ _ _ _ _ _ _ Hql eq_refl Hd) as [Hds Hdd], (tax_val _ _ _ _ _ _ _ _ _ _ _ Hql Hx) as [Hxs Hxd].
  assert (rounded line) as Hlr by by destruct Hunit as (? & ? & _ & _ & ? & _).
  pose proof Hds as (_ & Hdr & _). pose proof Hxs as (_ & Hxr & _).
  pose proof (Forall2_length _ _ _ P1) as Hlen. exists l. split; cbn [pg_lines pg_rules pg_accumulators].
  - apply Forall2_app; [done|]. constructor; [|constructor].
    refine (conj Hid (conj Hq (conj Hcat (conj Hunit (conj Hds _))))). exists base.
    exact (conj Hbase (conj (proj1 (sub_law _ _ _ Hbase)) Hxs)).
  - rewrite zip_with_app by done. apply Forall2_app; [done|]. by constructor.
  - rewrite zip_with_app by done. rewrite map_app, concat_app. apply Forall2_app; [done|].
    exact (List.Forall2_cons _ _ Hdd (List.Forall2_cons _ _ Hxd (List.Forall2_nil _))).
  - apply accumulated_snoc; [done|]. fold (code_of l) in Ha. destruct Ha as (A1 & A2 & A3 & A4 & A5 & A6 & A7).
    unfold sums. rewrite own_snoc_same, !sum_of_app, !sum_of_one. cbn [ac_currency ac_subtotal ac_discount ac_tax].
    split; [done|]. split; [exact (add_rounded _ _ _ A2 Hlr Hsub)|]. split; [exact (add_rounded _ _ _ A3 Hdr Hdt)|].
    split; [exact (add_rounded _ _ _ A4 Hxr Hxt)|].
    by rewrite (proj1 (add_law _ _ _ Hsub)), (proj1 (add_law _ _ _ Hdt)), (proj1 (add_law _ _ _ Hxt)), A5, A6, A7.
Qed.
Lemma evaluate_lines_val request p c (s : St) c' s' :
  foldM (iv_Lines request) (evaluate_line request) (mkProgress ∅ [] []) c s = (Val p, c', s') →
  ∃ lines, progressed request (iv_Lines request) lines p.
Proof.
  apply (foldM_val (λ items p, ∃ lines, progressed request items lines p)).
  - exists []. split; [constructor..|]. intros code. cbn [pg_accumulators]. by rewrite lookup_empty.
  - intros items item b c1 s1 b' c2 s2 [lines Hp] Hrun. destruct (evaluate_line_val _ _ _ _ _ _ _ _ _ _ Hp Hrun) as [l Hl]. eauto.
Qed.

(** ** The totals *)

Lemma sum_nonneg (lines : list LinePrice) request items :
  Forall2 (line_price request) items lines →
  ∀ code, (∀ p, p ∈ own code lines → (0 <= value (lp_line p))%Q) →
  (0 <= sum_of lp_line (own code lines) - sum_of lp_discount (own code lines) + sum_of lp_tax (own code lines))%Q.
Proof.
  intros Hl code. induction Hl as [|item p items lines Hp Hl IH]; [intros _; by vm_compute|].
  unfold own in *. rewrite filter_cons. case_decide; [|done]. intros Hpos. rewrite !sum_of_cons.
  assert (0 <= value (lp_line p))%Q as Hp0 by (apply Hpos; set_solver).
  destruct Hp as (_ & _ & _ & (cur & u & _ & _ & Hr & _) & Hrules).
  destruct (rules_price_bounds _ _ _ Hr Hp0 Hrules) as [[D1 D2] [T1 T2]].
  specialize (IH ltac:(intros q Hq; apply Hpos; set_solver)). lra.
Qed.

Lemma currency_total_val request items lines a code c (s : St) t c' s' :
  Forall2 (line_price request) items lines → sums lines code a →
  currency_total a c s = (Val t, c', s') → ct_Currency t = code ∧ total_shown lines t.
Proof.
  intros Hl (A1 & A2 & A3 & A4 & A5 & A6 & A7).
  intros (sub & c1 & s1 & (Hsub & _ & _)%money_call_val & H)%bind_val.
  apply bind_val in H as (d & c2 & s2 & (Hd & _ & _)%money_call_val & H).
  apply bind_val in H as (x & c3 & s3 & (Hx & _ & _)%money_call_val & H).
  apply bind_val in H as (n1 & c4 & s4 & (Hn1 & _ & _)%money_call_val & H).
  apply bind_val in H as (n2 & c5 & s5 & (Hn2 & _ & _)%money_call_val & H).
  apply bind_val in H as (n3 & c6 & s6 & (Hn3 & _ & _)%money_call_val & H).
  apply bind_val in H as (v1 & c7 & s7 & (Hv1 & _ & _)%money_value_val & H).
  apply bind_val in H as (v2 & c8 & s8 & (Hv2 & _ & _)%money_value_val & H).
  apply bind_val in H as (v3 & c9 & s9 & (Hv3 & _ & _)%money_value_val & H).
  apply bind_val in H as (v4 & c10 & s10 & (Hv4 & _ & _)%money_value_val & H). injection H as <- _ _.
  split; [done|]. pose proof (round_law _ _ Hsub) as (_ & R1 & _). pose proof (round_law _ _ Hd) as (_ & R2 & _).
  pose proof (round_law _ _ Hx) as (_ & R3 & _).
  pose proof (round_fixed _ _ (add_rounded _ _ _ (sub_rounded _ _ _ R1 R2 Hn1) R3 Hn2) Hn3) as Htotal.
  rewrite (proj1 (add_law _ _ _ Hn2)), (proj1 (sub_law _ _ _ Hn1)) in Htotal.
  rewrite <- (round_fixed _ _ A2 Hsub) in A5. rewrite <- (round_fixed _ _ A3 Hd) in A6. rewrite <- (round_fixed _ _ A4 Hx) in A7.
  unfold total_shown. cbn [ct_Currency ct_Subtotal ct_DiscountTotal ct_TaxTotal ct_Total]. rewrite A1.
  exists sub, d, x, n3. do 4 (split; [done|]). split; [|done].
  intros Hpos. rewrite Htotal, A5, A6, A7. by eapply sum_nonneg.
Qed.

Context `{MR : MapRange}.
Lemma totals_val request items lines accs c (s : St) totals c' s' :
  Forall2 (line_price request) items lines → (∀ code, accumulated lines code (accs !! code)) →
  totalsByCurrency accs c s = (Val totals, c', s') →
  map ct_Currency totals = sort_strings (map fst (range accs)) ∧ Forall (total_shown lines) totals.
Proof.
  intros Hl Hacc Hrun. unfold totalsByCurrency in Hrun. set (codes := sort_strings _) in *.
  revert Hrun. apply (foldM_val (λ codes totals, map ct_Currency totals = codes ∧ Forall (total_shown lines) totals)); [by split|].
  intros seen code b c1 s1 b' c2 s2 [Hb Hf] (a & c3 & s3 & Ha & H)%bind_val.
  unfold or_panic in Ha. destruct (accs !! code) as [a'|] eqn:E; [|done]. injection Ha as <- _ _.
  apply bind_val in H as (t & c4 & s4 & Ht & H). injection H as <- _ _.
  specialize (Hacc code). rewrite E in Hacc. destruct Hacc as [_ Hsums].
  destruct (currency_total_val _ _ _ _ _ _ _ _ _ _ Hl Hsums Ht) as [Hcode Hshown].
  rewrite map_app, Hb. cbn. rewrite Hcode. split; [done|]. apply Forall_app. by repeat constructor.
Qed.
End Evaluation.

(** ** Pure evaluation *)

Section Pure.
Context `{MT : MoneyTypes} `{ML : !MoneyLib} `{SL : !ScaleLaws} `{GU : GoUnicode} {St : Type}.

Lemma pure_invoice_value v : pure_method (St := St) (moneyValue v).
Proof. unfold moneyValue, formatAmount. auto with gom. Qed.
Lemma pure_invoice_zero currency : pure_method (St := St) (roundedZero currency).
Proof. unfold roundedZero. auto with gom. Qed.
#[local] Hint Resolve pure_invoice_value pure_invoice_zero : gom.
Lemma pure_parseCurrency v : pure_method (St := St) (parseCurrency v).
Proof. unfold parseCurrency. auto with gom. Qed.
#[local] Hint Resolve pure_parseCurrency : gom.

#[local] Ltac pure_steps :=
  repeat first [apply pure_ret|apply pure_throw|apply pure_if|apply pure_bind; [solve [auto with gom]|intros ?; try case_match]].
Lemma pure_invoice_discount l q tier : pure_method (St := St) (applyDiscountRule l q tier).
Proof. unfold applyDiscountRule. pure_steps. Qed.
Lemma pure_invoice_tax l q region : pure_method (St := St) (applyTaxRule l q region).
Proof. unfold applyTaxRule. pure_steps. Qed.
Lemma pure_priceLine item : pure_method (St := St) (priceLine item).
Proof. unfold priceLine. pure_steps. Qed.
Lemma pure_accumulatorFor accs currency : pure_method (St := St) (accumulatorFor accs currency).
Proof. unfold accumulatorFor. destruct (_ !! _); pure_steps. Qed.
#[local] Hint Resolve pure_invoice_discount pure_invoice_tax pure_priceLine pure_accumulatorFor : gom.
Lemma pure_evaluate_line request item p : pure_method (St := St) (evaluate_line request item p).
Proof. unfold evaluate_line. pure_steps. Qed.
Lemma pure_currency_total a : pure_method (St := St) (currency_total a).
Proof. unfold currency_total. pure_steps. Qed.
#[local] Hint Resolve pure_evaluate_line pure_currency_total : gom.
Lemma pure_totals `{MR : MapRange} accs : pure_method (St := St) (totalsByCurrency accs).
Proof.
  unfold totalsByCurrency. apply pure_foldM_in. intros code totals Hin. unfold sort_strings in Hin.
  rewrite elem_of_sort_by in Hin. apply range_codes in Hin as [a Ha]. unfold total_of, or_panic. rewrite Ha.
  apply pure_bind; [apply pure_ret|]. intros a'. pure_steps.
Qed.
Lemma pure_Evaluate `{MR : MapRange} s request : pure_method (St := St) (Evaluate s request).
Proof.
  unfold Evaluate. destruct s; [|apply pure_throw]. apply pure_if; [apply pure_throw|]. apply pure_if; [apply pure_throw|].
  apply pure_bind; [auto with gom|]. intros p. apply pure_bind; [apply pure_totals|]. intros totals. apply pure_ret.
Qed.
Lemma totals_range (R1 R2 : MapRange) accs : totalsByCurrency (MR := R1) (St := St) accs = totalsByCurrency (MR := R2) accs.
Proof.
  unfold totalsByCurrency. f_equal. apply sort_strings_unique. by rewrite !range_perm.
Qed.
End Pure.

(** ** Properties *)

Section Theorems.
Context `{MT : MoneyTypes} `{ML : !MoneyLib} `{SL : !ScaleLaws} `{GU : GoUnicode} {St : Type}.

Definition is_error (body : Body) : bool := match body with BodyError _ => true | _ => false end.

Definition refused (e : GoError) : bool :=
  errors_Is e "invoicerules.ErrInvalidRequest" || errors_Is e "invoicerules.ErrInvalidMoney".

(** Every request is answered, and the answer does not depend on the order in which Go ranges over
    the accumulators: no panic, no change of state, 200 exactly with an invoice, 400 exactly when the body
    is not bound or the evaluation refuses the request or its money, and 500 otherwise. A nil service, a
    blank invoice ID and an invoice without lines are refused. *)
Theorem invoice_answers `{MR : MapRange} s request c (st : St) :
  ∃ status body, (∀ R : MapRange, serve (MR := R) s request c st = (Val (status, body), c, st)) ∧
    status ∈ [200; 400; 500] ∧ (status = 200 ↔ is_error body = false) ∧
    (status = 400 ↔ match request with
                    | GetHealthz => False
                    | PostEvaluate (inl _) => True
                    | PostEvaluate (inr r) => ∃ e, (Evaluate s r c st).1.1 = Fail e ∧ refused e = true
                    end) ∧
    ∀ r, request = PostEvaluate (inr r) → s = None ∨ TrimSpace (iv_InvoiceID r) = "" ∨ iv_Lines r = [] → status = 400.
Proof.
  destruct request as [|[e|r]].
  - exists 200, BodyHealth. split; [done|]. split; [compute_done|]. done.
  - eexists 400, (BodyError _). split; [done|]. split; [compute_done|]. done.
  - destruct (pure_Evaluate (MR := MR) (St := St) s r) as (o & Ho & Hrun).
    assert (∀ R : MapRange, Evaluate (MR := R) s r c st = (o, c, st)) as Hall.
    { intros R. rewrite <- (Hrun c st). unfold Evaluate. destruct s; [|done]. do 2 (case_match; [done|]).
      unfold bind. destruct (foldM _ _ _ _ _) as [[[p|e|] c1] s1]; [|done..]. by rewrite (totals_range R MR). }
    assert (s = None ∨ TrimSpace (iv_InvoiceID r) = "" ∨ iv_Lines r = [] → ∃ text, o = Fail (invalid_request text)) as Hbad.
    { intros Hb. specialize (Hall MR). unfold Evaluate in Hall. destruct s as [[]|]; [|injection Hall as <-; eauto].
      case_bool_decide; [injection Hall as <-; eauto|]. destruct Hb as [|[|Hb]]; [done..|]. rewrite Hb in Hall. cbn in Hall.
      injection Hall as <-. eauto. }
    rewrite Hrun. cbn [fst]. destruct o as [v|e|]; [| |done].
    + exists 200, (BodyInvoice v). split; [intros; cbn; by rewrite Hall|]. split; [compute_done|]. split; [done|].
      split; [split; [done|by intros (? & [=] & _)]|]. intros r' [= <-] (? & [=])%Hbad.
    + exists (writeInvoiceError e).1, (BodyError (writeInvoiceError e).2). split.
      { intros. cbn. rewrite Hall. by destruct (writeInvoiceError e). }
      assert ((writeInvoiceError e).1 = if refused e then 400 else 500) as ->.
      { unfold writeInvoiceError, refused. by destruct (errors_Is e _), (errors_Is e _). }
      split; [destruct (refused e); compute_done|]. split; [by destruct (refused e)|]. split.
      * destruct (refused e) eqn:E; split; [eauto|done|done|]. intros (e' & [= <-] & He). congruence.
      * intros r' [= <-] (text & [= ->])%Hbad. done.
Qed.

Context `{MV : !MoneyValues} `{MLW : !MoneyLaws}.

(** C33: The totals of an invoice are one for each currency of its lines, in the order of their codes, and
    add up exactly: the subtotal is the sum of the currency's lines, each the unit amount times the
    quantity rounded to a nearest minor unit; discount and tax are the sums of the rounded 5 % and 20 %
    of the lines the rules apply to; the total is the subtotal less the discounts plus the taxes, and not
    negative when no line is. Lines come back in order, and the two decisions for each line sorted by
    currency, line and rule, in the order of the lines where these agree. Nothing is converted. *)
Theorem invoice_adds_up `{MR : MapRange} s request c (st : St) r c' st' :
  Evaluate s request c st = (Val r, c', st') →
  ir_InvoiceID r = TrimSpace (iv_InvoiceID request) ∧ ir_ConversionApplied r = false ∧ ∃ lines, priced request lines r.
Proof.
  unfold Evaluate. destruct s; [|done]. do 2 (case_match; [done|]).
  intros (p & c1 & s1 & Hp & H1)%bind_val. apply bind_val in H1 as (totals & c2 & s2 & Ht & H1). injection H1 as <- _ _.
  split; [done|]. split; [done|]. destruct (evaluate_lines_val _ _ _ _ _ _ Hp) as [lines [P1 P2 P3 P4]].
  destruct (totals_val _ _ _ _ _ _ _ _ _ P1 P4 Ht) as [Hcodes Htotals]. destruct (range_codes (pg_accumulators p)) as [Hnd Hin].
  exists lines. split; cbn [ir_Lines ir_TotalsByCurrency ir_Rules]; [done|done| | |done|].
  - rewrite Hcodes. apply strictly_sorted; [apply sort_by_sorted; apply _|]. unfold sort_strings. by rewrite sort_by_perm.
  - intros code. rewrite Hcodes. unfold sort_strings. rewrite elem_of_sort_by, Hin. specialize (P4 code).
    destruct (pg_accumulators p !! code) as [a|]; cbn in P4.
    + destruct P4 as [P4 _]. split; [done|eauto].
    + split; [by intros [? [=]]|]. intros (l & -> & Hl)%list_elem_of_fmap. exfalso.
      assert (l ∈ own (code_of l) lines) as Hl' by (by apply list_elem_of_filter). rewrite P4 in Hl'. by apply not_elem_of_nil in Hl'.
  - exists (pg_rules p). split; [done|]. split; [apply stable_perm|]. split.
    { rewrite <- (map_id (SliceStable _ _)). eapply sorted_map, (stable_ordered rule_less). intros a b Hab. by rewrite <- rule_less_precedes, Hab. }
    intros place. apply stable_filter. intros a b Ha Hb. unfold rule_place in *. rewrite <- Hb in Ha. injection Ha as E1 E2 E3.
    unfold rule_less. rewrite E1, E2, E3, !String.eqb_refl. apply str_ltb_irrefl.
Qed.
End Theorems.

(** ** Witnesses *)

Section Demo.
#[local] Existing Instances decimal_types decimal_money decimal_scale decimal_value decimal_laws plain_unicode plain_range.

Definition two_currencies : InvoiceRequest :=
  mkInvoice " inv-1 " "VIP" "eu"
    [mkItem "line-2" "support" "10.005" "USD" 3 "Service"; mkItem "line-1" "books" "1200" "JPY" 2 "tax_exempt";
     mkItem "line-3" "license" "-1.10" "USD" 1 "software"].

Lemma invoice_adds_up_witness :
  ∃ r lines, Evaluate (Some tt) two_currencies Background tt = (Val r, Background, tt) ∧
    ir_TotalsByCurrency r =
      [mkTotal "JPY" (mkMoneyValue "2400" "JPY") (mkMoneyValue "0" "JPY") (mkMoneyValue "0" "JPY") (mkMoneyValue "2400" "JPY");
       mkTotal "USD" (mkMoneyValue "28.92" "USD") (mkMoneyValue "1.50" "USD") (mkMoneyValue "5.48" "USD") (mkMoneyValue "32.90" "USD")] ∧
    map rule_place (ir_Rules r) =
      [("JPY", "line-1", "regional-vat"); ("JPY", "line-1", "vip-service-discount"); ("USD", "line-2", "regional-vat");
       ("USD", "line-2", "vip-service-discount"); ("USD", "line-3", "regional-vat"); ("USD", "line-3", "vip-service-discount")] ∧
    priced two_currencies lines r.
Proof.
  destruct (Evaluate (Some tt) two_currencies Background tt) as [[o c'] []] eqn:E.
  assert (match o with Val _ => true | _ => false end = true) as Ho.
  { change o with (o, c', tt).1.1. rewrite <- E. by vm_compute. }
  destruct o as [r| |]; [|discriminate Ho..].
  destruct (invoice_adds_up (Some tt) two_currencies Background tt r c' tt E) as (_ & _ & lines & Hl).
  exists r, lines. assert (c' = Background) as -> by (apply (f_equal (λ r, r.1.2)) in E; symmetry; exact E).
  apply (f_equal (λ r, match r.1.1 with Val v => (ir_TotalsByCurrency v, map rule_place (ir_Rules v)) | _ => ([], []) end)) in E.
  vm_compute in E. injection E as E1 E2. split; [reflexivity|]. split; [symmetry; exact E1|]. split; [symmetry; exact E2|]. exact Hl.
Defined.

Lemma invoice_answers_witness :
  ∃ status body, serve (Some tt) (PostEvaluate (inr two_currencies)) Background tt = (Val (status, body), Background, tt) ∧
    status = 200 ∧ is_error body = false.
Proof.
  destruct (invoice_answers (Some tt) (PostEvaluate (inr two_currencies)) Background tt) as (status & body & H1 & _ & H2 & _).
  exists status, body. specialize (H1 plain_range). split; [exact H1|].
  apply (f_equal (λ r, match r.1.1 with Val (s, _) => s | _ => 0 end)) in H1. vm_compute in H1.
  split; [symmetry; exact H1|]. apply H2. symmetry. exact H1.
Defined.
End Demo.
