(* ===== verification/MoneyPricing.v ===== *)
(** examples/money-rule-pricing/internal/moneypricing: a cart of one currency is quoted with a discount for
    vip customers and a coupon. The money package is a parameter. *)
From Stdlib Require Import Ascii String.
From S2P Require Import Prelude JwtLib MoneyLib.

Definition ErrInvalidRequest : GoError := Sentinel "moneypricing.ErrInvalidRequest" "moneypricing: invalid request".
Definition ErrInvalidMoney : GoError := Sentinel "moneypricing.ErrInvalidMoney" "moneypricing: invalid money".
Definition ErrCurrencyMismatch : GoError := Sentinel "moneypricing.ErrCurrencyMismatch" "moneypricing: currency mismatch".
Definition RuleAccepted : string := "accepted".
Definition RuleRejected : string := "rejected".
Definition RuleSkipped : string := "skipped".

(** ** Data *)

Record LineItemRequest := mkItem { li_SKU : string; li_UnitPrice : string; li_Currency : string; li_Quantity : Z }.
Record QuoteRequest := mkQuoteRequest {
  qr_CartID : string; qr_Currency : string; qr_CustomerTier : string; qr_CouponCode : string; qr_Items : list LineItemRequest
}.
Record LineItemQuote := mkLineQuote {
  lq_SKU : string; lq_UnitPrice : MoneyValue; lq_Quantity : Z; lq_LineTotal : MoneyValue
}.
Record RuleDecision := mkRule { rd_Name : string; rd_Status : string; rd_Amount : Ptr MoneyValue; rd_Reason : string }.
Record QuoteResponse := mkQuoteResponse {
  qp_CartID : string; qp_Currency : string; qp_Subtotal : MoneyValue; qp_DiscountTotal : MoneyValue; qp_Total : MoneyValue;
  qp_Items : list LineItemQuote; qp_Rules : list RuleDecision
}.
Record ErrorResponse := mkError { er_ErrorCode : string; er_Message : string }.

Definition invalid_request (text : string) : GoError := Errorf ("%w: " ++ text) [ErrInvalidRequest] [].
Definition mapMoneyError (err : GoError) : GoError :=
  if errors_Is err moneyErrCurrencyMismatch then ErrCurrencyMismatch
  else if existsb (errors_Is err) moneyErrors then Errorf "%w: invalid money input" [ErrInvalidMoney] []
  else err.

Section Pricing.
Context `{MT : MoneyTypes} `{ML : !MoneyLib} `{GU : GoUnicode} {St : Type}.

#[local] Abbreviation call := (money_call mapMoneyError).

Definition parseCurrency (value : string) : GoM St Currency := call (ParseCurrency value).
Definition formatAmount : string → Z → option string := format_plain.
Definition moneyValue (value : Money) : GoM St MoneyValue := money_value formatAmount value.

Definition priceLine (cartCurrency : Currency) (item : LineItemRequest) : GoM St LineItemQuote :=
  let sku := TrimSpace (li_SKU item) in
  if bool_decide (sku = "") then throw (invalid_request "sku is required")
  else if li_Quantity item <=? 0 then throw (invalid_request "quantity must be positive")
  else
    let! itemCurrency := parseCurrency (li_Currency item) in
    if bool_decide (Code itemCurrency ≠ Code cartCurrency) then throw ErrCurrencyMismatch
    else
      let! unit := call (MoneyNew (li_UnitPrice item) cartCurrency) in
      let! lineTotal := rounded_share mapMoneyError unit (pretty (li_Quantity item)) in
      let! unit := call (Round unit) in
      let! unitPrice := moneyValue unit in
      let! lineAmount := moneyValue lineTotal in
      ret (mkLineQuote sku unitPrice (li_Quantity item) lineAmount).

(** The rule of the customer's tier. *)
Definition vip_rule (subtotal : Money) (customerTier : string) (discountTotal : Money) : GoM St (Money * list RuleDecision) :=
  if EqualFold (TrimSpace customerTier) "vip" then
    let! vipDiscount := rounded_share mapMoneyError subtotal "0.10" in
    let! discountTotal := call (Add discountTotal vipDiscount) in
    let! amount := moneyValue vipDiscount in
    ret (discountTotal, [mkRule "vip-ten-percent" RuleAccepted (Some amount) ""])
  else if bool_decide (TrimSpace customerTier ≠ "")
  then ret (discountTotal, [mkRule "vip-ten-percent" RuleSkipped None "tier_not_eligible"])
  else ret (discountTotal, []).
(** The rule of the coupon, after it. *)
Definition coupon_rule (currency : Currency) (subtotal : Money) (couponCode : string) (discountTotal : Money)
    (rules : list RuleDecision) : GoM St (Money * list RuleDecision) :=
  let coupon := ToUpper (TrimSpace couponCode) in
  if bool_decide (coupon = "") then ret (discountTotal, rules)
  else if bool_decide (coupon = "SAVE10") then
    let! fixedDiscount := call (MoneyNew "10.00" currency) in
    let! remainingSubtotal := call (Sub subtotal discountTotal) in
    let! cmp := call (Cmp fixedDiscount remainingSubtotal) in
    if 0 <? cmp then ret (discountTotal, rules ++ [mkRule "coupon-save10" RuleRejected None "discount_exceeds_subtotal"])
    else
      let! discountTotal := call (Add discountTotal fixedDiscount) in
      let! discountTotal := call (Round discountTotal) in
      let! amount := moneyValue fixedDiscount in
      ret (discountTotal, rules ++ [mkRule "coupon-save10" RuleAccepted (Some amount) ""])
  else ret (discountTotal, rules ++ [mkRule "coupon" RuleRejected None "unsupported_coupon"]).
Definition applyRules (currency : Currency) (subtotal : Money) (customerTier couponCode : string)
    : GoM St (Money * list RuleDecision) :=
  let! discountTotal := rounded_zero mapMoneyError currency in
  let! (discountTotal, rules) := vip_rule subtotal customerTier discountTotal in
  coupon_rule currency subtotal couponCode discountTotal rules.

(** One turn of the loop over the items: the line total is read back from its text. *)
Definition quote_item (currency : Currency) (item : LineItemRequest) (acc : Money * list LineItemQuote)
    : GoM St (Money * list LineItemQuote) :=
  let! quote := priceLine currency item in
  let! lineTotal := call (MoneyNew (mv_Amount (lq_LineTotal quote)) currency) in
  let! subtotal := call (Add (fst acc) lineTotal) in
  ret (subtotal, snd acc ++ [quote]).
(** The service has no fields; [None] is a nil receiver. *)
Definition Quote (s : Ptr unit) (request : QuoteRequest) : GoM St QuoteResponse :=
  match s with
  | None => throw (invalid_request "service is nil")
  | Some _ =>
      let cartID := TrimSpace (qr_CartID request) in
      if bool_decide (cartID = "") then throw (invalid_request "cart_id is required")
      else if bool_decide (len (qr_Items request) = 0) then throw (invalid_request "at least one item is required")
      else
        let! currency := parseCurrency (qr_Currency request) in
        let! subtotal := call (MoneyZero currency) in
        let! (subtotal, items) := foldM (qr_Items request) (quote_item currency) (subtotal, []) in
        let! subtotal := call (Round subtotal) in
        let! (discountTotal, rules) := applyRules currency subtotal (qr_CustomerTier request) (qr_CouponCode request) in
        let! total := call (Sub subtotal discountTotal) in
        let! total := call (Round total) in
        let! subtotal := moneyValue subtotal in
        let! discountTotal := moneyValue discountTotal in
        let! total := moneyValue total in
        ret (mkQuoteResponse cartID (Code currency) subtotal discountTotal total items rules)
  end.

(** ** HTTP *)

Definition writePricingError (err : GoError) : Z * ErrorResponse :=
  if errors_Is err "moneypricing.ErrInvalidRequest" then (400, mkError "invalid_request" "invalid quote request")
  else if errors_Is err "moneypricing.ErrInvalidMoney" then (400, mkError "invalid_money" "invalid money input")
  else if errors_Is err "moneypricing.ErrCurrencyMismatch" then (400, mkError "currency_mismatch" "cart contains mixed currencies")
  else (500, mkError "pricing_error" "pricing failed").
Inductive Body := BodyHealth | BodyQuote (r : QuoteResponse) | BodyError (r : ErrorResponse).
(** The routes; gin binds a JSON body, after [MaxBytesReader], to a request or an error. *)
Inductive HttpRequest := GetHealthz | PostQuotes (bound : GoError + QuoteRequest).
(** A panic is passed on to gin's Recovery. *)
Definition serve (s : Ptr unit) (request : HttpRequest) : GoM St (Z * Body) :=
  match request with
  | GetHealthz => ret (200, BodyHealth)
  | PostQuotes (inl _) => ret (400, BodyError (mkError "invalid_request" "invalid quote request"))
  | PostQuotes (inr request) => λ c st,
      match Quote s request c st with
      | (Val quote, c', st') => (Val (200, BodyQuote quote), c', st')
      | (Fail err, c', st') => let '(status, response) := writePricingError err in (Val (status, BodyError response), c', st')
      | (Panic, c', st') => (Panic, c', st')
      end
  end.
End Pricing.
