(* ===== verification/MoneyPricingProofs.v ===== *)
(** What a quote promises: the texts shown for the lines add up to the subtotal, the rules never discount
    more than there is, and every request is answered. *)
From Stdlib Require Import Ascii String QArith Lqa.
From S2P Require Import Prelude JwtLib MoneyLib MoneyModel MoneyPricing.
Open Scope Z_scope.

Section Specification.
Context `{MT : MoneyTypes} `{ML : !MoneyLib} `{GU : GoUnicode} `{MV : !MoneyValues}.

(** ** The specification *)

(** A line: its rounded total, and the number its text denotes. *)
Definition line_of (currency : Currency) (item : LineItemRequest) (line : Money) (q : LineItemQuote) : Prop :=
  TrimSpace (li_SKU item) ≠ "" ∧ 0 < li_Quantity item ∧
  (∃ own, ParseCurrency (li_Currency item) = inr own ∧ Code own = Code currency) ∧
  (∃ unit_ r, MoneyNew (li_UnitPrice item) currency = inr unit_ ∧
     nearest (value unit_ * inject_Z (li_Quantity item)) currency line ∧
     Round unit_ = inr r ∧ shown formatAmount r (lq_UnitPrice q)) ∧
  lq_SKU q = TrimSpace (li_SKU item) ∧ lq_Quantity q = li_Quantity item ∧ shown formatAmount line (lq_LineTotal q).
Definition is_vip (tier : string) : bool := EqualFold (TrimSpace tier) "vip".
Definition coupon_of (code : string) : string := ToUpper (TrimSpace code).
Definition vip_decision (tier : string) (amount : Ptr MoneyValue) : list RuleDecision :=
  if is_vip tier then [mkRule "vip-ten-percent" RuleAccepted amount ""]
  else if bool_decide (TrimSpace tier = "") then [] else [mkRule "vip-ten-percent" RuleSkipped None "tier_not_eligible"].
Definition coupon_decision (coupon : string) (accepted : bool) (amount : Ptr MoneyValue) : list RuleDecision :=
  if bool_decide (coupon = "") then []
  else if bool_decide (coupon = "SAVE10") then
    [if accepted then mkRule "coupon-save10" RuleAccepted amount ""
     else mkRule "coupon-save10" RuleRejected None "discount_exceeds_subtotal"]
  else [mkRule "coupon" RuleRejected None "unsupported_coupon"].
(** The discounts of a subtotal: 10 % for vip customers, then 10.00 where that much is left. *)
Record discounted (tier coupon : string) (subtotal discount : Money) (rules : list RuleDecision) : Prop := {
  ds_rounded : rounded discount;
  ds_rules : ∃ vip accepted v1 v2,
    share subtotal (10 # 100) (is_vip tier) vip ∧
    (accepted = true ↔ coupon_of coupon = "SAVE10" ∧ (10 <= value subtotal - value vip)%Q) ∧
    (value discount == value vip + (if accepted then 10 else 0))%Q ∧
    (is_vip tier = true → ∃ v, v1 = Some v ∧ shown formatAmount vip v) ∧
    rules = vip_decision tier v1 ++ coupon_decision (coupon_of coupon) accepted v2
}.
End Specification.

Section Quotes.
Context `{MT : MoneyTypes} `{ML : !MoneyLib} `{GU : GoUnicode} `{MV : !MoneyValues} `{MLW : !MoneyLaws} {St : Type}.

Lemma quoted_line currency item c (s : St) q c' s' :
  priceLine currency item c s = (Val q, c', s') → ∃ line, line_of currency item line q.
Proof.
  unfold priceLine. case_bool_decide as Hsku; [done|]. destruct (Z.leb_spec (li_Quantity item) 0) as [|Hq]; [done|].
  intros (cur & c1 & s1 & (Hcur & _ & _)%money_call_val & H)%bind_val. case_bool_decide as Hcode; [done|].
  apply bind_val in H as (u & c2 & s2 & (Hu & _ & _)%money_call_val & H).
  apply bind_val in H as (l & c3 & s3 & Hl%(rounded_share_val _ _ _ _ _ _ _ _ _ (decimal_pretty _)) & H).
  apply bind_val in H as (r & c4 & s4 & (Hr & _ & _)%money_call_val & H).
  apply bind_val in H as (v1 & c5 & s5 & (Hv1 & _ & _)%money_value_val & H).
  apply bind_val in H as (v2 & c6 & s6 & (Hv2 & _ & _)%money_value_val & H). injection H as <- _ _.
  rewrite (new_currency _ _ _ Hu) in Hl. exists l. split; [done|]. split; [done|]. split; [by exists cur|].
  split; [by exists u, r|]. done.
Qed.

Lemma vip_rule_val subtotal tier zero c (s : St) d rules c' s' :
  (value zero == 0)%Q → rounded zero → CurrencyOf zero = CurrencyOf subtotal →
  vip_rule subtotal tier zero c s = (Val (d, rules), c', s') →
  rounded d ∧ CurrencyOf d = CurrencyOf subtotal ∧
  ∃ vip v1, share subtotal (10 # 100) (is_vip tier) vip ∧ (value d == value vip)%Q ∧ rules = vip_decision tier v1 ∧
    (is_vip tier = true → ∃ v, v1 = Some v ∧ shown formatAmount vip v).
Proof.
  intros Hz Hzr Hzc. unfold vip_rule, vip_decision, is_vip. destruct (EqualFold (TrimSpace tier) "vip").
  - intros (p & c1 & s1 & Hp%(share_run _ _ _ (10 # 100)) & H)%bind_val; [|done].
    apply bind_val in H as (t & c2 & s2 & (Ht & _ & _)%money_call_val & H).
    apply bind_val in H as (v & c3 & s3 & (Hv & _ & _)%money_value_val & H). injection H as <- <- _ _.
    destruct (add_law _ _ _ Ht) as (Hval & _ & Hc). split; [exact (add_rounded _ _ _ Hzr (proj1 (proj2 Hp)) Ht)|].
    split; [congruence|]. exists p, (Some v). split; [done|]. split; [rewrite Hval, Hz; ring|]. split; [done|eauto].
  - case_bool_decide as Ht; intros [= <- <- _ _]; (split; [done|]); (split; [done|]); exists zero, None; (split; [done|]); (split; [done|]); (split; [|done]).
    + by rewrite bool_decide_eq_false_2.
    + by rewrite bool_decide_eq_true_2.
Qed.
Lemma coupon_rule_val currency subtotal coupon d rules c (s : St) d' rules' c' s' :
  rounded d → CurrencyOf d = currency → CurrencyOf subtotal = currency →
  coupon_rule currency subtotal coupon d rules c s = (Val (d', rules'), c', s') →
  rounded d' ∧ ∃ accepted v2,
    (accepted = true ↔ coupon_of coupon = "SAVE10" ∧ (10 <= value subtotal - value d)%Q) ∧
    (value d' == value d + (if accepted then 10 else 0))%Q ∧
    rules' = rules ++ coupon_decision (coupon_of coupon) accepted v2.
Proof.
  intros Hd Hdc Hsc. unfold coupon_rule, coupon_decision, coupon_of. cbv zeta.
  case_bool_decide as E1; [|case_bool_decide as E2].
  - intros [= <- <- _ _]. split; [done|]. exists false, None. rewrite app_nil_r, E1. split; [split; [done|by intros [[=] _]]|]. split; [ring|done].
  - intros (f & c1 & s1 & (Hf & _ & _)%money_call_val & H)%bind_val.
    apply bind_val in H as (r & c2 & s2 & (Hr & _ & _)%money_call_val & H).
    apply bind_val in H as (z & c3 & s3 & (Hz & _ & _)%money_call_val & H).
    apply cmp_law in Hz. destruct (sub_law _ _ _ Hr) as (Hrv & _ & _).
    pose proof (new_law "10.00" currency (1000 # 100) f eq_refl Hf) as Hfv. assert (1000 # 100 == 10)%Q as H10 by done. rewrite H10 in Hfv.
    destruct (Z.ltb_spec 0 z) as [Hcmp|Hcmp].
    + injection H as <- <- _ _. split; [done|]. exists false, None. split; [|split; [ring|done]].
      split; [done|]. intros [_ Hge]. apply Hz in Hcmp. rewrite Hrv, Hfv in Hcmp. exfalso. lra.
    + apply bind_val in H as (t & c4 & s4 & (Ht & _ & _)%money_call_val & H).
      apply bind_val in H as (n & c5 & s5 & (Hn & _ & _)%money_call_val & H).
      apply bind_val in H as (v & c6 & s6 & (Hv & _ & _)%money_value_val & H). injection H as <- <- _ _.
      assert (rounded f) as Hfr by (exists (10 * Z.pos (minor (CurrencyOf f))); rewrite Hfv; unfold Qeq; cbn; lia).
      split; [by destruct (round_law _ _ Hn) as (_ & ? & _)|]. exists true, (Some v). split; [|split; [|done]].
      * split; [intros _|done]. split; [done|]. apply Qnot_lt_le. intros Hlt.
        apply (Z.lt_irrefl 0). apply Z.lt_le_trans with z; [|done]. apply Hz. rewrite Hrv, Hfv. exact Hlt.
      * rewrite (round_fixed _ _ (add_rounded _ _ _ Hd Hfr Ht) Hn), (proj1 (add_law _ _ _ Ht)), Hfv. ring.
  - intros [= <- <- _ _]. split; [done|]. exists false, None. split; [|split; [ring|done]]. split; [done|]. by intros [E _].
Qed.
Lemma applyRules_val currency subtotal tier coupon c (s : St) d rules c' s' :
  CurrencyOf subtotal = currency → applyRules currency subtotal tier coupon c s = (Val (d, rules), c', s') →
  discounted tier coupon subtotal d rules.
Proof.
  intros Hc (z & c1 & s1 & (Hz & Hzr & Hzc)%rounded_zero_val & H)%bind_val.
  apply bind_val in H as ([d1 r1] & c2 & s2 & (Hd & Hdc & vip & v1 & Hvip & Hv & -> & Hshow)%(vip_rule_val _ _ _ _ _ _ _ _ _ Hz Hzr) & H); [|congruence].
  apply coupon_rule_val in H as (Hr & acc & v2 & Hacc & Hval & ->); [|done|congruence|done].
  split; [done|]. exists vip, acc, v1, v2. rewrite Hv in Hacc, Hval. done.
Qed.

(** ** The loop over the items *)

(** The texts of the lines denote what the lines are worth, and the subtotal is their sum. *)
Record summed (currency : Currency) (items : list LineItemRequest) (acc : Money * list LineItemQuote) : Prop := {
  sm_rounded : rounded (fst acc);
  sm_currency : CurrencyOf (fst acc) = currency;
  sm_lines : ∃ lines, Forall2 (λ iq line, line_of currency iq.1 line iq.2) (zip items (snd acc)) lines ∧
    length (snd acc) = length items ∧ (value (fst acc) == sum_of id lines)%Q ∧
    Forall2 (λ q line, ∃ n, decimal (mv_Amount (lq_LineTotal q)) = Some n ∧ (n == value line)%Q) (snd acc) lines
}.
Context `{SL : !ScaleLaws}.
Lemma quote_item_val currency items item acc c (s : St) acc' c' s' :
  summed currency items acc → quote_item currency item acc c s = (Val acc', c', s') → summed currency (items ++ [item]) acc'.
Proof.
  intros [R1 R2 (lines & L1 & L2 & L3 & L4)] (q & c1 & s1 & [line Hline]%quoted_line & H)%bind_val.
  apply bind_val in H as (l & c2 & s2 & (Hl & _ & _)%money_call_val & H).
  apply bind_val in H as (t & c3 & s3 & (Ht & _ & _)%money_call_val & H). injection H as <- _ _.
  pose proof Hline as (_ & _ & _ & (u & r & _ & (Hlc & Hlr & _) & _) & _ & _ & Hshown).
  destruct (shown_decimal _ _ Hlr Hshown) as (n & Hn & Hnv).
  pose proof (new_law _ _ _ _ Hn Hl) as Hlv. rewrite Hnv in Hlv. destruct (add_law _ _ _ Ht) as (Hval & _ & Hc).
  assert (rounded l) as Hlr'.
  { destruct Hlr as [z Hz]. exists z. by rewrite Hlv, Hz, Hlc, (new_currency _ _ _ Hl). }
  split; cbn [fst snd].
  - exact (add_rounded _ _ _ R1 Hlr' Ht).
  - congruence.
  - exists (lines ++ [line]). rewrite zip_with_app by done. rewrite !length_app, L2.
    split; [apply Forall2_app; [done|]; constructor; [exact Hline|constructor]|]. split; [done|]. split.
    + rewrite Hval, sum_of_app, sum_of_one, L3, Hlv. done.
    + apply Forall2_app; [done|]. constructor; [by exists n|constructor].
Qed.
End Quotes.

(** ** Properties *)

Section Theorems.
Context `{MT : MoneyTypes} `{ML : !MoneyLib} `{GU : GoUnicode} `{SL : !ScaleLaws} {St : Type}.

Lemma pure_quote_value v : pure_method (St := St) (moneyValue v).
Proof. unfold moneyValue, formatAmount. auto with gom. Qed.
#[local] Hint Resolve pure_quote_value : gom.
#[local] Ltac pure_steps :=
  repeat first [apply pure_ret|apply pure_throw|apply pure_if|apply pure_bind; [solve [auto with gom]|intros ?; try case_match]].
Lemma pure_quote_currency v : pure_method (St := St) (parseCurrency v).
Proof. unfold parseCurrency. auto with gom. Qed.
#[local] Hint Resolve pure_quote_currency : gom.
Lemma pure_quote_line currency item : pure_method (St := St) (priceLine currency item).
Proof. unfold priceLine. pure_steps. Qed.
#[local] Hint Resolve pure_quote_line : gom.
Lemma pure_quote_item currency item acc : pure_method (St := St) (quote_item currency item acc).
Proof. unfold quote_item. pure_steps. Qed.
Lemma pure_quote_rules currency subtotal tier coupon : pure_method (St := St) (applyRules currency subtotal tier coupon).
Proof.
  unfold applyRules. apply pure_bind; [auto with gom|]. intros z. apply pure_bind; [unfold vip_rule; pure_steps|].
  intros [d rules]. unfold coupon_rule. cbv zeta. pure_steps.
Qed.
#[local] Hint Resolve pure_quote_item pure_quote_rules : gom.
Lemma pure_Quote s request : pure_method (St := St) (Quote s request).
Proof. unfold Quote. destruct s; [|apply pure_throw]. pure_steps. Qed.

Context `{MV : !MoneyValues} `{MLW : !MoneyLaws}.

(** A quote adds up. Every item is of the cart's currency and its line the unit price times the
    quantity, rounded to a nearest minor unit. The subtotal is the exact sum of the numbers whose texts the
    response shows for the lines. Vip customers get the rounded 10 %, the coupon takes 10.00 exactly when
    that much is left, and the rules say so; the total is the subtotal less the discount, and of a subtotal
    that is not negative the discount is never more than all of it. *)
Theorem quote_adds_up s request c (st : St) r c' st' :
  Quote s request c st = (Val r, c', st') →
  ∃ currency lines subtotal discount total,
    ParseCurrency (qr_Currency request) = inr currency ∧ qp_Currency r = Code currency ∧
    Forall2 (λ iq line, line_of currency iq.1 line iq.2) (zip (qr_Items request) (qp_Items r)) lines ∧
    length (qp_Items r) = length (qr_Items request) ∧
    Forall2 (λ q line, ∃ n, decimal (mv_Amount (lq_LineTotal q)) = Some n ∧ (n == value line)%Q) (qp_Items r) lines ∧
    (value subtotal == sum_of id lines)%Q ∧
    discounted (qr_CustomerTier request) (qr_CouponCode request) subtotal discount (qp_Rules r) ∧
    (value total == value subtotal - value discount)%Q ∧
    ((0 <= value subtotal)%Q → (0 <= value discount <= value subtotal)%Q) ∧
    shown formatAmount subtotal (qp_Subtotal r) ∧ shown formatAmount discount (qp_DiscountTotal r) ∧
    shown formatAmount total (qp_Total r).
Proof.
  unfold Quote. destruct s; [|done]. do 2 (case_match; [done|]).
  intros (currency & c1 & s1 & (Hcur & _ & _)%money_call_val & H1)%bind_val.
  apply bind_val in H1 as (zero & c2 & s2 & (Hzero & _ & _)%money_call_val & H1).
  apply bind_val in H1 as ([sub items] & c3 & s3 & Hloop & H1).
  apply (foldM_val (summed currency)) in Hloop; [| |intros; by eapply quote_item_val].
  2: { destruct (zero_law _ _ Hzero) as [Hz Hzc]. split; [by eapply zero_rounded|done|]. by exists []. }
  destruct Hloop as [R1 R2 (lines & L1 & L2 & L3 & L4)]. cbn [fst snd] in *.
  apply bind_val in H1 as (sub' & c4 & s4 & (Hsub & _ & _)%money_call_val & H1).
  pose proof (round_law _ _ Hsub) as (Hsc & Hsr & _). pose proof (round_fixed _ _ R1 Hsub) as Hsv.
  apply bind_val in H1 as ([d rules] & c5 & s5 & Hd%applyRules_val & H1); [|congruence].
  apply bind_val in H1 as (t & c6 & s6 & (Ht & _ & _)%money_call_val & H1).
  apply bind_val in H1 as (t' & c7 & s7 & (Ht' & _ & _)%money_call_val & H1).
  apply bind_val in H1 as (v1 & c8 & s8 & (Hv1 & _ & _)%money_value_val & H1).
  apply bind_val in H1 as (v2 & c9 & s9 & (Hv2 & _ & _)%money_value_val & H1).
  apply bind_val in H1 as (v3 & c10 & s10 & (Hv3 & _ & _)%money_value_val & H1). injection H1 as <- _ _.
  exists currency, lines, sub', d, t'. cbn [qp_Currency qp_Items qp_Rules qp_Subtotal qp_DiscountTotal qp_Total].
  do 5 (split; [done|]). split; [by rewrite Hsv|]. split; [done|]. pose proof Hd as [Hdr (vip & acc & w1 & w2 & Hvip & Hacc & Hval & _)].
  split; [by rewrite (round_fixed _ _ (sub_rounded _ _ _ Hsr Hdr Ht) Ht'), (proj1 (sub_law _ _ _ Ht))|]. split; [|done].
  intros Hpos. destruct (share_bounds sub' (10 # 100) (is_vip (qr_CustomerTier request)) vip Hsr Hpos) as [B1 B2]; [split; by vm_compute|done|].
  rewrite Hval. destruct acc; [|split; lra]. destruct Hacc as [[_ Hten] _]; [done|]. split; lra.
Qed.
End Theorems.

(** ** Witness *)

Section Demo.
#[local] Existing Instances decimal_types decimal_money decimal_scale decimal_value decimal_laws plain_unicode.

Definition vip_cart : QuoteRequest :=
  mkQuoteRequest "cart-1" "USD" " vip " "save10" [mkItem "pen" "1.255" "USD" 10; mkItem "book" "20" "USD" 1].

Lemma quote_adds_up_witness :
  ∃ r lines, Quote (Some tt) vip_cart Background tt = (Val r, Background, tt) ∧
    map (λ q, mv_Amount (lq_LineTotal q)) (qp_Items r) = ["12.55"; "20.00"] ∧
    qp_Subtotal r = mkMoneyValue "32.55" "USD" ∧ qp_DiscountTotal r = mkMoneyValue "13.26" "USD" ∧
    qp_Total r = mkMoneyValue "19.29" "USD" ∧
    Forall2 (λ q line, ∃ n, decimal (mv_Amount (lq_LineTotal q)) = Some n ∧ (n == value line)%Q) (qp_Items r) lines.
Proof.
  destruct (Quote (Some tt) vip_cart Background tt) as [[o c'] []] eqn:E.
  assert (match o with Val _ => true | _ => false end = true) as Ho.
  { change o with (o, c', tt).1.1. rewrite <- E. by vm_compute. }
  destruct o as [r| |]; [|discriminate Ho..].
  destruct (quote_adds_up (Some tt) vip_cart Background tt r c' tt E) as (_ & lines & _ & _ & _ & _ & _ & _ & _ & Hl & _).
  exists r, lines. assert (c' = Background) as -> by (apply (f_equal (λ r, r.1.2)) in E; symmetry; exact E).
  apply (f_equal (λ r, match r.1.1 with
    | Val v => (map (λ q, mv_Amount (lq_LineTotal q)) (qp_Items v), qp_Subtotal v, qp_DiscountTotal v, qp_Total v)
    | _ => ([], mkMoneyValue "" "", mkMoneyValue "" "", mkMoneyValue "" "") end)) in E.
  vm_compute in E. injection E as E1 E2 E3 E4. split; [reflexivity|]. split; [symmetry; exact E1|].
  split; [symmetry; exact E2|]. split; [symmetry; exact E3|]. split; [symmetry; exact E4|]. exact Hl.
Defined.
End Demo.
