(* ===== verification/ExchangePricing.v ===== *)
(** examples/exchange-rate-pricing/internal/exchangepricing: a cart is priced in its base currency, and the
    total converted to the currency of a locale at a provider's rate. The money package and the provider
    are parameters. *)
From Stdlib Require Import Ascii String.
From S2P Require Import Prelude JwtLib MoneyLib.

Definition defaultOperationTimeout : Z := 750 * 1000000.

Definition ErrInvalidRequest : GoError := Sentinel "exchangepricing.ErrInvalidRequest" "exchangepricing: invalid request".
Definition ErrInvalidMoney : GoError := Sentinel "exchangepricing.ErrInvalidMoney" "exchangepricing: invalid money".
Definition ErrInvalidLocale : GoError := Sentinel "exchangepricing.ErrInvalidLocale" "exchangepricing: invalid locale".
Definition ErrCurrencyMismatch : GoError := Sentinel "exchangepricing.ErrCurrencyMismatch" "exchangepricing: currency mismatch".
Definition ErrProviderUnavailable : GoError :=
  Sentinel "exchangepricing.ErrProviderUnavailable" "exchangepricing: exchange-rate provider unavailable".
Definition ErrStaleQuote : GoError := Sentinel "exchangepricing.ErrStaleQuote" "exchangepricing: stale quote".

(** ** Time *)

(** A [time.Time] in UTC: nanoseconds since the zero time, the first instant of year 1. *)
Definition Time : Type := Z.
(** Year, month and day of a count of days since the zero time (proleptic Gregorian calendar). *)
Definition civil (days : Z) : Z * Z * Z :=
  let z := days + 306 in
  let era := z / 146097 in
  let doe := z mod 146097 in
  let yoe := (doe - doe / 1460 + doe / 36524 - doe / 146096) / 365 in
  let doy := doe - (365 * yoe + yoe / 4 - yoe / 100) in
  let mp := (5 * doy + 2) / 153 in
  let month := if mp <? 10 then mp + 3 else mp - 9 in
  (yoe + 400 * era + (if month <=? 2 then 1 else 0), month, doy - (153 * mp + 2) / 5 + 1).
Definition padded (width : nat) (n : Z) : string :=
  let digits := pretty (Z.abs n) in
  let sign := if n <? 0 then "-" else "" in
  (sign ++ repeat_str "0" (width - String.length digits) ++ digits)%string.
(** [t.UTC().Format(time.RFC3339)]. *)
Definition RFC3339 (t : Time) : string :=
  let secs := t / Second in
  let '(year, month, day) := civil (secs / 86400) in
  let clock := secs mod 86400 in
  (padded 4 year ++ "-" ++ padded 2 month ++ "-" ++ padded 2 day ++ "T" ++ padded 2 (clock / 3600) ++ ":" ++
   padded 2 (clock / 60 mod 60) ++ ":" ++ padded 2 (clock mod 60) ++ "Z")%string.

(** [context.WithTimeout]: the child is done when its parent is or when its deadline passes; when that is,
    as a number of polls, is a parameter. The parent has spent the polls of its child. *)
Class Deadlines := expires : Z → option nat.
Definition WithTimeout `{Deadlines} (timeout : Z) (parent : Ctx) : Ctx :=
  match expires timeout with
  | None => parent
  | Some n =>
      match ctx_polls parent with
      | Some m => if (m <=? n)%nat then parent else {| ctx_polls := Some n; ctx_cause := ByDeadline |}
      | None => {| ctx_polls := Some n; ctx_cause := ByDeadline |}
      end
  end.
Definition spent (before after : Ctx) : nat :=
  match ctx_polls before, ctx_polls after with Some n, Some m => n - m | _, _ => 0 end.
Definition spend (n : nat) (c : Ctx) : Ctx :=
  {| ctx_polls := option_map (λ m, m - n)%nat (ctx_polls c); ctx_cause := ctx_cause c |}.

(** ** The exchange part of the money package *)

Class ExchangeTypes := { Provider : Type; Rate : Type }.
Record ExchangeRateQuote `{ExchangeTypes} := mkRateQuote {
  xq_Source : string; xq_Rate : Rate; xq_ObservedAt : Time; xq_FetchedAt : Time; xq_ExpiresAt : Time;
  xq_Stale : bool; xq_RefreshError : option GoError
}.
(** [St] is the world of the provider. *)
Class ExchangeLib `{MoneyLib} `{ExchangeTypes} (St : Type) := {
  CurrencyByLocale : string → GoError + Currency;
  RateText : Rate → string;
  ConvertWithProvider : Money → Currency → Provider → GoM St (Money * ExchangeRateQuote)
}.
Definition providerErrors : list string :=
  ["money.ErrExchangeRateProvider"; "money.ErrExchangeRateUnavailable"; "money.ErrUnsupportedExchangeRate"].

(** ** Data *)

Record LineItemRequest := mkItem { li_SKU : string; li_UnitPrice : string; li_Currency : string; li_Quantity : Z }.
Record QuoteRequest := mkQuoteRequest {
  qr_QuoteID : string; qr_BaseCurrency : string; qr_Locale : string; qr_AllowStaleQuote : bool; qr_Items : list LineItemRequest
}.
Record LineItemQuote := mkLineQuote {
  lq_SKU : string; lq_UnitPrice : MoneyValue; lq_Quantity : Z; lq_LineTotal : MoneyValue
}.
Record RateMetadata := mkMetadata {
  rm_Source : string; rm_Rate : string; rm_ObservedAt : string; rm_FetchedAt : string; rm_ExpiresAt : string;
  rm_Stale : bool; rm_RefreshError : Ptr string
}.
Record QuoteResponse := mkQuoteResponse {
  qp_QuoteID : string; qp_BaseCurrency : string; qp_DisplayCurrency : string; qp_Subtotal : MoneyValue;
  qp_DisplayTotal : MoneyValue; qp_Items : list LineItemQuote; qp_Rate : RateMetadata; qp_ConversionApplied : bool
}.
Record ErrorResponse := mkError { er_ErrorCode : string; er_Message : string }.

Definition invalid_request (text : string) : GoError := Errorf ("%w: " ++ text) [ErrInvalidRequest] [].
Definition mapMoneyError (err : GoError) : GoError :=
  if errors_Is err moneyErrCurrencyMismatch then ErrCurrencyMismatch
  else if existsb (errors_Is err) moneyErrors then Errorf "%w: invalid money input" [ErrInvalidMoney] []
  else err.
Definition mapProviderError (err : GoError) : GoError :=
  if errors_Is err "context.Canceled" || errors_Is err "context.DeadlineExceeded" then err
  else if errors_Is err moneyErrCurrencyMismatch then ErrCurrencyMismatch
  else if errors_Is err "money.ErrExchangeRateStale" then ErrStaleQuote
  else if existsb (errors_Is err) providerErrors then Errorf "%w: %w" [ErrProviderUnavailable; err] []
  else mapMoneyError err.
Definition formatTime (value : Time) : string := if value =? 0 then "" else RFC3339 value.

Section Pricing.
Context `{GU : GoUnicode} `{MT : MoneyTypes} `{ML : !MoneyLib} `{XT : ExchangeTypes} {St : Type} `{XL : !ExchangeLib St}
        `{DL : Deadlines}.

#[local] Abbreviation call := (money_call mapMoneyError).

Record Service := mkService { sv_provider : Ptr Provider; sv_operationTimeout : Z }.
Definition Option : Type := Service → Service.
Definition WithOperationTimeout (timeout : Z) : Option := λ service, mkService (sv_provider service) timeout.
(** Calling a nil option panics: [None]. *)
Definition NewService (provider : Ptr Provider) (options : list (Ptr Option)) : option Service :=
  let service := fold_left (λ s o, match s, o with Some s, Some f => Some (f s) | _, _ => None end) options
                   (Some (mkService provider defaultOperationTimeout)) in
  option_map (λ s, if sv_operationTimeout s <=? 0 then mkService (sv_provider s) defaultOperationTimeout else s) service.

Definition parseCurrency (value : string) : GoM St Currency := call (ParseCurrency value).
Definition currencyByLocale (value : string) : GoM St Currency :=
  or_fail (λ err, Errorf "%w: %w" [ErrInvalidLocale; err] []) (CurrencyByLocale value).
Definition formatAmount : string → Z → option string := format_plain.
Definition moneyValue (value : Money) : GoM St MoneyValue := money_value formatAmount value.
Definition roundedZero (currency : Currency) : GoM St Money := rounded_zero mapMoneyError currency.
Definition sameCurrency (left_ right_ : Currency) : bool := bool_decide (Code left_ = Code right_).
Definition rateMetadata (quote : ExchangeRateQuote) : RateMetadata :=
  mkMetadata (xq_Source quote) (RateText (xq_Rate quote)) (formatTime (xq_ObservedAt quote)) (formatTime (xq_FetchedAt quote))
    (formatTime (xq_ExpiresAt quote)) (xq_Stale quote) (option_map Error (xq_RefreshError quote)).

(** ** Pricing in the base currency *)

Definition priceLine (baseCurrency : Currency) (item : LineItemRequest) : GoM St (LineItemQuote * Money) :=
  let sku := TrimSpace (li_SKU item) in
  if bool_decide (sku = "") then throw (invalid_request "sku is required")
  else if li_Quantity item <=? 0 then throw (invalid_request "quantity must be positive")
  else
    let! itemCurrency := parseCurrency (li_Currency item) in
    if negb (sameCurrency itemCurrency baseCurrency) then throw ErrCurrencyMismatch
    else
      let! unit := call (MoneyNew (li_UnitPrice item) baseCurrency) in
      let! lineTotal := rounded_share mapMoneyError unit (pretty (li_Quantity item)) in
      let! unit := call (Round unit) in
      let! unitPrice := moneyValue unit in
      let! lineAmount := moneyValue lineTotal in
      ret (mkLineQuote sku unitPrice (li_Quantity item) lineAmount, lineTotal).
Definition add_line (baseCurrency : Currency) (item : LineItemRequest) (acc : Money * list LineItemQuote)
    : GoM St (Money * list LineItemQuote) :=
  let! (quote, lineTotal) := priceLine baseCurrency item in
  let! subtotal := call (Add (fst acc) lineTotal) in
  ret (subtotal, snd acc ++ [quote]).
Definition subtotalLines (baseCurrency : Currency) (requests : list LineItemRequest) : GoM St (Money * list LineItemQuote) :=
  let! subtotal := roundedZero baseCurrency in
  let! (subtotal, items) := foldM requests (add_line baseCurrency) (subtotal, []) in
  let! subtotal := call (Round subtotal) in
  ret (subtotal, items).

(** ** The conversion *)

Definition operationContext {A} (s : Service) (m : GoM St A) : GoM St A := λ c st,
  let child := WithTimeout (sv_operationTimeout s) c in
  let '(o, child', st') := m child st in (o, spend (spent child child') c, st').
(** What needs no provider. *)
Definition prepare (request : QuoteRequest) : GoM St (Currency * Currency * (Money * list LineItemQuote)) :=
  if bool_decide (TrimSpace (qr_QuoteID request) = "") then throw (invalid_request "quote_id is required")
  else if bool_decide (len (qr_Items request) = 0) then throw (invalid_request "at least one item is required")
  else
    let! baseCurrency := parseCurrency (qr_BaseCurrency request) in
    let! displayCurrency := currencyByLocale (qr_Locale request) in
    let! subtotal := subtotalLines baseCurrency (qr_Items request) in
    ret (baseCurrency, displayCurrency, subtotal).
(** A nil context is [Background]. *)
Definition Quote (s : Ptr Service) (request : QuoteRequest) : GoM St QuoteResponse :=
  match s with
  | None => throw (invalid_request "service is nil")
  | Some s =>
      match sv_provider s with
      | None => throw ErrProviderUnavailable
      | Some provider =>
          let! (baseCurrency, displayCurrency, (subtotal, items)) := prepare request in
          let! (displayTotal, quote) := λ c st,
            match operationContext s (ConvertWithProvider subtotal displayCurrency provider) c st with
            | (Fail err, c', st') => (Fail (mapProviderError err), c', st')
            | r => r
            end in
          if xq_Stale quote && negb (qr_AllowStaleQuote request) then throw ErrStaleQuote
          else
            let! displayTotal := call (Round displayTotal) in
            let! subtotal := moneyValue subtotal in
            let! displayTotal := moneyValue displayTotal in
            ret (mkQuoteResponse (TrimSpace (qr_QuoteID request)) (Code baseCurrency) (Code displayCurrency) subtotal
                   displayTotal items (rateMetadata quote) (negb (sameCurrency baseCurrency displayCurrency)))
      end
  end.

(** ** HTTP *)

Definition writePricingError (err : GoError) : Z * ErrorResponse :=
  if errors_Is err "exchangepricing.ErrInvalidRequest" then (400, mkError "invalid_request" "invalid quote request")
  else if errors_Is err "exchangepricing.ErrInvalidLocale"
  then (400, mkError "invalid_locale" "locale must include a supported region")
  else if errors_Is err "exchangepricing.ErrInvalidMoney" then (400, mkError "invalid_money" "invalid money input")
  else if errors_Is err "exchangepricing.ErrCurrencyMismatch"
  then (400, mkError "currency_mismatch" "line currency must match base currency")
  else if errors_Is err "exchangepricing.ErrStaleQuote" then (503, mkError "stale_quote" "exchange-rate quote is stale")
  else if errors_Is err "exchangepricing.ErrProviderUnavailable" || errors_Is err "context.DeadlineExceeded" ||
          errors_Is err "context.Canceled"
  then (503, mkError "exchange_rate_unavailable" "exchange-rate provider unavailable")
  else (500, mkError "pricing_error" "pricing failed").
Inductive Body := BodyHealth | BodyQuote (r : QuoteResponse) | BodyError (r : ErrorResponse).
(** The routes; gin binds a JSON body, after [MaxBytesReader], to a request or an error. *)
Inductive HttpRequest := GetHealthz | PostQuotes (bound : GoError + QuoteRequest).
(** A panic is passed on to gin's Recovery. *)
Definition serve (s : Ptr Service) (request : HttpRequest) : GoM St (Z * Body) :=
  match request with
  | GetHealthz => ret (200, BodyHealth)
  | PostQuotes (inl _) => ret (400, BodyError (mkError "invalid_request" "invalid quote request"))
  | PostQuotes (inr request) => λ c st,
      match Quote s request c st with
      | (Val quote, c', st') => (Val (200, BodyQuote quote), c', st')
      | (Fail err, c', st') => let '(status, response) := writePricingError err in (Val (status, BodyError response), c', st')
      | (Panic, c', st') => (Panic, c', st')
      end
  end.
End Pricing.
