(* ===== verification/ExchangeProofs.v ===== *)
(** What a converted quote promises: the provider is asked once, for the exact total of a valid cart, under
    its own deadline; a stale rate is never hidden; a failure shows no detail of the provider. *)
From Stdlib Require Import Ascii String QArith Lqa.
From S2P Require Import Prelude JwtLib MoneyLib MoneyModel ExchangePricing.
Open Scope Z_scope.

Section Pure.
Context `{GU : GoUnicode} `{MT : MoneyTypes} `{ML : !MoneyLib} `{XT : ExchangeTypes} {St : Type} `{XL : !ExchangeLib St}
        `{DL : Deadlines} `{SL : !ScaleLaws}.

Lemma pure_xvalue v : pure_method (St := St) (moneyValue v).
Proof. unfold moneyValue, formatAmount. auto with gom. Qed.
Lemma pure_xzero v : pure_method (St := St) (roundedZero v).
Proof. unfold roundedZero. auto with gom. Qed.
Lemma pure_xcurrency v : pure_method (St := St) (parseCurrency v).
Proof. unfold parseCurrency. auto with gom. Qed.
Lemma pure_xlocale v : pure_method (St := St) (currencyByLocale v).
Proof. unfold currencyByLocale. auto with gom. Qed.
#[local] Hint Resolve pure_xvalue pure_xzero pure_xcurrency pure_xlocale : gom.
#[local] Ltac pure_steps :=
  repeat first [apply pure_ret|apply pure_throw|apply pure_if|apply pure_bind; [solve [auto with gom]|intros ?; try case_match]].
Lemma pure_xline currency item : pure_method (St := St) (priceLine currency item).
Proof. unfold priceLine. pure_steps. Qed.
#[local] Hint Resolve pure_xline : gom.
Lemma pure_add_line currency item acc : pure_method (St := St) (add_line currency item acc).
Proof. unfold add_line. pure_steps. Qed.
#[local] Hint Resolve pure_add_line : gom.
Lemma pure_subtotalLines currency items : pure_method (St := St) (subtotalLines currency items).
Proof. unfold subtotalLines. pure_steps. Qed.
#[local] Hint Resolve pure_subtotalLines : gom.
Lemma pure_prepare_quote request : pure_method (St := St) (prepare request).
Proof. unfold prepare. pure_steps. Qed.

(** What follows the conversion. *)
Definition respond (request : QuoteRequest) (baseCurrency displayCurrency : Currency) (subtotal : Money)
    (items : list LineItemQuote) (displayTotal : Money) (quote : ExchangeRateQuote) : GoM St QuoteResponse :=
  let! displayTotal := money_call mapMoneyError (Round displayTotal) in
  let! subtotal := moneyValue subtotal in
  let! displayTotal := moneyValue displayTotal in
  ret (mkQuoteResponse (TrimSpace (qr_QuoteID request)) (Code baseCurrency) (Code displayCurrency) subtotal
         displayTotal items (rateMetadata quote) (negb (sameCurrency baseCurrency displayCurrency))).
Lemma pure_respond request base display subtotal items total quote :
  pure_method (respond request base display subtotal items total quote).
Proof. unfold respond. pure_steps. Qed.

(** A quote, as its parts. *)
Definition quote_result (s : Service) (request : QuoteRequest) (c : Ctx) (st : St) (o : Outcome QuoteResponse) (c' : Ctx) (st' : St) : Prop :=
  match sv_provider s, (prepare request c st).1.1 with
  | None, _ => o = Fail ErrProviderUnavailable ∧ c' = c ∧ st' = st
  | _, Panic => False
  | _, Fail e => o = Fail e ∧ c' = c ∧ st' = st
  | Some provider, Val (base, display, (subtotal, items)) =>
      ∃ r child', ConvertWithProvider subtotal display provider (WithTimeout (sv_operationTimeout s) c) st = (r, child', st') ∧
        c' = spend (spent (WithTimeout (sv_operationTimeout s) c) child') c ∧
        match r with
        | Val (total, quote) =>
            o = if xq_Stale quote && negb (qr_AllowStaleQuote request) then Fail ErrStaleQuote
                else (respond request base display subtotal items total quote c st).1.1
        | Fail e => o = Fail (mapProviderError e)
        | Panic => o = Panic
        end
  end.
Lemma Quote_parts s request c st o c' st' :
  Quote (Some s) request c st = (o, c', st') → quote_result s request c st o c' st'.
Proof.
  unfold Quote, quote_result. destruct (sv_provider s) as [provider|]; [|by intros [= <- <- <-]].
  destruct (pure_prepare_quote request) as (p & Hp & Hrun). unfold bind at 1. rewrite Hrun. cbn [fst].
  destruct p as [[[base display] [subtotal items]]|e|]; [|by intros [= <- <- <-]|done].
  unfold operationContext. unfold bind at 1.
  destruct (ConvertWithProvider _ _ _ _ _) as [[r child'] st1] eqn:E. destruct r as [[total quote]|e|].
  - destruct (xq_Stale quote && negb (qr_AllowStaleQuote request)) eqn:Es.
    + intros [= <- <- <-]. eexists _, _. split; [done|]. split; [done|]. by rewrite Es.
    + fold (respond request base display subtotal items total quote).
      destruct (pure_respond request base display subtotal items total quote) as (q & _ & Hq). rewrite Hq.
      intros [= <- <- <-]. eexists _, _. split; [done|]. split; [done|]. by rewrite Es, Hq.
  - intros [= <- <- <-]. by eexists _, _.
  - intros [= <- <- <-]. by eexists _, _.
Qed.

(** ** Failures *)

Definition publicErrors : list (Z * ErrorResponse) :=
  [(400, mkError "invalid_request" "invalid quote request"); (400, mkError "invalid_locale" "locale must include a supported region");
   (400, mkError "invalid_money" "invalid money input"); (400, mkError "currency_mismatch" "line currency must match base currency");
   (503, mkError "stale_quote" "exchange-rate quote is stale");
   (503, mkError "exchange_rate_unavailable" "exchange-rate provider unavailable"); (500, mkError "pricing_error" "pricing failed")].
(** The failures of a provider: the call was cancelled, ran out of time, or found no acceptable rate. *)
Definition unavailable (e : GoError) : bool :=
  errors_Is e "context.Canceled" || errors_Is e "context.DeadlineExceeded" ||
  negb (errors_Is e moneyErrCurrencyMismatch) &&
    (errors_Is e "money.ErrExchangeRateStale" || existsb (errors_Is e) providerErrors).
(** A foreign error: it wraps none of this package's. *)
Definition foreign (e : GoError) : bool :=
  negb (existsb (errors_Is e) ["exchangepricing.ErrInvalidRequest"; "exchangepricing.ErrInvalidLocale"; "exchangepricing.ErrInvalidMoney";
    "exchangepricing.ErrCurrencyMismatch"; "exchangepricing.ErrStaleQuote"]).

Lemma writePricingError_public e : writePricingError e ∈ publicErrors.
Proof. unfold writePricingError, publicErrors. rewrite !elem_of_cons. repeat case_match; tauto. Qed.
Lemma provider_failure_status e :
  foreign e = true → unavailable e = true → (writePricingError (mapProviderError e)).1 = 503.
Proof.
  unfold foreign, unavailable, mapProviderError, writePricingError. cbn [existsb].
  intros Hf. destruct (errors_Is e "context.Canceled") eqn:E1, (errors_Is e "context.DeadlineExceeded") eqn:E2; cbn [orb].
  1-3: intros _; rewrite negb_true_iff, !orb_false_iff in Hf; destruct Hf as (-> & -> & -> & -> & -> & _); rewrite ?E1, ?E2;
    by destruct (errors_Is e "exchangepricing.ErrProviderUnavailable").
  destruct (errors_Is e moneyErrCurrencyMismatch); cbn [negb andb]; [done|].
  destruct (errors_Is e "money.ErrExchangeRateStale"); [done|]. cbn [orb]. intros ->.
  rewrite negb_true_iff, !orb_false_iff in Hf. destruct Hf as (F1 & F2 & F3 & F4 & F5 & _).
  cbn. by rewrite F1, F2, F3, F4, F5.
Qed.
End Pure.

(** ** Amounts *)

Section Amounts.
Context `{GU : GoUnicode} `{MT : MoneyTypes} `{ML : !MoneyLib} `{XT : ExchangeTypes} {St : Type} `{XL : !ExchangeLib St}
        `{DL : Deadlines} `{MV : !MoneyValues} `{MLW : !MoneyLaws}.

Definition line_of (currency : Currency) (iq : LineItemRequest * LineItemQuote) (line : Money) : Prop :=
  TrimSpace (li_SKU iq.1) ≠ "" ∧ 0 < li_Quantity iq.1 ∧
  (∃ own, ParseCurrency (li_Currency iq.1) = inr own ∧ Code own = Code currency) ∧
  (∃ unit_ r, MoneyNew (li_UnitPrice iq.1) currency = inr unit_ ∧
     nearest (value unit_ * inject_Z (li_Quantity iq.1)) currency line ∧
     Round unit_ = inr r ∧ shown formatAmount r (lq_UnitPrice iq.2)) ∧
  lq_SKU iq.2 = TrimSpace (li_SKU iq.1) ∧ lq_Quantity iq.2 = li_Quantity iq.1 ∧ shown formatAmount line (lq_LineTotal iq.2).
Record summed (currency : Currency) (items : list LineItemRequest) (acc : Money * list LineItemQuote) : Prop := {
  sm_rounded : rounded (fst acc);
  sm_currency : CurrencyOf (fst acc) = currency;
  sm_lines : ∃ lines, Forall2 (line_of currency) (zip items (snd acc)) lines ∧ length (snd acc) = length items ∧
    (value (fst acc) == sum_of id lines)%Q
}.

Lemma xline_val currency item c (s : St) q line c' s' :
  priceLine currency item c s = (Val (q, line), c', s') → line_of currency (item, q) line.
Proof.
  unfold priceLine. case_bool_decide as Hsku; [done|]. destruct (Z.leb_spec (li_Quantity item) 0) as [|Hq]; [done|].
  intros (cur & c1 & s1 & (Hcur & _ & _)%money_call_val & H)%bind_val. unfold sameCurrency in H.
  case_bool_decide as Hcode; [|done]. cbn [negb] in H.
  apply bind_val in H as (u & c2 & s2 & (Hu & _ & _)%money_call_val & H).
  apply bind_val in H as (l & c3 & s3 & Hl%(rounded_share_val _ _ _ _ _ _ _ _ _ (decimal_pretty _)) & H).
  apply bind_val in H as (r & c4 & s4 & (Hr & _ & _)%money_call_val & H).
  apply bind_val in H as (v1 & c5 & s5 & (Hv1 & _ & _)%money_value_val & H).
  apply bind_val in H as (v2 & c6 & s6 & (Hv2 & _ & _)%money_value_val & H). injection H as <- <- _ _.
  rewrite (new_currency _ _ _ Hu) in Hl. split; [done|]. split; [done|]. split; [by exists cur|]. split; [by exists u, r|]. done.
Qed.
Lemma add_line_val currency items item acc c (s : St) acc' c' s' :
  summed currency items acc → add_line currency item acc c s = (Val acc', c', s') → summed currency (items ++ [item]) acc'.
Proof.
  intros [R1 R2 (lines & L1 & L2 & L3)] ([q l] & c1 & s1 & Hline%xline_val & H)%bind_val.
  apply bind_val in H as (t & c3 & s3 & (Ht & _ & _)%money_call_val & H). injection H as <- _ _.
  pose proof Hline as (_ & _ & _ & (u & r & _ & (Hlc & Hlr & _) & _) & _). destruct (add_law _ _ _ Ht) as (Hval & _ & Hc).
  split; cbn [fst snd]; [exact (add_rounded _ _ _ R1 Hlr Ht)|congruence|].
  exists (lines ++ [l]). rewrite zip_with_app by done. rewrite !length_app, L2.
  split; [apply Forall2_app; [done|]; constructor; [exact Hline|constructor]|]. split; [done|].
  by rewrite Hval, sum_of_app, sum_of_one, L3.
Qed.
Lemma prepare_val request c (s : St) base display subtotal items c' s' :
  prepare request c s = (Val (base, display, (subtotal, items)), c', s') →
  ParseCurrency (qr_BaseCurrency request) = inr base ∧ CurrencyByLocale (qr_Locale request) = inr display ∧
  summed base (qr_Items request) (subtotal, items).
Proof.
  unfold prepare. do 2 (case_match; [done|]).
  intros (b & c1 & s1 & (Hb & _ & _)%money_call_val & H1)%bind_val.
  apply bind_val in H1 as (d & c2 & s2 & (_ & _ & [(? & [= <-] & Hd)|(? & [=] & _)])%or_fail_run & H1).
  apply bind_val in H1 as ([t qs] & c3 & s3 & Hsub & H1). injection H1 as <- <- <- <- _ _. split; [done|]. split; [done|].
  apply bind_val in Hsub as (z & c4 & s4 & (Hz & Hzr & Hzc)%rounded_zero_val & H1).
  apply bind_val in H1 as ([t0 qs0] & c5 & s5 & Hloop & H1).
  apply bind_val in H1 as (t1 & c6 & s6 & (Ht1 & _ & _)%money_call_val & H1). injection H1 as <- <- _ _.
  apply (foldM_val (summed b)) in Hloop; [| |intros; by eapply add_line_val].
  2: { split; [done|done|]. by exists []. }
  destruct Hloop as [R1 R2 (lines & L1 & L2 & L3)]. cbn [fst snd] in *. destruct (round_law _ _ Ht1) as (Hc & Hr & _).
  split; cbn [fst snd]; [done|congruence|]. exists lines. by rewrite (round_fixed _ _ R1 Ht1).
Qed.
End Amounts.

(** ** Properties *)

Section Theorems.
Context `{GU : GoUnicode} `{MT : MoneyTypes} `{ML : !MoneyLib} `{XT : ExchangeTypes} {St : Type} `{XL : !ExchangeLib St}
        `{DL : Deadlines} `{SL : !ScaleLaws}.

(** The provider is asked once, for the subtotal of a valid cart and under a context that ends with
    the service's timeout; a cart that is refused never reaches it. A stale quote is answered with 503
    unless the request allows it, and with the full metadata otherwise. Of a provider's failure the
    response shows only one of seven fixed bodies, with 503 for cancellation, a passed deadline, a missing
    and a stale rate. *)
Theorem provider_asked_once s request c (st : St) provider :
  sv_provider s = Some provider →
  let '(o, c', st') := serve (Some s) (PostQuotes (inr request)) c st in
  let failed e := o = Val ((writePricingError e).1, BodyError (writePricingError e).2) in
  match (prepare request c st).1.1 with
  | Panic => False
  | Fail e => failed e ∧ c' = c ∧ st' = st
  | Val (base, display, (subtotal, items)) =>
      let '(r, child', st1) :=
        ConvertWithProvider subtotal display provider (WithTimeout (sv_operationTimeout s) c) st in
      st' = st1 ∧
      match r with
      | Val (total, quote) =>
          if xq_Stale quote && negb (qr_AllowStaleQuote request)
          then o = Val (503, BodyError (mkError "stale_quote" "exchange-rate quote is stale"))
          else (∃ q, o = Val (200, BodyQuote q) ∧ qp_Rate q = rateMetadata quote) ∨
               ∃ e, Round total = inl e ∧ failed (mapMoneyError e)
      | Fail e =>
          ∃ status body, o = Val (status, BodyError body) ∧ (status, body) ∈ publicErrors ∧
            (foreign e = true → unavailable e = true → status = 503)
      | Panic => o = Panic
      end
  end.
Proof.
  intros Hp. destruct (serve _ _ _ _) as [[o c'] st'] eqn:E. cbn [serve] in E.
  destruct (Quote (Some s) request c st) as [[o1 c1] st1] eqn:Eq. apply Quote_parts in Eq. unfold quote_result in Eq. rewrite Hp in Eq.
  assert (∀ e, (let '(status, response) := writePricingError e in (Val (status, BodyError response), c1, st1)) =
    (Val ((writePricingError e).1, BodyError (writePricingError e).2), c1, st1)) as Hw by (intros e; by destruct (writePricingError e)).
  destruct ((prepare request c st).1.1) as [[[base display] [subtotal items]]|e|]; [| |done].
  - destruct Eq as (r & child' & Hconv & -> & Ho). rewrite Hconv. destruct r as [[total quote]|e|].
    + destruct (xq_Stale quote && negb (qr_AllowStaleQuote request)) eqn:Es; subst o1.
      { by injection E as <- <- <-. }
      destruct (respond request base display subtotal items total quote c st) as [[p c2] st2] eqn:Er. cbn [fst] in E.
      destruct p as [q|e|].
      * injection E as <- <- <-. split; [done|]. left. exists q. split; [done|].
        apply bind_val in Er as (t & c3 & s3 & _ & H). apply bind_val in H as (v1 & c4 & s4 & _ & H).
        apply bind_val in H as (v2 & c5 & s5 & _ & H). by injection H as <- _ _.
      * rewrite Hw in E. injection E as <- <- <-. split; [done|]. right. unfold respond in Er.
        destruct (Round total) as [e'|t] eqn:Ert; [exists e'; by injection Er as <- _ _|]. exfalso. clear -Er SL.
        assert (∀ v, pure_method (St := St) (moneyValue v)) as Hval by apply pure_xvalue.
        unfold bind, money_call, or_fail in Er. cbn [ret] in Er. unfold moneyValue, formatAmount, money_value, bind, or_panic in Er.
        cbn in Er. destruct (format_plain_total (Amount subtotal) _ (scale_range (CurrencyOf subtotal))) as [t1 E1].
        destruct (format_plain_total (Amount t) _ (scale_range (CurrencyOf t))) as [t2 E2]. by rewrite E1, E2 in Er.
      * exfalso. destruct (pure_respond request base display subtotal items total quote) as (p & Hne & Hrun).
        rewrite Hrun in Er. by injection Er as ->.
    + subst o1. rewrite Hw in E. injection E as <- <- <-. split; [done|]. eexists _, _. split; [done|]. split.
      * rewrite <- surjective_pairing. apply writePricingError_public.
      * apply provider_failure_status.
    + subst o1. by injection E as <- <- <-.
  - destruct Eq as (-> & -> & ->). rewrite Hw in E. by injection E as <- <- <-.
Qed.

Context `{MV : !MoneyValues} `{MLW : !MoneyLaws}.

(** A converted quote adds up: every item is of the base currency and its line the unit price times
    the quantity, rounded to a nearest minor unit; the subtotal is their exact sum in the base currency,
    and the display total is what the provider's conversion of that subtotal to the locale's currency
    comes to, rounded. The rate is shown as the provider gave it, a stale one only on request, and the
    response says whether anything was converted. *)
Theorem converted_quote_adds_up s request c (st : St) r c' st' :
  Quote (Some s) request c st = (Val r, c', st') →
  ∃ provider base display lines subtotal converted quote total child',
    sv_provider s = Some provider ∧ ParseCurrency (qr_BaseCurrency request) = inr base ∧
    CurrencyByLocale (qr_Locale request) = inr display ∧
    Forall2 (line_of base) (zip (qr_Items request) (qp_Items r)) lines ∧ length (qp_Items r) = length (qr_Items request) ∧
    CurrencyOf subtotal = base ∧ (value subtotal == sum_of id lines)%Q ∧
    ConvertWithProvider subtotal display provider (WithTimeout (sv_operationTimeout s) c) st =
      (Val (converted, quote), child', st') ∧
    nearest (value converted) (CurrencyOf converted) total ∧
    shown formatAmount subtotal (qp_Subtotal r) ∧ shown formatAmount total (qp_DisplayTotal r) ∧
    qp_Rate r = rateMetadata quote ∧ (xq_Stale quote = true → qr_AllowStaleQuote request = true) ∧
    (qp_ConversionApplied r = true ↔ Code base ≠ Code display).
Proof.
  intros H%Quote_parts. unfold quote_result in H. destruct (sv_provider s) as [provider|]; [|by destruct H].
  destruct (prepare request c st) as [[[[[base display] [subtotal items]]|e|] c1] s1] eqn:Ep; cbn [fst] in H; [|by destruct H|done].
  apply prepare_val in Ep as (Hb & Hd & [R1 R2 (lines & L1 & L2 & L3)]). cbn [fst snd] in *.
  destruct H as (p & child' & Hconv & _ & Ho). destruct p as [[converted quote]|e|]; [|done..].
  destruct (xq_Stale quote && negb (qr_AllowStaleQuote request)) eqn:Es; [done|].
  destruct (respond request base display subtotal items converted quote c st) as [[p c2] st2] eqn:Er. cbn [fst] in Ho. subst p.
  apply bind_val in Er as (t & c3 & s3 & (Ht & _ & _)%money_call_val & H).
  apply bind_val in H as (v1 & c4 & s4 & (Hv1 & _ & _)%money_value_val & H).
  apply bind_val in H as (v2 & c5 & s5 & (Hv2 & _ & _)%money_value_val & H). injection H as <- _ _.
  exists provider, base, display, lines, subtotal, converted, quote, t, child'.
  cbn [qp_Items qp_Subtotal qp_DisplayTotal qp_Rate qp_ConversionApplied].
  do 8 (split; [done|]). split; [by apply round_law|]. do 3 (split; [done|]). split.
  - intros Hstale. rewrite Hstale in Es. by destruct (qr_AllowStaleQuote request).
  - unfold sameCurrency. by rewrite negb_true_iff, bool_decide_eq_false.
Qed.
End Theorems.

(** The text of a refresh error is shown whether or not the quote is stale. *)
Lemma refresh_error_shown `{GoUnicode} `{MT : MoneyTypes} `{ML : !MoneyLib} `{XT : ExchangeTypes} {St : Type} `{XL : !ExchangeLib St}
    (quote : ExchangeRateQuote) e :
  xq_RefreshError quote = Some e → rm_RefreshError (rateMetadata (St := St) quote) = Some (Error e).
Proof. unfold rateMetadata. cbn. by intros ->. Qed.

(** ** Witnesses *)

Section Demo.
#[local] Existing Instances decimal_types decimal_money decimal_scale decimal_value decimal_laws plain_unicode.

(** A provider that counts its calls and answers with an old rate of 0.9. *)
#[local] Instance demo_exchange_types : ExchangeTypes := {| Provider := unit; Rate := string |}.
Definition old_rate : ExchangeRateQuote :=
  mkRateQuote _ "ECB" "0.9" (63903013445 * Second) (63903013445 * Second) 0 true (Some (plain_error "upstream timed out")).
#[local] Instance demo_exchange : ExchangeLib nat := {|
  CurrencyByLocale l := if bool_decide (l = "de-DE") then inr "EUR" else inl currency_error;
  RateText := id;
  ConvertWithProvider (m : Decimal) target _ :=
    do! ctxErr; do! modify S;
    ret (mkDecimal (dc_mantissa m * 9) (S (dc_digits m)) target, old_rate)
|}.
#[local] Instance three_polls : Deadlines := λ _, Some 3%nat.

Definition demo : Service := mkService (Some tt) defaultOperationTimeout.
Definition cart (allow : bool) : QuoteRequest := mkQuoteRequest "quote-1" "USD" "de-DE" allow [mkItem "pen" "10.55" "USD" 3].

Lemma provider_asked_once_witness :
  ∃ base display subtotal items, prepare (cart false) Background 0%nat = (Val (base, display, (subtotal, items)), Background, 0%nat) ∧
    serve (Some demo) (PostQuotes (inr (cart false))) Background 0%nat =
      (Val (503, BodyError (mkError "stale_quote" "exchange-rate quote is stale")), Background, 1%nat).
Proof.
  pose proof (provider_asked_once demo (cart false) Background 0%nat tt eq_refl) as H.
  destruct (prepare (cart false) Background 0%nat) as [[[[[base display] [subtotal items]]|e|] c] s] eqn:E.
  - exists base, display, subtotal, items. vm_compute in E. injection E as <- <- <- <- <- <-. split; [by vm_compute|].
    destruct (serve (Some demo) (PostQuotes (inr (cart false))) Background 0%nat) as [[o c'] s'] eqn:Es.
    apply (f_equal (λ r, r.1.2)) in Es. vm_compute in Es. subst c'. vm_compute in H. by destruct H as [-> ->].
  - exfalso. vm_compute in E. discriminate E.
  - exfalso. vm_compute in E. discriminate E.
Defined.

Lemma converted_quote_adds_up_witness :
  ∃ r, Quote (Some demo) (cart true) Background 0%nat = (Val r, Background, 1%nat) ∧
    qp_Subtotal r = mkMoneyValue "31.65" "USD" ∧ qp_DisplayTotal r = mkMoneyValue "28.49" "EUR" ∧
    qp_Rate r = mkMetadata "ECB" "0.9" "2026-01-03T05:04:05Z" "2026-01-03T05:04:05Z" "" true (Some "upstream timed out") ∧
    ∃ lines, Forall2 (line_of "USD") (zip (qr_Items (cart true)) (qp_Items r)) lines.
Proof.
  destruct (Quote (Some demo) (cart true) Background 0%nat) as [[o c'] s'] eqn:E.
  assert (match o with Val _ => true | _ => false end = true) as Ho.
  { change o with (o, c', s').1.1. rewrite <- E. by vm_compute. }
  destruct o as [r| |]; [|discriminate Ho..].
  destruct (converted_quote_adds_up demo (cart true) Background 0%nat r c' s' E) as (p & base & d & lines & sub & conv & q & tot & ch & _ & Hb & _ & Hl & _).
  exists r. pose proof (f_equal (λ r, (r.1.2, r.2)) E) as E0. vm_compute in E0. injection E0 as <- <-.
  apply (f_equal (λ r, match r.1.1 with Val v => (qp_Subtotal v, qp_DisplayTotal v, qp_Rate v) | _ => (mkMoneyValue "" "", mkMoneyValue "" "",
    mkMetadata "" "" "" "" "" false None) end)) in E.
  vm_compute in E. injection E as E1 E2 E3. split; [reflexivity|]. split; [symmetry; exact E1|]. split; [symmetry; exact E2|].
  split; [symmetry; exact E3|]. exists lines. assert (base = "USD") as -> by (symmetry; vm_compute in Hb; by injection Hb). exact Hl.
Defined.
End Demo.
