(* ===== verification/StateMachine.v ===== *)
(** The interface of bluetape-go's state package: machines over a table of transitions with guards and
    final states, the laws of their documentation, and a lawful implementation. *)
From Stdlib Require Import Ascii String.
From S2P Require Import Prelude.

(** A guard refuses with an error. The guards of the examples do not look at their context. *)
Definition Guard : Type := string → string → option GoError.
Record TransitionSpec := mkTransition { tr_From : string; tr_Event : string; tr_To : string; tr_Guard : Ptr Guard }.
Record TransitionResult := mkResult { tn_Previous : string; tn_Event : string; tn_Current : string }.
Class StateTypes := Machine : Type.
Class StateLib `{StateTypes} := {
  NewMachine : string → list TransitionSpec → list string → GoError + Machine;
  Transition : string → GoM Machine TransitionResult;
  CanTransition : string → GoM Machine bool;
  State : Machine → string;
  AllowedEvents : Machine → list string
}.
Definition ErrInvalidTransition : GoError := Sentinel "state.ErrInvalidTransition" "state: invalid transition".
Definition ErrGuardRejected : GoError := Sentinel "state.ErrGuardRejected" "state: guard rejected".
Definition ErrFinalState : GoError := Sentinel "state.ErrFinalState" "state: final state".

(** ** Laws *)

Definition admits (t : TransitionSpec) : Prop :=
  match tr_Guard t with Some guard => guard (tr_From t) (tr_Event t) = None | None => True end.
#[export] Instance admits_dec t : Decision (admits t).
Proof. unfold admits. destruct (tr_Guard t); apply _. Defined.
(** The moves of a table. *)
Definition moves_to (table : list TransitionSpec) (finals : list string) (s e s' : string) : Prop :=
  (s ∉ finals) ∧ ∃ t, t ∈ table ∧ tr_From t = s ∧ tr_Event t = e ∧ tr_To t = s' ∧ admits t.

(** A machine stays the machine of its table. Only a transition changes its state, by a move of the table,
    and every move is made on request unless the context ends; a refusal changes nothing. The allowed events
    are those the table has for the state, whatever the guards say. *)
Class StateLaws `{StateLib} := {
  machine_of : Machine → list TransitionSpec → list string → Prop;
  new_machine i t f m : NewMachine i t f = inr m → machine_of m t f ∧ State m = i;
  transition_step m t f e c : machine_of m t f →
    let '(o, _, m') := Transition e c m in
    machine_of m' t f ∧
    match o with
    | Val r => moves_to t f (State m) e (State m') ∧ r = mkResult (State m) e (State m')
    | Fail _ => State m' = State m
    | Panic => False
    end;
  transition_made m t f e s' c : machine_of m t f → ctx_polls c = None → moves_to t f (State m) e s' →
    ∃ r c' m', Transition e c m = (Val r, c', m') ∧ State m' = s';
  can_transition m t f e c : machine_of m t f →
    let '(o, _, m') := CanTransition e c m in
    machine_of m' t f ∧ State m' = State m ∧ o ≠ Panic ∧ ∀ b, o = Val b → (b = true ↔ ∃ s', moves_to t f (State m) e s');
  allowed_events m t f e : machine_of m t f →
    e ∈ AllowedEvents m ↔ ∃ x, x ∈ t ∧ tr_From x = State m ∧ tr_Event x = e
}.

(** A run of moves. *)
Inductive path (table : list TransitionSpec) (finals : list string) : string → list TransitionResult → string → Prop :=
  | path_nil s : path table finals s [] s
  | path_snoc s rs s' e s'' :
      path table finals s rs s' → moves_to table finals s' e s'' →
      path table finals s (rs ++ [mkResult s' e s'']) s''.
(** A state that can become another. *)
Definition leads_to (table : list TransitionSpec) (finals : list string) (s s' : string) : Prop := ∃ rs, path table finals s rs s'.

Lemma path_app table finals s rs s' rs' s'' :
  path table finals s rs s' → path table finals s' rs' s'' → path table finals s (rs ++ rs') s''.
Proof.
  intros H1. induction 1 as [|s1 rs1 s2 e s3 H2 IH H3]; [by rewrite app_nil_r|]. rewrite app_assoc. constructor; [by apply IH|done].
Qed.
#[export] Instance leads_to_refl table finals : Reflexive (leads_to table finals).
Proof. intros s. exists []. constructor. Qed.
#[export] Instance leads_to_trans table finals : Transitive (leads_to table finals).
Proof. intros s1 s2 s3 [rs H1] [rs' H2]. eexists. by eapply path_app. Qed.
Lemma leads_to_move table finals s e s' : moves_to table finals s e s' → leads_to table finals s s'.
Proof. intros H. exists ([] ++ [mkResult s e s']). constructor; [constructor|done]. Qed.
(** From a final state there is nowhere to go. *)
Lemma path_final table finals s rs s' : path table finals s rs s' → s ∈ finals → rs = [] ∧ s' = s.
Proof.
  induction 1 as [|s1 rs1 s2 e s3 H2 IH [H3 _]]; [done|]. intros Hs. destruct (IH Hs) as [-> ->]. done.
Qed.

(** Every move of a decided table, as a list. *)
Definition table_moves (table : list TransitionSpec) (finals : list string) : list TransitionResult :=
  map (λ t, mkResult (tr_From t) (tr_Event t) (tr_To t)) (filter (λ t, (tr_From t ∉ finals) ∧ admits t) table).
Lemma table_moves_spec table finals s e s' :
  moves_to table finals s e s' ↔ mkResult s e s' ∈ table_moves table finals.
Proof.
  unfold table_moves. rewrite list_elem_of_fmap. split.
  - intros [Hs (t & Ht & <- & <- & <- & Ha)]. exists t. split; [done|]. by apply list_elem_of_filter.
  - intros (t & [= -> -> ->] & [[Hs Ha] Ht]%list_elem_of_filter). split; [done|]. by exists t.
Qed.

(** ** An implementation *)

Record TableMachine := mkMachine { tm_state : string; tm_table : list TransitionSpec; tm_finals : list string }.
Definition transition_key (t : TransitionSpec) : string * string := (tr_From t, tr_Event t).
Definition find_transition (table : list TransitionSpec) (s e : string) : option TransitionSpec :=
  List.find (λ t, bool_decide (transition_key t = (s, e))) table.
(** The move of a state on an event, or why there is none. *)
Definition table_move (m : TableMachine) (e : string) : GoError + string :=
  if bool_decide (tm_state m ∈ tm_finals m) then inl ErrFinalState
  else match find_transition (tm_table m) (tm_state m) e with
       | None => inl ErrInvalidTransition
       | Some t =>
           match option_map (λ g, g (tm_state m) e) (tr_Guard t) with
           | Some (Some err) => inl (Errorf "%w: %w" [ErrGuardRejected; err] [])
           | _ => inr (tr_To t)
           end
       end.
#[export] Instance table_types : StateTypes := TableMachine.
#[export] Instance table_machine : StateLib := {|
  NewMachine i t f :=
    if decide (NoDup (map transition_key t)) then inr (mkMachine i t f) else inl ErrInvalidTransition;
  Transition e :=
    do! ctxErr;
    let! m := get in
    match table_move m e with
    | inl err => throw err
    | inr s' => do! put (mkMachine s' (tm_table m) (tm_finals m)); ret (mkResult (tm_state m) e s')
    end;
  CanTransition e :=
    do! ctxErr; let! m := get in ret (match table_move m e with inr _ => true | inl _ => false end);
  State := tm_state;
  AllowedEvents m := map tr_Event (filter (λ t, tr_From t = tm_state m) (tm_table m))
|}.

Lemma find_key table s e t :
  NoDup (map transition_key table) → find_transition table s e = Some t ↔ t ∈ table ∧ transition_key t = (s, e).
Proof.
  unfold find_transition. induction table as [|x table IH]; cbn [map List.find].
  { intros _. split; [done|]. by intros [?%elem_of_nil _]. }
  intros [Hx Hnd]%NoDup_cons. case_bool_decide as E.
  - split; [intros [= <-]; split; [left|done]|]. intros [[->|Ht]%elem_of_cons Hk]; [done|]. exfalso. apply Hx.
    rewrite E, <- Hk. by apply list_elem_of_fmap_2.
  - rewrite IH by done. rewrite elem_of_cons. split; [tauto|]. intros [[->|?] ?]; [by destruct E|done].
Qed.
Lemma table_move_spec m e s' :
  NoDup (map transition_key (tm_table m)) →
  table_move m e = inr s' ↔ moves_to (tm_table m) (tm_finals m) (tm_state m) e s'.
Proof.
  intros Hnd. unfold table_move, moves_to. case_bool_decide as Hf; [by split; [|intros [? _]]|].
  split.
  - destruct (find_transition _ _ _) as [t|] eqn:E; [|done]. apply find_key in E as [Ht [= E1 E2]]; [|done].
    destruct (tr_Guard t) as [g|] eqn:Eg; cbn [option_map]; [destruct (g _ _) eqn:Egr; [done|]|]; intros [= <-];
      (split; [done|]); exists t; repeat (split; [done|]); unfold admits; rewrite Eg; [by rewrite E1, E2|done].
  - intros [_ (t & Ht & E1 & E2 & <- & Ha)]. assert (find_transition (tm_table m) (tm_state m) e = Some t) as ->.
    { apply find_key; [done|]. unfold transition_key. by rewrite E1, E2. }
    unfold admits in Ha. rewrite E1, E2 in Ha. destruct (tr_Guard t) as [g|]; cbn [option_map]; [by rewrite Ha|done].
Qed.
#[export] Instance table_laws : StateLaws.
Proof.
  refine {| machine_of m t f := NoDup (map transition_key t) ∧ tm_table m = t ∧ tm_finals m = f |}; cbn.
  - intros i t f m. destruct (decide _); [|done]. by intros [= <-].
  - intros m t f e c (Hnd & <- & <-). unfold bind, ctxErr, get, put, ret, throw. destruct (ctx_poll c) as [[err|] c']; [done|].
    destruct (table_move m e) as [err|s'] eqn:E; [done|]. cbn. split; [done|]. split; [by apply table_move_spec|done].
  - intros m t f e s' c (Hnd & <- & <-) Hc Hm. apply table_move_spec in Hm; [|done].
    unfold bind, ctxErr, get, put, ret, ctx_poll. rewrite Hc, Hm. by eexists _, _, _.
  - intros m t f e c (Hnd & <- & <-). unfold bind, ctxErr, get, ret. destruct (ctx_poll c) as [[err|] c']; [done|].
    do 3 (split; [done|]). intros b [= <-]. destruct (table_move m e) as [err|s'] eqn:E.
    + split; [done|]. intros [s' Hs]. apply table_move_spec in Hs; [congruence|done].
    + split; [|done]. intros _. exists s'. by apply table_move_spec.
  - intros m t f e (_ & <- & <-). rewrite list_elem_of_fmap. split.
    + intros (x & -> & [Hx Ht]%list_elem_of_filter). by exists x.
    + intros (x & Ht & Hx & <-). exists x. split; [done|]. by apply list_elem_of_filter.
Defined.
