(* ===== verification/PaymentAuth.v ===== *)
(** examples/payment-authorization-state/internal/paymentauth: one payment, whose state machine is moved by
    requests that carry an idempotency key. The state package is a parameter. *)
From Stdlib Require Import Ascii String.
From S2P Require Import Prelude StateMachine.

Abbreviation PaymentState := string (only parsing).
Definition StateRequested : PaymentState := "requested".
Definition StateAuthorized : PaymentState := "authorized".
Definition StateCaptured : PaymentState := "captured".
Definition StateFailed : PaymentState := "failed".
Definition StateCancelled : PaymentState := "cancelled".
Abbreviation PaymentEvent := string (only parsing).
Definition EventAuthorize : PaymentEvent := "authorize".
Definition EventCapture : PaymentEvent := "capture".
Definition EventFail : PaymentEvent := "fail".
Definition EventCancel : PaymentEvent := "cancel".

Definition ErrNonPositiveAmount : GoError :=
  Sentinel "paymentauth.ErrNonPositiveAmount" "payment amount must be positive before authorization".
Definition errUnknownEvent : GoError := Sentinel "paymentauth.errUnknownEvent" "unknown payment event".
Definition errMissingEvent : GoError := Sentinel "paymentauth.errMissingEvent" "event is required".
Definition errMissingIdempotency : GoError := Sentinel "paymentauth.errMissingIdempotency" "idempotency_key is required".
Definition errIdempotencyKeyReuse : GoError :=
  Sentinel "paymentauth.errIdempotencyKeyReuse" "idempotency key was already used for another event".
Definition errInvalidPaymentAmount : GoError :=
  Sentinel "paymentauth.errInvalidPaymentAmount" "payment amount must not be negative".

(** ** Data *)

Record Options := mkOptions { op_PaymentID : string; op_AmountCents : Z }.
Record PaymentSnapshot := mkSnapshot {
  sn_PaymentID : string; sn_State : PaymentState; sn_AllowedEvents : list PaymentEvent; sn_AmountCents : Z
}.
Record transitionRequest := mkTransitionRequest { tq_Event : string; tq_IdempotencyKey : string }.
Record transitionResponse := mkTransitionResponse {
  tp_Payment : PaymentSnapshot; tp_Previous : PaymentState; tp_Event : PaymentEvent; tp_Current : PaymentState;
  tp_IdempotentReplay : bool
}.
Record canTransitionResponse := mkCanResponse {
  cp_Event : PaymentEvent; cp_Allowed : bool; cp_State : PaymentState; cp_Error : string; cp_Payment : PaymentSnapshot
}.
Record errorResponse := mkErrorResponse { ep_Code : string; ep_Error : string }.
Record idempotencyEntry := mkEntry { en_event : PaymentEvent; en_response : transitionResponse }.

(** ** The machine *)

Definition positiveAmountGuard (amountCents : Z) : Guard := λ _ _,
  if amountCents <=? 0 then Some ErrNonPositiveAmount else None.
Definition transitions (amountCents : Z) : list TransitionSpec :=
  [mkTransition StateRequested EventAuthorize StateAuthorized (Some (positiveAmountGuard amountCents));
   mkTransition StateAuthorized EventCapture StateCaptured None;
   mkTransition StateRequested EventFail StateFailed None;
   mkTransition StateAuthorized EventFail StateFailed None;
   mkTransition StateRequested EventCancel StateCancelled None;
   mkTransition StateAuthorized EventCancel StateCancelled None].
Definition finalStates : list PaymentState := [StateCaptured; StateFailed; StateCancelled].

Section Server.
Context `{GU : GoUnicode} `{ST : StateTypes} `{SL : !StateLib}.

Definition newMachine (amountCents : Z) : GoError + Machine := NewMachine StateRequested (transitions amountCents) finalStates.

(** The router is left out: its routes are [HttpRequest]. *)
Record Server := mkServer {
  sv_paymentID : string; sv_amountCents : Z; sv_machine : Machine; sv_idempotency : gmap string idempotencyEntry
}.
Definition NewServer (options : Options) : GoError + Server :=
  let paymentID := TrimSpace (op_PaymentID options) in
  let paymentID := if bool_decide (paymentID = "") then "pay-1001" else paymentID in
  if op_AmountCents options <? 0 then inl errInvalidPaymentAmount
  else
    try! machine := wrapping (λ e, Errorf "create payment state machine: %w" [e] []) (newMachine (op_AmountCents options)) in
    inr (mkServer paymentID (op_AmountCents options) machine ∅).

Definition with_machine (m : Machine) (s : Server) : Server := mkServer (sv_paymentID s) (sv_amountCents s) m (sv_idempotency s).
Definition on_machine {A} (m : GoM Machine A) : GoM Server A := on_part sv_machine with_machine m.
Definition snapshotLocked (s : Server) : PaymentSnapshot :=
  mkSnapshot (sv_paymentID s) (State (sv_machine s)) (AllowedEvents (sv_machine s)) (sv_amountCents s).

(** ** Idempotency *)

(** The response, whether there is one, and an error. *)
Definition replay (entries : gmap string idempotencyEntry) (key : string) (event : PaymentEvent)
    : GoError + option transitionResponse :=
  match entries !! key with
  | None => inr None
  | Some entry =>
      if bool_decide (en_event entry ≠ event)
      then inl (Errorf "%w: key=%q previous_event=%q event=%q" [errIdempotencyKeyReuse] [FStr key; FStr (en_event entry); FStr event])
      else
        let r := en_response entry in
        inr (Some (mkTransitionResponse (tp_Payment r) (tp_Previous r) (tp_Event r) (tp_Current r) true))
  end.
Definition store (key : string) (event : PaymentEvent) (response : transitionResponse) (s : Server) : Server :=
  mkServer (sv_paymentID s) (sv_amountCents s) (sv_machine s) (<[key := mkEntry event response]> (sv_idempotency s)).

(** Under the lock from the first line to the last. *)
Definition transitionWithIdempotency (event : PaymentEvent) (key : string) : GoM Server transitionResponse :=
  let! s := get in
  let! replayed := or_fail id (replay (sv_idempotency s) key event) in
  match replayed with
  | Some response => ret response
  | None =>
      let! result := on_machine (Transition event) in
      let! s := get in
      let response :=
        mkTransitionResponse (snapshotLocked s) (tn_Previous result) (tn_Event result) (tn_Current result) false in
      do! modify (store key event response);
      ret response
  end.

(** ** Requests *)

Definition parseEvent (raw : string) : GoError + PaymentEvent :=
  let event := ToLower (TrimSpace raw) in
  if bool_decide (event ∈ [EventAuthorize; EventCapture; EventFail; EventCancel]) then inr event
  else inl (Errorf "%w: %q" [errUnknownEvent] [FStr raw]).
Definition parseTransitionRequest (request : transitionRequest) : GoError + (PaymentEvent * string) :=
  let key := TrimSpace (tq_IdempotencyKey request) in
  if bool_decide (key = "") then inl errMissingIdempotency
  else match parseEvent (tq_Event request) with
       | inl err => if bool_decide (TrimSpace (tq_Event request) = "") then inl errMissingEvent else inl err
       | inr event => inr (event, key)
       end.

Inductive Body :=
  | BodyHealth | BodySnapshot (s : PaymentSnapshot) | BodyTransition (r : transitionResponse)
  | BodyCan (r : canTransitionResponse) | BodyError (r : errorResponse).
Definition writeError (status : Z) (code : string) (err : GoError) : Z * Body := (status, BodyError (mkErrorResponse code (Error err))).
Definition writeTransitionError (err : GoError) : Z * Body :=
  if errors_Is err "context.Canceled" || errors_Is err "context.DeadlineExceeded" then writeError 408 "request_timeout" err
  else if errors_Is err "paymentauth.errIdempotencyKeyReuse" then writeError 409 "idempotency_conflict" err
  else if errors_Is err "state.ErrInvalidTransition" then writeError 409 "invalid_transition" err
  else if errors_Is err "state.ErrGuardRejected" then writeError 409 "guard_rejected" err
  else if errors_Is err "state.ErrFinalState" then writeError 409 "final_state" err
  else if errors_Is err "state.ErrConcurrentTransition" then writeError 409 "concurrent_transition" err
  else writeError 500 "transition_failed" err.
(** What a handler makes of an error. *)
Definition answer {A} (on_error : GoError → Z * Body) (m : GoM Server A) (k : A → GoM Server (Z * Body)) : GoM Server (Z * Body) :=
  settle m (λ e, ret (on_error e)) k.

(** gin binds a JSON body with its required fields to a request or an error. *)
Definition transition (bound : GoError + transitionRequest) : GoM Server (Z * Body) :=
  match bound with
  | inl err => ret (writeError 400 "invalid_request" err)
  | inr request =>
      match parseTransitionRequest request with
      | inl err => ret (writeError 400 "invalid_request" err)
      | inr (event, key) =>
          answer writeTransitionError (transitionWithIdempotency event key) (λ response, ret (200, BodyTransition response))
      end
  end.
(** The machine is asked under its own lock, and the snapshot taken under the server's: [others] is what
    other requests do in between. *)
Definition canTransition (others : Server → Server) (param : string) : GoM Server (Z * Body) :=
  match parseEvent param with
  | inl err => ret (writeError 400 "unknown_event" err)
  | inr event =>
      answer writeTransitionError (on_machine (CanTransition event)) (λ allowed,
        do! modify others;
        let! s := get in
        let snapshot := snapshotLocked s in
        ret (200, BodyCan (mkCanResponse event allowed (sn_State snapshot)
          (if allowed then "" else "event is not available from the current state") snapshot)))
  end.
Definition current : GoM Server (Z * Body) := let! s := get in ret (200, BodySnapshot (snapshotLocked s)).

Inductive HttpRequest :=
  | GetHealthz | GetCurrent | PostTransition (bound : GoError + transitionRequest) | GetCan (others : Server → Server) (event : string).
Definition serve (request : HttpRequest) : GoM Server (Z * Body) :=
  match request with
  | GetHealthz => ret (200, BodyHealth)
  | GetCurrent => current
  | PostTransition bound => transition bound
  | GetCan others event => canTransition others event
  end.
End Server.
