(* ===== verification/PaymentProofs.v ===== *)
(** What the payment server promises over any sequence of requests: the payment follows its lifecycle, a
    key moves it at most once, and a replay is the response of the transition it repeats. *)
From Stdlib Require Import Ascii String.
From S2P Require Import Prelude StateMachine PaymentAuth.

(** ** The lifecycle *)

Inductive lifecycle (amountCents : Z) : TransitionResult → Prop :=
  | can_authorize : 0 < amountCents → lifecycle amountCents (mkResult StateRequested EventAuthorize StateAuthorized)
  | can_capture : lifecycle amountCents (mkResult StateAuthorized EventCapture StateCaptured)
  | can_fail s : s ∈ [StateRequested; StateAuthorized] → lifecycle amountCents (mkResult s EventFail StateFailed)
  | can_cancel s : s ∈ [StateRequested; StateAuthorized] → lifecycle amountCents (mkResult s EventCancel StateCancelled).

Lemma payment_moves amountCents s e s' :
  moves_to (transitions amountCents) finalStates s e s' ↔ lifecycle amountCents (mkResult s e s').
Proof.
  split.
  - intros [_ (t & Ht & <- & <- & <- & Ha)]. unfold transitions in Ht. rewrite !elem_of_cons, elem_of_nil in Ht.
    destruct_or! Ht; try done; subst t; cbn; try (constructor; set_solver).
    constructor. unfold admits, positiveAmountGuard in Ha. cbn in Ha. destruct (Z.leb_spec amountCents 0); [done|lia].
  - intros H.
    assert (∀ t, t ∈ transitions amountCents → (tr_From t ∉ finalStates) → admits t →
      moves_to (transitions amountCents) finalStates (tr_From t) (tr_Event t) (tr_To t)) as Hm.
    { intros t Ht Hf Ha. split; [done|]. by exists t. }
    assert (∀ n t, transitions amountCents !! n = Some t → bool_decide (tr_From t ∈ finalStates) = false → admits t →
      moves_to (transitions amountCents) finalStates (tr_From t) (tr_Event t) (tr_To t)) as Hn.
    { intros n t Hl Hf%bool_decide_eq_false_1 Ha. apply Hm; [by eapply list_elem_of_lookup_2|done..]. }
    inversion H as [Hpos| |x Hx|x Hx]; subst.
    + apply (Hn 0%nat _ eq_refl eq_refl). unfold admits, positiveAmountGuard. cbn. by destruct (Z.leb_spec amountCents 0); [lia|].
    + exact (Hn 1%nat _ eq_refl eq_refl I).
    + rewrite !elem_of_cons, elem_of_nil in Hx. destruct Hx as [-> | [-> | []]]; [exact (Hn 2%nat _ eq_refl eq_refl I)|exact (Hn 3%nat _ eq_refl eq_refl I)].
    + rewrite !elem_of_cons, elem_of_nil in Hx. destruct Hx as [-> | [-> | []]]; [exact (Hn 4%nat _ eq_refl eq_refl I)|exact (Hn 5%nat _ eq_refl eq_refl I)].
Qed.

(** The runs of a payment: at most two moves, and a capture only after an authorisation. *)
Lemma payment_paths amountCents rs s :
  path (transitions amountCents) finalStates StateRequested rs s →
  (rs = [] ∧ s = StateRequested) ∨
  (∃ r, rs = [r] ∧ lifecycle amountCents r ∧ tn_Previous r = StateRequested ∧ s = tn_Current r) ∨
  (0 < amountCents ∧ ∃ r, rs = [mkResult StateRequested EventAuthorize StateAuthorized; r] ∧ lifecycle amountCents r ∧
     tn_Previous r = StateAuthorized ∧ s = tn_Current r ∧ s ∈ finalStates).
Proof.
  remember StateRequested as s0 eqn:E0. induction 1 as [s|s rs s1 e s2 Hp IH Hm]; subst; [by left|].
  right. pose proof Hm as [Hnf _]. apply payment_moves in Hm. destruct (IH eq_refl) as [[-> ->]|[(r & -> & Hr & Hprev & ->)|(_ & r & _ & _ & _ & _ & Hf)]].
  - left. eexists. split; [done|]. split; [done|]. by cbn.
  - right. assert (r = mkResult StateRequested EventAuthorize StateAuthorized ∧ 0 < amountCents) as [-> Hpos].
    { inversion Hr; subst; cbn in *; try done; exfalso; apply Hnf; set_solver. }
    split; [done|]. eexists. split; [done|]. split; [done|]. split; [done|]. split; [done|].
    cbn in Hm. inversion Hm; subst; cbn; set_solver.
  - done.
Qed.

Section History.
Context `{GU : GoUnicode} `{ST : StateTypes} `{SL : !StateLib} `{LW : !StateLaws}.

(** ** Histories *)

(** Requests with their contexts, in the order in which they hold the lock; what other requests do during
    a [GetCan] are requests of the history. *)
Definition quiet (request : HttpRequest) : Prop := match request with GetCan others _ => ∀ s, others s = s | _ => True end.
Fixpoint serve_all (requests : list (Ctx * HttpRequest)) (s : Server) : list (HttpRequest * Outcome (Z * Body)) * Server :=
  match requests with
  | [] => ([], s)
  | (c, request) :: requests =>
      let '(o, _, s1) := serve request c s in
      let '(rest, s2) := serve_all requests s1 in ((request, o) :: rest, s2)
  end.
(** The key of a request, and the response it was answered with. *)
Definition answered (x : HttpRequest * Outcome (Z * Body)) : option (string * transitionResponse) :=
  match x with
  | (PostTransition (inr q), Val (_, BodyTransition r)) => Some (TrimSpace (tq_IdempotencyKey q), r)
  | _ => None
  end.
Definition fresh (x : HttpRequest * Outcome (Z * Body)) : option (string * transitionResponse) :=
  match answered x with Some (key, r) => if tp_IdempotentReplay r then None else Some (key, r) | None => None end.
Definition result_of (kr : string * transitionResponse) : TransitionResult :=
  mkResult (tp_Previous kr.2) (tp_Event kr.2) (tp_Current kr.2).
Definition as_replay (r : transitionResponse) : transitionResponse :=
  mkTransitionResponse (tp_Payment r) (tp_Previous r) (tp_Event r) (tp_Current r) true.

Definition valid (amountCents : Z) (s : Server) : Prop :=
  machine_of (sv_machine s) (transitions amountCents) finalStates ∧ sv_amountCents s = amountCents.
Definition same_state (s s' : Server) : Prop :=
  sv_idempotency s' = sv_idempotency s ∧ State (sv_machine s') = State (sv_machine s).

(** ** One request *)

Definition transition_result (amountCents : Z) (event : PaymentEvent) (key : string) (s : Server) (o : Outcome transitionResponse)
    (s' : Server) : Prop :=
  match o with
  | Val r =>
      (∃ entry, sv_idempotency s !! key = Some entry ∧ en_event entry = event ∧ r = as_replay (en_response entry) ∧ s' = s) ∨
      (sv_idempotency s !! key = None ∧ tp_IdempotentReplay r = false ∧ result_of (key, r) = mkResult (State (sv_machine s)) event (State (sv_machine s')) ∧
       moves_to (transitions amountCents) finalStates (State (sv_machine s)) event (State (sv_machine s')) ∧
       tp_Payment r = snapshotLocked s' ∧ sv_idempotency s' = <[key := mkEntry event r]> (sv_idempotency s))
  | Fail e => same_state s s' ∧
      ((∃ entry, sv_idempotency s !! key = Some entry ∧ en_event entry ≠ event) → errors_Is e "paymentauth.errIdempotencyKeyReuse" = true)
  | Panic => False
  end.
Lemma transitionWithIdempotency_run amountCents event key c s o c' s' :
  valid amountCents s → transitionWithIdempotency event key c s = (o, c', s') →
  valid amountCents s' ∧ transition_result amountCents event key s o s'.
Proof.
  intros [Hm Ha]. unfold transitionWithIdempotency. unfold bind at 1, get at 1. unfold replay.
  destruct (sv_idempotency s !! key) as [entry|] eqn:Ek.
  - case_bool_decide as Ee; cbn [or_fail].
    + intros [= <- <- <-]. split; [done|]. split; [done|]. done.
    + intros [= <- <- <-]. split; [done|]. left. by exists entry.
  - unfold bind at 1. cbn [or_fail]. unfold ret at 1. unfold bind at 1, on_machine, on_part.
    pose proof (transition_step (sv_machine s) _ _ event c Hm) as Hstep.
    destruct (Transition event c (sv_machine s)) as [[[r|e|] c1] m1]; destruct Hstep as [Hm' Hstep]; [| |done].
    + destruct Hstep as [Hmove ->]. cbn. intros [= <- <- <-]. split; [done|]. right. done.
    + intros [= <- <- <-]. split; [done|]. split; [done|]. rewrite Ek. by intros (? & [=] & _).
Qed.

Lemma serve_step amountCents request c s o c' s' :
  valid amountCents s → quiet request → serve request c s = (o, c', s') →
  valid amountCents s' ∧ o ≠ Panic ∧
  match answered (request, o) with
  | Some (key, r) => ∃ event, transition_result amountCents event key s (Val r) s'
  | None => same_state s s'
  end.
Proof.
  intros Hv Hq. destruct request as [| |[e|q]|others param]; cbn [serve transition].
  - by intros [= <- <- <-].
  - by intros [= <- <- <-].
  - by intros [= <- <- <-].
  - unfold parseTransitionRequest. case_bool_decide as Ek; [by intros [= <- <- <-]|].
    destruct (parseEvent (tq_Event q)) as [e|event]; [case_bool_decide; by intros [= <- <- <-]|]. unfold answer, settle.
    destruct (transitionWithIdempotency event _ c s) as [[r c1] s1] eqn:E.
    apply (transitionWithIdempotency_run _ _ _ _ _ _ _ _ Hv) in E as [Hv' Hr]. destruct r as [r|e|]; [| |done]; intros [= <- <- <-].
    + split; [done|]. split; [done|]. cbn [answered]. by exists event.
    + assert (∃ st b, writeTransitionError e = (st, BodyError b)) as (st & b & Ew) by (unfold writeTransitionError, writeError; repeat case_match; eauto).
      rewrite Ew. split; [done|]. split; [done|]. by destruct Hr.
  - unfold canTransition. destruct (parseEvent param) as [e|event]; [by intros [= <- <- <-]|]. unfold answer, settle, on_machine, on_part.
    destruct Hv as [Hm Ha]. pose proof (can_transition _ _ _ event c Hm) as Hcan.
    destruct (CanTransition event c (sv_machine s)) as [[r c1] m1]. destruct Hcan as (Hm' & Hs & Hne & _). destruct r as [b|e|]; [| |done].
    + unfold bind, modify, get, ret. intros [= <- <- <-]. cbn [answered]. rewrite Hq. done.
    + assert (∃ st b, writeTransitionError e = (st, BodyError b)) as (st & b & Ew) by (unfold writeTransitionError, writeError; repeat case_match; eauto).
      rewrite Ew. by intros [= <- <- <-].
Qed.

(** ** All requests *)

Record explained (amountCents : Z) (seen : list (HttpRequest * Outcome (Z * Body))) (s : Server) : Prop := {
  ex_valid : valid amountCents s;
  ex_path : path (transitions amountCents) finalStates StateRequested (map result_of (omap fresh seen)) (State (sv_machine s));
  ex_keys : NoDup (map fst (omap fresh seen));
  ex_entries key r : (∃ event, sv_idempotency s !! key = Some (mkEntry event r)) ↔ (key, r) ∈ omap fresh seen
}.
Definition replays_earlier (seen : list (HttpRequest * Outcome (Z * Body))) (x : HttpRequest * Outcome (Z * Body)) : Prop :=
  ∀ key r, answered x = Some (key, r) → tp_IdempotentReplay r = true → ∃ r0, (key, r0) ∈ omap fresh seen ∧ r = as_replay r0.

Lemma explained_step amountCents seen s request c o c' s' :
  explained amountCents seen s → quiet request → serve request c s = (o, c', s') →
  explained amountCents (seen ++ [(request, o)]) s' ∧ o ≠ Panic ∧ replays_earlier seen (request, o).
Proof.
  intros [E1 E2 E3 E4] Hq Hrun. destruct (serve_step _ _ _ _ _ _ _ E1 Hq Hrun) as (Hv & Hp & Hstep).
  assert (∀ x, omap fresh (seen ++ [x]) = omap fresh seen ++ match fresh x with Some y => [y] | None => [] end) as Hsnoc.
  { intros x. rewrite omap_app. cbn. by destruct (fresh x). }
  unfold replays_earlier. destruct (answered (request, o)) as [[key r]|] eqn:Ea.
  - destruct Hstep as [event [(entry & Hk & He & -> & ->)|(Hk & Hflag & Hres & Hmove & _ & Hent)]].
    + assert (fresh (request, o) = None) as Hf by (unfold fresh; by rewrite Ea).
      split; [by split; rewrite ?Hsnoc, ?Hf, ?app_nil_r|]. split; [done|]. intros key' r' [= <- <-] _.
      exists (en_response entry). split; [|done]. apply E4. exists (en_event entry). rewrite Hk. by destruct entry.
    + assert (fresh (request, o) = Some (key, r)) as Hf by (unfold fresh; by rewrite Ea, Hflag).
      assert (key ∉ map fst (omap fresh seen)) as Hnew.
      { intros ([key' r'] & -> & Hin)%list_elem_of_fmap. apply E4 in Hin as [ev Hin]. cbn in Hk. congruence. }
      split; [|split; [done|]; intros key' r' [= <- <-]; congruence]. split; [done| | |]; rewrite Hsnoc, Hf.
      * rewrite map_app. cbn [map]. rewrite Hres. by constructor.
      * rewrite map_app. apply NoDup_app. split; [done|]. split; [|apply NoDup_singleton]. intros k Hin ->%list_elem_of_singleton. done.
      * intros k r'. rewrite elem_of_app, list_elem_of_singleton, <- E4, Hent. destruct (decide (k = key)) as [->|Hne].
        -- rewrite lookup_insert_eq. split; [intros [ev [= _ <-]]; by right|]. intros [[ev Hin]|[= ->]]; [congruence|by exists event].
        -- rewrite lookup_insert_ne by done. split; [by left|]. intros [?|[= -> _]]; done.
  - assert (fresh (request, o) = None) as Hf by (unfold fresh; by rewrite Ea). destruct Hstep as [Hi Hs].
    split; [|done]. split; rewrite ?Hsnoc, ?Hf, ?app_nil_r, ?Hi, ?Hs; done.
Qed.
Lemma serve_all_explained amountCents requests seen s :
  explained amountCents seen s → Forall (λ x, quiet x.2) requests →
  let '(rest, s') := serve_all requests s in
  explained amountCents (seen ++ rest) s' ∧ Forall (λ x, x.2 ≠ Panic) rest ∧
  ∀ before x after, rest = before ++ x :: after → replays_earlier (seen ++ before) x.
Proof.
  revert seen s. induction requests as [|[c request] requests IH]; intros seen s He Hq; cbn [serve_all].
  { rewrite app_nil_r. split; [done|]. split; [done|]. by intros [] ? ?. }
  apply Forall_cons in Hq as [Hq1 Hq]. destruct (serve request c s) as [[o c1] s1] eqn:E.
  destruct (explained_step _ _ _ _ _ _ _ _ He Hq1 E) as (He1 & Hp & Hr). specialize (IH _ _ He1 Hq).
  destruct (serve_all requests s1) as [rest s2]. destruct IH as (IH1 & IH2 & IH3). rewrite <- app_assoc in IH1.
  split; [done|]. split; [by constructor|]. intros [|b before] x after; cbn [app]; intros [= <- Hrest].
  - by rewrite app_nil_r.
  - specialize (IH3 _ _ _ Hrest). by rewrite <- app_assoc in IH3.
Qed.
Lemma new_explained options s : NewServer options = inr s → explained (op_AmountCents options) [] s ∧ 0 <= op_AmountCents options.
Proof.
  unfold NewServer. destruct (Z.ltb_spec (op_AmountCents options) 0) as [|Ha]; [done|].
  intros (m & Hm & [= <-])%and_then_inr. apply wrapping_inr in Hm.
  destruct (new_machine _ _ _ _ Hm) as [Hof Hst]. split; [|done]. split; cbn; [done|rewrite Hst; constructor|constructor|].
  intros key r. rewrite lookup_empty, elem_of_nil. split; [by intros [? [=]]|done].
Qed.

(** C24: Over any sequence of requests, with any contexts, the payment follows its lifecycle: the first
    answers of the keys are a run of moves from requested to the current state, at most two, each by an
    allowed event, with a capture only behind an authorisation and of a positive amount. A key moves the
    payment at most once, and what it is answered afterwards is its first answer again, marked as a
    replay. Nothing panics. *)
Theorem payment_moves_once_per_key options s requests :
  NewServer options = inr s → Forall (λ x, quiet x.2) requests →
  let '(seen, s') := serve_all requests s in
  let moves := map result_of (omap fresh seen) in
  path (transitions (op_AmountCents options)) finalStates StateRequested moves (State (sv_machine s')) ∧
  Forall (lifecycle (op_AmountCents options)) moves ∧ (length moves <= 2)%nat ∧
  (State (sv_machine s') = StateCaptured → 0 < op_AmountCents options ∧
     moves = [mkResult StateRequested EventAuthorize StateAuthorized; mkResult StateAuthorized EventCapture StateCaptured]) ∧
  NoDup (map fst (omap fresh seen)) ∧ Forall (λ x, x.2 ≠ Panic) seen ∧
  ∀ before x after, seen = before ++ x :: after → replays_earlier before x.
Proof.
  intros [He Ha]%new_explained Hq. pose proof (serve_all_explained _ _ _ _ He Hq) as H.
  destruct (serve_all requests s) as [seen s']. destruct H as ([E1 E2 E3 E4] & Hp & Hr). cbn [app] in *.
  set (moves := map result_of (omap fresh seen)) in *. split; [done|].
  assert (Forall (lifecycle (op_AmountCents options)) moves ∧ (length moves <= 2)%nat ∧
    (State (sv_machine s') = StateCaptured → 0 < op_AmountCents options ∧
     moves = [mkResult StateRequested EventAuthorize StateAuthorized; mkResult StateAuthorized EventCapture StateCaptured])) as (H1 & H2 & H3); [|done].
  destruct (payment_paths _ _ _ E2) as [[-> ->]|[(r & -> & Hl & Hprev & ->)|(Hpos & r & -> & Hl & Hprev & -> & _)]].
  - split; [constructor|]. split; [cbn; lia|]. done.
  - split; [by constructor|]. split; [cbn; lia|]. intros Hc. inversion Hl; subst; done.
  - split; [by repeat constructor|]. split; [cbn; lia|]. intros Hc. split; [done|]. inversion Hl; subst; done.
Qed.
End History.

(** ** Witnesses *)

Section Demo.
#[local] Existing Instances plain_unicode.

Definition post (event key : string) : Ctx * HttpRequest := (Background, PostTransition (inr (mkTransitionRequest event key))).
Definition demo : Server :=
  mkServer "pay-1001" 12900 (mkMachine StateRequested (transitions 12900) finalStates) ∅.
Definition retried : list (Ctx * HttpRequest) :=
  [post "capture" "k1"; post "Authorize" "k1"; post "capture" "k2"; post "authorize" " k1 "; post "cancel" "k3"; post "cancel" "k2"].

Lemma payment_moves_once_per_key_witness :
  let '(seen, s') := serve_all retried demo in
  map (λ x, match x.2 with Val (status, _) => status | _ => 0 end) seen = [409; 200; 200; 200; 409; 409] ∧
  omap (λ x, option_map (λ kr, (kr.1, tp_IdempotentReplay kr.2)) (answered x)) seen = [("k1", false); ("k2", false); ("k1", true)] ∧
  State (sv_machine s') = StateCaptured ∧ NoDup (map fst (omap fresh seen)).
Proof.
  assert (NewServer (mkOptions " " 12900) = inr demo) as Hnew by by vm_compute.
  pose proof (payment_moves_once_per_key (mkOptions " " 12900) demo retried Hnew ltac:(repeat constructor)) as H.
  destruct (serve_all retried demo) as [seen s'] eqn:E. destruct H as (_ & _ & _ & _ & Hnd & _).
  pose proof (f_equal (λ r, (map (λ x, match x.2 with Val (status, _) => status | _ => 0 end) r.1,
    omap (λ x, option_map (λ kr, (kr.1, tp_IdempotentReplay kr.2)) (answered x)) r.1, State (sv_machine r.2))) E) as E'.
  vm_compute in E'. injection E' as E1 E2 E3. split; [symmetry; exact E1|]. split; [symmetry; exact E2|].
  split; [symmetry; exact E3|exact Hnd].
Defined.

(** The two reads of a [GetCan] do not hold one lock: with an authorisation between them, the answer allows
    an event in a state that does not. *)
Definition authorize_between (s : Server) : Server := (serve (post "authorize" "k1").2 Background s).2.
Lemma can_answer_mixes_states :
  ∃ body, (serve (GetCan authorize_between "authorize") Background demo).1.1 = Val (200, BodyCan body) ∧
    cp_Allowed body = true ∧ cp_State body = StateAuthorized ∧
    ∀ s', ¬ moves_to (transitions 12900) finalStates StateAuthorized EventAuthorize s'.
Proof.
  eexists. split; [by vm_compute|]. split; [done|]. split; [done|]. intros s' H%payment_moves. inversion H.
Qed.
End Demo.
