(* ===== verification/Threads.v ===== *)
(** Handlers that share a state without a lock of their own: programs of atomic operations, whose steps
    interleave in any order. *)
From S2P Require Import Prelude.

Section Threads.
Context {S R : Type}.

(** A handler ends in an answer, or does one atomic operation and goes on with its outcome. *)
Inductive Prog :=
  | Answer (r : R)
  | Crash
  | Op {A : Type} (op : GoM S A) (k : Outcome A → Prog).
(** An operation whose failure is answered and whose panic ends the handler. *)
Definition attempt {A} (op : GoM S A) (on_error : GoError → R) (k : A → Prog) : Prog :=
  Op op (λ o, match o with Val a => k a | Fail e => Answer (on_error e) | Panic => Crash end).
(** A read of the shared state. *)
Definition look {A} (f : S → A) (k : A → Prog) : Prog :=
  Op (λ c s, (Val (f s), c, s)) (λ o, match o with Val a => k a | _ => Crash end).

(** One step of a thread; a finished one has none. *)
Definition advance (c : Ctx) (p : Prog) (s : S) : option (Ctx * Prog * S) :=
  match p with
  | Op op k => let '(o, c', s') := op c s in Some (c', k o, s')
  | _ => None
  end.
Record Pool := mkPool { pl_state : S; pl_threads : list (Ctx * Prog) }.
(** The scheduler picks any thread that can go on. *)
Inductive step : Pool → nat → Pool → Prop :=
  | step_thread s ts i c p c' p' s' :
      ts !! i = Some (c, p) → advance c p s = Some (c', p', s') →
      step (mkPool s ts) i (mkPool s' (<[i := (c', p')]> ts)).
Inductive run : Pool → list nat → Pool → Prop :=
  | run_nil x : run x [] x
  | run_step x i y js z : step x i y → run y js z → run x (i :: js) z.
(** One schedule of a pool, for evaluations: a thread that cannot go on is passed over. *)
Fixpoint schedule (js : list nat) (x : Pool) : Pool :=
  match js with
  | [] => x
  | i :: js =>
      schedule js (match pl_threads x !! i with
                   | Some (c, p) =>
                       match advance c p (pl_state x) with
                       | Some (c', p', s') => mkPool s' (<[i := (c', p')]> (pl_threads x))
                       | None => x
                       end
                   | None => x
                   end)
  end.
Lemma schedule_run js x : ∃ js', run x js' (schedule js x) ∧ js' `sublist_of` js.
Proof.
  revert x. induction js as [|i js IH]; intros x; cbn [schedule]; [by exists []; split; [constructor|]|].
  destruct (pl_threads x !! i) as [[c p]|] eqn:Ei.
  - destruct (advance c p (pl_state x)) as [[[c' p'] s']|] eqn:Ea.
    + destruct (IH (mkPool s' (<[i := (c', p')]> (pl_threads x)))) as (js' & Hr & Hs). exists (i :: js').
      split; [|by constructor]. econstructor; [|exact Hr]. destruct x as [s ts]. by econstructor.
    + destruct (IH x) as (js' & Hr & Hs). exists js'. split; [done|by constructor].
  - destruct (IH x) as (js' & Hr & Hs). exists js'. split; [done|by constructor].
Qed.

(** ** Bounded programs *)

(** At most so many operations, whatever they return. *)
Fixpoint within (n : nat) (p : Prog) {struct p} : Prop :=
  match p with
  | Op op k => match n with O => False | Datatypes.S n => ∀ o, within n (k o) end
  | _ => True
  end.
Fixpoint total (bounds : list nat) : nat := match bounds with [] => 0 | n :: bounds => n + total bounds end.
Lemma total_insert bounds i n : bounds !! i = Some (Datatypes.S n) → total bounds = Datatypes.S (total (<[i := n]> bounds)).
Proof.
  revert i. induction bounds as [|b bounds IH]; intros [|i]; cbn; [done..|intros [= ->]; lia|]. intros H%IH. rewrite H. apply Nat.add_succ_r.
Qed.
(** A run is never longer than the bounds of its threads. *)
Lemma run_within x js y bounds :
  run x js y → Forall2 (λ n t, within n t.2) bounds (pl_threads x) → (length js <= total bounds)%nat.
Proof.
  intros H. revert bounds. induction H as [|x i y js z Hs Hr IH]; intros bounds Hb; [cbn; lia|].
  inversion Hs as [s ts j c p c' p' s' Hi Ha]; subst. cbn [pl_threads] in *.
  destruct (Forall2_lookup_r _ _ _ _ _ Hb Hi) as (n & Hn & Hw). cbn in Hw.
  destruct p as [| |A op k]; [done..|]. destruct n as [|n]; [done|]. cbn in Ha. destruct (op c s) as [[o c1] s1].
  injection Ha as <- <- <-. rewrite (total_insert _ _ _ Hn). cbn [length].
  apply le_n_S, IH. apply Forall2_insert; [done|]. cbn. apply Hw.
Qed.
(** What cannot go on is finished. *)
Definition finished (p : Prog) : bool := match p with Op _ _ => false | _ => true end.
Lemma stuck_finished x : (∀ i y, ¬ step x i y) → Forall (λ t, finished t.2 = true) (pl_threads x).
Proof.
  intros Hstuck. apply Forall_lookup. intros i [c p] Hi. destruct p as [| |A op k]; [done..|]. exfalso.
  destruct x as [s ts]. cbn [pl_threads] in Hi. destruct (op c s) as [[o c'] s'] eqn:E.
  eapply Hstuck, (step_thread s ts i c _ c' (k o) s' Hi). cbn. by rewrite E.
Qed.
End Threads.
Arguments Prog : clear implicits.
Arguments Pool : clear implicits.
