(* ===== verification/OrderLifecycle.v ===== *)
(** examples/order-lifecycle-state-api/internal/orderstate: one order whose state machine is moved over HTTP.
    The server has no lock of its own, so handlers are programs whose operations on the machine interleave.
    The state package is a parameter. *)
From Stdlib Require Import Ascii String.
From S2P Require Import Prelude StateMachine Threads.

Abbreviation OrderState := string (only parsing).
Definition StateDraft : OrderState := "draft".
Definition StateSubmitted : OrderState := "submitted".
Definition StatePaid : OrderState := "paid".
Definition StatePacked : OrderState := "packed".
Definition StateShipped : OrderState := "shipped".
Definition StateCancelled : OrderState := "cancelled".
Abbreviation OrderEvent := string (only parsing).
Definition EventSubmit : OrderEvent := "submit".
Definition EventPay : OrderEvent := "pay".
Definition EventPack : OrderEvent := "pack".
Definition EventShip : OrderEvent := "ship".
Definition EventCancel : OrderEvent := "cancel".

Definition ErrNonPositiveTotal : GoError :=
  Sentinel "orderstate.ErrNonPositiveTotal" "order total must be positive before payment".
Definition errUnknownEvent : GoError := Sentinel "orderstate.errUnknownEvent" "unknown order lifecycle event".

(** ** Data *)

Record Options := mkOptions { op_OrderID : string; op_TotalCents : Z }.
Record OrderSnapshot := mkSnapshot {
  sn_OrderID : string; sn_State : OrderState; sn_AllowedEvents : list OrderEvent; sn_TotalCents : Z
}.
Record transitionRequest := mkTransitionRequest { tq_Event : string }.
Record transitionResponse := mkTransitionResponse {
  tp_Order : OrderSnapshot; tp_Previous : OrderState; tp_Event : OrderEvent; tp_Current : OrderState
}.
Record canTransitionResponse := mkCanResponse {
  cp_Event : OrderEvent; cp_Allowed : bool; cp_State : OrderState; cp_Error : string; cp_Order : OrderSnapshot
}.
Record errorResponse := mkErrorResponse { ep_Code : string; ep_Error : string }.

(** ** The machine *)

Definition positiveTotalGuard (totalCents : Z) : Guard := λ _ _,
  if totalCents <=? 0 then Some ErrNonPositiveTotal else None.
Definition transitions (totalCents : Z) : list TransitionSpec :=
  [mkTransition StateDraft EventSubmit StateSubmitted None;
   mkTransition StateSubmitted EventPay StatePaid (Some (positiveTotalGuard totalCents));
   mkTransition StatePaid EventPack StatePacked None;
   mkTransition StatePacked EventShip StateShipped None;
   mkTransition StateDraft EventCancel StateCancelled None;
   mkTransition StateSubmitted EventCancel StateCancelled None;
   mkTransition StatePaid EventCancel StateCancelled None].
Definition finalStates : list OrderState := [StateShipped; StateCancelled].

Section Server.
Context `{GU : GoUnicode} `{ST : StateTypes} `{SL : !StateLib}.

Definition newMachine (totalCents : Z) : GoError + Machine := NewMachine StateDraft (transitions totalCents) finalStates.
(** What the server never changes, and its machine. *)
Record Server := mkServer { sv_orderID : string; sv_totalCents : Z }.
Definition NewServer (options : Options) : GoError + (Server * Machine) :=
  let orderID := if bool_decide (op_OrderID options = "") then "order-1001" else op_OrderID options in
  try! machine := wrapping (λ e, Errorf "create order state machine: %w" [e] []) (newMachine (op_TotalCents options)) in
  inr (mkServer orderID (op_TotalCents options), machine).

Inductive Body :=
  | BodyHealth | BodySnapshot (s : OrderSnapshot) | BodyTransition (r : transitionResponse)
  | BodyCan (r : canTransitionResponse) | BodyError (r : errorResponse).
Definition writeError (status : Z) (code : string) (err : GoError) : Z * Body := (status, BodyError (mkErrorResponse code (Error err))).
Definition writeTransitionError (err : GoError) : Z * Body :=
  if errors_Is err "context.Canceled" || errors_Is err "context.DeadlineExceeded" then writeError 408 "request_timeout" err
  else if errors_Is err "state.ErrInvalidTransition" then writeError 409 "invalid_transition" err
  else if errors_Is err "state.ErrGuardRejected" then writeError 409 "guard_rejected" err
  else if errors_Is err "state.ErrFinalState" then writeError 409 "final_state" err
  else if errors_Is err "state.ErrConcurrentTransition" then writeError 409 "concurrent_transition" err
  else writeError 500 "transition_failed" err.

Definition parseEvent (raw : string) : GoError + OrderEvent :=
  let event := ToLower (TrimSpace raw) in
  if bool_decide (event ∈ [EventSubmit; EventPay; EventPack; EventShip; EventCancel]) then inr event
  else inl (Errorf "%w: %q" [errUnknownEvent] [FStr raw]).

(** ** Handlers *)

Definition Handler : Type := Prog Machine (Z * Body).
(** The state and the allowed events are read one after the other. *)
Definition snapshot_events (s : Server) (st : OrderState) (k : OrderSnapshot → Handler) : Handler :=
  look AllowedEvents (λ events, k (mkSnapshot (sv_orderID s) st events (sv_totalCents s))).
Definition snapshot (s : Server) (k : OrderSnapshot → Handler) : Handler := look State (λ st, snapshot_events s st k).
Definition health : Handler := Answer (200, BodyHealth).
Definition current (s : Server) : Handler := snapshot s (λ snapshot, Answer (200, BodySnapshot snapshot)).
Definition respond (result : TransitionResult) (snapshot : OrderSnapshot) : Handler :=
  Answer (200, BodyTransition (mkTransitionResponse snapshot (tn_Previous result) (tn_Event result) (tn_Current result))).
(** gin binds a JSON body with its required field to a request or an error. *)
Definition transition (s : Server) (bound : GoError + transitionRequest) : Handler :=
  match bound with
  | inl err => Answer (writeError 400 "invalid_request" err)
  | inr request =>
      match parseEvent (tq_Event request) with
      | inl err => Answer (writeError 400 "unknown_event" err)
      | inr event => attempt (Transition event) writeTransitionError (λ result, snapshot s (respond result))
      end
  end.
Definition canTransition (s : Server) (param : string) : Handler :=
  match parseEvent param with
  | inl err => Answer (writeError 400 "unknown_event" err)
  | inr event =>
      attempt (CanTransition event) writeTransitionError (λ allowed, snapshot s (λ snapshot,
        Answer (200, BodyCan (mkCanResponse event allowed (sn_State snapshot)
          (if allowed then "" else "event is not available from the current state") snapshot))))
  end.

Inductive HttpRequest := GetHealthz | GetCurrent | PostTransition (bound : GoError + transitionRequest) | GetCan (event : string).
Definition serve (s : Server) (request : HttpRequest) : Handler :=
  match request with
  | GetHealthz => health
  | GetCurrent => current s
  | PostTransition bound => transition s bound
  | GetCan event => canTransition s event
  end.
(** Requests that run at the same time, each in its own context. *)
Definition serve_all (s : Server) (machine : Machine) (requests : list (Ctx * HttpRequest)) : Pool Machine (Z * Body) :=
  mkPool machine (map (λ cr, (cr.1, serve s cr.2)) requests).
End Server.
