(* ===== verification/OrderLifecycleProofs.v ===== *)
(** What the order server promises although its handlers interleave: the order follows its lifecycle, every
    move belongs to exactly the request that is answered with it, a snapshot is never older than the move it
    is sent with, and every request comes to an answer. *)
From Stdlib Require Import Ascii String.
From S2P Require Import Prelude StateMachine Threads OrderLifecycle.

(** ** The lifecycle *)

Inductive lifecycle (totalCents : Z) : TransitionResult → Prop :=
  | can_submit : lifecycle totalCents (mkResult StateDraft EventSubmit StateSubmitted)
  | can_pay : 0 < totalCents → lifecycle totalCents (mkResult StateSubmitted EventPay StatePaid)
  | can_pack : lifecycle totalCents (mkResult StatePaid EventPack StatePacked)
  | can_ship : lifecycle totalCents (mkResult StatePacked EventShip StateShipped)
  | can_cancel s : s ∈ [StateDraft; StateSubmitted; StatePaid] → lifecycle totalCents (mkResult s EventCancel StateCancelled).

Lemma order_moves totalCents s e s' :
  moves_to (transitions totalCents) finalStates s e s' → lifecycle totalCents (mkResult s e s').
Proof.
  intros [_ (t & Ht & <- & <- & <- & Ha)]. unfold transitions in Ht. rewrite !elem_of_cons, elem_of_nil in Ht.
  destruct_or! Ht; try done; subst t; cbn; try (constructor; set_solver).
  constructor. unfold admits, positiveTotalGuard in Ha. cbn in Ha. destruct (Z.leb_spec totalCents 0); [done|lia].
Qed.
Lemma path_lifecycle totalCents s rs s' :
  path (transitions totalCents) finalStates s rs s' → Forall (lifecycle totalCents) rs.
Proof. induction 1 as [|s rs s1 e s2 Hp IH Hm]; [constructor|]. apply Forall_app. split; [done|]. constructor; [by apply order_moves|done]. Qed.
Lemma path_last totalCents s rs s' :
  path (transitions totalCents) finalStates s rs s' →
  (rs = [] ∧ s' = s) ∨ ∃ rs' s1 e, rs = rs' ++ [mkResult s1 e s'] ∧ path (transitions totalCents) finalStates s rs' s1 ∧
    lifecycle totalCents (mkResult s1 e s').
Proof. destruct 1 as [|s rs s1 e s2 Hp Hm]; [by left|]. right. apply order_moves in Hm. eauto 8. Qed.

(** The only way to a shipped order. *)
Definition shipping_route : list TransitionResult :=
  [mkResult StateDraft EventSubmit StateSubmitted; mkResult StateSubmitted EventPay StatePaid;
   mkResult StatePaid EventPack StatePacked; mkResult StatePacked EventShip StateShipped].
Lemma path_shipped totalCents rs :
  path (transitions totalCents) finalStates StateDraft rs StateShipped → rs = shipping_route ∧ 0 < totalCents.
Proof.
  intros [[_ [=]]|(r1 & s1 & e1 & -> & H & L1)]%path_last. inversion L1; subst.
  apply path_last in H as [[_ [=]]|(r2 & s2 & e2 & -> & H & L2)]. inversion L2; subst.
  apply path_last in H as [[_ [=]]|(r3 & s3 & e3 & -> & H & L3)]. inversion L3; subst.
  apply path_last in H as [[_ [=]]|(r4 & s4 & e4 & -> & H & L4)]. inversion L4; subst.
  apply path_last in H as [[-> _]|(r5 & s5 & e5 & -> & H & L5)]; [done|]. inversion L5.
Qed.

Section Requests.
Context `{GU : GoUnicode} `{ST : StateTypes} `{SL : !StateLib} `{LW : !StateLaws} (s : Server) (totalCents : Z).
#[local] Abbreviation order_machine m := (machine_of m (transitions totalCents) finalStates).
#[local] Abbreviation later := (leads_to (transitions totalCents) finalStates).

Definition result_of (r : transitionResponse) : TransitionResult := mkResult (tp_Previous r) (tp_Event r) (tp_Current r).
Definition is_transition (body : Body) : bool := match body with BodyTransition _ => true | _ => false end.

(** Handlers that move nothing, panic never and answer no transition. *)
Fixpoint readonly (p : Handler) : Prop :=
  match p with
  | Answer (_, body) => is_transition body = false
  | Crash => False
  | Op op k => ∀ c m, order_machine m →
      let '(o, _, m') := op c m in order_machine m' ∧ State m' = State m ∧ readonly (k o)
  end.
Lemma readonly_look {A} (f : Machine → A) (k : A → Handler) : (∀ a, readonly (k a)) → readonly (look f k).
Proof. intros Hk c m Hm. by split. Qed.
Lemma writeTransitionError_error err : is_transition (writeTransitionError err).2 = false.
Proof. unfold writeTransitionError, writeError. by repeat case_match. Qed.
Lemma readonly_answer_error err : readonly (Answer (writeTransitionError err)).
Proof. cbn. destruct (writeTransitionError err) as [st b] eqn:E. change b with (st, b).2. rewrite <- E. apply writeTransitionError_error. Qed.

(** How far a thread is, given the moves made so far with the threads that made them. *)
Inductive stage (log : list (nat * TransitionResult)) (now : OrderState) (i : nat) : Handler → Prop :=
  | stage_idle p : i ∉ map fst log → readonly p → stage log now i p
  | stage_waiting event : i ∉ map fst log →
      stage log now i (attempt (Transition event) writeTransitionError (λ result, snapshot s (respond result)))
  | stage_moved r : (i, r) ∈ log → later (tn_Current r) now → stage log now i (snapshot s (respond r))
  | stage_read r st : (i, r) ∈ log → later (tn_Current r) st → later st now → stage log now i (snapshot_events s st (respond r))
  | stage_done r shot : (i, r) ∈ log → later (tn_Current r) (sn_State shot) → later (sn_State shot) now →
      stage log now i (respond r shot).
Lemma stage_grows log now i p log' now' :
  stage log now i p → later now now' → (∀ x, x ∈ log → x ∈ log') → (i ∉ map fst log → i ∉ map fst log') → stage log' now' i p.
Proof.
  intros [p' Hi Hr|e Hi|r Hi Hc|r st Hi Hc Hs|r shot Hi Hc Hs] Hn Hin Hout.
  - constructor; auto.
  - apply stage_waiting; auto.
  - apply stage_moved; [auto|by etransitivity].
  - apply (stage_read _ _ _ r); [auto|done|by etransitivity].
  - apply stage_done; [auto|done|by etransitivity].
Qed.
Lemma stage_handler log now i request : i ∉ map fst log → stage log now i (serve s request).
Proof.
  intros Hi. destruct request as [| |[err|q]|param]; cbn [serve].
  - by constructor.
  - constructor; [done|]. unfold current, snapshot. apply readonly_look. intros st. by apply readonly_look.
  - by constructor.
  - unfold transition. destruct (parseEvent (tq_Event q)) as [err|event]; [by constructor|by apply stage_waiting].
  - constructor; [done|]. unfold canTransition. destruct (parseEvent param) as [err|event]; [done|].
    intros c m Hm. pose proof (can_transition _ _ _ event c Hm) as H. destruct (CanTransition event c m) as [[o c'] m'].
    destruct H as (Hm' & Hs & Hne & _). split; [done|]. split; [done|]. destruct o as [b|e|]; [|apply readonly_answer_error|done].
    unfold snapshot. apply readonly_look. intros st. by apply readonly_look.
Qed.

(** One operation of a thread. *)
Lemma stage_advance log m i p c c' p' m' :
  order_machine m → stage log (State m) i p → advance c p m = Some (c', p', m') →
  order_machine m' ∧
  ((State m' = State m ∧ stage log (State m') i p') ∨
   ∃ r, (i ∉ map fst log) ∧ moves_to (transitions totalCents) finalStates (State m) (tn_Event r) (State m') ∧
     r = mkResult (State m) (tn_Event r) (State m') ∧ stage (log ++ [(i, r)]) (State m') i p').
Proof.
  intros Hm Hst Ha. destruct Hst as [p Hi Hr|e Hi|r Hi Hc|r st Hi Hc Hs|r shot Hi Hc Hs].
  - destruct p as [| |A op k]; [done..|]. cbn [advance] in Ha. specialize (Hr c m Hm). destruct (op c m) as [[o c1] m1].
    destruct Hr as (Hm1 & Hs & Hk). injection Ha as <- <- <-. split; [done|]. left. split; [done|]. by constructor.
  - cbn [attempt advance] in Ha. pose proof (transition_step _ _ _ e c Hm) as H.
    destruct (Transition e c m) as [[o c1] m1]. injection Ha as <- <- <-. destruct H as [Hm1 H]. split; [done|].
    destruct o as [r|err|]; [|left; split; [done|]; constructor; [done|apply readonly_answer_error]|done].
    destruct H as [Hmove ->]. right. exists (mkResult (State m) e (State m1)). split; [done|]. split; [exact Hmove|]. split; [done|].
    apply stage_moved; [|done]. apply elem_of_app. right. by left.
  - injection Ha as <- <- <-. split; [done|]. left. split; [done|]. by apply (stage_read _ _ _ r).
  - injection Ha as <- <- <-. split; [done|]. left. split; [done|]. by apply stage_done.
  - done.
Qed.

(** ** Any interleaving *)

Definition consistent (log : list (nat * TransitionResult)) (x : Pool Machine (Z * Body)) : Prop :=
  order_machine (pl_state x) ∧ path (transitions totalCents) finalStates StateDraft (map snd log) (State (pl_state x)) ∧
  NoDup (map fst log) ∧ ∀ i c p, pl_threads x !! i = Some (c, p) → stage log (State (pl_state x)) i p.
Lemma consistent_step log x i y : consistent log x → step x i y → ∃ log', consistent log' y.
Proof.
  intros (Hm & Hp & Hnd & Hst) Hs. inversion Hs as [m ts j c p c' p' m' Hi Ha]; subst. cbn [pl_state pl_threads] in *.
  destruct (stage_advance _ _ _ _ _ _ _ _ Hm (Hst _ _ _ Hi) Ha) as [Hm' [[Hs' Hst']|(r & Hout & Hmove & Er & Hst')]].
  - exists log. split; [done|]. cbn [pl_state pl_threads]. rewrite Hs' in *. split; [done|]. split; [done|].
    intros j cj pj [(-> & [= <- <-] & _)|[Hne Hj]]%list_lookup_insert_Some; [done|by eapply Hst].
  - exists (log ++ [(i, r)]). split; [done|]. cbn [pl_state pl_threads]. split; [|split].
    + rewrite map_app. cbn [map snd]. rewrite Er. by econstructor.
    + rewrite map_app. apply NoDup_app. split; [done|]. split; [|apply NoDup_singleton]. by intros k Hk ->%list_elem_of_singleton.
    + intros j cj pj [(-> & [= <- <-] & _)|[Hne Hj]]%list_lookup_insert_Some; [done|].
      eapply stage_grows; [by eapply Hst|by eapply leads_to_move|intros x Hx; apply elem_of_app; by left|].
      intros Hout'. rewrite map_app. cbn. set_solver.
Qed.
Lemma consistent_run log x js y : consistent log x → run x js y → ∃ log', consistent log' y.
Proof. intros Hc H. revert log Hc. induction H as [x|x i y js z Hs Hr IH]; intros log Hc; [eauto|]. destruct (consistent_step _ _ _ _ Hc Hs) as [log' Hl]. eauto. Qed.

Lemma start_consistent options m requests :
  NewServer options = inr (s, m) → op_TotalCents options = totalCents → consistent [] (serve_all s m requests).
Proof.
  intros Hnew Ht. revert Hnew. unfold NewServer. rewrite Ht. intros (m' & Hm & [= _ <-])%and_then_inr. apply wrapping_inr in Hm.
  destruct (new_machine _ _ _ _ Hm) as [Hof Hst]. split; [done|]. cbn [serve_all pl_state pl_threads]. split; [rewrite Hst; constructor|].
  split; [constructor|]. intros i c p Hi. apply list_lookup_fmap_Some in Hi as ([c0 request] & [= -> ->] & _). apply stage_handler, not_elem_of_nil.
Qed.
(** What a finished thread shows. *)
Lemma stage_answer log now i status body :
  stage log now i (Answer (status, body)) →
  match body with
  | BodyTransition r =>
      status = 200 ∧ (i, result_of r) ∈ log ∧ later (tp_Current r) (sn_State (tp_Order r)) ∧ later (sn_State (tp_Order r)) now
  | _ => i ∉ map fst log
  end.
Proof.
  intros H. inversion H as [p Hi Hr E|e Hi E|r Hi Hc E|r st Hi Hc Hs E|r shot Hi Hc Hs E]; subst.
  - cbn in Hr. by destruct body.
  - destruct r. split; [done|]. by split.
Qed.
Lemma stage_no_crash log now i : ¬ stage log now i Crash.
Proof. intros H. by inversion H. Qed.
End Requests.

Section Theorems.
Context `{GU : GoUnicode} `{ST : StateTypes} `{SL : !StateLib} `{LW : !StateLaws}.

(** C23: Whatever requests run at the same time and however their operations interleave, the order follows
    its lifecycle from draft: there is one list of moves, each made by one request, that leads to the
    current state; every request makes at most one, and one that is answered with a transition made
    exactly that, while any other answer moved nothing. The order shown with a transition may be newer
    than the move, never older, and no newer than the order is. An order is shipped only by
    submitting, paying a positive total, packing and shipping. *)
Theorem interleaved_requests_follow_lifecycle options s m requests js y :
  NewServer options = inr (s, m) → run (serve_all s m requests) js y →
  let total := op_TotalCents options in
  ∃ log : list (nat * TransitionResult),
    path (transitions total) finalStates StateDraft (map snd log) (State (pl_state y)) ∧
    Forall (lifecycle total) (map snd log) ∧ NoDup (map fst log) ∧
    (State (pl_state y) = StateShipped → map snd log = shipping_route ∧ 0 < total) ∧
    ∀ i c p, pl_threads y !! i = Some (c, p) → p ≠ Crash ∧ ∀ status body, p = Answer (status, body) →
      match body with
      | BodyTransition r =>
          status = 200 ∧ (i, result_of r) ∈ log ∧ leads_to (transitions total) finalStates (tp_Current r) (sn_State (tp_Order r)) ∧
          leads_to (transitions total) finalStates (sn_State (tp_Order r)) (State (pl_state y))
      | _ => i ∉ map fst log
      end.
Proof.
  intros Hnew Hrun total. pose proof (start_consistent s total options m requests Hnew eq_refl) as H0.
  destruct (consistent_run _ _ _ _ _ _ H0 Hrun) as (log & Hm & Hp & Hnd & Hst). exists log.
  split; [done|]. split; [by eapply path_lifecycle|]. split; [done|]. split.
  - intros E. rewrite E in Hp. by apply path_shipped in Hp.
  - intros i c p Hi. specialize (Hst _ _ _ Hi). split; [intros ->; by eapply stage_no_crash|].
    intros status body ->. by apply stage_answer in Hst.
Qed.

Lemma snapshot_within s n k : (∀ shot, within n (k shot)) → within (2 + n) (snapshot s k).
Proof. intros Hk [st|e|]; [|done..]. intros [events|e|]; [apply Hk|done..]. Qed.
Lemma serve_within s request : within 3 (serve s request).
Proof.
  destruct request as [| |[err|q]|param]; cbn [serve]; [done|by apply (snapshot_within s 1)|done| |].
  - unfold transition. destruct (parseEvent _); [done|]. intros [r|e|]; [|done|done]. by apply (snapshot_within s 0).
  - unfold canTransition. destruct (parseEvent _); [done|]. intros [r|e|]; [|done|done]. by apply (snapshot_within s 0).
Qed.
(** Every request comes to an answer: a run of n requests has at most 3 n steps, however they
    interleave, and when no thread can go on, every one has answered. *)
Theorem interleaved_requests_end options s m requests js y :
  NewServer options = inr (s, m) → run (serve_all s m requests) js y →
  (length js <= 3 * length requests)%nat ∧
  ((∀ i z, ¬ step y i z) → Forall (λ t, ∃ status body, t.2 = Answer (status, body)) (pl_threads y)).
Proof.
  intros Hnew Hrun. split.
  - assert (total (repeat 3%nat (length requests)) = 3 * length requests)%nat as <-.
    { generalize (length requests). induction n as [|n IH]; [done|]. cbn [repeat total]. lia. }
    eapply run_within; [exact Hrun|]. cbn [serve_all pl_threads]. clear. induction requests as [|[c r] requests IH]; [constructor|].
    constructor; [apply serve_within|exact IH].
  - intros Hstuck. pose proof (start_consistent s _ options m requests Hnew eq_refl) as H0.
    destruct (consistent_run _ _ _ _ _ _ H0 Hrun) as (log & _ & _ & _ & Hst). apply stuck_finished in Hstuck.
    apply Forall_lookup. intros i [c p] Hi. pose proof (proj1 (Forall_lookup _ _) Hstuck _ _ Hi) as Hf. specialize (Hst _ _ _ Hi).
    destruct p as [[status body]| |]; [eauto|by apply stage_no_crash in Hst|done].
Qed.
End Theorems.

(** ** Witnesses *)

Section Demo.
#[local] Existing Instances plain_unicode.

Definition demo : Server := mkServer "order-1001" 4200.
Definition demo_machine : TableMachine := mkMachine StateDraft (transitions 4200) finalStates.
Definition post (event : string) : Ctx * HttpRequest := (Background, PostTransition (inr (mkTransitionRequest event))).
(** A submission and a cancellation at the same time: both move before either reads the order. *)
Definition race : list (Ctx * HttpRequest) := [post "submit"; post " Cancel "].
Definition raced : Pool Machine (Z * Body) := schedule [0; 1; 0; 0; 1; 1]%nat (serve_all demo demo_machine race).

Lemma interleaved_requests_follow_lifecycle_witness :
  ∃ log : list (nat * TransitionResult),
    path (transitions 4200) finalStates StateDraft (map snd log) (State (pl_state raced)) ∧
    State (pl_state raced) = StateCancelled ∧ NoDup (map fst log) ∧
    map (λ t, match t.2 with Answer (_, BodyTransition r) => (tp_Current r, sn_State (tp_Order r)) | _ => ("", "") end) (pl_threads raced) =
      [("submitted", "cancelled"); ("cancelled", "cancelled")].
Proof.
  assert (NewServer (mkOptions "" 4200) = inr (demo, demo_machine)) as Hnew by by vm_compute.
  destruct (schedule_run [0; 1; 0; 0; 1; 1]%nat (serve_all demo demo_machine race)) as (js & Hrun & _).
  destruct (interleaved_requests_follow_lifecycle (mkOptions "" 4200) demo demo_machine race js _ Hnew Hrun) as (log & Hp & _ & Hnd & _).
  exists log. split; [exact Hp|]. split; [by vm_compute|]. split; [exact Hnd|by vm_compute].
Defined.

Lemma interleaved_requests_end_witness :
  ∃ js, run (serve_all demo demo_machine race) js raced ∧ (length js <= 6)%nat.
Proof.
  assert (NewServer (mkOptions "" 4200) = inr (demo, demo_machine)) as Hnew by by vm_compute.
  destruct (schedule_run [0; 1; 0; 0; 1; 1]%nat (serve_all demo demo_machine race)) as (js & Hrun & _).
  exists js. split; [exact Hrun|]. apply (interleaved_requests_end (mkOptions "" 4200) demo demo_machine race js _ Hnew Hrun).
Defined.

(** The answer to a transition may show the state another request moved the order to. *)
Lemma transition_answer_mixes_states :
  ∃ c body, pl_threads raced !! 0%nat = Some (c, Answer (200, BodyTransition body)) ∧
    tp_Current body = StateSubmitted ∧ sn_State (tp_Order body) = StateCancelled.
Proof. do 2 eexists. split; [by vm_compute|]. by split. Qed.
End Demo.
