(* ===== verification/WorkReport.v ===== *)
(** The interfaces of bluetape-go's workreport and workflow packages: reports of work, their aggregation
    under a failure policy, and runs of works in sequence, with the laws of their documentation, and a
    lawful implementation. The start and end times of a report, which no example shows, are left out. *)
From Stdlib Require Import Ascii String.
From S2P Require Import Prelude.

Abbreviation Status := string (only parsing).
Definition StatusCompleted : Status := "completed".
Definition StatusFailed : Status := "failed".
Definition StatusPartial : Status := "partial".
Definition StatusAborted : Status := "aborted".
Definition StatusCancelled : Status := "cancelled".
Inductive FailurePolicy := StopOnFailure | ContinueOnFailure.
#[export] Instance policy_dec : EqDecision FailurePolicy.
Proof. solve_decision. Defined.

Inductive Report := mkReport {
  wr_Name : string; wr_Status : Status; wr_Err : option GoError; wr_Reason : string; wr_Children : list Report
}.
Class ReportLib := {
  Completed : string → Report;
  Failed : string → GoError → Report;
  Cancelled : string → GoError → Report;
  Aborted : string → string → Report;
  IsSuccess : Report → bool;
  IsFailure : Report → bool;
  IsPartial : Report → bool;
  IsCancelled : Report → bool;
  IsTerminal : Report → bool;
  Aggregate : string → FailurePolicy → list Report → GoError + Report
}.
(** A work reports and may change what it runs on. *)
Abbreviation Work S := (GoM S Report) (only parsing).
Class WorkflowLib (S : Type) := Sequential : string → FailurePolicy → list (Work S) → GoM S Report.

(** ** Laws *)

Definition completed (r : Report) : Prop := wr_Status r = StatusCompleted.
#[export] Instance completed_dec r : Decision (completed r) := decide (wr_Status r = StatusCompleted).
#[global] Typeclasses Opaque completed.
(** The five statuses are the terminal ones, and all but the first are failures. *)
Definition failures : list Status := [StatusFailed; StatusPartial; StatusAborted; StatusCancelled].
Class ReportLaws `{ReportLib} : Prop := {
  completed_report name : Completed name = mkReport name StatusCompleted None "" [];
  failed_report name e : Failed name e = mkReport name StatusFailed (Some e) "" [];
  cancelled_report name e : Cancelled name e = mkReport name StatusCancelled (Some e) "" [];
  aborted_report name reason : Aborted name reason = mkReport name StatusAborted None reason [];
  is_success r : IsSuccess r = bool_decide (wr_Status r = StatusCompleted);
  is_failure r : IsFailure r = bool_decide (wr_Status r ∈ failures);
  is_partial r : IsPartial r = bool_decide (wr_Status r = StatusPartial);
  is_cancelled r : IsCancelled r = bool_decide (wr_Status r = StatusCancelled);
  is_terminal r : IsTerminal r = bool_decide (wr_Status r ∈ StatusCompleted :: failures);
  aggregate_completed name policy rs :
    Forall completed rs → Aggregate name policy rs = inr (mkReport name StatusCompleted None "" rs);
  (** the first child that is not completed decides, and the rest are cut off *)
  aggregate_stop name rs r rest :
    Forall completed rs → ¬ completed r →
    Aggregate name StopOnFailure (rs ++ r :: rest) = inr (mkReport name (wr_Status r) (wr_Err r) (wr_Reason r) (rs ++ [r]));
  (** every child is kept *)
  aggregate_continue name rs :
    ¬ Forall completed rs → ∃ e reason, Aggregate name ContinueOnFailure rs = inr (mkReport name StatusPartial e reason rs)
}.

(** A report that ends a sequence: cancelled or aborted under any policy, failed or partial under the first. *)
Definition halts (policy : FailurePolicy) (r : Report) : bool :=
  bool_decide (wr_Status r ∈ [StatusCancelled; StatusAborted]) ||
  (bool_decide (policy = StopOnFailure) && bool_decide (wr_Status r ∈ [StatusFailed; StatusPartial])).
(** Before a work the runner may look at the context. *)
Definition looks (c c' : Ctx) : Prop := c' = c ∨ ctx_poll c = (None, c').
(** The works in order: the reports, and the error of the context if it cut the sequence short. *)
Inductive works_run {S} (policy : FailurePolicy) : list (Work S) → Ctx → S → list Report → option GoError → Ctx → S → Prop :=
  | run_end c s : works_run policy [] c s [] None c s
  | run_cut w ws c s e c' : ctx_poll c = (Some e, c') → works_run policy (w :: ws) c s [] (Some e) c' s
  | run_halt w ws c s c1 r c2 s2 :
      looks c c1 → w c1 s = (Val r, c2, s2) → halts policy r = true → works_run policy (w :: ws) c s [r] None c2 s2
  | run_on w ws c s c1 r c2 s2 rs e c3 s3 :
      looks c c1 → w c1 s = (Val r, c2, s2) → halts policy r = false →
      works_run policy ws c2 s2 rs e c3 s3 → works_run policy (w :: ws) c s (r :: rs) e c3 s3.
(** What a sequence reports of its works. *)
Definition sums_up (name : string) (policy : FailurePolicy) (rs : list Report) (cut : option GoError) (r : Report) : Prop :=
  match cut with
  | Some e =>
      wr_Name r = name ∧ wr_Status r = StatusCancelled ∧ wr_Err r = Some e ∧
      ∃ more, wr_Children r = rs ++ more ∧ Forall (λ x, ¬ completed x) more
  | None =>
      (Forall completed rs ∧ r = mkReport name StatusCompleted None "" rs) ∨
      ∃ rs' x, rs = rs' ++ [x] ∧ ¬ Forall completed rs ∧ wr_Name r = name ∧ wr_Children r = rs ∧
        match policy with
        | StopOnFailure => wr_Status r = wr_Status x ∧ wr_Err r = wr_Err x ∧ wr_Reason r = wr_Reason x
        | ContinueOnFailure => wr_Status r = StatusPartial ∨ (halts policy x = true ∧ wr_Status r = wr_Status x)
        end
  end.
(** A work that always reports, from states of an invariant. *)
Definition returns {S} (I : S → Prop) (w : Work S) : Prop :=
  ∀ c s, I s → ∃ r c' s', w c s = (Val r, c', s') ∧ I s' ∧ wr_Status r ∈ StatusCompleted :: failures.
Class WorkflowLaws (S : Type) `{WorkflowLib S} : Prop := {
  sequential_run (I : S → Prop) name policy ws c s :
    I s → Forall (returns I) ws → ∃ r rs cut c' s', Sequential name policy ws c s = (Val r, c', s') ∧
      works_run policy ws c s rs cut c' s' ∧ sums_up name policy rs cut r;
  (** under a context that has ended no work starts *)
  sequential_done name policy w ws c s e :
    ctx_poll c = (Some e, c) → ∃ r, Sequential name policy (w :: ws) c s = (Val r, c, s) ∧ sums_up name policy [] (Some e) r
}.

(** ** Sequences that stop *)

(** The report of a single completed work. *)
Definition plain (r : Report) : Prop := r = mkReport (wr_Name r) StatusCompleted None "" [].
Lemma plain_completed r : plain r → completed r.
Proof. unfold plain, completed. by intros ->. Qed.
Lemma plain_all rs : Forall plain rs → Forall completed rs.
Proof. intros H. eapply List.Forall_impl; [|exact H]. apply plain_completed. Qed.
(** A work that takes [P] to [Q] when it completes, and otherwise keeps [P], with an error. *)
Definition work_step {S} (name : string) (P Q : S → Prop) (w : Work S) : Prop :=
  ∀ c s, P s → ∃ r c' s', w c s = (Val r, c', s') ∧ wr_Name r = name ∧
    ((plain r ∧ Q s') ∨ (wr_Status r ∈ [StatusFailed; StatusCancelled] ∧ is_Some (wr_Err r) ∧ P s')).
(** How far a sequence came: all works completed, or one of them was not, or the context ended. *)
Inductive progress (names : list string) (n : nat) (rs : list Report) : option GoError → Prop :=
  | progress_all : n = length names → map wr_Name rs = names → Forall plain rs → progress names n rs None
  | progress_halt rs' r : (n < length names)%nat → rs = rs' ++ [r] → map wr_Name rs = take (Datatypes.S n) names → Forall plain rs' →
      wr_Status r ∈ [StatusFailed; StatusCancelled] → is_Some (wr_Err r) → progress names n rs None
  | progress_cut e : (n < length names)%nat → map wr_Name rs = take n names → Forall plain rs → progress names n rs (Some e).
Lemma progress_cons name names n r rs cut :
  wr_Name r = name → plain r → progress names n rs cut → progress (name :: names) (Datatypes.S n) (r :: rs) cut.
Proof.
  intros Hn Hr [Hl Hm Hf|rs' x Hl -> Hm Hf Hs He|e Hl Hm Hf].
  - apply progress_all; [cbn; lia|cbn; by rewrite Hn, Hm|by constructor].
  - eapply (progress_halt _ _ _ (r :: rs') x); [cbn; lia|done| |by constructor|done..].
    cbn [map take app]. rewrite Hn. f_equal. exact Hm.
  - apply progress_cut; [cbn; lia|cbn; by rewrite Hn, Hm|by constructor].
Qed.
Lemma works_progress {S} (P : nat → S → Prop) names ws k c s rs cut c' s' :
  length names = length ws →
  (∀ i name w, names !! i = Some name → ws !! i = Some w → work_step name (P (k + i)%nat) (P (Datatypes.S (k + i))) w) → P k s →
  works_run StopOnFailure ws c s rs cut c' s' → ∃ n, P (k + n)%nat s' ∧ progress names n rs cut.
Proof.
  intros Hlen Hw Hk H. revert names k Hlen Hw Hk.
  induction H as [c s|w ws c s e c' Hc|w ws c s c1 r c2 s2 _ Hrun Hh|w ws c s c1 r c2 s2 rs e c3 s3 _ Hrun Hh _ IH];
    intros names k Hlen Hw Hk; (destruct names as [|name names]; [try done|try done]).
  - exists 0%nat. rewrite Nat.add_0_r. split; [done|by apply progress_all].
  - exists 0%nat. rewrite Nat.add_0_r. split; [done|]. apply progress_cut; [cbn; lia|done..].
  - specialize (Hw 0%nat name w eq_refl eq_refl). rewrite Nat.add_0_r in Hw. destruct (Hw c1 s Hk) as (r' & c'' & s'' & E & Hn & H).
    rewrite Hrun in E. injection E as <- <- <-. destruct H as [[Hr _]|(Hs & He & Hp)].
    + exfalso. revert Hh. unfold plain in Hr. by rewrite Hr.
    + exists 0%nat. rewrite Nat.add_0_r. split; [done|].
      eapply (progress_halt _ _ _ [] r); [cbn; lia|done|cbn; by rewrite Hn|done..].
  - pose proof (Hw 0%nat name w eq_refl eq_refl) as H0. rewrite Nat.add_0_r in H0.
    destruct (H0 c1 s Hk) as (r' & c'' & s'' & E & Hn & H). rewrite Hrun in E. injection E as <- <- <-. destruct H as [[Hr Hq]|(Hs & _)].
    + destruct (IH names (Datatypes.S k)) as (n & Hn' & Hp).
      { by injection Hlen. }
      { intros i x y Hx Hy. specialize (Hw (Datatypes.S i) x y Hx Hy). by rewrite Nat.add_succ_r in Hw. }
      { done. }
      exists (Datatypes.S n). rewrite Nat.add_succ_r. split; [done|]. by apply progress_cons.
    + exfalso. revert Hh. unfold halts. rewrite !elem_of_cons, elem_of_nil in Hs. by destruct Hs as [-> | [-> | []]].
Qed.
(** A live context never cuts a sequence. *)
Lemma looks_live c c' : ctx_polls c = None → looks c c' → c' = c.
Proof. intros Hc [->|H]; [done|]. unfold ctx_poll in H. rewrite Hc in H. by injection H as <-. Qed.

(** A work that leaves a live context as it is. *)
Definition keeps_live {S} (I : S → Prop) (w : Work S) : Prop :=
  ∀ c s r c' s', I s → ctx_polls c = None → w c s = (Val r, c', s') → c' = c ∧ I s'.
Lemma works_live {S} (I : S → Prop) policy ws c s rs cut c' s' :
  Forall (keeps_live I) ws → I s → ctx_polls c = None → works_run policy ws c s rs cut c' s' → c' = c.
Proof.
  intros Hw Hi Hc H. induction H as [c s|w ws c s e c' Hp|w ws c s c1 r c2 s2 Hl Hr _|w ws c s c1 r c2 s2 rs e c3 s3 Hl Hr _ _ IH]; [done|..].
  - unfold ctx_poll in Hp. by rewrite Hc in Hp.
  - apply Forall_cons in Hw as [Hw _]. apply looks_live in Hl as ->; [|done]. by eapply Hw in Hr as [-> _].
  - apply Forall_cons in Hw as [Hw Hws]. apply looks_live in Hl as ->; [|done]. eapply Hw in Hr as [-> Hi2]; [|done..]. by apply IH.
Qed.

(** ** Works of the examples *)

Section Works.
Context `{RL : ReportLib} {S : Type}.
(** [if err := ctx.Err(); err != nil { return workreport.Cancelled(name, err) }] *)
Definition unless_done (name : string) (k : Work S) : Work S := settle ctxErr (λ err, ret (Cancelled name err)) (λ _, k).

Context `{RW : !ReportLaws}.
Definition stopped (r : Report) : Prop := wr_Status r ∈ [StatusFailed; StatusCancelled] ∧ is_Some (wr_Err r).
Lemma stopped_not_completed r : stopped r → ¬ completed r.
Proof. unfold completed. intros [H _] E. rewrite E, !elem_of_cons, elem_of_nil in H. by destruct H as [|[|[]]]. Qed.
Lemma failed_step name err : wr_Name (Failed name err) = name ∧ stopped (Failed name err).
Proof. rewrite failed_report. cbn. split; [done|]. split; [left|by eexists]. Qed.
Lemma cancelled_step name err : wr_Name (Cancelled name err) = name ∧ stopped (Cancelled name err).
Proof. rewrite cancelled_report. cbn. split; [done|]. split; [right; left|by eexists]. Qed.
Lemma completed_step name : wr_Name (Completed name) = name ∧ plain (Completed name).
Proof. rewrite completed_report. by split. Qed.
Lemma unless_done_step {P Q : S → Prop} {name k} : work_step name P Q k → work_step name P Q (unless_done name k).
Proof.
  intros Hk c s Hs. unfold unless_done, settle, ctxErr. destruct (ctx_poll c) as [[e|] c1]; [|by apply Hk].
  do 3 eexists. split; [done|]. destruct (cancelled_step name e) as (Hn & Hc & He). split; [done|]. by right.
Qed.
Lemma refused_step {P Q : S → Prop} {name err} : work_step name P Q (ret (Failed name err)).
Proof. intros c s Hs. do 3 eexists. split; [done|]. destruct (failed_step name err) as (Hn & Hc & He). split; [done|]. by right. Qed.
Lemma done_step {P Q : S → Prop} {name} : (∀ s, P s → Q s) → work_step name P Q (ret (Completed name)).
Proof. intros H c s Hs. do 3 eexists. split; [done|]. destruct (completed_step name) as [Hn Hp]. split; [done|]. left. by auto. Qed.

Context {I : S → Prop}.
Lemma unless_done_returns name k : returns I k → returns I (unless_done name k).
Proof.
  intros Hk c s Hs. unfold unless_done, settle, ctxErr. destruct (ctx_poll c) as [[e|] c1]; [|by apply Hk].
  do 3 eexists. split; [done|]. split; [done|]. rewrite cancelled_report. cbn. set_solver.
Qed.
Lemma ret_returns r : wr_Status r ∈ StatusCompleted :: failures → returns I (ret r).
Proof. intros Hr c s Hs. do 3 eexists. by split. Qed.
Lemma failed_returns name err : returns I (ret (Failed name err)).
Proof. apply ret_returns. rewrite failed_report. cbn. set_solver. Qed.
Lemma completed_returns name : returns I (ret (Completed name)).
Proof. apply ret_returns. rewrite completed_report. cbn. set_solver. Qed.
Lemma get_returns k : (∀ r, returns I (k r)) → returns I (let! r := get in k r).
Proof. intros Hk c s Hs. by apply Hk. Qed.
Lemma modify_returns f k : (∀ r, I r → I (f r)) → returns I k → returns I (do! modify f; k).
Proof. intros Hf Hk c s Hs. apply Hk. by apply Hf. Qed.
Lemma on_context_returns f k : returns I k → returns I (do! (λ c s, (Val tt, f c s, s)); k).
Proof. intros Hk c s Hs. by apply Hk. Qed.
Lemma bind_returns w (k : Report → Work S) :
  returns I w → (∀ r, wr_Status r ∈ StatusCompleted :: failures → returns I (k r)) → returns I (bind w k).
Proof. intros Hw Hk c s Hs. destruct (Hw c s Hs) as (r & c' & s' & E & Hs' & Hr). unfold bind. rewrite E. by apply Hk. Qed.
End Works.
(** Goes through the body of a work; [other] is for what it calls. *)
Ltac returning other :=
  lazymatch goal with
  | |- returns _ (unless_done _ _) => apply unless_done_returns; returning other
  | |- returns _ (bind get _) => apply get_returns; intros ?; returning other
  | |- returns _ (bind (modify _) _) => apply modify_returns; [done|returning other]
  | |- returns _ (bind (λ c s, _) _) => apply on_context_returns; returning other
  | |- returns _ (bind _ _) => apply bind_returns; [returning other|intros ? ?; returning other]
  | |- returns _ (ret (Failed _ _)) => apply failed_returns
  | |- returns _ (ret (Completed _)) => apply completed_returns
  | |- returns _ (ret _) => by apply ret_returns
  | |- returns _ (if ?b then _ else _) => destruct b; returning other
  | |- _ => other
  end.

(** ** Sequences that go on *)

(** What a report says of an undoing: it was done, or it failed and says so. *)
Definition reports_undo (name : string) (fails : bool) (r : Report) : Prop :=
  wr_Name r = name ∧ (if fails then wr_Status r = StatusFailed else completed r).
Section Undoing.
Context {S X : Type} (w : X → Work S) (undo : S → X → S) (name_of : X → string) (fails : X → bool) (I : S → Prop).
(** A work either finds the context ended or undoes something, which may fail. *)
Definition undoes (x : X) : Prop := ∀ c s, I s → I (undo s x) ∧
  ∃ rep c', wr_Name rep = name_of x ∧
    ((w x c s = (Val rep, c', undo s x) ∧ reports_undo (name_of x) (fails x) rep ∧ (ctx_polls c = None → c' = c)) ∨
     (w x c s = (Val rep, c', s) ∧ wr_Status rep = StatusCancelled ∧ ctx_polls c ≠ None)).
Lemma unless_done_undoes `{RL : ReportLib} `{RW : !ReportLaws} x k err :
  w x = unless_done (name_of x) k →
  (∀ c s, I s → I (undo s x) ∧ k c s = (Val (if fails x then Failed (name_of x) err else Completed (name_of x)), c, undo s x)) → undoes x.
Proof.
  intros Hw Hk c s Hs. rewrite Hw. destruct (Hk c s Hs) as [Hi Ek]. split; [done|]. unfold unless_done, settle, ctxErr.
  destruct (ctx_poll c) as [[e|] c1] eqn:Ec.
  - exists (Cancelled (name_of x) e), c1. destruct (cancelled_step (name_of x) e) as (Hn & _). split; [done|]. right.
    split; [done|]. rewrite cancelled_report. split; [done|]. intros Hc. unfold ctx_poll in Ec. by rewrite Hc in Ec.
  - destruct (Hk c1 s Hs) as [_ ->]. exists (if fails x then Failed (name_of x) err else Completed (name_of x)), c1.
    split; [by destruct (fails x); [rewrite failed_report|rewrite completed_report]|]. left. split; [done|].
    split; [|intros Hc; unfold ctx_poll in Ec; rewrite Hc in Ec; by injection Ec as <-].
    unfold reports_undo. destruct (fails x); [rewrite failed_report|rewrite completed_report]; done.
Qed.
Lemma undo_not_halting x rep : reports_undo (name_of x) (fails x) rep → halts ContinueOnFailure rep = false.
Proof. unfold reports_undo, completed, halts. intros [_ H]. by destruct (fails x); rewrite H. Qed.
(** The works that came before the context ended have undone what they could, and the reports say which. *)
Lemma works_undo xs c s rs cut c' s' :
  (∀ x, undoes x) → I s → works_run ContinueOnFailure (map w xs) c s rs cut c' s' →
  ∃ k rs1 rs2, (k <= length xs)%nat ∧ s' = foldl undo s (take k xs) ∧ rs = rs1 ++ rs2 ∧
    Forall2 (λ x r, reports_undo (name_of x) (fails x) r) (take k xs) rs1 ∧ Forall (λ r, ¬ completed r) rs2 ∧
    (ctx_polls c = None → k = length xs).
Proof.
  intros Hw. revert c s rs. induction xs as [|x xs IH]; intros c s rs Hi H; cbn [map] in *;
    inversion H as [|? ? ? ? e ? Hp|? ? ? ? c1 rep c2 s2 Hl Hr Hh|? ? ? ? c1 rep c2 s2 rs' ? ? ? Hl Hr Hh Hrest]; subst.
  - exists 0%nat, [], []. by repeat split.
  - exists 0%nat, [], []. split; [lia|]. do 4 (split; [done|]). intros Hc. unfold ctx_poll in Hp. by rewrite Hc in Hp.
  - exists 0%nat, [], [rep]. destruct (Hw x c1 s Hi) as (_ & rep' & c'' & _ & [(E & Hu & _)|(E & Hs & Hc)]); rewrite Hr in E; injection E as <- -> ->.
    + by rewrite (undo_not_halting _ _ Hu) in Hh.
    + split; [lia|]. do 3 (split; [done|]). split; [|intros Hc'; apply looks_live in Hl as ->; done].
      constructor; [|done]. unfold completed. by rewrite Hs.
  - destruct (Hw x c1 s Hi) as (Hi' & rep' & c'' & Hn & [(E & Hu & Hlive)|(E & Hs & Hc)]); rewrite Hr in E; injection E as <- -> ->.
    + destruct (IH c'' (undo s x) rs' Hi' Hrest) as (k & rs1 & rs2 & Hk & -> & -> & Hf & Hf2 & Hall).
      exists (Datatypes.S k), (rep :: rs1), rs2. cbn [length take foldl]. split; [lia|]. do 2 (split; [done|]). split; [by constructor|]. split; [done|].
      intros Hc. pose proof (looks_live _ _ Hc Hl) as ->. f_equal. apply Hall. by rewrite (Hlive Hc).
    + revert Hh. unfold halts. by rewrite Hs.
Qed.
End Undoing.

(** ** An implementation *)

Definition aggregate (name : string) (policy : FailurePolicy) (rs : list Report) : Report :=
  match list_find (λ r, ¬ completed r) rs with
  | None => mkReport name StatusCompleted None "" rs
  | Some (i, r) =>
      match policy with
      | StopOnFailure => mkReport name (wr_Status r) (wr_Err r) (wr_Reason r) (take (Datatypes.S i) rs)
      | ContinueOnFailure => mkReport name StatusPartial None "" rs
      end
  end.
Definition plain_reports : ReportLib := {|
  Completed name := mkReport name StatusCompleted None "" [];
  Failed name e := mkReport name StatusFailed (Some e) "" [];
  Cancelled name e := mkReport name StatusCancelled (Some e) "" [];
  Aborted name reason := mkReport name StatusAborted None reason [];
  IsSuccess r := bool_decide (wr_Status r = StatusCompleted);
  IsFailure r := bool_decide (wr_Status r ∈ failures);
  IsPartial r := bool_decide (wr_Status r = StatusPartial);
  IsCancelled r := bool_decide (wr_Status r = StatusCancelled);
  IsTerminal r := bool_decide (wr_Status r ∈ StatusCompleted :: failures);
  Aggregate name policy rs := inr (aggregate name policy rs)
|}.
Lemma find_none rs : Forall completed rs → list_find (λ r, ¬ completed r) rs = None.
Proof. induction 1 as [|r rs Hr _ IH]; [done|]. cbn. rewrite decide_False by tauto. by rewrite IH. Qed.
Lemma find_failure rs r rest :
  Forall completed rs → ¬ completed r → list_find (λ r, ¬ completed r) (rs ++ r :: rest) = Some (length rs, r).
Proof.
  intros H Hr. induction H as [|x rs Hx _ IH]; cbn; [by rewrite decide_True|]. rewrite decide_False by tauto. by rewrite IH.
Qed.
Lemma first_failure rs : ¬ Forall completed rs → ∃ rs1 r rs2, rs = rs1 ++ r :: rs2 ∧ Forall completed rs1 ∧ ¬ completed r.
Proof.
  induction rs as [|r rs IH]; intros H; [by destruct H|]. destruct (decide (completed r)) as [Hr|Hr].
  - destruct IH as (rs1 & x & rs2 & -> & H1 & Hx); [intros ?; apply H; by constructor|].
    exists (r :: rs1), x, rs2. split; [done|]. split; [by constructor|done].
  - by exists [], r, rs.
Qed.
#[export] Instance plain_report_laws : ReportLaws (H := plain_reports).
Proof.
  split; try done; intros name; cbn; unfold aggregate.
  - intros policy rs H. by rewrite find_none.
  - intros rs r rest H Hr. rewrite find_failure by done. do 2 f_equal.
    change (r :: rest) with ([r] ++ rest). rewrite app_assoc, take_app_length'; [done|]. rewrite length_app. cbn. lia.
  - intros rs (rs1 & r & rs2 & -> & H1 & Hr)%first_failure. exists None, "". by rewrite find_failure.
Qed.

Section Sequence.
Context {S : Type}.
Fixpoint run_works (policy : FailurePolicy) (ws : list (Work S)) : GoM S (list Report * option GoError) :=
  match ws with
  | [] => ret ([], None)
  | w :: ws => λ c s,
      match ctx_poll c with
      | (Some e, c') => (Val ([], Some e), c', s)
      | (None, c') =>
          (let! r := w in
           if halts policy r then ret ([r], None)
           else let! rest := run_works policy ws in ret (r :: rest.1, rest.2)) c' s
      end
  end.
Definition plain_workflow : WorkflowLib S := λ name policy ws,
  let! res := run_works policy ws in
  ret (match res.2 with
       | Some e => mkReport name StatusCancelled (Some e) "" res.1
       | None => aggregate name policy res.1
       end).
Lemma run_works_run (I : S → Prop) policy ws c s :
  I s → Forall (returns I) ws → ∃ rs cut c' s', run_works policy ws c s = (Val (rs, cut), c', s') ∧ works_run policy ws c s rs cut c' s' ∧
    (cut = None → ∀ rs1 r rs2, rs = rs1 ++ r :: rs2 → halts policy r = true → rs2 = []) ∧
    Forall (λ r, wr_Status r ∈ StatusCompleted :: failures) rs.
Proof.
  intros Hi H. revert c s Hi. induction H as [|w ws Hw _ IH]; intros c s Hi; cbn [run_works].
  { exists [], None, c, s. split; [done|]. split; [constructor|]. split; [|done]. intros _ [|] ?; done. }
  destruct (ctx_poll c) as [[e|] c1] eqn:Ec.
  { exists [], (Some e), c1, s. split; [done|]. split; [by constructor|]. by split. }
  unfold bind. destruct (Hw c1 s Hi) as (r & c2 & s2 & E & Hi2 & Hst). rewrite E. destruct (halts policy r) eqn:Eh.
  { exists [r], None, c2, s2. split; [done|]. split; [eapply run_halt; [by right|done..]|]. split; [|by constructor].
    intros _ [|? [|]] ? ?; by intros [= -> ->] || done. }
  destruct (IH c2 s2 Hi2) as (rs & cut & c' & s' & E' & Hr & Hn & Hf). rewrite E'. exists (r :: rs), cut, c', s'. split; [done|].
  split; [eapply run_on; [by right|done..]|]. split; [|by constructor].
  intros Hc [|x rs1] r' rs2; cbn; intros [= -> ->] Hh; [congruence|by eapply Hn].
Qed.
#[export] Instance plain_workflow_laws : WorkflowLaws S (H := plain_workflow).
Proof.
  split.
  - intros I name policy ws c s Hi Hw. destruct (run_works_run I policy ws c s Hi Hw) as (rs & cut & c' & s' & E & Hr & Hn & Hf).
    unfold Sequential, plain_workflow, bind, ret. rewrite E. cbn. do 5 eexists. split; [done|]. split; [done|].
    destruct cut as [e|]; cbn.
    { repeat (split; [done|]). exists []. by rewrite app_nil_r. }
    destruct (decide (Forall completed rs)) as [Hc|Hc]; [left; split; [done|]; unfold aggregate; by rewrite find_none|right].
    destruct (first_failure _ Hc) as (rs1 & r & rs2 & -> & H1 & Hnr).
    assert (aggregate name policy (rs1 ++ r :: rs2) = match policy with
      | StopOnFailure => mkReport name (wr_Status r) (wr_Err r) (wr_Reason r) (rs1 ++ [r])
      | ContinueOnFailure => mkReport name StatusPartial None "" (rs1 ++ r :: rs2) end) as ->.
    { unfold aggregate. rewrite find_failure by done. destruct policy; [|done]. f_equal. change (r :: rs2) with ([r] ++ rs2).
      rewrite app_assoc, take_app_length'; [done|]. rewrite length_app. cbn. lia. }
    destruct policy.
    + assert (rs2 = []) as ->.
      { eapply Hn; [done..|]. apply Forall_app in Hf as [_ [Hs _]%Forall_cons]. unfold halts, completed, failures in *.
        rewrite !elem_of_cons in Hs. destruct_or! Hs; [done|rewrite Hs; by vm_compute..|by apply elem_of_nil in Hs]. }
      by exists rs1, r.
    + destruct (exists_last (l := rs1 ++ r :: rs2)) as (rs' & x & E'); [by destruct rs1|]. exists rs', x.
      split; [done|]. split; [done|]. split; [done|]. split; [done|]. by left.
  - intros name policy w ws c s e Hc. unfold Sequential, plain_workflow, bind, ret. cbn. rewrite Hc. cbn. eexists. split; [done|].
    cbn. repeat (split; [done|]). by exists [].
Qed.
End Sequence.
