(* ===== verification/ReportTree.v ===== *)
(** What the report examples do with a report, with the same code in each of them: its first error, a parent
    of finished reports, its projection without times, and the counts of its tree. *)
From Stdlib Require Import Ascii String.
From S2P Require Import Prelude WorkReport.

Inductive reportNode := mkNode {
  nd_Name : string; nd_Status : Status; nd_Error : string; nd_Reason : string;
  nd_Success : bool; nd_Failure : bool; nd_Partial : bool; nd_Cancelled : bool; nd_Children : list reportNode
}.
Record summaryDTO := mkSummary {
  sm_Completed : Z; sm_Failed : Z; sm_Partial : Z; sm_Aborted : Z; sm_Cancelled : Z; sm_Total : Z;
  sm_Terminal : bool; sm_Success : bool; sm_Failure : bool
}.
Record errorResponse := mkErrorResponse { ep_Code : string; ep_Error : string }.

(** The error of the report, or else of the first descendant that has one, depth first. *)
Fixpoint firstError (report : Report) : option GoError :=
  match wr_Err report with
  | Some err => Some err
  | None =>
      (fix first (children : list Report) : option GoError :=
         match children with
         | [] => None
         | child :: children => match firstError child with Some err => Some err | None => first children end
         end) (wr_Children report)
  end.
Definition parentReport (name : string) (status : Status) (err : option GoError) (reason : string) (children : list Report) : Report :=
  mkReport name status err reason children.

Fixpoint walkReports {A} (report : Report) (visit : Report → A → A) (acc : A) : A :=
  fold_left (λ acc child, walkReports child visit acc) (wr_Children report) (visit report acc).

Section Projection.
Context `{GU : GoUnicode} `{RL : ReportLib}.

Fixpoint projectReport (report : Report) : reportNode :=
  mkNode (wr_Name report) (wr_Status report) (match wr_Err report with Some err => Error err | None => "" end) (wr_Reason report)
    (IsSuccess report) (IsFailure report) (IsPartial report) (IsCancelled report) (map projectReport (wr_Children report)).

Definition count_report (current : Report) (s : summaryDTO) : summaryDTO :=
  let total := int_incr (sm_Total s) in
  let st := wr_Status current in
  let upd c f p a x := mkSummary c f p a x total (sm_Terminal s) (sm_Success s) (sm_Failure s) in
  let '(c, f, p, a, x) := (sm_Completed s, sm_Failed s, sm_Partial s, sm_Aborted s, sm_Cancelled s) in
  if bool_decide (st = StatusCompleted) then upd (int_incr c) f p a x
  else if bool_decide (st = StatusFailed) then upd c (int_incr f) p a x
  else if bool_decide (st = StatusPartial) then upd c f (int_incr p) a x
  else if bool_decide (st = StatusAborted) then upd c f p (int_incr a) x
  else if bool_decide (st = StatusCancelled) then upd c f p a (int_incr x)
  else upd c f p a x.
Definition summarizeReport (report : Report) : summaryDTO :=
  walkReports report count_report (mkSummary 0 0 0 0 0 0 (IsTerminal report) (IsSuccess report) (IsFailure report)).
End Projection.

(** ** The nodes of a tree *)

Lemma report_ind' (P : Report → Prop) :
  (∀ name status err reason children, Forall P children → P (mkReport name status err reason children)) → ∀ r, P r.
Proof. intros H. fix IH 1. intros [name status err reason children]. apply H. by induction children; constructor. Qed.
Fixpoint nodes (r : Report) : list Report := r :: concat (map nodes (wr_Children r)).
Lemma walk_nodes {A} (visit : Report → A → A) r acc :
  walkReports r visit acc = fold_left (λ acc x, visit x acc) (nodes r) acc.
Proof.
  revert acc. induction r as [name status err reason children IH] using report_ind'. intros acc. cbn [walkReports nodes wr_Children fold_left].
  generalize (visit (mkReport name status err reason children) acc). induction IH as [|x children Hx _ IHc]; intros a; [done|].
  cbn [fold_left map concat]. rewrite Hx, fold_left_app. apply IHc.
Qed.
Lemma firstError_some rep err : wr_Err rep = Some err → firstError rep = Some err.
Proof. destruct rep as [name st e reason children]. cbn. by intros ->. Qed.
Lemma firstError_plain name st reason rs : Forall plain rs → firstError (mkReport name st None reason rs) = None.
Proof. intros H. cbn. induction H as [|r rs Hr _ IH]; [done|]. by rewrite Hr. Qed.
Fixpoint node_list (n : reportNode) : list reportNode := n :: concat (map node_list (nd_Children n)).
Definition status_count (st : Status) (rs : list Report) : Z := len (filter (λ r, wr_Status r = st) rs).
Lemma status_count_cons st r rs : status_count st (r :: rs) = (if bool_decide (wr_Status r = st) then 1 else 0) + status_count st rs.
Proof. unfold status_count, len. rewrite filter_cons. case_decide; case_bool_decide; try done; cbn [length]; lia. Qed.

(** The counts of a step agree: the tests of a known status are evaluated. *)
Ltac by_status :=
  repeat match goal with |- context [bool_decide ?P] =>
    first [rewrite (bool_decide_eq_false_2 P) by done|rewrite (bool_decide_eq_true_2 P) by done] end;
  f_equal; f_equal; lia.

Section Facts.
Context `{GU : GoUnicode} `{RL : ReportLib}.
(** The projection has the nodes of the report, in its order. *)
Lemma project_nodes r : map nd_Status (node_list (projectReport r)) = map wr_Status (nodes r).
Proof.
  induction r as [name status err reason children IH] using report_ind'. cbn. f_equal. induction IH as [|x children Hx _ IHc]; [done|].
  cbn. by rewrite !map_app, Hx, IHc.
Qed.
Lemma count_nodes rs c f p a x n t s fl :
  fold_left (λ acc r, count_report r acc) rs
    (mkSummary (wrap64 c) (wrap64 f) (wrap64 p) (wrap64 a) (wrap64 x) (wrap64 n) t s fl) =
  mkSummary (wrap64 (c + status_count StatusCompleted rs)) (wrap64 (f + status_count StatusFailed rs))
    (wrap64 (p + status_count StatusPartial rs)) (wrap64 (a + status_count StatusAborted rs))
    (wrap64 (x + status_count StatusCancelled rs)) (wrap64 (n + len rs)) t s fl.
Proof.
  revert c f p a x n. induction rs as [|r rs IH]; intros c f p a x n; cbn [fold_left].
  { unfold status_count, len. cbn. by rewrite !Z.add_0_r. }
  rewrite !status_count_cons. replace (len (r :: rs)) with (1 + len rs) by (unfold len; cbn [length]; lia).
  unfold count_report at 2. cbn -[fold_left count_report status_count wrap64]. rewrite !int_incr_wrap.
  repeat (let E := fresh in case_bool_decide as E; [rewrite IH, ?E; by_status|]). rewrite IH. by_status.
Qed.
Lemma summarize_counts r :
  summarizeReport r = mkSummary (wrap64 (status_count StatusCompleted (nodes r))) (wrap64 (status_count StatusFailed (nodes r)))
    (wrap64 (status_count StatusPartial (nodes r))) (wrap64 (status_count StatusAborted (nodes r)))
    (wrap64 (status_count StatusCancelled (nodes r))) (wrap64 (len (nodes r))) (IsTerminal r) (IsSuccess r) (IsFailure r).
Proof. unfold summarizeReport. rewrite walk_nodes. change 0 with (wrap64 0). by rewrite count_nodes. Qed.
Lemma project_count st r : len (filter (λ n, nd_Status n = st) (node_list (projectReport r))) = status_count st (nodes r).
Proof.
  unfold status_count, len. f_equal. pose proof (project_nodes r) as H. revert H. generalize (node_list (projectReport r)) (nodes r).
  intros ns rs. revert rs. induction ns as [|n ns IH]; intros [|x rs]; cbn [map]; try done. intros [= Hx H].
  rewrite !filter_cons, Hx. case_decide; cbn [length]; by rewrite (IH rs H).
Qed.
Lemma project_len r : len (node_list (projectReport r)) = len (nodes r).
Proof. unfold len. rewrite <- (length_map nd_Status), project_nodes. by rewrite length_map. Qed.

(** The summary of a report counts the tree that is shown with it: the nodes of the projection, in its
    order, carry the statuses of the report's tree, and the six counters are the numbers of its nodes, in
    all and with each status, as 64-bit integers. *)
Theorem summary_counts_shown_tree (report : Report) :
  let shown := node_list (projectReport report) in
  let count st := wrap64 (len (filter (λ n, nd_Status n = st) shown)) in
  let s := summarizeReport report in
  map nd_Status shown = map wr_Status (nodes report) ∧ sm_Total s = wrap64 (len shown) ∧
  sm_Completed s = count StatusCompleted ∧ sm_Failed s = count StatusFailed ∧ sm_Partial s = count StatusPartial ∧
  sm_Aborted s = count StatusAborted ∧ sm_Cancelled s = count StatusCancelled.
Proof. cbn zeta. rewrite summarize_counts, project_nodes, !project_count, project_len. by repeat split. Qed.
End Facts.
