(* ===== verification/OrderFulfillment.v ===== *)
(** examples/order-fulfillment-integration/internal/orderfulfillment: one order fulfilled by a request, with a
    state machine for its lifecycle, works in sequence, and compensations of what a failed run has done. The
    state, workflow and workreport packages are parameters. *)
From Stdlib Require Import Ascii String.
From S2P Require Import Prelude StateMachine WorkReport ReportTree.

Abbreviation OrderState := string (only parsing).
Definition StateDraft : OrderState := "draft".
Definition StateSubmitted : OrderState := "submitted".
Definition StatePaid : OrderState := "paid".
Definition StatePacked : OrderState := "packed".
Definition StateShipped : OrderState := "shipped".
Definition StateCancelled : OrderState := "cancelled".
Abbreviation OrderEvent := string (only parsing).
Definition EventSubmit : OrderEvent := "submit".
Definition EventPay : OrderEvent := "pay".
Definition EventPack : OrderEvent := "pack".
Definition EventShip : OrderEvent := "ship".
Definition EventCancel : OrderEvent := "cancel".

Definition ErrInventoryUnavailable : GoError := Sentinel "orderfulfillment.ErrInventoryUnavailable" "inventory is unavailable".
Definition ErrPaymentDeclined : GoError := Sentinel "orderfulfillment.ErrPaymentDeclined" "payment authorization declined".
Definition ErrShipmentProviderUnavailable : GoError :=
  Sentinel "orderfulfillment.ErrShipmentProviderUnavailable" "shipment provider is unavailable".
Definition ErrPaymentVoidFailed : GoError := Sentinel "orderfulfillment.ErrPaymentVoidFailed" "payment void failed".
Definition ErrInventoryReleaseFailed : GoError := Sentinel "orderfulfillment.ErrInventoryReleaseFailed" "inventory release failed".
Definition errInvalidOrderID : GoError := Sentinel "orderfulfillment.errInvalidOrderID" "order_id is required".
Definition errInvalidTotal : GoError := Sentinel "orderfulfillment.errInvalidTotal" "total_cents must be positive".

(** ** Data *)

Record FulfillmentRequest := mkRequest {
  fq_OrderID : string; fq_TotalCents : Z; fq_StockAvailable : bool; fq_PaymentAuthorized : bool;
  fq_ShipmentProviderAvailable : bool; fq_ForceInvalidTransition : bool; fq_VoidPaymentFails : bool;
  fq_ReleaseInventoryFails : bool
}.
Record effectsDTO := mkEffects { ef_InventoryReserved : bool; ef_PaymentAuthorized : bool; ef_ShipmentCreated : bool }.
Record fulfillmentResponse := mkResponse {
  fp_OrderID : string; fp_State : OrderState; fp_StateHistory : list OrderState; fp_Completed : bool;
  fp_Compensated : bool; fp_OriginalError : string; fp_Effects : effectsDTO; fp_Summary : summaryDTO; fp_Report : reportNode
}.
(** The methods a run registers to undo its works. *)
Inductive Compensation := ReleaseInventory | VoidPayment.

Definition transitions : list TransitionSpec :=
  [mkTransition StateDraft EventSubmit StateSubmitted None;
   mkTransition StateSubmitted EventPay StatePaid None;
   mkTransition StatePaid EventPack StatePacked None;
   mkTransition StatePacked EventShip StateShipped None;
   mkTransition StateDraft EventCancel StateCancelled None;
   mkTransition StateSubmitted EventCancel StateCancelled None;
   mkTransition StatePaid EventCancel StateCancelled None;
   mkTransition StatePacked EventCancel StateCancelled None].
Definition finalStates : list OrderState := [StateShipped; StateCancelled].

Definition validateRequest (request : FulfillmentRequest) : option GoError :=
  if bool_decide (fq_OrderID request = "") then Some errInvalidOrderID
  else if fq_TotalCents request <=? 0 then Some errInvalidTotal
  else None.

(** [afterReserve] is a hook that can do to a run only what it does to its context. *)
Record orderRun `{StateTypes} := mkRun {
  ru_request : FulfillmentRequest; ru_machine : Machine; ru_history : list OrderState;
  ru_inventoryReserved : bool; ru_paymentAuthorized : bool; ru_shipmentCreated : bool;
  ru_compensations : list Compensation; ru_afterReserve : Ptr (Ctx → Ctx)
}.
#[global] Arguments mkRun {_}.
#[global] Arguments ru_request {_}.
#[global] Arguments ru_machine {_}.
#[global] Arguments ru_history {_}.
#[global] Arguments ru_inventoryReserved {_}.
#[global] Arguments ru_paymentAuthorized {_}.
#[global] Arguments ru_shipmentCreated {_}.
#[global] Arguments ru_compensations {_}.
#[global] Arguments ru_afterReserve {_}.

Section Run.
Context `{GU : GoUnicode} `{ST : StateTypes} `{SL : !StateLib} `{RL : ReportLib} `{WL : !WorkflowLib orderRun}.

Definition newOrderRun (request : FulfillmentRequest) : GoError + orderRun :=
  try! machine := wrapping (λ e, Errorf "create order state machine: %w" [e] []) (NewMachine StateDraft transitions finalStates) in
  inr (mkRun request machine [StateDraft] false false false [] None).

Definition with_machine (m : Machine) (r : orderRun) : orderRun :=
  mkRun (ru_request r) m (ru_history r) (ru_inventoryReserved r) (ru_paymentAuthorized r) (ru_shipmentCreated r)
    (ru_compensations r) (ru_afterReserve r).
Definition with_effects (inventory payment shipment : bool) (r : orderRun) : orderRun :=
  mkRun (ru_request r) (ru_machine r) (ru_history r) inventory payment shipment (ru_compensations r) (ru_afterReserve r).
Definition reserved (b : bool) (r : orderRun) : orderRun := with_effects b (ru_paymentAuthorized r) (ru_shipmentCreated r) r.
Definition authorized (b : bool) (r : orderRun) : orderRun := with_effects (ru_inventoryReserved r) b (ru_shipmentCreated r) r.
Definition shipped (b : bool) (r : orderRun) : orderRun := with_effects (ru_inventoryReserved r) (ru_paymentAuthorized r) b r.
Definition push_state (st : OrderState) (r : orderRun) : orderRun :=
  mkRun (ru_request r) (ru_machine r) (ru_history r ++ [st]) (ru_inventoryReserved r) (ru_paymentAuthorized r)
    (ru_shipmentCreated r) (ru_compensations r) (ru_afterReserve r).
Definition registerCompensation (work : Compensation) (r : orderRun) : orderRun :=
  mkRun (ru_request r) (ru_machine r) (ru_history r) (ru_inventoryReserved r) (ru_paymentAuthorized r)
    (ru_shipmentCreated r) (ru_compensations r ++ [work]) (ru_afterReserve r).
Definition machine_transition (event : OrderEvent) : GoM orderRun TransitionResult :=
  on_part ru_machine with_machine (Transition event).

(** ** Works *)

Definition transition (name : string) (event : OrderEvent) : GoM orderRun Report :=
  settle (machine_transition event) (λ err, ret (Failed name err)) (λ result,
    do! modify (push_state (tn_Current result));
    ret (Completed name)).
Definition submitOrder : GoM orderRun Report := transition "submit-order" EventSubmit.
Definition reserveInventory : GoM orderRun Report :=
  unless_done "reserve-inventory"
    (let! r := get in
     if negb (fq_StockAvailable (ru_request r)) then ret (Failed "reserve-inventory" ErrInventoryUnavailable)
     else
       do! modify (λ r, registerCompensation ReleaseInventory (reserved true r));
       do! (λ c s, (Val tt, match ru_afterReserve s with Some f => f c | None => c end, s));
       ret (Completed "reserve-inventory")).
Definition authorizePayment : GoM orderRun Report :=
  unless_done "authorize-payment"
    (let! r := get in
     if negb (fq_PaymentAuthorized (ru_request r)) then ret (Failed "authorize-payment" ErrPaymentDeclined)
     else
       let! report := transition "authorize-payment" EventPay in
       if bool_decide (wr_Status report ≠ StatusCompleted) then ret report
       else
         do! modify (λ r, registerCompensation VoidPayment (authorized true r));
         ret (Completed "authorize-payment")).
Definition packOrder : GoM orderRun Report :=
  let! r := get in
  if fq_ForceInvalidTransition (ru_request r) then transition "pack-order" EventShip
  else transition "pack-order" EventPack.
Definition createShipment : GoM orderRun Report :=
  unless_done "create-shipment"
    (let! r := get in
     if negb (fq_ShipmentProviderAvailable (ru_request r)) then ret (Failed "create-shipment" ErrShipmentProviderUnavailable)
     else
       let! report := transition "create-shipment" EventShip in
       if bool_decide (wr_Status report ≠ StatusCompleted) then ret report
       else
         do! modify (shipped true);
         ret (Completed "create-shipment")).
Definition voidPayment : GoM orderRun Report :=
  unless_done "void-payment"
    (let! r := get in
     if fq_VoidPaymentFails (ru_request r) then ret (Failed "void-payment" ErrPaymentVoidFailed)
     else
       do! modify (authorized false);
       ret (Completed "void-payment")).
Definition releaseInventory : GoM orderRun Report :=
  unless_done "release-inventory"
    (let! r := get in
     if fq_ReleaseInventoryFails (ru_request r) then ret (Failed "release-inventory" ErrInventoryReleaseFailed)
     else
       do! modify (reserved false);
       ret (Completed "release-inventory")).
Definition compensate (work : Compensation) : GoM orderRun Report :=
  match work with ReleaseInventory => releaseInventory | VoidPayment => voidPayment end.
Definition cancelOrder : GoM orderRun unit :=
  let! r := get in
  if bool_decide (State (ru_machine r) = StateCancelled) || bool_decide (State (ru_machine r) = StateShipped) then ret tt
  else settle (machine_transition EventCancel) (λ _, ret tt) (λ result, modify (push_state (tn_Current result))).

(** ** A run *)

Definition forwardWorks : list (GoM orderRun Report) := [submitOrder; reserveInventory; authorizePayment; packOrder; createShipment].
Definition forwardRunner : GoM orderRun Report := Sequential "order-fulfillment" StopOnFailure forwardWorks.
Definition reverseCompensations (r : orderRun) : list (GoM orderRun Report) := map compensate (rev (ru_compensations r)).
(** The report, whether the run was compensated, and the error of the forward run. *)
Definition execute : GoM orderRun (Report * bool * option GoError) :=
  let! forward := forwardRunner in
  let originalErr := firstError forward in
  let! r := get in
  if IsSuccess forward || (len (ru_compensations r) =? 0) then ret (forward, false, originalErr)
  else
    let '(parentStatus, reason) :=
      if IsCancelled forward then (StatusCancelled, "caller cancellation triggered compensation")
      else (StatusFailed, "forward failure triggered compensation") in
    let! compensationReport := withoutCancel (Sequential "compensation" ContinueOnFailure (reverseCompensations r)) in
    do! withoutCancel cancelOrder;
    let parentStatus :=
      if bool_decide (parentStatus = StatusFailed) && IsPartial compensationReport then StatusPartial else parentStatus in
    ret (parentReport "order-fulfillment-run" parentStatus originalErr reason [forward; compensationReport], true, originalErr).

(** ** Requests *)

Definition statusForReport (report : Report) : Z :=
  if IsCancelled report then 408
  else if IsSuccess report then 200
  else if IsFailure report || IsPartial report then 409
  else 500.
Inductive Body := BodyHealth | BodyFulfillment (r : fulfillmentResponse) | BodyError (r : errorResponse).
Definition writeError (status : Z) (code : string) (err : GoError) : Z * Body := (status, BodyError (mkErrorResponse code (Error err))).
Definition response_of (request : FulfillmentRequest) (run : orderRun) (report : Report) (compensated : bool) (originalErr : option GoError)
    : fulfillmentResponse :=
  mkResponse (fq_OrderID request) (State (ru_machine run)) (ru_history run) (IsSuccess report) compensated
    (match originalErr with Some err => Error err | None => "" end)
    (mkEffects (ru_inventoryReserved run) (ru_paymentAuthorized run) (ru_shipmentCreated run))
    (summarizeReport report) (projectReport report).
(** The server keeps nothing between requests. gin binds a JSON body to a request or an error. A run never fails:
    its works report their errors. *)
Definition fulfill (bound : GoError + FulfillmentRequest) (c : Ctx) : Outcome (Z * Body) :=
  match bound with
  | inl err => Val (writeError 400 "invalid_request" err)
  | inr request =>
      let request :=
        mkRequest (TrimSpace (fq_OrderID request)) (fq_TotalCents request) (fq_StockAvailable request) (fq_PaymentAuthorized request)
          (fq_ShipmentProviderAvailable request) (fq_ForceInvalidTransition request) (fq_VoidPaymentFails request)
          (fq_ReleaseInventoryFails request) in
      match validateRequest request with
      | Some err => Val (writeError 400 "invalid_request" err)
      | None =>
          match newOrderRun request with
          | inl err => Val (writeError 500 "machine_init_failed" err)
          | inr run =>
              match execute c run with
              | (Val (report, compensated, originalErr), _, run) =>
                  Val (statusForReport report, BodyFulfillment (response_of request run report compensated originalErr))
              | (Fail _, _, _) | (Panic, _, _) => Panic
              end
          end
      end
  end.
Inductive HttpRequest := GetHealthz | PostFulfillment (bound : GoError + FulfillmentRequest).
Definition serve (request : HttpRequest) (c : Ctx) : Outcome (Z * Body) :=
  match request with
  | GetHealthz => Val (200, BodyHealth)
  | PostFulfillment bound => fulfill bound c
  end.
End Run.
