(* ===== verification/OrderFulfillmentProofs.v ===== *)
(** What a fulfillment leaves behind: a completed run has shipped the order with all its effects; any other
    ends with the effects undone but for the failures the request forces, whenever its context ends. *)
From Stdlib Require Import Ascii String.
From S2P Require Import Prelude StateMachine WorkReport ReportTree OrderFulfillment.

(** ** Stages of a run *)

(** The states an order has been in when so many works have completed. *)
Definition history_at (n : nat) : list OrderState :=
  match n with
  | 0%nat => [StateDraft]
  | 1%nat | 2%nat => [StateDraft; StateSubmitted]
  | 3%nat => [StateDraft; StateSubmitted; StatePaid]
  | 4%nat => [StateDraft; StateSubmitted; StatePaid; StatePacked]
  | _ => [StateDraft; StateSubmitted; StatePaid; StatePacked; StateShipped]
  end.
Definition state_at (n : nat) : OrderState := default StateDraft (last (history_at n)).
Definition compensations_at (n : nat) : list Compensation :=
  (if (2 <=? n)%nat then [ReleaseInventory] else []) ++ (if (3 <=? n)%nat then [VoidPayment] else []).
(** What the request must allow for so many works to complete. *)
Definition allowed (q : FulfillmentRequest) (n : nat) : Prop :=
  ((2 <= n)%nat → fq_StockAvailable q = true) ∧ ((3 <= n)%nat → fq_PaymentAuthorized q = true) ∧
  ((4 <= n)%nat → fq_ForceInvalidTransition q = false) ∧ ((5 <= n)%nat → fq_ShipmentProviderAvailable q = true).
Definition work_names : list string := ["submit-order"; "reserve-inventory"; "authorize-payment"; "pack-order"; "create-shipment"].

Lemma fulfillment_moves s e s' :
  moves_to transitions finalStates s e s' ↔ mkResult s e s' ∈ map (λ t, mkResult (tr_From t) (tr_Event t) (tr_To t)) transitions.
Proof. rewrite table_moves_spec. done. Qed.
(** The move of a state on an event is unique. *)
Ltac order_move H :=
  apply fulfillment_moves in H; cbn in H; rewrite !elem_of_cons, elem_of_nil in H; destruct_or! H; try done; injection H as ?; subst.
Ltac order_can_move := apply fulfillment_moves; cbn; set_solver.

Section Run.
Context `{GU : GoUnicode} `{ST : StateTypes} `{SL : !StateLib} `{LW : !StateLaws} `{RL : ReportLib} `{RW : !ReportLaws}
  `{WL : !WorkflowLib orderRun} `{WW : !WorkflowLaws orderRun}.

Definition of_table (r : orderRun) : Prop := machine_of (ru_machine r) transitions finalStates.
Definition run_at (q : FulfillmentRequest) (n : nat) (m : Machine) (hook : Ptr (Ctx → Ctx)) : orderRun :=
  mkRun q m (history_at n) (2 <=? n)%nat (3 <=? n)%nat (5 <=? n)%nat (compensations_at n) hook.
Definition at_stage (q : FulfillmentRequest) (n : nat) (r : orderRun) : Prop :=
  ∃ m hook, r = run_at q n m hook ∧ machine_of m transitions finalStates ∧ State m = state_at n ∧ allowed q n.

Lemma transition_run name e c r :
  of_table r → ∃ rep c' m', machine_of m' transitions finalStates ∧
    ((transition name e c r = (Val (Completed name), c', push_state (State m') (with_machine m' r)) ∧ rep = Completed name ∧
      moves_to transitions finalStates (State (ru_machine r)) e (State m')) ∨
     (∃ err, transition name e c r = (Val (Failed name err), c', with_machine m' r) ∧ rep = Failed name err ∧
      State m' = State (ru_machine r))).
Proof.
  intros Hm. unfold transition, machine_transition, settle, on_part. pose proof (transition_step _ _ _ e c Hm) as H.
  destruct (Transition e c (ru_machine r)) as [[o c'] m'] eqn:E. destruct H as [Hm' H]. destruct o as [res|err|]; [| |done].
  - destruct H as [Hmv ->]. exists (Completed name), c', m'. split; [done|]. by left.
  - exists (Failed name err), c', m'. split; [done|]. right. by exists err.
Qed.

(** A transition of a stage to the next, which [finish] makes up to. *)
Lemma transition_stage (finish : orderRun → orderRun) q n name e :
  (∀ st, moves_to transitions finalStates (state_at n) e st → st = state_at (S n)) →
  (∀ m hook, finish (push_state (state_at (S n)) (run_at q n m hook)) = run_at q (S n) m hook) →
  (allowed q n → allowed q (S n)) →
  ∀ c r, at_stage q n r → ∃ rep c' r', transition name e c r = (Val rep, c', r') ∧ wr_Name rep = name ∧
    ((plain rep ∧ at_stage q (S n) (finish r')) ∨
     (wr_Status rep ∈ [StatusFailed; StatusCancelled] ∧ is_Some (wr_Err rep) ∧ at_stage q n r')).
Proof.
  intros Hs Hf Hq c r (m & hook & -> & Hm & Hst & Ha). destruct (transition_run name e c (run_at q n m hook) Hm) as (rep & c' & m' & Hm' & [(E & -> & Hmv)|(err & E & -> & Hs')]).
  - cbn [ru_machine run_at] in Hmv. rewrite Hst in Hmv. pose proof (Hs _ Hmv) as Es. rewrite Es in E. do 3 eexists. split; [exact E|].
    destruct (completed_step name) as [Hn Hp]. split; [done|]. left. split; [done|]. exists m', hook.
    split; [apply (Hf m' hook)|]. split; [done|]. split; [done|]. by apply Hq.
  - do 3 eexists. split; [exact E|]. destruct (failed_step name err) as (Hn & Hc & He). split; [done|]. right. split; [done|]. split; [done|].
    exists m', hook. cbn in Hs'. rewrite Hst in Hs'. split; [done|]. split; [done|]. by split.
Qed.

Ltac stage_moves := let st := fresh "st" in let H := fresh "H" in intros st H; order_move H; reflexivity.
(** The flags a stage needs. *)
Ltac stage_flags := unfold allowed in *; repeat split; intros; destruct_and?; try lia; auto with lia.

(** A work that asks for a flag, moves the order and notes the effect. *)
Lemma effect_step (flag : FulfillmentRequest → bool) err (finish : orderRun → orderRun) q n name e :
  (∀ st, moves_to transitions finalStates (state_at n) e st → st = state_at (S n)) →
  (∀ m hook, finish (push_state (state_at (S n)) (run_at q n m hook)) = run_at q (S n) m hook) →
  (flag q = true → allowed q n → allowed q (S n)) →
  work_step name (at_stage q n) (at_stage q (S n))
    (unless_done name
      (let! r := get in
       if negb (flag (ru_request r)) then ret (Failed name err)
       else
         let! report := transition name e in
         if bool_decide (wr_Status report ≠ StatusCompleted) then ret report else do! modify finish; ret (Completed name))).
Proof.
  intros Hm Hf Hq. apply unless_done_step. intros c s Hs. unfold bind at 1, get. assert (ru_request s = q) as -> by (by destruct Hs as (m & hook & -> & _)).
  destruct (flag q) eqn:Eq; cbn [negb]; [|by apply (refused_step (Q := at_stage q (S n)))].
  destruct (transition_stage finish q n name e Hm Hf (Hq eq_refl) c s Hs) as (rep & c' & s' & E & Hn & H). unfold bind at 1. rewrite E.
  destruct H as [[Hp Hs']|(Hb & He & Hs')].
  - rewrite bool_decide_eq_false_2 by (rewrite Hp; auto). destruct (completed_step name) as [Hn' Hp'].
    do 3 eexists. split; [done|]. split; [done|]. by left.
  - rewrite bool_decide_eq_true_2 by (intros E'; rewrite E', !elem_of_cons, elem_of_nil in Hb; by destruct Hb as [|[|[]]]).
    do 3 eexists. split; [done|]. split; [done|]. by right.
Qed.

Lemma submit_step q : work_step "submit-order" (at_stage q 0) (at_stage q 1) submitOrder.
Proof. intros c s Hs. apply (transition_stage id); [stage_moves|done|stage_flags|done]. Qed.
Lemma reserve_step q : work_step "reserve-inventory" (at_stage q 1) (at_stage q 2) reserveInventory.
Proof.
  apply unless_done_step. intros c s Hs. unfold bind at 1, get. pose proof Hs as (m & hook & -> & Hm & Hst & Ha). cbn [ru_request run_at].
  destruct (fq_StockAvailable q) eqn:Eq; cbn [negb]; [|by apply (refused_step (Q := at_stage q 2))]. unfold bind, modify, ret. do 3 eexists. split; [done|].
  destruct (completed_step "reserve-inventory") as [Hn Hp]. split; [done|]. left. split; [done|].
  exists m, hook. split; [done|]. split; [done|]. split; [done|]. stage_flags.
Qed.
Lemma authorize_step q : work_step "authorize-payment" (at_stage q 2) (at_stage q 3) authorizePayment.
Proof. apply (effect_step fq_PaymentAuthorized); [stage_moves|done|stage_flags]. Qed.
Lemma pack_step q : work_step "pack-order" (at_stage q 3) (at_stage q 4) packOrder.
Proof.
  intros c s Hs. unfold packOrder, bind, get. pose proof Hs as (m & hook & Es & Hm & Hst & Ha). rewrite Es. cbn [ru_request run_at]. rewrite <- Es.
  destruct (fq_ForceInvalidTransition q) eqn:Eq; [|apply (transition_stage id); [stage_moves|done|stage_flags|done]].
  destruct (transition_run "pack-order" EventShip c s) as (rep & c' & m' & Hm' & [(_ & _ & Hmv)|(err & E & -> & Hst')]); [by rewrite Es|rewrite Es in Hmv; cbn in Hmv; rewrite Hst in Hmv; order_move Hmv|].
  do 3 eexists. split; [exact E|]. destruct (failed_step "pack-order" err) as (Hn & Hc & He). split; [done|]. right. split; [done|]. split; [done|].
  exists m', hook. rewrite Es in Hst' |- *. cbn in Hst'. rewrite Hst in Hst'. split; [done|]. split; [done|]. by split.
Qed.
Lemma ship_step q : work_step "create-shipment" (at_stage q 4) (at_stage q 5) createShipment.
Proof. apply (effect_step fq_ShipmentProviderAvailable); [stage_moves|done|stage_flags]. Qed.

(** ** The works from any run *)

Lemma transition_returns name e : returns of_table (transition name e).
Proof.
  intros c s Hs. destruct (transition_run name e c s Hs) as (rep & c' & m' & Hm' & [(E & _ & _)|(err & E & _ & _)]); rewrite E.
  - do 3 eexists. split; [done|]. split; [done|]. rewrite completed_report. cbn. set_solver.
  - do 3 eexists. split; [done|]. split; [done|]. rewrite failed_report. cbn. set_solver.
Qed.
Lemma forward_returns : Forall (returns of_table) forwardWorks.
Proof.
  repeat constructor; unfold submitOrder, reserveInventory, authorizePayment, packOrder, createShipment; returning ltac:(apply transition_returns).
Qed.
Lemma compensate_returns cs : Forall (returns of_table) (map compensate cs).
Proof. apply Forall_fmap, Forall_true. intros [|]; cbn; unfold releaseInventory, voidPayment; returning fail. Qed.

(** ** The forward run *)

Lemma forward_steps q i name w :
  work_names !! i = Some name → forwardWorks !! i = Some w → work_step name (at_stage q i) (at_stage q (S i)) w.
Proof.
  destruct i as [|[|[|[|[|i]]]]]; intros [= <-] [= <-].
  - apply submit_step.
  - apply reserve_step.
  - apply authorize_step.
  - apply pack_step.
  - apply ship_step.
Qed.
(** How a forward run ends: with all works completed, or behind some of them with an error. *)
Definition forward_end (n : nat) (rep : Report) : Prop :=
  (n = 5%nat ∧ ∃ rs, rep = mkReport "order-fulfillment" StatusCompleted None "" rs ∧ Forall plain rs ∧ map wr_Name rs = work_names) ∨
  ((n < 5)%nat ∧ stopped rep).
Lemma sums_up_end n rs cut rep :
  sums_up "order-fulfillment" StopOnFailure rs cut rep → progress work_names n rs cut → forward_end n rep.
Proof.
  intros Hs Hp. destruct Hp as [Hn Hm Hf|rs' x Hn -> Hm Hf Hx He|e Hn Hm Hf].
  - left. split; [done|]. destruct Hs as [[_ ->]|(rs' & x & _ & Hc & _)]; [eauto|]. destruct Hc. by apply plain_all.
  - right. split; [done|]. assert (¬ completed x) as Hnx by (unfold completed; intros E; rewrite E, !elem_of_cons, elem_of_nil in Hx; by destruct Hx as [|[|[]]]).
    destruct Hs as [[Hc _]|(rs2 & y & E & _ & _ & _ & Hst & Herr & _)].
    { by apply Forall_app in Hc as [_ [Hc _]%Forall_cons]. }
    apply app_inj_tail in E as [_ <-]. unfold stopped. by rewrite Hst, Herr.
  - right. split; [done|]. destruct Hs as (_ & Hst & Herr & _). unfold stopped. rewrite Hst, Herr. split; [right; left|by eexists].
Qed.
Lemma forward_run q c r :
  at_stage q 0 r → ∃ rep c' r' n, forwardRunner c r = (Val rep, c', r') ∧ at_stage q n r' ∧ forward_end n rep.
Proof.
  intros H0. assert (of_table r) as Ht by (by destruct H0 as (m & hook & -> & Hm & _)).
  destruct (sequential_run of_table "order-fulfillment" StopOnFailure forwardWorks c r Ht forward_returns) as (rep & rs & cut & c' & r' & E & Hr & Hs).
  destruct (works_progress (at_stage q) work_names forwardWorks 0 c r rs cut c' r') as (n & Hn & Hp); [done|apply forward_steps|done|done|].
  exists rep, c', r', n. split; [exact E|]. split; [exact Hn|]. by eapply sums_up_end.
Qed.

(** ** Compensations *)

Definition undo (r : orderRun) (work : Compensation) : orderRun :=
  match work with
  | ReleaseInventory => if fq_ReleaseInventoryFails (ru_request r) then r else reserved false r
  | VoidPayment => if fq_VoidPaymentFails (ru_request r) then r else authorized false r
  end.
Definition undo_name (work : Compensation) : string := match work with ReleaseInventory => "release-inventory" | VoidPayment => "void-payment" end.
Definition undo_fails (q : FulfillmentRequest) (work : Compensation) : bool :=
  match work with ReleaseInventory => fq_ReleaseInventoryFails q | VoidPayment => fq_VoidPaymentFails q end.
Lemma compensate_undoes q work : undoes compensate undo undo_name (undo_fails q) (λ r, ru_request r = q) work.
Proof.
  destruct work; (eapply (unless_done_undoes compensate undo undo_name (undo_fails q)); [exact RW|exact eq_refl|]); intros c r Hq; cbn in Hq; subst q; unfold bind, get, modify, ret; cbn;
    case_match; by split.
Qed.
(** The run behind its compensations. *)
Definition undone_at (q : FulfillmentRequest) (n : nat) (m : Machine) (hook : Ptr (Ctx → Ctx)) : orderRun :=
  mkRun q m (history_at n) (fq_ReleaseInventoryFails q) ((3 <=? n)%nat && fq_VoidPaymentFails q) false (compensations_at n) hook.
Lemma compensations_run q n m hook c :
  machine_of m transitions finalStates → (2 <= n < 5)%nat → ∃ rep,
    withoutCancel (Sequential "compensation" ContinueOnFailure (reverseCompensations (run_at q n m hook))) c (run_at q n m hook) =
    (Val rep, c, undone_at q n m hook).
Proof.
  intros Hm Hn. unfold withoutCancel, reverseCompensations.
  destruct (sequential_run of_table "compensation" ContinueOnFailure (map compensate (rev (ru_compensations (run_at q n m hook)))) Background (run_at q n m hook) Hm)
    as (rep & rs & cut & c' & r' & E & Hr & _); [apply compensate_returns|].
  rewrite E. exists rep. f_equal.
  destruct (works_undo compensate undo undo_name (undo_fails q) (λ r, ru_request r = q) _ Background
      (run_at q n m hook) _ _ _ _ (compensate_undoes q) eq_refl Hr)
    as (k & _ & _ & _ & -> & _ & _ & _ & Hk). rewrite (Hk eq_refl), firstn_all.
  destruct n as [|[|[|[|[|n]]]]]; [lia|lia| | | |lia]; cbn; unfold undone_at; cbn;
    destruct (fq_ReleaseInventoryFails q) eqn:E1; cbn; rewrite ?E1; try done; destruct (fq_VoidPaymentFails q) eqn:E2; cbn; rewrite ?E1; done.
Qed.
Lemma cancel_run q n m hook c :
  machine_of m transitions finalStates → State m = state_at n → (2 <= n < 5)%nat → ∃ m',
    withoutCancel cancelOrder c (undone_at q n m hook) = (Val tt, c, push_state StateCancelled (with_machine m' (undone_at q n m hook))) ∧
    State m' = StateCancelled.
Proof.
  intros Hm Hst Hn. assert (moves_to transitions finalStates (State m) EventCancel StateCancelled) as Hmv.
  { rewrite Hst. destruct n as [|[|[|[|[|n]]]]]; [lia|lia| | | |lia]; order_can_move. }
  unfold withoutCancel, cancelOrder, bind, get. cbn [ru_machine undone_at].
  assert (State m ≠ StateCancelled ∧ State m ≠ StateShipped) as [H1 H2].
  { rewrite Hst. destruct n as [|[|[|[|[|n]]]]]; [lia|lia| | | |lia]; by split. }
  rewrite !bool_decide_eq_false_2 by done. cbn [orb]. unfold settle, machine_transition, on_part. cbn [ru_machine undone_at].
  destruct (transition_made m _ _ EventCancel StateCancelled Background Hm eq_refl Hmv) as (res & c' & m' & E & Hs).
  pose proof (transition_step m _ _ EventCancel Background Hm) as H. rewrite E in H. destruct H as (_ & _ & ->). rewrite E.
  exists m'. cbn. rewrite Hs. by split.
Qed.

(** ** A whole run *)

(** What a run leaves, by how far its forward works came. *)
Definition outcome (q : FulfillmentRequest) (n : nat) (r : orderRun) (rep : Report) (compensated : bool) (err : option GoError) : Prop :=
  (n = 5%nat ∧ compensated = false ∧ err = None ∧ (∃ rs, rep = mkReport "order-fulfillment" StatusCompleted None "" rs) ∧
    ∃ m hook, r = run_at q 5 m hook ∧ State m = StateShipped) ∨
  ((n < 2)%nat ∧ compensated = false ∧ is_Some err ∧ stopped rep ∧ ∃ m hook, r = run_at q n m hook ∧ State m = state_at n) ∨
  ((2 <= n < 5)%nat ∧ compensated = true ∧ is_Some err ∧ wr_Status rep ∈ [StatusFailed; StatusPartial; StatusCancelled] ∧
    ∃ m hook, r = push_state StateCancelled (with_machine m (undone_at q n m hook)) ∧ State m = StateCancelled).
Lemma execute_run q c r :
  at_stage q 0 r → ∃ rep compensated err c' r' n,
    execute c r = (Val (rep, compensated, err), c', r') ∧ allowed q n ∧ outcome q n r' rep compensated err.
Proof.
  intros H0. destruct (forward_run q c r H0) as (fwd & c1 & r1 & n & E & (m & hook & -> & Hm & Hst & Ha) & Hend).
  unfold execute, bind at 1, get. rewrite E. unfold bind at 1. destruct Hend as [(-> & rs & -> & Hp & _)|[Hn Hstop]].
  { rewrite is_success, bool_decide_eq_true_2 by done. cbn [orb]. rewrite firstError_plain by done.
    do 6 eexists. split; [done|]. split; [done|]. left. split; [done|]. split; [done|]. split; [done|]. split; [eauto|]. by exists m, hook. }
  pose proof Hstop as [Hstat [err Herr]]. rewrite is_success, bool_decide_eq_false_2 by (by apply stopped_not_completed). cbn [orb].
  rewrite (firstError_some _ _ Herr). destruct (decide (n < 2)%nat) as [H2|H2].
  { assert (ru_compensations (run_at q n m hook) = []) as -> by (destruct n as [|[|n]]; [done|done|lia]). cbn [len length Z.of_nat Z.eqb].
    do 6 eexists. split; [done|]. split; [done|]. right. left. split; [done|]. split; [done|]. split; [by eexists|]. split; [done|]. by exists m, hook. }
  assert (2 <= n < 5)%nat as Hn' by lia.
  assert ((len (ru_compensations (run_at q n m hook)) =? 0) = false) as -> by (destruct n as [|[|[|n]]]; [lia|lia|done|done]).
  destruct (compensations_run q n m hook c1 Hm Hn') as [crep Ec]. destruct (cancel_run q n m hook c1 Hm Hst Hn') as (m' & Ecc & Hs').
  rewrite is_cancelled.
  assert (∃ st reason, (if bool_decide (wr_Status fwd = StatusCancelled) then (StatusCancelled, "caller cancellation triggered compensation")
    else (StatusFailed, "forward failure triggered compensation")) = (st, reason) ∧ st ∈ [StatusFailed; StatusCancelled]) as (st & reason & -> & Hin)
    by (case_bool_decide; do 2 eexists; (split; [done|]); set_solver).
  unfold bind at 1. rewrite Ec. unfold bind at 1. rewrite Ecc. do 6 eexists. split; [done|]. split; [exact Ha|]. right. right.
  split; [done|]. split; [done|]. split; [by eexists|]. split; [|exists m', hook; by split].
  cbn. destruct (_ && _); set_solver.
Qed.
Lemma new_run_stage q r : newOrderRun q = inr r → at_stage q 0 r.
Proof.
  unfold newOrderRun. intros (m & Hm & [= <-])%and_then_inr. apply wrapping_inr in Hm. destruct (new_machine _ _ _ _ Hm) as [Hof Hst].
  exists m, None. split; [done|]. split; [done|]. split; [done|]. unfold allowed. repeat split; lia.
Qed.

Lemma status_stopped rep : wr_Status rep ∈ [StatusFailed; StatusPartial; StatusCancelled] → statusForReport rep ∈ [408; 409] ∧ IsSuccess rep = false.
Proof.
  intros H. unfold statusForReport. rewrite is_cancelled, is_success, is_failure, is_partial.
  rewrite !elem_of_cons, elem_of_nil in H. destruct_or! H; try done; rewrite H; (split; [|by vm_compute]); vm_compute; set_solver.
Qed.
Definition trimmed (request : FulfillmentRequest) : FulfillmentRequest :=
  mkRequest (TrimSpace (fq_OrderID request)) (fq_TotalCents request) (fq_StockAvailable request) (fq_PaymentAuthorized request)
    (fq_ShipmentProviderAvailable request) (fq_ForceInvalidTransition request) (fq_VoidPaymentFails request)
    (fq_ReleaseInventoryFails request).
(** What a response says of a run. *)
Definition completed_response (q : FulfillmentRequest) (body : fulfillmentResponse) : Prop :=
  allowed q 5 ∧ fp_State body = StateShipped ∧ fp_StateHistory body = history_at 5 ∧ fp_Effects body = mkEffects true true true ∧
  fp_Compensated body = false ∧ fp_OriginalError body = "".
Definition undone_response (q : FulfillmentRequest) (body : fulfillmentResponse) : Prop :=
  ∃ n err, (n < 5)%nat ∧ allowed q n ∧ fp_OriginalError body = Error err ∧ fp_Compensated body = bool_decide (2 <= n)%nat ∧
  if fp_Compensated body then
    fp_State body = StateCancelled ∧ fp_StateHistory body = history_at n ++ [StateCancelled] ∧
    fp_Effects body = mkEffects (fq_ReleaseInventoryFails q) ((3 <=? n)%nat && fq_VoidPaymentFails q) false
  else fp_State body = state_at n ∧ fp_StateHistory body = history_at n ∧ fp_Effects body = mkEffects false false false.
Lemma outcome_response q n r rep compensated err :
  allowed q n → outcome (trimmed q) n r rep compensated err →
  let body := response_of (trimmed q) r rep compensated err in
  let status := statusForReport rep in
  (status = 200 ∧ fp_Completed body = true ∧ completed_response q body) ∨
  (status ∈ [408; 409] ∧ fp_Completed body = false ∧ undone_response q body).
Proof.
  intros Ha [(-> & -> & -> & [rs ->] & m & hook & -> & Hs)|[(Hn & -> & [e ->] & Hst & m & hook & -> & Hs)|(Hn & -> & [e ->] & Hst & m & hook & -> & Hs)]]; cbn zeta.
  - left. unfold statusForReport, completed_response, response_of. cbn. rewrite is_cancelled, is_success. by split.
  - right. destruct (status_stopped rep) as [H1 H2]; [destruct Hst as [Hst _]; set_solver|]. cbn [fp_Completed response_of]. split; [done|]. split; [done|].
    exists n, e. cbn. rewrite bool_decide_eq_false_2 by lia. split; [lia|]. do 3 (split; [done|]).
    split; [exact Hs|]. split; [done|]. by destruct n as [|[|n]]; [..|lia].
  - right. destruct (status_stopped rep Hst) as [H1 H2]. cbn [fp_Completed response_of]. split; [done|]. split; [done|].
    exists n, e. cbn. rewrite bool_decide_eq_true_2 by lia. split; [lia|]. do 3 (split; [done|]). by split.
Qed.
Lemma fulfill_run q c :
  (∃ err, fulfill (inr q) c = Val (writeError 400 "invalid_request" err)) ∨
  (∃ err, fulfill (inr q) c = Val (writeError 500 "machine_init_failed" err)) ∨
  (∃ run rep compensated err c' run' n, newOrderRun (trimmed q) = inr run ∧
    execute c run = (Val (rep, compensated, err), c', run') ∧ allowed q n ∧ outcome (trimmed q) n run' rep compensated err ∧
    fulfill (inr q) c = Val (statusForReport rep, BodyFulfillment (response_of (trimmed q) run' rep compensated err))).
Proof.
  unfold fulfill. fold (trimmed q). destruct (validateRequest (trimmed q)) as [err|] eqn:Ev; [left; by eexists|].
  destruct (newOrderRun (trimmed q)) as [err|run] eqn:En; [right; left; by eexists|]. right. right.
  destruct (execute_run (trimmed q) c run (new_run_stage _ _ En)) as (rep & compensated & err & c' & run' & n & E & Ha & Ho).
  exists run, rep, compensated, err, c', run', n. rewrite E. by repeat (split; [done|]).
Qed.

(** C25: Whatever the request and whenever its context ends, a fulfillment is all or nothing: it is answered
    with 200 exactly when it has completed, and then the order went through draft, submitted, paid, packed
    and shipped, with all three effects and no compensation. Otherwise, with 408 or 409 and the text of an
    error, nothing is shipped: an order that reserved nothing stays where it was, and one that did is
    cancelled with its reservation released and its payment voided, unless the request makes just that
    fail. A run never panics. *)
Theorem fulfillment_is_all_or_nothing request c :
  match fulfill (inr request) c with
  | Val (status, BodyFulfillment body) =>
      (status = 200 ∧ fp_Completed body = true ∧ completed_response request body) ∨
      (status ∈ [408; 409] ∧ fp_Completed body = false ∧ undone_response request body)
  | Val (status, BodyError e) =>
      (status = 400 ∧ ep_Code e = "invalid_request") ∨ (status = 500 ∧ ep_Code e = "machine_init_failed")
  | _ => False
  end.
Proof.
  destruct (fulfill_run request c) as [[err ->]|[[err ->]|(run & rep & compensated & err & c' & run' & n & _ & _ & Ha & Ho & ->)]].
  - by left.
  - by right.
  - by apply outcome_response with n.
Qed.
End Run.

(** ** Witnesses *)

Section Demo.
#[local] Existing Instances plain_unicode plain_reports plain_workflow.

Definition demo_request : FulfillmentRequest := mkRequest " order-1 " 2599 true true false false true false.
Definition shown (o : Outcome (Z * Body)) : option (Z * OrderState * list OrderState * effectsDTO * bool * string) :=
  match o with
  | Val (status, BodyFulfillment b) =>
      Some (status, fp_State b, fp_StateHistory b, fp_Effects b, fp_Compensated b, fp_OriginalError b)
  | _ => None
  end.
Lemma fulfillment_is_all_or_nothing_witness :
  match fulfill (inr demo_request) Background with
  | Val (status, BodyFulfillment body) => status = 409 ∧ fp_Completed body = false ∧ undone_response demo_request body
  | _ => False
  end ∧
  shown (fulfill (inr demo_request) Background) =
    Some (409, StateCancelled, [StateDraft; StateSubmitted; StatePaid; StatePacked; StateCancelled], mkEffects false true false, true,
      "shipment provider is unavailable").
Proof.
  assert (shown (fulfill (inr demo_request) Background) =
    Some (409, StateCancelled, [StateDraft; StateSubmitted; StatePaid; StatePacked; StateCancelled], mkEffects false true false, true,
      "shipment provider is unavailable")) as E by by vm_compute.
  split; [|exact E]. pose proof (fulfillment_is_all_or_nothing demo_request Background) as H.
  destruct (fulfill (inr demo_request) Background) as [[status [|body|e]]|e|]; [done| |done..]. cbn in E. injection E as -> _ _ _ _ _.
  destruct H as [(H & _)|(_ & H)]; [done|]. by split.
Defined.

(** A request that allows everything is shipped, and its summary counts the root next to its five works. *)
Definition good_request : FulfillmentRequest := mkRequest "order-1" 2599 true true true false false false.
Example good_request_ships :
  shown (fulfill (inr good_request) Background) = Some (200, StateShipped, history_at 5, mkEffects true true true, false, "").
Proof. by vm_compute. Qed.
Lemma summary_counts_root :
  match fulfill (inr good_request) Background with
  | Val (_, BodyFulfillment body) => sm_Total (fp_Summary body) = 6 ∧ sm_Completed (fp_Summary body) = 6
  | _ => False
  end.
Proof. by vm_compute. Qed.
(** A cancellation that the machine sees first is a failed transition, answered with 409 and not with 408. *)
Lemma cancelled_transition_conflicts :
  shown (fulfill (inr good_request) {| ctx_polls := Some 1%nat; ctx_cause := ByCancel |}) =
    Some (409, StateDraft, [StateDraft], mkEffects false false false, false, "context canceled").
Proof. by vm_compute. Qed.
End Demo.
