(* ===== verification/CompensationWorkflow.v ===== *)
(** examples/compensation-workflow/internal/compensation: works in sequence, each registering what undoes it,
    and compensations of a run that failed. The workflow and workreport packages are parameters. *)
From Stdlib Require Import Ascii String.
From S2P Require Import Prelude WorkReport ReportTree.

Definition ErrInventoryUnavailable : GoError := Sentinel "compensation.ErrInventoryUnavailable" "inventory is unavailable".
Definition ErrPaymentDeclined : GoError := Sentinel "compensation.ErrPaymentDeclined" "payment authorization declined".
Definition ErrShipmentProviderUnavailable : GoError :=
  Sentinel "compensation.ErrShipmentProviderUnavailable" "shipment provider is unavailable".
Definition ErrPaymentVoidFailed : GoError := Sentinel "compensation.ErrPaymentVoidFailed" "payment void failed".
Definition ErrInventoryReleaseFailed : GoError := Sentinel "compensation.ErrInventoryReleaseFailed" "inventory release failed".
Definition errInvalidOrderID : GoError := Sentinel "compensation.errInvalidOrderID" "order_id is required".

(** ** Data *)

Record RunRequest := mkRequest {
  rq_OrderID : string; rq_StockAvailable : bool; rq_PaymentAuthorized : bool; rq_ShipmentProviderAvailable : bool;
  rq_VoidPaymentFails : bool; rq_ReleaseInventoryFails : bool
}.
Record effectsDTO := mkEffects { ef_InventoryReserved : bool; ef_PaymentAuthorized : bool; ef_ShipmentCreated : bool }.
Definition reportNode : Type := ReportTree.reportNode.
Definition errorResponse : Type := ReportTree.errorResponse.
Record runResponse := mkResponse {
  rp_OrderID : string; rp_Completed : bool; rp_Compensated : bool; rp_OriginalError : string; rp_Effects : effectsDTO;
  rp_Report : reportNode
}.
(** The methods a run registers to undo its works. *)
Inductive Compensation := ReleaseInventory | VoidPayment.
(** [afterReserve] is a hook that can do to a run only what it does to its context. *)
Record compensationRun := mkRun {
  cr_request : RunRequest; cr_inventoryReserved : bool; cr_paymentAuthorized : bool; cr_shipmentCreated : bool;
  cr_compensations : list Compensation; cr_afterReserve : Ptr (Ctx → Ctx)
}.

Definition validateRequest (request : RunRequest) : option GoError :=
  if bool_decide (rq_OrderID request = "") then Some errInvalidOrderID else None.

Section Run.
Context `{GU : GoUnicode} `{RL : ReportLib} `{WL : !WorkflowLib compensationRun}.

Definition with_effects (inventory payment shipment : bool) (r : compensationRun) : compensationRun :=
  mkRun (cr_request r) inventory payment shipment (cr_compensations r) (cr_afterReserve r).
Definition reserved (b : bool) (r : compensationRun) : compensationRun := with_effects b (cr_paymentAuthorized r) (cr_shipmentCreated r) r.
Definition authorized (b : bool) (r : compensationRun) : compensationRun := with_effects (cr_inventoryReserved r) b (cr_shipmentCreated r) r.
Definition shipped (b : bool) (r : compensationRun) : compensationRun := with_effects (cr_inventoryReserved r) (cr_paymentAuthorized r) b r.
Definition registerCompensation (work : Compensation) (r : compensationRun) : compensationRun :=
  mkRun (cr_request r) (cr_inventoryReserved r) (cr_paymentAuthorized r) (cr_shipmentCreated r)
    (cr_compensations r ++ [work]) (cr_afterReserve r).

(** ** Works *)

Definition reserveInventory : GoM compensationRun Report :=
  unless_done "reserve-inventory"
    (let! r := get in
     if negb (rq_StockAvailable (cr_request r)) then ret (Failed "reserve-inventory" ErrInventoryUnavailable)
     else
       do! modify (λ r, registerCompensation ReleaseInventory (reserved true r));
       do! (λ c s, (Val tt, match cr_afterReserve s with Some f => f c | None => c end, s));
       ret (Completed "reserve-inventory")).
Definition authorizePayment : GoM compensationRun Report :=
  unless_done "authorize-payment"
    (let! r := get in
     if negb (rq_PaymentAuthorized (cr_request r)) then ret (Failed "authorize-payment" ErrPaymentDeclined)
     else
       do! modify (λ r, registerCompensation VoidPayment (authorized true r));
       ret (Completed "authorize-payment")).
Definition createShipment : GoM compensationRun Report :=
  unless_done "create-shipment"
    (let! r := get in
     if negb (rq_ShipmentProviderAvailable (cr_request r)) then ret (Failed "create-shipment" ErrShipmentProviderUnavailable)
     else
       do! modify (shipped true);
       ret (Completed "create-shipment")).
Definition voidPayment : GoM compensationRun Report :=
  unless_done "void-payment"
    (let! r := get in
     if rq_VoidPaymentFails (cr_request r) then ret (Failed "void-payment" ErrPaymentVoidFailed)
     else
       do! modify (authorized false);
       ret (Completed "void-payment")).
Definition releaseInventory : GoM compensationRun Report :=
  unless_done "release-inventory"
    (let! r := get in
     if rq_ReleaseInventoryFails (cr_request r) then ret (Failed "release-inventory" ErrInventoryReleaseFailed)
     else
       do! modify (reserved false);
       ret (Completed "release-inventory")).
Definition compensate (work : Compensation) : GoM compensationRun Report :=
  match work with ReleaseInventory => releaseInventory | VoidPayment => voidPayment end.

(** ** A run *)

Definition forwardWorks : list (GoM compensationRun Report) := [reserveInventory; authorizePayment; createShipment].
Definition forwardRunner : GoM compensationRun Report := Sequential "fulfillment-forward" StopOnFailure forwardWorks.
Definition reverseCompensations (r : compensationRun) : list (GoM compensationRun Report) := map compensate (rev (cr_compensations r)).
Definition firstError : Report → option GoError := ReportTree.firstError.
Definition parentReport : string → Status → option GoError → string → list Report → Report := ReportTree.parentReport.
(** The report, whether the run was compensated, and the error of the forward run. Only a cancelled forward run
    is compensated under a context of its own. *)
Definition execute : GoM compensationRun (Report * bool * option GoError) :=
  let! forward := forwardRunner in
  let originalErr := firstError forward in
  let! r := get in
  if IsSuccess forward || (len (cr_compensations r) =? 0)
  then ret (parentReport "compensating-fulfillment" (wr_Status forward) originalErr (wr_Reason forward) [forward], false, originalErr)
  else
    let '(parentStatus, reason) :=
      if IsCancelled forward then (StatusCancelled, "caller cancellation triggered compensation")
      else (StatusFailed, "forward failure triggered compensation") in
    let compensation := Sequential "compensation" ContinueOnFailure (reverseCompensations r) in
    let! compensationReport := if IsCancelled forward then withoutCancel compensation else compensation in
    ret (parentReport "compensating-fulfillment" parentStatus originalErr reason [forward; compensationReport], true, originalErr).

(** ** Requests *)

Definition statusForReport (report : Report) : Z :=
  if IsCancelled report then 408
  else if IsSuccess report then 200
  else if IsFailure report || IsPartial report then 409
  else 500.
Definition projectReport : Report → reportNode := ReportTree.projectReport.
Inductive Body := BodyHealth | BodyRun (r : runResponse) | BodyError (r : errorResponse).
Definition writeError (status : Z) (code : string) (err : GoError) : Z * Body := (status, BodyError (mkErrorResponse code (Error err))).
Definition response_of (request : RunRequest) (run : compensationRun) (report : Report) (compensated : bool) (originalErr : option GoError)
    : runResponse :=
  mkResponse (rq_OrderID request) (IsSuccess report) compensated (match originalErr with Some err => Error err | None => "" end)
    (mkEffects (cr_inventoryReserved run) (cr_paymentAuthorized run) (cr_shipmentCreated run)) (projectReport report).
(** The server keeps nothing between requests. gin binds a JSON body to a request or an error. A run never fails:
    its works report their errors. *)
Definition run (bound : GoError + RunRequest) (c : Ctx) : Outcome (Z * Body) :=
  match bound with
  | inl err => Val (writeError 400 "invalid_request" err)
  | inr request =>
      let request :=
        mkRequest (TrimSpace (rq_OrderID request)) (rq_StockAvailable request) (rq_PaymentAuthorized request)
          (rq_ShipmentProviderAvailable request) (rq_VoidPaymentFails request) (rq_ReleaseInventoryFails request) in
      match validateRequest request with
      | Some err => Val (writeError 400 "invalid_request" err)
      | None =>
          match execute c (mkRun request false false false [] None) with
          | (Val (report, compensated, originalErr), _, run) =>
              Val (statusForReport report, BodyRun (response_of request run report compensated originalErr))
          | (Fail _, _, _) | (Panic, _, _) => Panic
          end
      end
  end.
Inductive HttpRequest := GetHealthz | PostRun (bound : GoError + RunRequest).
Definition serve (request : HttpRequest) (c : Ctx) : Outcome (Z * Body) :=
  match request with
  | GetHealthz => Val (200, BodyHealth)
  | PostRun bound => run bound c
  end.
End Run.
