(* ===== verification/CompensationProofs.v ===== *)
(** What a compensated run leaves behind: its effects are the ones its report shows as done and not undone,
    and nothing is left when the caller cancelled or the context lives, but for the failures the request
    forces. *)
From Stdlib Require Import Ascii String.
From S2P Require Import Prelude WorkReport ReportTree CompensationWorkflow.

(** ** Stages of a run *)

Definition compensations_at (n : nat) : list Compensation :=
  (if (1 <=? n)%nat then [ReleaseInventory] else []) ++ (if (2 <=? n)%nat then [VoidPayment] else []).
(** What the request must allow for so many works to complete. *)
Definition allowed (q : RunRequest) (n : nat) : Prop :=
  ((1 <= n)%nat → rq_StockAvailable q = true) ∧ ((2 <= n)%nat → rq_PaymentAuthorized q = true) ∧
  ((3 <= n)%nat → rq_ShipmentProviderAvailable q = true).
Definition work_names : list string := ["reserve-inventory"; "authorize-payment"; "create-shipment"].
Definition run_at (q : RunRequest) (n : nat) : compensationRun :=
  mkRun q (1 <=? n)%nat (2 <=? n)%nat (3 <=? n)%nat (compensations_at n) None.
Definition at_stage (q : RunRequest) (n : nat) (r : compensationRun) : Prop := r = run_at q n ∧ allowed q n.
Definition no_hook (r : compensationRun) : Prop := cr_afterReserve r = None.

Section Run.
Context `{GU : GoUnicode} `{RL : ReportLib} `{RW : !ReportLaws} `{WL : !WorkflowLib compensationRun} `{WW : !WorkflowLaws compensationRun}.

Ltac stage_flags := unfold allowed in *; repeat split; intros; destruct_and?; try lia; auto with lia.
(** A work that asks for a flag and notes the effect. *)
Lemma run_effect_step (flag : RunRequest → bool) (finish : compensationRun → compensationRun) (k : GoM compensationRun Report) err q n name :
  (∀ c, k c (run_at q n) = (Val (Completed name), c, run_at q (S n))) → (flag q = true → allowed q n → allowed q (S n)) →
  work_step name (at_stage q n) (at_stage q (S n))
    (unless_done name (let! r := get in if negb (flag (cr_request r)) then ret (Failed name err) else k)).
Proof.
  intros Hk Hq. apply unless_done_step. intros c s [-> Ha]. unfold bind, get. cbn [cr_request run_at].
  destruct (flag q) eqn:Eq; cbn [negb]; [|by apply (refused_step (Q := at_stage q (S n)))].
  rewrite Hk. do 3 eexists. split; [done|]. destruct (completed_step name) as [Hn Hp]. split; [done|]. left. split; [done|]. split; [done|]. by apply Hq.
Qed.
Lemma run_forward_steps q i name w :
  work_names !! i = Some name → forwardWorks !! i = Some w → work_step name (at_stage q i) (at_stage q (S i)) w.
Proof.
  destruct i as [|[|[|i]]]; intros [= <-] [= <-].
  - apply (run_effect_step rq_StockAvailable id); [done|stage_flags].
  - apply (run_effect_step rq_PaymentAuthorized id); [done|stage_flags].
  - apply (run_effect_step rq_ShipmentProviderAvailable id); [done|stage_flags].
Qed.
Lemma run_forward_returns : Forall (returns (λ _, True)) forwardWorks.
Proof. repeat constructor; unfold reserveInventory, authorizePayment, createShipment; returning fail. Qed.
Lemma undo_returns cs : Forall (returns (λ _, True)) (map compensate cs).
Proof. apply Forall_fmap, Forall_true. intros [|]; cbn; unfold releaseInventory, voidPayment; returning fail. Qed.
Lemma forward_live : Forall (keeps_live no_hook) forwardWorks.
Proof.
  unfold forwardWorks. rewrite !Forall_cons. split_and!; [..|done]; intros c s r c' s' Hs Hc; unfold reserveInventory, authorizePayment, createShipment, unless_done, settle, ctxErr, ctx_poll;
    rewrite Hc; unfold bind, get, modify, ret; cbn; case_match; cbn; rewrite ?Hs; by intros [= <- <- <-].
Qed.

(** ** The forward run *)

Definition completed_child (report : Report) (name : string) : bool :=
  existsb (λ x, bool_decide (wr_Name x = name) && bool_decide (wr_Status x = StatusCompleted)) (wr_Children report).
Lemma completed_child_app name st err reason rs more x :
  Forall (λ r, ¬ completed r) more → completed_child (mkReport name st err reason (rs ++ more)) x = completed_child (mkReport name st err reason rs) x.
Proof.
  intros H. unfold completed_child. cbn. rewrite existsb_app. replace (existsb _ more) with false; [by rewrite orb_false_r|]. symmetry.
  induction H as [|r more Hr _ IH]; [done|]. cbn. rewrite IH, (bool_decide_eq_false_2 (wr_Status r = _)) by done. by rewrite andb_false_r.
Qed.
Definition forward_end (n : nat) (rep : Report) : Prop :=
  (n <= 3)%nat ∧ (∀ name, completed_child rep name = bool_decide (name ∈ take n work_names)) ∧
  (if bool_decide (n = 3%nat) then completed rep ∧ ReportTree.firstError rep = None else stopped rep).

Lemma plain_children name st err reason rs names x :
  Forall plain rs → map wr_Name rs = names → completed_child (mkReport name st err reason rs) x = bool_decide (x ∈ names).
Proof.
  intros H <-. unfold completed_child. cbn. induction H as [|r rs Hr _ IH]; [done|]. cbn [existsb map]. rewrite IH.
  rewrite (bool_decide_eq_true_2 (wr_Status r = _)) by (by rewrite Hr). rewrite andb_true_r.
  repeat case_bool_decide; try done; set_solver.
Qed.
Lemma run_sums_up n rs cut rep :
  sums_up "fulfillment-forward" StopOnFailure rs cut rep → progress work_names n rs cut → forward_end n rep.
Proof.
  intros Hs Hp. unfold forward_end. destruct Hp as [Hn Hm Hf|rs' x Hn -> Hm Hf Hx He|e Hn Hm Hf]; cbn in Hn.
  - split; [lia|]. rewrite bool_decide_eq_true_2, firstn_all2 by (cbn; lia). destruct Hs as [[_ ->]|(rs' & x & _ & Hc & _)].
    + split; [intros name; by apply plain_children|]. split; [done|]. by apply firstError_plain.
    + destruct Hc. by apply plain_all.
  - split; [lia|]. rewrite bool_decide_eq_false_2 by lia. assert (stopped x) as Hstop by done. pose proof (stopped_not_completed _ Hstop) as Hnx.
    destruct Hs as [[Hc _]|(rs2 & y & E & _ & _ & Hch & Hst & Herr & _)].
    { by apply Forall_app in Hc as [_ [Hc _]%Forall_cons]. }
    apply app_inj_tail in E as [_ <-]. split; [|unfold stopped; by rewrite Hst, Herr].
    intros name. destruct rep as [rn rst re rr rc]. cbn in Hch. subst rc. rewrite completed_child_app by (by constructor).
    apply plain_children; [done|]. rewrite map_app in Hm. cbn [map] in Hm.
    assert (length (map wr_Name rs') = n).
    { apply (f_equal length) in Hm. rewrite length_app, length_take in Hm. cbn [length] in Hm. change (length work_names) with 3%nat in Hm. lia. }
    apply (f_equal (take n)) in Hm. by rewrite take_take, Nat.min_l, take_app_length' in Hm by lia.
  - split; [lia|]. rewrite bool_decide_eq_false_2 by lia. destruct Hs as (_ & Hst & Herr & more & Hch & Hmore).
    split; [|unfold stopped; rewrite Hst, Herr; split; [right; left|by eexists]].
    intros name. destruct rep as [rn rst re rr rc]. cbn in Hch. subst rc. rewrite completed_child_app by done. by apply plain_children.
Qed.
Lemma run_forward q c :
  ∃ rep c' n, forwardRunner c (run_at q 0) = (Val rep, c', run_at q n) ∧ allowed q n ∧ forward_end n rep ∧ (ctx_polls c = None → c' = c).
Proof.
  destruct (sequential_run (λ _, True) "fulfillment-forward" StopOnFailure forwardWorks c (run_at q 0) I run_forward_returns) as (rep & rs & cut & c' & r' & E & Hr & Hs).
  destruct (works_progress (at_stage q) work_names forwardWorks 0 c (run_at q 0) rs cut c' r') as (n & [-> Ha] & Hp);
    [done|apply run_forward_steps|by split; [|unfold allowed; repeat split; lia]|done|].
  exists rep, c', n. split; [exact E|]. split; [exact Ha|]. split; [by eapply run_sums_up|]. intros Hc.
  exact (works_live no_hook _ _ c (run_at q 0) _ _ _ _ forward_live eq_refl Hc Hr).
Qed.

(** ** Compensations *)

Definition undo (r : compensationRun) (work : Compensation) : compensationRun :=
  match work with
  | ReleaseInventory => if rq_ReleaseInventoryFails (cr_request r) then r else reserved false r
  | VoidPayment => if rq_VoidPaymentFails (cr_request r) then r else authorized false r
  end.
Definition undo_name (work : Compensation) : string := match work with ReleaseInventory => "release-inventory" | VoidPayment => "void-payment" end.
Definition undo_fails (q : RunRequest) (work : Compensation) : bool :=
  match work with ReleaseInventory => rq_ReleaseInventoryFails q | VoidPayment => rq_VoidPaymentFails q end.
Lemma undo_undoes q work : undoes compensate undo undo_name (undo_fails q) (λ r, cr_request r = q) work.
Proof.
  destruct work; (eapply (unless_done_undoes compensate undo undo_name (undo_fails q)); [exact RW|exact eq_refl|]);
    intros c r Hq; cbn in Hq; subst q; unfold bind, get, modify, ret; cbn; case_match; by split.
Qed.
(** What is left by the report: what it does not show as undone. *)
Definition left_by (q : RunRequest) (n : nat) (undone : bool) (crep : Report) (r : compensationRun) : Prop :=
  cr_inventoryReserved r = negb (completed_child crep "release-inventory") ∧
  cr_paymentAuthorized r = (2 <=? n)%nat && negb (completed_child crep "void-payment") ∧ cr_shipmentCreated r = false ∧
  (undone = true → cr_inventoryReserved r = rq_ReleaseInventoryFails q ∧ cr_paymentAuthorized r = (2 <=? n)%nat && rq_VoidPaymentFails q).
Lemma undo_children q works rs name st err reason x :
  Forall2 (λ work r, reports_undo (undo_name work) (undo_fails q work) r) works rs →
  completed_child (mkReport name st err reason rs) x = existsb (λ work, bool_decide (undo_name work = x) && negb (undo_fails q work)) works.
Proof.
  intros H. unfold completed_child. cbn. induction H as [|work r works rs [Hn Hr] _ IH]; [done|]. cbn [existsb]. rewrite IH. f_equal. rewrite Hn. f_equal.
  destruct (undo_fails q work); [rewrite Hr; done|]. by apply bool_decide_eq_true_2.
Qed.
Lemma undo_run q n c :
  (n = 1 ∨ n = 2)%nat → ∃ crep c' r',
    Sequential "compensation" ContinueOnFailure (reverseCompensations (run_at q n)) c (run_at q n) = (Val crep, c', r') ∧
    left_by q n false crep r' ∧ (ctx_polls c = None → left_by q n true crep r').
Proof.
  intros Hn. unfold reverseCompensations. set (works := rev (cr_compensations (run_at q n))).
  destruct (sequential_run (λ _, True) "compensation" ContinueOnFailure (map compensate works) c (run_at q n) I) as (crep & rs & cut & c' & r' & E & Hr & Hs); [apply undo_returns|].
  destruct (works_undo compensate undo undo_name (undo_fails q) (λ r, cr_request r = q) works c (run_at q n) rs cut c' r' (undo_undoes q) eq_refl Hr)
    as (k & rs1 & rs2 & Hk & -> & -> & Hf & Hf2 & Hall).
  exists crep, c', (foldl undo (run_at q n) (take k works)). split; [exact E|].
  assert (∀ x, completed_child crep x = existsb (λ work, bool_decide (undo_name work = x) && negb (undo_fails q work)) (take k works)) as Hch.
  { intros x. rewrite <- (undo_children q _ rs1 "" "" None "" x Hf).
    destruct crep as [cn cst ce cr cc]. assert (∃ more, cc = rs1 ++ more ∧ Forall (λ r, ¬ completed r) more) as (more & -> & Hmore).
    { destruct cut as [e|]; cbn in Hs.
      - destruct Hs as (_ & _ & _ & more & -> & Hm). exists (rs2 ++ more). rewrite app_assoc. split; [done|]. by apply Forall_app.
      - destruct Hs as [[_ [= -> -> -> -> ->]]|(rs' & y & _ & _ & _ & -> & _)]; by exists rs2. }
    by rewrite completed_child_app. }
  unfold left_by. rewrite !Hch. split.
  - destruct Hn as [-> | ->]; subst works; cbn in *; (destruct k as [|[|[|k]]]; [..|lia]); cbn; try lia;
      destruct (rq_ReleaseInventoryFails q) eqn:E1, (rq_VoidPaymentFails q) eqn:E2; cbn; rewrite ?E1, ?E2; cbn; rewrite ?E1; repeat split; done.
  - intros Hc. rewrite (Hall Hc), firstn_all.
    destruct Hn as [-> | ->]; subst works; cbn;
      destruct (rq_ReleaseInventoryFails q) eqn:E1, (rq_VoidPaymentFails q) eqn:E2; cbn; rewrite ?E1, ?E2; cbn; rewrite ?E1; repeat split; done.
Qed.

(** ** A whole run *)

Definition shown_done (node : reportNode) (name : string) : bool :=
  existsb (λ x, bool_decide (nd_Name x = name) && bool_decide (nd_Status x = StatusCompleted)) (nd_Children node).
Lemma shown_completed rep name : shown_done (projectReport rep) name = completed_child rep name.
Proof. destruct rep as [rn rst re rr rc]. unfold shown_done, completed_child. cbn. induction rc as [|x rc IH]; [done|]. cbn. rewrite IH. by destruct x. Qed.
(** The effects of a run, by its forward report and the reports of its compensations. *)
Definition left_effects (fwd : Report) (creps : list Report) : effectsDTO :=
  mkEffects (completed_child fwd "reserve-inventory" && negb (existsb (λ r, completed_child r "release-inventory") creps))
    (completed_child fwd "authorize-payment" && negb (existsb (λ r, completed_child r "void-payment") creps))
    (completed_child fwd "create-shipment").
Definition effects_of (r : compensationRun) : effectsDTO := mkEffects (cr_inventoryReserved r) (cr_paymentAuthorized r) (cr_shipmentCreated r).
Definition clean_effects (q : RunRequest) (fwd : Report) : effectsDTO :=
  mkEffects (completed_child fwd "reserve-inventory" && rq_ReleaseInventoryFails q) (completed_child fwd "authorize-payment" && rq_VoidPaymentFails q) false.
(** The compensation of a forward run, under the context the code gives it. *)
Lemma compensation_of_forward q n fwd c c1 :
  (n = 1 ∨ n = 2)%nat → (∀ name, completed_child fwd name = bool_decide (name ∈ take n work_names)) → (ctx_polls c = None → c1 = c) →
  ∃ crep c' r', (if IsCancelled fwd then withoutCancel (Sequential "compensation" ContinueOnFailure (reverseCompensations (run_at q n)))
      else Sequential "compensation" ContinueOnFailure (reverseCompensations (run_at q n))) c1 (run_at q n) = (Val crep, c', r') ∧
    cr_shipmentCreated r' = false ∧ effects_of r' = left_effects fwd [crep] ∧
    (IsCancelled fwd = true ∨ ctx_polls c = None → effects_of r' = clean_effects q fwd).
Proof.
  intros Hn Hch Hlive.
  assert (∃ crep c' r', (if IsCancelled fwd then withoutCancel (Sequential "compensation" ContinueOnFailure (reverseCompensations (run_at q n)))
      else Sequential "compensation" ContinueOnFailure (reverseCompensations (run_at q n))) c1 (run_at q n) = (Val crep, c', r') ∧
      left_by q n false crep r' ∧ (IsCancelled fwd = true ∨ ctx_polls c = None → left_by q n true crep r')) as (crep & c' & r' & Ec & Hl & Hu).
  { destruct (IsCancelled fwd).
    - destruct (undo_run q n Background Hn) as (crep & c' & r' & Ec & Hl & Hu). unfold withoutCancel. rewrite Ec. by eauto 8.
    - destruct (undo_run q n c1 Hn) as (crep & c' & r' & Ec & Hl & Hu). exists crep, c', r'. split; [done|]. split; [done|].
      intros [?|Hc]; [done|]. rewrite (Hlive Hc) in Hu. by apply Hu. }
  exists crep, c', r'. split; [done|]. split; [apply Hl|]. split.
  - destruct Hl as (H1 & H2 & H3 & _). unfold effects_of, left_effects. rewrite H1, H2, H3, !Hch. cbn. rewrite !orb_false_r.
    by destruct Hn as [-> | ->].
  - intros H. destruct (Hu H) as (_ & _ & H3 & H4). destruct (H4 eq_refl) as [H5 H6]. unfold effects_of, clean_effects. rewrite H3, H5, H6, !Hch.
    by destruct Hn as [-> | ->].
Qed.
Definition outcome (q : RunRequest) (c : Ctx) (r : compensationRun) (rep : Report) (compensated : bool) (err : option GoError) : Prop :=
  ∃ fwd creps, wr_Children rep = fwd :: creps ∧ effects_of r = left_effects fwd creps ∧
  if IsSuccess rep
  then allowed q 3 ∧ effects_of r = mkEffects true true true ∧ compensated = false ∧ err = None
  else wr_Status rep ∈ [StatusFailed; StatusCancelled] ∧ cr_shipmentCreated r = false ∧ compensated = completed_child fwd "reserve-inventory" ∧
    is_Some err ∧ (wr_Status rep = StatusCancelled ∨ ctx_polls c = None → effects_of r = clean_effects q fwd).
Lemma run_execute q c :
  ∃ rep compensated err c' r', execute c (run_at q 0) = (Val (rep, compensated, err), c', r') ∧ outcome q c r' rep compensated err.
Proof.
  destruct (run_forward q c) as (fwd & c1 & n & E & Ha & (Hn & Hch & Hend) & Hlive). unfold execute, bind at 1, get. rewrite E. unfold bind at 1.
  unfold CompensationWorkflow.firstError.
  assert (effects_of (run_at q n) = left_effects fwd []) as Heff.
  { unfold left_effects. rewrite !Hch. by destruct n as [|[|[|[|n]]]]; [..|lia]. }
  case_bool_decide as E3.
  { subst n. destruct Hend as [Hc Hf]. rewrite is_success, bool_decide_eq_true_2 by done. cbn [orb]. rewrite Hf. do 5 eexists. split; [done|].
    exists fwd, []. split; [done|]. split; [exact Heff|]. rewrite is_success. cbn [wr_Status parentReport ReportTree.parentReport].
    rewrite bool_decide_eq_true_2 by done. by split_and!. }
  destruct Hend as [Hst [err Herr]]. rewrite is_success, (bool_decide_eq_false_2 (wr_Status fwd = _)) by (by apply stopped_not_completed; split; [|eexists]).
  cbn [orb]. rewrite (firstError_some _ _ Herr). destruct (decide (n = 0%nat)) as [->|H0].
  { cbn [cr_compensations run_at compensations_at Nat.leb app len length Z.of_nat Z.eqb]. do 5 eexists. split; [done|].
    exists fwd, []. split; [done|]. split; [exact Heff|]. rewrite is_success. cbn [wr_Status parentReport ReportTree.parentReport].
    rewrite bool_decide_eq_false_2 by (by apply stopped_not_completed; split; [|eexists]). rewrite Hch.
    split; [done|]. split; [done|]. split; [done|]. split; [by eexists|]. intros _. unfold clean_effects. by rewrite !Hch. }
  assert (n = 1 ∨ n = 2)%nat as Hn' by lia.
  assert ((len (cr_compensations (run_at q n)) =? 0) = false) as -> by (by destruct Hn' as [-> | ->]).
  destruct (compensation_of_forward q n fwd c c1 Hn' Hch Hlive) as (crep & c' & r' & Ec & Hship & Heff' & Hclean).
  assert (completed_child fwd "reserve-inventory" = true) as Hr by (rewrite Hch; by destruct Hn' as [-> | ->]).
  rewrite is_cancelled in *. case_bool_decide as Hcan; unfold bind; rewrite Ec; do 5 eexists; (split; [done|]); exists fwd, [crep]; (split; [done|]);
    (split; [exact Heff'|]); rewrite is_success; cbn; rewrite Hr; (split; [set_solver|]); (split; [done|]); (split; [done|]); (split; [by eexists|]); naive_solver.
Qed.

Definition trimmed (request : RunRequest) : RunRequest :=
  mkRequest (TrimSpace (rq_OrderID request)) (rq_StockAvailable request) (rq_PaymentAuthorized request)
    (rq_ShipmentProviderAvailable request) (rq_VoidPaymentFails request) (rq_ReleaseInventoryFails request).
(** The effects a tree shows: done by a forward work, and not undone by a compensation. *)
Definition shown_effects (forward : reportNode) (others : list reportNode) : effectsDTO :=
  mkEffects (shown_done forward "reserve-inventory" && negb (existsb (λ x, shown_done x "release-inventory") others))
    (shown_done forward "authorize-payment" && negb (existsb (λ x, shown_done x "void-payment") others))
    (shown_done forward "create-shipment").
Lemma shown_left fwd creps : shown_effects (projectReport fwd) (map projectReport creps) = left_effects fwd creps.
Proof.
  unfold shown_effects, left_effects. rewrite !shown_completed. f_equal; f_equal; f_equal; induction creps as [|r creps IH]; cbn; [done| |done|]; by rewrite IH, shown_completed.
Qed.
Lemma statusForReport_of rep :
  wr_Status rep ∈ [StatusFailed; StatusCancelled] → statusForReport rep ∈ [408; 409] ∧ (statusForReport rep = 408 → wr_Status rep = StatusCancelled).
Proof.
  intros H. unfold statusForReport. rewrite is_cancelled, is_success, is_failure, is_partial.
  rewrite !elem_of_cons, elem_of_nil in H. destruct_or! H; try done; rewrite H; vm_compute; (split; [set_solver|done]).
Qed.

(** C27: Whatever the request and whenever its context ends, the effects a run leaves are those its report
    shows: what a forward work completed and no completed compensation undid. It is answered with 200 exactly
    when all three effects are there, with no compensation; otherwise, with 408 or 409 and the text of an
    error, nothing is shipped, and a run is compensated exactly when it had reserved something. If the
    forward run was cancelled, or the context never ends, what is left is only what the request makes fail
    to be undone. *)
Theorem effects_match_report request c :
  match run (inr request) c with
  | Val (status, BodyRun body) =>
      ∃ forward others, nd_Children (rp_Report body) = forward :: others ∧ rp_Effects body = shown_effects forward others ∧
      ((status = 200 ∧ rp_Completed body = true ∧ allowed request 3 ∧ rp_Effects body = mkEffects true true true ∧
        rp_Compensated body = false ∧ rp_OriginalError body = "") ∨
       (status ∈ [408; 409] ∧ rp_Completed body = false ∧ ef_ShipmentCreated (rp_Effects body) = false ∧
        rp_Compensated body = shown_done forward "reserve-inventory" ∧ (∃ err, rp_OriginalError body = Error err) ∧
        (status = 408 ∨ ctx_polls c = None → rp_Effects body =
           mkEffects (shown_done forward "reserve-inventory" && rq_ReleaseInventoryFails request)
             (shown_done forward "authorize-payment" && rq_VoidPaymentFails request) false)))
  | Val (status, BodyError e) => status = 400 ∧ ep_Code e = "invalid_request"
  | _ => False
  end.
Proof.
  unfold run. fold (trimmed request). destruct (validateRequest (trimmed request)); [done|].
  destruct (run_execute (trimmed request) c) as (rep & compensated & err & c' & r' & E & fwd & creps & Hch & Heff & H).
  change (mkRun (trimmed request) false false false [] None) with (run_at (trimmed request) 0). rewrite E. cbn.
  exists (projectReport fwd), (map projectReport creps). fold (effects_of r').
  assert (nd_Children (projectReport rep) = projectReport fwd :: map projectReport creps) as -> by (destruct rep; cbn in *; by rewrite Hch).
  split; [done|]. rewrite shown_left. split; [done|]. rewrite !shown_completed. revert H. rewrite is_success. case_bool_decide as Es.
  - intros (Ha & He & -> & ->). left. unfold statusForReport. rewrite is_cancelled, is_success, Es. by split_and!.
  - intros (Hst & Hship & -> & [e ->] & Hclean). right. destruct (statusForReport_of rep Hst) as [H1 H2]. split; [done|].
    split; [done|]. split; [done|]. split; [done|]. split; [by eexists|]. intros H. apply Hclean. destruct H; [left; auto|by right].
Qed.
End Run.

(** ** Witnesses *)

Section Demo.
#[local] Existing Instances plain_unicode plain_reports plain_workflow.

Definition demo_request : RunRequest := mkRequest "order-1" true true false true false.
Definition shown (o : Outcome (Z * Body)) : option (Z * effectsDTO * bool * string) :=
  match o with
  | Val (status, BodyRun b) => Some (status, rp_Effects b, rp_Compensated b, rp_OriginalError b)
  | _ => None
  end.
Lemma effects_match_report_witness :
  match run (inr demo_request) Background with
  | Val (status, BodyRun body) =>
      ∃ forward others, nd_Children (rp_Report body) = forward :: others ∧ rp_Effects body = shown_effects forward others ∧
      status ∈ [408; 409] ∧ rp_Compensated body = shown_done forward "reserve-inventory"
  | _ => False
  end ∧
  shown (run (inr demo_request) Background) = Some (409, mkEffects false true false, true, "shipment provider is unavailable").
Proof.
  assert (shown (run (inr demo_request) Background) = Some (409, mkEffects false true false, true, "shipment provider is unavailable")) as E by by vm_compute.
  split; [|exact E]. pose proof (effects_match_report demo_request Background) as H.
  destruct (run (inr demo_request) Background) as [[status [|body|e]]|e|]; [done| |done..]. cbn in E. injection E as -> _ _ _.
  destruct H as (forward & others & H1 & H2 & [(H & _)|(H3 & _ & _ & H4 & _)]); [done|]. by exists forward, others.
Defined.
(** A request that allows everything keeps its three effects. *)
Example good_request_keeps :
  shown (run (inr (mkRequest "order-1" true true true false false)) Background) = Some (200, mkEffects true true true, false, "").
Proof. by vm_compute. Qed.
(** A forward run that failed is compensated under the caller's context: if the caller leaves behind the
    failure, nothing is undone, and the answer still says that the run was compensated. *)
Lemma late_cancellation_leaves_effects :
  shown (run (inr (mkRequest "order-1" true true false false false)) {| ctx_polls := Some 6%nat; ctx_cause := ByCancel |}) =
    Some (409, mkEffects true true false, true, "shipment provider is unavailable").
Proof. by vm_compute. Qed.
End Demo.
