(* ===== verification/OperationsReport.v ===== *)
(** examples/operations-report-policy/internal/operations: a checklist whose steps report, aggregated under the
    policy a request asks for. The workreport package is a parameter. *)
From Stdlib Require Import Ascii String.
From S2P Require Import Prelude WorkReport ReportTree.

Definition policyStopOnFailureLabel : string := "stop_on_failure".
Definition policyContinueOnFailureLabel : string := "continue_on_failure".
Definition ErrProductValidation : GoError := Sentinel "operations.ErrProductValidation" "product validation failed".
Definition ErrPartnerNotification : GoError := Sentinel "operations.ErrPartnerNotification" "partner notification failed".
Definition errInvalidRunID : GoError := Sentinel "operations.errInvalidRunID" "run_id is required".
Definition errInvalidPolicy : GoError :=
  Sentinel "operations.errInvalidPolicy" "policy must be stop_on_failure or continue_on_failure".
Definition errMissingProductsFlag : GoError := Sentinel "operations.errMissingProductsFlag" "products_valid is required".

(** ** Data *)

Record RunRequest := mkRequest {
  rq_RunID : string; rq_Policy : string; rq_ProductsValid : Ptr bool; rq_RetryPartnerNotification : bool;
  rq_SkipSearchIndex : bool
}.
Definition summaryDTO : Type := ReportTree.summaryDTO.
Definition reportNode : Type := ReportTree.reportNode.
Definition errorResponse : Type := ReportTree.errorResponse.
Record runResponse := mkResponse {
  rp_RunID : string; rp_Policy : string; rp_Status : string; rp_Summary : summaryDTO; rp_Report : reportNode
}.
Record operationsRun := mkRun { or_request : RunRequest; or_policy : FailurePolicy }.

Section Run.
Context `{GU : GoUnicode} `{RL : ReportLib}.

Definition parsePolicy (value : string) : GoError + FailurePolicy :=
  if bool_decide (value = policyStopOnFailureLabel) then inr StopOnFailure
  else if bool_decide (value = policyContinueOnFailureLabel) then inr ContinueOnFailure
  else inl (Errorf "%w: got %q" [errInvalidPolicy] [FStr value]).
Definition validateRequest (request : RunRequest) : GoError + FailurePolicy :=
  if bool_decide (rq_RunID request = "") then inl errInvalidRunID
  else if bool_decide (rq_ProductsValid request = None) then inl errMissingProductsFlag
  else parsePolicy (rq_Policy request).

(** ** Steps: a run changes nothing but its context. *)

Definition loadCatalogSnapshot (r : operationsRun) : GoM unit Report :=
  unless_done "load-catalog-snapshot" (ret (Completed "load-catalog-snapshot")).
Definition validateProducts (r : operationsRun) : GoM unit Report :=
  unless_done "validate-products"
    (match rq_ProductsValid (or_request r) with
     | None => panic
     | Some valid =>
         if negb valid then ret (Failed "validate-products" ErrProductValidation) else ret (Completed "validate-products")
     end).
Definition notifyPartner (r : operationsRun) : GoM unit Report :=
  unless_done "notify-partner"
    (if negb (rq_RetryPartnerNotification (or_request r)) then ret (Completed "notify-partner")
     else
       match Aggregate "notify-partner" ContinueOnFailure
               [Failed "notify-partner-attempt-1" ErrPartnerNotification; Completed "notify-partner-attempt-2"] with
       | inl err => ret (Failed "notify-partner" err)
       | inr report => ret report
       end).
Definition refreshSearchIndex (r : operationsRun) : GoM unit Report :=
  unless_done "refresh-search-index"
    (if rq_SkipSearchIndex (or_request r) then ret (Aborted "refresh-search-index" "skipped by request")
     else ret (Completed "refresh-search-index")).
Definition writeRunSummary (r : operationsRun) : GoM unit Report :=
  unless_done "write-run-summary" (ret (Completed "write-run-summary")).

Definition steps : list (operationsRun → GoM unit Report) :=
  [loadCatalogSnapshot; validateProducts; notifyPartner; refreshSearchIndex; writeRunSummary].
Fixpoint run_steps (r : operationsRun) (works : list (operationsRun → GoM unit Report)) : GoM unit (list Report) :=
  match works with
  | [] => ret []
  | step :: works =>
      let! report := step r in
      if bool_decide (or_policy r = StopOnFailure) && bool_decide (wr_Status report ≠ StatusCompleted) then ret [report]
      else let! reports := run_steps r works in ret (report :: reports)
  end.
Definition run (r : operationsRun) : GoM unit Report :=
  settle ctxErr (λ err, ret (Cancelled "operations-run" err)) (λ _,
    let! reports := run_steps r steps in
    or_fail id (Aggregate "operations-run" (or_policy r) reports)).

(** ** Requests *)

Definition statusForReport (report : Report) : Z :=
  if IsCancelled report then 408
  else if IsSuccess report then 200
  else if IsPartial report then 207
  else if IsFailure report then 409
  else 500.
Definition projectReport : Report → reportNode := ReportTree.projectReport.
Definition walkReports {A} : Report → (Report → A → A) → A → A := ReportTree.walkReports.
Definition summarizeReport : Report → summaryDTO := ReportTree.summarizeReport.
Inductive Body := BodyHealth | BodyRun (r : runResponse) | BodyError (r : errorResponse).
Definition writeError (status : Z) (code : string) (err : GoError) : Z * Body := (status, BodyError (mkErrorResponse code (Error err))).
(** The server keeps nothing between requests. gin binds a JSON body to a request or an error. *)
Definition handleRun (bound : GoError + RunRequest) (c : Ctx) : Outcome (Z * Body) :=
  match bound with
  | inl err => Val (writeError 400 "invalid_request" err)
  | inr request =>
      let request :=
        mkRequest (TrimSpace (rq_RunID request)) (TrimSpace (rq_Policy request)) (rq_ProductsValid request)
          (rq_RetryPartnerNotification request) (rq_SkipSearchIndex request) in
      match validateRequest request with
      | inl err => Val (writeError 400 "invalid_request" err)
      | inr policy =>
          match run (mkRun request policy) c tt with
          | (Val report, _, _) =>
              Val (statusForReport report, BodyRun (mkResponse (rq_RunID request) (rq_Policy request) (wr_Status report)
                (summarizeReport report) (projectReport report)))
          | (Fail err, _, _) => Val (writeError 400 "invalid_request" err)
          | (Panic, _, _) => Panic
          end
      end
  end.
Inductive HttpRequest := GetHealthz | PostRun (bound : GoError + RunRequest).
Definition serve (request : HttpRequest) (c : Ctx) : Outcome (Z * Body) :=
  match request with
  | GetHealthz => Val (200, BodyHealth)
  | PostRun bound => handleRun bound c
  end.
End Run.
