(* ===== verification/OperationsProofs.v ===== *)
(** What a checklist reports: its steps up to where the policy stops it, each as the request has it or
    cancelled once the context has ended, and a root and a status code that follow from them. *)
From Stdlib Require Import Ascii String.
From S2P Require Import Prelude WorkReport ReportTree OperationsReport.

(** ** The reports a request asks for *)

Definition Outline : Type := string * Status.
Definition expected (q : RunRequest) : list Outline :=
  [("load-catalog-snapshot", StatusCompleted);
   ("validate-products", if default false (rq_ProductsValid q) then StatusCompleted else StatusFailed);
   ("notify-partner", if rq_RetryPartnerNotification q then StatusPartial else StatusCompleted);
   ("refresh-search-index", if rq_SkipSearchIndex q then StatusAborted else StatusCompleted);
   ("write-run-summary", StatusCompleted)].
(** The outlines when the context ends behind so many steps. *)
Definition faced (k : nat) (xs : list Outline) : list Outline := take k xs ++ map (λ x, (x.1, StatusCancelled)) (drop k xs).
(** Up to the first that is not completed. *)
Fixpoint cut (policy : FailurePolicy) (xs : list Outline) : list Outline :=
  match xs with
  | [] => []
  | x :: xs =>
      if bool_decide (policy = StopOnFailure) && bool_decide (x.2 ≠ StatusCompleted) then [x] else x :: cut policy xs
  end.
Definition all_completed (xs : list Outline) : bool := forallb (λ x, bool_decide (x.2 = StatusCompleted)) xs.
Definition root_status (policy : FailurePolicy) (xs : list Outline) : Status :=
  if all_completed xs then StatusCompleted
  else match policy with
       | StopOnFailure => default StatusCompleted (snd <$> last xs)
       | ContinueOnFailure => StatusPartial
       end.
Definition code_of (st : Status) : Z :=
  if bool_decide (st = StatusCancelled) then 408 else if bool_decide (st = StatusCompleted) then 200
  else if bool_decide (st = StatusPartial) then 207 else if bool_decide (st ∈ failures) then 409 else 500.
Definition outline (r : Report) : Outline := (wr_Name r, wr_Status r).
Lemma cut_shape policy xs :
  all_completed (cut policy xs) = false →
  match policy with
  | StopOnFailure => ∃ ys x, cut policy xs = ys ++ [x] ∧ all_completed ys = true ∧ x.2 ≠ StatusCompleted
  | ContinueOnFailure => True
  end.
Proof.
  destruct policy; [|done]. induction xs as [|x xs IH]; cbn [cut]; [done|].
  rewrite (bool_decide_eq_true_2 (StopOnFailure = _)) by done. cbn [andb]. case_bool_decide as E; cbn.
  - intros _. by exists [], x.
  - rewrite bool_decide_eq_true_2 by done. cbn. intros H. destruct (IH H) as (ys & y & -> & Hy & Hx).
    exists (x :: ys), y. split; [done|]. split; [|done]. cbn. rewrite bool_decide_eq_true_2 by done. done.
Qed.

Section Run.
Context `{GU : GoUnicode} `{RL : ReportLib} `{RW : !ReportLaws}.

(** A step reports as expected while the context lives, and as cancelled afterwards. *)
Definition step_as (r : operationsRun) (step : operationsRun → GoM unit Report) (x : Outline) : Prop :=
  ∀ c, ∃ rep c', step r c tt = (Val rep, c', tt) ∧
    ((ctx_poll c = (None, c') ∧ outline rep = x) ∨ (∃ e, ctx_poll c = (Some e, c') ∧ outline rep = (x.1, StatusCancelled))).
Lemma unless_done_as r name st rep (k : GoM unit Report) step :
  step r = unless_done name k → (∀ c, k c tt = (Val rep, c, tt)) → outline rep = (name, st) → step_as r step (name, st).
Proof.
  intros Hs Hk Ho c. rewrite Hs. unfold unless_done, settle, ctxErr. destruct (ctx_poll c) as [[e|] c1] eqn:Ec.
  - do 2 eexists. split; [done|]. right. exists e. split; [done|]. unfold outline. by rewrite cancelled_report.
  - rewrite Hk. do 2 eexists. split; [done|]. by left.
Qed.
Lemma steps_as q policy : is_Some (rq_ProductsValid q) → Forall2 (step_as (mkRun q policy)) steps (expected q).
Proof.
  intros [valid Hv]. unfold steps, expected. rewrite Hv. cbn [default].
  assert (∀ name, outline (Completed name) = (name, StatusCompleted)) as Hc by (intros name; unfold outline; by rewrite completed_report).
  repeat apply List.Forall2_cons; [..|constructor].
  - by eapply unless_done_as; [done| |apply Hc].
  - destruct valid; (eapply unless_done_as; [done|intros c; cbn; rewrite Hv; done|]); [apply Hc|unfold outline; by rewrite failed_report].
  - destruct (rq_RetryPartnerNotification q) eqn:Er.
    + destruct (aggregate_continue "notify-partner" [Failed "notify-partner-attempt-1" ErrPartnerNotification; Completed "notify-partner-attempt-2"])
        as (e & reason & E); [intros [H _]%Forall_cons; revert H; unfold completed; by rewrite failed_report|].
      eapply unless_done_as; [done|intros c; cbn; rewrite Er; cbn; rewrite E; done|done].
    + eapply unless_done_as; [done|intros c; cbn; rewrite Er; done|apply Hc].
  - destruct (rq_SkipSearchIndex q) eqn:Es; (eapply unless_done_as; [done|intros c; cbn; rewrite Es; done|]);
      [unfold outline; by rewrite aborted_report|apply Hc].
  - by eapply unless_done_as; [done| |apply Hc].
Qed.

Lemma run_steps_as r works xs c :
  Forall2 (step_as r) works xs → ∃ reports c' k, run_steps r works c tt = (Val reports, c', tt) ∧ (k <= length xs)%nat ∧
    map outline reports = cut (or_policy r) (faced k xs) ∧ (ctx_polls c = Some 0%nat → k = 0%nat) ∧ (ctx_polls c = None → k = length xs).
Proof.
  intros H. revert c. induction H as [|step x works xs Hs _ IH]; intros c; cbn [run_steps].
  { exists [], c, 0%nat. by repeat split. }
  unfold bind at 1. destruct (Hs c) as (rep & c1 & -> & [[Hp Ho]|(e & Hp & Ho)]).
  - assert (wr_Status rep = x.2) as Est by (by rewrite <- Ho). rewrite Est. destruct (_ && _) eqn:Eb.
    + exists [rep], c1, (length (x :: xs)). split; [done|]. split; [done|]. split; [|split; [|done]].
      * unfold faced. rewrite firstn_all, drop_all, app_nil_r. cbn. by rewrite Eb, Ho.
      * intros Hc. unfold ctx_poll in Hp. by rewrite Hc in Hp.
    + destruct (IH c1) as (reports & c2 & k & E & Hk & Hm & Hd & Hl). unfold bind. rewrite E. exists (rep :: reports), c2, (S k).
      split; [done|]. split; [cbn; lia|]. split; [|split].
      * unfold faced in *. cbn. by rewrite Eb, Ho, Hm.
      * intros Hc. unfold ctx_poll in Hp. by rewrite Hc in Hp.
      * intros Hc. cbn [length]. f_equal. apply Hl. unfold ctx_poll in Hp. rewrite Hc in Hp. by injection Hp as <-.
  - assert (wr_Status rep = StatusCancelled) as -> by (by injection Ho). assert (ctx_polls c = Some 0%nat ∧ c1 = c) as [Hc ->].
    { unfold ctx_poll in Hp. destruct (ctx_polls c) as [[|n]|]; try done. by injection Hp. }
    destruct (_ && _) eqn:Eb.
    + exists [rep], c, 0%nat. split; [done|]. split; [lia|]. split; [|split; [done|by rewrite Hc]]. unfold faced. cbn. by rewrite Eb, Ho.
    + destruct (IH c) as (reports & c2 & k & E & Hk & Hm & Hd & _). rewrite (Hd Hc) in Hm. unfold bind. rewrite E. exists (rep :: reports), c2, 0%nat.
      split; [done|]. split; [lia|]. split; [|split; [done|by rewrite Hc]]. unfold faced in *. cbn. by rewrite Eb, Ho, Hm.
Qed.

Lemma all_completed_reports rs : all_completed (map outline rs) = true ↔ Forall completed rs.
Proof.
  induction rs as [|r rs IH]; [by split|]. unfold all_completed in *. cbn. rewrite Forall_cons, andb_true_iff, IH, bool_decide_eq_true. done.
Qed.
Lemma aggregate_root name policy rs xs :
  map outline rs = cut policy xs → ∃ e reason, Aggregate name policy rs = inr (mkReport name (root_status policy (map outline rs)) e reason rs).
Proof.
  intros Hm. unfold root_status. destruct (all_completed (map outline rs)) eqn:Ea.
  { apply all_completed_reports in Ea. rewrite (aggregate_completed name policy rs Ea). eauto. }
  assert (¬ Forall completed rs) as Hn by (intros H; apply all_completed_reports in H; congruence).
  destruct policy; [|by apply aggregate_continue]. rewrite Hm in Ea |- *. destruct (cut_shape _ _ Ea) as (ys & x & E & Hy & Hx).
  rewrite E in Hm |- *. rewrite last_snoc. cbn. destruct rs as [|r rs _] using rev_ind; [by destruct ys|]. rewrite map_app in Hm. cbn in Hm.
  apply app_inj_tail in Hm as [Hrs <-]. rewrite aggregate_stop; [by eauto| |done]. apply all_completed_reports. by rewrite Hrs.
Qed.

Definition trimmed (request : RunRequest) : RunRequest :=
  mkRequest (TrimSpace (rq_RunID request)) (TrimSpace (rq_Policy request)) (rq_ProductsValid request)
    (rq_RetryPartnerNotification request) (rq_SkipSearchIndex request).
Definition node_outline (n : reportNode) : Outline := (nd_Name n, nd_Status n).
Lemma project_outline rep : node_outline (projectReport rep) = outline rep ∧ map node_outline (nd_Children (projectReport rep)) = map outline (wr_Children rep).
Proof. destruct rep as [rn rst re rr rc]. split; [done|]. cbn. induction rc as [|x rc IH]; [done|]. cbn. rewrite IH. by destruct x. Qed.
Lemma status_code rep : statusForReport rep = code_of (wr_Status rep).
Proof. unfold statusForReport, code_of. by rewrite is_cancelled, is_success, is_partial, is_failure. Qed.
Lemma validate_products q policy : validateRequest q = inr policy → is_Some (rq_ProductsValid q).
Proof. unfold validateRequest. case_bool_decide; [done|]. case_bool_decide as E; [done|]. intros _. by apply not_eq_None_Some. Qed.

(** A request is refused exactly when it is not valid. Otherwise its report has the steps of the
    checklist in order: each as the request asks for while the context lives, and cancelled afterwards; all
    of them when failures are to be continued, and up to the first that is not completed when they are to
    stop the run. The root is completed when all of them are, and otherwise partial, or what the last step
    is; the status code follows from it. A context that has ended before gives a cancelled root alone. *)
Theorem report_follows_policy request c :
  match validateRequest (trimmed request) with
  | inl err => handleRun (inr request) c = Val (400, BodyError (mkErrorResponse "invalid_request" (Error err)))
  | inr policy => ∃ body, let root := rp_Report body in let kids := map node_outline (nd_Children root) in
      handleRun (inr request) c = Val (code_of (nd_Status root), BodyRun body) ∧ nd_Name root = "operations-run" ∧
      rp_Status body = nd_Status root ∧
      if bool_decide (ctx_polls c = Some 0%nat) then nd_Status root = StatusCancelled ∧ kids = []
      else nd_Status root = root_status policy kids ∧
        ∃ k, (k <= 5)%nat ∧ kids = cut policy (faced k (expected request)) ∧ (ctx_polls c = None → k = 5%nat)
  end.
Proof.
  unfold handleRun. fold (trimmed request). destruct (validateRequest (trimmed request)) as [err|policy] eqn:Ev; [done|].
  unfold run, settle, ctxErr. destruct (ctx_poll c) as [[e|] c1] eqn:Ec.
  - assert (ctx_polls c = Some 0%nat) as -> by (unfold ctx_poll in Ec; by destruct (ctx_polls c) as [[|n]|]).
    unfold ret. rewrite status_code.
    match goal with |- context [mkResponse ?a ?b ?d ?e ?f] => exists (mkResponse a b d e f) end. cbn zeta. rewrite cancelled_report. split; [reflexivity|]. by rewrite bool_decide_eq_true_2.
  - destruct (run_steps_as (mkRun (trimmed request) policy) steps (expected (trimmed request)) c1) as (reports & c2 & k & E & Hk & Hm & _ & Hl);
      [apply steps_as; by eapply validate_products|].
    destruct (aggregate_root "operations-run" policy reports _ Hm) as (e & reason & Ea).
    unfold bind. rewrite E. unfold or_fail, ret, id. cbn [or_policy]. rewrite Ea. rewrite status_code.
    match goal with |- context [mkResponse ?a ?b ?d ?e ?f] => exists (mkResponse a b d e f) end. cbn zeta. split; [reflexivity|].
    cbn [rp_Report rp_Status wr_Status]. set (rep := mkReport _ _ _ _ _). destruct (project_outline rep) as [_ ->].
    split; [done|]. split; [done|]. rewrite bool_decide_eq_false_2 by (intros H; unfold ctx_poll in Ec; by rewrite H in Ec).
    split; [done|]. exists k. split; [done|]. split; [done|]. intros Hc. apply Hl. unfold ctx_poll in Ec. rewrite Hc in Ec. by injection Ec as <-.
Qed.
End Run.

(** ** Witnesses *)

Section Demo.
#[local] Existing Instances plain_unicode plain_reports.

Definition demo_request : RunRequest := mkRequest " release " "continue_on_failure" (Some false) true true.
Definition demo_shown (o : Outcome (Z * Body)) : option (Z * list Outline) :=
  match o with Val (status, BodyRun b) => Some (status, map node_outline (nd_Children (rp_Report b))) | _ => None end.
Lemma report_follows_policy_witness :
  (∃ body, handleRun (inr demo_request) Background = Val (code_of (nd_Status (rp_Report body)), BodyRun body) ∧
     nd_Status (rp_Report body) = root_status ContinueOnFailure (map node_outline (nd_Children (rp_Report body)))) ∧
  demo_shown (handleRun (inr demo_request) Background) = Some (207, expected demo_request).
Proof.
  split; [|by vm_compute]. pose proof (report_follows_policy demo_request Background) as H.
  assert (validateRequest (trimmed demo_request) = inr ContinueOnFailure) as E by by vm_compute. rewrite E in H.
  destruct H as (body & H1 & _ & _ & H2 & _). by exists body.
Defined.
(** The same request stops at its second step under the other policy. *)
Example demo_stops :
  demo_shown (handleRun (inr (mkRequest "release" "stop_on_failure" (Some false) true true)) Background) =
    Some (409, [("load-catalog-snapshot", StatusCompleted); ("validate-products", StatusFailed)]).
Proof. by vm_compute. Qed.
End Demo.
