(* ===== verification/SqlTx.v ===== *)
(** Transactions on shared tables: the interface of database/sql, the driver and sqlkit. The engine is a
    parameter; its laws say that a statement acts on the committed tables and the transaction's own writes,
    that other clients may commit between any two statements, and that they leave a pending write in force. *)
From Stdlib Require Import Ascii String.
From S2P Require Import Prelude.

(** ** Driver errors *)

Record PgError := mkPgError { pg_Code : string; pg_ConstraintName : string }.
Definition unique_violation : string := "23505".
Definition check_violation : string := "23514".
Definition string_truncation : string := "22001".
(** The error values of the driver, by the name they have as a leaf of an error tree. *)
Class PgDriver := { as_PgError : string → option PgError }.
(** [errors.As] with a [*pgconn.PgError] target: the first one of the tree. *)
Fixpoint errors_As `{PgDriver} (e : GoError) : option PgError :=
  match e with
  | Sentinel name _ => as_PgError name
  | Errorf _ ws _ | Join ws =>
      (fix first (es : list GoError) : option PgError :=
         match es with
         | [] => None
         | w :: es => match errors_As w with Some p => Some p | None => first es end
         end) ws
  end.
Lemma as_wrapped `{PgDriver} f e args : errors_As (Errorf f [e] args) = errors_As e.
Proof. cbn. by destruct (errors_As e). Qed.
Lemma is_wrapped f e args target : errors_Is (Errorf f [e] args) target = errors_Is e target.
Proof. cbn. by rewrite orb_false_r. Qed.

Definition ErrNoRows : GoError := Sentinel "sql.ErrNoRows" "sql: no rows in result set".

(** ** Statements *)

(** What a statement does on the tables it sees: the constraints it would break, or its result and its writes. *)
Definition Statement (T W A : Type) : Type := T → list PgError + (A * list W).
(** A statement that writes one row, unless a constraint stands against it. *)
Definition write_row {T W} (broken : T → list PgError) (row : W) : Statement T W unit := λ t,
  match broken t with [] => inr (tt, [row]) | errs => inl errs end.
Lemma write_row_inr {T W} (keys : T → list PgError) (row : W) t ws : write_row keys row t = inr (tt, ws) → ws = [row] ∧ keys t = [].
Proof. unfold write_row. case_match; [|done]. by intros [= <-]. Qed.
Definition select {T W A} (f : T → A) : Statement T W A := λ t, inr (f t, []).
Definition unless_key (present : bool) (name : string) : list PgError :=
  if present then [mkPgError unique_violation name] else [].
Definition unless_check (ok : bool) (code name : string) : list PgError :=
  if ok then [] else [mkPgError code name].

(** Rows a transaction has written and not yet committed: what they do to the tables, and when they still can. *)
Class Pending (T W : Type) := {
  apply_write : T → W → T;
  pending_ok : W → T → Prop
}.
Definition apply_writes `{Pending T W} (t : T) (ws : list W) : T := foldl apply_write t ws.

Lemma apply_writes_app `{Pending T W} (t : T) (ws ws' : list W) : apply_writes t (ws ++ ws') = apply_writes (apply_writes t ws) ws'.
Proof. apply foldl_app. Qed.

(** The committed tables and the engine, as a client of the database and as a transaction sees them. *)
Record World (T E : Type) := mkWorld { w_tables : T; w_engine : E }.
Record Tx (T W E : Type) := mkTx { x_base : T; x_own : list W; x_engine : E }.
#[global] Arguments mkWorld {T E}.
#[global] Arguments w_tables {T E}.
#[global] Arguments w_engine {T E}.
#[global] Arguments mkTx {T W E}.
#[global] Arguments x_base {T W E}.
#[global] Arguments x_own {T W E}.
#[global] Arguments x_engine {T W E}.

(** Statements in a transaction and outside of one, and sqlkit.WithTx. *)
Class SqlEngine (T W E : Type) := {
  on_tx : ∀ {A : Type}, Statement T W A → GoM (Tx T W E) A;
  on_db : ∀ {A : Type}, Statement T W A → GoM (World T E) A;
  WithTx : ∀ {A : Type}, GoM (Tx T W E) A → GoM (World T E) A;
  RowsAffected : Z → GoError + Z;
  clock : E → Z * E
}.

(** A cursor over the rows of a query: the rows it delivers, [rows.Err()] and the error of [rows.Close()]. *)
Class SqlRows (E : Type) := { deliver : ∀ {A : Type}, list A → E → list A * option GoError * option GoError * E }.
Class SqlRowsLaws (E : Type) `{SqlRows E} : Prop := {
  deliver_rows {A} (rows : list A) g delivered err close g' :
    deliver rows g = (delivered, err, close, g') → delivered `prefix_of` rows ∧ (err = None → delivered = rows)
}.

Section Client.
Context {T W E : Type} `{SqlEngine T W E}.
(** [QueryRowContext(...).Scan(...)] of a statement that returns at most one row. *)
Definition one_row {S A} (m : GoM S (option A)) : GoM S A :=
  let! row := m in
  match row with Some a => ret a | None => throw ErrNoRows end.
Definition now_in_tx : GoM (Tx T W E) Z := λ c x,
  let '(z, g) := clock (x_engine x) in (Val z, c, mkTx (x_base x) (x_own x) g).
Definition cursor `{!SqlRows E} {A} (rows : list A) : GoM (World T E) (list A * option GoError * option GoError) := λ c w,
  let '(r, g) := deliver rows (w_engine w) in (Val r, c, mkWorld (w_tables w) g).
End Client.
(** [if err := f(); err != nil { return wrap(err) }]. *)
Definition wrap_errors {S A} (wrap : GoError → GoError) (m : GoM S A) : GoM S A := settle m (λ e, throw (wrap e)) ret.

(** ** What the engine promises *)

Section Laws.
Context {T W E : Type} `{!Pending T W} `{!PgDriver}.
(** What the other clients of the database may commit, and the sentinels no error of the engine wraps. *)
Context (others : T → T → Prop) (mine : string → Prop).

Definition visible (x : Tx T W E) : T := apply_writes (x_base x) (x_own x).
Definition foreign (e : GoError) : Prop := ∀ name, mine name → errors_Is e name = false.
Definition not_unique (e : GoError) : Prop := ∀ p, errors_As e = Some p → pg_Code p ≠ unique_violation.
(** Other commits that leave the pending writes in force: they wait for the locks, and for the unique keys. *)
Definition meanwhile (ws : list W) (t t' : T) : Prop :=
  others t t' ∧ Forall (λ w, pending_ok w t → pending_ok w t') ws.

Inductive answers {A} (st : Statement T W A) (x : Tx T W E) : Outcome A → Tx T W E → Prop :=
  | answered t g a ws :
      meanwhile (x_own x) (x_base x) t → st (apply_writes t (x_own x)) = inr (a, ws) →
      answers st x (Val a) (mkTx t (x_own x ++ ws) g)
  | violated t g e p errs :
      meanwhile (x_own x) (x_base x) t → st (apply_writes t (x_own x)) = inl errs → p ∈ errs →
      errors_As e = Some p → foreign e → answers st x (Fail e) (mkTx t (x_own x) g)
  | broken t g e :
      meanwhile (x_own x) (x_base x) t → not_unique e → foreign e →
      answers st x (Fail e) (mkTx t (x_own x) g).

(** A statement outside of a transaction is one of its own. *)
Inductive answers_db {A} (st : Statement T W A) (t : T) : Outcome A → T → Prop :=
  | db_answered t1 t2 a ws :
      others t t1 → st t1 = inr (a, ws) → others (apply_writes t1 ws) t2 → answers_db st t (Val a) t2
  | db_violated t1 t2 e p errs :
      others t t1 → st t1 = inl errs → p ∈ errs → errors_As e = Some p → foreign e → others t1 t2 →
      answers_db st t (Fail e) t2
  | db_broken t' e : others t t' → not_unique e → foreign e → answers_db st t (Fail e) t'
  | db_lost t1 t2 e a ws :
      others t t1 → st t1 = inr (a, ws) → others (apply_writes t1 ws) t2 → not_unique e → foreign e →
      answers_db st t (Fail e) t2.

(** How a transaction ends: it commits, it fails to, its commit's answer is lost, or it is rolled back, with the
    error of its body preserved. *)
Inductive ends {A} (x : Tx T W E) : Outcome A → Outcome A → T → Prop :=
  | committed a t t' :
      meanwhile (x_own x) (x_base x) t → others (apply_writes t (x_own x)) t' → ends x (Val a) (Val a) t'
  | commit_failed a e t' :
      others (x_base x) t' → not_unique e → foreign e → ends x (Val a) (Fail e) t'
  | commit_lost a e t t' :
      meanwhile (x_own x) (x_base x) t → others (apply_writes t (x_own x)) t' → not_unique e → foreign e →
      ends x (Val a) (Fail e) t'
  | rolled_back e e' t' :
      others (x_base x) t' → errors_As e' = errors_As e → (∀ name, mine name → errors_Is e' name = errors_Is e name) →
      ends x (Fail e) (Fail e') t'
  | unwound t' : others (x_base x) t' → ends x Panic Panic t'.
Inductive transacts {A} (body : GoM (Tx T W E) A) (t : T) : Outcome A → T → Prop :=
  | not_begun e t' : others t t' → not_unique e → foreign e → transacts body t (Fail e) t'
  | began t0 g c o1 c1 x1 o t' :
      others t t0 → body c (mkTx t0 [] g) = (o1, c1, x1) → ends x1 o1 o t' → transacts body t o t'.

Class SqlLaws `{!SqlEngine T W E} : Prop := {
  on_tx_answers {A} (st : Statement T W A) c x o c' x' : on_tx st c x = (o, c', x') → answers st x o x';
  on_db_answers {A} (st : Statement T W A) c w o c' w' :
    on_db st c w = (o, c', w') → answers_db st (w_tables w) o (w_tables w');
  with_tx_transacts {A} (body : GoM (Tx T W E) A) c w o c' w' :
    WithTx body c w = (o, c', w') → transacts body (w_tables w) o (w_tables w');
  rows_affected_count n n' : RowsAffected n = inr n' → n' = n
}.
End Laws.

(** ** Reasoning about a transaction *)

Section Running.
Context {T W E : Type} `{PE : !Pending T W} `{SE : !SqlEngine T W E} {others : T → T → Prop} `{PO : !PreOrder others}.

(** A transaction goes on: others commit, what it has pending stays in force, and it writes more. *)
Record goes_on (x : Tx T W E) (ws : list W) (x' : Tx T W E) : Prop := {
  on_base : others (x_base x) (x_base x');
  on_own : x_own x' = x_own x ++ ws;
  on_pending : Forall (λ w, pending_ok w (x_base x) → pending_ok w (x_base x')) (x_own x)
}.
Lemma goes_on_refl x g : goes_on x [] (mkTx (x_base x) (x_own x) g).
Proof. split; cbn; [reflexivity|by rewrite app_nil_r|]. by apply Forall_true. Qed.
Lemma goes_on_trans x ws x1 ws' x2 : goes_on x ws x1 → goes_on x1 ws' x2 → goes_on x (ws ++ ws') x2.
Proof.
  intros [B1 O1 P1] [B2 O2 P2]. split; [by transitivity (x_base x1)|by rewrite O2, O1, app_assoc|].
  rewrite O1 in P2. apply Forall_app in P2 as [P2 _]. rewrite Forall_forall in *. naive_solver.
Qed.

Lemma goes_on_own x x' : goes_on x [] x' → x_own x' = x_own x.
Proof. intros [_ H _]. by rewrite app_nil_r in H. Qed.

(** All that a transaction has pending can still be committed. *)
Definition in_force (x : Tx T W E) : Prop := Forall (λ w, pending_ok w (x_base x)) (x_own x).
Lemma in_force_goes_on x ws x' :
  goes_on x ws x' → in_force x → Forall (λ w, pending_ok w (x_base x')) ws → in_force x'.
Proof using Type.
  intros [_ Ho Hp] Hx Hw. unfold in_force in *. rewrite Ho. apply Forall_app. split; [|done].
  rewrite Forall_forall in *. naive_solver.
Qed.

Lemma still_pending x ws x' w : goes_on x ws x' → in_force x → w ∈ x_own x → pending_ok w (x_base x').
Proof using Type. intros [_ _ Hp] Hx Hw. unfold in_force in *. rewrite Forall_forall in *. auto. Qed.

(** Every run of [m] from [x] goes on with the transaction, in a value or in an error; it never panics. *)
Definition runs {A} (m : GoM (Tx T W E) A) (x : Tx T W E) (Q : A → list W → Tx T W E → Prop)
    (F : GoError → list W → Tx T W E → Prop) : Prop :=
  ∀ c o c' x', m c x = (o, c', x') →
    ∃ ws, goes_on x ws x' ∧ match o with Val a => Q a ws x' | Fail e => F e ws x' | Panic => False end.

Lemma runs_same {A} (m : GoM (Tx T W E) A) x (Q : A → list W → Tx T W E → Prop) F :
  (∀ c o c' x', m c x = (o, c', x') → x' = x ∧ match o with Val a => Q a [] x | Fail e => F e [] x | Panic => False end) →
  runs m x Q F.
Proof using PO.
  intros H c o c' x' Hr. apply H in Hr as [-> Hr]. exists []. split; [|done]. destruct x as [b ws g]. apply (goes_on_refl (mkTx b ws g)).
Qed.
Lemma runs_ret {A} (a : A) x (Q : A → list W → Tx T W E → Prop) F : Q a [] x → runs (ret a) x Q F.
Proof using PO. intros H. apply runs_same. by intros ???? [= <- <- <-]. Qed.
Lemma runs_throw {A} e x (Q : A → list W → Tx T W E → Prop) (F : GoError → list W → Tx T W E → Prop) : F e [] x → runs (throw e) x Q F.
Proof using PO. intros H. apply runs_same. by intros ???? [= <- <- <-]. Qed.
Lemma runs_or_fail {A} f (r : GoError + A) x (Q : A → list W → Tx T W E → Prop) (F : GoError → list W → Tx T W E → Prop) :
  match r with inr a => Q a [] x | inl e => F (f e) [] x end → runs (or_fail f r) x Q F.
Proof using PO. destruct r; [by apply runs_throw|by apply runs_ret]. Qed.
Lemma runs_ctxErr x (Q : unit → list W → Tx T W E → Prop) (F : GoError → list W → Tx T W E → Prop) :
  Q tt [] x → (∀ cause, F (cause_error cause) [] x) → runs ctxErr x Q F.
Proof using PO. intros HQ HF. apply runs_same. intros c o c' x' [-> [->|[cause ->]]]%ctxErr_inv; by eauto. Qed.
Lemma runs_now x (Q : Z → list W → Tx T W E → Prop) F :
  (∀ z g, Q z [] (mkTx (x_base x) (x_own x) g)) → runs now_in_tx x Q F.
Proof using PO.
  intros H c o c' x'. unfold now_in_tx. destruct (clock (x_engine x)) as [z g]. intros [= <- <- <-].
  exists []. split; [apply goes_on_refl|apply H].
Qed.
Lemma runs_settle {A B} {Qm : A → list W → Tx T W E → Prop} {Fm : GoError → list W → Tx T W E → Prop} (m : GoM (Tx T W E) A) on_error (k : A → GoM (Tx T W E) B) x Q F :
  runs m x Qm Fm →
  (∀ a ws x1, goes_on x ws x1 → Qm a ws x1 → runs (k a) x1 (λ b ws', Q b (ws ++ ws')) (λ e ws', F e (ws ++ ws'))) →
  (∀ e ws x1, goes_on x ws x1 → Fm e ws x1 → runs (on_error e) x1 (λ b ws', Q b (ws ++ ws')) (λ e ws', F e (ws ++ ws'))) →
  runs (settle m on_error k) x Q F.
Proof using PO.
  intros Hm Hk He c o c' x'. unfold settle. destruct (m c x) as [[[a|e|] c1] x1] eqn:E1; intros Hr.
  - apply Hm in E1 as (ws & Hg & Ha). destruct (Hk a ws x1 Hg Ha _ _ _ _ Hr) as (ws' & Hg' & Hq).
    exists (ws ++ ws'). split; [by eapply goes_on_trans|done].
  - apply Hm in E1 as (ws & Hg & Ha). destruct (He e ws x1 Hg Ha _ _ _ _ Hr) as (ws' & Hg' & Hq).
    exists (ws ++ ws'). split; [by eapply goes_on_trans|done].
  - by apply Hm in E1 as (? & ? & []).
Qed.
Lemma bind_settle {S A B} (m : GoM S A) (k : A → GoM S B) : bind m k = settle m throw k.
Proof. reflexivity. Qed.
Lemma runs_bind {A B} {Qm : A → list W → Tx T W E → Prop} (m : GoM (Tx T W E) A) (k : A → GoM (Tx T W E) B) x Q F :
  runs m x Qm F →
  (∀ a ws x1, goes_on x ws x1 → Qm a ws x1 → runs (k a) x1 (λ b ws', Q b (ws ++ ws')) (λ e ws', F e (ws ++ ws'))) →
  runs (bind m k) x Q F.
Proof using PO.
  intros Hm Hk. rewrite bind_settle. eapply runs_settle; [exact Hm|exact Hk|]. intros e ws x1 Hg HF. apply runs_throw.
  by rewrite app_nil_r.
Qed.
Lemma runs_wrap {A} f (m : GoM (Tx T W E) A) x (Q : A → list W → Tx T W E → Prop) (F : GoError → list W → Tx T W E → Prop) :
  runs m x Q (λ e, F (f e)) → runs (wrap_errors f m) x Q F.
Proof using PO.
  intros Hm. eapply runs_settle; [exact Hm|..]; intros a ws x1 Hg H; [apply runs_ret|apply runs_throw]; by rewrite app_nil_r.
Qed.
Lemma runs_one_row {A} {Qm : option A → list W → Tx T W E → Prop} (m : GoM (Tx T W E) (option A)) x (Q : A → list W → Tx T W E → Prop) (F : GoError → list W → Tx T W E → Prop) :
  runs m x Qm F → (∀ a ws x', Qm (Some a) ws x' → Q a ws x') → (∀ ws x', Qm None ws x' → F ErrNoRows ws x') →
  runs (one_row m) x Q F.
Proof using PO.
  intros Hm HQ HF. eapply runs_bind; [exact Hm|]. intros [a|] ws x1 Hg H; [apply runs_ret|apply runs_throw]; rewrite app_nil_r; eauto.
Qed.
Lemma runs_impl {A} (m : GoM (Tx T W E) A) x (Q Q' : A → list W → Tx T W E → Prop) (F F' : GoError → list W → Tx T W E → Prop) :
  runs m x Q F → (∀ a ws x', goes_on x ws x' → Q a ws x' → Q' a ws x') → (∀ e ws x', goes_on x ws x' → F e ws x' → F' e ws x') → runs m x Q' F'.
Proof using Type. intros Hm HQ HF c [a|e|] c' x' (ws & Hg & H)%Hm; exists ws; eauto. Qed.
(** What holds of the values of the runs and what holds of their failures. *)
Lemma runs_fails {A} (m : GoM (Tx T W E) A) x (Q Q' : A → list W → Tx T W E → Prop) (F F' : GoError → list W → Tx T W E → Prop) :
  runs m x Q F' → runs m x Q' F → runs m x Q F.
Proof using Type.
  intros H H' c o c' x' Hr. destruct (H _ _ _ _ Hr) as (ws & Hg & Ho). destruct (H' _ _ _ _ Hr) as (ws' & [_ Hown' _] & Ho').
  pose proof Hg as [_ Hown _]. rewrite Hown in Hown'. apply app_inv_head in Hown' as <-. exists ws. by destruct o.
Qed.

End Running.
#[global] Arguments goes_on {T W E PE} others.
#[global] Arguments runs {T W E PE} others {A}.

Section Using.
Context {T W E : Type} `{PE : !Pending T W} `{PD : !PgDriver} `{SE : !SqlEngine T W E}.
Context (others : T → T → Prop) (mine : string → Prop) `{PO : !PreOrder others} `{SL : !SqlLaws others mine}.

(** Why a statement failed: its constraints, or the engine. *)
Definition refused {A} (st : Statement T W A) (x x' : Tx T W E) (e : GoError) : Prop :=
  foreign mine e ∧
  (not_unique e ∨ ∃ p errs, errors_As e = Some p ∧ p ∈ errs ∧ st (apply_writes (x_base x') (x_own x)) = inl errs).
Lemma answers_runs {A} (st : Statement T W A) (m : GoM (Tx T W E) A) x :
  (∀ c o c' x', m c x = (o, c', x') → answers others mine st x o x') →
  runs others m x (λ a ws x', st (apply_writes (x_base x') (x_own x)) = inr (a, ws)) (λ e ws x', ws = [] ∧ refused st x x' e).
Proof using PO.
  intros Hm c o c' x' [t g a ws [Ho Hp] Hs|t g e p errs [Ho Hp] Hs Hin He Hf|t g e [Ho Hp] He Hf]%Hm.
  - exists ws. split; [by split|done].
  - exists []. split; [split; cbn; [done|by rewrite app_nil_r|done]|]. split; [done|]. split; [done|]. right. eauto.
  - exists []. split; [split; cbn; [done|by rewrite app_nil_r|done]|]. split; [done|]. split; [done|by left].
Qed.
Lemma runs_on_tx {A} (st : Statement T W A) x :
  runs others (on_tx st) x (λ a ws x', st (apply_writes (x_base x') (x_own x)) = inr (a, ws)) (λ e ws x', ws = [] ∧ refused st x x' e).
Proof using PO SL. apply answers_runs. intros c o c' x'. apply (on_tx_answers others mine). Qed.

(** A transaction commits what its body wrote, or nothing, or does not say. *)
Lemma with_tx_run {A} (body : GoM (Tx T W E) A) Q F {c w o c' w'} :
  WithTx body c w = (o, c', w') → (∀ t g, runs others body (mkTx t [] g) Q F) →
  (∃ a ws x t, (o = Val a ∨ ∃ e, o = Fail e ∧ not_unique e ∧ foreign mine e) ∧ Q a ws x ∧ others (w_tables w) (x_base x) ∧
     meanwhile others ws (x_base x) t ∧ others (apply_writes t ws) (w_tables w')) ∨
  (∃ e, o = Fail e ∧ not_unique e ∧ foreign mine e ∧ others (w_tables w) (w_tables w')) ∨
  (∃ e0 e ws x, o = Fail e ∧ F e0 ws x ∧ others (w_tables w) (x_base x) ∧ others (x_base x) (w_tables w') ∧
     errors_As e = errors_As e0 ∧ ∀ name, mine name → errors_Is e name = errors_Is e0 name).
Proof using PO SL.
  intros H Hb. apply (with_tx_transacts others mine) in H.
  inversion H as [e t' Ho He Hf|t0 g c0 o1 c1 x1 o2 t' Ho Hr He]; subst; [right; left; eauto|].
  apply Hb in Hr as (ws & [Hbase Hown _] & Hq). cbn in Hbase, Hown.
  assert (others (w_tables w) (x_base x1)) as Hx by (by transitivity t0).
  inversion He as [a t t1 Hm Ht|a e t1 Ht Hn Hf|a e t t1 Hm Ht Hn Hf|e e' t1 Ht HA HI|t1 Ht]; subst; [..|done].
  - left. exists a, (x_own x1), x1, t. eauto 7.
  - right; left. exists e. split_and!; [done..|]. by transitivity (x_base x1).
  - left. exists a, (x_own x1), x1, t. eauto 10.
  - right; right. exists e, e', (x_own x1), x1. eauto 7.
Qed.

(** The database or the context gave out: an error that wraps none of the program's, and no unique violation. *)
Definition unavailable (e : GoError) : Prop := not_unique e ∧ foreign mine e.
Lemma runs_select {A} (f : T → A) x :
  runs others (on_tx (select f)) x (λ a ws x', ws = [] ∧ a = f (apply_writes (x_base x') (x_own x))) (λ e ws _, ws = [] ∧ unavailable e).
Proof using PO SL.
  eapply runs_impl; [apply runs_on_tx|..]; cbn; unfold select; [by intros a ws x' _ [= <- <-]|].
  intros e ws x' _ [-> [Hf [Hn|(p & errs & _ & _ & [=])]]]. by split.
Qed.
(** A transaction of a body that answers in one way, or gives out with the database. *)
Lemma with_tx_answers {A} (body : GoM (Tx T W E) A) (P : A → Prop) {c w o c' w'} :
  WithTx body c w = (o, c', w') →
  (∀ t g, others (w_tables w) t → runs others body (mkTx t [] g) (λ a _ _, P a) (λ e _ _, unavailable e)) →
  (∃ a, o = Val a ∧ P a) ∨ (∃ e, o = Fail e ∧ unavailable e).
Proof using SL.
  intros H Hb. apply (with_tx_transacts others mine) in H.
  inversion H as [e t' Ho Hn Hf|t0 g c0 o1 c1 x1 o2 t' Ho Hr He]; subst; [right; exists e; by repeat split|].
  apply (Hb _ _ Ho) in Hr as (ws & _ & Hq).
  inversion He as [a t t1 Hm Ht|a e t1 Ht Hn Hf|a e t t1 Hm Ht Hn Hf|e e' t1 Ht HA HI|t1 Ht]; subst;
    [left; by exists a|right; exists e; by split..| |done].
  right. exists e'. destruct Hq as [Hn Hf]. split; [done|]. split; [intros p; rewrite HA; apply Hn|intros name Hm; rewrite HI by done; by apply Hf].
Qed.

(** A read outside of a transaction. *)
Lemma on_db_select {A} (f : T → A) {c w o c' w'} :
  on_db (select f) c w = (o, c', w') →
  (∃ t, others (w_tables w) t ∧ others t (w_tables w') ∧ o = Val (f t)) ∨
  (others (w_tables w) (w_tables w') ∧ ∃ e, o = Fail e ∧ unavailable e).
Proof using PO SL.
  intros H. apply (on_db_answers others mine) in H. unfold select in H.
  inversion H as [t1 t2 a ws Ho Hs Ho2|t1 t2 e p errs Ho Hs Hin He Hf Ho2|t' e Ho He Hf|t1 t2 e a ws Ho Hs Ho2 He Hf]; subst; simplify_eq/=.
  - left. eauto.
  - right. split; [done|]. exists e. by repeat split.
  - right. split; [by transitivity t1|]. exists e. by repeat split.
Qed.
End Using.

(** A rule about transactions, over the relation of the goal. *)
Tactic Notation "rule" uconstr(lemma) := eapply lemma; lazymatch goal with |- PreOrder _ => typeclasses eauto | _ => idtac end.
