(* ===== verification/SqlModel.v ===== *)
(** A database engine that keeps the laws of [SqlTx], for evaluations: it serves one client, and its connection
    may break before a statement or a commit, or after a commit whose answer is lost. Values that the programs
    store as text are spelled in the digits of their code. *)
From Stdlib Require Import Ascii String.
From S2P Require Import Prelude SqlTx.

(** ** Texts *)

Fixpoint digits (p : positive) : string :=
  match p with
  | xH => ""
  | xO p => String "0" (digits p)
  | xI p => String "1" (digits p)
  end.
Fixpoint undigits (s : string) : positive :=
  match s with
  | EmptyString => xH
  | String c s => if bool_decide (c = "0"%char) then xO (undigits s) else xI (undigits s)
  end.
Lemma bits_digits p : undigits (digits p) = p.
Proof. induction p as [p IH|p IH|]; cbn [digits undigits]; [..|done]; by rewrite IH. Qed.
Definition to_text `{Countable A} (a : A) : string := digits (encode a).
Definition of_text `{Countable A} (s : string) : option A := decode (undigits s).
Lemma of_to_text `{Countable A} (a : A) : of_text (to_text a) = Some a.
Proof. unfold of_text, to_text. by rewrite bits_digits, decode_encode. Qed.
(** Fields one after the other. *)
Fixpoint cut_field (s : string) : string * string :=
  match s with
  | EmptyString => ("", "")
  | String c s => if bool_decide (c = ","%char) then ("", s) else let '(a, b) := cut_field s in (String c a, b)
  end.
Definition put_field `{Countable A} (a : A) (rest : string) : string := (to_text a ++ String "," rest)%string.
Definition get_field `{Countable A} (s : string) : option (A * string) :=
  let '(field, rest) := cut_field s in a ← of_text field; Some (a, rest).
Lemma cut_digits p rest : cut_field (digits p ++ String "," rest)%string = (digits p, rest).
Proof.
  induction p as [p IH|p IH|]; [..|done]; cbn [digits];
    match goal with |- cut_field (String ?c ?d ++ ?r) = _ => change (String c d ++ r)%string with (String c (d ++ r)%string) end;
    cbn [cut_field]; by rewrite bool_decide_eq_false_2, IH by done.
Qed.
Lemma get_put_field `{Countable A} (a : A) rest : get_field (put_field a rest) = Some (a, rest).
Proof. unfold get_field, put_field, to_text at 1. rewrite cut_digits. fold (to_text a). by rewrite of_to_text. Qed.

(** ** The driver *)

#[export] Instance PgError_dec : EqDecision PgError.
Proof. solve_decision. Defined.
#[export] Instance PgError_countable : Countable PgError.
Proof. apply (inj_countable' (λ p, (pg_Code p, pg_ConstraintName p)) (λ cn, mkPgError cn.1 cn.2)). by intros []. Defined.
Definition pg_leaf (p : PgError) : GoError := Sentinel ("pg:" ++ to_text p)%string "ERROR".
Definition bad_connection : GoError := Sentinel "driver.ErrBadConn" "driver: bad connection".
#[export] Instance plain_driver : PgDriver :=
  {| as_PgError name := if starts_with "pg:" name then of_text (drop_str 3 name) else None |}.
Lemma pg_named s : starts_with "pg:" (String "p" (String "g" (String ":" s))) = true.
Proof. unfold starts_with. cbn. by destruct s. Qed.
Lemma as_pg_leaf p : errors_As (pg_leaf p) = Some p.
Proof.
  unfold pg_leaf, errors_As, plain_driver, as_PgError.
  change ("pg:" ++ to_text p)%string with (String "p" (String "g" (String ":" (to_text p)))).
  rewrite pg_named. apply of_to_text.
Qed.

(** ** The engine *)

Inductive Fault := Works | Breaks | Loses.
(** The instant and the faults to come. *)
Record Plain := mkPlain { pl_time : Z; pl_faults : list Fault }.
Definition next_fault (g : Plain) : Fault * Plain :=
  match pl_faults g with [] => (Works, g) | f :: fs => (f, mkPlain (pl_time g) fs) end.
Definition tick (g : Plain) : Z * Plain := (pl_time g, mkPlain (pl_time g + 1000000) (pl_faults g)).

Section Engine.
Context {T W : Type} `{!Pending T W}.

Definition plain_on_tx {A} (st : Statement T W A) : GoM (Tx T W Plain) A := λ c x,
  let '(f, g) := next_fault (x_engine x) in
  let x' := mkTx (x_base x) (x_own x) g in
  match f with
  | Works =>
      match st (apply_writes (x_base x) (x_own x)) with
      | inr (a, ws) => (Val a, c, mkTx (x_base x) (x_own x ++ ws) g)
      | inl (p :: _) => (Fail (pg_leaf p), c, x')
      | inl [] => (Fail bad_connection, c, x')
      end
  | _ => (Fail bad_connection, c, x')
  end.
Definition plain_on_db {A} (st : Statement T W A) : GoM (World T Plain) A := λ c w,
  let '(f, g) := next_fault (w_engine w) in
  let w' := mkWorld (w_tables w) g in
  match f with
  | Works =>
      match st (w_tables w) with
      | inr (a, ws) => (Val a, c, mkWorld (apply_writes (w_tables w) ws) g)
      | inl (p :: _) => (Fail (pg_leaf p), c, w')
      | inl [] => (Fail bad_connection, c, w')
      end
  | _ => (Fail bad_connection, c, w')
  end.
Definition plain_with_tx {A} (body : GoM (Tx T W Plain) A) : GoM (World T Plain) A := λ c w,
  let '(o, c', x) := body c (mkTx (w_tables w) [] (w_engine w)) in
  let '(f, g) := next_fault (x_engine x) in
  match o, f with
  | Val a, Works => (Val a, c', mkWorld (apply_writes (x_base x) (x_own x)) g)
  | Val a, Breaks => (Fail bad_connection, c', mkWorld (x_base x) g)
  | Val a, Loses => (Fail bad_connection, c', mkWorld (apply_writes (x_base x) (x_own x)) g)
  | Fail e, _ => (Fail e, c', mkWorld (x_base x) g)
  | Panic, _ => (Panic, c', mkWorld (x_base x) g)
  end.
#[export] Instance plain_engine : SqlEngine T W Plain := {|
  on_tx := @plain_on_tx; on_db := @plain_on_db; WithTx := @plain_with_tx; RowsAffected := inr; clock := tick
|}.

Context (others : T → T → Prop) `{!PreOrder others} (mine : string → Prop).
Context (not_pg : ∀ name, mine name → starts_with "pg:" name = false) (not_driver : ¬ mine "driver.ErrBadConn").
Lemma meanwhile_refl ws t : meanwhile others ws t t.
Proof. split; [reflexivity|]. by apply Forall_true. Qed.
Lemma foreign_leaf p : foreign mine (pg_leaf p).
Proof.
  intros name Hn%not_pg. unfold pg_leaf, errors_Is. case_bool_decide as E; [|done]. subst name.
  change ("pg:" ++ to_text p)%string with (String "p" (String "g" (String ":" (to_text p)))) in Hn. by rewrite pg_named in Hn.
Qed.
Lemma foreign_connection : foreign mine bad_connection.
Proof. intros name Hn. cbn. case_bool_decide as E; [|done]. by subst name. Qed.
Lemma connection_not_unique : not_unique bad_connection.
Proof. by intros p [=]. Qed.
#[local] Hint Resolve meanwhile_refl foreign_leaf foreign_connection connection_not_unique as_pg_leaf : core.

#[export] Instance plain_laws : SqlLaws (E := Plain) others mine.
Proof.
  split.
  - intros A st c x o c' x'. cbn. unfold plain_on_tx. destruct (next_fault _) as [[] g]; [|intros [= <- <- <-]; eapply broken; auto..].
    destruct (st _) as [[|p errs]|[a ws]] eqn:Es; intros [= <- <- <-].
    + eapply broken; auto.
    + eapply violated; [auto|exact Es|left|auto..].
    + eapply answered; [auto|exact Es].
  - intros A st c w o c' w'. cbn. unfold plain_on_db.
    destruct (next_fault _) as [[] g]; [|intros [= <- <- <-]; eapply db_broken; [reflexivity|auto..]..].
    destruct (st _) as [[|p errs]|[a ws]] eqn:Es; intros [= <- <- <-].
    + eapply db_broken; [reflexivity|auto..].
    + eapply db_violated; [reflexivity|exact Es|left|auto|auto|reflexivity].
    + eapply db_answered; [reflexivity|exact Es|reflexivity].
  - intros A body c w o c' w'. cbn. unfold plain_with_tx.
    destruct (body _ _) as [[o1 c1] x1] eqn:Eb. destruct (next_fault _) as [f g].
    intros H. eapply began; [reflexivity|exact Eb|].
    destruct o1 as [a|e|]; [destruct f|..]; injection H as <- <- <-;
      [eapply committed|eapply commit_failed|eapply commit_lost|eapply rolled_back|eapply unwound]; cbn; auto; reflexivity.
  - by intros n n' [= <-].
Qed.
End Engine.
