(* ===== verification/SqlKit.v ===== *)
(** The sqlkit helpers the repository examples call: statement builders, which are a parameter, with the meaning of
    each statement on the tables beside its text, the row helpers, and what the examples do alike with them. *)
From Stdlib Require Import Ascii String.
From S2P Require Import Prelude SqlTx.

(** ** Builders *)

Inductive SqlArg := ArgString (s : string) | ArgInt (z : Z) | ArgTime (t : Z).
(** What a statement was built from. *)
Inductive Builder :=
  | InsertInto (table : string) (columns : list string) (values : list SqlArg)
  | SelectFrom (table : string) (columns : list string) (conditions : list (string * SqlArg)) (order : list string) (limit : option Z)
  | Update (table : string) (sets conditions : list (string * SqlArg))
  | DeleteFrom (table : string) (conditions : list (string * SqlArg)).
Record SqlText := mkSqlText { st_SQL : string; st_Args : list SqlArg }.
Class SqlBuilder := { builder_Build : Builder → GoError + SqlText }.

(** A built statement: its text, and what the database does when it runs it. *)
Record Sql (T W A : Type) := mkSql { sq_text : SqlText; sq_run : Statement T W A }.
#[global] Arguments mkSql {T W A}.
#[global] Arguments sq_text {T W A}.
#[global] Arguments sq_run {T W A}.
Definition NewStatement {T W A} (sql : string) (args : list SqlArg) (run : Statement T W A) : Sql T W A := mkSql (mkSqlText sql args) run.
Definition Build `{SqlBuilder} {T W A} (builder : Builder) (run : Statement T W A) : GoError + Sql T W A :=
  try! text := builder_Build builder in inr (mkSql text run).
Lemma build_run `{SqlBuilder} {T W A} builder (run : Statement T W A) stmt : Build builder run = inr stmt → sq_run stmt = run.
Proof. unfold Build. by intros (text & _ & [= <-])%and_then_inr. Qed.

Record StatementSnapshot := mkSnapshot { ss_Name : string; ss_SQL : string; ss_Args : list SqlArg }.
Definition snapshot {T W A} (name : string) (stmt : GoError + Sql T W A) : GoError + StatementSnapshot :=
  try! stmt := stmt in inr (mkSnapshot name (st_SQL (sq_text stmt)) (st_Args (sq_text stmt))).

(** ** Rows *)

Definition sqlkitErrNoRows : GoError := Sentinel "sqlkit.ErrNoRows" "sqlkit: no rows".
(** A database handle or a transaction, as a repository sees it. *)
Definition Session (T W S : Type) : Type := ∀ A : Type, Statement T W A → GoM S A.
Definition in_tx {T W E} `{SqlEngine T W E} : Session T W (Tx T W E) := λ A, on_tx (A := A).
Definition in_db {T W E} `{SqlEngine T W E} : Session T W (World T E) := λ A, on_db (A := A).
Section Rows.
Context {T W S : Type} (db : Session T W S).
Definition Exec {A} (stmt : Sql T W A) : GoM S A := db A (sq_run stmt).
Definition QueryOne {A} (stmt : Sql T W (option A)) : GoM S A :=
  let! row := db _ (sq_run stmt) in
  match row with Some a => ret a | None => throw sqlkitErrNoRows end.
Definition QueryAll {A} (stmt : Sql T W (list A)) : GoM S (list A) := db _ (sq_run stmt).
End Rows.

(** A row that is not there is the repository's own error. *)
Definition or_no_row {S A} (no_row : GoError) (m : GoM S A) : GoM S A :=
  settle m (λ e, throw (if errors_Is e "sqlkit.ErrNoRows" then no_row else e)) ret.
(** A count of rows that cannot be had is not an error. *)
Definition affected_or {S} (counted : GoError + Z) (no_row : GoError) : GoM S unit :=
  match counted with inr n => if n =? 0 then throw no_row else ret tt | inl _ => ret tt end.
Definition now_in_db {T W E} `{SqlEngine T W E} : GoM (World T E) Z := λ c w,
  let '(z, g) := clock (w_engine w) in (Val z, c, mkWorld (w_tables w) g).

(** ** Handlers *)

(** Work under a context with a timeout, which ends with it. *)
Definition in_timeout {S A} (with_timeout : Z → Ctx → Ctx) (timeout : Z) (m : GoM S A) : GoM S A := λ c s,
  let '(o, _, s') := m (with_timeout timeout c) s in (o, c, s').
Lemma told_run {S A R} with_timeout timeout (m : GoM S A) (tell : GoError → R) (k : A → R) c s o c' s' :
  settle (in_timeout with_timeout timeout m) (λ err, ret (tell err)) (λ a, ret (k a)) c s = (o, c', s') →
  ∃ d o1 d', m d s = (o1, d', s') ∧ match o1 with Val a => o = Val (k a) | Fail e => o = Val (tell e) | Panic => o = Panic end.
Proof.
  unfold settle, in_timeout. destruct (m _ s) as [[[a|e|] d'] s1] eqn:E1; intros [= <- <- <-]; eexists _, _, d'; (split; [exact E1|done]).
Qed.

(** ** Values *)

(** What the database keeps of an instant, and how it orders texts. *)
Class PgTypes := { stored_time : Z → Z; text_less : string → string → bool }.
Definition numeric_out_of_range : string := "22003".
Definition in_int32 (z : Z) : bool := (- 2 ^ 31 <=? z) && (z <? 2 ^ 31).
(** An [integer] column or parameter. *)
Definition integer (z : Z) : list PgError := unless_check (in_int32 z) numeric_out_of_range "".
Definition foreign_key_violation : string := "23503".

(** ** Running a repository's statement *)

Section Running.
Context {T W E : Type} `{PE : !Pending T W} `{PD : !PgDriver} `{SE : !SqlEngine T W E}.
Context {others : T → T → Prop} {mine : string → Prop} `{PO : !PreOrder others} `{SL : !SqlLaws others mine}.
#[local] Abbreviation any := (λ _ _ _, True).

Lemma runs_exec {A} f (stmt : GoError + Sql T W A) x :
  runs others (let! stmt := or_fail f stmt in Exec in_tx stmt) x
    (λ a ws x', ∃ s, stmt = inr s ∧ sq_run s (apply_writes (x_base x') (x_own x)) = inr (a, ws)) any.
Proof using PO SL.
  rule (runs_bind (Qm := λ s ws x', ws = [] ∧ stmt = inr s)); [by rule runs_or_fail; destruct stmt|].
  intros s ws x1 Hg [-> ->]. unfold Exec. eapply runs_impl; [rule (runs_on_tx others mine)| |done]. cbn. intros a ws x2 _ H.
  rewrite (goes_on_own _ _ Hg) in H. by exists s.
Qed.
Lemma runs_query_one {A} f (stmt : GoError + Sql T W (option A)) x :
  runs others (let! stmt := or_fail f stmt in QueryOne in_tx stmt) x
    (λ a ws x', ∃ s, stmt = inr s ∧ sq_run s (apply_writes (x_base x') (x_own x)) = inr (Some a, ws)) any.
Proof using PO SL.
  rule (runs_bind (Qm := λ s ws x', ws = [] ∧ stmt = inr s)); [by rule runs_or_fail; destruct stmt|].
  intros s ws x1 Hg [-> ->]. unfold QueryOne.
  rule runs_bind; [eapply runs_impl; [rule (runs_on_tx others mine)|intros a ws x' _ H; exact H|done]|]. cbn.
  intros [a|] ws x2 Hg2 H; [|by rule runs_throw]. rule runs_ret. rewrite app_nil_r. rewrite (goes_on_own _ _ Hg) in H. by exists s.
Qed.
End Running.

(** ** Reads and preparations *)

Section Looking.
Context {T W E : Type} `{PE : !Pending T W} `{PD : !PgDriver} `{SE : !SqlEngine T W E}.
Context {others : T → T → Prop} {mine : string → Prop} `{PO : !PreOrder others} `{SL : !SqlLaws others mine}.

(** Reads and preparations: others may commit meanwhile, and nothing panics. *)
Definition looks {A} (m : GoM (World T E) A) : Prop :=
  ∀ c w o c' w', m c w = (o, c', w') → others (w_tables w) (w_tables w') ∧ o ≠ Panic.
Lemma looks_settle {A B} (m : GoM (World T E) A) on_error (k : A → GoM (World T E) B) :
  looks m → (∀ e, looks (on_error e)) → (∀ a, looks (k a)) → looks (settle m on_error k).
Proof using PO.
  intros Hm He Hk c w o c' w'. unfold settle. destruct (m c w) as [[[a|e|] c1] w1] eqn:E1; apply Hm in E1 as [H1 Hnp]; intros H; [apply Hk in H as [H2 ?]|apply He in H as [H2 ?]|done];
    (split; [by etrans|done]).
Qed.
Lemma looks_ret {A} (a : A) : looks (ret a).
Proof using PO. intros c w o c' w' [= <- <- <-]. by split. Qed.
Lemma looks_throw {A} e : looks (A := A) (throw e).
Proof using PO. intros c w o c' w' [= <- <- <-]. by split. Qed.
Lemma looks_bind {A B} (m : GoM (World T E) A) (k : A → GoM (World T E) B) : looks m → (∀ a, looks (k a)) → looks (bind m k).
Proof using PO. intros Hm Hk. rewrite bind_settle. apply looks_settle; [done|intros e; apply looks_throw|done]. Qed.
Lemma looks_or_fail {A} f (r : GoError + A) : looks (or_fail f r).
Proof using PO. destruct r; [apply looks_throw|apply looks_ret]. Qed.
Lemma looks_select {A} (f : T → A) : looks (in_db A (select f)).
Proof using PO SL.
  intros c w o c' w' H. apply (on_db_select others mine) in H as [(t & H1 & H2 & ->)|(H1 & e & -> & _)]; (split; [by (etrans; [done|]) || done|done]).
Qed.
Lemma looks_now : looks now_in_db.
Proof using PO. intros c w o c' w'. unfold now_in_db. destruct (clock _) as [z g]. intros [= <- <- <-]. by split. Qed.
Lemma looks_selected {A B} (f : T → A) (stmt : GoError + Sql T W A) (k : A → GoM (World T E) B) :
  (∀ s, stmt = inr s → sq_run s = select f) → (∀ a, looks (k a)) →
  looks (let! s := or_fail id stmt in bind (in_db A (sq_run s)) k).
Proof using PO SL.
  intros Hs Hk. destruct stmt as [e|s]; [by apply (looks_throw e)|]. apply (looks_bind (in_db A (sq_run s)) k); [|done].
  rewrite (Hs s eq_refl). apply looks_select.
Qed.

(** A repository's statement on the database: answered, refused before it is sent, or failed with or without effect. *)
Lemma exec_db_run {A} (stmt : GoError + Sql T W A) {c w o c' w'} :
  (let! stmt := or_fail id stmt in Exec in_db stmt) c w = (o, c', w') →
  let took a := ∃ s t1 ws, stmt = inr s ∧ others (w_tables w) t1 ∧ sq_run s t1 = inr (a, ws) ∧ others (apply_writes t1 ws) (w_tables w') in
  match o with
  | Val a => took a
  | Fail e => (stmt = inl e ∧ w' = w) ∨ (foreign mine e ∧ (others (w_tables w) (w_tables w') ∨ ∃ a, took a))
  | Panic => False
  end.
Proof using PO SL.
  destruct stmt as [e|s]; [intros [= <- <- <-]; by left|]. intros H. change (on_db (sq_run s) c w = (o, c', w')) in H.
  apply (on_db_answers others mine) in H as [t1 t2 a ws H1 H2 H3|t1 t2 e p errs H1 H2 H3 H4 H5 H6|t' e H1 H2 H3|t1 t2 e a ws H1 H2 H3 H4 H5].
  - by exists s, t1, ws.
  - right. split; [done|]. left. by etrans.
  - right. split; [done|by left].
  - right. split; [done|]. right. by exists a, s, t1, ws.
Qed.
End Looking.
(** ** For evaluations *)

Definition builder_args (b : Builder) : list SqlArg :=
  match b with
  | InsertInto _ _ values => values
  | SelectFrom _ _ conditions _ _ | DeleteFrom _ conditions => map snd conditions
  | Update _ sets conditions => map snd sets ++ map snd conditions
  end.
Definition plain_builder : SqlBuilder := {| builder_Build b := inr (mkSqlText "" (builder_args b)) |}.
Definition plain_pg : PgTypes := {| stored_time z := z; text_less := str_ltb |}.
