(* ===== verification/OrderPlacement.v ===== *)
(** examples/sql-transaction-boundary/internal/orderplacement/service.go: placing an order by locking products,
    debiting their stock and inserting the order with its lines in one transaction. The tables have the constraints
    of the schema the example's tests create. *)
From Stdlib Require Import Ascii String.
From S2P Require Import Prelude SqlTx SqlKit.

Definition productsTable : string := "sql_transaction_products".
Definition ordersTable : string := "sql_transaction_orders".
Definition linesTable : string := "sql_transaction_order_lines".
Definition ErrInvalidOrder : GoError := Sentinel "orderplacement.ErrInvalidOrder" "orderplacement: invalid order".
Definition ErrInsufficientStock : GoError := Sentinel "orderplacement.ErrInsufficientStock" "orderplacement: insufficient stock".
Definition ErrPaymentRejected : GoError := Sentinel "orderplacement.ErrPaymentRejected" "orderplacement: payment rejected".
Definition invalid (text : string) : GoError := Errorf text [ErrInvalidOrder] [].

(** ** Data *)

Record Product := mkProduct { pr_ID : string; pr_Name : string; pr_Stock : Z; pr_PriceCents : Z }.
Record LineRequest := mkLine { ln_ProductID : string; ln_Quantity : Z }.
Record PlaceOrderRequest := mkRequest {
  rq_OrderID : string; rq_CustomerID : string; rq_Lines : list LineRequest; rq_CreatedAt : Z; rq_RejectPayment : bool
}.
Record PlacedOrder := mkPlaced { po_OrderID : string; po_LineCount : Z; po_TotalCents : Z }.

(** ** Validation *)

Fixpoint check_lines (seen : gset string) (lines : list LineRequest) : option GoError :=
  match lines with
  | [] => None
  | line :: lines =>
      if bool_decide (ln_ProductID line = "") then Some (invalid "%w: product id is required")
      else if ln_Quantity line <=? 0 then Some (invalid "%w: quantity must be positive")
      else if bool_decide (ln_ProductID line ∈ seen)
      then Some (Errorf "%w: duplicate product %s" [ErrInvalidOrder] [FStr (ln_ProductID line)])
      else check_lines ({[ln_ProductID line]} ∪ seen) lines
  end.
Definition validateRequest (req : PlaceOrderRequest) : option GoError :=
  if bool_decide (rq_OrderID req = "") then Some (invalid "%w: order id is required")
  else if bool_decide (rq_CustomerID req = "") then Some (invalid "%w: customer id is required")
  else if bool_decide (rq_Lines req = []) then Some (invalid "%w: at least one line is required")
  else if rq_CreatedAt req =? 0 then Some (invalid "%w: created_at is required")
  else check_lines ∅ (rq_Lines req).
(** The identifiers, sorted; a validated request has no product twice. *)
Definition uniqueProductIDs (lines : list LineRequest) : list string := sort_strings (map ln_ProductID lines).
Definition join (values : list string) (sep : string) : string :=
  match values with
  | [] => ""
  | first :: rest => foldl (λ result value, result ++ sep ++ value)%string first rest
  end.

(** ** The tables *)

(** A product's columns but its key. *)
Record StockRow := mkStockRow { sr_name : string; sr_stock : Z; sr_price_cents : Z }.
Record OrderRow := mkOrderRow { or_ID : string; or_CustomerID : string; or_TotalCents : Z; or_CreatedAt : Z }.
Record LineRow := mkLineRow { lr_OrderID : string; lr_ProductID : string; lr_Quantity : Z; lr_UnitPriceCents : Z }.
Record Tables := mkTables { t_products : gmap string StockRow; t_orders : gmap string OrderRow; t_lines : list LineRow }.
(** A row that is locked for the transaction is written with the value it has. *)
Inductive Write :=
  | LockProduct (id : string) (row : StockRow)
  | UpdateProduct (id : string) (old new : StockRow)
  | InsertOrder (row : OrderRow)
  | InsertLine (row : LineRow).
Definition apply (t : Tables) (w : Write) : Tables :=
  match w with
  | LockProduct _ _ => t
  | UpdateProduct id _ row => mkTables (<[id := row]> (t_products t)) (t_orders t) (t_lines t)
  | InsertOrder row => mkTables (t_products t) (<[or_ID row := row]> (t_orders t)) (t_lines t)
  | InsertLine row => mkTables (t_products t) (t_orders t) (t_lines t ++ [row])
  end.
Definition same_line (row row' : LineRow) : bool :=
  bool_decide (lr_OrderID row = lr_OrderID row') && bool_decide (lr_ProductID row = lr_ProductID row').
Definition order_keys (row : OrderRow) (t : Tables) : list PgError :=
  unless_key (bool_decide (is_Some (t_orders t !! or_ID row))) "sql_transaction_orders_pkey".
Definition line_keys (row : LineRow) (t : Tables) : list PgError :=
  unless_key (existsb (same_line row) (t_lines t)) "sql_transaction_order_lines_pkey"
  ++ unless_check (bool_decide (is_Some (t_orders t !! lr_OrderID row))) foreign_key_violation "sql_transaction_order_lines_order_id_fkey"
  ++ unless_check (bool_decide (is_Some (t_products t !! lr_ProductID row))) foreign_key_violation "sql_transaction_order_lines_product_id_fkey".
#[export] Instance tables_pending : Pending Tables Write := {|
  apply_write := apply;
  pending_ok w t :=
    match w with
    | LockProduct id row | UpdateProduct id row _ => t_products t !! id = Some row
    | InsertOrder row => t_orders t !! or_ID row = None
    | InsertLine row => existsb (same_line row) (t_lines t) = false
    end
|}.

(** ** The statements' meaning *)

Definition product (id : string) (row : StockRow) : Product := mkProduct id (sr_name row) (sr_stock row) (sr_price_cents row).
(** [select ... where id in (...) order by id for update]: the rows, each locked. *)
Definition lock_products (ids : list string) : Statement Tables Write (list Product) := λ t,
  let found := omap (λ id, pair id <$> t_products t !! id) (remove_dups ids) in
  inr (map (uncurry product) found, map (uncurry LockProduct) found).
Definition debited (row : StockRow) (quantity : Z) : StockRow :=
  mkStockRow (sr_name row) (sr_stock row - quantity) (sr_price_cents row).
Definition stock_checks (row : StockRow) : list PgError :=
  integer (sr_stock row) ++ unless_check (0 <=? sr_stock row) check_violation "sql_transaction_products_stock_check".
(** [update ... set stock = stock - $1 where id = $2], with the number of its rows. *)
Definition debit_stock (id : string) (quantity : Z) : Statement Tables Write Z := λ t,
  match integer quantity with
  | [] =>
      match t_products t !! id with
      | None => inr (0, [])
      | Some row => match stock_checks (debited row quantity) with [] => inr (1, [UpdateProduct id row (debited row quantity)]) | errs => inl errs end
      end
  | errs => inl errs
  end.
Definition order_checks (row : OrderRow) : list PgError :=
  unless_check (0 <=? or_TotalCents row) check_violation "sql_transaction_orders_total_cents_check".
Definition insert_order (row : OrderRow) : Statement Tables Write unit :=
  write_row (λ t, order_checks row ++ order_keys row t) (InsertOrder row).
Definition line_checks (row : LineRow) : list PgError :=
  integer (lr_Quantity row) ++ unless_check (0 <? lr_Quantity row) check_violation "sql_transaction_order_lines_quantity_check"
  ++ unless_check (0 <=? lr_UnitPriceCents row) check_violation "sql_transaction_order_lines_unit_price_cents_check".
Definition insert_line (row : LineRow) : Statement Tables Write unit :=
  write_row (λ t, line_checks row ++ line_keys row t) (InsertLine row).

(** ** The repositories *)

Section Repositories.
Context `{SB : SqlBuilder} `{PT : PgTypes}.
Abbreviation SqlOf A := (Sql Tables Write A).

Fixpoint lock_args (i : Z) (ids : list string) : GoError + (list SqlArg * list string) :=
  match ids with
  | [] => inr ([], [])
  | id :: ids =>
      if bool_decide (id = "") then inl (invalid "%w: product id is required")
      else try! (args, placeholders) := lock_args (i + 1) ids in inr (ArgString id :: args, ("$" ++ pretty (i + 1))%string :: placeholders)
  end.
Definition lockSQL (ids : list string) : GoError + SqlOf (list Product) :=
  if bool_decide (ids = []) then inl (invalid "%w: product ids are required")
  else
    let sorted := sort_strings ids in
    try! (args, placeholders) := lock_args 0 sorted in
    inr (NewStatement
           ("select id, name, stock, price_cents from " ++ productsTable ++ " where id in (" ++ join placeholders ", " ++ ") order by id for update")
           args (lock_products sorted)).
Definition debitSQL (id : string) (quantity : Z) : GoError + SqlOf Z :=
  if bool_decide (id = "") then inl (invalid "%w: product id is required")
  else if quantity <=? 0 then inl (invalid "%w: quantity must be positive")
  else inr (NewStatement "update sql_transaction_products set stock = stock - $1 where id = $2" [ArgInt quantity; ArgString id] (debit_stock id quantity)).
Definition createOrderSQL (orderID customerID : string) (totalCents createdAt : Z) : GoError + SqlOf unit :=
  if bool_decide (orderID = "") then inl (invalid "%w: order id is required")
  else if bool_decide (customerID = "") then inl (invalid "%w: customer id is required")
  else if totalCents <? 0 then inl (invalid "%w: total cents must not be negative")
  else if createdAt =? 0 then inl (invalid "%w: created_at is required")
  else Build (InsertInto ordersTable ["id"; "customer_id"; "total_cents"; "created_at"]
                [ArgString orderID; ArgString customerID; ArgInt totalCents; ArgTime createdAt])
         (insert_order (mkOrderRow orderID customerID totalCents (stored_time createdAt))).
Definition createLineSQL (orderID : string) (line : LineRequest) (unitPriceCents : Z) : GoError + SqlOf unit :=
  if bool_decide (orderID = "") then inl (invalid "%w: order id is required")
  else if bool_decide (ln_ProductID line = "") then inl (invalid "%w: product id is required")
  else if ln_Quantity line <=? 0 then inl (invalid "%w: quantity must be positive")
  else if unitPriceCents <? 0 then inl (invalid "%w: unit price must not be negative")
  else Build (InsertInto linesTable ["order_id"; "product_id"; "quantity"; "unit_price_cents"]
                [ArgString orderID; ArgString (ln_ProductID line); ArgInt (ln_Quantity line); ArgInt unitPriceCents])
         (insert_line (mkLineRow orderID (ln_ProductID line) (ln_Quantity line) unitPriceCents)).

Definition LockByID {S} (db : Session Tables Write S) (ids : list string) : GoM S (list Product) :=
  let! stmt := or_fail id (lockSQL ids) in QueryAll db stmt.
Definition Debit {S} (db : Session Tables Write S) (productID : string) (quantity : Z) : GoM S unit :=
  do! (let! stmt := or_fail id (debitSQL productID quantity) in Exec db stmt); ret tt.
Definition CreateOrder {S} (db : Session Tables Write S) (orderID customerID : string) (totalCents createdAt : Z) : GoM S unit :=
  let! stmt := or_fail id (createOrderSQL orderID customerID totalCents createdAt) in Exec db stmt.
Definition CreateLine {S} (db : Session Tables Write S) (orderID : string) (line : LineRequest) (unitPriceCents : Z) : GoM S unit :=
  let! stmt := or_fail id (createLineSQL orderID line unitPriceCents) in Exec db stmt.
Definition LockStatement (ids : list string) : GoError + StatementSnapshot := snapshot "products.lock_for_update" (lockSQL ids).
Definition DebitStatement (id : string) (quantity : Z) : GoError + StatementSnapshot := snapshot "products.debit_stock" (debitSQL id quantity).
Definition CreateOrderStatement (orderID customerID : string) (totalCents createdAt : Z) : GoError + StatementSnapshot :=
  snapshot "orders.create_header" (createOrderSQL orderID customerID totalCents createdAt).
Definition CreateLineStatement (orderID : string) (line : LineRequest) (unitPriceCents : Z) : GoError + StatementSnapshot :=
  snapshot "orders.create_line" (createLineSQL orderID line unitPriceCents).
(** The statements a preview shows; its other texts are constants. *)
Definition NewPreview (previewTime : Z) : GoError + list StatementSnapshot :=
  try! lock := LockStatement ["sku-coffee"; "sku-filter"] in
  try! debit := DebitStatement "sku-coffee" 2 in
  try! createOrder := CreateOrderStatement "order-1001" "customer-42" 3700 previewTime in
  try! createLine := CreateLineStatement "order-1001" (mkLine "sku-coffee" 2) 1200 in
  inr [lock; debit; createOrder; createLine].

(** ** The service *)

Context {E : Type} `{SE : !SqlEngine Tables Write E}.
#[local] Abbreviation TxM := (GoM (Tx Tables Write E)).

(** The locked products by their identifiers. *)
Definition by_id (products : list Product) : gmap string Product := foldl (λ byID product, <[pr_ID product := product]> byID) ∅ products.
Fixpoint debit_lines (byID : gmap string Product) (lines : list LineRequest) (total : Z) : TxM Z :=
  match lines with
  | [] => ret total
  | line :: lines =>
      match byID !! ln_ProductID line with
      | None => throw (Errorf "%w: product %s not found" [ErrInsufficientStock] [FStr (ln_ProductID line)])
      | Some product =>
          if pr_Stock product <? ln_Quantity line
          then throw (Errorf "%w: product %s has %d, need %d" [ErrInsufficientStock]
                        [FStr (ln_ProductID line); FInt (pr_Stock product); FInt (ln_Quantity line)])
          else
            do! Debit in_tx (ln_ProductID line) (ln_Quantity line);
            debit_lines byID lines (int_add total (int_mul (ln_Quantity line) (pr_PriceCents product)))
      end
  end.
(** A product that is not in the map would read as the zero product. *)
Definition price_of (byID : gmap string Product) (line : LineRequest) : Z :=
  match byID !! ln_ProductID line with Some product => pr_PriceCents product | None => 0 end.
Definition create_lines (req : PlaceOrderRequest) (byID : gmap string Product) : TxM unit :=
  forM_ (rq_Lines req) (λ line, CreateLine in_tx (rq_OrderID req) line (price_of byID line)).
Definition place_in_tx (req : PlaceOrderRequest) : TxM PlacedOrder :=
  let! products := LockByID in_tx (uniqueProductIDs (rq_Lines req)) in
  let byID := by_id products in
  let! total := debit_lines byID (rq_Lines req) 0 in
  do! CreateOrder in_tx (rq_OrderID req) (rq_CustomerID req) total (rq_CreatedAt req);
  do! create_lines req byID;
  if rq_RejectPayment req then throw ErrPaymentRejected
  else ret (mkPlaced (rq_OrderID req) (len (rq_Lines req)) total).
Definition PlaceOrder (req : PlaceOrderRequest) : GoM (World Tables E) PlacedOrder :=
  do! fail_if (validateRequest req);
  WithTx (place_in_tx req).
End Repositories.
