(* ===== verification/OrderPlacementProofs.v ===== *)
(** Placing orders: a placement commits as one, whoever else places orders, and the stock is conserved. *)
From Stdlib Require Import Ascii String.
From S2P Require Import Prelude SqlTx SqlModel SqlKit OrderPlacement.

(** ** What a placement does *)

Section Spec.
Context `{PT : PgTypes}.

Definition debit_line (products : gmap string StockRow) (line : LineRequest) : gmap string StockRow :=
  match products !! ln_ProductID line with
  | Some row => <[ln_ProductID line := debited row (ln_Quantity line)]> products
  | None => products
  end.
Definition price_at (products : gmap string StockRow) (line : LineRequest) : Z :=
  match products !! ln_ProductID line with Some row => sr_price_cents row | None => 0 end.
Definition total_of (price : LineRequest → Z) (lines : list LineRequest) (total : Z) : Z :=
  foldl (λ total line, int_add total (int_mul (ln_Quantity line) (price line))) total lines.
Definition line_row (req : PlaceOrderRequest) (price : LineRequest → Z) (line : LineRequest) : LineRow :=
  mkLineRow (rq_OrderID req) (ln_ProductID line) (ln_Quantity line) (price line).
Definition order_row (req : PlaceOrderRequest) (total : Z) : OrderRow :=
  mkOrderRow (rq_OrderID req) (rq_CustomerID req) total (stored_time (rq_CreatedAt req)).
(** The tables with the order placed at the prices they have. *)
Definition place (req : PlaceOrderRequest) (t : Tables) : Tables :=
  let price := price_at (t_products t) in
  mkTables (foldl debit_line (t_products t) (rq_Lines req))
    (<[rq_OrderID req := order_row req (total_of price (rq_Lines req) 0)]> (t_orders t))
    (t_lines t ++ map (line_row req price) (rq_Lines req)).
(** The order can be placed: it is valid, its identifier is free, its payment is accepted, and there is enough of
    every product. *)
Record placeable (req : PlaceOrderRequest) (t : Tables) : Prop := {
  pl_valid : validateRequest req = None;
  pl_payment : rq_RejectPayment req = false;
  pl_fresh : t_orders t !! rq_OrderID req = None;
  pl_stock : Forall (λ line, ∃ row, t_products t !! ln_ProductID line = Some row ∧ ln_Quantity line <= sr_stock row) (rq_Lines req);
  pl_total : 0 <= total_of (price_at (t_products t)) (rq_Lines req) 0
}.
Definition receipt (req : PlaceOrderRequest) (t : Tables) : PlacedOrder :=
  mkPlaced (rq_OrderID req) (len (rq_Lines req)) (total_of (price_at (t_products t)) (rq_Lines req) 0).
End Spec.

(** ** Requests and products *)

Lemma lines_distinct seen lines :
  check_lines seen lines = None →
  NoDup (map ln_ProductID lines) ∧ Forall (λ line, (ln_ProductID line ∉ seen) ∧ 0 < ln_Quantity line) lines.
Proof.
  revert seen. induction lines as [|line lines IH]; intros seen; cbn; [split; constructor|].
  repeat case_bool_decide; try done; destruct (Z.leb_spec (ln_Quantity line) 0); try done.
  intros [Hnd Hall]%IH. rewrite Forall_forall in Hall. split.
  - constructor; [|done]. intros (l & E & Hl)%list_elem_of_fmap. apply Hall in Hl as [Hl _]. set_solver.
  - constructor; [done|]. apply Forall_forall. intros l [? ?]%Hall. set_solver.
Qed.
Lemma valid_lines req :
  validateRequest req = None → NoDup (map ln_ProductID (rq_Lines req)) ∧ Forall (λ line, 0 < ln_Quantity line) (rq_Lines req).
Proof.
  unfold validateRequest. repeat case_bool_decide; try done. destruct (_ =? 0); [done|]. intros [Hnd Hall]%lines_distinct.
  split; [done|]. by eapply Forall_impl; [exact Hall|intros ? [_ ?]].
Qed.

Definition stocked (p : Product) : StockRow := mkStockRow (pr_Name p) (pr_Stock p) (pr_PriceCents p).
Lemma stocked_product id row : stocked (product id row) = row.
Proof. by destruct row. Qed.
(** The locked products by their identifiers, and the locks. *)
Definition found (t : Tables) (ids : list string) : list (string * StockRow) := omap (λ id, pair id <$> t_products t !! id) (remove_dups ids).
Lemma found_row t ids id row : (id, row) ∈ found t ids ↔ id ∈ ids ∧ t_products t !! id = Some row.
Proof.
  unfold found. rewrite list_elem_of_omap. setoid_rewrite elem_of_remove_dups. split.
  - intros (id' & Hin & (row' & Hrow & [= -> ->])%fmap_Some). done.
  - intros [Hin Hrow]. exists id. by rewrite Hrow.
Qed.
Lemma by_id_found rows id p : by_id (map (uncurry product) rows) !! id = Some p → (id, stocked p) ∈ rows.
Proof.
  unfold by_id. assert (∀ acc : gmap string Product,
    foldl (λ byID product, <[pr_ID product := product]> byID) acc (map (uncurry product) rows) !! id = Some p →
    (id, stocked p) ∈ rows ∨ acc !! id = Some p) as H.
  { induction rows as [|[id' row] rows IH]; intros acc; cbn; [by right|].
    intros [Hin|Hacc]%IH; [left; by right|]. apply lookup_insert_Some in Hacc as [[<- <-]|[_ ?]]; [|by right].
    left. rewrite stocked_product. left. }
  intros [Hin|Hnone]%H; [done|]. by rewrite lookup_empty in Hnone.
Qed.

(** ** The writes of a placement *)

Definition debits (byID : gmap string Product) (lines : list LineRequest) : list Write :=
  omap (λ line, (λ p, UpdateProduct (ln_ProductID line) (stocked p) (debited (stocked p) (ln_Quantity line))) <$> byID !! ln_ProductID line) lines.
Definition debit_by (byID : gmap string Product) (products : gmap string StockRow) (line : LineRequest) : gmap string StockRow :=
  match byID !! ln_ProductID line with
  | Some p => <[ln_ProductID line := debited (stocked p) (ln_Quantity line)]> products
  | None => products
  end.
Lemma apply_locks t rows : apply_writes t (map (uncurry LockProduct) rows) = t.
Proof. unfold apply_writes. induction rows as [|[] rows IH]; [done|exact IH]. Qed.
Lemma apply_debits byID lines t :
  apply_writes t (debits byID lines) = mkTables (foldl (debit_by byID) (t_products t) lines) (t_orders t) (t_lines t).
Proof.
  revert t. induction lines as [|line lines IH]; intros t; cbn; [by destruct t|]. unfold debit_by at 2.
  destruct (byID !! _) as [p|]; cbn; [|apply IH]. unfold apply_writes in *. cbn. by rewrite IH.
Qed.
Lemma apply_inserts rows t :
  apply_writes t (map InsertLine rows) = mkTables (t_products t) (t_orders t) (t_lines t ++ rows).
Proof.
  unfold apply_writes. revert t. induction rows as [|row rows IH]; intros t; cbn; [rewrite app_nil_r; by destruct t|].
  rewrite IH. cbn. by rewrite <- app_assoc.
Qed.
Lemma debit_by_other byID lines products id : id ∉ map ln_ProductID lines → foldl (debit_by byID) products lines !! id = products !! id.
Proof.
  revert products. induction lines as [|line lines IH]; intros products; cbn; [done|].
  rewrite not_elem_of_cons. intros [Hne Hnot]. rewrite IH by done. unfold debit_by. destruct (byID !! _); [|done].
  by rewrite lookup_insert_ne.
Qed.
Lemma debit_by_line byID lines products :
  NoDup (map ln_ProductID lines) →
  Forall (λ line, ∃ p, byID !! ln_ProductID line = Some p ∧ products !! ln_ProductID line = Some (stocked p)) lines →
  foldl (debit_by byID) products lines = foldl debit_line products lines.
Proof.
  revert products. induction lines as [|line lines IH]; intros products; cbn; [done|].
  intros [Hnot Hnd]%NoDup_cons [(p & Hp & Hrow) Hall]%Forall_cons. unfold debit_by at 2, debit_line at 2. rewrite Hp, Hrow.
  apply IH; [done|]. rewrite Forall_forall in *. intros l Hl. destruct (Hall l Hl) as (p' & Hp' & Hrow'). exists p'. split; [done|].
  rewrite lookup_insert_ne; [done|]. intros E. apply Hnot. rewrite E. apply list_elem_of_fmap. by exists l.
Qed.

Section Transaction.
Context `{PD : PgDriver} `{SB : SqlBuilder} `{PT : PgTypes} {E : Type} `{SE : !SqlEngine Tables Write E}.
Context {others : Tables → Tables → Prop} {mine : string → Prop} `{PO : !PreOrder others} `{SL : !SqlLaws others mine}.
#[local] Abbreviation TxS := (Tx Tables Write E).
#[local] Abbreviation any := (λ _ _ _, True).
#[local] Abbreviation trun := (runs (E := E) others).

Lemma lock_runs ids x :
  x_own x = [] →
  trun (LockByID in_tx ids) x (λ products ws x', ∃ rows, products = map (uncurry product) rows ∧ ws = map (uncurry LockProduct) rows ∧
    in_force x') any.
Proof using PO SL.
  intros Hown c o c' x' Hr. unfold LockByID, QueryAll in Hr.
  destruct (runs_exec (mine := mine) id (lockSQL ids) x c o c' x' Hr) as (ws & Hg & Ho). exists ws. split; [done|].
  destruct o as [products|e|]; [|done..]. destruct Ho as (stmt & Hs & Hst). unfold lockSQL in Hs.
  case_bool_decide; [done|]. apply and_then_inr in Hs as ([args holders] & _ & [= <-]). cbn in Hst.
  unfold lock_products in Hst. injection Hst as <- <-. exists (found (apply_writes (x_base x') (x_own x)) (sort_strings ids)).
  split_and!; [done|done|]. eapply in_force_goes_on; [exact Hg|unfold in_force; by rewrite Hown|].
  apply Forall_forall. intros w ([id row] & -> & Hin)%list_elem_of_fmap. apply found_row in Hin as [_ Hrow]. by rewrite Hown in Hrow.
Qed.
Lemma debit_runs id quantity row x :
  in_force x → LockProduct id row ∈ x_own x →
  (∀ t, t_products (apply_writes t (x_own x)) !! id = t_products t !! id) →
  trun (Debit in_tx id quantity) x (λ _ ws x', ws = [UpdateProduct id row (debited row quantity)] ∧ in_force x') any.
Proof using PO SL.
  intros Hf Hlock Hsame. rule runs_bind; [rule (runs_exec (mine := mine))|]. cbn. intros n ws x1 Hg (stmt & Hs & Hst).
  rule runs_ret. rewrite app_nil_r. unfold debitSQL in Hs. case_bool_decide; [done|]. destruct (quantity <=? 0); [done|]. injection Hs as <-.
  cbn in Hst. unfold debit_stock in Hst. rewrite Hsame in Hst. destruct (integer quantity); [|done].
  assert (t_products (x_base x1) !! id = Some row) as Hrow by exact (still_pending _ _ _ _ Hg Hf Hlock).
  rewrite Hrow in Hst. destruct (stock_checks _); [|done]. injection Hst as <- <-. split; [done|].
  eapply in_force_goes_on; [exact Hg|done|]. by constructor.
Qed.

(** Lines for which a locked product has enough stock. *)
Definition in_stock (byID : gmap string Product) (lines : list LineRequest) : Prop :=
  Forall (λ line, ∃ p, byID !! ln_ProductID line = Some p ∧ ln_Quantity line <= pr_Stock p) lines.
Lemma debits_snoc byID lines line p :
  byID !! ln_ProductID line = Some p →
  debits byID (lines ++ [line]) = debits byID lines ++ [UpdateProduct (ln_ProductID line) (stocked p) (debited (stocked p) (ln_Quantity line))].
Proof using Type. intros Hp. unfold debits. rewrite omap_app. cbn. by rewrite Hp. Qed.
Lemma debit_lines_runs rows lines todo total x :
  let byID := by_id (map (uncurry product) rows) in
  x_own x = map (uncurry LockProduct) rows ++ debits byID lines → in_force x → NoDup (map ln_ProductID (lines ++ todo)) →
  trun (debit_lines byID todo total) x (λ total' ws x',
    ws = debits byID todo ∧ in_force x' ∧ in_stock byID todo ∧ total' = total_of (price_of byID) todo total) any.
Proof using PO SL.
  intros byID. revert lines total x. induction todo as [|line todo IH]; intros lines total x Hown Hf Hnd; cbn [debit_lines].
  { rule runs_ret. split_and!; [done|done|constructor|done]. }
  destruct (byID !! ln_ProductID line) as [p|] eqn:Hp; [|by rule runs_throw].
  destruct (Z.ltb_spec (pr_Stock p) (ln_Quantity line)) as [|Hstock]; [by rule runs_throw|].
  assert (ln_ProductID line ∉ map ln_ProductID lines) as Hnot.
  { rewrite map_app in Hnd. apply NoDup_app in Hnd as (_ & Hd & _). intros Hin. apply (Hd _ Hin). left. }
  rule runs_bind; [apply (debit_runs _ _ (stocked p)); [done|..]|].
  - rewrite Hown. apply elem_of_app. left. apply list_elem_of_fmap. exists (ln_ProductID line, stocked p). split; [done|].
    by apply by_id_found.
  - intros t. rewrite Hown, apply_writes_app, apply_locks, apply_debits. cbn. by apply debit_by_other.
  - cbn. intros _ ws x1 Hg [-> Hf1].
    eapply runs_impl; [apply (IH (lines ++ [line]))| |done].
    + destruct Hg as [_ -> _]. by rewrite (debits_snoc _ _ _ _ Hp), Hown, app_assoc.
    + done.
    + by rewrite <- app_assoc.
    + cbn. intros total' ws x2 _ (-> & Hf2 & Hin & ->). split_and!; [|done| |].
      * unfold debits. cbn. by rewrite Hp.
      * constructor; [by exists p|done].
      * assert (price_of byID line = pr_PriceCents p) as <- by (unfold price_of; by rewrite Hp). done.
Qed.

Lemma create_order_runs req total x :
  in_force x → (∀ t, t_orders (apply_writes t (x_own x)) = t_orders t) →
  trun (CreateOrder in_tx (rq_OrderID req) (rq_CustomerID req) total (rq_CreatedAt req)) x
    (λ _ ws x', ws = [InsertOrder (order_row req total)] ∧ in_force x' ∧ 0 <= total) any.
Proof using PO SL.
  intros Hf Hsame c o c' x' Hr. destruct (runs_exec (mine := mine) _ _ _ _ _ _ _ Hr) as (ws & Hg & Ho). exists ws. split; [done|].
  destruct o as [[]|e|]; [|done..]. destruct Ho as (stmt & Hs & Hst). unfold createOrderSQL in Hs.
  case_bool_decide; [done|]. case_bool_decide; [done|]. destruct (Z.ltb_spec total 0); [done|]. destruct (_ =? 0); [done|].
  apply build_run in Hs. rewrite Hs in Hst. apply write_row_inr in Hst as [-> Hk].
  split_and!; [done| |done]. eapply in_force_goes_on; [exact Hg|done|]. constructor; [|done]. cbn.
  apply app_eq_nil in Hk as [_ Hk]. unfold order_keys, unless_key in Hk. rewrite Hsame in Hk. case_bool_decide as Hn; [done|].
  by apply eq_None_not_Some.
Qed.
Lemma create_lines_runs req byID todo x own rows :
  x_own x = own ++ map InsertLine rows → (∀ t, t_lines (apply_writes t own) = t_lines t) → in_force x →
  trun (forM_ todo (λ line, CreateLine in_tx (rq_OrderID req) line (price_of byID line))) x
    (λ _ ws x', ws = map InsertLine (map (line_row req (price_of byID)) todo) ∧ in_force x') any.
Proof using PO SL.
  intros Hown Hsame. revert x rows Hown. induction todo as [|line todo IH]; intros x rows Hown Hf; cbn [forM_]; [by rule runs_ret|].
  rule (runs_bind (Qm := λ _ ws x', ws = [InsertLine (line_row req (price_of byID) line)] ∧ in_force x')).
  - intros c o c' x' Hr. destruct (runs_exec (mine := mine) _ _ _ _ _ _ _ Hr) as (ws & Hg & Ho). exists ws. split; [done|].
    destruct o as [[]|e|]; [|done..]. destruct Ho as (stmt & Hs & Hst). unfold createLineSQL in Hs.
    case_bool_decide; [done|]. case_bool_decide; [done|]. destruct (_ <=? 0); [done|]. destruct (_ <? 0); [done|].
    apply build_run in Hs. rewrite Hs in Hst. apply write_row_inr in Hst as [-> Hk].
    split; [done|]. eapply in_force_goes_on; [exact Hg|done|]. constructor; [|done]. cbn.
    apply app_eq_nil in Hk as [_ Hk]. unfold line_keys in Hk. apply app_eq_nil in Hk as [Hk _]. unfold unless_key in Hk.
    destruct (existsb _ _) eqn:Hex; [done|]. rewrite Hown, apply_writes_app, apply_inserts in Hex. cbn in Hex.
    rewrite Hsame, existsb_app in Hex. by apply orb_false_iff in Hex as [? _].
  - intros _ ws x1 Hg [-> Hf1]. eapply runs_impl; [apply (IH x1 (rows ++ [line_row req (price_of byID) line]))| |done].
    + destruct Hg as [_ -> _]. by rewrite Hown, map_app, app_assoc.
    + done.
    + cbn. intros _ ws x2 _ [-> Hf2]. done.
Qed.

(** What a placement has pending when its body returns. *)
Definition placement_writes (req : PlaceOrderRequest) (rows : list (string * StockRow)) (byID : gmap string Product) (total : Z) : list Write :=
  map (uncurry LockProduct) rows ++ debits byID (rq_Lines req) ++ [InsertOrder (order_row req total)]
  ++ map InsertLine (map (line_row req (price_of byID)) (rq_Lines req)).
Definition body_done (req : PlaceOrderRequest) (placed : PlacedOrder) (ws : list Write) (x : TxS) : Prop :=
  ∃ rows byID total, ws = placement_writes req rows byID total ∧ Forall (λ w, pending_ok w (x_base x)) ws ∧
    in_stock byID (rq_Lines req) ∧ total = total_of (price_of byID) (rq_Lines req) 0 ∧ 0 <= total ∧
    rq_RejectPayment req = false ∧ placed = mkPlaced (rq_OrderID req) (len (rq_Lines req)) total.
Lemma place_runs req x :
  validateRequest req = None → x_own x = [] → trun (place_in_tx req) x (body_done req) any.
Proof using PO SL.
  intros [Hnd _]%valid_lines Hown. unfold place_in_tx.
  rule runs_bind; [by apply lock_runs|]. intros products ws x1 Hg1 (rows & -> & -> & Hf1).
  assert (x_own x1 = map (uncurry LockProduct) rows) as Hown1 by (destruct Hg1 as [_ -> _]; by rewrite Hown).
  rule runs_bind; [apply (debit_lines_runs rows []); [cbn; by rewrite app_nil_r|done|done]|]. set (byID := by_id _).
  intros total ws x2 Hg2 (-> & Hf2 & Hin & ->).
  assert (x_own x2 = map (uncurry LockProduct) rows ++ debits byID (rq_Lines req)) as Hown2 by (destruct Hg2 as [_ -> _]; by rewrite Hown1).
  rule runs_bind; [apply create_order_runs; [done|]|].
  { intros t. by rewrite Hown2, apply_writes_app, apply_locks, apply_debits. }
  set (total := total_of _ _ _). intros _ ws x3 Hg3 (-> & Hf3 & Hpos).
  set (own := (map (uncurry LockProduct) rows ++ debits byID (rq_Lines req)) ++ [InsertOrder (order_row req total)]).
  assert (x_own x3 = own) as Hown3 by (destruct Hg3 as [_ -> _]; by rewrite Hown2).
  unfold create_lines. rule runs_bind; [apply (create_lines_runs req byID (rq_Lines req) x3 own [])|]; [cbn; by rewrite app_nil_r| |done|].
  { intros t. unfold own. by rewrite !apply_writes_app, apply_locks, apply_debits. }
  intros _ ws x4 Hg4 [-> Hf4]. destruct (rq_RejectPayment req) eqn:Hrej; [by rule runs_throw|]. rule runs_ret.
  exists rows, byID, total. split_and!; [by rewrite app_nil_r| |done..].
  unfold in_force in Hf4. destruct Hg4 as [_ H4 _]. rewrite H4, Hown3 in Hf4. unfold own in Hf4. by rewrite app_nil_r, !app_assoc.
Qed.

Lemma total_of_ext price price' lines total :
  Forall (λ line, price line = price' line) lines → total_of price lines total = total_of price' lines total.
Proof using Type.
  intros H. revert total. induction H as [|line lines Hl _ IH]; intros total; [done|]. cbn. rewrite Hl. apply IH.
Qed.
Lemma placement_commits req placed ws x t :
  validateRequest req = None → body_done req placed ws x → meanwhile others ws (x_base x) t →
  placeable req t ∧ apply_writes t ws = place req t ∧ placed = receipt req t.
Proof using Type.
  intros Hv (rows & byID & total & -> & Hp & Hin & -> & Hpos & Hrej & ->) [_ Hm].
  assert (Forall (λ w, pending_ok w t) (placement_writes req rows byID (total_of (price_of byID) (rq_Lines req) 0))) as Ht.
  { rewrite Forall_forall in *. auto. }
  unfold placement_writes in Ht. rewrite !Forall_app in Ht. destruct Ht as (_ & Hd & Ho & _).
  assert (Forall (λ line, ∃ p, byID !! ln_ProductID line = Some p ∧ t_products t !! ln_ProductID line = Some (stocked p) ∧
    ln_Quantity line <= pr_Stock p) (rq_Lines req)) as Hall.
  { unfold in_stock in Hin. rewrite Forall_forall in Hd. rewrite Forall_forall in Hin. apply Forall_forall. intros line Hl. destruct (Hin line Hl) as (p & Hp' & Hq). exists p.
    split_and!; [done| |done]. apply (Hd (UpdateProduct (ln_ProductID line) (stocked p) (debited (stocked p) (ln_Quantity line)))).
    apply list_elem_of_omap. exists line. by rewrite Hp'. }
  assert (Forall (λ line, price_of byID line = price_at (t_products t) line) (rq_Lines req)) as Hprice.
  { eapply Forall_impl; [exact Hall|]. intros line (p & Hp' & Hrow & _). unfold price_of, price_at. by rewrite Hp', Hrow. }
  rewrite (total_of_ext _ _ _ _ Hprice) in *. split_and!; [split; [done|done| |eapply Forall_impl; [exact Hall|]|done]| |done].
  - rewrite Forall_singleton in Ho. exact Ho.
  - intros line (p & _ & Hrow & Hq). by exists (stocked p).
  - unfold placement_writes. rewrite !apply_writes_app, apply_locks, apply_debits, apply_inserts. unfold place. cbn. f_equal.
    + apply debit_by_line; [apply (valid_lines req Hv)|]. eapply Forall_impl; [exact Hall|]. intros line (p & ? & ? & _). by exists p.
    + f_equal. rewrite Forall_forall in Hprice. apply map_ext_in. intros line Hl. unfold line_row. f_equal. by apply Hprice, list_elem_of_In.
Qed.

(** How a placement ends. *)
Definition settled (req : PlaceOrderRequest) (o : Outcome PlacedOrder) (t t' : Tables) : Prop :=
  match o with
  | Val placed => ∃ t1, others t t1 ∧ placeable req t1 ∧ placed = receipt req t1 ∧ others (place req t1) t'
  | Fail _ => others t t' ∨ ∃ t1, others t t1 ∧ placeable req t1 ∧ others (place req t1) t'
  | Panic => False
  end.
Lemma place_settles req c (w : World Tables E) o c' w' :
  PlaceOrder req c w = (o, c', w') → settled req o (w_tables w) (w_tables w').
Proof using PO SL.
  unfold PlaceOrder. intros [([] & c1 & w1 & (-> & -> & [[_ Hv]|(? & [=] & _)])%fail_if_run & H)|
    [(e & -> & (_ & -> & _)%fail_if_run)|[_ (_ & _ & [[[=] _]|(? & [=] & _)])%fail_if_run]]]%bind_inv; [|by left].
  pose proof (with_tx_run others mine (place_in_tx req) (body_done req) any H (λ t g, place_runs req (mkTx t [] g) Hv eq_refl))
    as [(placed & ws & x & t & Ho & Hd & Hx & Hm & Hc)|[(e & -> & _ & _ & Hc)|(e0 & e & ws & x & -> & _ & Hx & Hc & _)]].
  - destruct (placement_commits _ _ _ _ _ Hv Hd Hm) as (Hp & Heq & Hr). rewrite Heq in Hc. destruct Hm as [Hm _].
    destruct Ho as [->|(e & -> & _)]; [|right]; exists t; (split_and!; [by etrans|done..]).
  - by left.
  - left. by etrans.
Qed.
End Transaction.

(** ** The properties *)

(** C6: Whoever else commits between its statements, a placement that answers has committed, in one step, an order that
    could be placed then: the stock debited, the order and its lines inserted, with the total that is answered. One
    that fails has committed all of that, when the answer was lost, or nothing; a rejected payment commits nothing. *)
Theorem placements_commit_as_one `{PD : PgDriver} `{SB : SqlBuilder} `{PT : PgTypes} {E : Type} `{SE : !SqlEngine Tables Write E}
    others mine `{PO : !PreOrder others} `{SL : !SqlLaws others mine} req c (w : World Tables E) o c' w' :
  PlaceOrder req c w = (o, c', w') →
  match o with
  | Val placed => ∃ t, others (w_tables w) t ∧ placeable req t ∧ placed = receipt req t ∧ others (place req t) (w_tables w')
  | Fail _ =>
      others (w_tables w) (w_tables w') ∨
      rq_RejectPayment req = false ∧ ∃ t, others (w_tables w) t ∧ placeable req t ∧ others (place req t) (w_tables w')
  | Panic => False
  end.
Proof.
  intros H%(place_settles (others := others) (mine := mine)). destruct o as [placed|e|]; [done| |done].
  destruct H as [H|(t & H1 & H2 & H3)]; [by left|right]. split; [by destruct H2|by exists t].
Qed.

Section Stock.
Context `{PT : PgTypes}.
(** The placements of any clients. *)
Definition placement (t t' : Tables) : Prop := ∃ req, placeable req t ∧ t' = place req t.
Abbreviation placements := (rtc placement).

Definition quantity_of (id : string) (lines : list LineRow) : Z :=
  foldr (λ row sum, (if bool_decide (lr_ProductID row = id) then lr_Quantity row else 0) + sum) 0 lines.
Definition line_total (lines : list LineRow) : Z :=
  foldl (λ total row, int_add total (int_mul (lr_Quantity row) (lr_UnitPriceCents row))) 0 lines.
Definition lines_of (id : string) (t : Tables) : list LineRow := filter (λ row, lr_OrderID row = id) (t_lines t).
(** No product is oversold, every line has its order, and an order's total is that of its lines. *)
Record sound (t : Tables) : Prop := {
  so_stock : ∀ id row, t_products t !! id = Some row → 0 <= sr_stock row;
  so_order : Forall (λ line, is_Some (t_orders t !! lr_OrderID line)) (t_lines t);
  so_total : ∀ id row, t_orders t !! id = Some row → or_TotalCents row = line_total (lines_of id t)
}.
(** What is in stock and what is ordered of a product is together what it was. *)
Definition conserved (t t' : Tables) : Prop :=
  ∀ id row, t_products t !! id = Some row →
    ∃ row', t_products t' !! id = Some row' ∧ sr_price_cents row' = sr_price_cents row ∧
      sr_stock row' + quantity_of id (t_lines t') = sr_stock row + quantity_of id (t_lines t).

Lemma quantity_app id lines lines' : quantity_of id (lines ++ lines') = quantity_of id lines + quantity_of id lines'.
Proof. unfold quantity_of. induction lines as [|row lines IH]; [done|]. cbn. rewrite IH. lia. Qed.
Lemma debit_line_row products line id row :
  products !! id = Some row →
  debit_line products line !! id = Some (if bool_decide (ln_ProductID line = id) then debited row (ln_Quantity line) else row).
Proof.
  intros Hrow. unfold debit_line. case_bool_decide as Hid.
  - rewrite Hid, Hrow. apply lookup_insert_eq.
  - destruct (products !! ln_ProductID line); [|done]. by rewrite lookup_insert_ne.
Qed.
Lemma debited_lines req price lines products id row :
  products !! id = Some row →
  ∃ row', foldl debit_line products lines !! id = Some row' ∧ sr_price_cents row' = sr_price_cents row ∧
    sr_stock row' + quantity_of id (map (line_row req price) lines) = sr_stock row.
Proof.
  revert products row. induction lines as [|line lines IH]; intros products row Hrow; cbn; [exists row; split_and!; [done|done|lia]|].
  apply (debit_line_row _ line) in Hrow. destruct (IH _ _ Hrow) as (row' & H1 & H2 & H3). exists row'. split; [done|].
  unfold quantity_of in *. case_bool_decide; cbn in *; (split; [done|lia]).
Qed.
(** A validated order debits each product once, so what it leaves was checked. *)
Lemma debited_stock lines products id row' :
  NoDup (map ln_ProductID lines) →
  (∀ id row, products !! id = Some row → 0 <= sr_stock row) →
  Forall (λ line, ∃ row, products !! ln_ProductID line = Some row ∧ ln_Quantity line <= sr_stock row) lines →
  foldl debit_line products lines !! id = Some row' → 0 <= sr_stock row'.
Proof.
  revert products. induction lines as [|line lines IH]; intros products; cbn; [eauto|].
  intros [Hnot Hnd]%NoDup_cons Hpos [(row & Hrow & Hq) Hall]%Forall_cons. unfold debit_line at 2. rewrite Hrow.
  apply IH; [done|..].
  - intros id' r [[<- <-]|[_ Hr]]%lookup_insert_Some; [cbn; lia|by eapply Hpos].
  - rewrite Forall_forall in *. intros l Hl. destruct (Hall l Hl) as (r & Hr & Hqr). exists r. split; [|done].
    rewrite lookup_insert_ne; [done|]. intros Hid. apply Hnot. rewrite Hid. apply list_elem_of_fmap. by exists l.
Qed.
Lemma place_conserves req t : conserved t (place req t).
Proof.
  intros id row Hrow. destruct (debited_lines req (price_at (t_products t)) (rq_Lines req) _ _ _ Hrow) as (row' & H1 & H2 & H3).
  exists row'. split_and!; [done|done|]. cbn [place t_lines]. rewrite quantity_app. lia.
Qed.
Lemma conserved_trans t t' t'' : conserved t t' → conserved t' t'' → conserved t t''.
Proof.
  intros H1 H2 id row (row' & Hrow & Hp & Hs)%H1. destruct (H2 id row' Hrow) as (row'' & Hrow' & Hp' & Hs'). exists row''.
  split_and!; [done|by rewrite Hp'|lia].
Qed.

Lemma line_total_rows req price lines :
  line_total (map (line_row req price) lines) = total_of price lines 0.
Proof. unfold line_total, total_of. generalize 0. induction lines as [|line lines IH]; intros z; [done|]. apply IH. Qed.
Lemma place_sound req t : placeable req t → sound t → sound (place req t).
Proof.
  intros [Hv _ Hfresh Hstock _] [Hs Ho Ht]. destruct (valid_lines _ Hv) as [Hnd _].
  assert (filter (λ row, lr_OrderID row = rq_OrderID req) (t_lines t) = []) as Hnone.
  { apply filter_none. eapply Forall_impl; [exact Ho|]. intros line Hl Hid. cbn in Hl, Hid. rewrite Hid, Hfresh in Hl. by destruct Hl. }
  split; cbn [place t_products t_orders t_lines].
  - intros id row. by apply debited_stock.
  - apply Forall_app. split.
    + eapply Forall_impl; [exact Ho|]. intros line [row Hrow]. destruct (decide (lr_OrderID line = rq_OrderID req)) as [->|Hne];
        [rewrite lookup_insert_eq|rewrite lookup_insert_ne by done]; eauto.
    + apply Forall_forall. intros line (l & -> & _)%list_elem_of_fmap. cbn. rewrite lookup_insert_eq. eauto.
  - intros id row Hrow. unfold lines_of. cbn [place t_lines]. rewrite filter_app. apply lookup_insert_Some in Hrow as [[<- <-]|[Hne Hrow]].
    + rewrite Hnone. cbn [or_TotalCents order_row app]. rewrite <- (line_total_rows req). f_equal. symmetry.
      apply filter_all, Forall_forall. by intros line (l & -> & _)%list_elem_of_fmap.
    + rewrite (Ht _ _ Hrow). unfold lines_of. rewrite (filter_none _ (map _ _)), app_nil_r; [done|].
      apply Forall_forall. intros line (l & -> & _)%list_elem_of_fmap. done.
Qed.
Lemma placements_sound t t' : placements t t' → sound t → sound t' ∧ conserved t t'.
Proof.
  induction 1 as [t|t t1 t' (req & Hp & ->) _ IH]; intros Hs.
  - split; [done|]. intros id row Hrow. by exists row.
  - destruct IH as [Hs' Hc]; [by apply place_sound|]. split; [done|]. eapply conserved_trans; [apply place_conserves|exact Hc].
Qed.
Lemma settled_placements `{PD : PgDriver} req o t t' : settled (others := placements) req o t t' → placements t t'.
Proof.
  assert (∀ t1, placements t t1 → placeable req t1 → placements (place req t1) t' → placements t t') as H.
  { intros t1 H1 Hp H2. etrans; [exact H1|]. eapply rtc_l; [by exists req|done]. }
  destruct o as [placed|e|]; [|intros [?|?]; [done|]|done]; naive_solver.
Qed.
End Stock.

(** A client that places orders one after the other, whatever it is answered. *)
Section Client.
Context `{PD : PgDriver} `{SB : SqlBuilder} `{PT : PgTypes} {E : Type} `{SE : !SqlEngine Tables Write E}.
Definition after_order (w : World Tables E) (call : Ctx * PlaceOrderRequest) : World Tables E := (PlaceOrder call.2 call.1 w).2.
Definition after_orders (calls : list (Ctx * PlaceOrderRequest)) (w : World Tables E) : World Tables E := foldl after_order w calls.

(** C3: However placements of this and of other clients interleave, fail, lose their answers or are cancelled, stock and
    ordered quantity of every product together stay what they were at its unchanged price; no product is oversold,
    every line has its order, and every order's total is the one of its lines. *)
Theorem stock_is_conserved mine `{SL : !SqlLaws (rtc placement) mine} calls (w : World Tables E) :
  sound (w_tables w) →
  sound (w_tables (after_orders calls w)) ∧ conserved (w_tables w) (w_tables (after_orders calls w)).
Proof using Type.
  intros Hs. apply placements_sound; [|done]. clear Hs. revert w. induction calls as [|[c req] calls IH]; intros w; [done|].
  etrans; [|apply IH]. cbn. unfold after_order. cbn. destruct (PlaceOrder req c w) as [[o c'] w'] eqn:E1.
  by apply (place_settles (others := rtc placement) (mine := mine)), settled_placements in E1.
Qed.
End Client.

(** ** Evaluations *)

#[local] Existing Instance plain_builder.
#[local] Existing Instance plain_pg.
Definition no_sentinel (name : string) : Prop := False.
#[local] Instance placement_engine : SqlLaws (E := Plain) (rtc placement) no_sentinel.
Proof. apply plain_laws; [apply _|done|by intros []]. Qed.
Definition demo_tables : Tables := mkTables {["sku-coffee" := mkStockRow "coffee" 5 1200]} ∅ [].
Definition demo_world : World Tables Plain := mkWorld demo_tables (mkPlain 5000 [Works; Works; Works; Works; Loses]).
Definition demo_order (id : string) (quantity : Z) (reject : bool) : PlaceOrderRequest :=
  mkRequest id "customer-42" [mkLine "sku-coffee" quantity] 1 reject.
(** The first order is committed though its answer is lost; the second wants too much, the payment of the third is
    rejected; the last takes what is left. *)
Definition demo_calls : list (Ctx * PlaceOrderRequest) :=
  [(Background, demo_order "order-1" 2 false); (Background, demo_order "order-2" 4 false);
   (Background, demo_order "order-3" 3 true); (Background, demo_order "order-4" 3 false)].
Definition demo_after : World Tables Plain := after_orders demo_calls demo_world.

Lemma placements_commit_as_one_witness :
  ∃ t, placeable (demo_order "order-1" 2 false) t ∧ receipt (demo_order "order-1" 2 false) t = mkPlaced "order-1" 1 2400.
Proof.
  destruct (PlaceOrder (demo_order "order-1" 2 false) Background (mkWorld demo_tables (mkPlain 5000 []))) as [[o c'] w'] eqn:E.
  assert (o = Val (mkPlaced "order-1" 1 2400)) as -> by (vm_compute in E; injection E as <- _ _; reflexivity).
  destruct (placements_commit_as_one (rtc placement) no_sentinel _ _ _ _ _ _ E) as (t & _ & Hp & Hr & _). by exists t.
Defined.
Lemma stock_is_conserved_witness :
  sound (w_tables demo_after) ∧ sr_stock <$> (t_products (w_tables demo_after) !! "sku-coffee") = Some 0.
Proof.
  split; [|vm_compute; reflexivity]. apply (stock_is_conserved no_sentinel demo_calls demo_world). split.
  - cbn [demo_world demo_tables w_tables t_products]. intros id row [<- <-]%lookup_singleton_Some. cbn. lia.
  - constructor.
  - cbn [demo_world demo_tables w_tables t_orders]. intros id row H. by rewrite lookup_empty in H.
Defined.
(** Totals are 64-bit: an order of four items at 2^62 cents costs nothing. *)
Example overflowing_total_is_zero :
  (PlaceOrder (mkRequest "order-1" "customer-42" [mkLine "sku-gold" 4] 1 false) Background
     (mkWorld (mkTables {["sku-gold" := mkStockRow "gold" 5 (2 ^ 62)]} ∅ []) (mkPlain 5000 []))).1.1
  = Val (mkPlaced "order-1" 1 0).
Proof. vm_compute. reflexivity. Qed.
