(* ===== verification/OrderService.v ===== *)
(** examples/gin-sql-order-service/internal/orderservice/service.go: an order aggregate of a header, items and status
    events, whose commands write several tables in one transaction, behind gin handlers. *)
From Stdlib Require Import Ascii String.
From S2P Require Import Prelude SqlTx SqlKit.

Definition ordersTable : string := "gin_sql_order_service_orders".
Definition itemsTable : string := "gin_sql_order_service_items".
Definition statusEventsTable : string := "gin_sql_order_service_status_events".
Definition defaultRequestTimeout : Z := 3 * 1000000000.
Definition ErrInvalidOrder : GoError := Sentinel "orderservice.ErrInvalidOrder" "orderservice: invalid order".
Definition ErrOrderNotFound : GoError := Sentinel "orderservice.ErrOrderNotFound" "orderservice: order not found".
Definition ErrItemNotFound : GoError := Sentinel "orderservice.ErrItemNotFound" "orderservice: item not found".
Definition ErrOrderRejected : GoError := Sentinel "orderservice.ErrOrderRejected" "orderservice: order rejected".
Definition invalid (text : string) : GoError := Errorf text [ErrInvalidOrder] [].
Definition not_found (err : GoError) (id : string) : GoError := Errorf "%w: %s" [err] [FStr id].

Abbreviation Status := string (only parsing).
Definition StatusPending : Status := "pending".
Definition StatusConfirmed : Status := "confirmed".
Definition StatusCancelled : Status := "cancelled".
Definition Status_Valid (s : Status) : bool := bool_decide (s ∈ [StatusPending; StatusConfirmed; StatusCancelled]).

(** ** Data *)

Record Order := mkOrder {
  od_ID : string; od_CustomerID : string; od_Status : Status; od_TotalCents : Z; od_CreatedAt : Z; od_UpdatedAt : Z
}.
Record OrderItem := mkItem {
  it_ID : string; it_OrderID : string; it_SKU : string; it_Quantity : Z; it_UnitPriceCents : Z; it_LineTotalCents : Z
}.
Record StatusEvent := mkEvent { ev_ID : string; ev_OrderID : string; ev_Status : Status; ev_Reason : string; ev_CreatedAt : Z }.
Record OrderView := mkView { vw_Order : Order; vw_Items : list OrderItem; vw_StatusHistory : list StatusEvent }.
Record CreateItemRequest := mkItemRequest { ci_SKU : string; ci_Quantity : Z; ci_UnitPriceCents : Z }.
Record CreateOrderRequest := mkCreateRequest {
  co_CustomerID : string; co_Items : list CreateItemRequest; co_RejectAfterItems : bool
}.
Record UpdateItemRequest := mkUpdateRequest { ui_Quantity : Z }.
Record StatusResponse := mkStatusResponse { sr_OrderID : string; sr_Status : Status; sr_History : list StatusEvent }.

(** ** Validation *)

Definition check_item (i : Z) (item : CreateItemRequest) : option GoError :=
  if bool_decide (TrimSpace (ci_SKU item) = "") then Some (Errorf "%w: item %d sku is required" [ErrInvalidOrder] [FInt i])
  else if ci_Quantity item <=? 0 then Some (Errorf "%w: item %d quantity must be positive" [ErrInvalidOrder] [FInt i])
  else if ci_UnitPriceCents item <? 0
  then Some (Errorf "%w: item %d unit_price_cents must not be negative" [ErrInvalidOrder] [FInt i])
  else None.
Fixpoint check_items (i : Z) (items : list CreateItemRequest) : option GoError :=
  match items with
  | [] => None
  | item :: items => match check_item i item with Some err => Some err | None => check_items (i + 1) items end
  end.
Definition validateCreateOrderRequest (request : CreateOrderRequest) : option GoError :=
  if bool_decide (TrimSpace (co_CustomerID request) = "") then Some (invalid "%w: customer_id is required")
  else if bool_decide (co_Items request = []) then Some (invalid "%w: at least one item is required")
  else check_items 0 (co_Items request).
Definition unsupported (s : Status) : GoError := Errorf "%w: unsupported status %q" [ErrInvalidOrder] [FStr s].
Definition validateOrder (order : Order) : option GoError :=
  if bool_decide (TrimSpace (od_ID order) = "") then Some (invalid "%w: id is required")
  else if bool_decide (TrimSpace (od_CustomerID order) = "") then Some (invalid "%w: customer_id is required")
  else if negb (Status_Valid (od_Status order)) then Some (unsupported (od_Status order))
  else if od_TotalCents order <? 0 then Some (invalid "%w: total_cents must not be negative")
  else if od_CreatedAt order =? 0 then Some (invalid "%w: created_at is required")
  else if od_UpdatedAt order =? 0 then Some (invalid "%w: updated_at is required")
  else None.
Definition validateItem (item : OrderItem) : option GoError :=
  if bool_decide (TrimSpace (it_ID item) = "") then Some (invalid "%w: item id is required")
  else if bool_decide (TrimSpace (it_OrderID item) = "") then Some (invalid "%w: order id is required")
  else if bool_decide (TrimSpace (it_SKU item) = "") then Some (invalid "%w: sku is required")
  else if it_Quantity item <=? 0 then Some (invalid "%w: quantity must be positive")
  else if it_UnitPriceCents item <? 0 then Some (invalid "%w: unit_price_cents must not be negative")
  else if negb (it_LineTotalCents item =? int_mul (it_Quantity item) (it_UnitPriceCents item))
  then Some (invalid "%w: line_total_cents does not match quantity and unit price")
  else None.
Definition validateStatusEvent (event : StatusEvent) : option GoError :=
  if bool_decide (TrimSpace (ev_ID event) = "") then Some (invalid "%w: event id is required")
  else if bool_decide (TrimSpace (ev_OrderID event) = "") then Some (invalid "%w: order id is required")
  else if negb (Status_Valid (ev_Status event)) then Some (unsupported (ev_Status event))
  else if bool_decide (TrimSpace (ev_Reason event) = "") then Some (invalid "%w: reason is required")
  else if ev_CreatedAt event =? 0 then Some (invalid "%w: created_at is required")
  else None.

(** ** The tables *)

(** The columns of each table but its key. *)
Record OrderRow := mkOrderRow { or_customer : string; or_status : Status; or_total : Z; or_created : Z; or_updated : Z }.
Record ItemRow := mkItemRow { ir_order : string; ir_sku : string; ir_quantity : Z; ir_unit : Z; ir_line : Z }.
Record EventRow := mkEventRow { er_order : string; er_status : Status; er_reason : string; er_created : Z }.
Record Tables := mkTables { t_orders : gmap string OrderRow; t_items : gmap string ItemRow; t_events : gmap string EventRow }.
Inductive Write :=
  | InsertOrder (id : string) (row : OrderRow)
  | UpdateOrder (id : string) (old new : OrderRow)
  | InsertItem (id : string) (row : ItemRow)
  | UpdateItem (id : string) (old new : ItemRow)
  | InsertEvent (id : string) (row : EventRow).
Definition apply (t : Tables) (w : Write) : Tables :=
  match w with
  | InsertOrder id row | UpdateOrder id _ row => mkTables (<[id := row]> (t_orders t)) (t_items t) (t_events t)
  | InsertItem id row | UpdateItem id _ row => mkTables (t_orders t) (<[id := row]> (t_items t)) (t_events t)
  | InsertEvent id row => mkTables (t_orders t) (t_items t) (<[id := row]> (t_events t))
  end.
#[export] Instance tables_pending : Pending Tables Write := {|
  apply_write := apply;
  pending_ok w t :=
    match w with
    | InsertOrder id _ => t_orders t !! id = None
    | UpdateOrder id old _ => t_orders t !! id = Some old
    | InsertItem id _ => t_items t !! id = None
    | UpdateItem id old _ => t_items t !! id = Some old
    | InsertEvent id _ => t_events t !! id = None
    end
|}.

(** ** What the statements mean *)

Definition order_of (id : string) (row : OrderRow) : Order :=
  mkOrder id (or_customer row) (or_status row) (or_total row) (or_created row) (or_updated row).
Definition item_of (id : string) (row : ItemRow) : OrderItem :=
  mkItem id (ir_order row) (ir_sku row) (ir_quantity row) (ir_unit row) (ir_line row).
Definition event_of (id : string) (row : EventRow) : StatusEvent :=
  mkEvent id (er_order row) (er_status row) (er_reason row) (er_created row).
Definition free {A} (rows : gmap string A) (id : string) (name : string) : list PgError := unless_key (bool_decide (is_Some (rows !! id))) name.
Definition has_order (t : Tables) (id : string) (name : string) : list PgError :=
  unless_check (bool_decide (is_Some (t_orders t !! id))) foreign_key_violation name.
Definition at_least (bound : Z) (value : Z) (name : string) : list PgError := unless_check (bound <=? value) check_violation name.

Definition insert_order (id : string) (row : OrderRow) : Statement Tables Write unit :=
  write_row (λ t, at_least 0 (or_total row) "gin_sql_order_service_orders_total_cents_check"
    ++ free (t_orders t) id "gin_sql_order_service_orders_pkey") (InsertOrder id row).
Definition find_order (id : string) : Statement Tables Write (option Order) := select (λ t, order_of id <$> t_orders t !! id).
Definition update_total (id : string) (total updated : Z) : Statement Tables Write Z := λ t,
  match t_orders t !! id with
  | None => inr (0, [])
  | Some old =>
      match at_least 0 total "gin_sql_order_service_orders_total_cents_check" with
      | [] => inr (1, [UpdateOrder id old (mkOrderRow (or_customer old) (or_status old) total (or_created old) updated)])
      | errs => inl errs
      end
  end.
Definition item_checks (row : ItemRow) : list PgError :=
  integer (ir_quantity row) ++ at_least 1 (ir_quantity row) "gin_sql_order_service_items_quantity_check"
  ++ at_least 0 (ir_unit row) "gin_sql_order_service_items_unit_price_cents_check"
  ++ at_least 0 (ir_line row) "gin_sql_order_service_items_line_total_cents_check".
Definition insert_item (id : string) (row : ItemRow) : Statement Tables Write unit :=
  write_row (λ t, item_checks row ++ free (t_items t) id "gin_sql_order_service_items_pkey"
    ++ has_order t (ir_order row) "gin_sql_order_service_items_order_id_fkey") (InsertItem id row).
Definition of_order {A} (order : A → string) (id : string) (rows : gmap string A) : gmap string A := filter (λ ir, order ir.2 = id) rows.
Definition find_item (orderID itemID : string) : Statement Tables Write (option OrderItem) :=
  select (λ t, item_of itemID <$> of_order ir_order orderID (t_items t) !! itemID).
Definition update_item (orderID itemID : string) (quantity line : Z) : Statement Tables Write Z := λ t,
  match of_order ir_order orderID (t_items t) !! itemID with
  | None => inr (0, [])
  | Some old =>
      let new := mkItemRow (ir_order old) (ir_sku old) quantity (ir_unit old) line in
      match item_checks new with [] => inr (1, [UpdateItem itemID old new]) | errs => inl errs end
  end.
Definition sum_items (orderID : string) (items : gmap string ItemRow) : Z :=
  map_fold (λ _ row sum, ir_line row + sum) 0 (of_order ir_order orderID items).
Definition sum_lines (orderID : string) : Statement Tables Write (option Z) := select (λ t, Some (sum_items orderID (t_items t))).
Definition insert_event (id : string) (row : EventRow) : Statement Tables Write unit :=
  write_row (λ t, free (t_events t) id "gin_sql_order_service_status_events_pkey"
    ++ has_order t (er_order row) "gin_sql_order_service_status_events_order_id_fkey") (InsertEvent id row).
Section Listing.
Context `{PT : PgTypes}.
Definition list_items (orderID : string) : Statement Tables Write (list OrderItem) :=
  select (λ t, map (uncurry item_of)
    (SliceStable (λ a b, text_less a.1 b.1) (map_to_list (of_order ir_order orderID (t_items t))))).
Definition earlier (a b : string * EventRow) : bool :=
  (er_created a.2 <? er_created b.2) || (er_created a.2 =? er_created b.2) && text_less a.1 b.1.
Definition list_events (orderID : string) : Statement Tables Write (list StatusEvent) :=
  select (λ t, map (uncurry event_of) (SliceStable earlier (map_to_list (of_order er_order orderID (t_events t))))).
End Listing.

(** ** The repositories *)

Section Repositories.
Context `{SB : SqlBuilder} `{PT : PgTypes}.
Abbreviation SqlOf A := (Sql Tables Write A).
Definition order_columns : list string := ["id"; "customer_id"; "status"; "total_cents"; "created_at"; "updated_at"].
Definition item_columns : list string := ["id"; "order_id"; "sku"; "quantity"; "unit_price_cents"; "line_total_cents"].
Definition event_columns : list string := ["id"; "order_id"; "status"; "reason"; "created_at"].
Definition row_of_order (order : Order) : OrderRow :=
  mkOrderRow (od_CustomerID order) (od_Status order) (od_TotalCents order) (stored_time (od_CreatedAt order)) (stored_time (od_UpdatedAt order)).
Definition row_of_item (item : OrderItem) : ItemRow :=
  mkItemRow (it_OrderID item) (it_SKU item) (it_Quantity item) (it_UnitPriceCents item) (it_LineTotalCents item).
Definition row_of_event (event : StatusEvent) : EventRow :=
  mkEventRow (ev_OrderID event) (ev_Status event) (ev_Reason event) (stored_time (ev_CreatedAt event)).

Definition createOrderSQL (order : Order) : GoError + SqlOf unit :=
  try! _ := check (validateOrder order) in
  Build (InsertInto ordersTable order_columns
           [ArgString (od_ID order); ArgString (od_CustomerID order); ArgString (od_Status order); ArgInt (od_TotalCents order);
            ArgTime (od_CreatedAt order); ArgTime (od_UpdatedAt order)])
    (insert_order (od_ID order) (row_of_order order)).
Definition findOrderSQL (id : string) : GoError + SqlOf (option Order) :=
  let id := TrimSpace id in
  if bool_decide (id = "") then inl (invalid "%w: id is required")
  else Build (SelectFrom ordersTable order_columns [("id = ?", ArgString id)] [] None) (find_order id).
Definition updateOrderTotalSQL (orderID : string) (totalCents updatedAt : Z) : GoError + SqlOf Z :=
  let orderID := TrimSpace orderID in
  if bool_decide (orderID = "") then inl (invalid "%w: order id is required")
  else if totalCents <? 0 then inl (invalid "%w: total_cents must not be negative")
  else if updatedAt =? 0 then inl (invalid "%w: updated_at is required")
  else Build (Update ordersTable [("total_cents", ArgInt totalCents); ("updated_at", ArgTime updatedAt)] [("id = ?", ArgString orderID)])
         (update_total orderID totalCents (stored_time updatedAt)).
Definition createItemSQL (item : OrderItem) : GoError + SqlOf unit :=
  try! _ := check (validateItem item) in
  Build (InsertInto itemsTable item_columns
           [ArgString (it_ID item); ArgString (it_OrderID item); ArgString (it_SKU item); ArgInt (it_Quantity item);
            ArgInt (it_UnitPriceCents item); ArgInt (it_LineTotalCents item)])
    (insert_item (it_ID item) (row_of_item item)).
(** The identifiers without the space around them, both required. *)
Definition item_key (orderID itemID : string) : GoError + (string * string) :=
  if bool_decide (TrimSpace orderID = "") then inl (invalid "%w: order id is required")
  else if bool_decide (TrimSpace itemID = "") then inl (invalid "%w: item id is required")
  else inr (TrimSpace orderID, TrimSpace itemID).
Definition findItemSQL (orderID itemID : string) : GoError + SqlOf (option OrderItem) :=
  try! (orderID, itemID) := item_key orderID itemID in
  Build (SelectFrom itemsTable item_columns [("order_id = ?", ArgString orderID); ("id = ?", ArgString itemID)] [] None)
    (find_item orderID itemID).
Definition order_key (orderID : string) : GoError + string :=
  let orderID := TrimSpace orderID in
  if bool_decide (orderID = "") then inl (invalid "%w: order id is required") else inr orderID.
Definition listItemsSQL (orderID : string) : GoError + SqlOf (list OrderItem) :=
  try! orderID := order_key orderID in
  Build (SelectFrom itemsTable item_columns [("order_id = ?", ArgString orderID)] ["id"] None) (list_items orderID).
Definition updateItemQuantitySQL (orderID itemID : string) (quantity unitPriceCents : Z) : GoError + SqlOf Z :=
  try! (orderID, itemID) := item_key orderID itemID in
  if quantity <=? 0 then inl (invalid "%w: quantity must be positive")
  else if unitPriceCents <? 0 then inl (invalid "%w: unit_price_cents must not be negative")
  else Build (Update itemsTable [("quantity", ArgInt quantity); ("line_total_cents", ArgInt (int_mul quantity unitPriceCents))]
                [("order_id = ?", ArgString orderID); ("id = ?", ArgString itemID)])
         (update_item orderID itemID quantity (int_mul quantity unitPriceCents)).
Definition sumItemsSQL (orderID : string) : GoError + SqlOf (option Z) :=
  try! orderID := order_key orderID in
  inr (NewStatement "select coalesce(sum(line_total_cents), 0) from gin_sql_order_service_items where order_id = $1" [ArgString orderID]
         (sum_lines orderID)).
Definition appendStatusSQL (event : StatusEvent) : GoError + SqlOf unit :=
  try! _ := check (validateStatusEvent event) in
  Build (InsertInto statusEventsTable event_columns
           [ArgString (ev_ID event); ArgString (ev_OrderID event); ArgString (ev_Status event); ArgString (ev_Reason event);
            ArgTime (ev_CreatedAt event)])
    (insert_event (ev_ID event) (row_of_event event)).
Definition listStatusesSQL (orderID : string) : GoError + SqlOf (list StatusEvent) :=
  try! orderID := order_key orderID in
  Build (SelectFrom statusEventsTable event_columns [("order_id = ?", ArgString orderID)] ["created_at"; "id"] None) (list_events orderID).

Section Db.
Context {S : Type} (db : Session Tables Write S).
Definition Orders_Create (order : Order) : GoM S unit := let! stmt := or_fail id (createOrderSQL order) in Exec db stmt.
Definition Items_Create (item : OrderItem) : GoM S unit := let! stmt := or_fail id (createItemSQL item) in Exec db stmt.
Definition Statuses_Append (event : StatusEvent) : GoM S unit := let! stmt := or_fail id (appendStatusSQL event) in Exec db stmt.
Definition or_not_found {A} (err : GoError) (id : string) (m : GoM S A) : GoM S A := or_no_row (not_found err id) m.
Definition Orders_FindByID (orderID : string) : GoM S Order :=
  let! stmt := or_fail id (findOrderSQL orderID) in or_not_found ErrOrderNotFound orderID (QueryOne db stmt).
Definition Items_FindByID (orderID itemID : string) : GoM S OrderItem :=
  let! stmt := or_fail id (findItemSQL orderID itemID) in or_not_found ErrItemNotFound itemID (QueryOne db stmt).
Definition Items_ListByOrder (orderID : string) : GoM S (list OrderItem) :=
  let! stmt := or_fail id (listItemsSQL orderID) in QueryAll db stmt.
Definition Statuses_ListByOrder (orderID : string) : GoM S (list StatusEvent) :=
  let! stmt := or_fail id (listStatusesSQL orderID) in QueryAll db stmt.
(** The sum is a numeric; outside of 64 bits it cannot be scanned. *)
Definition Items_SumOrderTotal (orderID : string) : GoM S Z :=
  let! stmt := or_fail id (sumItemsSQL orderID) in
  let! total := QueryOne db stmt in
  if bool_decide (in_int64 total) then ret total else throw (plain_error "converting driver.Value to a int64: value out of range").
Context (RowsAffected : Z → GoError + Z).
Definition Orders_UpdateTotal (orderID : string) (totalCents updatedAt : Z) : GoM S unit :=
  let! result := (let! stmt := or_fail id (updateOrderTotalSQL orderID totalCents updatedAt) in Exec db stmt) in
  affected_or (RowsAffected result) (not_found ErrOrderNotFound orderID).
Definition Items_UpdateQuantity (orderID itemID : string) (quantity unitPriceCents : Z) : GoM S unit :=
  let! result := (let! stmt := or_fail id (updateItemQuantitySQL orderID itemID quantity unitPriceCents) in Exec db stmt) in
  affected_or (RowsAffected result) (not_found ErrItemNotFound itemID).

(** ** Reads of the service *)

Definition GetOrder (id : string) : GoM S OrderView :=
  let! order := Orders_FindByID id in
  let! items := Items_ListByOrder id in
  let! statuses := Statuses_ListByOrder id in
  ret (mkView order items statuses).
Definition GetStatus (id : string) : GoM S StatusResponse :=
  let! order := Orders_FindByID id in
  let! history := Statuses_ListByOrder id in
  ret (mkStatusResponse (od_ID order) (od_Status order) history).
End Db.

(** ** Previews *)

Definition Orders_CreateStatement (order : Order) : GoError + StatementSnapshot := snapshot "orders.create" (createOrderSQL order).
Definition Orders_UpdateTotalStatement (orderID : string) (totalCents updatedAt : Z) : GoError + StatementSnapshot :=
  snapshot "orders.update_total" (updateOrderTotalSQL orderID totalCents updatedAt).
Definition Items_CreateStatement (item : OrderItem) : GoError + StatementSnapshot := snapshot "items.create" (createItemSQL item).
Definition Items_UpdateQuantityStatement (orderID itemID : string) (quantity unitPriceCents : Z) : GoError + StatementSnapshot :=
  snapshot "items.update_quantity" (updateItemQuantitySQL orderID itemID quantity unitPriceCents).
Definition Statuses_AppendStatement (event : StatusEvent) : GoError + StatementSnapshot := snapshot "statuses.append" (appendStatusSQL event).
(** The statements a preview shows; its other texts are constants. *)
Definition NewPreview (now : Z) : GoError + list StatementSnapshot :=
  try! createOrder := Orders_CreateStatement (mkOrder "ord_1001" "customer-42" StatusPending 3700 now now) in
  try! createItem := Items_CreateStatement (mkItem "item_1001" "ord_1001" "sku-coffee" 2 1200 2400) in
  try! updateItem := Items_UpdateQuantityStatement "ord_1001" "item_1001" 3 1200 in
  try! updateTotal := Orders_UpdateTotalStatement "ord_1001" 4900 now in
  try! appendStatus := Statuses_AppendStatement (mkEvent "evt_1001" "ord_1001" StatusPending "order accepted" now) in
  inr [createOrder; createItem; updateItem; updateTotal; appendStatus].
End Repositories.

(** ** The service *)

(** The service's source of identifiers. *)
Class IdSource (E : Type) := { newID : string → E → (GoError + string) * E }.
Section Service.
Context `{SB : SqlBuilder} `{PT : PgTypes} {E : Type} `{SE : !SqlEngine Tables Write E} `{IS : !IdSource E}.
Definition TxM (A : Type) : Type := GoM (Tx Tables Write E) A.
Definition DbM (A : Type) : Type := GoM (World Tables E) A.

Definition id_in_tx (prefix : string) : TxM string := λ c x,
  let '(r, g) := newID prefix (x_engine x) in
  (match r with inr id => Val id | inl e => Fail e end, c, mkTx (x_base x) (x_own x) g).
Definition id_in_db (prefix : string) : DbM string := λ c w,
  let '(r, g) := newID prefix (w_engine w) in
  (match r with inr id => Val id | inl e => Fail e end, c, mkWorld (w_tables w) g).

Fixpoint new_items (orderID : string) (requests : list CreateItemRequest) (items : list OrderItem) (total : Z) : DbM (list OrderItem * Z) :=
  match requests with
  | [] => ret (items, total)
  | r :: requests =>
      let! itemID := id_in_db "item" in
      let item := mkItem itemID orderID (TrimSpace (ci_SKU r)) (ci_Quantity r) (ci_UnitPriceCents r) (int_mul (ci_Quantity r) (ci_UnitPriceCents r)) in
      new_items orderID requests (items ++ [item]) (int_add total (it_LineTotalCents item))
  end.
Definition create_in_tx (request : CreateOrderRequest) (order : Order) (items : list OrderItem) (now : Z) : TxM unit :=
  do! Orders_Create in_tx order;
  do! forM_ items (Items_Create in_tx);
  if co_RejectAfterItems request then throw ErrOrderRejected
  else
    let! eventID := id_in_tx "evt" in
    Statuses_Append in_tx (mkEvent eventID (od_ID order) (od_Status order) "order accepted" now).
Definition CreateOrder (request : CreateOrderRequest) : DbM OrderView :=
  let request := mkCreateRequest (TrimSpace (co_CustomerID request)) (co_Items request) (co_RejectAfterItems request) in
  do! fail_if (validateCreateOrderRequest request);
  let! now := now_in_db in
  let! orderID := id_in_db "ord" in
  let! (items, total) := new_items orderID (co_Items request) [] 0 in
  let order := mkOrder orderID (co_CustomerID request) StatusPending total now now in
  do! WithTx (create_in_tx request order items now);
  GetOrder in_db orderID.

Definition changed_reason (itemID : string) (quantity : Z) : string := ("item " ++ itemID ++ " quantity changed to " ++ pretty quantity)%string.
Definition update_in_tx (orderID itemID : string) (request : UpdateItemRequest) (now : Z) : TxM unit :=
  do! Orders_FindByID in_tx orderID;
  let! item := Items_FindByID in_tx orderID itemID in
  do! Items_UpdateQuantity in_tx RowsAffected orderID itemID (ui_Quantity request) (it_UnitPriceCents item);
  let! total := Items_SumOrderTotal in_tx orderID in
  do! Orders_UpdateTotal in_tx RowsAffected orderID total now;
  let! eventID := id_in_tx "evt" in
  Statuses_Append in_tx (mkEvent eventID orderID StatusPending (changed_reason itemID (ui_Quantity request)) now).
Definition UpdateItemQuantity (orderID itemID : string) (request : UpdateItemRequest) : DbM OrderView :=
  if ui_Quantity request <=? 0 then throw (invalid "%w: quantity must be positive")
  else
    let! now := now_in_db in
    do! WithTx (update_in_tx orderID itemID request now);
    GetOrder in_db orderID.

(** ** The server *)

(** gin's binding of a body. *)
Class JsonBinding := { bind_create : string → GoError + CreateOrderRequest; bind_update : string → GoError + UpdateItemRequest }.
Context `{JB : JsonBinding} (with_timeout : Z → Ctx → Ctx).
Record Server := mkServer { sv_requestTimeout : Z }.
Definition NewServer (db : bool) (requestTimeout : Z) : GoError + Server :=
  if negb db then inl (invalid "%w: db is required")
  else inr (mkServer (if requestTimeout <=? 0 then defaultRequestTimeout else requestTimeout)).
Inductive Response :=
  | Healthy
  | RespondView (status : Z) (view : OrderView)
  | RespondStatus (response : StatusResponse)
  | RespondError (status : Z) (code text : string)
  | RouteNotFound.
Definition requestContext {A} (s : Server) (m : DbM A) : DbM A := in_timeout with_timeout (sv_requestTimeout s) m.
Context `{GU : GoUnicode}.
Definition writeError (status : Z) (code : string) (err : GoError) : Response := RespondError status code (Error err).
Definition writeServiceError (err : GoError) : Response :=
  if errors_Is err "orderservice.ErrInvalidOrder" then writeError 400 "invalid_request" err
  else if errors_Is err "orderservice.ErrOrderNotFound" then writeError 404 "order_not_found" err
  else if errors_Is err "orderservice.ErrItemNotFound" then writeError 404 "item_not_found" err
  else if errors_Is err "orderservice.ErrOrderRejected" then writeError 409 "order_rejected" err
  else writeError 500 "service_error" err.
Definition respond {A} (s : Server) (m : DbM A) (k : A → Response) : DbM Response :=
  settle (requestContext s m) (λ err, ret (writeServiceError err)) (λ a, ret (k a)).
Definition bound {A} (r : GoError + A) (k : A → DbM Response) : DbM Response :=
  match r with inl err => ret (writeError 400 "invalid_request" err) | inr a => k a end.
Definition createOrder (s : Server) (body : string) : DbM Response :=
  bound (bind_create body) (λ request, respond s (CreateOrder request) (RespondView 201)).
Definition getOrder (s : Server) (id : string) : DbM Response := respond s (GetOrder in_db id) (RespondView 200).
Definition getStatus (s : Server) (id : string) : DbM Response := respond s (GetStatus in_db id) RespondStatus.
Definition updateItem (s : Server) (id item_id body : string) : DbM Response :=
  bound (bind_update body) (λ request, respond s (UpdateItemQuantity id item_id request) (RespondView 200)).
Inductive HttpRequest :=
  | GetHealthz | PostOrders (body : string) | GetOrders (id : string) | GetOrderStatus (id : string)
  | PatchItem (id item_id body : string) | Unrouted.
Definition serve (s : Server) (request : HttpRequest) : DbM Response :=
  match request with
  | GetHealthz => ret Healthy
  | PostOrders body => createOrder s body
  | GetOrders id => getOrder s id
  | GetOrderStatus id => getStatus s id
  | PatchItem id item_id body => updateItem s id item_id body
  | Unrouted => ret RouteNotFound
  end.
End Service.
(** The schema, each table created unless it exists; the constraints above are those of its columns. *)
Definition statements : list string :=
  ["create table if not exists gin_sql_order_service_orders (
			id text primary key,
			customer_id text not null,
			status text not null,
			total_cents bigint not null check (total_cents >= 0),
			created_at timestamptz not null,
			updated_at timestamptz not null
		)";
   "create table if not exists gin_sql_order_service_items (
			id text primary key,
			order_id text not null references gin_sql_order_service_orders(id) on delete cascade,
			sku text not null,
			quantity integer not null check (quantity > 0),
			unit_price_cents bigint not null check (unit_price_cents >= 0),
			line_total_cents bigint not null check (line_total_cents >= 0)
		)";
   "create table if not exists gin_sql_order_service_status_events (
			id text primary key,
			order_id text not null references gin_sql_order_service_orders(id) on delete cascade,
			status text not null,
			reason text not null,
			created_at timestamptz not null
		)"].
Definition Migrate {S : Type} (exec_ddl : string → GoM S unit) : GoM S unit := forM_ statements exec_ddl.
