(* ===== verification/OrderServiceProofs.v ===== *)
(** The order service: an order is created as one, and its total is that of its items as long as its edits come one
    after the other; what two concurrent edits do to it. *)
From Stdlib Require Import Ascii String.
From S2P Require Import Prelude SqlTx SqlModel SqlKit OrderService.

(** ** Sums over items *)

Lemma of_order_insert {A} (order : A → string) id k (row : A) (rows : gmap string A) :
  rows !! k = None →
  of_order order id (<[k := row]> rows) = if bool_decide (order row = id) then <[k := row]> (of_order order id rows) else of_order order id rows.
Proof.
  intros Hk. unfold of_order. case_bool_decide as Ho.
  - by rewrite map_filter_insert_True.
  - rewrite map_filter_insert_False by done. by rewrite delete_id.
Qed.
Lemma of_order_update {A} (order : A → string) id k (old row : A) (rows : gmap string A) :
  rows !! k = Some old → order row = order old →
  of_order order id (<[k := row]> rows) = if bool_decide (order row = id) then <[k := row]> (of_order order id rows) else of_order order id rows.
Proof.
  intros Hk He. unfold of_order. case_bool_decide as Ho.
  - by rewrite map_filter_insert_True.
  - rewrite map_filter_insert_not' by (try done; intros y Hy; rewrite Hk in Hy; injection Hy as <-; cbn in *; by rewrite <- He). done.
Qed.
Lemma sum_insert id k row (rows : gmap string ItemRow) :
  rows !! k = None →
  sum_items id (<[k := row]> rows) = (if bool_decide (ir_order row = id) then ir_line row else 0) + sum_items id rows.
Proof.
  intros Hk. unfold sum_items. rewrite of_order_insert by done. case_bool_decide; [|lia].
  apply (map_fold_insert_L (λ _ row sum, ir_line row + sum)); [intros; lia|]. unfold of_order. apply map_lookup_filter_None. by left.
Qed.
Lemma sum_other id k old row (rows : gmap string ItemRow) :
  rows !! k = Some old → ir_order row = ir_order old → ir_order row ≠ id → sum_items id (<[k := row]> rows) = sum_items id rows.
Proof. intros Hk He Hne. unfold sum_items. rewrite (of_order_update _ _ _ old) by done. by rewrite bool_decide_eq_false_2. Qed.
Lemma sum_none id (rows : gmap string ItemRow) : (∀ k row, rows !! k = Some row → ir_order row ≠ id) → sum_items id rows = 0.
Proof.
  intros H. unfold sum_items. replace (of_order ir_order id rows) with (∅ : gmap string ItemRow); [apply map_fold_empty|].
  symmetry. apply map_empty_filter_2. intros k row Hk. by eapply H.
Qed.
Definition add_items (items : list OrderItem) `{PT : PgTypes} (rows : gmap string ItemRow) : gmap string ItemRow :=
  foldl (λ rows item, <[it_ID item := row_of_item item]> rows) rows items.

(** ** What the commands commit *)

(** Every item belongs to an order and costs what it says, every event belongs to an order, and the total of an order
    is that of its items. *)
Definition item_ok (row : ItemRow) : Prop :=
  0 < ir_quantity row ∧ 0 <= ir_unit row ∧ 0 <= ir_line row ∧ ir_line row = int_mul (ir_quantity row) (ir_unit row).
Record sound (t : Tables) : Prop := {
  so_items : ∀ id row, t_items t !! id = Some row → is_Some (t_orders t !! ir_order row) ∧ item_ok row;
  so_events : ∀ id row, t_events t !! id = Some row → is_Some (t_orders t !! er_order row);
  so_totals : ∀ id row, t_orders t !! id = Some row → or_total row = wrap64 (sum_items id (t_items t))
}.

Section Commits.
Context `{PT : PgTypes}.
(** The items of a request under fresh identifiers, and the total of their lines. *)
Definition items_for (orderID : string) (requests : list CreateItemRequest) (items : list OrderItem) (total : Z) : Prop :=
  Forall2 (λ r item, item = mkItem (it_ID item) orderID (TrimSpace (ci_SKU r)) (ci_Quantity r) (ci_UnitPriceCents r)
                              (int_mul (ci_Quantity r) (ci_UnitPriceCents r))) requests items ∧
  total = foldl int_add 0 (map it_LineTotalCents items).
Record creates (request : CreateOrderRequest) (orderID : string) (t t' : Tables) : Prop := {
  cr_valid : validateCreateOrderRequest request = None;
  cr_kept : co_RejectAfterItems request = false;
  cr_fresh : t_orders t !! orderID = None;
  cr_writes : ∃ items total now eventID,
    items_for orderID (co_Items request) items total ∧ NoDup (map it_ID items) ∧
    Forall (λ item, t_items t !! it_ID item = None ∧ item_ok (row_of_item item)) items ∧ t_events t !! eventID = None ∧
    t' = mkTables (<[orderID := row_of_order (mkOrder orderID (co_CustomerID request) StatusPending total now now)]> (t_orders t))
           (add_items items (t_items t))
           (<[eventID := row_of_event (mkEvent eventID orderID StatusPending "order accepted" now)]> (t_events t))
}.
(** An item's new quantity, with the total of the order and the event. *)
Record edits (orderID itemID : string) (quantity : Z) (t t' : Tables) : Prop := {
  ed_writes : ∃ row item updated eventID event,
    let new := mkItemRow (ir_order item) (ir_sku item) quantity (ir_unit item) (int_mul quantity (ir_unit item)) in
    let total := sum_items orderID (<[itemID := new]> (t_items t)) in
    t_orders t !! orderID = Some row ∧ t_items t !! itemID = Some item ∧ ir_order item = orderID ∧ item_ok new ∧
    in_int64 total ∧ t_events t !! eventID = None ∧ is_Some (t_orders t !! er_order event) ∧
    t' = mkTables (<[orderID := mkOrderRow (or_customer row) (or_status row) total (or_created row) updated]> (t_orders t))
           (<[itemID := new]> (t_items t)) (<[eventID := event]> (t_events t))
}.

Lemma add_items_none items rows k : add_items items rows !! k = None ↔ (k ∉ map it_ID items) ∧ rows !! k = None.
Proof.
  revert rows. induction items as [|item items IH]; intros rows; [cbn; rewrite elem_of_nil; naive_solver|].
  unfold add_items in *. cbn [map foldl]. rewrite IH, lookup_insert_None, not_elem_of_cons. naive_solver.
Qed.
Lemma add_items_row items rows k row :
  add_items items rows !! k = Some row → rows !! k = Some row ∨ ∃ item, item ∈ items ∧ row = row_of_item item.
Proof.
  revert rows. induction items as [|item items IH]; intros rows; [by left|]. intros [Hr|(i & Hi & ->)]%IH; [|right; exists i; split; [by right|done]].
  apply lookup_insert_Some in Hr as [[_ <-]|[_ Hr]]; [right; exists item; split; [left|done]|by left].
Qed.
Lemma sum_add_items id items rows :
  NoDup (map it_ID items) → Forall (λ item, rows !! it_ID item = None) items → Forall (λ item, it_OrderID item = id) items →
  sum_items id (add_items items rows) = sum_items id rows + foldr Z.add 0 (map it_LineTotalCents items).
Proof.
  revert rows. induction items as [|item items IH]; intros rows; [cbn; lia|].
  intros [Hnot Hnd]%NoDup_cons [Hfree Hall]%Forall_cons [Ho Hos]%Forall_cons. unfold add_items in *. cbn. rewrite IH; [|done| |done].
  - rewrite sum_insert by done. cbn. rewrite bool_decide_eq_true_2 by done. lia.
  - rewrite Forall_forall in *. intros i Hi. rewrite lookup_insert_ne; [by apply Hall|]. intros E. apply Hnot. rewrite E.
    apply list_elem_of_fmap. by exists i.
Qed.
Lemma sum_add_others id items rows :
  Forall (λ item, it_OrderID item ≠ id) items → NoDup (map it_ID items) → Forall (λ item, rows !! it_ID item = None) items →
  sum_items id (add_items items rows) = sum_items id rows.
Proof.
  revert rows. induction items as [|item items IH]; intros rows; [done|].
  intros [Ho Hos]%Forall_cons [Hnot Hnd]%NoDup_cons [Hfree Hall]%Forall_cons. unfold add_items in *. cbn. rewrite IH; [|done|done|].
  - rewrite sum_insert by done. cbn. rewrite bool_decide_eq_false_2 by done. lia.
  - rewrite Forall_forall in *. intros i Hi. rewrite lookup_insert_ne; [by apply Hall|]. intros E. apply Hnot. rewrite E.
    apply list_elem_of_fmap. by exists i.
Qed.
Lemma wrapped_total lines total : foldl int_add (wrap64 total) lines = wrap64 (total + foldr Z.add 0 lines).
Proof.
  revert total. induction lines as [|line lines IH]; intros total; cbn; [by rewrite Z.add_0_r|].
  unfold int_add at 2. rewrite wrap64_wrap_l, IH. f_equal. lia.
Qed.
Lemma items_for_order orderID requests items total : items_for orderID requests items total → Forall (λ item, it_OrderID item = orderID) items.
Proof.
  intros [H _]. apply Forall_forall. intros item [i Hi]%list_elem_of_lookup_1.
  destruct (Forall2_lookup_r _ _ _ _ _ H Hi) as (r & _ & ->). done.
Qed.

Lemma is_Some_insert {A} (rows : gmap string A) k row id : is_Some (rows !! id) → is_Some (<[k := row]> rows !! id).
Proof. intros [r Hr]. destruct (decide (k = id)) as [->|]; [rewrite lookup_insert_eq|rewrite lookup_insert_ne by done]; eauto. Qed.
Lemma creates_sound request orderID t t' : creates request orderID t t' → sound t → sound t'.
Proof.
  intros [_ _ Hfresh (items & total & now & eventID & Hitems & Hnd & Hok & He & ->)] [Hi Hev Ht].
  pose proof (items_for_order _ _ _ _ Hitems) as Ho. destruct Hitems as [_ Htotal].
  assert (Forall (λ item, t_items t !! it_ID item = None) items) as Hfree by (eapply Forall_impl; [exact Hok|by intros i [? _]]).
  split; cbn [t_items t_orders t_events].
  - intros id row [Hrow|(item & Hin & ->)]%add_items_row.
    + destruct (Hi _ _ Hrow) as [? ?]. split; [by apply is_Some_insert|done].
    + rewrite Forall_forall in Hok, Ho. split; [|by apply Hok]. cbn. rewrite (Ho _ Hin), lookup_insert_eq. eauto.
  - intros id row [[_ <-]|[_ Hrow]]%lookup_insert_Some; [cbn; rewrite lookup_insert_eq; eauto|]. by eapply is_Some_insert, Hev.
  - intros id row [[<- <-]|[Hne Hrow]]%lookup_insert_Some.
    + rewrite sum_add_items by done. rewrite sum_none; [cbn; rewrite Htotal; apply (wrapped_total _ 0)|].
      intros k r Hk E. destruct (Hi _ _ Hk) as [[o Hor] _]. by rewrite E, Hfresh in Hor.
    + rewrite sum_add_others; [by apply Ht| |done|done]. eapply Forall_impl; [exact Ho|]. cbn. by intros i ->.
Qed.
Lemma edits_sound orderID itemID quantity t t' : edits orderID itemID quantity t t' → sound t → sound t'.
Proof.
  intros [(row & item & updated & eventID & event & Hrow & Hitem & Ho & Hok & Hint & He & Hevo & ->)] [Hi Hev Ht].
  split; cbn [t_items t_orders t_events].
  - intros id r [[<- <-]|[_ Hr]]%lookup_insert_Some; [split; [cbn; rewrite Ho, lookup_insert_eq; eauto|done]|].
    destruct (Hi _ _ Hr) as [? ?]. split; [by apply is_Some_insert|done].
  - intros id r [[_ <-]|[_ Hr]]%lookup_insert_Some; [by apply is_Some_insert|]. by eapply is_Some_insert, Hev.
  - intros id r [[<- <-]|[Hne Hr]]%lookup_insert_Some; [cbn; by rewrite wrap64_id|].
    rewrite (sum_other id itemID item) by (done || (cbn; congruence)). by apply Ht.
Qed.
End Commits.

(** ** Creating an order *)

Section Transactions.
Context `{PD : PgDriver} `{SB : SqlBuilder} `{PT : PgTypes} {E : Type} `{SE : !SqlEngine Tables Write E} `{IS : !IdSource E}.
Context {others : Tables → Tables → Prop} {mine : string → Prop} `{PO : !PreOrder others} `{SL : !SqlLaws others mine}.
#[local] Abbreviation TxS := (Tx Tables Write E).
#[local] Abbreviation any := (λ _ _ _, True).
#[local] Abbreviation trun := (runs (E := E) others).

Lemma runs_new_id prefix x : trun (id_in_tx prefix) x (λ _ ws _, ws = []) (λ _ ws _, ws = []).
Proof using PO.
  intros c o c' x'. unfold id_in_tx. destruct (newID _ _) as [[e|id] g]; intros [= <- <- <-]; exists []; (split; [apply goes_on_refl|done]).
Qed.
Lemma free_inr {A} (rows : gmap string A) id name : free rows id name = [] → rows !! id = None.
Proof using Type. unfold free, unless_key. case_bool_decide as H; [done|]. intros _. by apply eq_None_not_Some. Qed.
Lemma has_order_inr t id name : has_order t id name = [] → is_Some (t_orders t !! id).
Proof using Type. unfold has_order, unless_check. by case_bool_decide. Qed.
Lemma at_least_inr bound value name : at_least bound value name = [] → bound <= value.
Proof using Type. unfold at_least, unless_check. by destruct (Z.leb_spec bound value). Qed.

(** A repository's insert: the row, which was free in what the transaction sees. *)
Lemma row_inserted_runs {A} (stmt : GoError + Sql Tables Write A) x (Q : A → list Write → TxS → Prop) :
  in_force x →
  (∀ s a ws x', goes_on others x ws x' → stmt = inr s → sq_run s (apply_writes (x_base x') (x_own x)) = inr (a, ws) →
     Q a ws x' ∧ Forall (λ w, pending_ok w (x_base x')) ws) →
  trun (let! stmt := or_fail id stmt in Exec in_tx stmt) x (λ a ws x', Q a ws x' ∧ in_force x') any.
Proof using PO SL.
  intros Hf Hs. eapply runs_impl; [rule (runs_exec (mine := mine))| |done]. cbn. intros a ws x' Hg (s & Hstmt & Hrun).
  destruct (Hs _ _ _ _ Hg Hstmt Hrun) as [HQ Hp]. split; [done|]. by eapply in_force_goes_on.
Qed.

Lemma header_runs order x :
  in_force x → x_own x = [] →
  trun (Orders_Create in_tx order) x (λ _ ws x',
    (ws = [InsertOrder (od_ID order) (row_of_order order)] ∧ validateOrder order = None) ∧ in_force x') any.
Proof using PO SL.
  intros Hf Hown. apply row_inserted_runs; [done|]. intros s [] ws x' _ Hs Hrun.
  unfold createOrderSQL in Hs. apply and_then_inr in Hs as (u & Hv%check_inr & Hs%build_run). rewrite Hs, Hown in Hrun.
  apply write_row_inr in Hrun as [-> [_ Hk%free_inr]%app_eq_nil]. split; [done|]. by constructor.
Qed.
Lemma own_items t own items :
  (∀ t, t_items (apply_writes t own) = t_items t) →
  t_items (apply_writes t (own ++ map (λ item, InsertItem (it_ID item) (row_of_item item)) items)) = add_items items (t_items t).
Proof using Type.
  intros Hsame. unfold apply_writes in *. rewrite foldl_app. rewrite <- (Hsame t). generalize (foldl apply_write t own). clear.
  induction items as [|item items IH]; intros t; [done|]. cbn [map foldl]. by rewrite IH.
Qed.
Lemma create_items_runs todo items x own :
  x_own x = own ++ map (λ item, InsertItem (it_ID item) (row_of_item item)) items →
  (∀ t, t_items (apply_writes t own) = t_items t) → in_force x → NoDup (map it_ID items) →
  trun (forM_ todo (Items_Create in_tx)) x (λ _ ws x',
    (ws = map (λ item, InsertItem (it_ID item) (row_of_item item)) todo ∧ NoDup (map it_ID (items ++ todo)) ∧
     Forall (λ item, item_ok (row_of_item item)) todo) ∧ in_force x') any.
Proof using PO SL PT.
  intros Hown Hsame. revert x items Hown. induction todo as [|item todo IH]; intros x items Hown Hf Hnd; cbn [forM_].
  { rule runs_ret. split; [|done]. split_and!; [done|by rewrite app_nil_r|constructor]. }
  rule runs_bind; [apply (row_inserted_runs (createItemSQL item) x (λ _ ws x', ws = [InsertItem (it_ID item) (row_of_item item)] ∧
    (it_ID item ∉ map it_ID items) ∧ item_ok (row_of_item item))); [done|]|].
  - intros s [] ws x' _ Hs Hrun. unfold createItemSQL in Hs. apply and_then_inr in Hs as (u & Hv%check_inr & Hs%build_run).
    rewrite Hs in Hrun. apply write_row_inr in Hrun as [-> Hk]. rewrite Hown in Hk.
    apply app_eq_nil in Hk as [Hc [Hk%free_inr _]%app_eq_nil]. rewrite own_items in Hk by done.
    apply add_items_none in Hk as [Hnot Hfree]. split; [|by constructor]. split_and!; [done|done|]. unfold validateItem in Hv.
    repeat case_bool_decide; try done. destruct (Z.leb_spec (it_Quantity item) 0); [done|].
    destruct (Z.ltb_spec (it_UnitPriceCents item) 0); [done|]. destruct (Z.eqb_spec (it_LineTotalCents item) (int_mul (it_Quantity item) (it_UnitPriceCents item))); [|done].
    unfold item_checks in Hc. apply app_eq_nil in Hc as [_ [_ [_ Hline%at_least_inr]%app_eq_nil]%app_eq_nil]. by split_and!.
  - cbn. intros _ ws x1 Hg [(-> & Hnot & Hok) Hf1].
    eapply runs_impl; [apply (IH x1 (items ++ [item]))| |done].
    + destruct Hg as [_ -> _]. by rewrite Hown, map_app, app_assoc.
    + done.
    + rewrite map_app. apply NoDup_app. split_and!; [done| |apply NoDup_singleton]. intros k Hk ->%list_elem_of_singleton. done.
    + cbn. intros _ ws x2 _ [(-> & Hnd' & Hoks) Hf2]. split; [|done]. rewrite <- app_assoc in Hnd'. split_and!; [done|done|by constructor].
Qed.
Lemma append_runs event x :
  in_force x → (∀ t, t_events (apply_writes t (x_own x)) = t_events t) →
  trun (Statuses_Append in_tx event) x (λ _ ws x', (ws = [InsertEvent (ev_ID event) (row_of_event event)] ∧
    is_Some (t_orders (apply_writes (x_base x') (x_own x)) !! ev_OrderID event)) ∧ in_force x') any.
Proof using PO SL PT.
  intros Hf Hsame. apply row_inserted_runs; [done|]. intros s [] ws x' _ Hs Hrun.
  unfold appendStatusSQL in Hs. apply and_then_inr in Hs as (u & _ & Hs%build_run). rewrite Hs in Hrun.
  apply write_row_inr in Hrun as [-> [Hk%free_inr Ho%has_order_inr]%app_eq_nil]. rewrite Hsame in Hk. split; [done|]. by constructor.
Qed.
Lemma apply_items t items :
  apply_writes t (map (λ item, InsertItem (it_ID item) (row_of_item item)) items) = mkTables (t_orders t) (add_items items (t_items t)) (t_events t).
Proof using Type.
  unfold apply_writes. revert t. induction items as [|item items IH]; intros t; [by destruct t|]. cbn [map foldl]. by rewrite IH.
Qed.

(** What a creation has pending when its body returns. *)
Definition create_writes (order : Order) (items : list OrderItem) (event : StatusEvent) : list Write :=
  [InsertOrder (od_ID order) (row_of_order order)] ++ map (λ item, InsertItem (it_ID item) (row_of_item item)) items
  ++ [InsertEvent (ev_ID event) (row_of_event event)].
Lemma create_writes_apply t order items event :
  apply_writes t (create_writes order items event)
  = mkTables (<[od_ID order := row_of_order order]> (t_orders t)) (add_items items (t_items t)) (<[ev_ID event := row_of_event event]> (t_events t)).
Proof using Type. unfold create_writes. by rewrite !apply_writes_app, apply_items. Qed.
Definition create_done (request : CreateOrderRequest) (order : Order) (items : list OrderItem) (now : Z) (ws : list Write) (x : TxS) : Prop :=
  ∃ eventID, ws = create_writes order items (mkEvent eventID (od_ID order) (od_Status order) "order accepted" now) ∧
    Forall (λ w, pending_ok w (x_base x)) ws ∧ co_RejectAfterItems request = false ∧ NoDup (map it_ID items) ∧
    Forall (λ item, item_ok (row_of_item item)) items.
Lemma create_body_runs request order items now x :
  x_own x = [] → trun (create_in_tx request order items now) x (λ _, create_done request order items now) any.
Proof using PO SL PT.
  intros Hown. assert (in_force x) as Hf by (unfold in_force; by rewrite Hown).
  rule runs_bind; [by apply header_runs|]. cbn. intros _ ws x1 Hg1 [[-> _] Hf1].
  assert (x_own x1 = [InsertOrder (od_ID order) (row_of_order order)]) as Hown1 by (destruct Hg1 as [_ -> _]; by rewrite Hown).
  rule runs_bind; [apply (create_items_runs items [] x1 (x_own x1)); [by rewrite app_nil_r|by rewrite Hown1|done|constructor]|].
  cbn. intros _ ws x2 Hg2 [(-> & Hnd & Hok) Hf2].
  destruct (co_RejectAfterItems request) eqn:Hrej; [by rule runs_throw|].
  rule runs_bind; [eapply runs_impl; [apply runs_new_id|intros id ws x' _ H; exact H|done]|]. cbn. intros eventID ws x3 Hg3 ->.
  assert (x_own x3 = x_own x2) as Hown3 by apply (goes_on_own _ _ Hg3).
  eapply runs_impl; [apply append_runs| |done].
  - eapply in_force_goes_on; [exact Hg3|done|constructor].
  - intros t. rewrite Hown3. destruct Hg2 as [_ -> _]. by rewrite Hown1, apply_writes_app, apply_items.
  - cbn. intros _ ws x4 Hg4 [[-> _] Hf4]. exists eventID. split_and!; [done| |done..].
    unfold in_force in Hf4. destruct Hg4 as [_ H4 _]. rewrite H4, Hown3 in Hf4. destruct Hg2 as [_ H2 _]. rewrite H2, Hown1 in Hf4.
    by rewrite <- app_assoc in Hf4.
Qed.
Lemma create_commits request orderID items total now ws x t :
  validateCreateOrderRequest request = None → items_for orderID (co_Items request) items total →
  create_done request (mkOrder orderID (co_CustomerID request) StatusPending total now now) items now ws x →
  meanwhile others ws (x_base x) t → creates request orderID t (apply_writes t ws).
Proof using Type.
  intros Hv Hi (eventID & -> & Hp & Hrej & Hnd & Hok) [_ Hm]. rewrite create_writes_apply.
  assert (Forall (λ w, pending_ok w t) (create_writes (mkOrder orderID (co_CustomerID request) StatusPending total now now) items
    (mkEvent eventID orderID StatusPending "order accepted" now))) as Ht by (rewrite Forall_forall in *; auto).
  unfold create_writes in Ht. rewrite !Forall_app, !Forall_singleton in Ht. destruct Ht as (Ho & Hfree & He).
  split; [done|done|exact Ho|]. exists items, total, now, eventID. split_and!; [done|done| |exact He|done].
  rewrite Forall_forall in Hfree. rewrite Forall_forall in Hok. apply Forall_forall. intros item Hin. split; [|by apply Hok].
  apply (Hfree (InsertItem (it_ID item) (row_of_item item))). apply list_elem_of_fmap. by exists item.
Qed.

Lemma looks_id prefix : looks (others := others) (id_in_db prefix).
Proof using PO. intros c w o c' w'. unfold id_in_db. destruct (newID _ _) as [[e|id] g]; intros [= <- <- <-]; by split. Qed.
Lemma find_order_looks id : looks (others := others) (Orders_FindByID in_db id).
Proof using PO SL.
  unfold Orders_FindByID. destruct (findOrderSQL id) as [e|s] eqn:Es; [apply (looks_throw e)|].
  apply (looks_settle (QueryOne in_db s)); [|intros e; apply looks_throw|intros a; apply looks_ret].
  unfold findOrderSQL in Es. case_bool_decide; [done|]. apply build_run in Es. unfold QueryOne. rewrite Es.
  apply looks_bind; [apply (looks_select (mine := mine))|]. intros [a|]; [apply looks_ret|apply looks_throw].
Qed.
Lemma get_order_looks id : looks (others := others) (GetOrder in_db id).
Proof using PO SL.
  apply looks_bind; [apply find_order_looks|]. intros order.
  apply looks_bind; [|intros items; apply looks_bind; [|intros statuses; apply looks_ret]].
  - unfold Items_ListByOrder. destruct (listItemsSQL id) as [e|s] eqn:Es; [apply (looks_throw e)|].
    unfold listItemsSQL in Es. apply and_then_inr in Es as (k & _ & Es%build_run). unfold QueryAll, or_fail, bind, ret. cbn. rewrite Es. apply (looks_select (mine := mine)).
  - unfold Statuses_ListByOrder. destruct (listStatusesSQL id) as [e|s] eqn:Es; [apply (looks_throw e)|].
    unfold listStatusesSQL in Es. apply and_then_inr in Es as (k & _ & Es%build_run). unfold QueryAll, or_fail, bind, ret. cbn. rewrite Es. apply (looks_select (mine := mine)).
Qed.
Lemma new_items_run orderID requests items total {c w o c' w'} :
  new_items orderID requests items total c w = (o, c', w') →
  w_tables w' = w_tables w ∧
  match o with
  | Val (items', total') => ∃ more, items' = items ++ more ∧
      Forall2 (λ r item, item = mkItem (it_ID item) orderID (TrimSpace (ci_SKU r)) (ci_Quantity r) (ci_UnitPriceCents r)
                                  (int_mul (ci_Quantity r) (ci_UnitPriceCents r))) requests more ∧
      total' = foldl int_add total (map it_LineTotalCents more)
  | Fail _ => True
  | Panic => False
  end.
Proof using Type.
  revert items total c w. induction requests as [|r requests IH]; intros items total c w; cbn [new_items].
  { intros [= <- <- <-]. split; [done|]. exists []. rewrite app_nil_r. by split_and!. }
  unfold bind, id_in_db. destruct (newID _ _) as [[e|id] g]; [by intros [= <- <- <-]|]. intros [Hw H]%IH. split; [done|].
  destruct o as [[items' total']|e|]; [|done..]. destruct H as (more & -> & Hf & ->). eexists (_ :: more).
  split_and!; [by rewrite <- app_assoc|constructor; [done|exact Hf]|done].
Qed.

(** How a creation ends. *)
Definition trimmed (request : CreateOrderRequest) : CreateOrderRequest :=
  mkCreateRequest (TrimSpace (co_CustomerID request)) (co_Items request) (co_RejectAfterItems request).
Definition create_settled (request : CreateOrderRequest) (o : Outcome OrderView) (t t' : Tables) : Prop :=
  let committed := ∃ orderID t1 t2, others t t1 ∧ creates (trimmed request) orderID t1 t2 ∧ others t2 t' in
  match o with Val _ => committed | Fail _ => others t t' ∨ committed | Panic => False end.
Lemma create_settles request c (w : World Tables E) o c' w' :
  CreateOrder request c w = (o, c', w') → create_settled request o (w_tables w) (w_tables w').
Proof using PO SL.
  unfold CreateOrder. fold (trimmed request). cbn zeta.
  intros [([] & c1 & w1 & (-> & -> & [[_ Hv]|(? & [=] & _)])%fail_if_run & H)|
    [(e & -> & (_ & -> & _)%fail_if_run)|[_ (_ & _ & [[[=] _]|(? & [=] & _)])%fail_if_run]]]%bind_inv; [|by left].
  apply bind_inv in H as [(now & c2 & w2 & [H0 _]%(looks_now (others := others)) & H)|[(e & -> & [H0 _]%(looks_now (others := others)))|[-> [_ []]%(looks_now (others := others))]]]; [|by left|done].
  apply bind_inv in H as [(orderID & c3 & w3 & [H1 _]%looks_id & H)|[(e & -> & [H1 _]%looks_id)|[-> [_ []]%looks_id]]]; [|left; by etrans|done].
  apply bind_inv in H as [([items total] & c4 & w4 & [H2 Hnew]%new_items_run & H)|[(e & -> & [-> _]%new_items_run)|[-> [_ []]%new_items_run]]];
    [|left; by etrans].
  destruct Hnew as (more & Hitems & Hf & Htotal). cbn in Hitems. subst more.
  assert (others (w_tables w) (w_tables w4)) as H4 by (rewrite H2; by etrans).
  set (order := mkOrder orderID _ _ total now now) in H.
  assert (∀ o1 c5 w5, WithTx (create_in_tx (trimmed request) order items now) c4 w4 = (o1, c5, w5) →
    match o1 with
    | Val _ => ∃ t1 t2, others (w_tables w) t1 ∧ creates (trimmed request) orderID t1 t2 ∧ others t2 (w_tables w5)
    | Fail _ => others (w_tables w) (w_tables w5) ∨
        ∃ t1 t2, others (w_tables w) t1 ∧ creates (trimmed request) orderID t1 t2 ∧ others t2 (w_tables w5)
    | Panic => False
    end) as Htx.
  { intros o1 c5 w5 E1.
    pose proof (with_tx_run others mine _ (λ _, create_done (trimmed request) order items now) any E1
      (λ t g, create_body_runs (trimmed request) order items now (mkTx t [] g) eq_refl))
      as [([] & ws & x & t & Ho & Hd & Hx & Hm & Hc)|[(e & -> & _ & _ & Hc)|(e0 & e & ws & x & -> & _ & Hx & Hc & _)]];
      [|left; by etrans|left; etrans; [exact H4|]; by etrans].
    pose proof (create_commits _ _ _ _ _ _ _ _ Hv (conj Hf Htotal) Hd Hm) as Hcm. destruct Hm as [Hm _].
    assert (others (w_tables w) t) by (etrans; [exact H4|]; by etrans).
    destruct Ho as [->|(e & -> & _)]; [|right]; by exists t, (apply_writes t ws). }
  apply bind_inv in H as [([] & c5 & w5 & E1 & H)|[(e & -> & E1)|[-> E1]]]; apply Htx in E1; [| |done].
  - destruct E1 as (t1 & t2 & E1 & E2 & E3). apply get_order_looks in H as [H Hnp].
    assert (∃ orderID t1 t2, others (w_tables w) t1 ∧ creates (trimmed request) orderID t1 t2 ∧ others t2 (w_tables w')) as Hdone.
    { exists orderID, t1, t2. split_and!; [done..|by etrans]. }
    destruct o; [done|by right|by destruct Hnp].
  - destruct E1 as [E1|(t1 & t2 & E1)]; [by left|right]. by exists orderID, t1, t2.
Qed.

(** ** Changing an item *)

(** The row of an order and its items. *)
Definition same_aggregate (id : string) (t t' : Tables) : Prop :=
  t_orders t' !! id = t_orders t !! id ∧ of_order ir_order id (t_items t') = of_order ir_order id (t_items t).
Lemma of_order_row {A} (order : A → string) id rows k row :
  of_order order id rows !! k = Some row ↔ rows !! k = Some row ∧ order row = id.
Proof using Type. unfold of_order. apply (map_lookup_filter_Some (λ ir, order ir.2 = id) rows k row). Qed.
Lemma sum_same id k old new (rows rows' : gmap string ItemRow) :
  of_order ir_order id rows' = of_order ir_order id rows → of_order ir_order id rows !! k = Some old → ir_order new = id →
  sum_items id (<[k := new]> rows') = sum_items id (<[k := new]> rows).
Proof using Type.
  intros Hsame Hold Hnew. pose proof Hold as Hold'. rewrite <- Hsame in Hold'.
  apply of_order_row in Hold as [H1 H2]. apply of_order_row in Hold' as [H1' _].
  unfold sum_items. rewrite !(of_order_update _ _ _ old) by (done || by rewrite H2). by rewrite Hsame.
Qed.

Lemma found_runs {A} err id (stmt : GoError + Sql Tables Write (option A)) (f : Tables → option A) x :
  (∀ s, stmt = inr s → sq_run s = select f) →
  trun (let! s := or_fail (λ e, e) stmt in or_not_found err id (QueryOne in_tx s)) x
    (λ a ws x', ws = [] ∧ f (apply_writes (x_base x') (x_own x)) = Some a) any.
Proof using PO SL.
  intros Hs. destruct stmt as [e|s]; [by rule (runs_throw e)|]. specialize (Hs s eq_refl).
  rule (runs_settle (Qm := λ a ws x', ws = [] ∧ f (apply_writes (x_base x') (x_own x)) = Some a) (Fm := any)).
  - unfold QueryOne. rewrite Hs. rule runs_bind; [eapply runs_impl; [rule (runs_on_tx others mine)|intros a ws x' _ H; exact H|done]|].
    cbn. intros a ws x1 Hg [= Ha <-]. destruct a as [a|]; [|by rule runs_throw]. by rule runs_ret.
  - intros a ws x1 _ [-> Ha]. by rule runs_ret.
  - intros e ws x1 _ _. by rule runs_throw.
Qed.
Lemma counted_runs (stmt : GoError + Sql Tables Write Z) err x (Q : list Write → TxS → Prop) :
  (∀ s n ws x', goes_on others x ws x' → stmt = inr s → sq_run s (apply_writes (x_base x') (x_own x)) = inr (n, ws) → Q ws x') →
  trun (let! r := (let! s := or_fail id stmt in Exec in_tx s) in affected_or (RowsAffected r) err) x (λ _ ws x', Q ws x') any.
Proof using PO SL.
  intros HQ. rule (runs_bind (Qm := λ _ ws x', Q ws x')).
  - eapply runs_impl; [rule (runs_exec (mine := mine))| |done]. cbn. intros n ws x' Hg (s & Hs & Hr). by eapply HQ.
  - intros n ws x1 _ H1. unfold affected_or. destruct (RowsAffected n) as [e|k]; [|destruct (k =? 0)];
      [rule runs_ret; by rewrite app_nil_r|by rule runs_throw|rule runs_ret; by rewrite app_nil_r].
Qed.

Definition new_item (item : ItemRow) (quantity : Z) : ItemRow :=
  mkItemRow (ir_order item) (ir_sku item) quantity (ir_unit item) (int_mul quantity (ir_unit item)).
Definition update_done (orderID itemID : string) (quantity : Z) (ws : list Write) (x : TxS) : Prop :=
  ∃ row item updated eventID event,
    let total := sum_items orderID (<[itemID := new_item item quantity]> (t_items (x_base x))) in
    ws = [UpdateItem itemID item (new_item item quantity);
          UpdateOrder orderID row (mkOrderRow (or_customer row) (or_status row) total (or_created row) updated); InsertEvent eventID event] ∧
    Forall (λ w, pending_ok w (x_base x)) ws ∧ ir_order item = orderID ∧ item_ok (new_item item quantity) ∧ in_int64 total ∧
    is_Some (t_orders (x_base x) !! er_order event).
Section Update.
Context (orderID itemID : string) (leave : ∀ t t', others t t' → same_aggregate (TrimSpace orderID) t t').
Context (keep : ∀ t t' id, others t t' → is_Some (t_orders t !! id) → is_Some (t_orders t' !! id)).
#[local] Abbreviation oid := (TrimSpace orderID).
#[local] Abbreviation iid := (TrimSpace itemID).
Lemma update_item_runs unit quantity item x :
  in_force x → x_own x = [] → of_order ir_order oid (t_items (x_base x)) !! iid = Some item → unit = ir_unit item →
  trun (Items_UpdateQuantity in_tx RowsAffected orderID itemID quantity unit) x (λ _ ws x',
    (ws = [UpdateItem iid item (new_item item quantity)] ∧ item_ok (new_item item quantity)) ∧ in_force x') any.
Proof using PO SL leave.
  intros Hf Hown Hitem ->. apply counted_runs. intros s n ws x' Hg Hs Hrun.
  unfold updateItemQuantitySQL in Hs. apply and_then_inr in Hs as ([k1 k2] & Hkey & Hs). unfold item_key in Hkey.
  case_bool_decide; [done|]. case_bool_decide; [done|]. injection Hkey as <- <-.
  destruct (Z.leb_spec quantity 0) as [|Hq]; [done|]. destruct (Z.ltb_spec (ir_unit item) 0) as [|Hu]; [done|].
  apply build_run in Hs. rewrite Hs, Hown in Hrun. unfold update_item in Hrun. cbn in Hrun.
  destruct (leave _ _ (on_base _ _ _ Hg)) as [_ Hsame]. rewrite Hsame, Hitem in Hrun. fold (new_item item quantity) in Hrun.
  destruct (item_checks (new_item item quantity)) eqn:Hc; [|done]. injection Hrun as <- <-.
  unfold item_checks in Hc. apply app_eq_nil in Hc as [_ [_ [_ Hline%at_least_inr]%app_eq_nil]%app_eq_nil].
  split; [split; [done|by split_and!]|]. eapply in_force_goes_on; [exact Hg|done|]. constructor; [|done]. cbn.
  rewrite <- Hsame in Hitem. by apply of_order_row in Hitem as [? _].
Qed.
Lemma update_total_runs total now row item new x :
  in_force x → x_own x = [UpdateItem iid item new] → t_orders (x_base x) !! oid = Some row →
  trun (Orders_UpdateTotal in_tx RowsAffected orderID total now) x (λ _ ws x',
    ws = [UpdateOrder oid row (mkOrderRow (or_customer row) (or_status row) total (or_created row) (stored_time now))] ∧ in_force x') any.
Proof using PO SL leave.
  intros Hf Hown Hrow. apply counted_runs. intros s n ws x' Hg Hs Hrun. unfold updateOrderTotalSQL in Hs.
  case_bool_decide; [done|]. destruct (_ <? _); [done|]. destruct (_ =? _); [done|]. apply build_run in Hs.
  rewrite Hs, Hown in Hrun. unfold update_total in Hrun. cbn in Hrun.
  destruct (leave _ _ (on_base _ _ _ Hg)) as [Hsame _]. rewrite Hsame, Hrow in Hrun. destruct (at_least _ _ _); [|done].
  injection Hrun as <- <-. split; [done|]. eapply in_force_goes_on; [exact Hg|done|]. constructor; [|done]. cbn. by rewrite Hsame.
Qed.
Lemma update_body_runs quantity now x :
  x_own x = [] → trun (update_in_tx orderID itemID (mkUpdateRequest quantity) now) x (λ _, update_done oid iid quantity) any.
Proof using PO SL leave.
  intros Hown. assert (in_force x) as Hf by (unfold in_force; by rewrite Hown).
  rule runs_bind; [apply (found_runs _ _ (findOrderSQL orderID) (λ t, order_of oid <$> t_orders t !! oid))|].
  { intros s Hs. unfold findOrderSQL in Hs. case_bool_decide; [done|]. by apply build_run in Hs. }
  intros order ws x1 Hg1 [-> (row & Hrow & _)%fmap_Some]. rewrite Hown in Hrow. cbn in Hrow.
  pose proof (in_force_goes_on _ _ _ Hg1 Hf (Forall_nil_2 _)) as Hf1. pose proof (goes_on_own _ _ Hg1) as Hown1. rewrite Hown in Hown1.
  rule runs_bind; [apply (found_runs _ _ (findItemSQL orderID itemID) (λ t, item_of iid <$> of_order ir_order oid (t_items t) !! iid))|].
  { intros s Hs. unfold findItemSQL in Hs. apply and_then_inr in Hs as ([k1 k2] & Hkey & Hs%build_run). unfold item_key in Hkey.
    case_bool_decide; [done|]. case_bool_decide; [done|]. by injection Hkey as <- <-. }
  intros item' ws x2 Hg2 [-> (item & Hitem & ->)%fmap_Some]. rewrite Hown1 in Hitem. cbn in Hitem.
  pose proof (in_force_goes_on _ _ _ Hg2 Hf1 (Forall_nil_2 _)) as Hf2. pose proof (goes_on_own _ _ Hg2) as Hown2. rewrite Hown1 in Hown2.
  rule runs_bind; [by apply (update_item_runs (ir_unit item) quantity item)|]. cbn [ui_Quantity].
  intros _ ws x3 Hg3 [[-> Hok] Hf3].
  assert (x_own x3 = [UpdateItem iid item (new_item item quantity)]) as Hown3 by (destruct Hg3 as [_ -> _]; by rewrite Hown2).
  rule (runs_bind (Qm := λ total ws x', ws = [] ∧ in_int64 total ∧
    total = sum_items oid (<[iid := new_item item quantity]> (t_items (x_base x'))))).
  { unfold Items_SumOrderTotal. destruct (sumItemsSQL orderID) as [e|s] eqn:Es; [by rule (runs_throw e)|].
    unfold sumItemsSQL in Es. apply and_then_inr in Es as (k & Hk & [= <-]). unfold order_key in Hk. case_bool_decide; [done|]. injection Hk as <-.
    rule (runs_bind (Qm := λ total ws x', ws = [] ∧ total = sum_items oid (<[iid := new_item item quantity]> (t_items (x_base x'))))).
    - unfold QueryOne. rule runs_bind; [eapply runs_impl; [rule (runs_on_tx others mine)|intros a ws x' _ Hr; exact Hr|done]|].
      cbn. intros a ws x4 Hg4 [= <- <-]. rule runs_ret. by rewrite Hown3.
    - intros total ws x4 _ [-> ->]. case_bool_decide; [by rule runs_ret|by rule runs_throw]. }
  intros total ws x4 Hg4 (-> & Hint & Htotal).
  pose proof (in_force_goes_on _ _ _ Hg4 Hf3 (Forall_nil_2 _)) as Hf4. pose proof (goes_on_own _ _ Hg4) as Hown4. rewrite Hown3 in Hown4.
  assert (others (x_base x1) (x_base x4)) as H14 by (etrans; [apply Hg2|]; etrans; [apply Hg3|apply Hg4]).
  assert (others (x_base x2) (x_base x4)) as H24 by (etrans; [apply Hg3|apply Hg4]).
  rule runs_bind; [apply (update_total_runs total now row item (new_item item quantity)); [done|done|by rewrite (proj1 (leave _ _ H14))]|].
  cbn. intros _ ws x5 Hg5 [-> Hf5].
  rule runs_bind; [eapply runs_impl; [apply runs_new_id|intros id ws x' _ H; exact H|done]|]. cbn. intros eventID ws x6 Hg6 ->.
  pose proof (in_force_goes_on _ _ _ Hg6 Hf5 (Forall_nil_2 _)) as Hf6. pose proof (goes_on_own _ _ Hg6) as Hown6.
  destruct Hg5 as [B5 Hown5 _]. rewrite Hown4 in Hown5.
  eapply runs_impl; [apply append_runs; [done|intros t; by rewrite Hown6, Hown5]| |done].
  cbn. intros _ ws x7 Hg7 [[-> Hexists] Hf7]. rewrite Hown6, Hown5 in Hexists. cbn in Hexists.
  assert (others (x_base x4) (x_base x7)) as H47 by (etrans; [exact B5|]; etrans; [apply Hg6|apply Hg7]).
  assert (others (x_base x1) (x_base x7)) as H17 by (by etrans).
  destruct (leave _ _ H24) as [_ S24]. destruct (leave _ _ H47) as [_ S47]. destruct (leave _ _ H17) as [R17 _].
  pose proof Hitem as [_ Hitem_order]%of_order_row.
  assert (total = sum_items oid (<[iid := new_item item quantity]> (t_items (x_base x7)))) as Ht7.
  { rewrite Htotal. symmetry. apply (sum_same _ _ item); [done|by rewrite S24|done]. }
  exists row, item, (stored_time now), eventID, (row_of_event (mkEvent eventID orderID StatusPending (changed_reason itemID quantity) now)).
  cbn zeta. rewrite <- Ht7. split_and!; [done| |done|done|done|].
  - unfold in_force in Hf7. destruct Hg7 as [_ H7 _]. by rewrite H7, Hown6, Hown5 in Hf7.
  - cbn. destruct (decide (oid = orderID)) as [Heq|Hne]; [|by rewrite lookup_insert_ne in Hexists].
    rewrite <- Heq, R17, Hrow. eauto.
Qed.
Lemma update_commits quantity ws x t :
  update_done oid iid quantity ws x → meanwhile others ws (x_base x) t → edits oid iid quantity t (apply_writes t ws).
Proof using leave keep.
  intros (row & item & updated & eventID & event & -> & Hp & Ho & Hok & Hint & Hev) [Hm Hpm].
  rewrite !Forall_cons in Hp. destruct Hp as (P1 & P2 & P3 & _). rewrite !Forall_cons in Hpm. destruct Hpm as (M1 & M2 & M3 & _).
  apply M1 in P1 as P1'. apply M2 in P2 as P2'. apply M3 in P3 as P3'. cbn in P1, P1', P2', P3'. destruct (leave _ _ Hm) as [_ Hsame].
  rewrite <- (sum_same oid iid item (new_item item quantity) (t_items (x_base x)) (t_items t)) in * by (done || by apply of_order_row).
  split. exists row, item, updated, eventID, event. split_and!; [done|done|done|done|done|done|by eapply keep|done].
Qed.
Lemma update_settles quantity c (w : World Tables E) o c' w' :
  UpdateItemQuantity orderID itemID (mkUpdateRequest quantity) c w = (o, c', w') →
  let committed := ∃ t1 t2, others (w_tables w) t1 ∧ edits oid iid quantity t1 t2 ∧ others t2 (w_tables w') in
  match o with Val _ => committed | Fail _ => others (w_tables w) (w_tables w') ∨ committed | Panic => False end.
Proof using PO SL leave keep.
  unfold UpdateItemQuantity. cbn [ui_Quantity]. destruct (quantity <=? 0); [intros [= <- <- <-]; by left|]. intros H.
  apply bind_inv in H as [(now & c2 & w2 & [H0 _]%(looks_now (others := others)) & H)|[(e & -> & [H0 _]%(looks_now (others := others)))|[-> [_ []]%(looks_now (others := others))]]]; [|by left|done].
  assert (∀ o1 c5 w5, WithTx (update_in_tx orderID itemID (mkUpdateRequest quantity) now) c2 w2 = (o1, c5, w5) →
    let committed := ∃ t1 t2, others (w_tables w) t1 ∧ edits oid iid quantity t1 t2 ∧ others t2 (w_tables w5) in
    match o1 with Val _ => committed | Fail _ => others (w_tables w) (w_tables w5) ∨ committed | Panic => False end) as Htx.
  { intros o1 c5 w5 E1.
    pose proof (with_tx_run others mine _ (λ _, update_done oid iid quantity) any E1 (λ t g, update_body_runs quantity now (mkTx t [] g) eq_refl))
      as [([] & ws & x & t & Ho & Hd & Hx & Hm & Hc)|[(e & -> & _ & _ & Hc)|(e0 & e & ws & x & -> & _ & Hx & Hc & _)]];
      [|left; by etrans|left; etrans; [exact H0|]; by etrans].
    pose proof (update_commits _ _ _ _ Hd Hm) as Hcm. destruct Hm as [Hm _].
    assert (others (w_tables w) t) by (etrans; [exact H0|]; by etrans).
    destruct Ho as [->|(e & -> & _)]; [|right]; by exists t, (apply_writes t ws). }
  apply bind_inv in H as [([] & c5 & w5 & E1 & H)|[(e & -> & E1)|[-> E1]]]; apply Htx in E1; [|done|done].
  destruct E1 as (t1 & t2 & E1 & E2 & E3). apply get_order_looks in H as [H Hnp].
  assert (∃ t1 t2, others (w_tables w) t1 ∧ edits oid iid quantity t1 t2 ∧ others t2 (w_tables w')) as Hdone.
  { exists t1, t2. split_and!; [done..|by etrans]. }
  destruct o; [done|by right|by destruct Hnp].
Qed.
End Update.
End Transactions.

(** ** The properties *)

Section Serving.
Context `{PD : PgDriver} `{SB : SqlBuilder} `{PT : PgTypes} {E : Type} `{SE : !SqlEngine Tables Write E} `{IS : !IdSource E}.
Context `{JB : JsonBinding} `{GU : GoUnicode} (with_timeout : Z → Ctx → Ctx) (server : Server).
Context (others : Tables → Tables → Prop) (mine : string → Prop) `{PO : !PreOrder others} `{SL : !SqlLaws others mine}.

Lemma error_response e : ∃ status code text, writeServiceError e = RespondError status code text.
Proof using Type. unfold writeServiceError, writeError. repeat case_match; eauto. Qed.
Lemma get_status_looks id : looks (others := others) (GetStatus (in_db (E := E)) id).
Proof using PO SL.
  apply looks_bind; [by apply (find_order_looks (mine := mine))|]. intros order. apply looks_bind; [|intros items; apply looks_ret].
  unfold Statuses_ListByOrder. destruct (listStatusesSQL id) as [e|s] eqn:Es; [apply (looks_throw e)|].
  unfold listStatusesSQL in Es. apply and_then_inr in Es as (k & _ & Es%build_run). unfold QueryAll, or_fail, bind, ret. cbn. rewrite Es.
  by apply (looks_select (mine := mine)).
Qed.

(** C13: Whoever else writes, a POST that is answered with 201 has committed, in one step, the order of its request under
    fresh identifiers: header, items and first event, with the sum of the lines as total. Any other answer leaves
    nothing behind, or all of it when the answer was lost or could not be read back; a rejected order leaves nothing. *)
Theorem orders_commit_as_one body c (w : World Tables E) o c' w' :
  serve with_timeout server (PostOrders body) c w = (o, c', w') →
  let committed := ∃ request orderID t1 t2, bind_create body = inr request ∧ co_RejectAfterItems request = false ∧
    others (w_tables w) t1 ∧ creates (trimmed request) orderID t1 t2 ∧ others t2 (w_tables w') in
  match o with
  | Val (RespondView status _) => status = 201 ∧ committed
  | Val _ => others (w_tables w) (w_tables w') ∨ committed
  | _ => False
  end.
Proof using PO SL.
  cbn [serve]. unfold createOrder, bound. destruct (bind_create body) as [e|request]; [intros [= <- <- <-]; by left|].
  intros (d & o1 & d' & H%(create_settles (others := others) (mine := mine)) & Ho)%told_run.
  assert (∀ t', (∃ orderID t1 t2, others (w_tables w) t1 ∧ creates (trimmed request) orderID t1 t2 ∧ others t2 t') →
    ∃ request' orderID t1 t2, @inr GoError _ request = inr request' ∧ co_RejectAfterItems request' = false ∧
      others (w_tables w) t1 ∧ creates (trimmed request') orderID t1 t2 ∧ others t2 t') as Hc.
  { intros t' (orderID & t1 & t2 & H1 & H2 & H3). exists request, orderID, t1, t2. split_and!; [done|by destruct H2|done..]. }
  destruct o1 as [view|e|]; [subst o; split; [done|by apply Hc]|subst o|done].
  destruct (error_response e) as (status & code & text & ->). destruct H as [H|H]; [by left|right; by apply Hc].
Qed.

(** Requests served one after the other, whatever each is answered. *)
Definition after_request (w : World Tables E) (call : Ctx * HttpRequest) : World Tables E := (serve with_timeout server call.2 call.1 w).2.
Definition after_requests (calls : list (Ctx * HttpRequest)) (w : World Tables E) : World Tables E := foldl after_request w calls.

(** C8: However requests fail, lose their answers or are cancelled, and whatever orders other clients create meanwhile,
    every order's total stays the sum of its items' lines, every item costs what its quantity and price say, and items
    and events belong to orders, as long as nobody else changes the items of an order that these requests change. *)
Theorem aggregates_add_up calls (w : World Tables E) :
  (∀ t t', others t t' → sound t → sound t') →
  (∀ t t' id, others t t' → is_Some (t_orders t !! id) → is_Some (t_orders t' !! id)) →
  (∀ c id item body t t', (c, PatchItem id item body) ∈ calls → others t t' → same_aggregate (TrimSpace id) t t') →
  sound (w_tables w) → sound (w_tables (after_requests calls w)).
Proof using PO SL.
  intros Hsound Hkeep. revert w. induction calls as [|[c request] calls IH]; intros w Hleave Hw; [done|].
  apply IH; [intros; eapply Hleave; [by right|done]|]. unfold after_request. cbn [fst snd].
  destruct (serve with_timeout server request c w) as [[o c'] w'] eqn:E1. cbn [snd].
  assert (others (w_tables w) (w_tables w') → sound (w_tables w')) as Hothers by (intros H; by eapply Hsound).
  destruct request as [|body|id|id|id item body|]; cbn [serve] in E1; [by injection E1 as <- <- <-| | | | |by injection E1 as <- <- <-].
  - unfold createOrder, bound in E1. destruct (bind_create body) as [e|request]; [by injection E1 as <- <- <-|].
    apply told_run in E1 as (d & o1 & d' & H%(create_settles (others := others) (mine := mine)) & _).
    assert ((∃ orderID t1 t2, others (w_tables w) t1 ∧ creates (trimmed request) orderID t1 t2 ∧ others t2 (w_tables w')) → sound (w_tables w')) as Hc
      by (intros (orderID & t1 & t2 & H1 & H2%creates_sound & H3); by eauto).
    destruct o1; [by apply Hc|destruct H as [H|H]; [by apply Hothers|by apply Hc]|done].
  - apply told_run in E1 as (d & o1 & d' & [H _]%(get_order_looks (others := others) (mine := mine)) & _). by apply Hothers.
  - apply told_run in E1 as (d & o1 & d' & [H _]%get_status_looks & _). by apply Hothers.
  - unfold updateItem, bound in E1. destruct (bind_update body) as [e|[quantity]]; [by injection E1 as <- <- <-|].
    apply told_run in E1 as (d & o1 & d' & H & _).
    apply (update_settles (others := others) (mine := mine)) in H; [|intros t t' Ht; eapply Hleave; [left|exact Ht]|done].
    assert ((∃ t1 t2, others (w_tables w) t1 ∧ edits (TrimSpace id) (TrimSpace item) quantity t1 t2 ∧ others t2 (w_tables w')) → sound (w_tables w')) as Hc
      by (intros (t1 & t2 & H1 & H2%edits_sound & H3); by eauto).
    destruct o1; [by apply Hc|destruct H as [H|H]; [by apply Hothers|by apply Hc]|done].
Qed.
End Serving.

(** ** Evaluations *)

#[local] Existing Instance plain_builder.
#[local] Existing Instance plain_pg.
#[local] Existing Instance plain_unicode.
#[local] Instance demo_ids : IdSource Plain := {|
  newID prefix g := (inr (prefix ++ "-" ++ pretty (pl_time g))%string, mkPlain (pl_time g + 1) (pl_faults g))
|}.
Definition coffee : CreateItemRequest := mkItemRequest "sku-coffee" 2 1200.
Definition gold : CreateItemRequest := mkItemRequest "sku-gold" 4 (2 ^ 62).
#[local] Instance demo_binding : JsonBinding := {|
  bind_create body := if decide (body = "gold") then inr (mkCreateRequest "customer-42" [gold] false)
    else inr (mkCreateRequest " customer-42 " [coffee; mkItemRequest "sku-mug" 1 1300] (bool_decide (body = "reject")));
  bind_update body := inr (mkUpdateRequest 3)
|}.
(** What other clients may do meanwhile: create and change orders of their own. *)
Definition elsewhere (id : string) (t t' : Tables) : Prop :=
  (sound t → sound t') ∧ (∀ id, is_Some (t_orders t !! id) → is_Some (t_orders t' !! id)) ∧ same_aggregate id t t'.
#[local] Instance elsewhere_preorder id : PreOrder (elsewhere id).
Proof.
  split; [by intros t; split_and!|]. intros t1 t2 t3 (S1 & K1 & A1 & B1) (S2 & K2 & A2 & B2).
  split_and!; [auto|auto|split; congruence].
Qed.
Definition no_sentinel (name : string) : Prop := False.
#[local] Instance demo_engine id : SqlLaws (E := Plain) (elsewhere id) no_sentinel.
Proof. apply plain_laws; [apply _|done|by intros []]. Qed.
Definition demo_server : Server := mkServer 3000000000.
Definition no_timeout (timeout : Z) (c : Ctx) : Ctx := c.
Definition demo_world (faults : list Fault) : World Tables Plain := mkWorld (mkTables ∅ ∅ ∅) (mkPlain 7 faults).
Definition demo_calls : list (Ctx * HttpRequest) :=
  [(Background, PostOrders "order"); (Background, PatchItem "ord-1000007" "item-1000008" "3"); (Background, PostOrders "reject");
   (Background, GetOrders "ord-1000007")].
(** The first order loses its answer after the commit; the edit goes through; the rejected order is rolled back. *)
Definition demo_after : World Tables Plain :=
  after_requests no_timeout demo_server demo_calls (demo_world [Works; Works; Works; Works; Loses]).

Lemma orders_commit_as_one_witness :
  ∃ orderID t1 t2, elsewhere "ord-1000007" (mkTables ∅ ∅ ∅) t1 ∧
    creates (mkCreateRequest "customer-42" [coffee; mkItemRequest "sku-mug" 1 1300] false) orderID t1 t2.
Proof.
  destruct (serve no_timeout demo_server (PostOrders "order") Background (demo_world [])) as [[o c'] w'] eqn:E.
  pose proof (orders_commit_as_one no_timeout demo_server (elsewhere "ord-1000007") no_sentinel _ _ _ _ _ _ E) as H.
  assert (match o with Val (RespondView status _) => True | _ => False end) as Ho
    by (replace o with (serve no_timeout demo_server (PostOrders "order") Background (demo_world [])).1.1 by (by rewrite E); vm_compute; exact I).
  destruct o as [[]| |]; try destruct Ho. destruct H as [_ (request & orderID & t1 & t2 & H1 & _ & H2 & H3 & _)].
  injection H1 as <-. exists orderID, t1, t2. split; [exact H2|].
  replace (mkCreateRequest "customer-42" _ _) with (trimmed (mkCreateRequest " customer-42 " [coffee; mkItemRequest "sku-mug" 1 1300] false));
    [exact H3|vm_compute; reflexivity].
Defined.
Lemma aggregates_add_up_witness :
  sound (w_tables demo_after) ∧ (or_total <$> t_orders (w_tables demo_after) !! "ord-1000007") = Some 4900.
Proof.
  split; [|vm_compute; reflexivity].
  apply (aggregates_add_up no_timeout demo_server (elsewhere "ord-1000007") no_sentinel demo_calls (demo_world [Works; Works; Works; Works; Loses])).
  - intros t t' H. apply H.
  - intros t t' id H. apply H.
  - intros c id item body t t' Hin (_ & _ & H). unfold demo_calls in Hin.
    repeat (apply elem_of_cons in Hin as [Heq|Hin]; [(injection Heq as -> -> -> ->; exact H) || discriminate Heq|]). by apply elem_of_nil in Hin.
  - split; cbn [demo_world w_tables t_orders t_items t_events]; intros id row H; by rewrite lookup_empty in H.
Defined.
(** Line totals are 64-bit: four items at 2^62 cents cost nothing, and the order is accepted. *)
Example overflowing_line_is_accepted :
  match (serve no_timeout demo_server (PostOrders "gold") Background (demo_world [])).1.1 with
  | Val (RespondView status view) => status = 201 ∧ od_TotalCents (vw_Order view) = 0
  | _ => False
  end.
Proof. vm_compute. by split. Qed.
(** An identifier with space around it finds its order, as a read does, and then fails the event's reference to it. *)
Example padded_identifier_fails :
  let w := (serve no_timeout demo_server (PostOrders "order") Background (demo_world [])).2 in
  (match (serve no_timeout demo_server (GetOrders " ord-1000007 ") Background w).1.1 with Val (RespondView 200 _) => True | _ => False end) ∧
  (serve no_timeout demo_server (PatchItem " ord-1000007 " "item-1000008" "3") Background w).1.1
  = Val (RespondError 500 "service_error" "ERROR").
Proof. vm_compute. by split. Qed.
