(* ===== verification/OrderCrud.v ===== *)
(** examples/gin-sql-crud-api/internal/ordersapi/server.go: a repository of orders, each operation one statement on a
    shared table, behind gin handlers. *)
From Stdlib Require Import Ascii String.
From S2P Require Import Prelude SqlTx SqlKit.

Definition ordersTable : string := "gin_sql_crud_orders".
Definition defaultRequestTimeout : Z := 3 * 1000000000.
Definition ErrInvalidOrder : GoError := Sentinel "ordersapi.ErrInvalidOrder" "ordersapi: invalid order".
Definition ErrOrderNotFound : GoError := Sentinel "ordersapi.ErrOrderNotFound" "ordersapi: order not found".
Definition invalid (text : string) : GoError := Errorf text [ErrInvalidOrder] [].
Definition not_found (id : string) : GoError := Errorf "%w: %s" [ErrOrderNotFound] [FStr id].

Abbreviation Status := string (only parsing).
Definition StatusPending : Status := "pending".
Definition StatusPaid : Status := "paid".
Definition StatusCancelled : Status := "cancelled".
Definition Status_Valid (s : Status) : bool := bool_decide (s ∈ [StatusPending; StatusPaid; StatusCancelled]).
Definition unsupported (s : Status) : GoError := Errorf "%w: unsupported status %q" [ErrInvalidOrder] [FStr s].

(** ** Data *)

Record Order := mkOrder { o_ID : string; o_CustomerID : string; o_Status : Status; o_TotalCents : Z; o_CreatedAt : Z }.
Record CreateOrderRequest := mkCreateRequest { co_CustomerID : string; co_TotalCents : Z }.
Record UpdateStatusRequest := mkUpdateRequest { us_Status : Status }.
Record ListFilter := mkFilter { lf_CustomerID : string; lf_Status : Status; lf_Limit : Z }.

Definition validateOrder (order : Order) : option GoError :=
  if bool_decide (TrimSpace (o_ID order) = "") then Some (invalid "%w: id is required")
  else if bool_decide (TrimSpace (o_CustomerID order) = "") then Some (invalid "%w: customer_id is required")
  else if negb (Status_Valid (o_Status order)) then Some (unsupported (o_Status order))
  else if o_TotalCents order <? 0 then Some (invalid "%w: total_cents must not be negative")
  else if o_CreatedAt order =? 0 then Some (invalid "%w: created_at is required")
  else None.

(** ** The table *)

(** The columns but the key. *)
Record OrderRow := mkRow { r_customer : string; r_status : Status; r_total : Z; r_created : Z }.
Abbreviation Table := (gmap string OrderRow) (only parsing).
Inductive Write := InsertOrder (id : string) (row : OrderRow) | UpdateOrder (id : string) (old new : OrderRow) | DeleteOrder (id : string) (old : OrderRow).
Definition apply (t : Table) (w : Write) : Table :=
  match w with InsertOrder id row | UpdateOrder id _ row => <[id := row]> t | DeleteOrder id _ => delete id t end.
#[export] Instance table_pending : Pending Table Write := {|
  apply_write := apply;
  pending_ok w t := match w with InsertOrder id _ => t !! id = None | UpdateOrder id old _ | DeleteOrder id old => t !! id = Some old end
|}.

(** ** What the statements mean *)

Definition order_of (id : string) (row : OrderRow) : Order := mkOrder id (r_customer row) (r_status row) (r_total row) (r_created row).
Definition insert_order (id : string) (row : OrderRow) : Statement Table Write unit :=
  write_row (λ t, unless_check (0 <=? r_total row) check_violation "gin_sql_crud_orders_total_cents_check"
    ++ unless_key (bool_decide (is_Some (t !! id))) "gin_sql_crud_orders_pkey") (InsertOrder id row).
Definition find_order (id : string) : Statement Table Write (option Order) := select (λ t, order_of id <$> t !! id).
Definition with_status (status : Status) (row : OrderRow) : OrderRow := mkRow (r_customer row) status (r_total row) (r_created row).
Definition update_status (id : string) (status : Status) : Statement Table Write Z := λ t,
  inr (match t !! id with None => (0, []) | Some old => (1, [UpdateOrder id old (with_status status old)]) end).
Definition delete_order (id : string) : Statement Table Write Z := λ t,
  inr (match t !! id with None => (0, []) | Some old => (1, [DeleteOrder id old]) end).
Section Repository.
Context `{SB : SqlBuilder} `{PT : PgTypes}.
Definition earlier (a b : string * OrderRow) : bool :=
  (r_created a.2 <? r_created b.2) || (r_created a.2 =? r_created b.2) && text_less a.1 b.1.
Definition selected (filter : ListFilter) (row : OrderRow) : bool :=
  (bool_decide (lf_CustomerID filter = "") || bool_decide (r_customer row = lf_CustomerID filter)) &&
  (bool_decide (lf_Status filter = "") || bool_decide (r_status row = lf_Status filter)).
Definition matching (f : ListFilter) (t : Table) : list (string * OrderRow) :=
  SliceStable earlier (map_to_list (filter (λ ir, selected f ir.2) t)).
Definition limited {A} (limit : Z) (rows : list A) : list A := if 0 <? limit then take (Z.to_nat limit) rows else rows.
Definition list_orders (f : ListFilter) : Statement Table Write (list Order) :=
  select (λ t, map (uncurry order_of) (limited (lf_Limit f) (matching f t))).

(** ** The repository *)

Abbreviation SqlOf A := (Sql Table Write A).
Definition columns : list string := ["id"; "customer_id"; "status"; "total_cents"; "created_at"].
Definition row_of (order : Order) : OrderRow := mkRow (o_CustomerID order) (o_Status order) (o_TotalCents order) (stored_time (o_CreatedAt order)).
Definition createSQL (order : Order) : GoError + SqlOf unit :=
  try! _ := check (validateOrder order) in
  Build (InsertInto ordersTable columns
           [ArgString (o_ID order); ArgString (o_CustomerID order); ArgString (o_Status order); ArgInt (o_TotalCents order); ArgTime (o_CreatedAt order)])
    (insert_order (o_ID order) (row_of order)).
Definition findSQL (id : string) : GoError + SqlOf (option Order) :=
  let id := TrimSpace id in
  if bool_decide (id = "") then inl (invalid "%w: id is required")
  else Build (SelectFrom ordersTable columns [("id = ?", ArgString id)] [] None) (find_order id).
Definition list_conditions (f : ListFilter) : list (string * SqlArg) :=
  (if bool_decide (lf_CustomerID f = "") then [] else [("customer_id = ?", ArgString (lf_CustomerID f))])
  ++ (if bool_decide (lf_Status f = "") then [] else [("status = ?", ArgString (lf_Status f))]).
Definition listSQL (f : ListFilter) : GoError + SqlOf (list Order) :=
  let f := mkFilter (TrimSpace (lf_CustomerID f)) (lf_Status f) (lf_Limit f) in
  if lf_Limit f <? 0 then inl (invalid "%w: limit must not be negative")
  else if bool_decide (lf_CustomerID f = "") && bool_decide (lf_Status f = "") then inl (invalid "%w: customer_id or status is required")
  else if negb (bool_decide (lf_Status f = "")) && negb (Status_Valid (lf_Status f)) then inl (unsupported (lf_Status f))
  else Build (SelectFrom ordersTable columns (list_conditions f) ["created_at"; "id"] (if 0 <? lf_Limit f then Some (lf_Limit f) else None))
         (list_orders f).
Definition updateStatusSQL (id : string) (status : Status) : GoError + SqlOf Z :=
  let id := TrimSpace id in
  if bool_decide (id = "") then inl (invalid "%w: id is required")
  else if negb (Status_Valid status) then inl (unsupported status)
  else Build (Update ordersTable [("status", ArgString status)] [("id = ?", ArgString id)]) (update_status id status).
Definition deleteSQL (id : string) : GoError + SqlOf Z :=
  let id := TrimSpace id in
  if bool_decide (id = "") then inl (invalid "%w: id is required")
  else Build (DeleteFrom ordersTable [("id = ?", ArgString id)]) (delete_order id).

Section Db.
Context {S : Type} (db : Session Table Write S).
Definition Create (order : Order) : GoM S unit := let! stmt := or_fail id (createSQL order) in Exec db stmt.
Definition FindByID (orderID : string) : GoM S Order :=
  let! stmt := or_fail id (findSQL orderID) in or_no_row (not_found orderID) (QueryOne db stmt).
Definition List (f : ListFilter) : GoM S (list Order) := let! stmt := or_fail id (listSQL f) in QueryAll db stmt.
Context (RowsAffected : Z → GoError + Z).
(** A handle that cannot query, which the code refuses, is not a [Session]. *)
Definition UpdateStatus (orderID : string) (status : Status) : GoM S Order :=
  let! result := (let! stmt := or_fail id (updateStatusSQL orderID status) in Exec db stmt) in
  do! affected_or (RowsAffected result) (not_found orderID);
  FindByID orderID.
Definition Delete (orderID : string) : GoM S unit :=
  let! result := (let! stmt := or_fail id (deleteSQL orderID) in Exec db stmt) in
  affected_or (RowsAffected result) (not_found orderID).
End Db.

Definition CreateStatement (order : Order) : GoError + StatementSnapshot := snapshot "orders.create" (createSQL order).
Definition FindStatement (id : string) : GoError + StatementSnapshot := snapshot "orders.find_by_id" (findSQL id).
Definition ListStatement (f : ListFilter) : GoError + StatementSnapshot := snapshot "orders.list" (listSQL f).
Definition UpdateStatusStatement (id : string) (status : Status) : GoError + StatementSnapshot := snapshot "orders.update_status" (updateStatusSQL id status).
Definition DeleteStatement (id : string) : GoError + StatementSnapshot := snapshot "orders.delete" (deleteSQL id).
(** The statements a preview shows; its other texts are constants. *)
Definition NewPreview (previewTime : Z) : GoError + list StatementSnapshot :=
  try! create := CreateStatement (mkOrder "ord_1001" "customer-42" StatusPending 2599 previewTime) in
  try! find := FindStatement "ord_1001" in
  try! list := ListStatement (mkFilter "customer-42" StatusPending 20) in
  try! update := UpdateStatusStatement "ord_1001" StatusPaid in
  try! remove := DeleteStatement "ord_1001" in
  inr [create; find; list; update; remove].

(** ** The server *)

(** gin's binding of a body, and the source of identifiers. *)
Class JsonBinding := { bind_create : string → GoError + CreateOrderRequest; bind_update : string → GoError + UpdateStatusRequest }.
Class IdSource (E : Type) := { newID : E → (GoError + string) * E }.
Context {E : Type} `{SE : !SqlEngine Table Write E} `{IS : !IdSource E} `{JB : JsonBinding} `{GU : GoUnicode} (with_timeout : Z → Ctx → Ctx).
#[local] Abbreviation DbM := (GoM (World Table E)).
Record Server := mkServer { sv_requestTimeout : Z }.
Definition NewServer (db : bool) (requestTimeout : Z) : GoError + Server :=
  if negb db then inl (invalid "%w: db is required")
  else inr (mkServer (if requestTimeout <=? 0 then defaultRequestTimeout else requestTimeout)).
Inductive Response :=
  | Healthy
  | RespondOrder (status : Z) (order : Order)
  | RespondOrders (orders : list Order) (count : Z)
  | NoContent
  | RespondError (status : Z) (code text : string)
  | RouteNotFound.
Definition requestContext {A} (s : Server) (m : DbM A) : DbM A := in_timeout with_timeout (sv_requestTimeout s) m.
Definition writeError (status : Z) (code : string) (err : GoError) : Response := RespondError status code (Error err).
Definition writeRepositoryError (err : GoError) : Response :=
  if errors_Is err "ordersapi.ErrInvalidOrder" then writeError 400 "invalid_request" err
  else if errors_Is err "ordersapi.ErrOrderNotFound" then writeError 404 "order_not_found" err
  else writeError 500 "repository_error" err.
Definition respond {A} (s : Server) (m : DbM A) (k : A → Response) : DbM Response :=
  settle (requestContext s m) (λ err, ret (writeRepositoryError err)) (λ a, ret (k a)).
Definition bound {A} (r : GoError + A) (k : A → DbM Response) : DbM Response :=
  match r with inl err => ret (writeError 400 "invalid_request" err) | inr a => k a end.
Definition new_id : DbM (GoError + string) := λ c w, let '(r, g) := newID (w_engine w) in (Val r, c, mkWorld (w_tables w) g).
Definition createOrder (s : Server) (body : string) : DbM Response :=
  bound (bind_create body) (λ request,
    let! generated := new_id in
    match generated with
    | inl err => ret (writeError 500 "id_generation_failed" err)
    | inr orderID =>
        let! now := now_in_db in
        let order := mkOrder orderID (TrimSpace (co_CustomerID request)) StatusPending (co_TotalCents request) now in
        respond s (Create in_db order) (λ _, RespondOrder 201 order)
    end).
Definition getOrder (s : Server) (id : string) : DbM Response := respond s (FindByID in_db id) (RespondOrder 200).
(** The query's parameters: each its first value, or empty. *)
Record ListQuery := mkListQuery { lq_customer_id : string; lq_status : string; lq_limit : string }.
Definition list_limit (raw : string) : GoError + Z :=
  let raw := TrimSpace raw in
  if bool_decide (raw = "") then inr 20
  else match ParseInt raw with None => inl (invalid "%w: limit must be an integer") | Some parsed => inr parsed end.
Definition parseListFilter (query : ListQuery) : GoError + ListFilter :=
  try! limit := list_limit (lq_limit query) in
  if (limit <=? 0) || (100 <? limit) then inl (invalid "%w: limit must be between 1 and 100")
  else
    let f := mkFilter (TrimSpace (lq_customer_id query)) (TrimSpace (lq_status query)) limit in
    if bool_decide (lf_CustomerID f = "") && bool_decide (lf_Status f = "") then inl (invalid "%w: customer_id or status query is required")
    else if negb (bool_decide (lf_Status f = "")) && negb (Status_Valid (lf_Status f)) then inl (unsupported (lf_Status f))
    else inr f.
Definition listOrders (s : Server) (query : ListQuery) : DbM Response :=
  bound (parseListFilter query) (λ f, respond s (List in_db f) (λ orders, RespondOrders orders (len orders))).
Definition updateStatus (s : Server) (id body : string) : DbM Response :=
  bound (bind_update body) (λ request, respond s (UpdateStatus in_db RowsAffected id (us_Status request)) (RespondOrder 200)).
Definition deleteOrder (s : Server) (id : string) : DbM Response := respond s (Delete in_db RowsAffected id) (λ _, NoContent).
Inductive HttpRequest :=
  | GetHealthz | PostOrders (body : string) | GetOrders (query : ListQuery) | GetOrder (id : string)
  | PatchStatus (id body : string) | DeleteOrders (id : string) | Unrouted.
Definition serve (s : Server) (request : HttpRequest) : DbM Response :=
  match request with
  | GetHealthz => ret Healthy
  | PostOrders body => createOrder s body
  | GetOrders query => listOrders s query
  | GetOrder id => getOrder s id
  | PatchStatus id body => updateStatus s id body
  | DeleteOrders id => deleteOrder s id
  | Unrouted => ret RouteNotFound
  end.
End Repository.
Definition schema : string :=
  "create table if not exists gin_sql_crud_orders (
		id text primary key,
		customer_id text not null,
		status text not null,
		total_cents bigint not null check (total_cents >= 0),
		created_at timestamptz not null
	)".
Definition Migrate {S : Type} (exec_ddl : string → GoM S unit) : GoM S unit := exec_ddl schema.
