(* ===== verification/OrderCrudProofs.v ===== *)
(** The CRUD API: between any other clients of the table, every request takes effect at most once and in one step, and
    its answer is the one of a step of an abstract table of orders. *)
From Stdlib Require Import Ascii String.
From S2P Require Import Prelude SqlTx SqlModel SqlKit OrderCrud.

(** ** The abstract table *)

Section Effects.
Context `{PT : PgTypes} `{JB : JsonBinding} (others : Table → Table → Prop).
(** A step taken between what others do. *)
Definition at_once (step : Table → Table → Prop) (t t' : Table) : Prop := ∃ t1 t2, others t t1 ∧ step t1 t2 ∧ others t2 t'.
Definition put (order : Order) (t t' : Table) : Prop := t !! o_ID order = None ∧ t' = <[o_ID order := row_of order]> t.
Definition set (id : string) (status : Status) (t t' : Table) : Prop := t' = alter (with_status status) id t.
Definition remove (id : string) (t t' : Table) : Prop := t' = delete id t.
Definition reads (id : string) (found : option Order) (t t' : Table) : Prop := t' = t ∧ order_of id <$> t !! id = found.
(** The first orders a filter selects, in the order of their creation. *)
Record earliest (f : ListFilter) (t : Table) (orders : list Order) : Prop := {
  ea_limit : len orders <= lf_Limit f;
  ea_rows : ∃ rows, orders = map (uncurry order_of) rows ∧ NoDup (map fst rows) ∧ StronglySorted (sort_le earlier) rows ∧
    (∀ id row, (id, row) ∈ rows → t !! id = Some row ∧ selected f row = true) ∧
    (∀ id row, t !! id = Some row → selected f row = true →
       (id, row) ∈ rows ∨ (len rows = lf_Limit f ∧ Forall (λ other, earlier (id, row) other = false) rows))
}.
Definition lists (f : ListFilter) (orders : list Order) (t t' : Table) : Prop := t' = t ∧ earliest f t orders.
(** The order a body asks for. *)
Record asked (body : string) (order : Order) : Prop := {
  as_request : ∃ request, bind_create body = inr request ∧ o_CustomerID order = TrimSpace (co_CustomerID request) ∧
    o_TotalCents order = co_TotalCents request;
  as_status : o_Status order = StatusPending;
  as_valid : validateOrder order = None
}.

(** The one step a request may take on the table. *)
Inductive mutation : HttpRequest → (Table → Table → Prop) → Prop :=
  | posts body order : asked body order → mutation (PostOrders body) (put order)
  | patches id body request :
      bind_update body = inr request → Status_Valid (us_Status request) = true → TrimSpace id ≠ "" →
      mutation (PatchStatus id body) (set (TrimSpace id) (us_Status request))
  | deletes id : mutation (DeleteOrders id) (remove (TrimSpace id)).
(** What an answer says. *)
Inductive effect : HttpRequest → Response → Table → Table → Prop :=
  | created body order t t' : asked body order → at_once (put order) t t' → effect (PostOrders body) (RespondOrder 201 order) t t'
  | got id order t t' : at_once (reads (TrimSpace id) (Some order)) t t' → effect (GetOrder id) (RespondOrder 200 order) t t'
  | missed id text t t' : at_once (reads (TrimSpace id) None) t t' → effect (GetOrder id) (RespondError 404 "order_not_found" text) t t'
  | listed query f orders t t' :
      parseListFilter query = inr f → at_once (lists f orders) t t' → effect (GetOrders query) (RespondOrders orders (len orders)) t t'
  | patched id body step order t t1 t' :
      mutation (PatchStatus id body) step → at_once step t t1 → at_once (reads (TrimSpace id) (Some order)) t1 t' →
      effect (PatchStatus id body) (RespondOrder 200 order) t t'
  | patch_missed id body step text t t1 t' :
      mutation (PatchStatus id body) step → at_once step t t1 → at_once (reads (TrimSpace id) None) t1 t' →
      effect (PatchStatus id body) (RespondError 404 "order_not_found" text) t t'
  | deleted id t t' : at_once (remove (TrimSpace id)) t t' → effect (DeleteOrders id) NoContent t t'
  | delete_missed id text t t' :
      at_once (reads (TrimSpace id) None) t t' → effect (DeleteOrders id) (RespondError 404 "order_not_found" text) t t'
  | refused request text t t' : others t t' → effect request (RespondError 400 "invalid_request" text) t t'
  | failed request code text t t' :
      others t t' ∨ (∃ step, mutation request step ∧ at_once step t t') → effect request (RespondError 500 code text) t t'
  | other request response t : request = GetHealthz ∧ response = Healthy ∨ request = Unrouted ∧ response = RouteNotFound → effect request response t t.
End Effects.

(** ** Listing *)

Section Listing.
Context `{PT : PgTypes} `{WO : !WeakOrder text_less}.
#[local] Instance earlier_weak : WeakOrder earlier.
Proof.
  split; unfold earlier.
  - intros a b. destruct (text_less a.1 b.1) eqn:E.
    + rewrite (less_asym _ _ E), !andb_false_r, !andb_true_r, !orb_false_r, orb_true_iff, Z.ltb_lt, Z.eqb_eq, Z.ltb_ge. lia.
    + rewrite andb_false_r, orb_false_r, orb_false_iff, andb_false_iff, Z.ltb_lt, Z.ltb_ge, Z.eqb_neq. lia.
  - intros a b c. rewrite !orb_false_iff, !andb_false_iff, !Z.ltb_ge, !Z.eqb_neq. intros [H1 H2] [H3 H4]. split; [lia|].
    destruct (decide (r_created c.2 = r_created a.2)) as [He|]; [|by left]. right.
    destruct H2 as [?|H2]; [lia|]. destruct H4 as [?|H4]; [lia|]. by eapply less_negtrans.
Qed.
Lemma matching_row f t id row : (id, row) ∈ matching f t ↔ t !! id = Some row ∧ selected f row = true.
Proof. unfold matching. rewrite stable_perm, elem_of_map_to_list. rewrite map_lookup_filter_Some, Is_true_true. done. Qed.
Lemma earliest_matching f t : 0 < lf_Limit f → earliest f t (map (uncurry order_of) (limited (lf_Limit f) (matching f t))).
Proof.
  intros Hl. unfold limited. rewrite (proj2 (Z.ltb_lt _ _) Hl). set (n := Z.to_nat (lf_Limit f)). set (rows := matching f t).
  assert (StronglySorted (sort_le earlier) rows) as Hs by apply stable_ordered, _.
  assert (NoDup (map fst rows)) as Hnd by (unfold rows, matching; rewrite stable_perm; apply NoDup_fst_map_to_list).
  split; [unfold len; rewrite length_map, length_take; lia|]. exists (take n rows). rewrite <- (take_drop n rows) in Hs, Hnd.
  apply StronglySorted_app in Hs as (Hcross & Hs & _). rewrite map_app in Hnd. apply NoDup_app in Hnd as (Hnd & _).
  split_and!; [done|done|done|..].
  - intros id row Hin. apply matching_row. rewrite <- (take_drop n). by apply elem_of_app; left.
  - intros id row Hrow Hsel. assert ((id, row) ∈ rows) as Hin by (by apply matching_row).
    rewrite <- (take_drop n rows) in Hin. apply elem_of_app in Hin as [?|Hin]; [by left|right]. split.
    + unfold len. rewrite length_take. assert (drop n rows ≠ []) as Hne by (intros H; rewrite H in Hin; by apply elem_of_nil in Hin).
      destruct (decide (length rows <= n)%nat) as [Hle|]; [by rewrite drop_ge in Hne|lia].
    + apply Forall_forall. intros other Ho. by apply Hcross.
Qed.
End Listing.

(** ** Requests *)

(** The sentinels of the repository, and the one of sqlkit it reads: no other error is one of them. *)
Definition mine (name : string) : Prop := name = "ordersapi.ErrInvalidOrder" ∨ name = "ordersapi.ErrOrderNotFound" ∨ name = "sqlkit.ErrNoRows".
Section Requests.
Context `{PD : PgDriver} `{SB : SqlBuilder} `{PT : PgTypes} {E : Type} `{SE : !SqlEngine Table Write E} `{IS : !IdSource E}.
Context `{JB : JsonBinding} `{GU : GoUnicode} {others : Table → Table → Prop} `{PO : !PreOrder others} `{SL : !SqlLaws others mine}.
(** The builder's errors are its own. *)
Context (builder_foreign : ∀ b e, builder_Build b = inl e → foreign mine e).

Lemma at_once_later step t t' t'' : at_once others step t t' → others t' t'' → at_once others step t t''.
Proof using PO. intros (t1 & t2 & H1 & H2 & H3) H. exists t1, t2. split_and!; [done|done|by etrans]. Qed.
Lemma foreign_404 e : foreign mine e → errors_Is e "ordersapi.ErrOrderNotFound" = false.
Proof using Type. intros H. apply H. unfold mine. auto. Qed.
Lemma foreign_400 e : foreign mine e → errors_Is e "ordersapi.ErrInvalidOrder" = false.
Proof using Type. intros H. apply H. by left. Qed.
Lemma Build_inl {A} builder (run : Statement Table Write A) e : Build builder run = inl e → foreign mine e.
Proof using builder_foreign. unfold Build, and_then. destruct (builder_Build builder) eqn:E1; [|done]. intros [= <-]. by eapply builder_foreign. Qed.

(** Every error but the repository's own is not found to be a missing order. *)
Definition not_missing (e : GoError) : Prop := errors_Is e "ordersapi.ErrOrderNotFound" = false.
Lemma validateOrder_error order e : validateOrder order = Some e → not_missing e.
Proof using Type. unfold validateOrder. repeat case_match; intros [= <-]; reflexivity. Qed.
Lemma createSQL_inr order s : createSQL order = inr s → validateOrder order = None ∧ sq_run s = insert_order (o_ID order) (row_of order).
Proof using Type. intros H. apply and_then_inr in H as ([] & Hv%check_inr & H%build_run). done. Qed.
Lemma createSQL_inl order e : createSQL order = inl e → not_missing e.
Proof using builder_foreign.
  unfold createSQL, check, and_then. destruct (validateOrder order) eqn:Ev; [intros [= <-]; by eapply validateOrder_error|].
  by intros H%Build_inl%foreign_404.
Qed.
Lemma findSQL_inr id s : findSQL id = inr s → sq_run s = find_order (TrimSpace id).
Proof using Type. unfold findSQL. case_bool_decide; [done|]. apply build_run. Qed.
Lemma findSQL_inl id e : findSQL id = inl e → not_missing e ∧ (TrimSpace id ≠ "" → errors_Is e "ordersapi.ErrInvalidOrder" = false).
Proof using builder_foreign.
  unfold findSQL. case_bool_decide; [by intros [= <-]|]. intros Hb%Build_inl. by split; [apply foreign_404|intros _; apply foreign_400].
Qed.
Lemma listSQL_inr f s :
  listSQL f = inr s → sq_run s = list_orders (mkFilter (TrimSpace (lf_CustomerID f)) (lf_Status f) (lf_Limit f)).
Proof using Type. unfold listSQL. repeat case_match; try done; apply build_run. Qed.
Lemma listSQL_inl f e : listSQL f = inl e → not_missing e.
Proof using builder_foreign. unfold listSQL. repeat case_match; try (by intros [= <-]); by intros Hb%Build_inl%foreign_404. Qed.
Lemma updateStatusSQL_inr id status s :
  updateStatusSQL id status = inr s → TrimSpace id ≠ "" ∧ Status_Valid status = true ∧ sq_run s = update_status (TrimSpace id) status.
Proof using Type.
  unfold updateStatusSQL. case_bool_decide; [done|]. destruct (Status_Valid status); [|done]. intros H2%build_run. done.
Qed.
Lemma updateStatusSQL_inl id status e : updateStatusSQL id status = inl e → not_missing e.
Proof using builder_foreign. unfold updateStatusSQL. repeat case_match; try (by intros [= <-]); by intros Hb%Build_inl%foreign_404. Qed.
Lemma deleteSQL_inr id s : deleteSQL id = inr s → sq_run s = delete_order (TrimSpace id).
Proof using Type. unfold deleteSQL. case_bool_decide; [done|]. apply build_run. Qed.
Lemma deleteSQL_inl id e : deleteSQL id = inl e → not_missing e.
Proof using builder_foreign. unfold deleteSQL. case_bool_decide; [by intros [= <-]|]. by intros Hb%Build_inl%foreign_404. Qed.

(** What one statement does as a step. *)
Definition refused_or (sent : Prop) (step : Table → Table → Prop) (e : GoError) (t t' : Table) : Prop :=
  not_missing e ∧ (others t t' ∨ (at_once others step t t' ∧ foreign mine e ∧ sent)).
Lemma exec_step {A} (stmt : GoError + Sql Table Write A) (step : Table → Table → Prop) c (w : World Table E) o c' w' :
  (∀ e, stmt = inl e → not_missing e) →
  (∀ s t a ws, stmt = inr s → sq_run s t = inr (a, ws) → step t (apply_writes t ws)) →
  (let! stmt := or_fail id stmt in Exec in_db stmt) c w = (o, c', w') →
  match o with
  | Val a => ∃ s t1 ws, stmt = inr s ∧ others (w_tables w) t1 ∧ sq_run s t1 = inr (a, ws) ∧ step t1 (apply_writes t1 ws) ∧
      others (apply_writes t1 ws) (w_tables w')
  | Fail e => refused_or (∃ s, stmt = inr s) step e (w_tables w) (w_tables w')
  | Panic => False
  end.
Proof using PO SL.
  intros He Hs H%(exec_db_run (others := others) (mine := mine)). destruct o as [a|e|]; [|split|done].
  - destruct H as (s & t1 & ws & H1 & H2 & H3 & H4). exists s, t1, ws. split_and!; [done|done|done| |done]. by eapply Hs.
  - destruct H as [[H _]|[H _]]; [by apply He|by apply foreign_404].
  - destruct H as [[_ ->]|[Hf [H|(a & s & t1 & ws & H1 & H2 & H3 & H4)]]]; [by left|by left|right]. split_and!; [|done|by eauto].
    exists t1, (apply_writes t1 ws). split_and!; [done| |done]. by eapply Hs.
Qed.
Lemma read_run id c (w : World Table E) o c' w' :
  FindByID in_db id c w = (o, c', w') →
  match o with
  | Val order => at_once others (reads (TrimSpace id) (Some order)) (w_tables w) (w_tables w')
  | Fail e => (e = not_found id ∧ at_once others (reads (TrimSpace id) None) (w_tables w) (w_tables w')) ∨
      (not_missing e ∧ (TrimSpace id ≠ "" → errors_Is e "ordersapi.ErrInvalidOrder" = false) ∧ others (w_tables w) (w_tables w'))
  | Panic => False
  end.
Proof using PO SL builder_foreign.
  unfold FindByID. destruct (findSQL id) as [e|s] eqn:Es.
  { intros [= <- <- <-]. right. by destruct (findSQL_inl _ _ Es). }
  apply findSQL_inr in Es. unfold or_fail, or_no_row, QueryOne, settle, bind, ret. cbn. rewrite Es. unfold in_db.
  destruct (on_db _ c w) as [[o1 c1] w1] eqn:E1.
  apply (on_db_select others mine) in E1 as [(t & H1 & H2 & ->)|(H1 & e & -> & [_ Hf])].
  - destruct (order_of _ <$> t !! TrimSpace id) as [order|] eqn:Eo; intros [= <- <- <-]; [|left; split; [done|]]; by exists t, t.
  - intros [= <- <- <-]. right. unfold foreign in Hf. rewrite (Hf "sqlkit.ErrNoRows") by (unfold mine; auto).
    by split_and!; [apply foreign_404|intros _; apply foreign_400|].
Qed.

(** ** Answers *)

Lemma tell_error e : not_missing e →
  writeRepositoryError e = RespondError 400 "invalid_request" (Error e) ∧ errors_Is e "ordersapi.ErrInvalidOrder" = true ∨
  writeRepositoryError e = RespondError 500 "repository_error" (Error e).
Proof using Type. unfold writeRepositoryError, writeError. intros ->. destruct (errors_Is e _); auto. Qed.
Lemma tell_missing id : writeRepositoryError (not_found id) = RespondError 404 "order_not_found" (Error (not_found id)).
Proof using Type. done. Qed.
#[local] Abbreviation takes := (effect others).
Lemma tell_refused request (sent : Prop) step e t t' :
  refused_or sent step e t t' → (sent → mutation request step) → takes request (writeRepositoryError e) t t'.
Proof using PO SL.
  intros [Hm He] Hs. destruct (tell_error _ Hm) as [[-> Hi]| ->]; [apply refused|apply failed].
  - destruct He as [He|(_ & He%foreign_400 & _)]; [done|congruence].
  - destruct He as [He|(He & _ & Hsent)]; [by left|right; eauto].
Qed.
Lemma tell_read request e t t' : not_missing e → others t t' → takes request (writeRepositoryError e) t t'.
Proof using Type. intros Hm Ho. destruct (tell_error _ Hm) as [[-> Hi]| ->]; [by apply refused|apply failed; by left]. Qed.

Context (with_timeout : Z → Ctx → Ctx) (server : Server).
(** A handler's answer, and what it took. *)
Definition answers_with (request : HttpRequest) (m : GoM (World Table E) Response) : Prop := ∀ c w o c' w',
  m c w = (o, c', w') → ∃ response, o = Val response ∧ takes request response (w_tables w) (w_tables w').
Lemma respond_answers {A} request (m : GoM (World Table E) A) k :
  (∀ c w o c' w', m c w = (o, c', w') →
     match o with
     | Val a => takes request (k a) (w_tables w) (w_tables w')
     | Fail e => takes request (writeRepositoryError e) (w_tables w) (w_tables w')
     | Panic => False
     end) → answers_with request (respond with_timeout server m k).
Proof using Type.
  intros Hm c w o c' w' (d & [a|e|] & d' & H%Hm & Ho)%told_run; [| |done]; subst o; by eexists.
Qed.
Lemma bound_answers {A} request (r : GoError + A) k :
  (∀ a, r = inr a → answers_with request (k a)) → answers_with request (bound r k).
Proof using PO.
  intros Hk. destruct r as [e|a]; [|by apply Hk]. intros c w o c' w' [= <- <- <-]. eexists. split; [done|]. by apply refused.
Qed.
Lemma create_answers body : answers_with (PostOrders body) (createOrder with_timeout server body).
Proof using PO SL builder_foreign.
  apply bound_answers. intros request Hb c w o c' w'. unfold bind at 1, new_id. destruct (newID (w_engine w)) as [[e|id] g].
  { intros [= <- <- <-]. eexists. split; [done|]. apply failed. by left. }
  unfold bind, now_in_db. destruct (clock _) as [now g']. cbn.
  set (order := mkOrder id _ _ _ now). refine (respond_answers (PostOrders body) _ _ _ c (mkWorld (w_tables w) g') o c' w'). clear c w o c' w'. intros c w o c' w' H.
  apply (exec_step (createSQL order) (put order)) in H; [|apply createSQL_inl|].
  - destruct o as [[]|e|]; [| |done].
    + destruct H as (s & t1 & ws & [Hv _]%createSQL_inr & H1 & _ & H2 & H3). apply created; [|by exists t1, (apply_writes t1 ws)].
      split; [by exists request|done|done].
    + eapply tell_refused; [exact H|]. intros [s [Hv _]%createSQL_inr]. apply posts. split; [by exists request|done|done].
  - intros s t [] ws [_ ->]%createSQL_inr [-> [_ Hk]%app_eq_nil]%write_row_inr. split; [|done].
    unfold unless_key in Hk. case_bool_decide; [done|]. by apply eq_None_not_Some.
Qed.
Lemma get_answers id : answers_with (GetOrder id) (getOrder with_timeout server id).
Proof using PO SL builder_foreign.
  apply respond_answers. intros c w o c' w' H%read_run. destruct o as [order|e|]; [by apply got| |done].
  destruct H as [[-> H]|(Hm & _ & H)]; [rewrite tell_missing; by apply missed|by apply tell_read].
Qed.
Lemma list_answers `{WO : !WeakOrder text_less} query : answers_with (GetOrders query) (listOrders with_timeout server query).
Proof using PO SL builder_foreign.
  apply bound_answers. intros f Hf. apply respond_answers. intros c w o c' w'. unfold List.
  destruct (listSQL f) as [e|s] eqn:Es; [intros [= <- <- <-]; apply tell_read; [by eapply listSQL_inl|done]|].
  apply listSQL_inr in Es. unfold or_fail, bind, ret, QueryAll, in_db. rewrite Es.
  intros [(t & H1 & H2 & ->)|(H1 & e & -> & [_ He%foreign_404])]%(on_db_select others mine); [|by apply tell_read].
  apply (listed _ _ f); [done|]. exists t, t. split_and!; [done| |done]. split; [done|].
  unfold parseListFilter in Hf. apply and_then_inr in Hf as (limit & _ & Hf).
  destruct (limit <=? 0) eqn:El; [done|]. repeat case_match; try done. injection Hf as <-. cbn [lf_CustomerID lf_Status lf_Limit].
  rewrite TrimSpace_idem. apply earliest_matching. by apply Z.leb_gt.
Qed.
Lemma update_step id status t n ws : update_status id status t = inr (n, ws) →
  set id status t (apply_writes t ws) ∧ (n = 0 → t !! id = None).
Proof using Type.
  unfold update_status, set. destruct (t !! id) as [old|] eqn:Ho; intros [= <- <-]; cbn; split; try done.
  - symmetry. rewrite <- (insert_id t id old) at 1 by done. by rewrite alter_insert_eq.
  - symmetry. by apply alter_id; intros x; rewrite Ho.
Qed.
Lemma delete_step id t n ws : delete_order id t = inr (n, ws) → remove id t (apply_writes t ws) ∧ (n = 0 → t !! id = None).
Proof using Type.
  unfold delete_order, remove. destruct (t !! id) as [old|] eqn:Ho; intros [= <- <-]; cbn; split; try done. by rewrite delete_id.
Qed.
Lemma counted_inv n err c (w : World Table E) o c' w' :
  affected_or (RowsAffected n) err c w = (o, c', w') → w' = w ∧ (o = Val tt ∨ o = Fail err ∧ n = 0).
Proof using SL.
  unfold affected_or. destruct (RowsAffected n) as [e|k] eqn:Hn; [intros [= <- <- <-]; by auto|].
  apply (rows_affected_count others mine) in Hn as ->. destruct (Z.eqb_spec n 0); intros [= <- <- <-]; auto.
Qed.
Lemma delete_answers id : answers_with (DeleteOrders id) (deleteOrder with_timeout server id).
Proof using PO SL builder_foreign.
  apply respond_answers. intros c w o c' w' H.
  apply bind_inv in H as [(n & c1 & w1 & H & Hc)|[(e & -> & H)|[-> H]]];
    apply (exec_step (deleteSQL id) (remove (TrimSpace id))) in H; try (by apply deleteSQL_inl);
    try (intros s t a ws ->%deleteSQL_inr [H' _]%delete_step; exact H'); [| |done].
  - destruct H as (s & t1 & ws & ->%deleteSQL_inr & H1 & [_ Hn]%delete_step & Hstep & H2).
    apply counted_inv in Hc as [-> [->|[-> ->]]]; [by apply deleted; exists t1, (apply_writes t1 ws)|].
    rewrite tell_missing. apply delete_missed. exists t1, t1. specialize (Hn eq_refl).
    unfold remove in Hstep. rewrite Hstep, delete_id in H2 by done. split_and!; [done|by split; [|rewrite Hn]|done].
  - eapply tell_refused; [exact H|]. intros _. apply deletes.
Qed.
Lemma update_answers id body : answers_with (PatchStatus id body) (updateStatus with_timeout server id body).
Proof using PO SL builder_foreign.
  apply bound_answers. intros request Hb. apply respond_answers. intros c w o c' w' H. set (status := us_Status request) in H.
  assert (∀ s, updateStatusSQL id status = inr s → mutation (PatchStatus id body) (set (TrimSpace id) status)) as Hm
    by (intros s (H1 & H2 & _)%updateStatusSQL_inr; by apply (patches _ _ request)).
  apply bind_inv in H as [(n & c1 & w1 & H & Hc)|[(e & -> & H)|[-> H]]];
    apply (exec_step (updateStatusSQL id status) (set (TrimSpace id) status)) in H; try (by apply updateStatusSQL_inl);
    try (intros s t a ws (_ & _ & ->)%updateStatusSQL_inr [H' _]%update_step; exact H'); [| |done].
  - destruct H as (s & t1 & ws & Hs & H1 & Hrun & Hstep & H2). specialize (Hm _ Hs). apply updateStatusSQL_inr in Hs as (Hid & _ & Hs).
    rewrite Hs in Hrun. apply update_step in Hrun as [_ Hn]. assert (at_once others (set (TrimSpace id) status) (w_tables w) (w_tables w1)) as Hset
      by (by exists t1, (apply_writes t1 ws)).
    apply bind_inv in Hc as [([] & c2 & w2 & [-> _]%counted_inv & Hc%read_run)|[(e & -> & Hc)|[-> Hc]]]; [| |by apply counted_inv in Hc as [_ [?|[? _]]]].
    + destruct o as [order|e|]; [by eapply patched| |done].
      destruct Hc as [[-> Hc]|(Hmiss & Hinv & Hc)]; [rewrite tell_missing; by eapply patch_missed|].
      destruct (tell_error _ Hmiss) as [[_ Hi]| ->]; [by rewrite Hinv in Hi|]. apply failed. right.
      eexists. split; [done|]. by eapply at_once_later.
    + apply counted_inv in Hc as [-> [?|[[= ->] ->]]]; [done|]. specialize (Hn eq_refl). rewrite tell_missing.
      eapply patch_missed; [done|exists t1, (apply_writes t1 ws); split_and!; [done|done|reflexivity]|].
      exists (apply_writes t1 ws), (apply_writes t1 ws). split_and!; [done| |done]. split; [done|].
      by rewrite Hstep, lookup_alter_eq, Hn.
  - eapply tell_refused; [exact H|]. intros [s Hs]. by eapply Hm.
Qed.

Lemma serve_answers `{WO : !WeakOrder text_less} request : answers_with request (serve with_timeout server request).
Proof using PO SL builder_foreign.
  destruct request; cbn [serve].
  - intros c w o c' w' [= <- <- <-]. eexists. split; [done|]. apply other. by left.
  - apply create_answers.
  - by apply list_answers.
  - apply get_answers.
  - apply update_answers.
  - apply delete_answers.
  - intros c w o c' w' [= <- <- <-]. eexists. split; [done|]. apply other. by right.
Qed.

(** C11: Whoever else reads and writes the table, and whatever fails, every request is answered, and takes effect at
    most once and in one step: an answer with an order, a list or a missing order is what an abstract table said at one
    moment of the request; a change that is answered was made in one step, a refused request changes nothing, and one
    answered with 500 has been carried out wholly or not at all. *)
Theorem requests_take_effect_once `{WO : !WeakOrder text_less} request c (w : World Table E) o c' w' :
  serve with_timeout server request c w = (o, c', w') →
  ∃ response, o = Val response ∧ effect others request response (w_tables w) (w_tables w').
Proof using PO SL builder_foreign. apply serve_answers. Qed.

(** ** What the table holds *)

(** A row as the API makes it. *)
Record valid_row (id : string) (row : OrderRow) : Prop := {
  va_id : TrimSpace id ≠ "";
  va_customer : r_customer row ≠ "" ∧ TrimSpace (r_customer row) = r_customer row;
  va_status : Status_Valid (r_status row) = true;
  va_total : 0 <= r_total row
}.
Definition valid (t : Table) : Prop := map_Forall valid_row t.
Lemma asked_valid body order : asked body order → valid_row (o_ID order) (row_of order).
Proof using Type.
  intros [(request & _ & Hc & _) _ Hv]. unfold validateOrder in Hv. repeat case_bool_decide; try done.
  destruct (Status_Valid _) eqn:Hs; [|done]. destruct (Z.ltb_spec (o_TotalCents order) 0); [done|]. split; cbn; [done| |done|done].
  assert (TrimSpace (o_CustomerID order) = o_CustomerID order) as Ht by (by rewrite Hc, TrimSpace_idem). split; [congruence|done].
Qed.
Lemma mutation_valid request step t t' : mutation request step → step t t' → valid t → valid t'.
Proof using Type.
  intros [body order Hask|id body upd _ Hs _|id] Hstep Hv.
  - destruct Hstep as [_ ->]. by apply map_Forall_insert_2; [eapply asked_valid|].
  - unfold set in Hstep. subst t'. intros k row [[<- (old & Hold & ->)]|[_ Hrow]]%lookup_alter_Some; [|by apply Hv].
    destruct (Hv _ _ Hold) as [H1 H2 H3 H4]. by split.
  - unfold remove in Hstep. subst t'. by apply map_Forall_delete.
Qed.
Lemma effect_valid request response t t' :
  (∀ t t', others t t' → valid t → valid t') → effect others request response t t' → valid t → valid t'.
Proof using Type.
  intros Ho He Hv.
  assert (∀ step t1 t2, at_once others step t1 t2 → (∀ t t', step t t' → valid t → valid t') → valid t1 → valid t2) as Honce
    by (intros step t1 t2 (u1 & u2 & H1 & H2 & H3) Hs H; eauto).
  assert (∀ step request t1 t2, mutation request step → at_once others step t1 t2 → valid t1 → valid t2) as Hmut
    by (intros step r t1 t2 Hm H; apply (Honce _ _ _ H); intros; by eapply mutation_valid).
  assert (∀ id found t1 t2, at_once others (reads id found) t1 t2 → valid t1 → valid t2) as Hread
    by (intros id found t1 t2 H; apply (Honce _ _ _ H); by intros u u' [-> _]).
  destruct He as [body order t t' Ha H|? ? ? ? H|? ? ? ? H|? f orders ? ? _ H|? ? ? ? ? t1 ? Hm H H'|? ? ? ? ? t1 ? Hm H H'|id t t' H|? ? ? ? H|? ? ? ? H|? ? ? ? ? [H|(step & Hm & H)]|]; eauto.
  - by apply (Hmut _ _ _ _ (posts _ _ Ha) H).
  - apply (Honce _ _ _ H); [|done]. by intros u u' [-> _].
  - by apply (Hmut _ _ _ _ (deletes id) H).
Qed.

(** Requests served one after the other, whatever each is answered. *)
Definition after_request (w : World Table E) (call : Ctx * HttpRequest) : World Table E := (serve with_timeout server call.2 call.1 w).2.
Definition after_requests (calls : list (Ctx * HttpRequest)) (w : World Table E) : World Table E := foldl after_request w calls.

(** However requests fail, lose their answers or are cancelled, the table keeps only orders with an identifier, a
    trimmed customer, a status of the API and a total that is not negative, as long as others keep to this. *)
Theorem stored_orders_valid `{WO : !WeakOrder text_less} calls (w : World Table E) :
  (∀ t t', others t t' → valid t → valid t') → valid (w_tables w) → valid (w_tables (after_requests calls w)).
Proof using PO SL builder_foreign.
  intros Ho. revert w. induction calls as [|[c request] calls IH]; intros w Hw; [done|]. apply IH. unfold after_request. cbn [fst snd].
  destruct (serve with_timeout server request c w) as [[o c'] w'] eqn:E1. apply serve_answers in E1 as (response & _ & He).
  by eapply effect_valid.
Qed.

(** An order answered with 201 and left alone is what a later read of its identifier shows, with the instant of its
    creation as the database keeps it; the read never answers that it is missing. *)
Theorem created_orders_read_back `{WO : !WeakOrder text_less} body order c (w : World Table E) c1 w1 c2 w2 o c3 w3 :
  serve with_timeout server (PostOrders body) c w = (Val (RespondOrder 201 order), c1, w1) →
  (∀ t t', others t t' → is_Some (t !! o_ID order) → t' !! o_ID order = t !! o_ID order) →
  TrimSpace (o_ID order) = o_ID order → others (w_tables w1) (w_tables w2) →
  serve with_timeout server (GetOrder (o_ID order)) c2 w2 = (o, c3, w3) →
  match o with
  | Val (RespondOrder status read) =>
      status = 200 ∧ read = mkOrder (o_ID order) (o_CustomerID order) (o_Status order) (o_TotalCents order) (stored_time (o_CreatedAt order))
  | Val (RespondError status _ _) => status ≠ 404
  | _ => False
  end.
Proof using PO SL builder_foreign.
  intros (r & [= <-] & He)%serve_answers Hkeep Htrim H12 (answer & -> & Hg)%serve_answers.
  inversion He as [b o1 t t' Ha (t1 & t2 & _ & [_ Ht2] & H2)| | | | | | | | | |? ? ? [[]|[]]]; [|done..]. simplify_eq.
  assert (∀ t, others (w_tables w2) t → t !! o_ID order = Some (row_of order)) as Hrow.
  { intros t Ht. rewrite (Hkeep (<[o_ID order := row_of order]> t1) t); [apply lookup_insert_eq| |by rewrite lookup_insert_eq].
    etrans; [exact H2|]. by etrans. }
  inversion Hg as [|? read ? ? (u1 & u2 & Hu & [-> Hread] & _)|? ? ? ? (u1 & u2 & Hu & [-> Hread] & _)| | | | | | | |? ? ? [[]|[]]]; simplify_eq; [| |done..].
  - rewrite Htrim, Hrow in Hread by done. by injection Hread as <-.
  - by rewrite Htrim, Hrow in Hread.
Qed.
End Requests.

(** ** Evaluations *)

#[local] Existing Instance plain_builder.
#[local] Existing Instance plain_pg.
#[local] Existing Instance plain_unicode.
#[local] Instance demo_ids : IdSource Plain := {| newID g := (inr ("ord_" ++ pretty (pl_time g))%string, mkPlain (pl_time g + 1) (pl_faults g)) |}.
#[local] Instance demo_binding : JsonBinding := {|
  bind_create body := inr (mkCreateRequest " customer-42 " (Z.of_nat (String.length body)));
  bind_update body := inr (mkUpdateRequest body)
|}.
#[local] Instance demo_order : WeakOrder (text_less (PgTypes := plain_pg)).
Proof. apply str_ltb_weak. Qed.
(** Others change what they like of other orders, and keep every order well formed. *)
Definition elsewhere (id : string) (t t' : Table) : Prop :=
  (valid t → valid t') ∧ (is_Some (t !! id) → t' !! id = t !! id).
#[local] Instance elsewhere_preorder id : PreOrder (elsewhere id).
Proof.
  split; [by intros t|]. intros t1 t2 t3 (V1 & K1) (V2 & K2). split; [auto|]. intros H. rewrite K2; [by apply K1|]. by rewrite K1.
Qed.
#[local] Instance demo_engine id : SqlLaws (E := Plain) (elsewhere id) mine.
Proof. apply plain_laws; [apply _|by intros ? [-> | [-> | ->]]|by intros [|[|]]]. Qed.
Lemma plain_builder_foreign b e : builder_Build b = inl e → foreign mine e.
Proof. done. Qed.
Definition demo_server : Server := mkServer 3000000000.
Definition no_timeout (timeout : Z) (c : Ctx) : Ctx := c.
Definition demo_world (faults : list Fault) : World Table Plain := mkWorld ∅ (mkPlain 7 faults).
Definition demo_calls : list (Ctx * HttpRequest) :=
  [(Background, PostOrders "1234"); (Background, PatchStatus " ord_7 " "paid"); (Background, PatchStatus "ord_7" "lost");
   (Background, PostOrders "12"); (Background, GetOrders (mkListQuery "customer-42" "" "")); (Background, DeleteOrders "ord_8")].
(** The connection breaks under the second order. *)
Definition demo_after : World Table Plain := after_requests no_timeout demo_server demo_calls (demo_world [Works; Works; Works; Breaks]).
Definition posted : Outcome Response * Ctx * World Table Plain := serve no_timeout demo_server (PostOrders "1234") Background (demo_world []).

Lemma requests_take_effect_once_witness :
  ∃ order, effect (elsewhere "ord_7") (PostOrders "1234") (RespondOrder 201 order) ∅ (w_tables posted.2) ∧ o_TotalCents order = 4.
Proof.
  destruct (requests_take_effect_once (others := elsewhere "ord_7") plain_builder_foreign no_timeout demo_server
    (PostOrders "1234") Background (demo_world []) posted.1.1 posted.1.2 posted.2) as (response & H & He); [by unfold posted; destruct serve as [[??]?]|].
  vm_compute in H. injection H as <-. eexists. split; [exact He|reflexivity].
Defined.
Lemma stored_orders_valid_witness :
  valid (w_tables demo_after) ∧ (r_status <$> w_tables demo_after !! "ord_7") = Some "paid" ∧ size (w_tables demo_after) = 1%nat.
Proof.
  split; [|by vm_compute].
  apply (stored_orders_valid (others := elsewhere "ord_7") plain_builder_foreign no_timeout demo_server demo_calls
    (demo_world [Works; Works; Works; Breaks])); [|apply map_Forall_empty]. intros t t' H. apply H.
Defined.
Lemma created_orders_read_back_witness :
  match (serve no_timeout demo_server (GetOrder "ord_7") Background posted.2).1.1 with
  | Val (RespondOrder status read) => status = 200 ∧ read = mkOrder "ord_7" "customer-42" "pending" 4 8
  | Val (RespondError status _ _) => status ≠ 404
  | _ => False
  end.
Proof.
  destruct (serve no_timeout demo_server (GetOrder "ord_7") Background posted.2) as [[o c3] w3] eqn:E3. cbn [fst snd].
  set (order := mkOrder "ord_7" "customer-42" "pending" 4 8).
  assert (posted = (Val (RespondOrder 201 order), posted.1.2, posted.2)) as Hposted.
  { assert (posted.1.1 = Val (RespondOrder 201 order)) as <- by (vm_compute; reflexivity). by destruct posted as [[??]?]. }
  exact (created_orders_read_back (others := elsewhere "ord_7") plain_builder_foreign no_timeout demo_server "1234" order Background
    (demo_world []) posted.1.2 posted.2 Background posted.2 o c3 w3 Hposted (λ t t' H, proj2 H) eq_refl (reflexivity _) E3).
Defined.
