(* ===== verification/OrderWorkflow.v ===== *)
(** examples/audited-order-workflow-outbox/internal/orderworkflow (model.go, service.go and the writes and
    lookups of history_store.go): order commands that write an order, its audit entry and an outbox record in
    one transaction. The audit package, its SQL outbox, sqlkit and the database engine are parameters; the SQL
    statements are functions of the tables, with the constraints of schema.go. *)
From Stdlib Require Import Ascii String.
From S2P Require Import Prelude GraphLib SqlTx.

Definition orderAggregateType : string := "order".
Definition maxIdentifierBytes : Z := 128.
Definition maxReasonRunes : Z := 500.
Definition maxMetadataEntries : Z := 32.
Definition maxMetadataKeyRunes : Z := 64.
Definition maxMetadataValueRunes : Z := 512.
Definition maxEntryBytes : Z := Z.shiftl 1 20.
Definition maxAuthorRunes : Z := 128.

Definition ErrInvalidConfig : GoError := Sentinel "orderworkflow.ErrInvalidConfig" "orderworkflow: invalid config".
Definition ErrInvalidCommand : GoError := Sentinel "orderworkflow.ErrInvalidCommand" "orderworkflow: invalid command".
Definition ErrInvalidEntry : GoError := Sentinel "orderworkflow.ErrInvalidEntry" "orderworkflow: invalid entry".
Definition ErrNotFound : GoError := Sentinel "orderworkflow.ErrNotFound" "orderworkflow: not found".
Definition ErrConflict : GoError := Sentinel "orderworkflow.ErrConflict" "orderworkflow: conflict".

Abbreviation Status := string (only parsing).
Definition StatusPending : Status := "pending".
Definition StatusConfirmed : Status := "confirmed".
Definition StatusCancelled : Status := "cancelled".
Abbreviation Action := string (only parsing).
Definition ActionConfirm : Action := "confirm".
Definition ActionCancel : Action := "cancel".

(** ** Data *)

Abbreviation Metadata := (gmap string string).
Record Order := mkOrder { o_OrderID : string; o_Status : Status; o_Revision : Z; o_UpdatedAt : Z }.
Record CreateCommand := mkCreate { cc_OrderID : string; cc_CommandID : string; cc_Metadata : Metadata }.
Record TransitionCommand := mkTransition {
  tc_OrderID : string; tc_CommandID : string; tc_Action : Action; tc_Reason : string; tc_Metadata : Metadata
}.
Record commandIntent := mkIntent { in_OrderID : string; in_Action : string; in_Reason : string; in_Metadata : Metadata }.
Record eventPayload := mkPayload { ep_Intent : commandIntent; ep_Order : Order }.

#[export] Instance Order_dec : EqDecision Order.
Proof. solve_decision. Defined.

(** ** Validation *)

Definition identifier_char (c : ascii) : bool := ident_head c || bool_decide (c ∈ ["."; "_"; ":"; "-"]%char).
Definition identifierPattern (s : string) : bool :=
  match s with
  | EmptyString => false
  | String c rest =>
      ident_head c && forallb identifier_char (list_ascii_of_string rest) && (String.length rest <=? 127)%nat
  end.
Definition normalizeIdentifier (value : string) : GoError + string :=
  let normalized := TrimSpace value in
  let size := Z.of_nat (String.length normalized) in
  if bool_decide (size = 0) || (maxIdentifierBytes <? size) || negb (identifierPattern normalized)
  then inl (Errorf "%w: identifier" [ErrInvalidCommand] [])
  else inr normalized.

Definition check_metadata_entry (kv : string * string) : option GoError :=
  let '(key, value) := kv in
  if negb (ValidString key) || bool_decide (TrimSpace key = "") || (maxMetadataKeyRunes <? RuneCountInString key)
  then Some (Errorf "%w: metadata key" [ErrInvalidCommand] [])
  else if negb (ValidString value) || (maxMetadataValueRunes <? RuneCountInString value)
  then Some (Errorf "%w: metadata value" [ErrInvalidCommand] [])
  else None.
(** The clone of a map is the map. *)
Definition validateMetadata `{MapRange} (metadata : Metadata) : GoError + Metadata :=
  if maxMetadataEntries <? Z.of_nat (size metadata) then inl (Errorf "%w: metadata count" [ErrInvalidCommand] [])
  else
    match omap check_metadata_entry (range metadata) with
    | err :: _ => inl err
    | [] => inr metadata
    end.

Definition CreateCommand_validate `{MapRange} (command : CreateCommand) : GoError + CreateCommand :=
  try! orderID := normalizeIdentifier (cc_OrderID command) in
  try! commandID := normalizeIdentifier (cc_CommandID command) in
  try! metadata := validateMetadata (cc_Metadata command) in
  inr (mkCreate orderID commandID metadata).
Definition TransitionCommand_validate `{MapRange} (command : TransitionCommand) : GoError + TransitionCommand :=
  try! orderID := normalizeIdentifier (tc_OrderID command) in
  try! commandID := normalizeIdentifier (tc_CommandID command) in
  let reason := TrimSpace (tc_Reason command) in
  if negb (ValidString reason) || (maxReasonRunes <? RuneCountInString reason)
  then inl (Errorf "%w: reason" [ErrInvalidCommand] [])
  else if bool_decide (tc_Action command ≠ ActionConfirm ∧ tc_Action command ≠ ActionCancel)
  then inl (Errorf "%w: action" [ErrInvalidCommand] [])
  else if bool_decide (tc_Action command = ActionConfirm ∧ reason ≠ "")
  then inl (Errorf "%w: confirm reason" [ErrInvalidCommand] [])
  else
    try! metadata := validateMetadata (tc_Metadata command) in
    inr (mkTransition orderID commandID (tc_Action command) reason metadata).

(** Instants are nanoseconds since the zero time, whatever their zone. *)
Definition Microsecond : Z := 1000.
Definition normalizeTimestamp (value : Z) : Z := value / Microsecond * Microsecond.

(** A key that is missing on the right reads as the empty string. *)
Definition metadataEqual (left right : Metadata) : bool :=
  bool_decide (size left = size right)
  && forallb (λ kv, bool_decide (default "" (right !! kv.1) = kv.2)) (map_to_list left).
Definition matchesCreate (intent : commandIntent) (command : CreateCommand) : bool :=
  bool_decide (in_OrderID intent = cc_OrderID command) && bool_decide (in_Action intent = "create")
  && bool_decide (in_Reason intent = "") && metadataEqual (in_Metadata intent) (cc_Metadata command).
Definition matchesTransition (intent : commandIntent) (command : TransitionCommand) : bool :=
  bool_decide (in_OrderID intent = tc_OrderID command) && bool_decide (in_Action intent = tc_Action command)
  && bool_decide (in_Reason intent = tc_Reason command) && metadataEqual (in_Metadata intent) (tc_Metadata command).

Definition transitionStatus (current : Status) (action : Action) : GoError + Status :=
  if bool_decide (current = StatusPending ∧ action = ActionConfirm) then inr StatusConfirmed
  else if bool_decide ((current = StatusPending ∨ current = StatusConfirmed) ∧ action = ActionCancel) then inr StatusCancelled
  else inl (Errorf "%w: cannot %s %s order" [ErrConflict] [FStr action; FStr current]).

Definition command_keys : list string :=
  ["audited_order_workflow_orders_pkey"; "audited_order_workflow_audit_entries_event_id_key";
   "audited_order_workflow_audit_entries_idempotency_key_key"; "audited_order_workflow_outbox_records_event_id_key";
   "audited_order_workflow_outbox_records_idempotency_key_key"].
Definition isUniqueViolation `{PgDriver} (err : GoError) : bool :=
  match errors_As err with
  | Some p => bool_decide (pg_Code p = unique_violation) && bool_decide (pg_ConstraintName p ∈ command_keys)
  | None => false
  end.

(** ** The audit package and encoding/json *)

Record AggregateID := mkAggregate { ag_Type : string; ag_ID : string }.
(** What the program reads of an entry. *)
Class AuditTypes := {
  Entry : Type; DomainEvent : Type;
  entry_Aggregate : Entry → AggregateID; entry_Revision : Entry → Z; entry_EventID : Entry → string;
  entry_IdempotencyKey : Entry → string; entry_EventType : Entry → string; entry_RecordedAt : Entry → Z;
  entry_Payload : Entry → string
}.
Record EventOptions := mkEventOptions {
  eo_EventID : string; eo_EventType : string; eo_AggregateID : AggregateID; eo_Revision : Z; eo_OccurredAt : Z;
  eo_RecordedAt : Z; eo_IdempotencyKey : string; eo_Metadata : Metadata; eo_Payload : string
}.
Class AuditLib `{AuditTypes} := {
  InitialRevision : Z;
  Revision_Next : Z → GoError + Z;
  NewAggregateID : string → string → GoError + AggregateID;
  NewDomainEvent : EventOptions → GoError + DomainEvent;
  NewEntry : string → DomainEvent → GoError + Entry;
  entry_Validate : Entry → option GoError;
  entry_Marshal : Entry → GoError + string;
  DecodeEntryJSON : string → GoError + Entry;
  payload_Marshal : eventPayload → GoError + string;
  payload_Unmarshal : string → GoError + eventPayload
}.

Section Entries.
Context `{AT : AuditTypes} `{AL : !AuditLib}.

Definition buildEntry (author : string) (now : Z) (commandID eventType : string) (order : Order) (intent : commandIntent)
    : GoError + Entry :=
  try! aggregate := wrapping (λ err, Errorf "%w: aggregate: %w" [ErrInvalidEntry; err] [])
                      (NewAggregateID orderAggregateType (o_OrderID order)) in
  try! payload := wrapping (λ err, Errorf "%w: payload: %w" [ErrInvalidEntry; err] []) (payload_Marshal (mkPayload intent order)) in
  try! event := wrapping (λ err, Errorf "%w: event: %w" [ErrInvalidEntry; err] [])
                  (NewDomainEvent (mkEventOptions commandID eventType aggregate (o_Revision order) now now commandID
                                     (in_Metadata intent) payload)) in
  wrapping (λ err, Errorf "%w: entry: %w" [ErrInvalidEntry; err] []) (NewEntry author event).
Definition create_intent (command : CreateCommand) : commandIntent :=
  mkIntent (cc_OrderID command) "create" "" (cc_Metadata command).
Definition buildCreateEntry (author : string) (now : Z) (command : CreateCommand) (order : Order) : GoError + Entry :=
  buildEntry author now (cc_CommandID command) "order.created" order (create_intent command).
Definition transition_intent (command : TransitionCommand) : commandIntent :=
  mkIntent (tc_OrderID command) (tc_Action command) (tc_Reason command) (tc_Metadata command).
Definition buildTransitionEntry (author : string) (now : Z) (command : TransitionCommand) (order : Order) : GoError + Entry :=
  buildEntry author now (tc_CommandID command) ("order." ++ o_Status order)%string order (transition_intent command).
Definition decodeEventPayload (entry : Entry) : GoError + eventPayload :=
  wrapping (λ err, Errorf "%w: decode payload: %w" [ErrInvalidEntry; err] []) (payload_Unmarshal (entry_Payload entry)).

Definition resolveCreate (entry : Entry) (command : CreateCommand) : GoError + Order :=
  try! payload := decodeEventPayload entry in
  if negb (matchesCreate (ep_Intent payload) command)
  then inl (Errorf "%w: command id reused with different create intent" [ErrConflict] [])
  else inr (ep_Order payload).
Definition resolveTransition (entry : Entry) (command : TransitionCommand) : GoError + Order :=
  try! payload := decodeEventPayload entry in
  if negb (matchesTransition (ep_Intent payload) command)
  then inl (Errorf "%w: command id reused with different transition intent" [ErrConflict] [])
  else inr (ep_Order payload).
End Entries.

(** ** The tables *)

Record HistoryRow := mkHistoryRow {
  hr_aggregate_type : string; hr_aggregate_id : string; hr_revision : Z; hr_event_id : string;
  hr_idempotency_key : string; hr_event_type : string; hr_recorded_at : option Z; hr_entry_json : string
}.
(** What PostgreSQL stores of a JSON text, if it is one. *)
Class Jsonb := { jsonb : string → option string }.

Section Tables.
Context `{AT : AuditTypes}.

(** The orders by their primary key, the history rows in the order of their commits, and the entries enqueued in
    the outbox, delivered or not. *)
Record Tables := mkTables { t_orders : gmap string Order; t_history : list HistoryRow; t_outbox : list Entry }.
Inductive Write :=
  | InsertOrder (row : Order)
  | UpdateOrder (old new : Order)
  | InsertHistory (row : HistoryRow)
  | InsertOutbox (entry : Entry).
Definition apply (t : Tables) (w : Write) : Tables :=
  match w with
  | InsertOrder row | UpdateOrder _ row => mkTables (<[o_OrderID row := row]> (t_orders t)) (t_history t) (t_outbox t)
  | InsertHistory row => mkTables (t_orders t) (t_history t ++ [row]) (t_outbox t)
  | InsertOutbox entry => mkTables (t_orders t) (t_history t) (t_outbox t ++ [entry])
  end.

Definition same_command (id : string) (row : HistoryRow) : bool :=
  bool_decide (hr_event_id row = id) || bool_decide (hr_idempotency_key row = id).
Definition same_revision (row row' : HistoryRow) : bool :=
  bool_decide (hr_aggregate_type row = hr_aggregate_type row') && bool_decide (hr_aggregate_id row = hr_aggregate_id row')
  && bool_decide (hr_revision row = hr_revision row').
(** What the primary keys and unique constraints refuse. *)
Definition order_keys (row : Order) (t : Tables) : list PgError :=
  unless_key (bool_decide (is_Some (t_orders t !! o_OrderID row))) "audited_order_workflow_orders_pkey".
Definition history_keys (row : HistoryRow) (t : Tables) : list PgError :=
  unless_key (existsb (same_revision row) (t_history t)) "audited_order_workflow_audit_entries_pkey"
  ++ unless_key (existsb (λ r, bool_decide (hr_event_id r = hr_event_id row)) (t_history t))
       "audited_order_workflow_audit_entries_event_id_key"
  ++ unless_key (existsb (λ r, bool_decide (hr_idempotency_key r = hr_idempotency_key row)) (t_history t))
       "audited_order_workflow_audit_entries_idempotency_key_key".
Definition outbox_keys (entry : Entry) (t : Tables) : list PgError :=
  unless_key (existsb (λ e, bool_decide (entry_EventID e = entry_EventID entry)) (t_outbox t))
    "audited_order_workflow_outbox_records_event_id_key"
  ++ unless_key (existsb (λ e, bool_decide (entry_IdempotencyKey e = entry_IdempotencyKey entry)) (t_outbox t))
       "audited_order_workflow_outbox_records_idempotency_key_key".
#[export] Instance tables_pending : Pending Tables Write := {|
  apply_write := apply;
  pending_ok w t :=
    match w with
    | InsertOrder row => order_keys row t = []
    | UpdateOrder old row => t_orders t !! o_OrderID row = Some old
    | InsertHistory row => history_keys row t = []
    | InsertOutbox entry => outbox_keys entry t = []
    end
|}.

(** ** The statements *)

Definition fits (size : Z) (value : string) : bool := RuneCountInString value <=? size.
Definition varchar (size : Z) (value : string) : list PgError := unless_check (fits size value) string_truncation "".
(** The column types and checks of a row of the orders table. *)
Definition order_checks (row : Order) : list PgError :=
  varchar 128 (o_OrderID row) ++ varchar 16 (o_Status row)
  ++ unless_check (bool_decide (o_Status row ∈ ["pending"; "confirmed"; "cancelled"])) check_violation
       "audited_order_workflow_orders_status_check"
  ++ unless_check (1 <=? o_Revision row) check_violation "audited_order_workflow_orders_revision_check".
Definition insert_order (row : Order) : Statement Tables Write unit :=
  write_row (λ t, order_checks row ++ order_keys row t) (InsertOrder row).
(** [select ... where order_id = $1 for update] *)
Definition order_for_update (orderID : string) : Statement Tables Write (option Order) :=
  select (λ t, (λ row, mkOrder orderID (o_Status row) (o_Revision row) (o_UpdatedAt row)) <$> t_orders t !! orderID).
(** [update ... where order_id = $4 and revision = $5], with the number of its rows. *)
Definition update_order (row : Order) (revision : Z) : Statement Tables Write Z := λ t,
  match t_orders t !! o_OrderID row with
  | Some old =>
      if bool_decide (o_Revision old = revision)
      then match order_checks row with [] => inr (1, [UpdateOrder old row]) | errs => inl errs end
      else inr (0, [])
  | None => inr (0, [])
  end.
Definition history_checks (row : HistoryRow) : list PgError :=
  varchar 128 (hr_aggregate_type row) ++ varchar 128 (hr_aggregate_id row) ++ varchar 128 (hr_event_id row)
  ++ varchar 128 (hr_idempotency_key row) ++ varchar 128 (hr_event_type row)
  ++ unless_check (1 <=? hr_revision row) check_violation "audited_order_workflow_audit_entries_revision_check".
Definition invalid_text : string := "22P02".
Definition insert_history `{Jsonb} (row : string → HistoryRow) (encoded : string) : Statement Tables Write unit :=
  match jsonb encoded with
  | None => λ _, inl [mkPgError invalid_text ""]
  | Some stored => write_row (λ t, history_checks (row stored) ++ history_keys (row stored) t) (InsertHistory (row stored))
  end.
(** [select ... where event_id = $1 or idempotency_key = $1 order by position limit 1]: of the rows a command
    writes at most one is found, whatever their positions. *)
Definition history_by_command (commandID : string) : Statement Tables Write (option HistoryRow) :=
  select (λ t, List.find (same_command commandID) (t_history t)).
End Tables.

(** ** The history store *)

Record HistoryStore := mkHistoryStore { hs_db : bool }.
Definition NewHistoryStore (db : bool) : GoError + HistoryStore :=
  if negb db then inl ErrInvalidConfig else inr (mkHistoryStore db).
(** [if s == nil || s.db == nil || db == nil { return ErrInvalidConfig }], giving the session. *)
Definition store_session {S A} (s : Ptr HistoryStore) (db : Ptr A) : GoM S A :=
  match s, db with
  | Some store, Some session => if hs_db store then ret session else throw ErrInvalidConfig
  | _, _ => throw ErrInvalidConfig
  end.

Section Store.
Context `{AT : AuditTypes} `{AL : !AuditLib} `{JB : Jsonb}.

Definition history_row (entry : Entry) (stored : string) : HistoryRow :=
  mkHistoryRow (ag_Type (entry_Aggregate entry)) (ag_ID (entry_Aggregate entry)) (entry_Revision entry) (entry_EventID entry)
    (entry_IdempotencyKey entry) (entry_EventType entry) (Some (entry_RecordedAt entry)) stored.
Definition Insert {S} (s : Ptr HistoryStore) (db : Ptr (Statement Tables Write unit → GoM S unit)) (entry : Entry) : GoM S unit :=
  let! exec := store_session s db in
  do! ctxErr;
  do! fail_if (option_map (λ err, Errorf "%w: validate: %w" [ErrInvalidEntry; err] []) (entry_Validate entry));
  let! encoded := or_fail (λ err, Errorf "%w: encode: %w" [ErrInvalidEntry; err] []) (entry_Marshal entry) in
  if maxEntryBytes <? Z.of_nat (String.length encoded)
  then throw (Errorf "%w: encoded entry exceeds %d bytes" [ErrInvalidEntry] [FInt maxEntryBytes])
  else wrap_errors (λ err, Errorf "insert history: %w" [err] []) (exec (insert_history (history_row entry) encoded)).

(** The row as the driver scans it, with a time that may be null. *)
Definition check_scalars (row : HistoryRow) : bool :=
  (hr_revision row <=? 0) || bool_decide (hr_recorded_at row = None) || bool_decide (hr_entry_json row = "")
  || (maxEntryBytes <? Z.of_nat (String.length (hr_entry_json row))).
Definition scalars_match (row : HistoryRow) (entry : Entry) : bool :=
  bool_decide (ag_Type (entry_Aggregate entry) = hr_aggregate_type row)
  && bool_decide (ag_ID (entry_Aggregate entry) = hr_aggregate_id row)
  && bool_decide (entry_Revision entry = hr_revision row) && bool_decide (entry_EventID entry = hr_event_id row)
  && bool_decide (entry_IdempotencyKey entry = hr_idempotency_key row) && bool_decide (entry_EventType entry = hr_event_type row)
  && bool_decide (Some (entry_RecordedAt entry) = hr_recorded_at row).
Definition scanHistoryRow (row : HistoryRow) : GoError + Entry :=
  if check_scalars row then inl (Errorf "%w: invalid scalar history" [ErrInvalidEntry] [])
  else
    try! entry := wrapping (λ err, Errorf "%w: decode: %w" [ErrInvalidEntry; err] []) (DecodeEntryJSON (hr_entry_json row)) in
    if negb (scalars_match row entry) then inl (Errorf "%w: scalar json mismatch" [ErrInvalidEntry] [])
    else inr entry.
Definition FindByCommandID {S} (s : Ptr HistoryStore)
    (db : Ptr (Statement Tables Write (option HistoryRow) → GoM S (option HistoryRow))) (commandID : string)
    : GoM S (option Entry) :=
  let! query := store_session s db in
  do! ctxErr;
  settle (let! row := one_row (query (history_by_command commandID)) in or_fail id (scanHistoryRow row))
    (λ err, if errors_Is err "sql.ErrNoRows" then ret None else throw err)
    (λ entry, ret (Some entry)).
End Store.

(** ** The service *)

Record Config := mkConfig { cf_Author : string; cf_Now : bool }.
(** Which of its collaborators a service has. *)
Record Service := mkService {
  sv_db : bool; sv_history : Ptr HistoryStore; sv_outbox : bool; sv_author : string; sv_now : bool; sv_runTx : bool
}.
(** A clock that is not configured is [time.Now]. *)
Definition NewService (db : bool) (history : Ptr HistoryStore) (outbox : bool) (config : Config) : GoError + Service :=
  let author := TrimSpace (cf_Author config) in
  if negb db || bool_decide (history = None) || negb outbox || bool_decide (author = "")
     || negb (ValidString author) || (maxAuthorRunes <? RuneCountInString author)
  then inl ErrInvalidConfig
  else inr (mkService db history outbox author true true).
Definition ready (s : Service) : bool :=
  sv_db s && negb (bool_decide (sv_history s = None)) && sv_outbox s && sv_now s && sv_runTx s.
Definition Service_validate (s : Ptr Service) : GoError + Service :=
  match s with Some s => if ready s then inr s else inl ErrInvalidConfig | None => inl ErrInvalidConfig end.

(** The outbox store: it writes in the caller's transaction. *)
Class OutboxStore `{AuditTypes} (E : Type) := { Enqueue : Entry → GoM (Tx Tables Write E) unit }.

Section Commands.
Context `{MR : MapRange} `{PD : PgDriver} `{AT : AuditTypes} `{AL : !AuditLib} `{JB : Jsonb} {E : Type}.
Context `{SE : !SqlEngine Tables Write E} `{OS : !OutboxStore E}.

Definition TxM (A : Type) : Type := GoM (Tx Tables Write E) A.
Definition DbM (A : Type) : Type := GoM (World Tables E) A.

(** The entry of the command, written to the history and to the outbox. *)
Definition record_entry (s : Service) (built : GoError + Entry) : TxM unit :=
  let! entry := or_fail id built in
  do! Insert (sv_history s) (Some on_tx) entry;
  wrap_errors (λ err, Errorf "enqueue outbox: %w" [err] []) (Enqueue entry).
(** Either there is an entry of the command, and its order is the result, or the command goes on. *)
Definition replay_or (s : Service) (commandID : string) (resolve : Entry → GoError + Order) (goes_on : TxM (Order * bool))
    : TxM (Order * bool) :=
  let! existing := FindByCommandID (sv_history s) (Some on_tx) commandID in
  match existing with
  | Some entry => let! resolved := or_fail id (resolve entry) in ret (resolved, true)
  | None => goes_on
  end.

Definition create_in_tx (s : Service) (validated : CreateCommand) : TxM (Order * bool) :=
  replay_or s (cc_CommandID validated) (λ entry, resolveCreate entry validated)
    (let! time := now_in_tx in
     let now := normalizeTimestamp time in
     let result := mkOrder (cc_OrderID validated) StatusPending InitialRevision now in
     do! wrap_errors (λ err, Errorf "insert order: %w" [err] []) (on_tx (insert_order result));
     do! record_entry s (buildCreateEntry (sv_author s) now validated result);
     ret (result, false)).

Definition loadOrderForUpdate (orderID : string) : TxM Order :=
  let! row := one_row (on_tx (order_for_update orderID)) in
  if o_Revision row <? 1 then throw (Errorf "%w: invalid stored revision" [ErrInvalidEntry] [])
  else ret (mkOrder (o_OrderID row) (o_Status row) (o_Revision row) (normalizeTimestamp (o_UpdatedAt row))).
Definition transition_order (s : Service) (validated : TransitionCommand) (current : Order) : TxM (Order * bool) :=
  let! nextStatus := or_fail id (transitionStatus (o_Status current) (tc_Action validated)) in
  let! nextRevision := or_fail (λ err, Errorf "%w: next revision: %w" [ErrConflict; err] []) (Revision_Next (o_Revision current)) in
  let! time := now_in_tx in
  let now := normalizeTimestamp time in
  let result := mkOrder (o_OrderID current) nextStatus nextRevision now in
  let! update := wrap_errors (λ err, Errorf "update order: %w" [err] []) (on_tx (update_order result (o_Revision current))) in
  let! updated := or_fail (λ err, Errorf "updated rows: %w" [err] []) (RowsAffected update) in
  if bool_decide (updated ≠ 1) then throw (Errorf "%w: stale order revision" [ErrConflict] [])
  else
    do! record_entry s (buildTransitionEntry (sv_author s) now validated result);
    ret (result, false).
Definition transition_in_tx (s : Service) (validated : TransitionCommand) : TxM (Order * bool) :=
  let resolve := λ entry, resolveTransition entry validated in
  settle (loadOrderForUpdate (tc_OrderID validated))
    (λ loadErr,
       if errors_Is loadErr "sql.ErrNoRows"
       then replay_or s (tc_CommandID validated) resolve
              (throw (Errorf "%w: order %s" [ErrNotFound] [FStr (tc_OrderID validated)]))
       else throw loadErr)
    (λ current, replay_or s (tc_CommandID validated) resolve (transition_order s validated current)).

(** The entry of the command as it is committed by now. *)
Definition resolveByCommandID (s : Service) (commandID : string) (resolve : Entry → GoError + Order) : DbM (option Order) :=
  let! entry := FindByCommandID (sv_history s) (Some on_db) commandID in
  match entry with
  | None => ret None
  | Some entry => let! order := or_fail id (resolve entry) in ret (Some order)
  end.
Definition resolveCreateByCommandID (s : Service) (command : CreateCommand) : DbM (option Order) :=
  resolveByCommandID s (cc_CommandID command) (λ entry, resolveCreate entry command).
Definition resolveTransitionByCommandID (s : Service) (command : TransitionCommand) : DbM (option Order) :=
  resolveByCommandID s (tc_CommandID command) (λ entry, resolveTransition entry command).

(** What both commands make of a transaction that failed. *)
Definition commit_or_resolve (tx : TxM (Order * bool)) (resolve : DbM (option Order)) (conflict : GoError → GoError)
    : DbM (Order * bool) :=
  settle (WithTx tx)
    (λ err,
       if negb (isUniqueViolation err) then throw err
       else
         settle resolve (λ resolveErr, throw (Join [err; resolveErr])) (λ found,
           match found with Some resolved => ret (resolved, true) | None => throw (conflict err) end))
    ret.
Definition Create (s : Ptr Service) (command : CreateCommand) : DbM (Order * bool) :=
  let! s := or_fail id (Service_validate s) in
  do! ctxErr;
  let! validated := or_fail id (CreateCommand_validate command) in
  commit_or_resolve (create_in_tx s validated) (resolveCreateByCommandID s validated)
    (λ err, Errorf "%w: create order or command already exists: %w" [ErrConflict; err] []).
Definition Transition (s : Ptr Service) (command : TransitionCommand) : DbM (Order * bool) :=
  let! s := or_fail id (Service_validate s) in
  do! ctxErr;
  let! validated := or_fail id (TransitionCommand_validate command) in
  commit_or_resolve (transition_in_tx s validated) (resolveTransitionByCommandID s validated)
    (λ err, Errorf "%w: transition command already exists: %w" [ErrConflict; err] []).
End Commands.
