(* ===== verification/OrderWorkflowProofs.v ===== *)
(** What the audited order workflow promises when any number of clients run its commands on the same database:
    a command commits its order, its audit entry and its outbox record together or not at all, and once; the
    history explains the orders and the outbox repeats the history; a retry answers what was committed. *)
From Stdlib Require Import Ascii String.
From S2P Require Import Prelude GraphLib JwtLib SqlTx OrderWorkflow.

(** ** What the parameters promise *)

Section Promises.
Context `{AT : AuditTypes} `{AL : !AuditLib} `{JB : Jsonb}.

Definition valid_metadata (metadata : Metadata) : Prop := map_Forall (λ k v, ValidString k = true ∧ ValidString v = true) metadata.
Record utf8_payload (p : eventPayload) : Prop := {
  u_ids : ValidString (in_OrderID (ep_Intent p)) = true ∧ ValidString (o_OrderID (ep_Order p)) = true;
  u_words : ValidString (in_Action (ep_Intent p)) = true ∧ ValidString (o_Status (ep_Order p)) = true;
  u_reason : ValidString (in_Reason (ep_Intent p)) = true;
  u_metadata : valid_metadata (in_Metadata (ep_Intent p))
}.
Definition same_scalars (e e' : Entry) : Prop :=
  entry_Aggregate e' = entry_Aggregate e ∧ entry_Revision e' = entry_Revision e ∧ entry_EventID e' = entry_EventID e ∧
  entry_IdempotencyKey e' = entry_IdempotencyKey e ∧ entry_EventType e' = entry_EventType e ∧
  entry_RecordedAt e' = entry_RecordedAt e.
(** Revisions count from one; an entry keeps the options it is built of; what is stored of an entry decodes to
    it, up to the spelling of its payload; a payload of valid UTF-8 survives JSON. *)
Class AuditLaws : Prop := {
  initial_revision : InitialRevision = 1;
  revision_next r r' : Revision_Next r = inr r' → r' = r + 1;
  aggregate_built t id a : NewAggregateID t id = inr a → a = mkAggregate t id;
  entry_built eo author event e :
    NewDomainEvent eo = inr event → NewEntry author event = inr e →
    entry_Aggregate e = eo_AggregateID eo ∧ entry_Revision e = eo_Revision eo ∧ entry_EventID e = eo_EventID eo ∧
    entry_IdempotencyKey e = eo_IdempotencyKey eo ∧ entry_EventType e = eo_EventType eo ∧
    entry_RecordedAt e = eo_RecordedAt eo ∧ entry_Payload e = eo_Payload eo;
  stored_entry e text stored :
    entry_Marshal e = inr text → jsonb text = Some stored →
    ∃ e', DecodeEntryJSON stored = inr e' ∧ same_scalars e e' ∧
      ∀ p, payload_Unmarshal (entry_Payload e) = inr p → payload_Unmarshal (entry_Payload e') = inr p;
  payload_survives p text : utf8_payload p → payload_Marshal p = inr text → payload_Unmarshal text = inr p
}.

(** ** The specification: one command, committed *)

Definition row_payload (row : HistoryRow) : option eventPayload :=
  match DecodeEntryJSON (hr_entry_json row) with
  | inr e => match decodeEventPayload e with inr p => Some p | inl _ => None end
  | inl _ => None
  end.
(** The row of a command: its identity, its order's revision, and the payload it decodes to. *)
Record recorded (id : string) (p : eventPayload) (row : HistoryRow) : Prop := {
  rc_id : hr_event_id row = id ∧ hr_idempotency_key row = id;
  rc_aggregate : hr_aggregate_type row = orderAggregateType ∧ hr_aggregate_id row = o_OrderID (ep_Order p);
  rc_revision : hr_revision row = o_Revision (ep_Order p);
  rc_payload : row_payload row = Some p
}.
(** The entry in the outbox is the one of the history row. *)
Record mirrors (row : HistoryRow) (e : Entry) : Prop := {
  mi_id : entry_EventID e = hr_event_id row ∧ entry_IdempotencyKey e = hr_idempotency_key row;
  mi_aggregate : entry_Aggregate e = mkAggregate (hr_aggregate_type row) (hr_aggregate_id row);
  mi_revision : entry_Revision e = hr_revision row;
  mi_payload : ∀ p, row_payload row = Some p → decodeEventPayload e = inr p
}.
(** The moves of an order: it is created pending at revision one, and each transition takes the next revision. *)
Definition legal (intent : commandIntent) (old : option Order) (new : Order) : bool :=
  bool_decide (in_OrderID intent = o_OrderID new) &&
  match old with
  | None =>
      bool_decide (in_Action intent = "create") && bool_decide (o_Status new = StatusPending) && (o_Revision new =? 1)
  | Some o =>
      match transitionStatus (o_Status o) (in_Action intent) with
      | inr status => bool_decide (o_Status new = status) && (o_Revision new =? o_Revision o + 1)
      | inl _ => false
      end
  end.
Record commits (id : string) (p : eventPayload) (t t' : Tables) : Prop := {
  cm_legal : legal (ep_Intent p) (t_orders t !! o_OrderID (ep_Order p)) (ep_Order p) = true;
  cm_fresh : Forall (λ row, same_command id row = false) (t_history t);
  cm_tables : ∃ row e, recorded id p row ∧ mirrors row e ∧
    t' = mkTables (<[o_OrderID (ep_Order p) := ep_Order p]> (t_orders t)) (t_history t ++ [row]) (t_outbox t ++ [e])
}.
Definition served (t t' : Tables) : Prop := ∃ id p, commits id p t t'.
(** What the clients of the database may commit: commands. *)
Definition others : Tables → Tables → Prop := rtc served.
#[export] Instance others_preorder : PreOrder others.
Proof. unfold others. apply _. Qed.
Definition workflow_sentinel (name : string) : Prop :=
  name = "sql.ErrNoRows" ∨ starts_with "orderworkflow." name = true.

(** An entry is enqueued as one record of the caller's transaction. *)
Definition enqueued (entry : Entry) : Statement Tables Write unit := write_row (outbox_keys entry) (InsertOutbox entry).
Class OutboxLaws `{PgDriver} {E : Type} `{!OutboxStore E} : Prop := {
  enqueue_answers entry c x o c' x' :
    Enqueue entry c x = (o, c', x') → answers others workflow_sentinel (enqueued entry) x o x'
}.
End Promises.

(** ** What is committed stays *)

Section Committed.
Context `{AT : AuditTypes} `{AL : !AuditLib}.

Lemma served_history t t' : others t t' → ∃ rows, t_history t' = t_history t ++ rows.
Proof.
  induction 1 as [t|t t1 t2 (id & p & [_ _ (row & e & _ & _ & ->)]) _ [rows IH]]; [exists []; by rewrite app_nil_r|].
  exists (row :: rows). rewrite IH. cbn. by rewrite <- app_assoc.
Qed.
Lemma served_row t t' id o :
  others t t' → t_orders t !! id = Some o → ∃ o', t_orders t' !! id = Some o' ∧ (o' = o ∨ o_Revision o < o_Revision o').
Proof.
  intros H. revert o. induction H as [t|t t1 t2 (cmd & p & [Hl _ (row & e & _ & _ & ->)]) _ IH]; intros o Ho; [eauto|].
  destruct (decide (id = o_OrderID (ep_Order p))) as [->|Hne].
  - rewrite Ho in Hl. unfold legal in Hl. apply andb_true_iff in Hl as [_ Hl].
    destruct (transitionStatus _ _) as [|st]; [done|]. apply andb_true_iff in Hl as [_ Hr%Z.eqb_eq].
    destruct (IH (ep_Order p)) as (o' & Ho' & Hc); [cbn; by rewrite lookup_insert_eq|].
    exists o'. split; [done|]. right. destruct Hc as [->|]; lia.
  - apply IH. cbn. by rewrite lookup_insert_ne.
Qed.
End Committed.

(** ** The history explains the orders *)

Section Explained.
Context `{AT : AuditTypes} `{AL : !AuditLib}.

Definition log (t : Tables) : list eventPayload := omap row_payload (t_history t).
(** The orders after a log, if each of its events was a legal move of its order. *)
Fixpoint replay_log (ps : list eventPayload) (orders : gmap string Order) : option (gmap string Order) :=
  match ps with
  | [] => Some orders
  | p :: ps =>
      let id := o_OrderID (ep_Order p) in
      if legal (ep_Intent p) (orders !! id) (ep_Order p) then replay_log ps (<[id := ep_Order p]> orders) else None
  end.
Definition events_of (id : string) (ps : list eventPayload) : list eventPayload :=
  filter (λ p, o_OrderID (ep_Order p) = id) ps.
(** An order is what its last event made it, and its revision counts its events. *)
Definition order_explained (ps : list eventPayload) (id : string) (order : option Order) : Prop :=
  match order with
  | None => events_of id ps = []
  | Some o => ep_Order <$> last (events_of id ps) = Some o ∧ o_Revision o = len (events_of id ps)
  end.
(** The audit rows of an order. *)
Definition is_row_of (id : string) (row : HistoryRow) : Prop := hr_aggregate_type row = orderAggregateType ∧ hr_aggregate_id row = id.
#[export] Instance is_row_of_dec id row : Decision (is_row_of id row).
Proof. unfold is_row_of. apply _. Defined.
Definition rows_of (id : string) (t : Tables) : list HistoryRow := filter (is_row_of id) (t_history t).
Record explained (t : Tables) : Prop := {
  ex_replay : replay_log (log t) ∅ = Some (t_orders t);
  ex_orders : ∀ id, order_explained (log t) id (t_orders t !! id);
  ex_rows : Forall (λ row, ∃ p, recorded (hr_event_id row) p row) (t_history t);
  ex_once : NoDup (map hr_event_id (t_history t));
  ex_outbox : Forall2 mirrors (t_history t) (t_outbox t);
  ex_revisions : ∀ id, map hr_revision (rows_of id t) = seqZ 1 (len (rows_of id t))
}.

Lemma replay_log_snoc ps p orders orders' :
  replay_log ps orders = Some orders' → legal (ep_Intent p) (orders' !! o_OrderID (ep_Order p)) (ep_Order p) = true →
  replay_log (ps ++ [p]) orders = Some (<[o_OrderID (ep_Order p) := ep_Order p]> orders').
Proof.
  revert orders. induction ps as [|q ps IH]; intros orders; cbn; [by intros [= ->] ->|]. case_match; [apply IH|done].
Qed.
Lemma events_snoc id ps p :
  events_of id (ps ++ [p]) = events_of id ps ++ (if decide (o_OrderID (ep_Order p) = id) then [p] else []).
Proof. unfold events_of. rewrite filter_app. cbn. by destruct (decide _). Qed.
Lemma explained_event ps p id (orders : gmap string Order) :
  (∀ id, order_explained ps id (orders !! id)) → legal (ep_Intent p) (orders !! o_OrderID (ep_Order p)) (ep_Order p) = true →
  order_explained (ps ++ [p]) id (<[o_OrderID (ep_Order p) := ep_Order p]> orders !! id).
Proof.
  intros Ho Hl. unfold order_explained. rewrite events_snoc. destruct (decide _) as [<-|Hne].
  - rewrite lookup_insert_eq, last_snoc. split; [done|]. unfold len. rewrite length_app. cbn.
    specialize (Ho (o_OrderID (ep_Order p))). unfold legal in Hl. apply andb_true_iff in Hl as [_ Hl].
    destruct (orders !! _) as [o|]; cbn in Ho.
    + destruct (transitionStatus _ _); [done|]. apply andb_true_iff in Hl as [_ Hr%Z.eqb_eq]. destruct Ho as [_ Ho]. unfold len in Ho. lia.
    + rewrite Ho. cbn. apply andb_true_iff in Hl as [_ Hr%Z.eqb_eq]. lia.
  - rewrite lookup_insert_ne by done. rewrite app_nil_r. apply Ho.
Qed.
Lemma same_command_id id row : same_command id row = false ↔ hr_event_id row ≠ id ∧ hr_idempotency_key row ≠ id.
Proof. unfold same_command. rewrite orb_false_iff, !bool_decide_eq_false. done. Qed.

(** Rows and events of an order correspond. *)
Lemma rows_events id rows :
  Forall (λ row, ∃ p, recorded (hr_event_id row) p row) rows →
  length (filter (is_row_of id) rows) = length (events_of id (omap row_payload rows)).
Proof.
  induction 1 as [|row rows (p & [_ [Ht Ha] _ Hp]) _ IH]; [done|]. cbn [omap list_omap]. rewrite Hp. unfold events_of in *.
  destruct (decide (o_OrderID (ep_Order p) = id)) as [E|E].
  - rewrite !filter_cons_True; [cbn; by rewrite IH|done|]. unfold is_row_of. by rewrite Ht, Ha.
  - rewrite !filter_cons_False; [done|done|]. unfold is_row_of. rewrite Ha. naive_solver.
Qed.
Lemma legal_revision t p id :
  explained t → legal (ep_Intent p) (t_orders t !! id) (ep_Order p) = true → o_OrderID (ep_Order p) = id →
  o_Revision (ep_Order p) = len (rows_of id t) + 1.
Proof.
  intros [_ Ho Hrows _ _ _] Hl <-. specialize (Ho (o_OrderID (ep_Order p))). unfold len, rows_of.
  rewrite (rows_events _ _ Hrows). fold (log t). unfold legal in Hl. apply andb_true_iff in Hl as [_ Hl].
  destruct (t_orders t !! _) as [o|]; cbn in Ho.
  - destruct (transitionStatus _ _); [done|]. apply andb_true_iff in Hl as [_ Hr%Z.eqb_eq]. destruct Ho as [_ Ho]. unfold len in Ho. lia.
  - rewrite Ho. apply andb_true_iff in Hl as [_ Hr%Z.eqb_eq]. done.
Qed.
Lemma commits_explained id p t t' : commits id p t t' → explained t → explained t'.
Proof.
  intros [Hl Hf (row & e & Hr & Hm & ->)] He. pose proof (legal_revision _ _ _ He Hl eq_refl) as Hrev. destruct He as [Hre Ho Hrows Hid Hout Hnum].
  assert (log (mkTables (<[o_OrderID (ep_Order p) := ep_Order p]> (t_orders t)) (t_history t ++ [row]) (t_outbox t ++ [e]))
          = log t ++ [p]) as El.
  { unfold log. cbn. rewrite omap_app. f_equal. cbn. by rewrite (rc_payload _ _ _ Hr). }
  destruct (rc_id _ _ _ Hr) as [Hi _].
  split; rewrite ?El; cbn [t_orders t_history t_outbox].
  - by apply replay_log_snoc.
  - intros id'. by apply explained_event.
  - apply Forall_app. split; [done|]. constructor; [|done]. exists p. by rewrite Hi.
  - rewrite map_app. cbn. apply NoDup_app. split_and!; [done| |apply NoDup_singleton].
    intros x (r & -> & Hin)%list_elem_of_fmap Hx%list_elem_of_singleton.
    rewrite Forall_forall in Hf. apply Hf, same_command_id in Hin as [Hne _]. congruence.
  - by apply Forall2_app; [|constructor].
  - intros id'. unfold rows_of. cbn [t_history]. rewrite filter_app. destruct (rc_aggregate _ _ _ Hr) as [Ht Ha].
    destruct (decide (o_OrderID (ep_Order p) = id')) as [<-|Hne].
    + rewrite (filter_cons_True _ row) by done. unfold len. rewrite map_app, length_app, Nat.add_1_r, seqZ_S.
      f_equal; [apply Hnum|]. cbn. f_equal. rewrite (rc_revision _ _ _ Hr), Hrev. unfold len, rows_of. lia.
    + rewrite (filter_cons_False _ row) by (intros [_ E]; congruence). rewrite app_nil_r. apply Hnum.
Qed.
Lemma others_explained t t' : others t t' → explained t → explained t'.
Proof. induction 1 as [|? ? ? (? & ? & ?)]; eauto using commits_explained. Qed.
Lemma explained_empty : explained (mkTables ∅ [] []).
Proof. split; cbn; try constructor. Qed.

(** A command has one row, and its row is the one a lookup finds. *)
Lemma explained_row t row row' id :
  explained t → row ∈ t_history t → row' ∈ t_history t → same_command id row = true → same_command id row' = true → row = row'.
Proof.
  intros [_ _ Hrows Hid _ _] H1 H2 S1 S2. rewrite Forall_forall in Hrows.
  assert (∀ r, r ∈ t_history t → same_command id r = true → hr_event_id r = id) as Hs.
  { intros r Hin Hs. destruct (Hrows r Hin) as (p & [[_ Hk] _ _ _]). unfold same_command in Hs. rewrite Hk in Hs.
    apply orb_true_iff in Hs as [Hs|Hs]; by apply bool_decide_eq_true in Hs. }
  apply list_elem_of_lookup in H1 as [i Hi]. apply list_elem_of_lookup in H2 as [j Hj].
  assert (i = j) as ->; [|congruence]. apply (NoDup_lookup _ i j id Hid).
  - rewrite list_lookup_fmap, Hi. cbn. f_equal. apply Hs; [by eapply list_elem_of_lookup_2|done].
  - rewrite list_lookup_fmap, Hj. cbn. f_equal. apply Hs; [by eapply list_elem_of_lookup_2|done].
Qed.
End Explained.

(** ** Commands *)

Section Entries.
Context `{MR : MapRange} `{AT : AuditTypes} `{AL : !AuditLib} `{JB : Jsonb} `{LW : !AuditLaws}.

Lemma omap_nil {A B} (f : A → option B) l : omap f l = [] → Forall (λ x, f x = None) l.
Proof. induction l as [|x l IH]; cbn; [done|]. destruct (f x) eqn:E; [done|]. constructor; auto. Qed.
Lemma valid_identifier raw s : normalizeIdentifier raw = inr s → ValidString s = true.
Proof.
  unfold normalizeIdentifier. destruct (_ || _) eqn:E; [done|]. intros [= <-]. apply orb_false_iff in E as [_ E].
  apply negb_false_iff in E. apply ascii_valid. unfold identifierPattern in E. destruct (TrimSpace raw) as [|c rest]; [done|].
  rewrite !andb_true_iff in E. destruct E as [[Hc Hr] _]. unfold ascii_only. cbn [list_ascii_of_string forallb].
  assert (∀ c, identifier_char c = true → is_ascii c = true) as Ha.
  { clear. intros [[] [] [] [] [] [] [] []]; cbv; congruence. }
  apply andb_true_iff. split; [apply Ha; unfold identifier_char; by rewrite Hc|].
  rewrite forallb_forall in *. intros a Hin. by apply Ha, Hr.
Qed.
Lemma metadata_valid m m' : validateMetadata m = inr m' → m' = m ∧ valid_metadata m.
Proof.
  unfold validateMetadata. destruct (_ <? _); [done|]. destruct (omap _ _) eqn:E; [|done]. intros [= <-]. split; [done|].
  apply omap_nil in E. rewrite Forall_forall in E. intros k v Hk.
  assert ((k, v) ∈ range m) as Hin by (rewrite range_perm; by apply elem_of_map_to_list).
  apply E in Hin. unfold check_metadata_entry in Hin.
  destruct (ValidString k); [|done]. destruct (ValidString v); [done|]. cbn in Hin. by repeat case_match.
Qed.

Definition utf8_command (intent : commandIntent) : Prop :=
  ValidString (in_OrderID intent) = true ∧ ValidString (in_Action intent) = true ∧
  ValidString (in_Reason intent) = true ∧ valid_metadata (in_Metadata intent).
Lemma create_valid raw v : CreateCommand_validate raw = inr v → utf8_command (create_intent v).
Proof.
  unfold CreateCommand_validate. intros (o & Ho & (k & Hk & (m & Hm & [= <-])%and_then_inr)%and_then_inr)%and_then_inr.
  apply metadata_valid in Hm as [-> Hm]. split_and!; cbn; [by eapply valid_identifier|done..].
Qed.
Lemma transition_valid raw v : TransitionCommand_validate raw = inr v → utf8_command (transition_intent v).
Proof.
  unfold TransitionCommand_validate. intros (o & Ho & (k & Hk & H)%and_then_inr)%and_then_inr.
  destruct (negb _ || _) eqn:Hr; [done|]. apply orb_false_iff in Hr as [Hr%negb_false_iff _].
  case_bool_decide as Ha; [done|]. case_bool_decide as Hc; [done|]. apply and_then_inr in H as (m & Hm & [= <-]).
  apply metadata_valid in Hm as [-> Hm]. split_and!; cbn; [by eapply valid_identifier| |done|done].
  destruct (decide (tc_Action raw = ActionConfirm)) as [->|]; [done|].
  destruct (decide (tc_Action raw = ActionCancel)) as [->|]; [done|]. by destruct Ha.
Qed.

(** Which entries a command writes. *)
Lemma entry_of_build author now id ty order intent e :
  buildEntry author now id ty order intent = inr e → utf8_payload (mkPayload intent order) →
  entry_Aggregate e = mkAggregate orderAggregateType (o_OrderID order) ∧ entry_Revision e = o_Revision order ∧
  entry_EventID e = id ∧ entry_IdempotencyKey e = id ∧ payload_Unmarshal (entry_Payload e) = inr (mkPayload intent order).
Proof using LW.
  unfold buildEntry. intros (a & Ha%wrapping_inr & (text & Ht%wrapping_inr & (ev & Hev%wrapping_inr & He%wrapping_inr)%and_then_inr)%and_then_inr)%and_then_inr Hu.
  apply aggregate_built in Ha as ->. destruct (entry_built _ _ _ _ Hev He) as (-> & -> & -> & -> & _ & _ & ->). cbn.
  split_and!; [done..|]. by apply (payload_survives _ _ Hu).
Qed.
Lemma entry_row e id p text stored :
  entry_Aggregate e = mkAggregate orderAggregateType (o_OrderID (ep_Order p)) → entry_Revision e = o_Revision (ep_Order p) →
  entry_EventID e = id → entry_IdempotencyKey e = id → payload_Unmarshal (entry_Payload e) = inr p →
  entry_Marshal e = inr text → jsonb text = Some stored →
  recorded id p (history_row e stored) ∧ mirrors (history_row e stored) e.
Proof using LW.
  intros Ha Hr Hi Hk Hp Hm Hj. destruct (stored_entry e text stored Hm Hj) as (e' & Hd & _ & Hpay). apply Hpay in Hp as Hp'.
  assert (row_payload (history_row e stored) = Some p) as Hrow.
  { unfold row_payload, decodeEventPayload. cbn. by rewrite Hd, Hp'. }
  split; split; cbn; rewrite ?Ha; try done.
  intros q Hq. rewrite Hrow in Hq. injection Hq as <-. unfold decodeEventPayload. by rewrite Hp.
Qed.

(** The payloads an entry of a command can replay. *)
Definition same_intent (i j : commandIntent) : bool :=
  bool_decide (in_OrderID i = in_OrderID j) && bool_decide (in_Action i = in_Action j)
  && bool_decide (in_Reason i = in_Reason j) && metadataEqual (in_Metadata i) (in_Metadata j).
Definition resolves (resolve : Entry → GoError + Order) (intent : commandIntent) : Prop :=
  ∀ e order, resolve e = inr order → ∃ p, decodeEventPayload e = inr p ∧ same_intent (ep_Intent p) intent = true ∧ ep_Order p = order.
Lemma resolve_create v : resolves (λ e, resolveCreate e v) (create_intent v).
Proof.
  intros e order. unfold resolveCreate. intros (p & Hp & H)%and_then_inr. destruct (matchesCreate _ _) eqn:E; [|done].
  injection H as <-. by exists p.
Qed.
Lemma resolve_transition v : resolves (λ e, resolveTransition e v) (transition_intent v).
Proof.
  intros e order. unfold resolveTransition. intros (p & Hp & H)%and_then_inr. destruct (matchesTransition _ _) eqn:E; [|done].
  injection H as <-. by exists p.
Qed.
Definition replayed (id : string) (intent : commandIntent) (order : Order) (t : Tables) : Prop :=
  ∃ row p, row ∈ t_history t ∧ same_command id row = true ∧ row_payload row = Some p ∧
    same_intent (ep_Intent p) intent = true ∧ ep_Order p = order.
Lemma scan_payload row e p : scanHistoryRow row = inr e → decodeEventPayload e = inr p → row_payload row = Some p.
Proof.
  unfold scanHistoryRow, row_payload. destruct (check_scalars row); [done|]. intros (e' & He%wrapping_inr & H)%and_then_inr Hp.
  destruct (negb _); [done|]. injection H as ->. by rewrite He, Hp.
Qed.
Lemma replayed_later id intent order t t' : others t t' → replayed id intent order t → replayed id intent order t'.
Proof.
  intros [rows Hr]%served_history (row & p & Hin & H). exists row, p. split; [|done]. rewrite Hr. apply elem_of_app. by left.
Qed.
End Entries.

Section Transactions.
Context `{MR : MapRange} `{PD : PgDriver} `{AT : AuditTypes} `{AL : !AuditLib} `{JB : Jsonb} {E : Type}.
Context `{SE : !SqlEngine Tables Write E} `{OS : !OutboxStore E}.
Context `{LW : !AuditLaws} `{SL : !SqlLaws others workflow_sentinel} `{OL : !OutboxLaws (E := E)}.

Abbreviation TxS := (Tx Tables Write E).
#[local] Abbreviation any := (λ _ _ _, True).
#[local] Abbreviation trun := (runs (E := E) others).
#[local] Abbreviation unwritten := (λ _ ws _, ws = []).
Lemma store_session_runs {A} s (db : A) x : trun (store_session s (Some db)) x (λ a ws _, a = db ∧ ws = []) unwritten.
Proof. destruct s as [store|]; cbn; [destruct (hs_db store); [by rule runs_ret|]|]; by rule runs_throw. Qed.

Lemma find_runs s id x :
  trun (FindByCommandID s (Some on_tx) id) x
    (λ found ws x', ws = [] ∧ ∀ e, found = Some e →
       ∃ row, row ∈ t_history (apply_writes (x_base x') (x_own x)) ∧ same_command id row = true ∧ scanHistoryRow row = inr e) unwritten.
Proof using SL.
  rule runs_bind; [apply store_session_runs|]. intros query ws x1 Hg [-> ->].
  rule (runs_bind (Qm := unwritten)); [by rule runs_ctxErr|]. intros _ ws x2 Hg2 ->.
  assert (x_own x2 = x_own x) as Hown. { by rewrite (goes_on_own _ _ Hg2), (goes_on_own _ _ Hg). }
  rule (runs_settle (Fm := unwritten) (Qm := λ e ws x', ws = [] ∧ ∃ row,
    List.find (same_command id) (t_history (apply_writes (x_base x') (x_own x))) = Some row ∧ scanHistoryRow row = inr e)).
  - rule (runs_bind (Qm := λ row ws x', ws = [] ∧ List.find (same_command id) (t_history (apply_writes (x_base x') (x_own x))) = Some row)).
    + rule (runs_one_row (Qm := λ found ws x', ws = [] ∧ List.find (same_command id) (t_history (apply_writes (x_base x') (x_own x))) = found)); [eapply runs_impl; [rule (runs_on_tx others workflow_sentinel)|cbn..]|cbn..].
      * intros found ws x' _ H. unfold history_by_command, select in H. injection H as H <-. rewrite Hown in H. done.
      * by intros ??? _ [-> _].
      * by intros row ws x' [-> ->].
      * by intros ws x' [-> _].
    + intros row ws x3 _ [-> Hf]. rule runs_or_fail. destruct (scanHistoryRow row) eqn:Es; eauto.
  - intros e ws x3 _ [-> (row & Hf & Hs)]. rule runs_ret. split; [done|]. intros ? [= <-].
    exists row. apply List.find_some in Hf as [Hin Hid]. split_and!; [by apply list_elem_of_In|done..].
  - intros e ws x3 _ ->. destruct (errors_Is e _); [by rule runs_ret|by rule runs_throw].
Qed.

Lemma insert_runs s e x :
  trun (Insert s (Some on_tx) e) x (λ _ ws x', ∃ text stored,
    entry_Marshal e = inr text ∧ jsonb text = Some stored ∧ ws = [InsertHistory (history_row e stored)] ∧
    history_keys (history_row e stored) (apply_writes (x_base x') (x_own x)) = []) any.
Proof using SL.
  rule runs_bind; [eapply runs_impl; [apply store_session_runs|intros a ws x' _ H; exact H|done]|]. cbn. intros exec ws x1 Hg [-> ->].
  rule (runs_bind (Qm := unwritten)); [by rule runs_ctxErr|]. intros _ ws x2 Hg2 ->.
  rule (runs_bind (Qm := unwritten)); [by destruct (entry_Validate e); [rule runs_throw|rule runs_ret]|]. intros _ ws x3 Hg3 ->.
  assert (x_own x3 = x_own x) as Hown. { by rewrite (goes_on_own _ _ Hg3), (goes_on_own _ _ Hg2), (goes_on_own _ _ Hg). }
  rule (runs_bind (Qm := λ text ws _, ws = [] ∧ entry_Marshal e = inr text)); [by rule runs_or_fail; destruct (entry_Marshal e)|].
  intros text ws x4 Hg4 [-> Hm]. destruct (_ <? _); [by rule runs_throw|]. rule runs_wrap.
  eapply runs_impl; [rule (runs_on_tx others workflow_sentinel)| |done].
  intros [] ws x5 Hg5 Hs. cbn. unfold insert_history in Hs. destruct (jsonb text) as [stored|] eqn:Hj; [|done].
  apply write_row_inr in Hs as [-> Hk]. rewrite (goes_on_own _ _ Hg4), Hown in Hk. apply app_eq_nil in Hk as [_ Hk].
  by exists text, stored.
Qed.
Lemma enqueue_runs e x :
  trun (Enqueue e) x (λ _ ws x', ws = [InsertOutbox e] ∧ outbox_keys e (apply_writes (x_base x') (x_own x)) = []) any.
Proof using OL.
  eapply runs_impl; [rule (answers_runs others workflow_sentinel (enqueued e)); intros ????; apply enqueue_answers| |done].
  intros [] ws x' _ H. by apply write_row_inr in H.
Qed.

(** The write of an order: a new row, or one that replaces the row it was read from. *)
Definition order_write (old : option Order) (new : Order) : Write :=
  match old with None => InsertOrder new | Some o => UpdateOrder o new end.
Lemma keys_of_own t old new :
  t_history (apply_writes t [order_write old new]) = t_history t ∧ t_outbox (apply_writes t [order_write old new]) = t_outbox t.
Proof. by destruct old. Qed.
Lemma apply_all t old new row e :
  apply_writes t [order_write old new; InsertHistory row; InsertOutbox e]
  = mkTables (<[o_OrderID new := new]> (t_orders t)) (t_history t ++ [row]) (t_outbox t ++ [e]).
Proof. by destruct old. Qed.

Lemma record_entry_runs s author now id ty order intent old x :
  utf8_payload (mkPayload intent order) → x_own x = [order_write old order] → in_force x →
  trun (record_entry s (buildEntry author now id ty order intent)) x (λ _ ws x', ∃ row e,
    ws = [InsertHistory row; InsertOutbox e] ∧ in_force x' ∧ recorded id (mkPayload intent order) row ∧ mirrors row e) any.
Proof using LW OL SL.
  intros Hu Hown Hf. rule (runs_bind (Qm := λ e ws _, ws = [] ∧ buildEntry author now id ty order intent = inr e)).
  { rule runs_or_fail. by destruct (buildEntry _ _ _ _ _ _). }
  intros e ws x1 Hg1 [-> Hb]. destruct (entry_of_build _ _ _ _ _ _ _ Hb Hu) as (Ha & Hr & Hi & Hk & Hp).
  pose proof (in_force_goes_on _ _ _ Hg1 Hf (Forall_nil_2 _)) as Hf1.
  rule runs_bind; [apply insert_runs|]. cbn. intros _ ws x2 Hg2 (text & stored & Hm & Hj & -> & Hkeys).
  destruct (entry_row e id (mkPayload intent order) text stored Ha Hr Hi Hk Hp Hm Hj) as [Hrec Hmir].
  rewrite (goes_on_own _ _ Hg1), Hown in Hkeys.
  assert (in_force x2) as Hf2.
  { eapply in_force_goes_on; [exact Hg2|done|]. constructor; [|done]. cbn. unfold history_keys in *. by rewrite (proj1 (keys_of_own _ _ _)) in Hkeys. }
  rule runs_wrap. eapply runs_impl; [apply enqueue_runs| |done]. cbn. intros _ ws x3 Hg3 [-> Ho].
  exists (history_row e stored), e. split_and!; [done| |done..].
  eapply in_force_goes_on; [exact Hg3|done|]. constructor; [|done]. cbn. unfold outbox_keys in *.
  destruct Hg2 as [_ H2 _]. rewrite H2, (goes_on_own _ _ Hg1), Hown in Ho. cbn in Ho. by destruct old.
Qed.

(** What a transaction of a command has done when its body returns. *)
Definition body_done (id : string) (intent : commandIntent) (result : Order * bool) (ws : list Write) (x : TxS) : Prop :=
  if result.2 then ws = [] ∧ replayed id intent result.1 (x_base x)
  else ∃ old row e, ws = [order_write old result.1; InsertHistory row; InsertOutbox e] ∧
    Forall (λ w, pending_ok w (x_base x)) ws ∧ recorded id (mkPayload intent result.1) row ∧ mirrors row e ∧
    legal intent old result.1 = true.

Lemma replay_or_runs s id intent resolve go x :
  resolves resolve intent → x_own x = [] →
  (∀ x1, goes_on others x [] x1 → trun go x1 (body_done id intent) any) →
  trun (replay_or s id resolve go) x (body_done id intent) any.
Proof using SL.
  intros Hr Hown Hgo. rule runs_bind; [eapply runs_impl; [apply find_runs|intros found ws x' _ H; exact H|done]|]. cbn.
  intros [e|] ws x1 Hg [-> Hf]; [|by apply Hgo].
  destruct (Hf e eq_refl) as (row & Hin & Hid & Hs). rewrite Hown in Hin.
  rule (runs_bind (Qm := λ order ws x', ws = [] ∧ replayed id intent order (x_base x1) ∧ x' = x1)).
  - rule runs_or_fail. destruct (resolve e) as [|order] eqn:Er; [done|]. split_and!; [done| |done].
    destruct (Hr e order Er) as (p & Hp & Hsame & Ho). exists row, p. split_and!; [done..| |done|done]. by eapply scan_payload.
  - intros order ws x2 _ (-> & Hrep & ->). rule runs_ret. by split.
Qed.

(** The order a body writes, then its entry. *)
Lemma write_then_record s author now id ty order intent old x x1 ws :
  utf8_payload (mkPayload intent order) → legal intent old order = true → x_own x = [] →
  goes_on others x ws x1 → ws = [order_write old order] → pending_ok (order_write old order) (x_base x1) →
  trun (do! record_entry s (buildEntry author now id ty order intent); ret (order, false)) x1
    (λ result ws', body_done id intent result (ws ++ ws')) any.
Proof using LW OL SL.
  intros Hu Hl Hown Hg -> Hp. pose proof Hg as [_ Hown1 _]. rewrite Hown in Hown1. cbn in Hown1.
  assert (in_force x1) as Hf. { unfold in_force. rewrite Hown1. by constructor. }
  rule runs_bind; [by eapply record_entry_runs|]. cbn. intros _ ws x2 Hg2 (row & e & -> & Hf2 & Hr & Hm).
  rule runs_ret. exists old, row, e. split_and!; [done| |done..].
  unfold in_force in Hf2. destruct Hg2 as [_ H2 _]. by rewrite H2, Hown1 in Hf2.
Qed.

Lemma status_valid st a st' : transitionStatus st a = inr st' → ValidString st' = true.
Proof. unfold transitionStatus. repeat case_bool_decide; by intros [= <-]. Qed.
Lemma create_runs s raw v x :
  CreateCommand_validate raw = inr v → x_own x = [] →
  trun (create_in_tx s v) x (body_done (cc_CommandID v) (create_intent v)) any.
Proof using LW OL SL.
  intros Hv Hown. destruct (create_valid _ _ Hv) as (Hi & Ha & Hr & Hm).
  apply replay_or_runs; [apply resolve_create|done|]. intros x1 Hg1.
  pose proof (goes_on_own _ _ Hg1) as Hown1. rewrite Hown in Hown1.
  rule (runs_bind (Qm := unwritten)); [by rule runs_now|]. intros time ws x2 Hg2 ->. cbn zeta.
  pose proof (goes_on_own _ _ Hg2) as Hown2. rewrite Hown1 in Hown2.
  rule runs_bind; [rule runs_wrap; eapply runs_impl; [rule (runs_on_tx others workflow_sentinel)|intros a ws x' _ H; exact H|done]|].
  cbn. intros [] ws x3 Hg3 Hs. rewrite Hown2 in Hs. apply write_row_inr in Hs as [-> Hk]. apply app_eq_nil in Hk as [_ Hk].
  eapply (write_then_record _ _ _ _ _ _ _ None); [| |exact Hown2|exact Hg3|done..].
  - split; cbn; [done..|]. exact Hm.
  - unfold legal. cbn. by rewrite initial_revision, bool_decide_eq_true_2.
Qed.

Lemma load_runs id x :
  x_own x = [] →
  trun (loadOrderForUpdate id) x (λ current ws x', ws = [] ∧ o_OrderID current = id ∧ ∃ row,
    t_orders (x_base x') !! id = Some row ∧ o_Status row = o_Status current ∧ o_Revision row = o_Revision current) unwritten.
Proof using SL.
  intros Hown.
  rule (runs_bind (Qm := λ o ws x', ws = [] ∧ o_OrderID o = id ∧ ∃ row,
    t_orders (x_base x') !! id = Some row ∧ o_Status row = o_Status o ∧ o_Revision row = o_Revision o)).
  - rule (runs_one_row (Qm := λ o ws x', ws = [] ∧ ((λ row, mkOrder id (o_Status row) (o_Revision row) (o_UpdatedAt row)) <$> t_orders (x_base x') !! id) = o)).
    + eapply runs_impl; [rule (runs_on_tx others workflow_sentinel)|cbn..].
      * intros o ws x' _ H. unfold order_for_update, select in H. injection H as H <-. by rewrite Hown in H.
      * by intros ??? _ [-> _].
    + cbn. intros o ws x' [-> (row & Hrow & ->)%fmap_Some]. split_and!; [done..|]. by exists row.
    + by intros ws x' [-> _].
  - intros o ws x1 _ (-> & Hid & row & Hrow & Hst & Hrev). destruct (_ <? _); [by rule runs_throw|].
    rule runs_ret. split_and!; [done..|]. by exists row.
Qed.

Lemma update_inr row revision t n ws :
  update_order row revision t = inr (n, ws) → n = 1 →
  ∃ old, t_orders t !! o_OrderID row = Some old ∧ o_Revision old = revision ∧ ws = [UpdateOrder old row].
Proof.
  unfold update_order. destruct (t_orders t !! _) as [old|]; [|by intros [= <- <-]]. case_bool_decide as Hr; [|by intros [= <- <-]].
  destruct (order_checks row); [|done]. intros [= <- <-] _. by exists old.
Qed.
Lemma transition_runs s raw v x :
  TransitionCommand_validate raw = inr v → x_own x = [] →
  trun (transition_in_tx s v) x (body_done (tc_CommandID v) (transition_intent v)) any.
Proof using LW OL SL.
  intros Hv Hown. destruct (transition_valid _ _ Hv) as (Hi & Ha & Hr & Hm).
  rule (runs_settle (Fm := unwritten)); [by apply load_runs|..]; cbn.
  - intros current ws x1 Hg1 (-> & Hid & row & Hrow & Hst & Hrev). pose proof (goes_on_own _ _ Hg1) as Hown1. rewrite Hown in Hown1.
    apply replay_or_runs; [apply resolve_transition|done|]. intros x2 Hg2.
    pose proof (goes_on_own _ _ Hg2) as Hown2. rewrite Hown1 in Hown2.
    rule (runs_bind (Qm := λ st ws x', ws = [] ∧ transitionStatus (o_Status current) (tc_Action v) = inr st)).
    { rule runs_or_fail. by destruct (transitionStatus _ _). }
    intros st ws x3 Hg3 [-> Hnext].
    rule (runs_bind (Qm := λ r ws x', ws = [] ∧ Revision_Next (o_Revision current) = inr r)).
    { rule runs_or_fail. by destruct (Revision_Next _). }
    intros rev ws x4 Hg4 [-> Hnr%revision_next].
    rule (runs_bind (Qm := unwritten)); [by rule runs_now|]. intros time ws x5 Hg5 ->. cbn zeta.
    assert (x_own x5 = []) as Hown5 by (by rewrite (goes_on_own _ _ Hg5), (goes_on_own _ _ Hg4), (goes_on_own _ _ Hg3)).
    rule runs_bind; [rule runs_wrap; eapply runs_impl; [rule (runs_on_tx others workflow_sentinel)|intros n ws x' _ H; exact H|done]|].
    cbn. intros n ws x6 Hg6 Hup. rewrite Hown5 in Hup.
    rule (runs_bind (Qm := λ n' ws' x', ws' = [] ∧ n' = n ∧ x' = x6)).
    { rule runs_or_fail. destruct (RowsAffected n) as [|n'] eqn:En; [done|]. split_and!; [done|by eapply rows_affected_count|done]. }
    intros n' ws' x6' _ (-> & -> & ->). case_bool_decide as Hn; [by rule runs_throw|].
    apply update_inr in Hup as (old & Hold & Hrold & ->); [|by destruct (decide (n = 1))]. cbn in Hold. rewrite Hid in Hold.
    assert (others (x_base x1) (x_base x6)) as Ho.
    { transitivity (x_base x2); [apply Hg2|]. transitivity (x_base x3); [apply Hg3|]. transitivity (x_base x4); [apply Hg4|].
      transitivity (x_base x5); [apply Hg5|apply Hg6]. }
    destruct (served_row _ _ _ _ Ho Hrow) as (old' & Hold' & Hcase). rewrite Hold in Hold'. injection Hold' as <-.
    destruct Hcase as [->|]; [|lia].
    eapply (write_then_record _ _ _ _ _ _ _ (Some row)); [| |exact Hown5|exact Hg6|done|cbn; by rewrite Hid].
    + split; cbn; [by rewrite Hid| |done..]. split; [done|by eapply status_valid].
    + unfold legal. cbn. rewrite Hid, bool_decide_eq_true_2 by done. cbn. rewrite Hst, Hnext, bool_decide_eq_true_2 by done.
      cbn. apply Z.eqb_eq. lia.
  - intros e ws x1 Hg1 ->. destruct (errors_Is e _); [|by rule runs_throw].
    apply replay_or_runs; [apply resolve_transition|by rewrite (goes_on_own _ _ Hg1)|]. intros x2 _. by rule runs_throw.
Qed.

(** What is pending when a body returns is one commit of its command. *)
Lemma body_commits id intent order ws x t :
  body_done id intent (order, false) ws x → meanwhile others ws (x_base x) t →
  commits id (mkPayload intent order) t (apply_writes t ws).
Proof.
  intros (old & row & e & -> & Hp & Hr & Hm & Hl) [_ Hmw]. cbn [fst] in *.
  assert (Forall (λ w, pending_ok w t) [order_write old order; InsertHistory row; InsertOutbox e]) as Ht.
  { rewrite Forall_forall in *. naive_solver. }
  rewrite !Forall_cons in Ht. destruct Ht as (Hw & Hh & _). rewrite apply_all. split.
  - replace (t_orders t !! o_OrderID order) with old; [done|]. cbn in *.
    destruct old as [o|]; cbn in Hw; [done|]. unfold order_keys, unless_key in Hw. case_bool_decide as Hn; [done|].
    by rewrite <- eq_None_not_Some in Hn.
  - destruct (rc_id _ _ _ Hr) as [E1 E2]. cbn in Hh. unfold history_keys in Hh. apply app_eq_nil in Hh as [_ [H1 H2]%app_eq_nil].
    rewrite E1 in H1. rewrite E2 in H2. unfold unless_key in *.
    destruct (existsb (λ r, bool_decide (hr_event_id r = id)) _) eqn:X1; [done|].
    destruct (existsb (λ r, bool_decide (hr_idempotency_key r = id)) _) eqn:X2; [done|].
    rewrite Forall_forall. intros r Hin. apply list_elem_of_In in Hin. apply orb_false_iff. split.
    + destruct (bool_decide _) eqn:X; [|done]. rewrite <- X1. symmetry. apply existsb_exists. eauto.
    + destruct (bool_decide (hr_idempotency_key r = id)) eqn:X; [|done]. rewrite <- X2. symmetry. apply existsb_exists. eauto.
  - exists row, e. done.
Qed.

(** How a command ends: a new order comes with its one commit, a replay with the committed row it repeats, and a
    failure leaves the command undone or, when the database lost the answer, done as a whole. *)
Definition settled (id : string) (intent : commandIntent) (o : Outcome (Order * bool)) (t t' : Tables) : Prop :=
  match o with
  | Val (order, false) =>
      ∃ t1 t2, others t t1 ∧ commits id (mkPayload intent order) t1 t2 ∧ others t2 t'
  | Val (order, true) => others t t' ∧ replayed id intent order t'
  | Fail _ => others t t' ∨ ∃ order t1 t2, others t t1 ∧ commits id (mkPayload intent order) t1 t2 ∧ others t2 t'
  | Panic => False
  end.

Lemma find_db s id c (w : World Tables E) o c' w' :
  FindByCommandID s (Some on_db) id c w = (o, c', w') →
  others (w_tables w) (w_tables w') ∧ o ≠ Panic ∧
  ∀ e, o = Val (Some e) → ∃ row, row ∈ t_history (w_tables w') ∧ same_command id row = true ∧ scanHistoryRow row = inr e.
Proof using SL.
  unfold FindByCommandID, store_session. destruct s as [store|]; [|intros [= <- <- <-]; by split_and!].
  destruct (hs_db store); [|intros [= <- <- <-]; by split_and!]. unfold bind at 1. cbn [ret].
  intros H. go_inv H; [|by split_and!]. unfold settle, one_row, bind in Hcont.
  destruct (on_db (history_by_command id) c0 w) as [[o1 c1] w1] eqn:E1.
  apply (on_db_select others workflow_sentinel) in E1 as [(t & H1 & H2 & ->)|(H1 & e & -> & _)].
  - destruct (List.find _ _) as [row|] eqn:Ef; cbn in Hcont; unfold or_fail, ret, throw in Hcont.
    + destruct (scanHistoryRow row) as [err|entry] eqn:Es; [case_match; simplify_eq; (split_and!; [by etrans|done|by intros ? [=]])|].
      injection Hcont as <- <- <-. split_and!; [by etrans|done|]. intros e [= <-]. exists row.
      apply List.find_some in Ef as [Hin Hid]. apply served_history in H2 as [rows ->].
      split_and!; [apply elem_of_app; left; by apply list_elem_of_In|done..].
    + injection Hcont as <- <- <-. split_and!; [by etrans|done|by intros ? [=]].
  - cbn in Hcont. unfold ret, throw in Hcont. case_match; simplify_eq; (split_and!; [done|done|by intros ? [=]]).
Qed.
Lemma commit_or_resolve_settles s tx id intent resolve conflict c w o c' w' :
  resolves resolve intent → (∀ t g, trun tx (mkTx t [] g) (body_done id intent) any) →
  commit_or_resolve tx (resolveByCommandID s id resolve) conflict c w = (o, c', w') →
  settled id intent o (w_tables w) (w_tables w').
Proof using SL.
  intros Hr Htx. unfold commit_or_resolve, settle at 1. destruct (WithTx tx c w) as [[o1 c1] w1] eqn:E1.
  pose proof (with_tx_run others workflow_sentinel _ _ _ E1 Htx) as Hrun.
  assert (settled id intent o1 (w_tables w) (w_tables w1)) as Hs1.
  { destruct Hrun as [([order replay] & ws & x & t & Ho & Hd & Hx & Hm & Hc)|[(e & -> & _ & _ & Hc)|(e0 & e & ws & x & -> & _ & Hx & Hc & _)]];
      [|by left|left; by etrans].
    destruct replay.
    - destruct Hd as [-> Hrep]. cbn in Hc, Hrep. destruct Hm as [Hm _]. assert (others (x_base x) (w_tables w1)) by (by etrans).
      destruct Ho as [->|(e & -> & _)]; [|by left; etrans]. split; [by etrans|by eapply replayed_later].
    - pose proof (body_commits _ _ _ _ _ _ Hd Hm) as Hcm. destruct Hm as [Hm _].
      destruct Ho as [->|(e & -> & _)]; [|right; exists order]; exists t, (apply_writes t ws); (split_and!; [by etrans|done..]). }
  destruct o1 as [[order replay]|e|]; [by intros [= <- <- <-]| |done].
  destruct (negb (isUniqueViolation e)); [by intros [= <- <- <-]|].
  intros H. unfold settle, resolveByCommandID, bind in H.
  destruct (FindByCommandID _ _ _ _ _) as [[o2 c2] w2] eqn:E2. apply find_db in E2 as (Ho2 & Hnp & Hfound).
  assert (∀ err, settled id intent (Fail err) (w_tables w) (w_tables w2)) as Hfail.
  { intros err. destruct Hs1 as [Hs1|(order & t1 & t2 & H1 & H2 & H3)]; [left; by etrans|right]. exists order, t1, t2. split_and!; [done..|by etrans]. }
  destruct o2 as [[entry|]|e2|]; [|by injection H as <- <- <-; apply Hfail..|done].
  unfold or_fail in H. destruct (resolve entry) as [err|order] eqn:Er; [by injection H as <- <- <-; apply Hfail|].
  injection H as <- <- <-. destruct (Hfound _ eq_refl) as (row & Hin & Hid & Hscan). destruct (Hr _ _ Er) as (p & Hp & Hsame & Ho).
  split; [|exists row, p; split_and!; [done..| |done|done]; by eapply scan_payload].
  destruct Hs1 as [Hs1|(order' & t1 & t2 & H1 & H2 & H3)]; [by etrans|].
  etrans; [exact H1|]. etrans; [apply rtc_once; by exists id, (mkPayload intent order')|by etrans].
Qed.
End Transactions.
