(* ===== verification/OrderWorkflowModel.v ===== *)
(** An audit package, an outbox store and encodings that keep the laws of [OrderWorkflowProofs], for
    evaluations on the engine of [SqlModel]. *)
From Stdlib Require Import Ascii String.
From S2P Require Import Prelude GraphLib JwtLib SqlTx SqlModel OrderWorkflow OrderWorkflowProofs.

(** ** Entries *)

Record PlainEntry := mkPlainEntry { pe_author : string; pe_event : EventOptions }.
#[export] Instance plain_types : AuditTypes := {|
  Entry := PlainEntry; DomainEvent := EventOptions;
  entry_Aggregate e := eo_AggregateID (pe_event e); entry_Revision e := eo_Revision (pe_event e);
  entry_EventID e := eo_EventID (pe_event e); entry_IdempotencyKey e := eo_IdempotencyKey (pe_event e);
  entry_EventType e := eo_EventType (pe_event e); entry_RecordedAt e := eo_RecordedAt (pe_event e);
  entry_Payload e := eo_Payload (pe_event e)
|}.

(** ** Encodings *)

Definition put_payload (p : eventPayload) : string :=
  let i := ep_Intent p in
  let o := ep_Order p in
  put_field (in_OrderID i) (put_field (in_Action i) (put_field (in_Reason i) (put_field (in_Metadata i)
    (put_field (o_OrderID o) (put_field (o_Status o) (put_field (o_Revision o) (put_field (o_UpdatedAt o) ""))))))).
Definition get_payload (s : string) : option eventPayload :=
  '(a, s) ← get_field s; '(b, s) ← get_field s; '(c, s) ← get_field s; '(d, s) ← get_field s;
  '(e, s) ← get_field s; '(f, s) ← get_field s; '(g, s) ← get_field s; '(h, s) ← get_field s;
  Some (mkPayload (mkIntent a b c d) (mkOrder e f g h)).
Lemma get_put_payload p : get_payload (put_payload p) = Some p.
Proof. unfold get_payload, put_payload. repeat (rewrite get_put_field; cbn [mbind option_bind]). by destruct p as [[] []]. Qed.
Definition put_entry (e : PlainEntry) : string :=
  let o := pe_event e in
  put_field (pe_author e) (put_field (eo_EventID o) (put_field (eo_EventType o)
    (put_field (ag_Type (eo_AggregateID o)) (put_field (ag_ID (eo_AggregateID o)) (put_field (eo_Revision o)
      (put_field (eo_OccurredAt o) (put_field (eo_RecordedAt o) (put_field (eo_IdempotencyKey o)
        (put_field (eo_Metadata o) (eo_Payload o)))))))))).
Definition get_entry (s : string) : option PlainEntry :=
  '(author, s) ← get_field s; '(event_id, s) ← get_field s; '(type, s) ← get_field s;
  '(aggregate, s) ← get_field s; '(id, s) ← get_field s; '(revision, s) ← get_field s;
  '(occurred, s) ← get_field s; '(recorded, s) ← get_field s; '(key, s) ← get_field s;
  '(metadata, s) ← get_field s;
  Some (mkPlainEntry author (mkEventOptions event_id type (mkAggregate aggregate id) revision occurred recorded key metadata s)).
Lemma get_put_entry e : get_entry (put_entry e) = Some e.
Proof. unfold get_entry, put_entry. repeat (rewrite get_put_field; cbn [mbind option_bind]). by destruct e as [? [? ? []]]. Qed.

Definition decoded {A} (r : option A) : GoError + A :=
  match r with Some a => inr a | None => inl (plain_error "invalid text") end.
#[export] Instance plain_audit : AuditLib := {|
  InitialRevision := 1;
  Revision_Next r := if r <? 2 ^ 63 - 1 then inr (r + 1) else inl (plain_error "revision overflow");
  NewAggregateID t id := inr (mkAggregate t id);
  NewDomainEvent := inr;
  NewEntry author event := inr (mkPlainEntry author event);
  entry_Validate _ := None;
  entry_Marshal e := inr (put_entry e);
  DecodeEntryJSON s := decoded (get_entry s);
  payload_Marshal p := inr (put_payload p);
  payload_Unmarshal s := decoded (get_payload s)
|}.
#[export] Instance plain_jsonb : Jsonb := {| jsonb := Some |}.
#[export] Instance plain_outbox : OutboxStore Plain := {| Enqueue e := on_tx (enqueued e) |}.

#[export] Instance plain_audit_laws : AuditLaws.
Proof.
  split.
  - done.
  - intros r r'. cbn. case_match; [|done]. by intros [= <-].
  - by intros t id a [= <-].
  - by intros eo author event e [= <-] [= <-].
  - intros e text stored [= <-] [= <-]. exists e. split_and!; [cbn; by rewrite get_put_entry|done..].
  - intros p text _ [= <-]. cbn. by rewrite get_put_payload.
Qed.
#[export] Instance workflow_engine : SqlLaws (E := Plain) others workflow_sentinel.
Proof.
  apply plain_laws; [apply _| |].
  - intros name [-> | H]; [done|]. destruct name as [|a name]; [done|]. rewrite starts_with_cons in *.
    destruct (ascii_dec "o" a) as [<-|]; done.
  - intros [H|H]; done.
Qed.
#[export] Instance plain_outbox_laws : OutboxLaws (E := Plain).
Proof. split. intros entry c x o c' x' H. by apply (on_tx_answers others workflow_sentinel) in H. Qed.

#[export] Existing Instance plain_range.

(** ** A service on an empty database *)

Definition empty_tables : Tables := mkTables ∅ [] [].
Definition on_faults (faults : list Fault) : World Tables Plain := mkWorld empty_tables (mkPlain 5000 faults).
Definition demo : Ptr Service := Some (mkService true (Some (mkHistoryStore true)) true "workshop" true true).
