(* ===== verification/OrderWorkflowTheorems.v ===== *)
(** The theorems about the audited order workflow: any number of clients run its commands on one database. *)
From Stdlib Require Import Ascii String.
From S2P Require Import Prelude GraphLib JwtLib SqlTx SqlModel OrderWorkflow OrderWorkflowProofs OrderWorkflowModel.

Inductive Command := Creating (c : CreateCommand) | Transiting (c : TransitionCommand).

Section Theorems.
Context `{MR : MapRange} `{PD : PgDriver} `{AT : AuditTypes} `{AL : !AuditLib} `{JB : Jsonb} {E : Type}.
Context `{SE : !SqlEngine Tables Write E} `{OS : !OutboxStore E}.
Context `{LW : !AuditLaws} `{SL : !SqlLaws others workflow_sentinel} `{OL : !OutboxLaws (E := E)}.

Definition handle (s : Ptr Service) (command : Command) : DbM (E := E) (Order * bool) :=
  match command with Creating c => Create s c | Transiting c => Transition s c end.
(** The identity and the intent of a command that is valid. *)
Definition valid_command (command : Command) : option (string * commandIntent) :=
  match command with
  | Creating c => match CreateCommand_validate c with inr v => Some (cc_CommandID v, create_intent v) | inl _ => None end
  | Transiting c => match TransitionCommand_validate c with inr v => Some (tc_CommandID v, transition_intent v) | inl _ => None end
  end.

(** Before its transaction a command can only fail. *)
Lemma guarded {V} (validated : GoError + V) (m : Service → V → DbM (E := E) (Order * bool)) s c w o c' w' :
  (let! s' := or_fail id (Service_validate s) in do! ctxErr; let! v := or_fail id validated in m s' v) c w = (o, c', w') →
  (w' = w ∧ ∃ err, o = Fail err) ∨ ∃ s' v c1, validated = inr v ∧ m s' v c1 w = (o, c', w').
Proof.
  unfold bind at 1. destruct (or_fail id _ c w) as [[o1 c1] w1] eqn:E1.
  apply or_fail_run in E1 as (-> & -> & [(s' & -> & _)|(e & -> & _)]); [|by intros [= <- <- <-]; left; eauto].
  unfold bind at 1. destruct (ctxErr c w) as [[o2 c2] w2] eqn:E2.
  apply ctxErr_inv in E2 as [-> [->|[cause ->]]]; [|by intros [= <- <- <-]; left; eauto].
  unfold bind. destruct (or_fail id validated c2 w) as [[o3 c3] w3] eqn:E3.
  apply or_fail_run in E3 as (-> & -> & [(v & -> & Hv)|(e & -> & _)]); [|by intros [= <- <- <-]; left; eauto].
  intros H. right. eauto.
Qed.

Lemma handle_settles s command c w o c' w' :
  handle s command c w = (o, c', w') →
  (w' = w ∧ ∃ err, o = Fail err) ∨
  ∃ id intent, valid_command command = Some (id, intent) ∧ settled id intent o (w_tables w) (w_tables w').
Proof using LW OL SL.
  destruct command as [raw|raw]; intros [Hf|(s' & v & c1 & Hv & H)]%guarded; [by left| |by left|]; right; cbn; rewrite Hv.
  - exists (cc_CommandID v), (create_intent v). split; [done|].
    eapply commit_or_resolve_settles; [apply resolve_create| |exact H]. intros t g. by eapply create_runs.
  - exists (tc_CommandID v), (transition_intent v). split; [done|].
    eapply commit_or_resolve_settles; [apply resolve_transition| |exact H]. intros t g. by eapply transition_runs.
Qed.

(** C1: A command that returns an order and no replay has committed, in one step, that order by a legal move,
    an audit row that decodes to its intent and order, and the outbox record of the same entry, under an identity no
    row had; a replay returns the order of the committed row with its identity and intent; a failed command is undone,
    or done as a whole when the database lost the answer; an invalid command does nothing; nothing panics. *)
Theorem commands_commit_as_one s command c w o c' w' :
  handle s command c w = (o, c', w') →
  match valid_command command with
  | Some (id, intent) => settled id intent o (w_tables w) (w_tables w')
  | None => w' = w ∧ ∃ err, o = Fail err
  end.
Proof using LW OL SL.
  intros [[-> [err ->]]|(id & intent & -> & H)]%handle_settles; [|done]. destruct (valid_command command) as [[id intent]|]; [by left|eauto].
Qed.

(** ** Consequences *)

Lemma settled_others id intent o t t' : settled id intent o t t' → others t t'.
Proof.
  assert (∀ order, (∃ t1 t2, others t t1 ∧ commits id (mkPayload intent order) t1 t2 ∧ others t2 t') → others t t') as Hc.
  { intros order (t1 & t2 & H1 & H2 & H3). etrans; [exact H1|]. etrans; [apply rtc_once; by eexists _, _|done]. }
  destruct o as [[order []]|e|]; cbn; [by intros [? _]|apply Hc| |done]. intros [?|[order H]]; [done|by eapply Hc].
Qed.
Lemma handle_others s command c w o c' w' : handle s command c w = (o, c', w') → others (w_tables w) (w_tables w').
Proof using LW OL SL. intros [[-> _]|(id & intent & _ & H)]%handle_settles; [done|by eapply settled_others]. Qed.

(** Commands one after the other, each in its own context; others run theirs before and between the statements. *)
Fixpoint serve (s : Ptr Service) (calls : list (Ctx * Command)) (w : World Tables E) : World Tables E :=
  match calls with
  | [] => w
  | (c, command) :: calls => let '(_, _, w') := handle s command c w in serve s calls w'
  end.
Lemma serve_others s calls w : others (w_tables w) (w_tables (serve s calls w)).
Proof using LW OL SL.
  revert w. induction calls as [|[c command] calls IH]; intros w; cbn [serve]; [done|].
  destruct (handle s command c w) as [[o c'] w'] eqn:Eh. apply handle_others in Eh. etrans; [exact Eh|apply IH].
Qed.

(** C2: Whatever commands are served, the history explains the orders: replaying its rows by the legal moves gives
    the orders table, each order is what its last row made it and its revision counts its rows, no identity has two
    rows, and the outbox holds the entries of the history in its order; rows are only ever appended. *)
Theorem history_explains_tables s calls w :
  explained (w_tables w) →
  explained (w_tables (serve s calls w)) ∧ ∃ rows, t_history (w_tables (serve s calls w)) = t_history (w_tables w) ++ rows.
Proof using LW OL SL.
  intros He. pose proof (serve_others s calls w) as Ho. split; [by eapply others_explained|by apply served_history].
Qed.

(** ** Retries *)

Lemma metadataEqual_refl m : metadataEqual m m = true.
Proof.
  unfold metadataEqual. rewrite bool_decide_eq_true_2 by done. apply forallb_forall. intros [k v] Hin.
  apply list_elem_of_In, elem_of_map_to_list in Hin. cbn. rewrite Hin. by apply bool_decide_eq_true.
Qed.
Lemma same_intent_refl i : same_intent i i = true.
Proof. unfold same_intent. by rewrite !bool_decide_eq_true_2, metadataEqual_refl. Qed.
Lemma recorded_replayed id intent order row t : row ∈ t_history t → recorded id (mkPayload intent order) row → replayed id intent order t.
Proof.
  intros Hin [[Hi _] _ _ Hp]. exists row, (mkPayload intent order). split_and!; [done| |done|apply same_intent_refl|done].
  unfold same_command. by rewrite bool_decide_eq_true_2.
Qed.
Lemma settled_replayed id intent order replay t t' : settled id intent (Val (order, replay)) t t' → replayed id intent order t'.
Proof.
  destruct replay; cbn; [by intros [_ H]|]. intros (t1 & t2 & _ & [_ _ (row & e & Hr & _ & ->)] & H2).
  eapply replayed_later; [exact H2|]. eapply recorded_replayed; [|exact Hr]. cbn. apply elem_of_app. right. by left.
Qed.

(** What was stored of an entry is the entry: a row whose text decodes to its columns. *)
Record readable (row : HistoryRow) : Prop := {
  rd_revision : 1 ≤ hr_revision row;
  rd_text : 1 ≤ Z.of_nat (String.length (hr_entry_json row)) ≤ 2 ^ 20;
  rd_entry : ∃ e, DecodeEntryJSON (hr_entry_json row) = inr e ∧
    entry_Aggregate e = mkAggregate (hr_aggregate_type row) (hr_aggregate_id row) ∧ entry_Revision e = hr_revision row ∧
    entry_EventID e = hr_event_id row ∧ entry_IdempotencyKey e = hr_idempotency_key row ∧
    entry_EventType e = hr_event_type row ∧ hr_recorded_at row = Some (entry_RecordedAt e)
}.
Lemma readable_scanned row : readable row → ∃ e, scanHistoryRow row = inr e ∧ DecodeEntryJSON (hr_entry_json row) = inr e.
Proof.
  intros [Hr [H1 H2] (e & Hd & Ha & Hrev & Hi & Hk & Ht & Hat)]. exists e. split; [|done].
  unfold scanHistoryRow, check_scalars. rewrite (bool_decide_eq_false_2 (_ = "")) by (intros E0; by rewrite E0 in H1).
  rewrite Hd, Hat. cbn. unfold scalars_match. rewrite Ha, Hrev, Hi, Hk, Ht, Hat, !bool_decide_eq_true_2 by done.
  assert ((hr_revision row <=? 0) = false) as -> by lia. change maxEntryBytes with (2 ^ 20).
  by assert ((2 ^ 20 <? Z.of_nat (String.length (hr_entry_json row))) = false) as -> by lia.
Qed.

(** A retry finds the row, and what it finds of it makes the order. *)
Record found (id : string) (resolve : Entry → GoError + Order) (order : Order) (t : Tables) : Prop := {
  fd_explained : explained t;
  fd_row : ∃ row e, row ∈ t_history t ∧ same_command id row = true ∧ scanHistoryRow row = inr e ∧ resolve e = inr order
}.
Lemma found_later id resolve order t t' : others t t' → found id resolve order t → found id resolve order t'.
Proof.
  intros Ho [He (row & e & Hin & H)]. split; [by eapply others_explained|]. exists row, e. split; [|done].
  apply served_history in Ho as [rows ->]. apply elem_of_app. by left.
Qed.

Context (context_error : ∀ cause, errors_As (cause_error cause) = None).
#[local] Abbreviation gives_out := (unavailable workflow_sentinel).
Lemma context_gives_out cause : gives_out (cause_error cause).
Proof using context_error.
  split; [intros p; by rewrite context_error|]. intros name [->|Hn]; [by destruct cause|].
  destruct cause; cbn; (case_bool_decide as Heq; [|done]); by subst name.
Qed.
Lemma missing_row e : gives_out e → errors_Is e "sql.ErrNoRows" = false.
Proof. intros [_ Hf]. apply Hf. by left. Qed.

(** What a lookup in a transaction says: the row of the command as it decodes, or that none is committed. *)
Definition none_of (id : string) (t : Tables) : Prop := Forall (λ row, same_command id row = false) (t_history t).
Definition unreadable_row (id : string) (t : Tables) : Prop :=
  ∃ row err, row ∈ t_history t ∧ same_command id row = true ∧ scanHistoryRow row = inl err.
Lemma find_cases id (x : Tx Tables Write E) :
  x_own x = [] →
  runs others (FindByCommandID (Some (mkHistoryStore true)) (Some on_tx) id) x
    (λ found ws x', ws = [] ∧ match found with
       | Some e => ∃ row, row ∈ t_history (x_base x') ∧ same_command id row = true ∧ scanHistoryRow row = inr e
       | None => none_of id (x_base x') ∨ unreadable_row id (x_base x') end)
    (λ e _ x', gives_out e ∨ unreadable_row id (x_base x')).
Proof using SL context_error.
  intros Hown. unfold FindByCommandID, store_session. cbn [hs_db].
  rule (runs_bind (Qm := λ query ws x1, ws = [] ∧ query = on_tx ∧ x1 = x)); [by rule runs_ret|]. intros ? ? ? _ (-> & -> & ->).
  rule (runs_bind (Qm := λ _ ws x1, ws = [] ∧ x1 = x)); [rule runs_ctxErr; [done|left; apply context_gives_out]|]. intros ? ? ? _ (-> & ->).
  rule (runs_settle (Qm := λ e ws x', ws = [] ∧ ∃ row, row ∈ t_history (x_base x') ∧ same_command id row = true ∧ scanHistoryRow row = inr e)
    (Fm := λ e ws x', ws = [] ∧ (gives_out e ∨ unreadable_row id (x_base x') ∨ (e = ErrNoRows ∧ none_of id (x_base x'))))).
  - rule (runs_bind (Qm := λ row ws x', ws = [] ∧ row ∈ t_history (x_base x') ∧ same_command id row = true)).
    + rule (runs_one_row (Qm := λ found ws x', ws = [] ∧ found = List.find (same_command id) (t_history (x_base x'))));
        [eapply runs_impl; [apply (runs_select others workflow_sentinel)|cbn..]|cbn..].
      * intros found ws x1 _ [-> ->]. by rewrite Hown.
      * intros e ws x1 _ [-> He]. auto.
      * intros row ws x1 [-> [Hin Hid]%symmetry%List.find_some]. split_and!; [done|by apply list_elem_of_In|done].
      * intros ws x1 [-> Hf]. symmetry in Hf. split; [done|]. right. right. split; [done|]. apply Forall_forall.
        intros row Hin%list_elem_of_In. by apply (List.find_none _ _ Hf).
    + intros row ws x1 Hg (-> & Hin & Hid). rule runs_or_fail. destruct (scanHistoryRow row) as [err|e] eqn:Hs.
      * split; [done|]. right. left. by exists row, err.
      * split; [done|]. by exists row.
  - intros e ws x1 _ [-> Hrow]. by rule runs_ret.
  - intros e ws x1 _ [-> [He|[Hu|[-> Hn]]]]; [rewrite (missing_row _ He); rule runs_throw; by left| |rule runs_ret; auto].
    destruct (errors_Is e _); [rule runs_ret|rule runs_throw]; auto.
Qed.

Lemma resolved_row id resolve order t row :
  found id resolve order t → row ∈ t_history t → same_command id row = true → ∃ e, scanHistoryRow row = inr e ∧ resolve e = inr order.
Proof. intros [He (row' & e & Hin' & Hid' & H)] Hin Hid. exists e. by rewrite (explained_row t row row' id). Qed.
Lemma replay_or_answers s id resolve order go (x : Tx Tables Write E) :
  sv_history s = Some (mkHistoryStore true) → x_own x = [] → found id resolve order (x_base x) →
  runs others (replay_or s id resolve go) x (λ a _ _, a = (order, true)) (λ e _ _, gives_out e).
Proof using SL context_error.
  intros Hs Hown Hf. unfold replay_or. rewrite Hs, bind_settle.
  rule runs_settle; [by apply find_cases|cbn..]; intros r ws x1 [Hg _ _]; apply (found_later _ _ _ _ _ Hg) in Hf.
  - intros [-> Hr]. destruct r as [e|].
    + destruct Hr as (row & Hin & Hid & Hsc). destruct (resolved_row _ _ _ _ _ Hf Hin Hid) as (e' & Hs' & Hr'). rewrite Hsc in Hs'. injection Hs' as <-.
      cbn. rewrite Hr'. cbn. by rule runs_ret.
    + exfalso. destruct Hf as [He (row & e & Hin & Hid & Hsc & Hr')]. destruct Hr as [Hn|Hu].
      * unfold none_of in Hn. rewrite Forall_forall in Hn. by rewrite (Hn row Hin) in Hid.
      * destruct Hu as (row' & err & Hin' & Hid' & Hs'). rewrite (explained_row _ row' row id) in Hs' by done. congruence.
  - intros [He|Hu]; rule runs_throw; [done|]. destruct Hu as (row & err & Hin & Hid & Hsc).
    destruct (resolved_row _ _ _ _ _ Hf Hin Hid) as (e & Hs' & _). congruence.
Qed.

(** Every row of the command makes its order. *)
Definition good (id : string) (resolve : Entry → GoError + Order) (order : Order) (t : Tables) : Prop :=
  ∀ row, row ∈ t_history t → same_command id row = true → ∃ e, scanHistoryRow row = inr e ∧ resolve e = inr order.
Lemma good_before id resolve order t t' : others t t' → good id resolve order t' → good id resolve order t.
Proof. intros [rows Hr]%served_history Hg row Hin. apply Hg. rewrite Hr. apply elem_of_app. by left. Qed.
Lemma good_readable id resolve order t : good id resolve order t → ¬ unreadable_row id t.
Proof. intros Hg (row & err & Hin & Hid & Hs). destruct (Hg row Hin Hid) as (e & Hs' & _). congruence. Qed.
(** Orders that the history explains have a revision. *)
Lemma explained_revision t id o : explained t → t_orders t !! id = Some o → 1 ≤ o_Revision o.
Proof.
  intros [_ Ho _ _ _ _] Hl. specialize (Ho id). rewrite Hl in Ho. destruct Ho as [Hlast Hr].
  destruct (events_of id (log t)) as [|p ps]; [done|]. rewrite Hr. unfold len. cbn. lia.
Qed.
Lemma load_explained id (x : Tx Tables Write E) :
  x_own x = [] → explained (x_base x) →
  runs others (loadOrderForUpdate id) x (λ _ _ _, True) (λ e _ _, e = ErrNoRows ∨ gives_out e).
Proof using SL.
  intros Hown He. unfold loadOrderForUpdate.
  rule (runs_bind (Qm := λ row (_ : list Write) (_ : Tx Tables Write E), 1 ≤ o_Revision row)).
  - rule (runs_one_row (Qm := λ found (_ : list Write) (_ : Tx Tables Write E), ∀ row, found = Some row → 1 ≤ o_Revision row));
      [eapply runs_impl; [apply (runs_select others workflow_sentinel)|cbn..]|cbn..]; [|by intros e ws x1 _ [_ Hd]; right|auto|by left].
    intros a ws x1 [Hg _ _] [-> ->] row Hrow. rewrite Hown in Hrow. apply fmap_Some in Hrow as (row' & Hrow' & ->). cbn.
    by eapply explained_revision, Hrow'; eapply others_explained.
  - intros row ws x1 _ Hrev. assert ((o_Revision row <? 1) = false) as -> by lia. by rule runs_ret.
Qed.
Lemma transition_answers s v order (x : Tx Tables Write E) :
  sv_history s = Some (mkHistoryStore true) → x_own x = [] →
  found (tc_CommandID v) (λ entry, resolveTransition entry v) order (x_base x) →
  runs others (transition_in_tx s v) x (λ a _ _, a = (order, true)) (λ e _ _, gives_out e).
Proof using SL context_error.
  intros Hs Hown Hf. unfold transition_in_tx.
  assert (∀ go ws (x1 : Tx Tables Write E), goes_on others x ws x1 → ws = [] →
    runs others (replay_or s (tc_CommandID v) (λ entry, resolveTransition entry v) go) x1 (λ a _ _, a = (order, true)) (λ e _ _, gives_out e)) as Hgo.
  { intros go ws x1 Hg ->. apply replay_or_answers; [done|by rewrite (goes_on_own _ _ Hg)|]. destruct Hg as [Hg _ _]. by eapply found_later. }
  rule (runs_settle (Qm := λ _ ws (_ : Tx Tables Write E), ws = []) (Fm := λ e ws (_ : Tx Tables Write E), ws = [] ∧ (e = ErrNoRows ∨ gives_out e))).
  - intros c o c' x' Hr. destruct (load_runs (tc_OrderID v) x Hown _ _ _ _ Hr) as (ws & Hg & H).
    destruct (load_explained (tc_OrderID v) x Hown (fd_explained _ _ _ _ Hf) _ _ _ _ Hr) as (ws' & _ & H'). exists ws. destruct o; naive_solver.
  - intros current ws x1 Hg Hws. by eapply Hgo.
  - intros e ws x1 Hg [Hws [->|He]]; [by eapply Hgo|]. rewrite (missing_row _ He). by rule runs_throw.
Qed.
Lemma creation_answers s v order (x : Tx Tables Write E) :
  sv_history s = Some (mkHistoryStore true) → x_own x = [] →
  found (cc_CommandID v) (λ entry, resolveCreate entry v) order (x_base x) →
  runs others (create_in_tx s v) x (λ a _ _, a = (order, true)) (λ e _ _, gives_out e).
Proof using SL context_error. apply replay_or_answers. Qed.

(** Outside of its transaction a command that is found adds nothing. *)
Lemma commit_or_resolve_answers tx resolve conflict order c w o c' w' :
  commit_or_resolve tx resolve conflict c w = (o, c', w') →
  (∀ t g, others (w_tables w) t → runs others tx (mkTx t [] g) (λ a _ _, a = (order, true)) (λ e _ _, gives_out e)) →
  o = Val (order, true) ∨ ∃ e, o = Fail e ∧ gives_out e.
Proof using SL.
  intros H Htx. unfold commit_or_resolve, settle at 1 in H. destruct (WithTx tx c w) as [[o1 c1] w1] eqn:E1.
  destruct (with_tx_answers others workflow_sentinel _ _ E1 Htx) as [(a & -> & ->)|(e & -> & Hn & Hf)]; cbn in H.
  - injection H as <- <- <-. by left.
  - assert (isUniqueViolation e = false) as Hu.
    { unfold isUniqueViolation. destruct (errors_As e) as [p|] eqn:Ee; [|done]. rewrite bool_decide_eq_false_2 by (by apply Hn). done. }
    rewrite Hu in H. injection H as <- <- <-. right. by exists e.
Qed.
Lemma row_identity t row id : explained t → row ∈ t_history t → same_command id row = true → hr_event_id row = id.
Proof.
  intros [_ _ Hrows _ _ _] Hin Hid. rewrite Forall_forall in Hrows. destruct (Hrows row Hin) as (p & [[_ Hk] _ _ _]).
  unfold same_command in Hid. rewrite Hk in Hid. apply orb_true_iff in Hid as [Hid|Hid]; by apply bool_decide_eq_true in Hid.
Qed.
(** The row of a committed command is found. *)
Lemma replayed_found id intent resolve order t :
  (∀ e p, decodeEventPayload e = inr p → same_intent (ep_Intent p) intent = true → resolve e = inr (ep_Order p)) →
  explained t → replayed id intent order t → (∀ row, row ∈ t_history t → hr_event_id row = id → readable row) → found id resolve order t.
Proof.
  intros Hres He (row & p & Hin & Hid & Hp & Hsame & <-) Hread. split; [done|].
  destruct (readable_scanned row) as (e & Hs & Hd).
  { apply Hread; [done|]. by eapply row_identity. }
  exists row, e. split_and!; [done..|]. apply Hres; [|done]. unfold row_payload in Hp. rewrite Hd in Hp. by case_match; simplify_eq.
Qed.
Lemma replayed_once id intent order t :
  explained t → replayed id intent order t → length (filter (λ row, hr_event_id row = id) (t_history t)) = 1%nat.
Proof.
  intros He (row & p & Hin & Hid & _). apply (row_identity _ _ _ He) in Hid; [|done]. pose proof (ex_once _ He) as Hn.
  apply NoDup_fmap_1 in Hn as Hn'. apply (NoDup_filter (λ row, hr_event_id row = id)) in Hn'.
  assert (row ∈ filter (λ row, hr_event_id row = id) (t_history t)) as Hrow by (by apply list_elem_of_filter).
  assert (∀ r, r ∈ filter (λ row, hr_event_id row = id) (t_history t) → r = row) as Hall.
  { intros r [Hr Hin']%list_elem_of_filter. eapply (explained_row t r row id); [done..| |]; unfold same_command;
      by rewrite bool_decide_eq_true_2. }
  destruct (filter _ (t_history t)) as [|a [|b l]]; [by apply not_elem_of_nil in Hrow|done|].
  rewrite (Hall a), (Hall b) in Hn' by set_solver. apply NoDup_cons in Hn' as [Hn' _]. set_solver.
Qed.


Lemma create_resolves v e p : decodeEventPayload e = inr p → same_intent (ep_Intent p) (create_intent v) = true → resolveCreate e v = inr (ep_Order p).
Proof.
  intros Hp Hm. unfold resolveCreate. rewrite Hp. cbn.
  change (matchesCreate (ep_Intent p) v) with (same_intent (ep_Intent p) (create_intent v)). by rewrite Hm.
Qed.

(** A service as [NewService] builds it. *)
Definition a_service (author : string) : Ptr Service := Some (mkService true (Some (mkHistoryStore true)) true author true true).
Lemma guard_of_service {V} author v (m : Service → V → DbM (E := E) (Order * bool)) c (w : World Tables E) o c' w' :
  (let! s' := or_fail id (Service_validate (a_service author)) in do! ctxErr; let! v' := or_fail id (inr v) in m s' v') c w = (o, c', w') →
  (∃ e, o = Fail e ∧ gives_out e) ∨ ∃ s' c1, sv_history s' = Some (mkHistoryStore true) ∧ m s' v c1 w = (o, c', w').
Proof using context_error.
  unfold bind. cbn. destruct (ctxErr c w) as [[o2 c2] w2] eqn:E2.
  apply ctxErr_inv in E2 as [-> [->|[cause ->]]]; cbn; [intros H; right; do 2 eexists; split; [|exact H]; done|]. intros [= <- <- <-].
  left. eexists. split; [done|apply context_gives_out].
Qed.
Lemma committed_answers author command cid intent order c w o c' w' :
  handle (a_service author) command c w = (o, c', w') → valid_command command = Some (cid, intent) →
  explained (w_tables w) → replayed cid intent order (w_tables w) →
  (∀ row, row ∈ t_history (w_tables w) → hr_event_id row = cid → readable row) →
  o = Val (order, true) ∨ ∃ e, o = Fail e ∧ gives_out e.
Proof using SL context_error.
  intros H Hv He Hrep Hread. destruct command as [raw|raw]; cbn in Hv; unfold handle, Create, Transition in H.
  - destruct (CreateCommand_validate raw) as [|v]; [done|]. injection Hv as <- <-.
    apply guard_of_service in H as [H|(s & c1 & Hs & H)]; [by right|].
    eapply commit_or_resolve_answers; [exact H|]. intros t g Ho. apply creation_answers; [done..|].
    eapply found_later; [exact Ho|]. eapply replayed_found; [|done..].
    apply create_resolves.
  - destruct (TransitionCommand_validate raw) as [|v]; [done|]. injection Hv as <- <-.
    apply guard_of_service in H as [H|(s & c1 & Hs & H)]; [by right|].
    eapply commit_or_resolve_answers; [exact H|]. intros t g Ho. apply transition_answers; [done..|].
    eapply found_later; [exact Ho|]. eapply replayed_found; [|done..].
    intros e p Hp Hm. unfold resolveTransition. rewrite Hp. cbn. change (matchesTransition (ep_Intent p) v) with (same_intent (ep_Intent p) (transition_intent v)). by rewrite Hm.
Qed.
(** A command that may be replayed fails with the database, or in what it goes on to do. *)
Lemma replay_or_fails s id resolve order go (x : Tx Tables Write E) G :
  sv_history s = Some (mkHistoryStore true) → x_own x = [] →
  (∀ x1, x_own x1 = [] → runs others go x1 (λ _ _ _, True) (λ e _ x', G e (x_base x'))) →
  runs others (replay_or s id resolve go) x (λ _ _ _, True)
    (λ e _ x', good id resolve order (x_base x') → gives_out e ∨ G e (x_base x')).
Proof using SL context_error.
  intros Hs Hown Hgo. unfold replay_or. rewrite Hs, bind_settle.
  rule runs_settle; [by apply find_cases|cbn..].
  - intros found ws x1 Hg [-> Hf]. destruct found as [e|].
    + destruct Hf as (row & Hin & Hid & Hsc).
      rule (runs_bind (Qm := λ _ _ _, True)); [|intros; by rule runs_ret]. rule runs_or_fail.
      destruct (resolve e) as [err|] eqn:Hr; [|done]. intros Hgood. destruct (Hgood row Hin Hid) as (e' & Hs' & Hr'). congruence.
    + eapply runs_impl; [apply Hgo; by rewrite (goes_on_own _ _ Hg)|done|]. cbn. auto.
  - intros e ws x1 _ Hf. rule runs_throw. intros Hgood. destruct Hf as [He|Hu]; [by left|]. by destruct (good_readable _ _ _ _ Hgood).
Qed.

(** ** The same creation, at the same time *)

(** The entry of the service could not be built or stored. *)
Definition invalid_entry (e : GoError) : Prop := errors_Is e "orderworkflow.ErrInvalidEntry" = true.
(** A statement met a row of the order or of the command. *)
Definition collided (oid cid : string) (t : Tables) (e : GoError) : Prop :=
  isUniqueViolation e = true ∧ (is_Some (t_orders t !! oid) ∨ ∃ row, row ∈ t_history t ∧ same_command cid row = true).
Lemma gives_out_wrapped f e args : gives_out e → gives_out (Errorf f [e] args).
Proof. intros [Hn Hf]. split; [intros p; rewrite as_wrapped; apply Hn|]. intros name Hm. rewrite is_wrapped. by apply Hf. Qed.
Lemma collided_wrapped oid cid t f e args : collided oid cid t e → collided oid cid t (Errorf f [e] args).
Proof. unfold collided, isUniqueViolation. by rewrite as_wrapped. Qed.
Lemma refused_collided {A} oid cid (st : Statement Tables Write A) (x x' : Tx Tables Write E) e :
  refused workflow_sentinel st x x' e →
  (∀ errs p, st (apply_writes (x_base x') (x_own x)) = inl errs → p ∈ errs →
     pg_Code p ≠ unique_violation ∨ pg_ConstraintName p ∈ command_keys ∧
       (is_Some (t_orders (x_base x') !! oid) ∨ ∃ row, row ∈ t_history (x_base x') ∧ same_command cid row = true)) →
  gives_out e ∨ collided oid cid (x_base x') e.
Proof.
  intros [Hf [Hn|(p & errs & He & Hin & Hst)]] Hp; [by left; split|].
  destruct (decide (pg_Code p = unique_violation)) as [Hu|Hu].
  - destruct (Hp errs p Hst Hin) as [?|[Hk Hrow]]; [done|]. right. split; [|done]. unfold isUniqueViolation. rewrite He.
    by rewrite !bool_decide_eq_true_2.
  - left. split; [|done]. intros q. rewrite He. by intros [= <-].
Qed.
Lemma check_code p ok code name : p ∈ unless_check ok code name → pg_Code p = code.
Proof. unfold unless_check. destruct ok; [by intros ?%not_elem_of_nil|]. by intros ->%list_elem_of_singleton. Qed.
Lemma order_check_code p row : p ∈ order_checks row → pg_Code p ≠ unique_violation.
Proof. unfold order_checks, varchar. rewrite !elem_of_app. by intros [Hp|[Hp|[Hp|Hp]]]; apply check_code in Hp as ->. Qed.
Lemma history_check_code p row : p ∈ history_checks row → pg_Code p ≠ unique_violation.
Proof. unfold history_checks, varchar. rewrite !elem_of_app. by intros [Hp|[Hp|[Hp|[Hp|[Hp|Hp]]]]]; apply check_code in Hp as ->. Qed.
Lemma key_present p present name : p ∈ unless_key present name → present = true ∧ p = mkPgError unique_violation name.
Proof. unfold unless_key. destruct present; [|by intros ?%not_elem_of_nil]. by intros ->%list_elem_of_singleton. Qed.

(** The rows that stand against a creation, in tables that the history explains. *)
Lemma no_order_no_rows t row : explained t → row ∈ t_history t → hr_aggregate_type row = orderAggregateType → t_orders t !! hr_aggregate_id row ≠ None.
Proof.
  intros [_ Ho Hrows _ _ _] Hin Ht Hnone. specialize (Ho (hr_aggregate_id row)). rewrite Hnone in Ho. cbn in Ho.
  apply (f_equal length) in Ho. unfold log in Ho. rewrite <- (rows_events _ _ Hrows) in Ho.
  assert (row ∈ filter (is_row_of (hr_aggregate_id row)) (t_history t)) as Hf by (by apply list_elem_of_filter).
  destruct (filter _ _); [by apply not_elem_of_nil in Hf|done].
Qed.
Lemma history_key_collides cid row t p :
  explained t → hr_aggregate_type row = orderAggregateType → t_orders t !! hr_aggregate_id row = None →
  hr_event_id row = cid → hr_idempotency_key row = cid → p ∈ history_keys row t →
  pg_ConstraintName p ∈ command_keys ∧ ∃ r, r ∈ t_history t ∧ same_command cid r = true.
Proof.
  intros He Ht Hno Hi Hk. unfold history_keys. rewrite !elem_of_app, Hi, Hk. unfold same_command.
  intros [Hp|[Hp|Hp]]; apply key_present in Hp as [(r & Hin & Hr)%existsb_exists ->]; apply list_elem_of_In in Hin.
  - exfalso. unfold same_revision in Hr. rewrite !andb_true_iff, !bool_decide_eq_true in Hr. destruct Hr as [[Hrt Hra] _].
    apply (no_order_no_rows t r He Hin); congruence.
  - split; [by apply (bool_decide_eq_true_1 _)|]. exists r. by rewrite Hr.
  - split; [by apply (bool_decide_eq_true_1 _)|]. exists r. by rewrite Hr, orb_true_r.
Qed.
Lemma outbox_key_collides cid e t p :
  explained t → entry_EventID e = cid → entry_IdempotencyKey e = cid → p ∈ outbox_keys e t →
  pg_ConstraintName p ∈ command_keys ∧ ∃ r, r ∈ t_history t ∧ same_command cid r = true.
Proof.
  intros [_ _ _ _ Hout _] Hi Hk. unfold outbox_keys. rewrite elem_of_app, Hi, Hk. unfold same_command.
  assert (∀ e', e' ∈ t_outbox t → ∃ r, r ∈ t_history t ∧ mirrors r e') as Hrow.
  { intros e' [i He']%list_elem_of_lookup. destruct (Forall2_lookup_r _ _ _ _ _ Hout He') as (r & Hr & Hm).
    exists r. split; [by eapply list_elem_of_lookup_2|done]. }
  intros [Hp|Hp]; apply key_present in Hp as [(e' & Hin & Hr)%existsb_exists ->]; apply list_elem_of_In, Hrow in Hin as (r & Hin & [[Hmi Hmk] _ _ _]);
    apply bool_decide_eq_true in Hr; (split; [by apply (bool_decide_eq_true_1 _)|]); exists r; (split; [done|]); rewrite orb_true_iff, !bool_decide_eq_true; [left|right]; congruence.
Qed.

(** How the writes of a creation fail. *)
Definition creation_fails (oid cid : string) (e : GoError) (t : Tables) : Prop :=
  explained t → gives_out e ∨ invalid_entry e ∨ collided oid cid t e.
Lemma creation_wrapped oid cid t f e args : creation_fails oid cid e t → errors_Is (Errorf f [e] args) "orderworkflow.ErrInvalidEntry" = errors_Is e "orderworkflow.ErrInvalidEntry" → creation_fails oid cid (Errorf f [e] args) t.
Proof.
  intros H Hi He. destruct (H He) as [Hg|[Hg|Hg]]; [left; by apply gives_out_wrapped|right; left|right; right; by apply collided_wrapped].
  unfold invalid_entry in Hg |- *. by rewrite Hi.
Qed.
Lemma insert_order_fails order cid (x : Tx Tables Write E) :
  x_own x = [] → runs others (wrap_errors (λ err, Errorf "insert order: %w" [err] []) (on_tx (insert_order order))) x
    (λ _ ws x', ws = [InsertOrder order] ∧ order_keys order (x_base x') = []) (λ e _ x', creation_fails (o_OrderID order) cid e (x_base x')).
Proof using SL.
  intros Hown. rule runs_wrap. eapply runs_impl; [rule (runs_on_tx others workflow_sentinel)|cbn..].
  - intros [] ws x' _ Hs. rewrite Hown in Hs. apply write_row_inr in Hs as [-> Hk]. by apply app_eq_nil in Hk as [_ Hk].
  - intros e ws x' _ [-> Hr]. apply creation_wrapped; [|by rewrite is_wrapped]. intros He.
    apply (refused_collided (o_OrderID order) cid) in Hr as [Hr|Hr]; [by left|by right; right|].
    intros errs p Hst Hin. rewrite Hown in Hst. cbn in Hst. unfold insert_order, write_row in Hst.
    destruct (order_checks order ++ order_keys order (x_base x')) as [|q qs] eqn:Eq; [done|]. injection Hst as <-. rewrite <- Eq in Hin.
    apply elem_of_app in Hin as [Hin|Hin]; [left; by eapply order_check_code|right].
    unfold order_keys in Hin. apply key_present in Hin as [Hpres%bool_decide_eq_true ->]. split; [by apply (bool_decide_eq_true_1 _)|by left].
Qed.
Lemma insert_fails e order cid (x : Tx Tables Write E) :
  x_own x = [InsertOrder order] → in_force x → entry_Aggregate e = mkAggregate orderAggregateType (o_OrderID order) →
  entry_EventID e = cid → entry_IdempotencyKey e = cid →
  runs others (Insert (Some (mkHistoryStore true)) (Some on_tx) e) x (λ _ _ _, True) (λ err _ x', creation_fails (o_OrderID order) cid err (x_base x')).
Proof using SL context_error.
  intros Hown Hforce Ha Hi Hk. unfold Insert, store_session. cbn [hs_db].
  assert (∀ t err, invalid_entry err → creation_fails (o_OrderID order) cid err t) as Hinv by (intros; right; by left).
  rule (runs_bind (Qm := λ query ws x1, ws = [] ∧ query = on_tx ∧ x1 = x)); [by rule runs_ret|]. intros ? ? ? _ (-> & -> & ->).
  rule (runs_bind (Qm := λ _ ws x1, x1 = x)); [rule runs_ctxErr; [done|intros ? ?; left; apply context_gives_out]|]. intros ? ? ? _ ->.
  rule (runs_bind (Qm := λ _ ws x1, x1 = x)); [destruct (entry_Validate e); [rule runs_throw; by apply Hinv|by rule runs_ret]|]. intros ? ? ? _ ->.
  rule (runs_bind (Qm := λ text ws x1, x1 = x)); [rule runs_or_fail; destruct (entry_Marshal e); [by apply Hinv|done]|]. intros text ? ? _ ->.
  destruct (_ <? _); [rule runs_throw; by apply Hinv|]. rule runs_wrap.
  eapply runs_impl; [rule (runs_on_tx others workflow_sentinel)|done|cbn]. intros err ws4 x' Hg [-> Hr].
  apply creation_wrapped; [|by rewrite is_wrapped]. intros He.
  apply (refused_collided (o_OrderID order) cid) in Hr as [Hr|Hr]; [by left|by right; right|].
  intros errs p Hst Hin. unfold insert_history in Hst. rewrite Hown in Hst. cbn in Hst.
  destruct (jsonb text) as [stored|]; [|injection Hst as <-; left; by apply list_elem_of_singleton in Hin as ->].
  assert (t_orders (x_base x') !! o_OrderID order = None) as Hno.
  { assert (order_keys order (x_base x') = []) as Hok.
    { apply (still_pending _ _ _ (InsertOrder order) Hg Hforce). rewrite Hown. by left. }
    unfold order_keys, unless_key in Hok. case_bool_decide as Hs; [done|]. by rewrite <- eq_None_not_Some in Hs. }
  unfold write_row in Hst. destruct (_ ++ _) as [|q qs] eqn:Eq in Hst; [done|]. injection Hst as <-. rewrite <- Eq in Hin.
  apply elem_of_app in Hin as [Hin|Hin]; [left; by eapply history_check_code|right].
  apply (history_key_collides cid _ (x_base x')) in Hin as [Hp Hrow]; cbn; rewrite ?Ha; [|done..]. split; [done|by right].
Qed.
Lemma enqueue_fails e oid cid (x : Tx Tables Write E) :
  (∀ t, t_outbox (apply_writes t (x_own x)) = t_outbox t) → entry_EventID e = cid → entry_IdempotencyKey e = cid →
  runs others (wrap_errors (λ err, Errorf "enqueue outbox: %w" [err] []) (Enqueue e)) x (λ _ _ _, True) (λ err _ x', creation_fails oid cid err (x_base x')).
Proof using SL OL.
  intros Hout Hi Hk. rule runs_wrap.
  eapply runs_impl; [rule (answers_runs others workflow_sentinel (enqueued e)); intros ????; apply enqueue_answers|done|cbn].
  intros err ws x' Hg [-> Hr]. apply creation_wrapped; [|by rewrite is_wrapped]. intros He.
  apply (refused_collided oid cid) in Hr as [Hr|Hr]; [by left|by right; right|].
  intros errs p Hst Hin. unfold enqueued, write_row in Hst. destruct (outbox_keys _ _) as [|q qs] eqn:Eq in Hst; [done|].
  injection Hst as <-. rewrite <- Eq in Hin. right. unfold outbox_keys in Hin. rewrite Hout in Hin.
  apply (outbox_key_collides cid e (x_base x')) in Hin as [Hp Hrow]; [|done..]. split; [done|by right].
Qed.
Lemma invalid_built author now cid ty order intent err : buildEntry author now cid ty order intent = inl err → invalid_entry err.
Proof.
  unfold buildEntry.
  do 4 (match goal with |- context [wrapping _ ?r] => destruct r; cbn [wrapping and_then]; [by intros [= <-]|] end). done.
Qed.
Lemma record_entry_fails s author now ty order intent cid (x : Tx Tables Write E) :
  sv_history s = Some (mkHistoryStore true) → utf8_payload (mkPayload intent order) → x_own x = [InsertOrder order] → in_force x →
  runs others (record_entry s (buildEntry author now cid ty order intent)) x (λ _ _ _, True)
    (λ err _ x', creation_fails (o_OrderID order) cid err (x_base x')).
Proof using LW SL OL context_error.
  intros Hs Hu Hown Hforce. unfold record_entry. rewrite Hs.
  rule (runs_bind (Qm := λ e ws x1, x1 = x ∧ ws = [] ∧ buildEntry author now cid ty order intent = inr e)).
  { rule runs_or_fail. destruct (buildEntry _ _ _ _ _ _) as [err|e] eqn:Hb; [|done]. right. left. by eapply invalid_built. }
  intros e ? ? _ (-> & -> & Hb). destruct (entry_of_build _ _ _ _ _ _ _ Hb Hu) as (Ha & _ & Hi & Hk & _).
  rewrite bind_settle. rule runs_settle; [rule runs_fails; [apply insert_runs|by apply insert_fails]|cbn..].
  - intros _ ws x1 Hg (text & stored & _ & _ & -> & _). eapply runs_impl; [apply (enqueue_fails e (o_OrderID order) cid); [|done..]|done|done].
    intros t. rewrite (on_own _ _ _ Hg), Hown. done.
  - intros err ws x1 _ Hf. by rule runs_throw.
Qed.
Lemma create_fails s raw v order (x : Tx Tables Write E) :
  sv_history s = Some (mkHistoryStore true) → x_own x = [] → CreateCommand_validate raw = inr v →
  runs others (create_in_tx s v) x (λ _ _ _, True) (λ err _ x', good (cc_CommandID v) (λ e, resolveCreate e v) order (x_base x') →
    gives_out err ∨ creation_fails (cc_OrderID v) (cc_CommandID v) err (x_base x')).
Proof using LW SL OL context_error.
  intros Hs Hown Hv. apply replay_or_fails; [done..|]. intros x1 Hown1. destruct (create_valid _ _ Hv) as (Hi & Ha & Hr & Hm).
  rule (runs_bind (Qm := λ _ ws _, ws = [])); [by rule runs_now|]. intros time ws x2 Hg2 ->. cbn zeta.
  pose proof (goes_on_own _ _ Hg2) as Hown2. rewrite Hown1 in Hown2.
  rewrite bind_settle. rule runs_settle; [by apply (insert_order_fails _ (cc_CommandID v))|cbn..].
  - intros _ ws x3 Hg3 [-> Hk]. pose proof (on_own _ _ _ Hg3) as Hown3. rewrite Hown2 in Hown3. cbn in Hown3.
    rewrite bind_settle. rule runs_settle; [apply (record_entry_fails s _ _ _ _ _ (cc_CommandID v) x3 Hs); [|exact Hown3|]|cbn..].
    + split; cbn; [done..|]. exact Hm.
    + unfold in_force. rewrite Hown3. by constructor.
    + intros [] ws' x4 _ _. by rule runs_ret.
    + intros err ws' x4 _ Hf. by rule runs_throw.
  - intros err ws x3 _ Hf. by rule runs_throw.
Qed.

(** An order that exists is not created again. *)
Lemma not_created_again oid cid t t' row intent order :
  others t t' → explained t' → is_Some (t_orders t !! oid) → none_of cid t → row ∈ t_history t' →
  recorded cid (mkPayload intent order) row → in_Action intent = "create" → o_OrderID order = oid → False.
Proof.
  intros Ho He. induction Ho as [t|t t1 t' (cid' & p & [Hl Hf (row' & e & Hr' & _ & Ht1)]) Ho IH]; intros Hs Hn Hin Hr Hc Hid.
  { unfold none_of in Hn. rewrite Forall_forall in Hn. specialize (Hn row Hin). destruct (rc_id _ _ _ Hr) as [Hi _].
    unfold same_command in Hn. by rewrite bool_decide_eq_true_2 in Hn. }
  destruct (same_command cid row') eqn:Hsame.
  - assert (row' = row) as ->.
    { eapply (explained_row t' row' row cid He); [|exact Hin|exact Hsame|].
      - apply served_history in Ho as [rows ->]. subst t1. cbn. rewrite !elem_of_app. left. right. by left.
      - destruct (rc_id _ _ _ Hr) as [Hi _]. unfold same_command. by rewrite bool_decide_eq_true_2. }
    assert (p = mkPayload intent order) as ->. { pose proof (rc_payload _ _ _ Hr) as H1. rewrite (rc_payload _ _ _ Hr') in H1. by injection H1. }
    cbn in Hl. unfold legal in Hl. rewrite Hid in Hl. destruct Hs as [o Hs]. rewrite Hs, Hc in Hl.
    apply andb_true_iff in Hl as [_ Hl]. unfold transitionStatus in Hl. rewrite !bool_decide_eq_false_2 in Hl by (intros [? [=]]). done.
  - apply IH; [done| | |done..]; subst t1; cbn.
    + destruct (decide (o_OrderID (ep_Order p) = oid)) as [<-|Hne]; [rewrite lookup_insert_eq|by rewrite lookup_insert_ne]. by eexists.
    + apply Forall_app. split; [done|]. by constructor.
Qed.

(** Why a creation that another one has overtaken may still fail: the database gives out, also when the committed
    row is looked up after the collision, or the service cannot build its own entry. *)
Definition excused (e : GoError) : Prop :=
  gives_out e ∨ invalid_entry e ∨ ∃ collision lookup, e = Join [collision; lookup] ∧ gives_out lookup.
Lemma find_in_db cid c (w : World Tables E) o c' w' :
  FindByCommandID (Some (mkHistoryStore true)) (Some on_db) cid c w = (o, c', w') →
  others (w_tables w) (w_tables w') ∧
  (unreadable_row cid (w_tables w') ∨
   match o with
   | Val (Some e) => ∃ row, row ∈ t_history (w_tables w') ∧ same_command cid row = true ∧ scanHistoryRow row = inr e
   | Val None => ∃ t, others (w_tables w) t ∧ others t (w_tables w') ∧ none_of cid t
   | Fail e => gives_out e
   | Panic => False
   end).
Proof using SL context_error.
  unfold FindByCommandID, store_session. cbn [hs_db]. unfold bind at 1. cbn [ret]. unfold bind at 1.
  destruct (ctxErr c w) as [[o1 c1] w1] eqn:E1. apply ctxErr_inv in E1 as [-> [->|[cause ->]]];
    [|intros [= <- <- <-]; split; [done|right; apply context_gives_out]].
  unfold settle, one_row, bind. destruct (on_db (history_by_command cid) c1 w) as [[o2 c2] w2] eqn:E2.
  apply (on_db_select others workflow_sentinel) in E2 as [(t & H1 & H2 & ->)|(H1 & e & -> & He)].
  - destruct (List.find _ _) as [row|] eqn:Ef; cbn.
    + apply List.find_some in Ef as [Hin%list_elem_of_In Hid].
      assert (row ∈ t_history (w_tables w2)) as Hin2. { apply served_history in H2 as [rows ->]. apply elem_of_app. by left. }
      intros H. split; [|destruct (scanHistoryRow row) as [err|e] eqn:Hs].
      * unfold or_fail, ret, throw in H. destruct (scanHistoryRow row); [case_match|]; injection H as <- <- <-; by etrans.
      * assert (w2 = w') as <- by (cbn in H; unfold throw, ret in H; case_match; by injection H). left. by exists row, err.
      * injection H as <- <- <-. right. by exists row.
    + intros [= <- <- <-]. split; [by etrans|right]. exists t. split_and!; [done..|]. apply Forall_forall.
      intros row Hin%list_elem_of_In. by apply (List.find_none _ _ Ef).
  - rewrite (missing_row _ He). intros [= <- <- <-]. split; [done|by right].
Qed.

(** After a collision the committed row is found: the creation is a replay, or the lookup fails. *)
Lemma collision_resolved s v conflict order row e c (w : World Tables E) err c' w' :
  sv_history s = Some (mkHistoryStore true) →
  settle (resolveByCommandID s (cc_CommandID v) (λ entry, resolveCreate entry v))
    (λ resolveErr, throw (Join [e; resolveErr]))
    (λ found, match found with Some resolved => ret (resolved, true) | None => throw (conflict e) end) c w = (Fail err, c', w') →
  explained (w_tables w') → good (cc_CommandID v) (λ entry, resolveCreate entry v) order (w_tables w') →
  row ∈ t_history (w_tables w') → recorded (cc_CommandID v) (mkPayload (create_intent v) order) row → o_OrderID order = cc_OrderID v →
  others (w_tables w) (w_tables w') ∧
  ((∃ lookup, err = Join [e; lookup] ∧ gives_out lookup) ∨
   err = conflict e ∧ ∀ t, others t (w_tables w) → ¬ collided (cc_OrderID v) (cc_CommandID v) t e).
Proof using SL context_error.
  intros Hhs H He Hgood Hin Hrec Hoid. unfold settle, resolveByCommandID, bind in H. rewrite Hhs in H.
  destruct (FindByCommandID _ _ _ _ _) as [[o1 c1] w1] eqn:E1. apply find_in_db in E1 as [Ho [Hu|Hc]].
  { exfalso. assert (w1 = w') as -> by (unfold or_fail, ret, throw in H; repeat case_match; by simplify_eq). by eapply good_readable. }
  destruct o1 as [[entry|]|lookup|]; [| | |done].
  - destruct Hc as (r & Hr & Hid & Hsc). exfalso.
    assert (w1 = w') as -> by (unfold or_fail, ret, throw in H; repeat case_match; by simplify_eq).
    destruct (Hgood r Hr Hid) as (e' & Hs' & Hres). rewrite Hsc in Hs'. injection Hs' as <-. by rewrite Hres in H.
  - cbn in H. injection H as <- <- <-. split; [done|]. right. split; [done|]. destruct Hc as (t2 & H1 & H2 & Hn). intros t Ht [_ [[o Hord]|(r & Hr & Hid)]].
    + destruct (served_row t t2 (cc_OrderID v) o) as (o' & Ho' & _); [by etrans|done|].
      eapply (not_created_again _ _ t2 _ row (create_intent v) order); [exact H2|done|by eexists|done..].
    + assert (others t t2) as [rows Hrows]%served_history by (by etrans). unfold none_of in Hn. rewrite Forall_forall in Hn.
      rewrite (Hn r) in Hid; [done|]. rewrite Hrows. apply elem_of_app. by left.
  - cbn in H. injection H as <- <- <-. split; [done|]. left. by exists lookup.
Qed.

Lemma payload_of_order t row cid p : explained t → row ∈ t_history t → recorded cid p row → in_OrderID (ep_Intent p) = o_OrderID (ep_Order p).
Proof.
  intros [Hre _ _ _ _ _] Hin Hr.
  assert (p ∈ log t) as Hp by (apply list_elem_of_omap; exists row; split; [done|apply Hr]).
  revert Hre Hp. generalize (t_orders t) (∅ : gmap string Order). induction (log t) as [|q ps IH]; intros o' o; cbn; [by intros _ ?%not_elem_of_nil|].
  destruct (legal _ _ _) eqn:Hl; [|done]. intros Hre [->|Hp]%elem_of_cons; [|by eapply IH].
  unfold legal in Hl. apply andb_true_iff in Hl as [Hl _]. by apply bool_decide_eq_true in Hl.
Qed.
Lemma gives_out_as e0 e :
  errors_As e = errors_As e0 → (∀ name, workflow_sentinel name → errors_Is e name = errors_Is e0 name) → gives_out e0 → gives_out e.
Proof. intros HA HI [Hn Hf]. split; [intros p; rewrite HA; apply Hn|]. intros name Hm. rewrite HI by done. by apply Hf. Qed.
Lemma overtaken_answers author raw v row order c (w : World Tables E) err c' w' :
  handle (a_service author) (Creating raw) c w = (Fail err, c', w') → CreateCommand_validate raw = inr v → explained (w_tables w) →
  row ∈ t_history (w_tables w') → recorded (cc_CommandID v) (mkPayload (create_intent v) order) row →
  (∀ row, row ∈ t_history (w_tables w') → hr_event_id row = cc_CommandID v → readable row) → excused err.
Proof using LW SL OL context_error.
  intros H Hv He Hin Hrec Hread. pose proof (handle_others _ _ _ _ _ _ _ H) as Ho.
  assert (explained (w_tables w')) as He' by (by eapply others_explained).
  assert (good (cc_CommandID v) (λ e, resolveCreate e v) order (w_tables w')) as Hgood.
  { intros r. apply resolved_row. eapply replayed_found; [apply create_resolves|done|by eapply recorded_replayed|done]. }
  unfold handle, Create in H. rewrite Hv in H. apply guard_of_service in H as [(e & [= <-] & Hg)|(s & c1 & Hs & H)]; [by left|].
  unfold commit_or_resolve in H. unfold settle at 1 in H. destruct (WithTx (create_in_tx s v) c1 w) as [[o1 c2] w1] eqn:E1.
  pose proof (with_tx_run others workflow_sentinel _ _ _ E1 (λ t g, create_fails s raw v order (mkTx t [] g) Hs eq_refl Hv)) as Hrun.
  assert (∀ e, gives_out e → isUniqueViolation e = false) as Hunique.
  { intros e [Hn _]. unfold isUniqueViolation. destruct (errors_As e) as [p|] eqn:Ee; [|done]. by rewrite bool_decide_eq_false_2 by (by apply Hn). }
  destruct o1 as [a|e|]; [done| |done].
  assert (others (w_tables w1) (w_tables w') →
    gives_out e ∨ invalid_entry e ∨ ∃ t, others t (w_tables w1) ∧ collided (cc_OrderID v) (cc_CommandID v) t e) as Hcase.
  { intros Ho1. destruct Hrun as [(a & ws & x & t & [?|(e1 & [= <-] & Hn & Hf)] & _)|[(e1 & [= <-] & Hn & Hf & _)|(e0 & e1 & ws & x & [= <-] & HF & Hx & Hx1 & HA & HI)]];
      [done|left; by split..|].
    destruct (HF (good_before _ _ _ _ _ (transitivity Hx1 Ho1) Hgood)) as [Hg|Hc].
    - left. by apply (gives_out_as e0).
    - destruct (Hc (others_explained _ _ Hx He)) as [Hg|[Hi|[Hu Hrow]]]; [left; by apply (gives_out_as e0)|right; left..|right; right].
      + unfold invalid_entry. rewrite HI; [done|by right].
      + exists (x_base x). split; [done|]. split; [|done]. unfold isUniqueViolation. by rewrite HA. }
  destruct (isUniqueViolation e) eqn:Hu; cbn in H.
  - unfold resolveCreateByCommandID in H.
    eapply (collision_resolved s v (λ err, Errorf "%w: create order or command already exists: %w" [ErrConflict; err] []) order row) in H as [Ho1 Hres]; [|done..|].
    + destruct Hres as [(lookup & -> & Hl)|[-> Hnc]]; [right; right; by exists e, lookup|].
      destruct (Hcase Ho1) as [Hg|[Hi|(t & Ht & Hc)]]; [by rewrite (Hunique e Hg) in Hu| |by destruct (Hnc t Ht)].
      right. left. unfold invalid_entry in *. cbn. by rewrite Hi.
    + symmetry. by eapply (payload_of_order _ row _ (mkPayload (create_intent v) order)).
  - injection H as <- <- <-. destruct (Hcase (reflexivity _)) as [Hg|[Hi|(t & Ht & [Hu' _])]]; [by left|by right; left|congruence].
Qed.
Lemma replayed_same id intent order order' t : explained t → replayed id intent order t → replayed id intent order' t → order' = order.
Proof.
  intros He (row & p & Hin & Hid & Hp & _ & <-) (row' & p' & Hin' & Hid' & Hp' & _ & <-).
  rewrite (explained_row t row row' id) in Hp by done. congruence.
Qed.
Lemma transition_action raw v : TransitionCommand_validate raw = inr v → tc_Action v ≠ "create".
Proof.
  unfold TransitionCommand_validate. intros (o & _ & (k & _ & H)%and_then_inr)%and_then_inr.
  destruct (negb _ || _); [done|]. case_bool_decide as Ha; [done|]. case_bool_decide; [done|].
  apply and_then_inr in H as (m & _ & [= <-]). cbn. intros Hc. apply Ha. by rewrite Hc.
Qed.

(** C19: A command that was answered with an order, or is committed though its answer was lost, is answered with that
    order whenever it is sent again, as a replay, whatever was committed meanwhile; only the database or the context may
    stand in the way, never a refusal. A creation that the same creation overtakes while it runs is answered with its
    order too. The command stays committed exactly once. *)
Theorem retry_answers_the_same s command c w o1 c1 w1 w2 author c2 o c3 w3 id intent order :
  explained (w_tables w) →
  handle s command c w = (o1, c1, w1) → others (w_tables w1) (w_tables w2) →
  handle (a_service author) command c2 w2 = (o, c3, w3) →
  valid_command command = Some (id, intent) →
  (∀ row, row ∈ t_history (w_tables w3) → hr_event_id row = id → readable row) →
  let committed t := ∃ row, row ∈ t_history t ∧ recorded id (mkPayload intent order) row in
  let once t := length (filter (λ row, hr_event_id row = id) (t_history t)) = 1%nat in
  ((∃ replay, o1 = Val (order, replay)) ∨ committed (w_tables w2) →
     (o = Val (order, true) ∨ ∃ e, o = Fail e ∧ gives_out e) ∧ once (w_tables w3)) ∧
  (in_Action intent = "create" → committed (w_tables w3) →
     ((∃ replay, o = Val (order, replay)) ∨ ∃ e, o = Fail e ∧ excused e) ∧ once (w_tables w3)).
Proof using LW OL SL context_error.
  intros He H1 H12 H2 Hv Hread. pose proof (handle_others _ _ _ _ _ _ _ H1) as Ho1. pose proof (handle_others _ _ _ _ _ _ _ H2) as Ho2.
  assert (explained (w_tables w2)) as He2. { eapply others_explained; [|exact He]. by etrans. }
  assert (explained (w_tables w3)) as He3 by (by eapply others_explained).
  cbn zeta. split.
  - intros Hc. assert (replayed id intent order (w_tables w2)) as Hr.
    { destruct Hc as [[replay ->]|(row & Hin & Hrec)]; [|by eapply recorded_replayed]. eapply replayed_later; [exact H12|].
      apply handle_settles in H1 as [[_ [? [=]]]|(id' & intent' & Hv' & Hs1)]. rewrite Hv in Hv'. injection Hv' as <- <-.
      by eapply settled_replayed. }
    split; [|by eapply replayed_once, replayed_later]. eapply committed_answers; [exact H2|exact Hv|exact He2|exact Hr|].
    intros row Hin. apply Hread. destruct (served_history _ _ Ho2) as [rows ->]. apply elem_of_app. by left.
  - intros Hact (row & Hin & Hrec). assert (replayed id intent order (w_tables w3)) as Hr by (by eapply recorded_replayed).
    split; [|by eapply replayed_once].
    destruct o as [[order' replay]|err|]; [left; exists replay|right; exists err|].
    + apply handle_settles in H2 as [[_ [? [=]]]|(id' & intent' & Hv' & Hs)]. rewrite Hv in Hv'. injection Hv' as <- <-.
      by rewrite (replayed_same _ _ _ _ _ He3 Hr (settled_replayed _ _ _ _ _ _ Hs)).
    + split; [done|]. destruct command as [raw|raw]; cbn in Hv.
      * destruct (CreateCommand_validate raw) as [|v] eqn:Hval; [done|]. injection Hv as <- <-. by eapply overtaken_answers.
      * destruct (TransitionCommand_validate raw) as [|v] eqn:Hval; [done|]. injection Hv as <- <-. by apply transition_action in Hval.
    + by apply handle_settles in H2 as [[_ [? [=]]]|(? & ? & _ & [])].
Qed.
End Theorems.

(** ** Evaluations *)

Definition create_demo : Command := Creating (mkCreate " order-1 " "cmd-1" (<["channel" := "web"]> ∅)).
Definition confirm_demo : Command := Transiting (mkTransition "order-1" "cmd-2" "confirm" "" ∅).
Definition after {A} (m : DbM (E := Plain) A) (w : World Tables Plain) : World Tables Plain := (m Background w).2.
Definition once_created : World Tables Plain := after (handle demo create_demo) (on_faults []).
Definition then_confirmed : World Tables Plain := after (handle demo confirm_demo) once_created.
Definition answer_lost : World Tables Plain := after (handle demo create_demo) (on_faults [Works; Works; Works; Works; Loses]).

(** The answer of a commit is lost, and the retry finds it. *)
Lemma commands_commit_as_one_witness :
  settled "cmd-1" (create_intent (mkCreate "order-1" "cmd-1" (<["channel" := "web"]> ∅)))
    (Val (mkOrder "order-1" StatusPending 1 5000, true))
    (w_tables answer_lost) (w_tables (after (handle demo create_demo) answer_lost)).
Proof.
  assert (handle demo create_demo Background answer_lost
    = (Val (mkOrder "order-1" StatusPending 1 5000, true), Background, after (handle demo create_demo) answer_lost)) as Hr by by vm_compute.
  apply commands_commit_as_one in Hr as H.
  assert (valid_command create_demo = Some ("cmd-1", create_intent (mkCreate "order-1" "cmd-1" (<["channel" := "web"]> ∅)))) as E
    by by vm_compute.
  rewrite E in H. exact H.
Defined.
Lemma history_explains_tables_witness :
  explained (w_tables (serve demo [(Background, create_demo); (Background, confirm_demo); (Background, confirm_demo)] (on_faults []))).
Proof. exact (proj1 (history_explains_tables demo _ (on_faults []) explained_empty)). Defined.
(** The answer of a creation is lost; sent again, it is answered with the order, which is committed once. *)
Definition retried : World Tables Plain := after (handle demo create_demo) answer_lost.
Definition the_row : HistoryRow := default (mkHistoryRow "" "" 0 "" "" "" None "") (head (t_history (w_tables answer_lost))).
Lemma retry_answers_the_same_witness :
  (handle demo create_demo Background (on_faults [Works; Works; Works; Works; Loses])).1.1 = Fail bad_connection ∧
  (Val (mkOrder "order-1" StatusPending 1 5000, true) = Val (mkOrder "order-1" StatusPending 1 5000, true) ∨
   ∃ e, Val (mkOrder "order-1" StatusPending 1 5000, true) = Fail e ∧ unavailable workflow_sentinel e) ∧
  length (filter (λ row, hr_event_id row = "cmd-1") (t_history (w_tables retried))) = 1%nat.
Proof.
  assert (handle demo create_demo Background (on_faults [Works; Works; Works; Works; Loses])
    = (Fail bad_connection, Background, answer_lost)) as H1 by by vm_compute.
  assert (handle (a_service "workshop") create_demo Background answer_lost
    = (Val (mkOrder "order-1" StatusPending 1 5000, true), Background, retried)) as H2 by by vm_compute.
  assert (valid_command create_demo = Some ("cmd-1", create_intent (mkCreate "order-1" "cmd-1" (<["channel" := "web"]> ∅)))) as Hv
    by by vm_compute.
  assert (t_history (w_tables answer_lost) = [the_row]) as Hr1 by (vm_compute; reflexivity).
  assert (t_history (w_tables retried) = [the_row]) as Hr2 by (vm_compute; reflexivity).
  split; [by rewrite H1|].
  refine (proj1 (retry_answers_the_same _ _ _ _ (on_faults _) _ _ _ _ _ _ _ _ _ _ _ _ explained_empty H1 (reflexivity _) H2 Hv _) _).
  - by intros [].
  - rewrite Hr2. intros row ->%list_elem_of_singleton _. split.
    + apply Z.leb_le. vm_compute. reflexivity.
    + split; apply Z.leb_le; vm_compute; reflexivity.
    + eexists. split; [vm_compute; reflexivity|]. split_and!; vm_compute; reflexivity.
  - right. exists the_row. rewrite Hr1. split; [by left|]. split; [split|split|..]; vm_compute; reflexivity.
Defined.

(** Metadata with an empty value under another key count as the same: the reused command is a replay. *)
Example reused_command_replayed :
  (handle demo (Creating (mkCreate "order-1" "cmd-1" {["a" := ""]})) Background
     (after (handle demo (Creating (mkCreate "order-1" "cmd-1" {["b" := ""]}))) (on_faults []))).1.1
  = Val (mkOrder "order-1" StatusPending 1 5000, true).
Proof. by vm_compute. Qed.
