(* ===== verification/OrderReads.v ===== *)
(** examples/audited-order-workflow-outbox/internal/orderworkflow, the reads of history_store.go: the query text
    and its arguments, the rows it selects, scanning, and the lookups of the audit reader. *)
From Stdlib Require Import Ascii String.
From S2P Require Import Prelude GraphLib SqlTx OrderWorkflow.

(** ** Queries *)

(** Instants that are zero are not set. *)
Record Query := mkQuery {
  q_Aggregate : Ptr AggregateID; q_AggregateType : string; q_FromRevision : Z; q_ToRevision : Z;
  q_FromRecordedAt : Z; q_ToRecordedAt : Z; q_NewestFirst : bool; q_Limit : Z
}.
Inductive SqlArg := ArgString (s : string) | ArgInt (z : Z) | ArgTime (t : Z).
(** What a query adds to its where clause: the text with a verb for the placeholder's number, and the argument. *)
Inductive Condition :=
  | AggregateTypeIs (s : string) | AggregateIDIs (s : string) | RevisionFrom (z : Z) | RevisionTo (z : Z)
  | RecordedFrom (t : Z) | RecordedTo (t : Z).
Definition condition_text (c : Condition) : string :=
  match c with
  | AggregateTypeIs _ => "aggregate_type = $%d" | AggregateIDIs _ => "aggregate_id = $%d"
  | RevisionFrom _ => "revision >= $%d" | RevisionTo _ => "revision <= $%d"
  | RecordedFrom _ => "recorded_at >= $%d" | RecordedTo _ => "recorded_at <= $%d"
  end.
Definition condition_arg (c : Condition) : SqlArg :=
  match c with
  | AggregateTypeIs s | AggregateIDIs s => ArgString s
  | RevisionFrom z | RevisionTo z => ArgInt z
  | RecordedFrom t | RecordedTo t => ArgTime t
  end.
(** What the condition means to the database; a comparison with null is not true. *)
Definition condition_holds (c : Condition) (row : HistoryRow) : bool :=
  match c with
  | AggregateTypeIs s => bool_decide (hr_aggregate_type row = s)
  | AggregateIDIs s => bool_decide (hr_aggregate_id row = s)
  | RevisionFrom z => z <=? hr_revision row
  | RevisionTo z => hr_revision row <=? z
  | RecordedFrom t => match hr_recorded_at row with Some at_ => t <=? at_ | None => false end
  | RecordedTo t => match hr_recorded_at row with Some at_ => at_ <=? t | None => false end
  end.
Definition conditions (query : Query) : list Condition :=
  (match q_Aggregate query with Some a => [AggregateTypeIs (ag_Type a); AggregateIDIs (ag_ID a)] | None => [] end)
  ++ (if bool_decide (q_AggregateType query ≠ "") then [AggregateTypeIs (q_AggregateType query)] else [])
  ++ (if negb (q_FromRevision query =? 0) then [RevisionFrom (q_FromRevision query)] else [])
  ++ (if negb (q_ToRevision query =? 0) then [RevisionTo (q_ToRevision query)] else [])
  ++ (if negb (q_FromRecordedAt query =? 0) then [RecordedFrom (q_FromRecordedAt query)] else [])
  ++ (if negb (q_ToRecordedAt query =? 0) then [RecordedTo (q_ToRecordedAt query)] else []).

Definition history_select : string :=
  "select aggregate_type, aggregate_id, revision, event_id, idempotency_key, event_type, recorded_at, entry_json from audited_order_workflow_audit_entries".
Section Text.
Context `{GU : GoUnicode}.
(** The text of each condition, numbered by the arguments so far. *)
Definition numbered (cs : list Condition) : list string :=
  imap (λ i c, render (condition_text c) [] [FInt (Z.of_nat i + 1)]) cs.
Definition buildHistoryFindQuery (query : Query) : string * list SqlArg :=
  let cs := conditions query in
  ((history_select
    ++ (match cs with [] => "" | _ => " where " ++ String.concat " and " (numbered cs) end)
    ++ (match q_Aggregate query with Some _ => " order by revision" | None => " order by position" end)
    ++ (if q_NewestFirst query then " desc" else "")
    ++ (if (0 <? q_Limit query)%Z then " limit " ++ pretty (q_Limit query) else ""))%string,
   map condition_arg cs).
End Text.

(** The rows the statement selects. *)
Definition find_rows (query : Query) (rows : list HistoryRow) : list HistoryRow :=
  let found := filter (λ row, forallb (λ c, condition_holds c row) (conditions query) = true) rows in
  let ordered := match q_Aggregate query with
                 | Some _ => SliceStable (λ a b, hr_revision a <? hr_revision b) found
                 | None => found
                 end in
  let directed := if q_NewestFirst query then reverse ordered else ordered in
  if 0 <? q_Limit query then take (Z.to_nat (q_Limit query)) directed else directed.

(** ** The reader *)

Definition ErrInvalidQuery : GoError := Sentinel "audit.ErrInvalidQuery" "audit: invalid query".
(** The audit package's checks and histories. *)
Class AuditReader `{AuditTypes} := {
  History : Type;
  Query_Validate : Query → GoError + Query;
  AggregateID_Validate : AggregateID → option GoError;
  Revision_Validate : Z → option GoError;
  NewHistory : list Entry → GoError + History;
  has_snapshot : Entry → bool
}.

Section Reader.
Context `{AT : AuditTypes} `{AL : !AuditLib} `{AR : !AuditReader} {E : Type} `{SE : !SqlEngine Tables Write E} `{SR : !SqlRows E}.
#[local] Abbreviation ReadM := (GoM (World Tables E)).

(** The rows the cursor delivers, scanned one by one; then its error. *)
Fixpoint scan_each (rows : list HistoryRow) : GoError + list Entry :=
  match rows with
  | [] => inr []
  | row :: rows =>
      try! entry := scanHistoryRow row in
      try! entries := scan_each rows in
      inr (entry :: entries)
  end.
Definition scanHistoryRows (rows : list HistoryRow) (err : option GoError) : GoError + list Entry :=
  try! entries := scan_each rows in
  match err with Some e => inl (Errorf "iterate history: %w" [e] []) | None => inr entries end.
Definition Find (s : Ptr HistoryStore) (query : Query) : ReadM (list Entry) :=
  do! store_session s (Some tt);
  do! ctxErr;
  let! normalized := or_fail id (Query_Validate query) in
  let! rows := wrap_errors (λ err, Errorf "query history: %w" [err] [])
                 (on_db (select (λ t, find_rows normalized (t_history t)))) in
  let! (delivered, err, closeErr) := cursor rows in
  let! entries := or_fail id (scanHistoryRows delivered err) in
  do! fail_if (option_map (λ e, Errorf "close history rows: %w" [e] []) closeErr);
  ret entries.

Definition check_aggregate (aggregate : AggregateID) : option GoError :=
  option_map (λ err, Errorf "%w: aggregate: %w" [ErrInvalidQuery; err] []) (AggregateID_Validate aggregate).
Definition of_aggregate (aggregate : AggregateID) (newestFirst : bool) (limit : Z) : Query :=
  mkQuery (Some aggregate) "" 0 0 0 0 newestFirst limit.
Definition LoadHistory (s : Ptr HistoryStore) (aggregate : AggregateID) : ReadM (option History) :=
  do! fail_if (check_aggregate aggregate);
  let! entries := Find s (of_aggregate aggregate false 0) in
  match entries with
  | [] => ret None
  | _ =>
      let! history := or_fail (λ err, Errorf "%w: history: %w" [ErrInvalidEntry; err] []) (NewHistory entries) in
      ret (Some history)
  end.
Definition Latest (s : Ptr HistoryStore) (aggregate : AggregateID) : ReadM (option Entry) :=
  do! fail_if (check_aggregate aggregate);
  let! entries := Find s (of_aggregate aggregate true 1) in
  ret (head entries).
Definition findSnapshot (s : Ptr HistoryStore) (aggregate : AggregateID) (before : Z) : ReadM (option Entry) :=
  do! fail_if (check_aggregate aggregate);
  let! entries := Find s (of_aggregate aggregate true 0) in
  ret (List.find (λ entry, negb (negb (before =? 0) && (before <=? entry_Revision entry)) && has_snapshot entry) entries).
Definition LatestSnapshot (s : Ptr HistoryStore) (aggregate : AggregateID) : ReadM (option Entry) := findSnapshot s aggregate 0.
Definition PreviousSnapshot (s : Ptr HistoryStore) (aggregate : AggregateID) (before : Z) : ReadM (option Entry) :=
  do! fail_if (option_map (λ err, Errorf "%w: before: %w" [ErrInvalidQuery; err] []) (Revision_Validate before));
  findSnapshot s aggregate before.
End Reader.

(** ** The state of deliveries *)

Record DeliveryStatus := mkDelivery {
  ds_Pending : Z; ds_Retrying : Z; ds_Claimed : Z; ds_Published : Z; ds_DeadLetter : Z; ds_OldestPendingSeconds : Z
}.
(** The columns of an outbox record that the diagnostics read. *)
Record OutboxRow := mkOutboxRow { ob_status : string; ob_attempts : Z; ob_created_at : Z }.
Definition Second : Z := 1000000000.
(** [count( * ) filter (where ...)] *)
Definition count_where (p : OutboxRow → bool) (rows : list OutboxRow) : Z := len (filter (λ r, p r = true) rows).
Definition oldest (rows : list OutboxRow) : option Z :=
  foldr (λ r acc, Some (match acc with Some t => Z.min (ob_created_at r) t | None => ob_created_at r end)) None rows.
Definition delivery_counts (now : Z) (rows : list OutboxRow) : DeliveryStatus :=
  let in_status status r := bool_decide (ob_status r = status) in
  let waiting := filter (λ r, bool_decide (ob_status r ∈ ["pending"; "claimed"]) = true) rows in
  mkDelivery
    (count_where (λ r, in_status "pending" r && (ob_attempts r =? 0)) rows)
    (count_where (λ r, in_status "pending" r && (0 <? ob_attempts r)) rows)
    (count_where (in_status "claimed") rows) (count_where (in_status "published") rows) (count_where (in_status "dead_letter") rows)
    (Z.max 0 (match oldest waiting with Some t => (now - t) / Second | None => 0 end)).

(** The records of the outbox as the database lets the store read them, within the query's deadline. *)
Class Deliveries `{AuditTypes} (E : Type) := { outbox_rows : GoM (World Tables E) (list OutboxRow) }.
Definition HistoryStore_DeliveryStatus `{AuditTypes} {E : Type} `{!Deliveries E} (s : Ptr HistoryStore) (now : Z)
    : GoM (World Tables E) DeliveryStatus :=
  do! store_session s (Some tt);
  let! rows := wrap_errors (λ err, Errorf "query delivery status: %w" [err] []) outbox_rows in
  ret (delivery_counts (normalizeTimestamp now) rows).
