(* ===== verification/OrderSchema.v ===== *)
(** examples/audited-order-workflow-outbox/internal/orderworkflow/schema.go: preparing the schema, and refusing
    tables whose columns or constraints are not the expected ones. The catalogue of the database, its DDL and the
    outbox package's own schema are parameters. *)
From Stdlib Require Import Ascii String.
From S2P Require Import Prelude GraphLib SqlTx OrderWorkflow.

Definition ordersTable : string := "audited_order_workflow_orders".
Definition historyTable : string := "audited_order_workflow_audit_entries".
Definition outboxTable : string := "audited_order_workflow_outbox_records".

(** ** What is expected *)

Record expectedColumn := mkColumn { ec_dataType : string; ec_nullable : bool; ec_maxLength : Z }.
#[export] Instance expectedColumn_dec : EqDecision expectedColumn.
Proof. solve_decision. Defined.
Definition col (dataType : string) : expectedColumn := mkColumn dataType false 0.
Definition nullable_col (dataType : string) : expectedColumn := mkColumn dataType true 0.
Definition varchar_col (maxLength : Z) : expectedColumn := mkColumn "character varying" false maxLength.
Definition timestamptz : string := "timestamp with time zone".

Definition order_columns : gmap string expectedColumn := list_to_map
  [("order_id", varchar_col 128); ("status", varchar_col 16); ("revision", col "bigint"); ("updated_at", col timestamptz)].
Definition history_columns : gmap string expectedColumn := list_to_map
  [("position", col "bigint"); ("aggregate_type", varchar_col 128); ("aggregate_id", varchar_col 128);
   ("revision", col "bigint"); ("event_id", varchar_col 128); ("idempotency_key", varchar_col 128);
   ("event_type", varchar_col 128); ("recorded_at", col timestamptz); ("entry_json", col "jsonb")].
Definition outbox_columns : gmap string expectedColumn := list_to_map
  [("id", col "bigint"); ("status", col "text"); ("aggregate_type", col "text"); ("aggregate_id", col "text");
   ("revision", col "bigint"); ("event_id", col "text"); ("idempotency_key", col "text"); ("event_type", col "text");
   ("occurred_at", col timestamptz); ("recorded_at", col timestamptz); ("schema_version", col "integer");
   ("entry_json", col "jsonb"); ("attempts", col "integer"); ("available_at", col timestamptz);
   ("claimed_at", nullable_col timestamptz); ("published_at", nullable_col timestamptz);
   ("dead_lettered_at", nullable_col timestamptz); ("last_error", col "text"); ("created_at", col timestamptz);
   ("updated_at", col timestamptz)].
Definition expectedSchemas : gmap string (gmap string expectedColumn) := list_to_map
  [(ordersTable, order_columns); (historyTable, history_columns); (outboxTable, outbox_columns)].

Definition order_constraints : gmap string string := list_to_map
  [("audited_order_workflow_orders_pkey", "PRIMARY KEY"); ("audited_order_workflow_orders_revision_check", "CHECK");
   ("audited_order_workflow_orders_status_check", "CHECK")].
Definition history_constraints : gmap string string := list_to_map
  [("audited_order_workflow_audit_entries_pkey", "PRIMARY KEY"); ("audited_order_workflow_audit_entries_position_key", "UNIQUE");
   ("audited_order_workflow_audit_entries_event_id_key", "UNIQUE");
   ("audited_order_workflow_audit_entries_idempotency_key_key", "UNIQUE");
   ("audited_order_workflow_audit_entries_revision_check", "CHECK")].
Definition outbox_constraints : gmap string string := list_to_map
  [("audited_order_workflow_outbox_records_pkey", "PRIMARY KEY"); ("audited_order_workflow_outbox_records_event_id_key", "UNIQUE");
   ("audited_order_workflow_outbox_records_idempotency_key_key", "UNIQUE")].
Definition expectedConstraints : gmap string (gmap string string) := list_to_map
  [(ordersTable, order_constraints); (historyTable, history_constraints); (outboxTable, outbox_constraints)].

(** ** Checks *)

(** A row of the catalogue of columns: name, data type, YES or NO, and a maximal length or null. *)
Record ColumnRow := mkColumnRow { cr_name : string; cr_dataType : string; cr_nullable : string; cr_maxLength : option Z }.
Definition read_columns (rows : list ColumnRow) : gmap string expectedColumn :=
  foldl (λ actual r,
    <[cr_name r := mkColumn (cr_dataType r) (bool_decide (cr_nullable r = "YES")) (default 0 (cr_maxLength r))]> actual) ∅ rows.
Definition read_constraints (rows : list (string * string)) : gmap string string :=
  foldl (λ actual r, <[r.1 := r.2]> actual) ∅ rows.
(** Whether the loop over the expected names finds each one, in whatever order the map is ranged over. *)
Definition columns_match (actual expected : gmap string expectedColumn) : bool :=
  bool_decide (size actual = size expected)
  && forallb (λ nw, bool_decide (actual !! nw.1 = Some nw.2)) (map_to_list expected).
Definition constraints_match (actual expected : gmap string string) : bool :=
  forallb (λ nw, bool_decide (default "" (actual !! nw.1) = nw.2)) (map_to_list expected).

(** What the catalogue answers about a table, and what changes it. A query fails, or gives rows and, from the
    cursor, the error of its iteration or of a scan, and of its closing. *)
Class Catalogue (S : Type) := {
  to_regclass : string → GoM S (option string);
  column_rows : string → GoM S (list ColumnRow * option GoError * option GoError);
  constraint_rows : string → GoM S (list (string * string) * option GoError * option GoError);
  exec_ddl : string → GoM S unit;
  outbox_CreateSchema : GoM S unit
}.

Section Schema.
Context `{MR : MapRange} {S : Type} `{CA : !Catalogue S}.

Definition joined (err close : option GoError) : option GoError :=
  match err, close with
  | None, None => None
  | Some e, None | None, Some e => Some (Join [e])
  | Some e, Some e' => Some (Join [e; e'])
  end.
(** The rows are checked before the deferred close. *)
Definition verify_rows {R} (m : GoM S (list R * option GoError * option GoError)) (ok : list R → bool) : GoM S unit :=
  let! (rows, err, close) := m in
  fail_if (joined (match err with Some e => Some e | None => if ok rows then None else Some ErrInvalidConfig end) close).
Definition verifyTableColumns (table : string) (expected : gmap string expectedColumn) : GoM S unit :=
  verify_rows (column_rows table) (λ rows, columns_match (read_columns rows) expected).
Definition verifyTableConstraints (table : string) (expected : gmap string string) : GoM S unit :=
  verify_rows (constraint_rows table) (λ rows, constraints_match (read_constraints rows) expected).
Definition incompatible (table : string) (err : GoError) : GoError := Errorf "%w: incompatible table %s" [ErrInvalidConfig] [FStr table].
Definition verify_table (table : string) (expected : gmap string expectedColumn) : GoM S unit :=
  do! wrap_errors (incompatible table) (verifyTableColumns table expected);
  wrap_errors (incompatible table) (verifyTableConstraints table (default ∅ (expectedConstraints !! table))).
Definition verifyExistingSchemaCompatibility : GoM S unit :=
  forM_ (range expectedSchemas) (λ te,
    let! relation := wrap_errors (λ _, Errorf "%w: inspect table %s" [ErrInvalidConfig] [FStr te.1]) (to_regclass ("public." ++ te.1)%string) in
    match relation with None => ret tt | Some _ => verify_table te.1 te.2 end).
Definition verifySchemaCompatibility : GoM S unit := forM_ (range expectedSchemas) (λ te, verify_table te.1 te.2).

(** The statements are texts the database runs. *)
Context (createOrdersTableSQL createHistoryTableSQL createHistoryTimeIndexSQL : string).
Definition CreateSchema (db outbox : bool) : GoM S unit :=
  if negb db || negb outbox then throw ErrInvalidConfig
  else
    do! ctxErr;
    do! verifyExistingSchemaCompatibility;
    do! forM_ [createOrdersTableSQL; createHistoryTableSQL; createHistoryTimeIndexSQL] (λ statement,
      wrap_errors (λ err, Errorf "create application schema: %w" [err] []) (exec_ddl statement));
    do! wrap_errors (λ err, Errorf "create outbox schema: %w" [err] []) outbox_CreateSchema;
    verifySchemaCompatibility.
End Schema.
