(* ===== verification/OrderSchemaProofs.v ===== *)
(** The audited order workflow's schema: no statement is run over incompatible tables, and a prepared schema is the
    expected one. *)
From Stdlib Require Import Ascii String.
From S2P Require Import Prelude GraphLib SqlTx OrderWorkflow OrderSchema.

(** What the catalogue lists of a table: its columns and its constraints. *)
Abbreviation Listed := (list ColumnRow * list (string * string))%type.
Class CatalogueLaws (S : Type) `{CA : !Catalogue S} := {
  listed : S → string → option Listed;
  regclass_law table c s o c' s' :
    to_regclass ("public." ++ table)%string c s = (o, c', s') →
    s' = s ∧ match o with Val r => r = None → listed s table = None | Fail _ => True | Panic => False end;
  columns_law table c s o c' s' :
    column_rows table c s = (o, c', s') →
    s' = s ∧ match o with
             | Val (rows, err, _) => err = None → rows = default [] (fst <$> listed s table)
             | Fail _ => True
             | Panic => False
             end;
  constraints_law table c s o c' s' :
    constraint_rows table c s = (o, c', s') →
    s' = s ∧ match o with
             | Val (rows, err, _) => err = None → rows = default [] (snd <$> listed s table)
             | Fail _ => True
             | Panic => False
             end
}.

(** A table as it is expected: these columns and no other, and at least these constraints. *)
Definition compatible (table : string) (rows : Listed) : Prop :=
  expectedSchemas !! table = Some (read_columns rows.1) ∧ default ∅ (expectedConstraints !! table) ⊆ read_constraints rows.2.

(** ** Comparing maps *)

Lemma columns_match_equal actual expected : columns_match actual expected = true → actual = expected.
Proof.
  unfold columns_match. rewrite andb_true_iff, bool_decide_eq_true, forallb_forall. intros [Hsize Hall].
  symmetry. apply map_subseteq_size_eq; [|lia]. apply map_subseteq_spec. intros name want Hn.
  specialize (Hall (name, want)). cbn in Hall. rewrite bool_decide_eq_true in Hall. apply Hall.
  by rewrite <- list_elem_of_In, elem_of_map_to_list.
Qed.
Lemma constraints_match_subset actual expected :
  constraints_match actual expected = true → (∀ name, expected !! name ≠ Some "") → expected ⊆ actual.
Proof.
  unfold constraints_match. rewrite forallb_forall. intros Hall Hne. apply map_subseteq_spec. intros name want Hn.
  specialize (Hall (name, want)). cbn in Hall. rewrite bool_decide_eq_true in Hall.
  destruct (actual !! name) as [v|] eqn:E; cbn in Hall.
  - f_equal. apply Hall. by rewrite <- list_elem_of_In, elem_of_map_to_list.
  - destruct (Hne name). rewrite Hn. f_equal. symmetry. apply Hall. by rewrite <- list_elem_of_In, elem_of_map_to_list.
Qed.
(** A test that all entries of a map pass. *)
Lemma all_entries {A} (p : string * A → bool) (m : gmap string A) k v :
  forallb p (map_to_list m) = true → m !! k = Some v → p (k, v) = true.
Proof. rewrite forallb_forall. intros H Hm. apply H, list_elem_of_In. by apply elem_of_map_to_list. Qed.
Lemma expected_named table name : default ∅ (expectedConstraints !! table) !! name ≠ Some "".
Proof.
  intros Hn. destruct (expectedConstraints !! table) as [cs|] eqn:E; [|done].
  apply (all_entries (λ te, forallb (λ nw, negb (String.eqb nw.2 "")) (map_to_list te.2))) in E; [|by vm_compute].
  by apply (all_entries _ _ _ _ E) in Hn.
Qed.
Lemma expected_not_empty table expected : expectedSchemas !! table = Some expected → expected ≠ ∅.
Proof. intros He ->. apply (all_entries (λ te, negb (size te.2 =? 0)%nat)) in He; [done|by vm_compute]. Qed.

(** ** Checks *)

Section Checks.
Context `{MR : MapRange} {S : Type} `{CA : !Catalogue S} `{CL : !CatalogueLaws S}.

(** A method that changes nothing and does not panic, with what its results and its errors say of the state. *)
Definition checks {A} (m : GoM S A) (s : S) (Q : A → Prop) (F : GoError → Prop) : Prop :=
  ∀ c o c' s', m c s = (o, c', s') → s' = s ∧ match o with Val a => Q a | Fail e => F e | Panic => False end.
Lemma checks_ret {A} (a : A) s (Q : A → Prop) F : Q a → checks (ret a) s Q F.
Proof using Type. by intros H c o c' s' [= <- <- <-]. Qed.
Lemma checks_fail_if (e : option GoError) s (Q : unit → Prop) (F : GoError → Prop) :
  (e = None → Q tt) → (∀ err, e = Some err → F err) → checks (fail_if e) s Q F.
Proof using Type. intros HQ HF c o c' s' (-> & -> & [[-> ?]|(err & -> & ?)])%fail_if_run; auto. Qed.
Lemma checks_settle {A B} (m : GoM S A) (on_error : GoError → GoM S B) (k : A → GoM S B) s (Qm : A → Prop) (Fm : GoError → Prop) Q F :
  checks m s Qm Fm → (∀ e, Fm e → checks (on_error e) s Q F) → (∀ a, Qm a → checks (k a) s Q F) → checks (settle m on_error k) s Q F.
Proof using Type.
  intros Hm He Hk c o c' s' H. unfold settle in H. destruct (m c s) as [[[a|e|] c1] s1] eqn:E; apply Hm in E as [-> Hq].
  - by eapply Hk.
  - by eapply He.
  - done.
Qed.
Lemma checks_bind {A B} (m : GoM S A) (k : A → GoM S B) s (Qm : A → Prop) Q F :
  checks m s Qm F → (∀ a, Qm a → checks (k a) s Q F) → checks (bind m k) s Q F.
Proof using Type.
  intros Hm Hk. rewrite bind_settle. eapply checks_settle; [exact Hm| |exact Hk]. by intros e He c o c' s' [= <- <- <-].
Qed.
Lemma checks_wrap {A} wrap (m : GoM S A) s (Q : A → Prop) (Fm F : GoError → Prop) :
  checks m s Q Fm → (∀ e, F (wrap e)) → checks (wrap_errors wrap m) s Q F.
Proof using Type.
  intros Hm HF. eapply checks_settle; [exact Hm| |by intros a Ha; apply checks_ret]. by intros e _ c o c' s' [= <- <- <-].
Qed.
Lemma checks_impl {A} (m : GoM S A) s (Q Q' : A → Prop) (F F' : GoError → Prop) :
  checks m s Q F → (∀ a, Q a → Q' a) → (∀ e, F e → F' e) → checks m s Q' F'.
Proof using Type. intros Hm HQ HF c [a|e|] c' s' [-> H]%Hm; auto. Qed.
Lemma checks_each {A} (xs : list A) (f : A → GoM S unit) s (Q : A → Prop) F :
  (∀ x, x ∈ xs → checks (f x) s (λ _, Q x) F) → checks (forM_ xs f) s (λ _, Forall Q xs) F.
Proof using Type.
  induction xs as [|x xs IH]; intros Hf; cbn; [by apply checks_ret|].
  eapply (checks_bind _ _ _ (λ _, Q x)); [by apply Hf, list_elem_of_here|]. intros _ Hx.
  eapply checks_impl; [by apply IH; intros y Hy; apply Hf, list_elem_of_further|by constructor|done].
Qed.

(** Rows that are read to their end are the ones the catalogue lists. *)
Lemma rows_checked {R} (m : GoM S (list R * option GoError * option GoError)) (ok : list R → bool) s rows :
  checks m s (λ r, r.1.2 = None → r.1.1 = rows) (λ _, True) → checks (verify_rows m ok) s (λ _, ok rows = true) (λ _, True).
Proof using Type.
  intros Hm. eapply checks_bind; [exact Hm|]. intros [[got err] close] Hrows. cbn in Hrows. apply checks_fail_if; [|done].
  destruct err; [by destruct close|]. rewrite (Hrows eq_refl). destruct (ok rows); [done|by destruct close].
Qed.
Lemma columns_checked table expected s :
  checks (verifyTableColumns table expected) s (λ _, columns_match (read_columns (default [] (fst <$> listed s table))) expected = true) (λ _, True).
Proof using CL.
  apply (rows_checked _ (λ rows, columns_match (read_columns rows) expected)).
  intros c o c' s' [-> H]%columns_law. split; [done|]. by destruct o as [[[] ]| |].
Qed.
Lemma constraints_checked table expected s :
  checks (verifyTableConstraints table expected) s
    (λ _, constraints_match (read_constraints (default [] (snd <$> listed s table))) expected = true) (λ _, True).
Proof using CL.
  apply (rows_checked _ (λ rows, constraints_match (read_constraints rows) expected)).
  intros c o c' s' [-> H]%constraints_law. split; [done|]. by destruct o as [[[] ]| |].
Qed.

(** The error of a check that fails. *)
Definition refusal (e : GoError) : Prop := errors_Is e "orderworkflow.ErrInvalidConfig" = true.
Lemma table_checked table expected s :
  expectedSchemas !! table = Some expected →
  checks (verify_table table expected) s (λ _, ∃ rows, listed s table = Some rows ∧ compatible table rows) refusal.
Proof using CL.
  intros He. eapply checks_bind; [eapply checks_wrap; [apply columns_checked|done]|]. intros _ Hc%columns_match_equal.
  eapply checks_impl; [eapply checks_wrap; [apply constraints_checked|]|..|done]; [done|].
  intros _ Hk%constraints_match_subset; [|apply expected_named].
  destruct (listed s table) as [rows|] eqn:El; cbn [fmap option_fmap option_map default from_option id] in Hc, Hk.
  - exists rows. split; [done|]. split; [by rewrite He, Hc|done].
  - by destruct (expected_not_empty _ _ He).
Qed.
Lemma expected_range te : te ∈ range expectedSchemas → expectedSchemas !! te.1 = Some te.2.
Proof using Type. rewrite (range_perm expectedSchemas). destruct te. by rewrite elem_of_map_to_list. Qed.
Lemma range_expected (P : string → Prop) :
  Forall (λ te, P te.1) (range expectedSchemas) → ∀ table, is_Some (expectedSchemas !! table) → P table.
Proof using Type.
  rewrite (range_perm expectedSchemas), Forall_forall. intros H table [expected He]. apply (H (table, expected)).
  by apply elem_of_map_to_list.
Qed.
Lemma existing_checked s :
  checks verifyExistingSchemaCompatibility s
    (λ _, ∀ table, is_Some (expectedSchemas !! table) → ∀ rows, listed s table = Some rows → compatible table rows) refusal.
Proof using CL.
  eapply checks_impl; [apply (checks_each _ _ _ (λ te, ∀ rows, listed s te.1 = Some rows → compatible te.1 rows) refusal)|..|done].
  - intros te Hte%expected_range. eapply checks_bind with (Qm := λ r : option string, r = None → listed s te.1 = None).
    { eapply checks_wrap with (Fm := λ _, True); [|done]. intros c o c' s' [-> H]%regclass_law. by split. }
    intros [relation|] Hr; [|apply checks_ret; intros rows; by rewrite Hr].
    eapply checks_impl; [by apply table_checked| |done]. by intros _ (rows & -> & Hc) ? [= <-].
  - cbn beta. intros ? H. by apply (range_expected (λ table, ∀ rows, listed s table = Some rows → compatible table rows)).
Qed.
Lemma schema_checked s :
  checks verifySchemaCompatibility s
    (λ _, ∀ table, is_Some (expectedSchemas !! table) → ∃ rows, listed s table = Some rows ∧ compatible table rows) refusal.
Proof using CL.
  eapply checks_impl; [apply (checks_each _ _ _ (λ te, ∃ rows, listed s te.1 = Some rows ∧ compatible te.1 rows) refusal)|..|done].
  - intros te Hte%expected_range. by apply table_checked.
  - cbn beta. intros ? H. by apply (range_expected (λ table, ∃ rows, listed s table = Some rows ∧ compatible table rows)).
Qed.

(** ** Preparation *)

(** A preparation that meets an incompatible table, a catalogue it cannot read or a context that has ended changes
    nothing and says so; otherwise every existing table was compatible before the first statement, and after a
    success each of the three tables exists with the expected columns and constraints. *)
Theorem schema_guarded orders history index db outbox c s o c' s' :
  CreateSchema orders history index db outbox c s = (o, c', s') →
  (s' = s ∧ ∃ e, o = Fail e ∧ (refusal e ∨ ∃ cause, e = cause_error cause)) ∨
  ((∀ table, is_Some (expectedSchemas !! table) → ∀ rows, listed s table = Some rows → compatible table rows) ∧
   (o = Val tt → ∀ table, is_Some (expectedSchemas !! table) → ∃ rows, listed s' table = Some rows ∧ compatible table rows)).
Proof using CL.
  unfold CreateSchema. intros H. destruct (negb db || negb outbox).
  { left. injection H as <- <- <-. split; [done|]. eexists. split; [done|by left]. }
  apply bind_inv in H as [([] & c1 & s1 & [-> _]%ctxErr_inv & H)|[(e & -> & (-> & [[=]|[cause [= ->]]])%ctxErr_inv)|[_ (_ & [?|[? ?]])%ctxErr_inv]]];
    [|left; eauto 6|done|done].
  apply bind_inv in H as [(u & c2 & s2 & [-> Hok]%existing_checked & H)|[(e & -> & [-> He]%existing_checked)|[_ [_ []]%existing_checked]]];
    [|left; eauto 6].
  right. split; [exact Hok|]. intros ->.
  apply bind_inv in H as [(u1 & c3 & s3 & _ & H)|[(e & [=] & _)|[[=] _]]].
  apply bind_inv in H as [(u2 & c4 & s4 & _ & H)|[(e & [=] & _)|[[=] _]]].
  by apply schema_checked in H as [-> Hs].
Qed.
End Checks.

(** ** Evaluations *)

(** A catalogue that lists what its statements create, each named after its table. *)
Definition DemoCatalogue : Type := gmap string Listed.
Definition rows_of_columns (columns : gmap string expectedColumn) : list ColumnRow :=
  map (λ nw, mkColumnRow nw.1 (ec_dataType nw.2) (if ec_nullable nw.2 then "YES" else "NO")
               (if ec_maxLength nw.2 =? 0 then None else Some (ec_maxLength nw.2))) (map_to_list columns).
Definition create_table (table : string) (tables : DemoCatalogue) : DemoCatalogue :=
  match tables !! table, expectedSchemas !! table with
  | None, Some columns => <[table := (rows_of_columns columns, map_to_list (default ∅ (expectedConstraints !! table)))]> tables
  | _, _ => tables
  end.
Definition unqualified (relation : string) : string := drop_str (String.length "public.") relation.
#[local] Existing Instance plain_range.
#[local] Instance demo_catalogue : Catalogue DemoCatalogue := {|
  to_regclass relation := λ c s, (Val ((λ _, relation) <$> s !! unqualified relation), c, s);
  column_rows table := λ c s, (Val (default [] (fst <$> s !! table), None, None), c, s);
  constraint_rows table := λ c s, (Val (default [] (snd <$> s !! table), None, None), c, s);
  exec_ddl statement := modify (create_table statement);
  outbox_CreateSchema := modify (create_table outboxTable)
|}.
#[local] Instance demo_catalogue_laws : CatalogueLaws DemoCatalogue.
Proof.
  refine {| listed s table := s !! table |}; intros table c s o c' s'; cbn.
  - intros [= <- <- <-]. split; [done|]. unfold unqualified. cbn. change ("" +:+ table)%string with table. by destruct (s !! table).
  - by intros [= <- <- <-].
  - by intros [= <- <- <-].
Defined.
Definition schema_run (tables : DemoCatalogue) := CreateSchema ordersTable historyTable "index" true true Background tables.
Definition prepared : DemoCatalogue := (schema_run ∅).2.
(** The orders table without its last column. *)
Definition older : DemoCatalogue := <[ordersTable := (rows_of_columns (delete "updated_at" order_columns), [])]> ∅.
Lemma schema_guarded_witness :
  (∃ rows, prepared !! outboxTable = Some rows ∧ compatible outboxTable rows) ∧ (schema_run older).2 = older.
Proof.
  assert (∀ tables, schema_run tables = ((schema_run tables).1.1, (schema_run tables).1.2, (schema_run tables).2)) as Hrun.
  { intros tables. by destruct (schema_run tables) as [[o c] s]. }
  split.
  - destruct (schema_guarded _ _ _ _ _ _ _ _ _ _ (Hrun ∅)) as [(_ & e & He & _)|[_ Hp]].
    + assert ((schema_run ∅).1.1 = Val tt) as Hv by (vm_compute; reflexivity). by rewrite He in Hv.
    + apply (Hp ltac:(vm_compute; reflexivity) outboxTable). eexists. reflexivity.
  - destruct (schema_guarded _ _ _ _ _ _ _ _ _ _ (Hrun older)) as [[Hs _]|[Hp _]]; [exact Hs|].
    destruct (Hp ordersTable ltac:(eexists; reflexivity) (rows_of_columns (delete "updated_at" order_columns), []) eq_refl) as [Hc _].
    apply (f_equal (λ columns, match columns ≫= (.!! "updated_at") with Some _ => true | None => false end)) in Hc. vm_compute in Hc. discriminate Hc.
Defined.
