(* ===== verification/OrderApi.v ===== *)
(** examples/audited-order-workflow-outbox/internal/orderworkflow/handler.go: the HTTP adapter around the order
    service, the audit reader and the health state. gin's routing, MIME parsing and the JSON decoder are parameters;
    the services are interfaces. *)
From Stdlib Require Import Ascii String.
From S2P Require Import Prelude GraphLib SqlTx Threads OrderWorkflow OrderReads.

Definition errRequestTooLarge : GoError := Sentinel "orderworkflow.errRequestTooLarge" "request body is too large".
Definition errUnsupportedMediaType : GoError := Sentinel "orderworkflow.errUnsupportedMediaType" "unsupported media type".
Definition errUnsupportedContentEncoding : GoError :=
  Sentinel "orderworkflow.errUnsupportedContentEncoding" "unsupported content encoding".
Definition errInvalidHTTPRequest : GoError := Sentinel "orderworkflow.errInvalidHTTPRequest" "invalid HTTP request".

(** ** Data *)

Record HTTPConfig := mkHTTPConfig { hc_MaximumBodyBytes : Z; hc_OperationTimeout : Z; hc_MaximumConcurrent : Z }.
Definition DefaultHTTPConfig : HTTPConfig := mkHTTPConfig (Z.shiftl 32 10) (2 * Second) 32.
Record Readiness := mkReadiness { rd_DatabaseReady : bool; rd_RelayRunning : bool; rd_RedisReady : bool }.
Record DeliverySnapshot := mkDeliverySnapshot { dl_RedisState : string; dl_RelayState : string; dl_Delivery : DeliveryStatus }.
Record publicHTTPError := mkPublicError { pe_status : Z; pe_code : string; pe_message : string }.
Record aggregateJSON := mkAggregateJSON { aj_Type : string; aj_ID : string }.
(** A [json.Number] is the text of the number, empty when it is absent or null. *)
Record searchHistoryJSON := mkSearch {
  sj_Aggregate : aggregateJSON; sj_FromRevision : string; sj_ToRevision : string; sj_FromRecordedAt : Ptr Z;
  sj_ToRecordedAt : Ptr Z; sj_Limit : string
}.
Record historyDetailJSON := mkDetail { dj_Aggregate : aggregateJSON; dj_Revision : string }.

(** What the adapter calls. *)
Class CommandService (S : Type) := {
  service_Create : CreateCommand → GoM S (Order * bool);
  service_Transition : TransitionCommand → GoM S (Order * bool)
}.
Class HistoryReader `{AuditTypes} (S : Type) := { reader_Find : Query → GoM S (Ptr (list Entry)) }.
Class HealthReader (S : Type) := { health_Readiness : GoM S Readiness; health_Status : GoM S DeliverySnapshot }.

(** ** JSON bodies *)

Inductive Token := Delim (c : ascii) | TString (s : string) | TAtom.
(** What the calls of [decoder.Token()] give: tokens up to the end of the text, or up to an error. *)
Abbreviation Tokens := (list (GoError + Token)).
Definition EOF : GoError := Sentinel "io.EOF" "EOF".
Definition next_token (ts : Tokens) : GoError + (Token * Tokens) :=
  match ts with [] => inl EOF | inl e :: _ => inl e | inr t :: ts => inr (t, ts) end.
(** [decoder.More()]: the next byte is not a closing delimiter. *)
Definition More (ts : Tokens) : bool :=
  match ts with
  | [] => false
  | inr (Delim c) :: _ => negb (bool_decide (c = "]"%char ∨ c = "}"%char))
  | _ => true
  end.
Definition requireDecoderEOF (ts : Tokens) : option GoError :=
  match ts with
  | [] => None
  | inl e :: _ => Some e
  | inr _ :: _ => Some (plain_error "trailing JSON value")
  end.
(** [parseValue] and its two loops, over the tokens that are left; each call takes a token. *)
Fixpoint parseValue (fuel : nat) (requireObject : bool) (ts : Tokens) : GoError + Tokens :=
  match fuel with
  | O => inl EOF
  | S fuel =>
      try! (token, ts) := next_token ts in
      match token with
      | Delim c =>
          if requireObject && bool_decide (c ≠ "{"%char) then inl (plain_error "top-level value is not an object")
          else if bool_decide (c = "{"%char) then
            try! ts := parse_members fuel ∅ ts in
            try! (_, ts) := next_token ts in inr ts
          else if bool_decide (c = "["%char) then
            try! ts := parse_elements fuel ts in
            try! (_, ts) := next_token ts in inr ts
          else inl (plain_error "unexpected closing delimiter")
      | _ => if requireObject then inl (plain_error "top-level value is not an object") else inr ts
      end
  end
with parse_members (fuel : nat) (seen : gset string) (ts : Tokens) : GoError + Tokens :=
  match fuel with
  | O => inl EOF
  | S fuel =>
      if More ts then
        try! (keyToken, ts) := next_token ts in
        match keyToken with
        | TString key =>
            if bool_decide (key ∈ seen) then inl (plain_error "duplicate object key")
            else
              try! ts := parseValue fuel false ts in
              parse_members fuel ({[key]} ∪ seen) ts
        | _ => inl (plain_error "object key is not a string")
        end
      else inr ts
  end
with parse_elements (fuel : nat) (ts : Tokens) : GoError + Tokens :=
  match fuel with
  | O => inl EOF
  | S fuel =>
      if More ts then
        try! ts := parseValue fuel false ts in
        parse_elements fuel ts
      else inr ts
  end.
Definition rejectDuplicateJSONObjectKeys (ts : Tokens) : option GoError :=
  match parseValue (2 * length ts + 2) true ts with
  | inl e => Some e
  | inr rest => requireDecoderEOF rest
  end.

(** A request: its two headers, and its body, as far as it can be read. *)
Record HttpBody := mkBody { hb_ContentType : string; hb_ContentEncoding : string; hb_Body : GoError + string }.
(** Decoding a struct with unknown fields refused; the tokens behind it are left. *)
Class JsonDecoder := {
  ParseMediaType : string → GoError + (string * gmap string string);
  json_tokens : string → Tokens;
  decode_create : string → GoError + (CreateCommand * Tokens);
  decode_transition : string → GoError + (TransitionCommand * Tokens);
  decode_search : string → GoError + (searchHistoryJSON * Tokens);
  decode_detail : string → GoError + (historyDetailJSON * Tokens)
}.

Section Decoding.
Context `{GU : GoUnicode} `{JD : JsonDecoder}.

Definition check_media_type (header : string) : option GoError :=
  match ParseMediaType header with
  | inl _ => Some errUnsupportedMediaType
  | inr (mediaType, parameters) =>
      if negb (EqualFold mediaType "application/json") || (1 <? Z.of_nat (size parameters))
         || negb (forallb (λ kv, EqualFold kv.1 "charset" && EqualFold kv.2 "utf-8") (map_to_list parameters))
      then Some errUnsupportedMediaType else None
  end.
Definition check_encoding (header : string) : option GoError :=
  let encoding := TrimSpace header in
  if bool_decide (encoding ≠ "") && negb (EqualFold encoding "identity") then Some errUnsupportedContentEncoding else None.
(** [http.MaxBytesReader] and [io.ReadAll]. *)
Definition read_body (maximum : Z) (body : GoError + string) : GoError + string :=
  try! text := wrapping (λ err, Errorf "read body: %w" [err] []) body in
  if maximum <? Z.of_nat (String.length text) then inl errRequestTooLarge else inr text.
Definition invalid_if {A} (failed : option A) : GoError + unit :=
  match failed with Some _ => inl errInvalidHTTPRequest | None => inr tt end.
Definition decodeJSON {A} (config : HTTPConfig) (decode : string → GoError + (A * Tokens)) (request : HttpBody) : GoError + A :=
  try! _ := check (check_media_type (hb_ContentType request)) in
  try! _ := check (check_encoding (hb_ContentEncoding request)) in
  try! body := read_body (hc_MaximumBodyBytes config) (hb_Body request) in
  if negb (ValidString body) || bool_decide (TrimSpace body = "") then inl errInvalidHTTPRequest
  else
    try! _ := invalid_if (rejectDuplicateJSONObjectKeys (json_tokens body)) in
    match decode body with
    | inl _ => inl errInvalidHTTPRequest
    | inr (target, rest) => try! _ := invalid_if (requireDecoderEOF rest) in inr target
    end.
End Decoding.

(** ** Numbers and aggregates *)

Definition parseRequiredPositiveInt64 (number : string) : GoError + Z :=
  if bool_decide (number = "") then inl errInvalidHTTPRequest
  else
    match ParseInt number with
    | None => inl errInvalidHTTPRequest
    | Some value => if value <=? 0 then inl errInvalidHTTPRequest else inr value
    end.
Definition parseOptionalPositiveInt64 (number : string) : GoError + Z :=
  if bool_decide (number = "") then inr 0 else parseRequiredPositiveInt64 number.

(** ** Handlers *)

Section Adapter.
Context `{GU : GoUnicode} `{JD : JsonDecoder} `{AT : AuditTypes} `{AL : !AuditLib} {S : Type}.
Context `{CS : !CommandService S} `{HR : !HistoryReader S} `{HE : !HealthReader S}.
(** The contexts that [context.WithTimeout] derives from a request's. *)
Context (with_timeout : Z → Ctx → Ctx).

Inductive Data :=
  | DataOrder (order : Order) (event_id idempotency_key delivery : string) (replayed : bool)
  | DataEntries (entries : list Entry) (next_from_revision : Ptr Z)
  | DataEntry (entry : Entry)
  | DataHealth (status : string)
  | DataReady (status delivery : string)
  | DataStatus (status redis relay : string) (delivery : DeliveryStatus).
(** A response, or none when the client has gone. *)
Inductive Response :=
  | Respond (status : Z) (data : Data)
  | RespondError (public : publicHTTPError)
  | Aborted.
Abbreviation Handler := (GoM S Response).

(** A call under a deadline of its own, and the error of its context after a success. *)
Definition under_timeout {A} (timeout : Z) (m : GoM S A) (check_after : bool) : GoM S (GoError + A) := λ c s,
  match bind m (λ a, if check_after then do! ctxErr; ret a else ret a) (with_timeout timeout c) s with
  | (Val a, _, s') => (Val (inr a), c, s')
  | (Fail e, _, s') => (Val (inl e), c, s')
  | (Panic, _, s') => (Panic, c, s')
  end.

Definition respondDecodeError (err : GoError) : Response :=
  if errors_Is err "orderworkflow.errRequestTooLarge"
  then RespondError (mkPublicError 413 "request_too_large" "request body is too large")
  else if errors_Is err "orderworkflow.errUnsupportedMediaType"
  then RespondError (mkPublicError 415 "unsupported_media_type" "application/json is required")
  else if errors_Is err "orderworkflow.errUnsupportedContentEncoding"
  then RespondError (mkPublicError 415 "unsupported_content_encoding" "content encoding is unsupported")
  else if errors_Is err "orderworkflow.errInvalidHTTPRequest"
  then RespondError (mkPublicError 400 "invalid_request" "request is invalid")
  else RespondError (mkPublicError 500 "internal_error" "internal error").
Definition service_error (err : GoError) : Response :=
  if errors_Is err "context.DeadlineExceeded" then RespondError (mkPublicError 408 "request_timeout" "request timed out")
  else if errors_Is err "orderworkflow.ErrInvalidCommand" || errors_Is err "audit.ErrInvalidQuery"
  then RespondError (mkPublicError 400 "invalid_request" "request is invalid")
  else if errors_Is err "orderworkflow.ErrNotFound" then RespondError (mkPublicError 404 "order_not_found" "order was not found")
  else if errors_Is err "orderworkflow.ErrConflict"
  then RespondError (mkPublicError 409 "invalid_transition" "order transition conflicts with current state")
  else RespondError (mkPublicError 500 "internal_error" "internal error").
(** The request's own context is asked only when the error is a cancellation. *)
Definition respondServiceError (err : GoError) : Handler :=
  if errors_Is err "context.Canceled" then
    settle ctxErr (λ cause, ret (if errors_Is cause "context.Canceled" then Aborted else service_error err))
      (λ _, ret (service_error err))
  else ret (service_error err).
Definition invalidAuditQueryError : Response := RespondError (mkPublicError 400 "invalid_audit_query" "audit query is invalid").
(** What a handler makes of a result. *)
Definition answer {A} (r : GoError + A) (on_error : GoError → Handler) (k : A → Handler) : Handler :=
  match r with inl e => on_error e | inr a => k a end.

Context `{MR : MapRange} (config : HTTPConfig).
Definition respond_order (command_id : string) (created : Z) (result : Order * bool) : Response :=
  let '(order, replayed) := result in
  Respond (if replayed then 200 else created) (DataOrder order command_id command_id "asynchronous" replayed).
Definition createOrder (request : HttpBody) : Handler :=
  answer (decodeJSON config decode_create request) (λ err, ret (respondDecodeError err)) (λ request,
  answer (CreateCommand_validate request) respondServiceError (λ command,
  let! result := under_timeout (hc_OperationTimeout config) (service_Create command) true in
  answer result respondServiceError (λ result, ret (respond_order (cc_CommandID command) 201 result)))).
Definition transitionOrder (request : HttpBody) : Handler :=
  answer (decodeJSON config decode_transition request) (λ err, ret (respondDecodeError err)) (λ request,
  answer (TransitionCommand_validate request) respondServiceError (λ command,
  let! result := under_timeout (hc_OperationTimeout config) (service_Transition command) true in
  answer result respondServiceError (λ result, ret (respond_order (tc_CommandID command) 200 result)))).

Definition validateAggregate (value : aggregateJSON) : GoError + AggregateID :=
  try! typ := normalizeIdentifier (aj_Type value) in
  try! id := normalizeIdentifier (aj_ID value) in
  NewAggregateID typ id.
(** The query of a search, with one entry more than its page holds. *)
Definition search_query (request : searchHistoryJSON) : GoError + (Query * Z) :=
  try! aggregate := validateAggregate (sj_Aggregate request) in
  try! fromRevision := parseOptionalPositiveInt64 (sj_FromRevision request) in
  try! toRevision := parseOptionalPositiveInt64 (sj_ToRevision request) in
  if negb (fromRevision =? 0) && negb (toRevision =? 0) && (toRevision <? fromRevision) then inl errInvalidHTTPRequest
  else
    try! limit := parseRequiredPositiveInt64 (sj_Limit request) in
    let crossed := match sj_FromRecordedAt request, sj_ToRecordedAt request with Some from, Some to => to <? from | _, _ => false end in
    if (100 <? limit) || crossed then inl errInvalidHTTPRequest
    else inr (mkQuery (Some aggregate) "" fromRevision toRevision (default 0 (sj_FromRecordedAt request))
                (default 0 (sj_ToRecordedAt request)) false (int_add limit 1), limit).
(** A page, and the revision the next one starts from. *)
Definition page_of (limit : Z) (entries : list Entry) : Response :=
  if limit <? len entries
  then Respond 200 (DataEntries (take (Z.to_nat limit) entries) (entry_Revision <$> entries !! Z.to_nat limit))
  else Respond 200 (DataEntries entries None).
Definition searchHistory (request : HttpBody) : Handler :=
  answer (decodeJSON config decode_search request) (λ err, ret (respondDecodeError err)) (λ request,
  answer (search_query request) (λ _, ret invalidAuditQueryError) (λ '(query, limit),
  let! result := under_timeout (hc_OperationTimeout config) (reader_Find query) true in
  answer result respondServiceError (λ entries, ret (page_of limit (default [] entries))))).
Definition historyDetail (request : HttpBody) : Handler :=
  answer (decodeJSON config decode_detail request) (λ err, ret (respondDecodeError err)) (λ request,
  answer (validateAggregate (dj_Aggregate request)) (λ _, ret invalidAuditQueryError) (λ aggregate,
  answer (parseRequiredPositiveInt64 (dj_Revision request)) (λ _, ret invalidAuditQueryError) (λ revision,
  let! result := under_timeout (hc_OperationTimeout config)
                   (reader_Find (mkQuery (Some aggregate) "" revision revision 0 0 false 1)) true in
  answer result respondServiceError (λ entries,
    ret (match default [] entries with
         | [] => RespondError (mkPublicError 404 "audit_entry_not_found" "audit entry was not found")
         | entry :: _ => Respond 200 (DataEntry entry)
         end))))).

Definition healthz : Handler := ret (Respond 200 (DataHealth "ok")).
Definition ready_answer (result : GoError + Readiness) : Response :=
  let '(serving, redis) := match result with
                           | inl _ => (false, false)
                           | inr r => (rd_DatabaseReady r && rd_RelayRunning r, rd_RedisReady r)
                           end in
  Respond (if serving then 200 else 503)
    (DataReady (if serving then "ready" else "not_ready") (if redis then "available" else "degraded")).
Definition readyz : Handler :=
  let! result := under_timeout (hc_OperationTimeout config) health_Readiness false in ret (ready_answer result).
Definition status_answer (result : GoError + DeliverySnapshot) : Response :=
  Respond 200
    (match result with
     | inl _ => DataStatus "degraded" "unknown" "unknown" (mkDelivery 0 0 0 0 0 0)
     | inr snapshot => DataStatus "ok" (dl_RedisState snapshot) (dl_RelayState snapshot) (dl_Delivery snapshot)
     end).
Definition Millisecond : Z := 1000000.
Definition statusz : Handler :=
  let! result := under_timeout (250 * Millisecond) health_Status false in ret (status_answer result).
Definition notFound : Handler := ret (RespondError (mkPublicError 404 "route_not_found" "route was not found")).
Definition methodNotAllowed : Handler := ret (RespondError (mkPublicError 405 "method_not_allowed" "method is not allowed")).

(** ** Routes and middleware *)

Inductive HttpRequest :=
  | PostOrders (body : HttpBody) | PostTransitions (body : HttpBody) | PostSearch (body : HttpBody) | PostDetail (body : HttpBody)
  | GetHealthz | GetReadyz | GetStatusz | UnknownRoute | UnknownMethod.
Definition route (request : HttpRequest) : Handler :=
  match request with
  | PostOrders body => createOrder body
  | PostTransitions body => transitionOrder body
  | PostSearch body => searchHistory body
  | PostDetail body => historyDetail body
  | GetHealthz => healthz
  | GetReadyz => readyz
  | GetStatusz => statusz
  | UnknownRoute => notFound
  | UnknownMethod => methodNotAllowed
  end.
(** The slots in use and what the handlers work on. *)
Definition Shared : Type := Z * S.
Definition acquire : GoM Shared bool := λ c s,
  if s.1 <? hc_MaximumConcurrent config then (Val true, c, (s.1 + 1, s.2)) else (Val false, c, s).
Definition release : GoM Shared unit := modify (λ s, (s.1 - 1, s.2)).
Definition tooManyRequests : Response := RespondError (mkPublicError 429 "too_many_requests" "too many requests").
(** A panic becomes an answer. *)
Definition recoverPanic (o : Outcome Response) : Response :=
  match o with Val r => r | _ => RespondError (mkPublicError 500 "internal_error" "internal error") end.
(** A request runs in one of the slots that are left, and gives it back however its handler ends. [closeBody] and
    [requestID] have no part in what is answered. *)
Definition give_back (o : Outcome Response) : Prog Shared Response := Op release (λ _, Answer (recoverPanic o)).
Definition in_slot (handler : Handler) : Prog Shared Response := Op (on_part snd (λ s' s, (s.1, s')) handler) give_back.
Definition limitConcurrency (handler : Handler) : Prog Shared Response :=
  Op acquire (λ got, match got with
                     | Val true => in_slot handler
                     | Val false => Answer tooManyRequests
                     | _ => Crash
                     end).
Definition serve (request : HttpRequest) : Prog Shared Response := limitConcurrency (route request).
Definition serve_all (s : S) (requests : list (Ctx * HttpRequest)) : Pool Shared Response :=
  mkPool (0, s) (map (λ cr, (cr.1, serve cr.2)) requests).
Definition NewEngine (service reader health logger : bool) : GoError + (HttpRequest → Prog Shared Response) :=
  if negb service || negb reader || negb health || negb logger || (hc_MaximumBodyBytes config <=? 0)
     || (hc_OperationTimeout config <=? 0) || (hc_MaximumConcurrent config <=? 0)
  then inl ErrInvalidConfig else inr serve.
End Adapter.
