(* ===== verification/OrderApiProofs.v ===== *)
(** The HTTP adapter of the audited order workflow: the strict JSON check, the slots, and what the answers of the
    command routes and the pages of the history promise about the database. *)
From Stdlib Require Import Ascii String.
From S2P Require Import Prelude GraphLib JwtLib SqlTx Threads OrderWorkflow OrderWorkflowProofs OrderWorkflowModel OrderReads OrderApi.

(** ** Strict JSON *)

(** JSON values, as far as their structure goes; the members of an object keep their order and repetitions. *)
Inductive Json := JAtom | JString (s : string) | JArray (elements : list Json) | JObject (members : list (string * Json)).
Section JsonInd.
Context (P : Json → Prop) (Hatom : P JAtom) (Hstring : ∀ s, P (JString s)).
Context (Harray : ∀ vs, Forall P vs → P (JArray vs)) (Hobject : ∀ ms, Forall (λ kv, P kv.2) ms → P (JObject ms)).
Fixpoint Json_rect' (v : Json) : P v :=
  match v with
  | JAtom => Hatom
  | JString s => Hstring s
  | JArray vs => Harray vs ((fix go (vs : list Json) : Forall P vs :=
      match vs with [] => Forall_nil_2 _ | v :: vs => Forall_cons_2 _ _ _ (Json_rect' v) (go vs) end) vs)
  | JObject ms => Hobject ms ((fix go (ms : list (string * Json)) : Forall (λ kv, P kv.2) ms :=
      match ms with [] => Forall_nil_2 _ | kv :: ms => Forall_cons_2 _ _ _ (Json_rect' kv.2) (go ms) end) ms)
  end.
End JsonInd.
Fixpoint tokens (v : Json) : list Token :=
  match v with
  | JAtom => [TAtom]
  | JString s => [TString s]
  | JArray vs => Delim "[" :: concat (map tokens vs) ++ [Delim "]"]
  | JObject ms => Delim "{" :: concat (map (λ kv, TString kv.1 :: tokens kv.2) ms) ++ [Delim "}"]
  end.
(** No object of the value names a key twice. *)
Fixpoint unique_keys (v : Json) : bool :=
  match v with
  | JArray vs => forallb unique_keys vs
  | JObject ms => bool_decide (NoDup (map fst ms)) && forallb (λ kv, unique_keys kv.2) ms
  | _ => true
  end.
Definition is_object (v : Json) : bool := match v with JObject _ => true | _ => false end.
Abbreviation text v := (map (inr (A := GoError)) (tokens v)).

Lemma more_text v (rest : Tokens) : More (text v ++ rest) = true.
Proof. by destruct v. Qed.

Definition accepts (r : GoError + Tokens) (ok : bool) (rest : Tokens) : Prop :=
  if ok then r = inr rest else ∃ e, r = inl e.
Lemma accepts_then r ok rest (k : Tokens → GoError + Tokens) ok' rest' :
  accepts r ok rest → (ok = true → accepts (k rest) ok' rest') → accepts (and_then r k) (ok && ok') rest'.
Proof. destruct ok; cbn; [intros -> Hk; by apply Hk|intros [e ->] _; by exists e]. Qed.
Definition members_text (ms : list (string * Json)) : Tokens := map inr (concat (map (λ kv, TString kv.1 :: tokens kv.2) ms)).
Definition elements_text (vs : list Json) : Tokens := map inr (concat (map tokens vs)).
Definition parses (v : Json) : Prop := ∀ fuel rest,
  (length (tokens v) <= fuel)%nat → accepts (parseValue fuel false (text v ++ rest)) (unique_keys v) rest.

Lemma elements_parse vs fuel rest :
  Forall parses vs → (length (elements_text vs) < fuel)%nat →
  accepts (parse_elements fuel (elements_text vs ++ inr (Delim "]") :: rest)) (forallb unique_keys vs) (inr (Delim "]") :: rest).
Proof.
  intros Hp. revert fuel. induction Hp as [|v vs Hv _ IH]; intros [|fuel] Hf; [lia|done|lia|].
  unfold elements_text in *. cbn [map concat forallb] in *. rewrite map_app, length_app in Hf. rewrite map_app, <- app_assoc.
  assert (0 < length (map (inr (A := GoError)) (tokens v)))%nat as Hpos by (destruct v; cbn; lia).
  rewrite !length_map in Hf. rewrite length_map in Hpos. cbn [parse_elements]. rewrite more_text.
  eapply accepts_then; [apply Hv; lia|]. intros _. apply IH. rewrite length_map. lia.
Qed.
Lemma members_parse ms fuel seen rest ok :
  Forall (λ kv, parses kv.2) ms → (length (members_text ms) < fuel)%nat →
  (ok = true ↔ NoDup (map fst ms) ∧ Forall (λ kv, kv.1 ∉ seen) ms) →
  accepts (parse_members fuel seen (members_text ms ++ inr (Delim "}") :: rest))
    (ok && forallb (λ kv, unique_keys kv.2) ms) (inr (Delim "}") :: rest).
Proof.
  intros Hp. revert fuel seen ok. induction Hp as [|[key v] ms Hv _ IH]; intros [|fuel] seen ok Hf Hok; [lia| |lia|].
  { replace ok with true; [done|]. symmetry. apply Hok. split; constructor. }
  unfold members_text in *. cbn [map concat forallb fst snd app] in *. rewrite map_app, <- app_assoc.
  rewrite length_cons, map_app, length_app, !length_map in Hf. cbn [parse_members More next_token and_then].
  case_bool_decide as Hseen.
  { replace ok with false; [cbn; eauto|]. destruct ok; [|done]. destruct (proj1 Hok eq_refl) as [_ [Hk _]%Forall_cons_1]. by destruct Hk. }
  replace (ok && (unique_keys v && forallb (λ kv, unique_keys kv.2) ms))
    with (unique_keys v && (ok && forallb (λ kv, unique_keys kv.2) ms)) by (by destruct ok, (unique_keys v)).
  eapply accepts_then; [apply Hv; cbn; lia|]. intros _. apply IH; [rewrite length_map; lia|].
  rewrite Hok, NoDup_cons, Forall_cons, !Forall_forall. cbn. split.
  - intros [[Hnk Hn] [_ Hk]]. split; [done|]. intros kv Hin. specialize (Hk kv Hin).
    assert (kv.1 ≠ key); [|set_solver]. intros E. apply Hnk, list_elem_of_fmap. by exists kv.
  - intros [Hn Hk]. split_and!; [|done|done|].
    + intros ([k' v'] & -> & Hin)%list_elem_of_fmap. apply (Hk _ Hin). set_solver.
    + intros kv Hin. specialize (Hk kv Hin). set_solver.
Qed.
Lemma value_parse v fuel req rest :
  (length (tokens v) <= fuel)%nat → (req = true → is_object v = true) →
  accepts (parseValue fuel req (text v ++ rest)) (unique_keys v) rest.
Proof.
  revert fuel req rest. induction v as [|s|vs IH|ms IH] using Json_rect'; intros [|fuel] req rest Hf Hreq; try (by cbn in Hf; lia).
  - destruct req; [discriminate (Hreq eq_refl)|by cbn].
  - destruct req; [discriminate (Hreq eq_refl)|by cbn].
  - destruct req; [discriminate (Hreq eq_refl)|]. cbn [tokens map app parseValue next_token and_then andb].
    rewrite bool_decide_eq_false_2, bool_decide_eq_true_2 by done. rewrite map_app, <- app_assoc. cbn [unique_keys].
    rewrite <- (andb_true_r (forallb unique_keys vs)).
    eapply accepts_then; [apply elements_parse|by intros _].
    + eapply Forall_impl; [exact IH|]. intros v Hv fuel' rest' H'. by apply Hv.
    + unfold elements_text. rewrite length_map. cbn in Hf. rewrite length_app in Hf. cbn in Hf. lia.
  - cbn [tokens map app parseValue next_token and_then]. rewrite (bool_decide_eq_false_2 ("{"%char ≠ "{"%char)) by (by intros H; apply H).
    rewrite andb_false_r, bool_decide_eq_true_2 by done. rewrite map_app, <- app_assoc. cbn [unique_keys].
    rewrite <- (andb_true_r (_ && _)). eapply accepts_then; [apply (members_parse ms fuel ∅ rest)|by intros _].
    + eapply Forall_impl; [exact IH|]. intros kv Hv fuel' rest' H'. by apply Hv.
    + unfold members_text. rewrite length_map. cbn in Hf. rewrite length_app in Hf. cbn in Hf. lia.
    + rewrite bool_decide_eq_true. split; [|by intros []]. intros Hn. split; [done|]. apply Forall_true. intros kv. set_solver.
Qed.

(** The delimiters among the tokens are nested and match, as [decoder.Token()] guarantees; [open] holds those that are to
    be closed. Nothing is said of what else stands where, nor of what comes behind an error. *)
Fixpoint nested (open : list ascii) (ts : Tokens) : Prop :=
  match ts with
  | inr (Delim c) :: ts =>
      if decide (c = "{"%char) then nested ("}"%char :: open) ts
      else if decide (c = "["%char) then nested ("]"%char :: open) ts
      else match open with d :: open => c = d ∧ nested open ts | [] => False end
  | inr _ :: ts => nested open ts
  | _ => True
  end.
(** What a parse has read: a value, without a repeated key, and what is left is nested as before. *)
Definition reads_value (req : bool) (open : list ascii) (ts rest : Tokens) : Prop :=
  ∃ v, ts = text v ++ rest ∧ unique_keys v = true ∧ (req = true → is_object v = true) ∧ nested open rest.
Definition reads_members (seen : gset string) (open : list ascii) (ts rest : Tokens) : Prop :=
  ∃ ms, ts = members_text ms ++ rest ∧ NoDup (map fst ms) ∧ Forall (λ kv, kv.1 ∉ seen) ms ∧
    forallb (λ kv, unique_keys kv.2) ms = true ∧ nested open rest ∧ More rest = false.
Definition reads_elements (open : list ascii) (ts rest : Tokens) : Prop :=
  ∃ vs, ts = elements_text vs ++ rest ∧ forallb unique_keys vs = true ∧ nested open rest ∧ More rest = false.

(** A loop ends before the delimiter that closes it. *)
Lemma closed_by d open (ts : Tokens) t rest :
  next_token ts = inr (t, rest) → More ts = false → nested (d :: open) ts → ts = inr (Delim d) :: rest ∧ nested open rest.
Proof.
  destruct ts as [|[e|[c|s|]] ts]; cbn; [done..| |done|done]. intros [= <- <-] Hc. apply negb_false_iff, bool_decide_eq_true in Hc.
  destruct (decide (c = "{"%char)) as [->|_]; [by destruct Hc|]. destruct (decide (c = "["%char)) as [->|_]; [by destruct Hc|]. by intros [-> ?].
Qed.
Lemma reads_sound fuel :
  (∀ req open ts rest, nested open ts → parseValue fuel req ts = inr rest → reads_value req open ts rest) ∧
  (∀ seen open ts rest, nested open ts → parse_members fuel seen ts = inr rest → reads_members seen open ts rest) ∧
  (∀ open ts rest, nested open ts → parse_elements fuel ts = inr rest → reads_elements open ts rest).
Proof.
  induction fuel as [|fuel (IHv & IHm & IHe)]; [done|]. split_and!.
  - intros req open ts rest Hn ((t & ts1) & Ht & H)%and_then_inr. destruct ts as [|[e|t'] ts]; simplify_eq/=.
    destruct t as [c|s|].
    + destruct (req && _) eqn:Hreq; [done|]. case_bool_decide as Ec.
      * subst c. apply and_then_inr in H as (ts2 & H & ((t & ts3) & Ht & [= <-])%and_then_inr).
        apply (IHm _ _ _ _ Hn) in H as (ms & -> & Hnd & _ & Hu & Hn2 & Hm). destruct (closed_by _ _ _ _ _ Ht Hm Hn2) as [-> Hn3].
        exists (JObject ms). split_and!; [|by cbn; rewrite bool_decide_eq_true_2|done|done].
        cbn. rewrite map_app, <- app_assoc. done.
      * destruct (decide (c = "{"%char)); [done|]. case_bool_decide as Eb; [subst c|done].
        apply and_then_inr in H as (ts2 & H & ((t & ts3) & Ht & [= <-])%and_then_inr).
        apply (IHe _ _ _ Hn) in H as (vs & -> & Hu & Hn2 & Hm). destruct (closed_by _ _ _ _ _ Ht Hm Hn2) as [-> Hn3].
        exists (JArray vs). split_and!; [|done|by destruct req|done]. cbn. rewrite map_app, <- app_assoc. done.
    + destruct req; [done|]. injection H as ->. by exists (JString s).
    + destruct req; [done|]. injection H as ->. by exists JAtom.
  - intros seen open ts rest Hn H. cbn in H. destruct (More ts) eqn:Hm.
    2: { injection H as <-. exists []. by split_and!; try constructor. }
    apply and_then_inr in H as ((t & ts1) & Ht & H). destruct t as [c|key|]; [done| |done]. case_bool_decide as Hk; [done|].
    destruct ts as [|[e|t'] ts]; simplify_eq/=. apply and_then_inr in H as (ts2 & Hv & H).
    apply (IHv _ open) in Hv as (v & -> & Hu & _ & Hn2); [|done]. apply (IHm _ _ _ _ Hn2) in H as (ms & -> & Hnd & Hs & Hus & Hn3 & Hm3).
    rewrite Forall_forall in Hs. exists ((key, v) :: ms). split_and!; [|constructor; [|done]|constructor; [done|]|cbn; by rewrite Hu|done..].
    + unfold members_text. cbn. by rewrite map_app, <- app_assoc.
    + intros (kv & Hkv & Hin)%list_elem_of_fmap. apply (Hs _ Hin). cbn in Hkv. rewrite <- Hkv. set_solver.
    + apply Forall_forall. intros kv Hin. specialize (Hs kv Hin). set_solver.
  - intros open ts rest Hn H. cbn in H. destruct (More ts) eqn:Hm.
    2: { injection H as <-. exists []. by split_and!. }
    apply and_then_inr in H as (ts2 & Hv & H). apply (IHv _ open) in Hv as (v & -> & Hu & _ & Hn2); [|done].
    apply (IHe _ _ _ Hn2) in H as (vs & -> & Hus & Hn3 & Hm3). exists (v :: vs). split_and!; [|cbn; by rewrite Hu|done..].
    unfold elements_text. cbn. by rewrite map_app, <- app_assoc.
Qed.
(** One value and nothing behind it, with the fuel of the check. *)
Lemma value_accepted v req :
  unique_keys v = true → (req = true → is_object v = true) →
  parseValue (2 * length (text v) + 2) req (text v) = inr [].
Proof.
  intros Hu Ho. pose proof (value_parse v (2 * length (text v) + 2) req [] ltac:(rewrite length_map; lia) Ho) as H.
  unfold accepts in H. by rewrite Hu, app_nil_r in H.
Qed.
Lemma one_value ts req :
  nested [] ts →
  (∃ rest, parseValue (2 * length ts + 2) req ts = inr rest ∧ requireDecoderEOF rest = None) ↔
  ∃ v, ts = text v ∧ unique_keys v = true ∧ (req = true → is_object v = true).
Proof.
  intros Hn. split.
  - intros (rest & (v & -> & Hu & Ho & _)%(proj1 (reads_sound _) _ _ _ _ Hn) & He). exists v. split_and!; [|done..].
    destruct rest as [|[|]]; [by rewrite app_nil_r|done..].
  - intros (v & -> & Hu & Ho). exists []. split; [by apply value_accepted|done].
Qed.

(** C28: Whatever tokens the decoder gives for a body, as long as its delimiters match, the check for duplicate keys
    accepts exactly those of one object with nothing behind it, of whose objects none, at any depth, names a key twice; its
    recursion ends on every text. *)
Theorem strict_json_unique_keys ts :
  nested [] ts →
  rejectDuplicateJSONObjectKeys ts = None ↔ ∃ v, ts = text v ∧ is_object v = true ∧ unique_keys v = true.
Proof.
  intros Hn. pose proof (one_value ts true Hn) as Hv. unfold rejectDuplicateJSONObjectKeys. transitivity (∃ v, ts = text v ∧ unique_keys v = true ∧ (true = true → is_object v = true)); [|naive_solver].
  rewrite <- Hv. destruct (parseValue _ _ ts) as [e|rest]; [naive_solver|]. split; [by exists rest|by intros (? & [= ->] & ?)].
Qed.

(** ** Strict bodies *)

(** A body that is taken for a request: JSON by its media type, in UTF-8 if it says so, not encoded, not too long, and one
    value (an [object], where that is asked for) without a repeated key, which decodes with nothing left. *)
Section Bodies.
Context `{GU : GoUnicode} {A : Type} (object : bool) (media : string → GoError + (string * gmap string string)).
Context (tokens_of : string → Tokens) (decode : string → GoError + (A * Tokens)) (maximum : Z).
Record strict_body (request : HttpBody) (a : A) : Prop := {
  sb_type : ∃ mediaType parameters, media (hb_ContentType request) = inr (mediaType, parameters) ∧
    EqualFold mediaType "application/json" = true ∧ (size parameters <= 1)%nat ∧
    map_Forall (λ name value, EqualFold name "charset" = true ∧ EqualFold value "utf-8" = true) parameters;
  sb_encoding : TrimSpace (hb_ContentEncoding request) = "" ∨ EqualFold (TrimSpace (hb_ContentEncoding request)) "identity" = true;
  sb_text : ∃ body v, hb_Body request = inr body ∧ Z.of_nat (String.length body) <= maximum ∧ ValidString body = true ∧
    (object = true → TrimSpace body ≠ "" ∧ is_object v = true) ∧
    tokens_of body = text v ∧ unique_keys v = true ∧ decode body = inr (a, [])
}.
End Bodies.

Lemma media_strict `{GU : GoUnicode} (r : GoError + (string * gmap string string)) :
  (∃ mediaType parameters, r = inr (mediaType, parameters) ∧ EqualFold mediaType "application/json" = true ∧ (size parameters <= 1)%nat ∧
     map_Forall (λ name value, EqualFold name "charset" = true ∧ EqualFold value "utf-8" = true) parameters) ↔
  ∃ mediaType parameters, r = inr (mediaType, parameters) ∧
    negb (EqualFold mediaType "application/json") || (1 <? Z.of_nat (size parameters))
    || negb (forallb (λ kv, EqualFold kv.1 "charset" && EqualFold kv.2 "utf-8") (map_to_list parameters)) = false.
Proof.
  apply exist_proper. intros mediaType. apply exist_proper. intros parameters. rewrite !orb_false_iff, !negb_false_iff, Z.ltb_ge.
  assert (forallb (λ kv, EqualFold kv.1 "charset" && EqualFold kv.2 "utf-8") (map_to_list parameters) = true ↔
    map_Forall (λ name value, EqualFold name "charset" = true ∧ EqualFold value "utf-8" = true) parameters) as ->.
  { rewrite map_Forall_to_list, Forall_forall, forallb_forall. apply forall_proper. intros [name value].
    rewrite <- list_elem_of_In. cbn. by rewrite andb_true_iff. }
  split; [intros (? & ? & ? & ?)|intros (? & [? ?] & ?)]; split_and!; done || lia.
Qed.
Lemma encoding_strict `{GU : GoUnicode} encoding :
  (encoding = "" ∨ EqualFold encoding "identity" = true) ↔ bool_decide (encoding ≠ "") && negb (EqualFold encoding "identity") = false.
Proof. case_bool_decide; destruct (EqualFold encoding "identity"); cbn; naive_solver. Qed.

(** A decoder whose delimiters match, as [encoding/json] documents. *)
Class DecoderLaws `{JD : JsonDecoder} : Prop := { tokens_nested body : nested [] (json_tokens body) }.
(** The adapter takes the bodies that are strict, and no others. *)
Lemma decodeJSON_strict `{GU : GoUnicode} `{JD : JsonDecoder} `{DL : !DecoderLaws} {A} config (decode : string → GoError + (A * Tokens)) request a :
  decodeJSON config decode request = inr a ↔
  strict_body true ParseMediaType json_tokens decode (hc_MaximumBodyBytes config) request a.
Proof.
  unfold decodeJSON. split.
  - intros (u1 & Hm%check_inr & (u2 & He%check_inr & (body & Hb & H)%and_then_inr)%and_then_inr)%and_then_inr.
    unfold read_body in Hb. apply and_then_inr in Hb as (body' & Hb' & Hb). destruct (Z.ltb_spec (hc_MaximumBodyBytes config) (Z.of_nat (String.length body'))); [done|].
    injection Hb as ->. destruct (hb_Body request) as [|b] eqn:Eb; [done|]. injection Hb' as ->.
    destruct (negb _ || _) eqn:Ev; [done|]. apply orb_false_iff in Ev as [Ev%negb_false_iff Et%bool_decide_eq_false].
    apply and_then_inr in H as (u3 & Hd & H). destruct (rejectDuplicateJSONObjectKeys _) eqn:Er; [done|].
    destruct (decode body) as [|[target rest]] eqn:Edec; [done|]. apply and_then_inr in H as (u4 & Hr & [= ->]).
    destruct rest as [|[|]]; [|done..].
    unfold rejectDuplicateJSONObjectKeys in Er. destruct (parseValue _ _ _) as [|rest] eqn:Ep; [done|].
    destruct (proj1 (one_value _ true (tokens_nested body)) (ex_intro _ rest (conj Ep Er))) as (v & Hv & Hu & Ho). split.
    + unfold check_media_type in Hm. destruct (ParseMediaType _) as [|[m ps]] eqn:Em; [done|]. apply media_strict. exists m, ps. split; [done|].
      by destruct (_ || _).
    + unfold check_encoding in He. apply encoding_strict. by destruct (_ && _).
    + exists body, v. split_and!; try done. auto.
  - intros [Hm He (body & v & Hb & Hlen & Hv & Hobj & Ht & Hu & Hdec)]. destruct (Hobj eq_refl) as [Hne Ho].
    unfold check_media_type. apply media_strict in Hm as (m & ps & -> & ->). unfold check_encoding. apply encoding_strict in He as ->.
    cbn [check and_then]. unfold read_body. rewrite Hb. cbn [wrapping and_then]. rewrite (proj2 (Z.ltb_ge _ _) Hlen). cbn [and_then].
    rewrite Hv, bool_decide_false by done. cbn [negb orb].
    destruct (proj2 (one_value _ true (tokens_nested body)) (ex_intro _ v (conj Ht (conj Hu (λ _, Ho))))) as (rest & Ep & Er).
    unfold rejectDuplicateJSONObjectKeys. rewrite Ep, Er. cbn [invalid_if and_then]. by rewrite Hdec.
Qed.

(** ** Slots *)

Section Slots.
Context `{GU : GoUnicode} `{JD : JsonDecoder} `{AT : AuditTypes} `{AL : !AuditLib} {S : Type}.
Context `{CS : !CommandService S} `{HR : !HistoryReader S} `{HE : !HealthReader S}.
Context (with_timeout : Z → Ctx → Ctx) `{MR : MapRange} (config : HTTPConfig).

(** *** The contract *)

(** A request is not begun, is in its handler, has left it with an answer still to give, or is answered. *)
Inductive Stage := Waiting | Serving | Leaving (response : Response) | Answered (response : Response).
Definition in_flight (stage : Stage) : bool := match stage with Serving | Leaving _ => true | _ => false end.
Abbreviation Requests := (list (Ctx * HttpRequest * Stage)) (only parsing).
(** How many requests are in flight. *)
Definition load (requests : Requests) : Z := len (filter (λ r, in_flight r.2 = true) requests).
(** The answer of a handler, or the one for a handler that panics. *)
Definition answer_of (o : Outcome Response) : Response :=
  match o with Val response => response | _ => RespondError (mkPublicError 500 "internal_error" "internal error") end.
(** One turn of a request: it is let in while fewer than the maximum are in flight and turned away otherwise, whatever it
    asks for; its handler runs; its answer is given. *)
Inductive turn : S * Requests → nat → S * Requests → Prop :=
  | turn_in s rs i c request : rs !! i = Some (c, request, Waiting) → load rs < hc_MaximumConcurrent config →
      turn (s, rs) i (s, <[i := (c, request, Serving)]> rs)
  | turn_away s rs i c request : rs !! i = Some (c, request, Waiting) → hc_MaximumConcurrent config <= load rs →
      turn (s, rs) i (s, <[i := (c, request, Answered (RespondError (mkPublicError 429 "too_many_requests" "too many requests")))]> rs)
  | turn_serve s rs i c request o c' s' : rs !! i = Some (c, request, Serving) → route with_timeout config request c s = (o, c', s') →
      turn (s, rs) i (s', <[i := (c', request, Leaving (answer_of o))]> rs)
  | turn_out s rs i c request response : rs !! i = Some (c, request, Leaving response) →
      turn (s, rs) i (s, <[i := (c, request, Answered response)]> rs).
Inductive turns : S * Requests → list nat → S * Requests → Prop :=
  | turns_nil x : turns x [] x
  | turns_snoc x js y i z : turns x js y → turn y i z → turns x (js ++ [i]) z.
Definition arriving (requests : list (Ctx * HttpRequest)) : Requests := map (λ r, (r, Waiting)) requests.
(** A thread and the stage its request is in: it has that stage's answer, or it is not at its end. *)
Definition stands (r : Ctx * HttpRequest * Stage) (t : Ctx * Prog (Shared (S := S)) Response) : Prop :=
  match r.2 with Answered response => t.2 = Threads.Answer response | _ => finished t.2 = false end.

(** *** The adapter keeps it *)

Inductive phase : HttpRequest → Stage → Prog (Shared (S := S)) Response → Prop :=
  | ph_waiting request : phase request Waiting (serve with_timeout config request)
  | ph_running request : phase request Serving (in_slot (route with_timeout config request))
  | ph_leaving request o : phase request (Leaving (answer_of o)) (give_back o)
  | ph_answered request r : phase request (Answered r) (Threads.Answer r).
Definition placed (r : Ctx * HttpRequest * Stage) (t : Ctx * Prog (Shared (S := S)) Response) : Prop :=
  t.1 = r.1.1 ∧ phase r.1.2 r.2 t.2.
Record slots_held (x : Pool (Shared (S := S)) Response) (f : S * Requests) : Prop := {
  sh_state : pl_state x = (load f.2, f.1);
  sh_max : load f.2 <= hc_MaximumConcurrent config;
  sh_threads : Forall2 placed f.2 (pl_threads x)
}.
Lemma load_insert (rs : Requests) i x y :
  rs !! i = Some x → load (<[i := y]> rs) = load rs - Z.b2z (in_flight x.2) + Z.b2z (in_flight y.2).
Proof.
  unfold load, len. revert i. induction rs as [|r rs IH]; intros [|i]; [done..| |].
  - intros [= ->]. cbn [insert list_insert]. rewrite !filter_cons. destruct (in_flight x.2), (in_flight y.2); repeat case_decide; cbn [length Z.b2z]; done || lia.
  - intros H%IH. change (<[Datatypes.S i:=y]> (r :: rs)) with (r :: <[i:=y]> rs). rewrite !filter_cons. case_decide; cbn [length]; lia.
Qed.
Lemma load_pos rs : 0 <= load rs.
Proof. unfold load, len. lia. Qed.
Lemma slots_step x i y f : step x i y → slots_held x f → ∃ f', turn f i f' ∧ slots_held y f'.
Proof.
  intros [s ts j c p c' p' s' Hi Ha] [Hs Hm Ht]. cbn [pl_state pl_threads] in *. destruct f as [h rs]. cbn [fst snd] in *. subst s.
  destruct (Forall2_lookup_r _ _ _ _ _ Ht Hi) as ([[c0 request] stage] & Hr & [Hc Hp]). cbn in Hc, Hp. subst c0.
  assert (∀ stage' h' c' p', phase request stage' p' → s' = (load rs - Z.b2z (in_flight stage) + Z.b2z (in_flight stage'), h') →
    load rs - Z.b2z (in_flight stage) + Z.b2z (in_flight stage') <= hc_MaximumConcurrent config →
    slots_held (mkPool s' (<[j := (c', p')]> ts)) (h', <[j := (c', request, stage')]> rs)) as Hheld.
  { intros stage' h' d q Hq -> Hle. pose proof (load_insert rs j _ (d, request, stage') Hr) as El. cbn in El.
    split; cbn [pl_state pl_threads fst snd]; [by rewrite El|by rewrite El|]. by apply Forall2_insert. }
  destruct Hp as [request|request|request o|request r]; cbn in Ha.
  - unfold acquire in Ha. cbn [fst snd] in Ha. destruct (Z.ltb_spec (load rs) (hc_MaximumConcurrent config)); injection Ha as <- <- <-.
    + eexists. split; [by apply turn_in|]. apply Hheld; [constructor|f_equal; cbn; lia|cbn; lia].
    + eexists. split; [by apply turn_away|]. apply Hheld; [constructor|f_equal; cbn; lia|cbn; lia].
  - unfold on_part in Ha. cbn [snd] in Ha. destruct (route with_timeout config request c h) as [[o c1] s1] eqn:E. injection Ha as <- <- <-.
    eexists. split; [by eapply turn_serve|]. apply Hheld; [constructor|f_equal; cbn; lia|cbn; lia].
  - injection Ha as <- <- <-. eexists. split; [by eapply turn_out|]. apply Hheld; [constructor|f_equal; cbn; lia|cbn; lia].
  - done.
Qed.
Lemma slots_run x js y f js0 f0 : run x js y → turns f0 js0 f → slots_held x f → ∃ f', turns f0 (js0 ++ js) f' ∧ slots_held y f'.
Proof.
  intros H. revert f js0. induction H as [|x i y js z Hs _ IH]; intros f js0 Ht Hx; [exists f; by rewrite app_nil_r|].
  destruct (slots_step _ _ _ _ Hs Hx) as (f1 & H1 & Hy). destruct (IH f1 (js0 ++ [i])) as (f' & ? & ?); [by econstructor|done|].
  exists f'. by rewrite <- (assoc_L (++)) in H.
Qed.

(** C30: However the requests interleave, the adapter does what its contract says: a request is let in exactly when fewer
    than the configured number are in flight, and is otherwise answered that there are too many, without running; the
    others run their handler once and give its answer, or that of an internal error when it panics. So no more than that
    number are ever in flight; the slots in use are the requests in flight, none when all are answered; and each request
    ends within three operations. *)
Theorem slots_bounded s requests js y :
  0 <= hc_MaximumConcurrent config → run (serve_all with_timeout config s requests) js y →
  ∃ rs, turns (s, arriving requests) js ((pl_state y).2, rs) ∧ Forall2 stands rs (pl_threads y) ∧
    load rs <= hc_MaximumConcurrent config ∧ (pl_state y).1 = load rs ∧
    (Forall (λ t, finished t.2 = true) (pl_threads y) → (pl_state y).1 = 0) ∧ (length js <= 3 * length requests)%nat.
Proof.
  intros Hmax Hr.
  assert (load (arriving requests) = 0) as H0 by (unfold load, arriving; clear; induction requests as [|r rs IH]; [done|exact IH]).
  destruct (slots_run _ _ _ (s, arriving requests) [] (s, arriving requests) Hr) as ([h rs] & Ht & [Hs Hle Hth]); [constructor| |].
  { split; cbn [fst snd]; rewrite ?H0; [done|done|]. cbn. unfold arriving. clear. induction requests; cbn; constructor; [|done].
    split; [done|constructor]. }
  cbn in Ht, Hs, Hle, Hth. rewrite Hs. cbn [fst snd]. exists rs. split; [done|]. split_and!; [|done|done| |].
  - eapply Forall2_impl; [exact Hth|]. intros r t [_ Hp]. unfold stands. by destruct Hp.
  - intros Hf. clear -Hth Hf. induction Hth as [|r t rs ts [_ Hp] _ IH]; [done|]. apply Forall_cons in Hf as [Ht Hf].
    unfold load in *. cbn. rewrite decide_False; [by apply IH|]. by destruct Hp.
  - replace (3 * length requests)%nat with (total (map (λ _, 3%nat) requests)) by (clear; induction requests; cbn; lia).
    eapply run_within; [exact Hr|]. cbn. clear. induction requests as [|r rs' IH]; cbn; constructor; [|done].
    by intros [[]|e|].
Qed.
End Slots.

(** ** Evaluations *)

(** [{"a": [{"k": 1}, {"k": 2}]}]: a key may be named again in another object. *)
Definition keys_apart : Json := JObject [("a", JArray [JObject [("k", JAtom)]; JObject [("k", JAtom)]])].
Lemma strict_json_unique_keys_witness : nested [] (text keys_apart) ∧ rejectDuplicateJSONObjectKeys (text keys_apart) = None.
Proof.
  assert (nested [] (text keys_apart)) as Hn by (vm_compute; repeat split).
  split; [exact Hn|]. apply (strict_json_unique_keys (text keys_apart) Hn). by exists keys_apart.
Defined.

(** Services that answer nothing, for requests that do not reach them. *)
Definition no_decoder : JsonDecoder := {|
  ParseMediaType _ := inl EOF; json_tokens _ := []; decode_create _ := inl EOF; decode_transition _ := inl EOF;
  decode_search _ := inl EOF; decode_detail _ := inl EOF
|}.
Definition no_commands : CommandService unit := {| service_Create _ := panic; service_Transition _ := panic |}.
Definition no_reader : HistoryReader unit := {| reader_Find _ := panic |}.
Definition no_health : HealthReader unit := {| health_Readiness := panic; health_Status := panic |}.
Definition one_slot : HTTPConfig := mkHTTPConfig 1024 Second 1.
(** Three requests for one slot: the second comes while the first, which panics, is served. *)
Definition demo_pool : Pool Shared Response :=
  serve_all (GU := plain_unicode) (JD := no_decoder) (CS := no_commands) (HR := no_reader) (HE := no_health) (λ _, id) one_slot tt
    [(Background, GetReadyz); (Background, GetHealthz); (Background, GetHealthz)].
Example demo_answers :
  map (λ t, match t.2 with Threads.Answer r => Some r | _ => None end) (pl_threads (schedule [0; 1; 0; 0; 2; 2; 2]%nat demo_pool))
  = [Some (RespondError (mkPublicError 500 "internal_error" "internal error")); Some tooManyRequests;
     Some (Respond 200 (DataHealth "ok"))].
Proof. by vm_compute. Qed.
Lemma slots_bounded_witness :
  ∃ js, run demo_pool js (schedule [0; 1; 0; 0; 2; 2; 2]%nat demo_pool) ∧ (length js <= 3 * 3)%nat.
Proof.
  destruct (schedule_run [0; 1; 0; 0; 2; 2; 2]%nat demo_pool) as (js & Hr & _). exists js. split; [exact Hr|].
  destruct (slots_bounded (GU := plain_unicode) (JD := no_decoder) (CS := no_commands) (HR := no_reader) (HE := no_health)
    (λ _, id) one_slot tt _ js _ ltac:(done) Hr) as (rs & _ & _ & _ & _ & _ & Hl). exact Hl.
Defined.
