(* ===== verification/OrderApiTheorems.v ===== *)
(** The audited order workflow from its routes to its tables: what an accepted command has committed, and what the
    pages of an order's history hold. *)
From Stdlib Require Import Ascii String.
From S2P Require Import Prelude GraphLib JwtLib SqlTx SqlModel Threads OrderWorkflow OrderWorkflowProofs OrderWorkflowModel OrderWorkflowTheorems OrderReads OrderApi OrderApiProofs.

(** ** Validated commands are valid *)

Section Validation.
Context `{MR : MapRange}.
Lemma identifier_idem raw v : normalizeIdentifier raw = inr v → normalizeIdentifier v = inr v.
Proof.
  intros H. assert (v = TrimSpace raw) as ->. { unfold normalizeIdentifier in H. destruct (_ || _); [done|]. by injection H. }
  unfold normalizeIdentifier in *. by rewrite TrimSpace_idem.
Qed.
Lemma create_idem raw v : CreateCommand_validate raw = inr v → CreateCommand_validate v = inr v.
Proof.
  unfold CreateCommand_validate. intros (o & Ho & (k & Hk & (m & Hm & [= <-])%and_then_inr)%and_then_inr)%and_then_inr. cbn.
  rewrite (identifier_idem _ _ Ho), (identifier_idem _ _ Hk). pose proof Hm as [-> _]%metadata_valid. by rewrite Hm.
Qed.
Lemma transition_idem raw v : TransitionCommand_validate raw = inr v → TransitionCommand_validate v = inr v.
Proof.
  unfold TransitionCommand_validate. intros (o & Ho & (k & Hk & H)%and_then_inr)%and_then_inr.
  destruct (negb _ || _) eqn:E1; [done|]. destruct (bool_decide (_ ∧ _)) eqn:E2; [done|].
  destruct (bool_decide (tc_Action raw = _ ∧ _)) eqn:E3; [done|]. apply and_then_inr in H as (m & Hm & [= <-]). cbn [tc_OrderID tc_CommandID tc_Reason tc_Action tc_Metadata].
  rewrite (identifier_idem _ _ Ho), (identifier_idem _ _ Hk). cbn [and_then]. rewrite TrimSpace_idem, E1, E2, E3.
  pose proof Hm as [-> _]%metadata_valid. by rewrite Hm.
Qed.
End Validation.

Section Api.
Context `{GU : GoUnicode} `{JD : JsonDecoder} `{DL : !DecoderLaws} `{MR : MapRange} `{PD : PgDriver} `{AT : AuditTypes} `{AL : !AuditLib} `{JB : Jsonb}.
Context {E : Type} `{SE : !SqlEngine Tables Write E} `{OS : !OutboxStore E} `{SR : !SqlRows E} `{AR : !AuditReader}.
Context `{HE : !HealthReader (World Tables E)}.
Context `{LW : !AuditLaws} `{SL : !SqlLaws others workflow_sentinel} `{OL : !OutboxLaws (E := E)}.
Context (with_timeout : Z → Ctx → Ctx) (config : HTTPConfig) (service : Ptr Service) (store : Ptr HistoryStore).

(** The adapter over the service and the history store. *)
#[local] Instance sql_commands : CommandService (World Tables E) :=
  {| service_Create := Create service; service_Transition := Transition service |}.
#[local] Instance sql_reader : HistoryReader (World Tables E) :=
  {| reader_Find query := let! entries := Find store query in ret (Some entries) |}.

Lemma under_timeout_run {S A} timeout (m : GoM S A) after c s o c' s' :
  under_timeout with_timeout timeout m after c s = (o, c', s') →
  ∃ c1 o1 c2, m c1 s = (o1, c2, s') ∧
    match o with Val (inr a) => o1 = Val a | Val (inl _) => o1 ≠ Panic | _ => o1 = Panic end.
Proof.
  unfold under_timeout, bind. destruct (m (with_timeout timeout c) s) as [[[a|e|] c2] s2] eqn:Em.
  - destruct after; cbn.
    + destruct (ctxErr c2 s2) as [[o3 c3] s3] eqn:E3. apply ctxErr_inv in E3 as [-> [->|[cause ->]]]; intros [= <- <- <-]; by eauto.
    + intros [= <- <- <-]; by eauto.
  - intros [= <- <- <-]; by eauto.
  - intros [= <- <- <-]; by eauto.
Qed.
Lemma service_error_run {S} err c (s : S) o c' s' :
  respondServiceError err c s = (o, c', s') → s' = s ∧ ∃ r, o = Val r ∧ match r with Respond _ _ => False | _ => True end.
Proof.
  assert (match service_error err with Respond _ _ => False | _ => True end) as He by (unfold service_error; repeat case_match; done).
  unfold respondServiceError, settle. destruct (errors_Is err _); [|intros [= <- <- <-]; eauto].
  destruct (ctxErr c s) as [[o1 c1] s1] eqn:E1. apply ctxErr_inv in E1 as [-> [->|[cause ->]]]; intros [= <- <- <-]; split; eauto.
  eexists. split; [done|]. by destruct (errors_Is _ _).
Qed.
Lemma decode_error_run err : match respondDecodeError err with Respond _ _ => False | _ => True end.
Proof. unfold respondDecodeError. by repeat case_match. Qed.

(** The command a request posts with a strict body, and the status of a new order. *)
Inductive posted : HttpRequest → Command → Z → Prop :=
  | posted_order body c : strict_body true ParseMediaType json_tokens decode_create (hc_MaximumBodyBytes config) body c →
      posted (PostOrders body) (Creating c) 201
  | posted_transition body c : strict_body true ParseMediaType json_tokens decode_transition (hc_MaximumBodyBytes config) body c →
      posted (PostTransitions body) (Transiting c) 200.
Definition for_command (request : HttpRequest) : Prop := match request with PostOrders _ | PostTransitions _ => True | _ => False end.
Definition no_data (response : Response) : Prop := match response with Respond _ _ => False | _ => True end.
(** What an answer to a request for a command says of the database: an order is shown for a posted command that is valid,
    and as it settled; for a body that is not strict nothing is done. *)
Definition honest (request : HttpRequest) (response : Response) (t t' : Tables) : Prop :=
  match response with
  | Respond status (DataOrder order event_id key delivery replayed) =>
      ∃ command created intent, posted request command created ∧ valid_command command = Some (event_id, intent) ∧
        status = (if replayed then 200 else created) ∧ key = event_id ∧ delivery = "asynchronous" ∧
        settled event_id intent (Val (order, replayed)) t t'
  | Respond _ _ => False
  | _ => others t t'
  end ∧
  ((∀ command created, ¬ posted request command created) → t' = t ∧ ∃ problem, response = RespondError problem).
Lemma honest_others request command created response t t' :
  posted request command created → no_data response → others t t' → honest request response t t'.
Proof. intros Hp Hd Ho. split; [by destruct response|]. intros Hno. by destruct (Hno _ _ Hp). Qed.
Lemma decode_error_honest request err t : honest request (respondDecodeError err) t t.
Proof.
  assert (∃ problem, respondDecodeError err = RespondError problem) as [problem Hr] by (unfold respondDecodeError; repeat case_match; by eexists).
  rewrite Hr. split; [reflexivity|]. eauto.
Qed.

(** A call of the service under the timeout, and its answer. *)
Lemma command_answer request cmd v id intent created (m : GoM (World Tables E) (Order * bool)) c w o c' w' :
  posted request cmd created → valid_command cmd = Some (id, intent) → valid_command v = Some (id, intent) → m = handle service v →
  (let! result := under_timeout with_timeout (hc_OperationTimeout config) m true in
   answer result respondServiceError (λ result, ret (respond_order id created result))) c w = (o, c', w') →
  ∃ response, o = Val response ∧ honest request response (w_tables w) (w_tables w').
Proof using LW OL SL.
  intros Hpost Hc Hv -> H. unfold bind in H. destruct (under_timeout _ _ _ _ _ _) as [[o1 c1] w1] eqn:E1.
  apply under_timeout_run in E1 as (d & o2 & d' & E2 & Ho). pose proof E2 as Hs.
  apply handle_settles in Hs as [[-> [err ->]]|(id' & intent' & Hv' & Hs)].
  - destruct o1 as [[e|[]]|e|]; [|done..]. apply service_error_run in H as (-> & r & -> & Hr). exists r. split; [done|]. by eapply honest_others.
  - rewrite Hv in Hv'. injection Hv' as <- <-.
    destruct o1 as [[e|[order replayed]]|e|]; [| |by subst o2..].
    + apply service_error_run in H as (-> & r & -> & Hr). apply settled_others in Hs. exists r. split; [done|]. by eapply honest_others.
    + subst o2. injection H as <- <- <-. eexists. split; [done|]. split; [by exists cmd, created, intent|]. intros Hno. by destruct (Hno _ _ Hpost).
Qed.

(** C29: Whatever a client posts, the answer tells what the database holds: 201 and 200 come with an order that the
    command of a strict body committed, or that an earlier one of the same identity and intent did; every other answer
    leaves the tables to commands done as a whole, and a body that is not strict is answered with an error and changes
    nothing; no request ends without an answer. *)
Theorem posted_orders_are_committed request c w o c' w' :
  for_command request → route with_timeout config request c w = (o, c', w') →
  ∃ response, o = Val response ∧ honest request response (w_tables w) (w_tables w').
Proof using LW OL SL DL.
  assert (∀ cmd created err c o c', posted request cmd created → respondServiceError err c w = (o, c', w') →
    ∃ response, o = Val response ∧ honest request response (w_tables w) (w_tables w')) as He.
  { intros cmd cr err d o1 d' Hp (-> & r & -> & Hr)%service_error_run. exists r. split; [done|]. by eapply honest_others. }
  destruct request as [body|body| | | | | | |]; intros Hcmd H; try done; cbn in H; unfold createOrder, transitionOrder, answer at 1 in H.
  - destruct (decodeJSON _ _ body) as [err|raw] eqn:Hd; [injection H as <- <- <-; eexists; split; [done|apply decode_error_honest]|].
    apply decodeJSON_strict in Hd. unfold answer at 1 in H. destruct (CreateCommand_validate raw) as [err|v] eqn:Hv; [eapply He, H; by constructor|].
    eapply (command_answer _ (Creating raw) (Creating v) (cc_CommandID v) (create_intent v)); [by constructor| | |done|exact H]; cbn; [by rewrite Hv|by rewrite (create_idem _ _ Hv)].
  - destruct (decodeJSON _ _ body) as [err|raw] eqn:Hd; [injection H as <- <- <-; eexists; split; [done|apply decode_error_honest]|].
    apply decodeJSON_strict in Hd. unfold answer at 1 in H. destruct (TransitionCommand_validate raw) as [err|v] eqn:Hv; [eapply He, H; by constructor|].
    eapply (command_answer _ (Transiting raw) (Transiting v) (tc_CommandID v) (transition_intent v)); [by constructor| | |done|exact H]; cbn; [by rewrite Hv|by rewrite (transition_idem _ _ Hv)].
Qed.
(** ** Pages of the history *)

(** The queries of a page are asked as they are. *)
Class ReaderLaws : Prop := { query_kept q q' : Query_Validate q = inr q' → 0 < q_Limit q → q_Aggregate q ≠ None → q' = q }.
Context `{RL : !SqlRowsLaws E} `{QL : !ReaderLaws}.

Definition page_query (id : string) (from limit : Z) : Query :=
  mkQuery (Some (mkAggregate orderAggregateType id)) "" from 0 0 0 false (limit + 1).
(** The rows of an order from a revision on. *)
Definition rows_from (id : string) (from : Z) (t : Tables) : list HistoryRow := drop (Z.to_nat (from - 1)) (rows_of id t).
Definition scanned (row : HistoryRow) (entry : Entry) : Prop := scanHistoryRow row = inr entry.

Lemma revision_at id t i row : explained t → rows_of id t !! i = Some row → hr_revision row = 1 + Z.of_nat i.
Proof.
  intros He Hi. pose proof (ex_revisions _ He id) as H. apply (f_equal (λ l, l !! i)) in H.
  rewrite list_lookup_fmap, Hi in H. cbn in H. symmetry in H. by apply lookup_seqZ in H as [-> _].
Qed.
Lemma filter_from {A} (rev : A → Z) l from k :
  (∀ i x, l !! i = Some x → rev x = k + Z.of_nat i) → filter (λ x, from <= rev x) l = drop (Z.to_nat (from - k)) l.
Proof.
  revert k. induction l as [|x l IH]; intros k Hl; [by rewrite drop_nil|].
  assert (rev x = k) as Hx by (rewrite (Hl 0%nat x) by done; lia).
  assert (filter (λ x, from <= rev x) l = drop (Z.to_nat (from - (k + 1))) l) as Ht.
  { apply IH. intros i y Hi. rewrite (Hl (S i) y) by done. lia. }
  destruct (decide (from <= k)).
  - rewrite filter_cons_True by lia. replace (Z.to_nat (from - k)) with 0%nat by lia. rewrite Ht.
    by replace (Z.to_nat (from - (k + 1))) with 0%nat by lia.
  - rewrite filter_cons_False by lia. replace (Z.to_nat (from - k)) with (S (Z.to_nat (from - (k + 1)))) by lia. done.
Qed.
Lemma selected_rows id from limit t :
  explained t → 0 <= from →
  filter (λ row, forallb (λ c, condition_holds c row) (conditions (page_query id from limit)) = true) (t_history t) = rows_from id from t.
Proof.
  intros He Hfrom. unfold conditions.
  cbn [page_query q_Aggregate q_AggregateType q_FromRevision q_ToRevision q_FromRecordedAt q_ToRecordedAt ag_Type ag_ID].
  rewrite bool_decide_eq_false_2 by (by intros H; apply H). cbn [app]. unfold rows_from. destruct (Z.eqb_spec from 0) as [->|Hne].
  - cbn [drop Z.to_nat Z.sub Z.opp Z.add]. apply list_filter_iff. intros row. unfold is_row_of. cbn.
    rewrite !andb_true_iff, !bool_decide_eq_true. naive_solver.
  - rewrite <- (filter_from hr_revision); [|intros i x; by apply revision_at]. unfold rows_of. rewrite list_filter_filter.
    apply list_filter_iff. intros row. unfold is_row_of. cbn. rewrite !andb_true_iff, !bool_decide_eq_true, Z.leb_le. naive_solver.
Qed.
Lemma rows_ordered id from t :
  explained t → SliceStable (λ a b, hr_revision a <? hr_revision b) (rows_from id from t) = rows_from id from t.
Proof.
  intros He. apply stable_sorted. unfold rows_from.
  assert (∀ l k, (∀ i x, l !! i = Some x → hr_revision x = k + Z.of_nat i) → StronglySorted (λ a b, (hr_revision b <? hr_revision a) = false) l) as Hs.
  { clear. induction l as [|x l IH]; intros k Hl; constructor.
    - apply (IH (k + 1)). intros i y Hi. rewrite (Hl (S i) y) by done. lia.
    - apply Forall_lookup. intros i y Hi. apply Z.ltb_ge. rewrite (Hl (S i) y), (Hl 0%nat x) by done. lia. }
  apply (Hs _ (1 + Z.of_nat (Z.to_nat (from - 1)))). intros i x. rewrite lookup_drop. intros Hi. apply revision_at in Hi; [lia|done].
Qed.
Lemma page_rows id from limit t :
  explained t → 0 <= from → 0 <= limit →
  find_rows (page_query id from limit) (t_history t) = take (Z.to_nat (limit + 1)) (rows_from id from t).
Proof.
  intros He Hf Hl. unfold find_rows. rewrite selected_rows by done. cbn [page_query q_Aggregate q_NewestFirst q_Limit].
  rewrite rows_ordered by done. destruct (Z.ltb_spec 0 (limit + 1)); [done|lia].
Qed.

Lemma scan_each_rows rows entries : scan_each rows = inr entries → Forall2 scanned rows entries.
Proof.
  revert entries. induction rows as [|row rows IH]; intros entries; cbn; [by intros [= <-]; constructor|].
  intros (e & He & (es & Hes & [= <-])%and_then_inr)%and_then_inr. constructor; [done|by apply IH].
Qed.
Lemma find_run query c w entries c' w' :
  Find store query c w = (Val entries, c', w') → 0 < q_Limit query → q_Aggregate query ≠ None →
  ∃ t, others (w_tables w) t ∧ others t (w_tables w') ∧ Forall2 scanned (find_rows query (t_history t)) entries.
Proof using SL RL QL.
  unfold Find, store_session. intros H Hl Ha. destruct store as [st|]; [|done]. destruct (hs_db st); [|done].
  unfold bind at 1 in H. cbn [ret] in H. go_inv H.
  apply or_fail_run in Hrun as (_ & -> & [(q' & [= <-] & Hq)|(? & [=] & _)]). apply query_kept in Hq; [|done..]. subst a.
  apply or_fail_run in Hrun2 as (_ & -> & [(es & [= <-] & Hscan)|(? & [=] & _)]).
  apply fail_if_run in Hrun3 as (_ & -> & _).
  unfold wrap_errors, settle in Hrun0. destruct (on_db _ c1 w) as [[[rows|e|] c5] w5] eqn:Edb; [|done..]. injection Hrun0 as <- <- <-.
  apply (on_db_select others workflow_sentinel) in Edb as [(t & H1 & H2 & [= ->])|(_ & e & [=] & _)].
  unfold cursor in Hrun1. destruct (deliver _ _) as [[[d err] close] g] eqn:Ed. injection Hrun1 as -> -> -> <- <-.
  apply deliver_rows in Ed as [_ Hall]. exists t. split_and!; [done|done|].
  unfold scanHistoryRows in Hscan. apply and_then_inr in Hscan as (es & Hes & Hend). destruct o0; [done|].
  injection Hend as <-. rewrite (Hall eq_refl) in Hes. by apply scan_each_rows.
Qed.

(** A body that asks for a page of an order's history. *)
Definition asks (id : string) (limit from : Z) (body : HttpBody) : Prop :=
  ∃ request, decodeJSON config decode_search body = inr request ∧ search_query request = inr (page_query id from limit, limit).
(** A client that reads pages, each from the revision the last one gave, while others go on. *)
Inductive crawl (id : string) (limit : Z) : Z → World Tables E → list Entry → World Tables E → Prop :=
  | crawl_last from body c w entries c' w' :
      asks id limit from body →
      route with_timeout config (PostSearch body) c w = (Val (Respond 200 (DataEntries entries None)), c', w') →
      crawl id limit from w entries w'
  | crawl_more from body c w entries next c' w1 w2 rest w' :
      asks id limit from body →
      route with_timeout config (PostSearch body) c w = (Val (Respond 200 (DataEntries entries (Some next))), c', w1) →
      others (w_tables w1) (w_tables w2) → crawl id limit next w2 rest w' → crawl id limit from w (entries ++ rest) w'.

Lemma positive_number s z : parseRequiredPositiveInt64 s = inr z → 0 < z.
Proof. unfold parseRequiredPositiveInt64. repeat case_match; try done. intros [= <-]. lia. Qed.
Lemma optional_number s z : parseOptionalPositiveInt64 s = inr z → 0 <= z.
Proof. unfold parseOptionalPositiveInt64. case_bool_decide; [by intros [= <-]|]. intros ?%positive_number. lia. Qed.
Lemma asks_range id limit from body : asks id limit from body → 0 <= from ∧ 0 < limit.
Proof.
  intros (request & _ & H). unfold search_query in H.
  apply and_then_inr in H as (a & _ & (f & Hf & (t & _ & H)%and_then_inr)%and_then_inr). destruct (_ && _); [done|].
  apply and_then_inr in H as (l & Hl & H). destruct (_ || _); [done|]. injection H as _ <- _ _ _ _ <-.
  split; [by eapply optional_number|by eapply positive_number].
Qed.
(** A page is a prefix of what was there to read, and its cursor the revision that follows it. *)
Lemma page_run id limit from body c w entries next c' w' :
  explained (w_tables w) → asks id limit from body →
  route with_timeout config (PostSearch body) c w = (Val (Respond 200 (DataEntries entries next)), c', w') →
  ∃ t, others (w_tables w) t ∧ others t (w_tables w') ∧
    match next with
    | None => Forall2 scanned (rows_from id from t) entries
    | Some n => n = 1 + Z.of_nat (Z.to_nat (from - 1)) + limit ∧
        Forall2 scanned (take (Z.to_nat limit) (rows_from id from t)) entries ∧ (Z.to_nat limit < length (rows_from id from t))%nat
    end.
Proof using SL RL QL.
  intros He Hasks H. pose proof (asks_range _ _ _ _ Hasks) as [Hf Hl]. destruct Hasks as (request & Hd & Hq).
  cbn in H. unfold searchHistory, answer in H. rewrite Hd, Hq in H. unfold bind at 1 in H.
  destruct (under_timeout _ _ _ _ _ _) as [[o1 c1] w1] eqn:E1. apply under_timeout_run in E1 as (d & o2 & d' & E2 & Ho).
  destruct o1 as [[e|es]|e|]; [by apply service_error_run in H as (_ & r & [= <-] & [])| |done..].
  subst o2. injection H as Hp <- <-. cbn in E2. unfold bind in E2.
  destruct (Find store _ d w) as [[[found|e|] c3] w3] eqn:E3; [|done..]. injection E2 as <- <- <-. cbn in Hp.
  apply find_run in E3 as (t & H1 & H2 & Hs); [|cbn; lia|done]. exists t. split_and!; [done|done|].
  assert (explained t) as Het by (by eapply others_explained).
  rewrite (page_rows id from limit t) in Hs by (done || lia). pose proof (Forall2_length _ _ _ Hs) as Hlen.
  rewrite length_take in Hlen. unfold page_of, len in Hp.
  destruct (Z.ltb_spec limit (Z.of_nat (length found))) as [Hmore|Hmore]; injection Hp as <- <-.
  - destruct (found !! Z.to_nat limit) as [entry|] eqn:Ee; [|apply lookup_ge_None in Ee; lia]. cbn. split_and!.
    + destruct (Forall2_lookup_r _ _ _ _ _ Hs Ee) as (row & Hrow & Hsc).
      apply lookup_take_Some in Hrow as [Hrow _]. unfold rows_from in Hrow. rewrite lookup_drop in Hrow.
      apply revision_at in Hrow; [|done]. unfold scanned, scanHistoryRow in Hsc. destruct (check_scalars row); [done|].
      apply and_then_inr in Hsc as (e & _ & Hsc). destruct (scalars_match row e) eqn:Em; [|done]. injection Hsc as ->.
      unfold scalars_match in Em. rewrite !andb_true_iff, !bool_decide_eq_true in Em. destruct Em as [[[[[[_ _] ->] _] _] _] _]. lia.
    + apply (Forall2_take _ _ _ (Z.to_nat limit)) in Hs. rewrite take_take, Nat.min_l in Hs by lia. done.
    + lia.
  - rewrite take_ge in Hs by lia. done.
Qed.
Lemma rows_grow id t t' : others t t' → ∃ more, rows_of id t' = rows_of id t ++ more.
Proof. intros [rows Hr]%served_history. exists (filter (is_row_of id) rows). unfold rows_of. by rewrite Hr, filter_app. Qed.

(** A client that follows the cursors reads, while commands go on, the audit entries of the order from its first
    revision on: those of the history as it is when the last page is read, each once and in the order of their revisions. *)
Theorem pages_enumerate_history id limit from w entries w' :
  explained (w_tables w) → crawl id limit from w entries w' →
  ∃ t, others (w_tables w) t ∧ others t (w_tables w') ∧ Forall2 scanned (rows_from id from t) entries.
Proof using SL RL QL.
  intros He Hc. induction Hc as [from body c w entries c' w' Ha Hr|from body c w entries next c' w1 w2 rest w' Ha Hr H12 _ IH].
  - exact (page_run _ _ _ _ _ _ _ None _ _ He Ha Hr).
  - pose proof (asks_range _ _ _ _ Ha) as [Hf Hl].
    destruct (page_run _ _ _ _ _ _ _ (Some next) _ _ He Ha Hr) as (t & H1 & H2 & Hn & Hs & Hlen).
    assert (others (w_tables w) (w_tables w2)) as Hw2 by (etrans; [exact H1|]; by etrans).
    destruct IH as (t' & H3 & H4 & Hrest); [by eapply others_explained|]. exists t'. split_and!; [by etrans|done|].
    destruct (rows_grow id t t') as [more Hm]; [etrans; [exact H2|]; by etrans|].
    unfold rows_from in *. replace (drop (Z.to_nat (from - 1)) (rows_of id t'))
      with (take (Z.to_nat limit) (drop (Z.to_nat (from - 1)) (rows_of id t)) ++ drop (Z.to_nat (next - 1)) (rows_of id t')); [by apply Forall2_app|].
    rewrite length_drop in Hlen. rewrite Hm, !drop_app_le by lia.
    replace (Z.to_nat (next - 1)) with (Z.to_nat (from - 1) + Z.to_nat limit)%nat by lia.
    rewrite <- drop_drop, app_assoc, take_drop. done.
Qed.
End Api.

(** ** Evaluations *)

(** A decoder for bodies whose text is a command ID or a revision, about one order. *)
Definition demo_decoder : JsonDecoder := {|
  ParseMediaType header := inr (header, ∅);
  json_tokens _ := [inr (Delim "{"); inr (Delim "}")];
  decode_create text := inr (mkCreate "order-1" text ∅, []);
  decode_transition text := inr (mkTransition "order-1" text "confirm" "" ∅, []);
  decode_search text := inr (mkSearch (mkAggregateJSON "order" "order-1") text "" None None "1", []);
  decode_detail text := inr (mkDetail (mkAggregateJSON "order" "order-1") text, [])
|}.
Definition demo_rows : SqlRows Plain := {| deliver _ rows g := (rows, None, None, g) |}.
Lemma demo_rows_laws : SqlRowsLaws Plain (H := demo_rows).
Proof. split. intros A rows g delivered err close g' [= <- <- <- <-]. done. Qed.
Definition demo_reader : AuditReader := {|
  History := list PlainEntry; Query_Validate := inr; AggregateID_Validate _ := None; Revision_Validate _ := None;
  NewHistory := inr; has_snapshot _ := false
|}.
Lemma demo_reader_laws : ReaderLaws (AR := demo_reader).
Proof. split. by intros q q' [= <-]. Qed.
Definition demo_health : HealthReader (World Tables Plain) :=
  {| health_Readiness := ret (mkReadiness true true true); health_Status := ret (mkDeliverySnapshot "available" "running" (mkDelivery 0 0 0 0 0 0)) |}.
Definition json (text : string) : HttpBody := mkBody "application/json" "" (inr text).
Definition demo_route (request : HttpRequest) : GoM (World Tables Plain) Response :=
  route (GU := plain_unicode) (JD := demo_decoder) (CS := sql_commands demo)
    (HR := sql_reader (SR := demo_rows) (AR := demo_reader) (Some (mkHistoryStore true))) (HE := demo_health)
    (λ _, id) DefaultHTTPConfig request.
Definition entries_of (r : Outcome Response * Ctx * World Tables Plain) : list Entry :=
  match r.1.1 with Val (Respond _ (DataEntries entries _)) => entries | _ => [] end.
Definition first_page := entries_of (demo_route (PostSearch (json "1")) Background then_confirmed).
Definition second_page := entries_of (demo_route (PostSearch (json "2")) Background then_confirmed).

Lemma demo_decoder_laws : DecoderLaws (JD := demo_decoder).
Proof. split. intros body. vm_compute. repeat split. Qed.
Lemma posted_orders_are_committed_witness :
  honest (GU := plain_unicode) (JD := demo_decoder) DefaultHTTPConfig (PostOrders (json "cmd-9"))
    (Respond 201 (DataOrder (mkOrder "order-1" StatusPending 1 5000) "cmd-9" "cmd-9" "asynchronous" false))
    (w_tables (on_faults [])) (w_tables (after (demo_route (PostOrders (json "cmd-9"))) (on_faults []))).
Proof.
  assert (demo_route (PostOrders (json "cmd-9")) Background (on_faults [])
    = (Val (Respond 201 (DataOrder (mkOrder "order-1" StatusPending 1 5000) "cmd-9" "cmd-9" "asynchronous" false)), Background,
       after (demo_route (PostOrders (json "cmd-9"))) (on_faults []))) as Hr by by vm_compute.
  destruct (posted_orders_are_committed (GU := plain_unicode) (JD := demo_decoder) (DL := demo_decoder_laws) (HE := demo_health) (SR := demo_rows) (AR := demo_reader)
    (λ _, id) DefaultHTTPConfig demo (Some (mkHistoryStore true)) (PostOrders (json "cmd-9")) _ _ _ _ _ I Hr) as (r & [= <-] & H).
  exact H.
Defined.
Lemma pages_enumerate_history_witness :
  ∃ t, Forall2 scanned (rows_from "order-1" 1 t) (first_page ++ second_page) ∧ length (first_page ++ second_page) = 2%nat.
Proof.
  assert (explained (w_tables then_confirmed)) as He.
  { eapply others_explained; [|exact explained_empty].
    etrans; [apply (handle_others demo create_demo Background (on_faults []) (Val (mkOrder "order-1" StatusPending 1 5000, false)) Background once_created); by vm_compute|].
    apply (handle_others demo confirm_demo Background once_created (Val (mkOrder "order-1" StatusConfirmed 2 1005000, false)) Background then_confirmed). by vm_compute. }
  assert (demo_route (PostSearch (json "1")) Background then_confirmed
    = (Val (Respond 200 (DataEntries first_page (Some 2))), Background, then_confirmed)) as H1 by by vm_compute.
  assert (demo_route (PostSearch (json "2")) Background then_confirmed
    = (Val (Respond 200 (DataEntries second_page None)), Background, then_confirmed)) as H2 by by vm_compute.
  assert (asks (GU := plain_unicode) (JD := demo_decoder) DefaultHTTPConfig "order-1" 1 1 (json "1")) as A1.
  { exists (mkSearch (mkAggregateJSON "order" "order-1") "1" "" None None "1"). split; by vm_compute. }
  assert (asks (GU := plain_unicode) (JD := demo_decoder) DefaultHTTPConfig "order-1" 1 2 (json "2")) as A2.
  { exists (mkSearch (mkAggregateJSON "order" "order-1") "2" "" None None "1"). split; by vm_compute. }
  assert (others (w_tables then_confirmed) (w_tables then_confirmed)) as Ho by reflexivity.
  destruct (pages_enumerate_history (GU := plain_unicode) (JD := demo_decoder) (HE := demo_health) (SR := demo_rows) (AR := demo_reader)
    (λ _, id) DefaultHTTPConfig demo (Some (mkHistoryStore true)) (RL := demo_rows_laws) (QL := demo_reader_laws)
    "order-1" 1 1 then_confirmed (first_page ++ second_page) then_confirmed He
    (ltac:(eapply crawl_more; [exact A1|exact H1|exact Ho|]; eapply crawl_last; [exact A2|exact H2]))) as (t & _ & _ & Ht).
  exists t. split; [exact Ht|by vm_compute].
Defined.
