(* ===== verification/AuditQuery.v ===== *)
(** examples/gin-audit-query-api/internal/auditquery (model.go, service.go and server.go): history searches by pages and
    exact revisions over an audit reader, and their HTTP adapter. The reader, MIME parsing and the JSON decoder are
    parameters; the tokens of a body and the reader's interface are those of [OrderApi]. *)
From Stdlib Require Import Ascii String.
From S2P Require Import Prelude GraphLib SqlTx OrderWorkflow OrderReads OrderApi.

Definition ErrInvalidConfig : GoError := Sentinel "auditquery.ErrInvalidConfig" "auditquery: invalid config".
Definition ErrInvalidRequest : GoError := Sentinel "auditquery.ErrInvalidRequest" "auditquery: invalid request".
Definition ErrEntryNotFound : GoError := Sentinel "auditquery.ErrEntryNotFound" "auditquery: entry not found".

(** ** Data *)

Record ServiceConfig := mkConfig { cf_DefaultLimit : Z; cf_MaximumLimit : Z }.
Definition DefaultServiceConfig : ServiceConfig := mkConfig 20 100.
Record AggregateRequest := mkAggregateRequest { ar_Type : string; ar_ID : string }.
(** A revision is an unsigned 64-bit number; instants that are zero are not set. *)
Record SearchRequest := mkSearchRequest {
  sr_Aggregate : AggregateRequest; sr_FromRevision : Z; sr_ToRevision : Z; sr_FromRecordedAt : Z; sr_ToRecordedAt : Z;
  sr_NewestFirst : bool; sr_Limit : Z
}.
Record NextPage := mkNext { np_FromRevision : Z; np_ToRevision : Z }.
Record Page := mkPage { pg_Limit : Z; pg_HasMore : bool; pg_Next : Ptr NextPage }.
Record SearchResponse `{AuditTypes} := mkSearchResponse { sp_Entries : list Entry; sp_Page : Page }.
#[global] Arguments mkSearchResponse {_}.

(** ** The service *)

Definition identifierPattern : string → bool := safe_identifier.
(** [audit.ValidationError], by its kind, field and value. *)
Class AuditErrors := { ValidationError : GoError → string → Z → GoError }.
(** A service with or without a reader. *)
Record Service := mkService { sv_reader : bool; sv_config : ServiceConfig }.
Definition NewService (reader : bool) (config : ServiceConfig) : GoError + Service :=
  if negb reader then inl (Errorf "%w: history reader is required" [ErrInvalidConfig] [])
  else if (cf_DefaultLimit config <=? 0) || (cf_MaximumLimit config <=? 0) || (cf_MaximumLimit config <? cf_DefaultLimit config)
          || (100 <? cf_MaximumLimit config)
  then inl (Errorf "%w: limits must satisfy 0 < default <= maximum <= 100" [ErrInvalidConfig] [])
  else inr (mkService reader config).
Definition ready (s : Ptr Service) : option Service :=
  match s with
  | None => None
  | Some sv =>
      if sv_reader sv && (0 <? cf_DefaultLimit (sv_config sv)) && (cf_DefaultLimit (sv_config sv) <=? cf_MaximumLimit (sv_config sv))
      then Some sv else None
  end.

Section Service.
Context `{AT : AuditTypes} `{AL : !AuditLib} `{AR : !AuditReader} `{AE : AuditErrors} {S : Type} `{HR : !HistoryReader S}.

Definition normalizeAggregate (request : AggregateRequest) : GoError + AggregateID :=
  let aggregateType := TrimSpace (ar_Type request) in
  let aggregateID := TrimSpace (ar_ID request) in
  if negb (identifierPattern aggregateType) || negb (identifierPattern aggregateID)
  then inl (Errorf "%w: aggregate is invalid" [ErrInvalidRequest] [])
  else wrapping (λ err, Errorf "%w: %w" [ErrInvalidRequest; err] []) (NewAggregateID aggregateType aggregateID).
Definition with_ready {A} (s : Ptr Service) (k : Service → GoM S A) : GoM S A :=
  match ready s with None => throw ErrInvalidConfig | Some sv => do! ctxErr; k sv end.
Definition limit_of (config : ServiceConfig) (request : SearchRequest) : Z :=
  if sr_Limit request =? 0 then cf_DefaultLimit config else sr_Limit request.
(** The query of a search, with one entry more than its page holds. *)
Definition search_query (request : SearchRequest) (aggregate : AggregateID) (limit : Z) : Query :=
  mkQuery (Some aggregate) "" (sr_FromRevision request) (sr_ToRevision request) (sr_FromRecordedAt request)
    (sr_ToRecordedAt request) (sr_NewestFirst request) (int_add limit 1).
(** A page, and the revision the next one starts from. *)
Definition page_of (newestFirst : bool) (limit : Z) (entries : list Entry) : SearchResponse :=
  match entries !! Z.to_nat limit with
  | None => mkSearchResponse entries (mkPage limit false None)
  | Some entry =>
      let nextRevision := entry_Revision entry in
      mkSearchResponse (take (Z.to_nat limit) entries)
        (mkPage limit true (Some (if newestFirst then mkNext 0 nextRevision else mkNext nextRevision 0)))
  end.
Definition Search (s : Ptr Service) (request : SearchRequest) : GoM S SearchResponse :=
  with_ready s (λ sv,
    let! aggregate := or_fail id (normalizeAggregate (sr_Aggregate request)) in
    let limit := limit_of (sv_config sv) request in
    if (limit <? 0) || (cf_MaximumLimit (sv_config sv) <? limit)
    then throw (Errorf "%w: %w" [ErrInvalidRequest; ValidationError ErrInvalidQuery "limit" (sr_Limit request)] [])
    else
      let! query := or_fail (λ err, Errorf "%w: %w" [ErrInvalidRequest; err] []) (Query_Validate (search_query request aggregate limit)) in
      let! entries := wrap_errors (λ err, Errorf "find audit history: %w" [err] []) (reader_Find query) in
      ret (page_of (sr_NewestFirst request) limit (default [] entries))).
Definition Get (s : Ptr Service) (request : AggregateRequest) (revision : Z) : GoM S Entry :=
  with_ready s (λ sv,
    let! aggregate := or_fail id (normalizeAggregate request) in
    do! fail_if (option_map (λ err, Errorf "%w: %w" [ErrInvalidRequest; err] []) (Revision_Validate revision));
    let! entries := wrap_errors (λ err, Errorf "find audit entry: %w" [err] [])
                      (reader_Find (mkQuery (Some aggregate) "" revision revision 0 0 false 1)) in
    match default [] entries with [] => throw ErrEntryNotFound | entry :: _ => ret entry end).
End Service.

(** ** The HTTP adapter *)

Definition errRequestTooLarge : GoError := Sentinel "auditquery.errRequestTooLarge" "request body is too large".
Definition errUnsupportedMediaType : GoError := Sentinel "auditquery.errUnsupportedMediaType" "unsupported media type".
Definition errUnsupportedContentEncoding : GoError := Sentinel "auditquery.errUnsupportedContentEncoding" "unsupported content encoding".
Record HTTPConfig := mkHTTPConfig { hc_MaximumBodyBytes : Z; hc_RequestTimeout : Z }.
Definition DefaultHTTPConfig : HTTPConfig := mkHTTPConfig (Z.shiftl 32 10) (2 * Second).
Record publicError := mkPublicError { pe_status : Z; pe_code : string; pe_message : string }.
Class QueryService `{AuditTypes} (S : Type) := {
  service_Search : SearchRequest → GoM S SearchResponse;
  service_Get : AggregateRequest → Z → GoM S Entry
}.
(** Decoding a search with unknown fields refused; the tokens behind it are left. *)
Class SearchDecoder := {
  ParseMediaType : string → GoError + (string * gmap string string);
  json_tokens : string → Tokens;
  decode_search : string → GoError + (SearchRequest * Tokens)
}.
Definition rejectDuplicateJSONKeys (ts : Tokens) : option GoError :=
  match parseValue (2 * length ts + 2) false ts with inl e => Some e | inr rest => requireDecoderEOF rest end.

Section Adapter.
Context `{GU : GoUnicode} `{AT : AuditTypes} {S : Type} `{QS : !QueryService S} `{SD : SearchDecoder} (with_timeout : Z → Ctx → Ctx) (config : HTTPConfig).

(** A response, or none when the client has gone; what is logged of it has no part in it. *)
Inductive Response :=
  | RespondHealth
  | RespondSearch (response : SearchResponse)
  | RespondEntry (entry : Entry)
  | RespondError (problem : publicError)
  | Gone.
Abbreviation Handler := (GoM S Response).

Definition check_media_type (header : string) : option GoError :=
  match ParseMediaType header with
  | inl _ => Some errUnsupportedMediaType
  | inr (mediaType, parameters) =>
      if negb (EqualFold mediaType "application/json") || (1 <? Z.of_nat (size parameters))
         || negb (forallb (λ kv, EqualFold kv.1 "charset" && EqualFold kv.2 "utf-8") (map_to_list parameters))
      then Some errUnsupportedMediaType else None
  end.
Definition check_encoding (header : string) : option GoError :=
  let encoding := TrimSpace header in
  if bool_decide (encoding ≠ "") && negb (EqualFold encoding "identity") then Some errUnsupportedContentEncoding else None.
(** [http.MaxBytesReader] and [io.ReadAll]. *)
Definition read_body (body : GoError + string) : GoError + string :=
  try! text := wrapping (λ err, Errorf "read body: %w" [err] []) body in
  if hc_MaximumBodyBytes config <? Z.of_nat (String.length text) then inl errRequestTooLarge else inr text.
Definition invalid_if {A} (failed : option A) : GoError + unit :=
  match failed with Some _ => inl ErrInvalidRequest | None => inr tt end.
Definition decodeJSON {A} (decode : string → GoError + (A * Tokens)) (request : HttpBody) : GoError + A :=
  try! _ := check (check_media_type (hb_ContentType request)) in
  try! _ := check (check_encoding (hb_ContentEncoding request)) in
  try! body := read_body (hb_Body request) in
  if negb (ValidString body) then inl ErrInvalidRequest
  else
    try! _ := invalid_if (rejectDuplicateJSONKeys (json_tokens body)) in
    match decode body with
    | inl _ => inl ErrInvalidRequest
    | inr (target, rest) => try! _ := invalid_if (requireDecoderEOF rest) in inr target
    end.

Definition respondError (status : Z) (code message : string) : Response := RespondError (mkPublicError status code message).
Definition requestTimeout : Response := respondError 408 "request_timeout" "request timed out".
Definition internalError : Response := respondError 500 "internal_error" "internal error".
Definition invalidAuditQuery : Response := respondError 400 "invalid_audit_query" "audit query is invalid".
Definition respondDecodeError (err : GoError) : Response :=
  if errors_Is err "auditquery.errRequestTooLarge" then respondError 413 "request_too_large" "request body is too large"
  else if errors_Is err "auditquery.errUnsupportedMediaType" then respondError 415 "unsupported_media_type" "application/json is required"
  else if errors_Is err "auditquery.errUnsupportedContentEncoding"
  then respondError 415 "unsupported_content_encoding" "content encoding is unsupported"
  else if errors_Is err "auditquery.ErrInvalidRequest" then respondError 400 "invalid_request" "request is invalid"
  else internalError.
Definition mapServiceError (err : GoError) : Response :=
  if errors_Is err "audit.ErrInvalidAggregateID" || errors_Is err "audit.ErrInvalidRevision" || errors_Is err "audit.ErrInvalidQuery"
  then invalidAuditQuery
  else if errors_Is err "auditquery.ErrInvalidRequest" then respondError 400 "invalid_request" "request is invalid"
  else if errors_Is err "auditquery.ErrEntryNotFound" then respondError 404 "audit_entry_not_found" "audit entry was not found"
  else internalError.
(** The request's own context is asked first. *)
Definition unless_gone (response : Response) : Handler := settle ctxErr (λ _, ret Gone) (λ _, ret response).
Definition respondServiceError (err : GoError) : Handler :=
  unless_gone (if errors_Is err "context.DeadlineExceeded" then requestTimeout else mapServiceError err).
(** After a success the context of the service is asked too. *)
Definition stopAfterService (service_ctx : Ctx) (response : Response) : Handler :=
  unless_gone (match (ctx_poll service_ctx).1 with
               | Some cause => if errors_Is cause "context.DeadlineExceeded" then requestTimeout else response
               | None => response
               end).
Definition served {A} (m : GoM S A) (k : A → Response) : Handler := λ c s,
  match m (with_timeout (hc_RequestTimeout config) c) s with
  | (Val a, d, s') => stopAfterService d (k a) c s'
  | (Fail e, _, s') => respondServiceError e c s'
  | (Panic, _, s') => (Panic, c, s')
  end.

Definition health : Handler := ret RespondHealth.
Definition search (body : HttpBody) : Handler :=
  match decodeJSON decode_search body with
  | inl err => ret (respondDecodeError err)
  | inr request => served (service_Search request) RespondSearch
  end.
(** [strconv.ParseUint(s, 10, 64)]. *)
Definition ParseUint (s : string) : option Z :=
  if bool_decide (s = "") then None else z ← digits_of s 0; if z <? 2 ^ 64 then Some z else None.
Definition detail (typ id revision : string) : Handler :=
  match ParseUint (TrimSpace revision) with
  | Some value => if value =? 0 then ret invalidAuditQuery else served (service_Get (mkAggregateRequest typ id) value) RespondEntry
  | None => ret invalidAuditQuery
  end.
Definition notFound : Handler := ret (respondError 404 "route_not_found" "route was not found").
Definition methodNotAllowed : Handler := ret (respondError 405 "method_not_allowed" "method is not allowed").

Inductive HttpRequest :=
  | GetHealthz | PostSearch (body : HttpBody) | GetRevision (typ id revision : string) | UnknownRoute | UnknownMethod.
Definition route (request : HttpRequest) : Handler :=
  match request with
  | GetHealthz => health
  | PostSearch body => search body
  | GetRevision typ id revision => detail typ id revision
  | UnknownRoute => notFound
  | UnknownMethod => methodNotAllowed
  end.
Definition NewEngine (service logger : bool) : GoError + (HttpRequest → Handler) :=
  if negb service || negb logger || (hc_MaximumBodyBytes config <=? 0) || (hc_RequestTimeout config <=? 0)
  then inl ErrInvalidConfig else inr route.
End Adapter.
