(* ===== verification/AuditQueryProofs.v ===== *)
(** The audit query API: following the cursors of a search reads what its filters select, once each and in its order,
    while entries are appended; an exact revision is shown as it is stored. *)
From Stdlib Require Import Ascii String.
From S2P Require Import Prelude GraphLib SqlTx OrderWorkflow OrderWorkflowModel OrderReads OrderApi OrderApiProofs AuditQuery.

(** ** What a reader promises *)

Section Readers.
Context `{AT : AuditTypes}.
(** The filters of a query on an aggregate's entries; a bound that is zero is not set. *)
Definition selected (q : Query) (entry : Entry) : bool :=
  ((q_FromRevision q =? 0) || (q_FromRevision q <=? entry_Revision entry)) &&
  ((q_ToRevision q =? 0) || (entry_Revision entry <=? q_ToRevision q)) &&
  ((q_FromRecordedAt q =? 0) || (q_FromRecordedAt q <=? entry_RecordedAt entry)) &&
  ((q_ToRecordedAt q =? 0) || (entry_RecordedAt entry <=? q_ToRecordedAt q)).
Definition in_order {A} (newestFirst : bool) (entries : list A) : list A := if newestFirst then reverse entries else entries.
Definition found (q : Query) (entries : list Entry) : list Entry :=
  let all := in_order (q_NewestFirst q) (filter (λ e, selected q e = true) entries) in
  if 0 <? q_Limit q then take (Z.to_nat (q_Limit q)) all else all.
Definition before (x y : Entry) : Prop := entry_Revision x < entry_Revision y.

(** An append-only repository read by aggregate: what comes later only adds entries of higher revisions. *)
Class RepositoryLaws (S : Type) `{!HistoryReader S} `{!AuditLib} `{!AuditReader} := {
  later : S → S → Prop;
  history : AggregateID → S → list Entry;
  later_preorder :: PreOrder later;
  history_ascends a s : StronglySorted before (history a s) ∧ Forall (λ e, 0 < entry_Revision e) (history a s);
  history_grows a s s' : later s s' → history a s `prefix_of` history a s';
  reader_finds q a c s o c' s' :
    q_Aggregate q = Some a → q_AggregateType q = "" → reader_Find q c s = (o, c', s') →
    match o with
    | Val entries => ∃ t, later s t ∧ later t s' ∧ default [] entries = found q (history a t)
    | Fail e => later s s' ∧ errors_Is e "auditquery.ErrEntryNotFound" = false
    | Panic => False
    end;
  aggregate_foreign typ id e : NewAggregateID typ id = inl e → errors_Is e "auditquery.ErrEntryNotFound" = false;
  revision_foreign revision e : Revision_Validate revision = Some e → errors_Is e "auditquery.ErrEntryNotFound" = false;
  query_kept q q' : Query_Validate q = inr q' → 0 < q_Limit q → q_Aggregate q ≠ None → q' = q
}.
End Readers.

(** ** Cutting a sorted list *)

Lemma drop_sorted {A} (R : A → A → Prop) (P : A → Prop) `{!∀ x, Decision (P x)} l n e :
  StronglySorted R l → l !! n = Some e → P e → (∀ x, R e x → P x) → (∀ x, R x e → ¬ P x) → filter P l = drop n l.
Proof.
  intros Hs Hn HP Hafter Hbefore. revert n Hn. induction Hs as [|x l Hs IH Hx]; intros n Hn; [done|]. destruct n as [|n].
  - injection Hn as ->. rewrite filter_cons_True by done. cbn [drop]. f_equal. apply filter_all. eapply Forall_impl; [exact Hx|done].
  - cbn [drop]. rewrite filter_cons_False; [by apply IH|]. apply Hbefore. rewrite Forall_forall in Hx. apply Hx. by eapply list_elem_of_lookup_2.
Qed.
Lemma sorted_reverse {A} (R : A → A → Prop) l : StronglySorted R l → StronglySorted (flip R) (reverse l).
Proof.
  induction 1 as [|x l Hs IH Hx]; [constructor|]. rewrite reverse_cons. apply StronglySorted_app. split_and!; [|done|by repeat constructor].
  intros y z Hy ->%list_elem_of_singleton. rewrite Forall_forall in Hx. apply Hx. by rewrite <- elem_of_reverse.
Qed.

(** ** Pages *)

Section Pages.
Context `{GU : GoUnicode} `{AT : AuditTypes} `{AL : !AuditLib} `{AR : !AuditReader} `{AE : AuditErrors} {S : Type} `{HR : !HistoryReader S}.
Context `{SD : SearchDecoder} `{RL : !RepositoryLaws S} (with_timeout : Z → Ctx → Ctx) (config : HTTPConfig).
Context (service_config : ServiceConfig) (service : Service) (configured : NewService true service_config = inr service).
#[local] Instance query_service : QueryService S :=
  {| service_Search := Search (Some service); service_Get := Get (Some service) |}.

(** What a request asks of an aggregate's entries: a bound that is zero is none. *)
Definition at_least (bound x : Z) : Prop := bound = 0 ∨ bound <= x.
Definition at_most (bound x : Z) : Prop := bound = 0 ∨ x <= bound.
Definition wanted (request : SearchRequest) (e : Entry) : Prop :=
  (at_least (sr_FromRevision request) (entry_Revision e) ∧ at_most (sr_ToRevision request) (entry_Revision e)) ∧
  at_least (sr_FromRecordedAt request) (entry_RecordedAt e) ∧ at_most (sr_ToRecordedAt request) (entry_RecordedAt e).
#[local] Instance wanted_decision request e : Decision (wanted request e).
Proof. unfold wanted, at_least, at_most. apply _. Defined.
Lemma wanted_selected request a limit e : selected (search_query request a limit) e = true ↔ wanted request e.
Proof using Type.
  unfold selected, wanted, at_least, at_most, search_query. cbn [q_FromRevision q_ToRevision q_FromRecordedAt q_ToRecordedAt].
  rewrite !andb_true_iff, !orb_true_iff, !Z.leb_le, !Z.eqb_eq. clear. tauto.
Qed.
Definition asked (request : SearchRequest) (a : AggregateID) (s : S) : list Entry :=
  in_order (sr_NewestFirst request) (filter (wanted request) (history a s)).
(** The request for the next page: only one revision is replaced. *)
Definition following (request : SearchRequest) (next : NextPage) : SearchRequest :=
  if sr_NewestFirst request
  then mkSearchRequest (sr_Aggregate request) (sr_FromRevision request) (np_ToRevision next) (sr_FromRecordedAt request)
         (sr_ToRecordedAt request) true (sr_Limit request)
  else mkSearchRequest (sr_Aggregate request) (np_FromRevision next) (sr_ToRevision request) (sr_FromRecordedAt request)
         (sr_ToRecordedAt request) false (sr_Limit request).
Definition cursor_of (newestFirst : bool) (e : Entry) : NextPage :=
  if newestFirst then mkNext 0 (entry_Revision e) else mkNext (entry_Revision e) 0.

(** An entry the cursor does not leave behind. *)
Definition ahead (newestFirst : bool) (e x : Entry) : Prop :=
  if newestFirst then entry_Revision x <= entry_Revision e else entry_Revision e <= entry_Revision x.
#[local] Instance ahead_decision newestFirst e x : Decision (ahead newestFirst e x).
Proof. unfold ahead. destruct newestFirst; apply _. Defined.

Lemma wanted_following request e x :
  wanted request e → 0 < entry_Revision e →
  wanted (following request (cursor_of (sr_NewestFirst request) e)) x ↔
  wanted request x ∧ ahead (sr_NewestFirst request) e x.
Proof.
  unfold wanted, at_least, at_most, following, cursor_of, ahead. destruct (sr_NewestFirst request); cbn; intuition lia.
Qed.
Lemma asked_sorted request a s :
  StronglySorted (if sr_NewestFirst request then flip before else before) (asked request a s).
Proof.
  pose proof (sorted_filter before (wanted request) _ (proj1 (history_ascends a s))) as Hs.
  unfold asked, in_order. destruct (sr_NewestFirst request); [by apply sorted_reverse|done].
Qed.
Lemma asked_entry request a s e : e ∈ asked request a s → wanted request e ∧ e ∈ history a s ∧ 0 < entry_Revision e.
Proof.
  intros H. assert (e ∈ filter (wanted request) (history a s)) as [Hw He]%list_elem_of_filter
    by (unfold asked, in_order in H; destruct (sr_NewestFirst request); [by rewrite elem_of_reverse in H|done]).
  split_and!; [done|done|]. pose proof (proj2 (history_ascends a s)) as Hp. rewrite Forall_forall in Hp. by apply Hp.
Qed.
(** What is left behind the cut is what the next page is asked for. *)
Lemma asked_following request a s n e :
  asked request a s !! n = Some e →
  asked (following request (cursor_of (sr_NewestFirst request) e)) a s = drop n (asked request a s).
Proof.
  intros Hn. pose proof (asked_entry _ _ _ _ (list_elem_of_lookup_2 _ _ _ Hn)) as (Hw & _ & Hpos).
  rewrite <- (drop_sorted _ (ahead (sr_NewestFirst request) e)
    _ _ _ (asked_sorted request a s) Hn) by (unfold ahead; destruct (sr_NewestFirst request); unfold flip, before; intros; lia).
  unfold asked at 1. replace (sr_NewestFirst (following _ _)) with (sr_NewestFirst request) by (unfold following; by destruct (sr_NewestFirst request)).
  assert (∀ l : list Entry, filter (wanted (following request (cursor_of (sr_NewestFirst request) e))) l
    = filter (ahead (sr_NewestFirst request) e) (filter (wanted request) l)) as Hf.
  { intros l. rewrite list_filter_filter. apply list_filter_iff. intros x. rewrite wanted_following by done. tauto. }
  rewrite Hf. unfold asked, in_order. destruct (sr_NewestFirst request); [|done]. by rewrite filter_reverse.
Qed.

Lemma service_ready : ready (Some service) = Some service ∧ 0 < cf_DefaultLimit (sv_config service) ∧ cf_MaximumLimit (sv_config service) <= 100.
Proof using configured.
  unfold NewService in configured. cbn in configured. destruct (_ || _) eqn:E1; [done|]. injection configured as <-.
  rewrite !orb_false_iff, !Z.leb_gt, !Z.ltb_ge in E1. unfold ready. cbn. destruct (Z.ltb_spec 0 (cf_DefaultLimit service_config)); [|lia].
  destruct (Z.leb_spec (cf_DefaultLimit service_config) (cf_MaximumLimit service_config)); [|lia]. split_and!; [done|lia|lia].
Qed.
Lemma Search_run request c s response c' s' :
  Search (Some service) request c s = (Val response, c', s') →
  ∃ a t, normalizeAggregate (sr_Aggregate request) = inr a ∧ later s t ∧ later t s' ∧
    let limit := limit_of (sv_config service) request in
    0 < limit ∧ response = page_of (sr_NewestFirst request) limit (take (Z.to_nat (limit + 1)) (asked request a t)).
Proof using configured.
  destruct service_ready as (Hready & Hd & Hm). unfold Search, with_ready. rewrite Hready. set (limit := limit_of _ _).
  intros H. go_inv H. rewrite orb_false_iff, !Z.ltb_ge in Heqb.
  apply or_fail_run in Hrun as (-> & -> & [(aggregate & [= <-] & Ha)|(? & [=] & _)]).
  assert (0 < limit) as Hlimit by (unfold limit, limit_of in *; destruct (Z.eqb_spec (sr_Limit request) 0); lia).
  assert (int_add limit 1 = limit + 1) as Hadd by (unfold int_add; apply wrap64_id; unfold in_int64, int_bits; lia).
  apply or_fail_run in Hrun0 as (-> & -> & [(q & [= <-] & Hq)|(? & [=] & _)]). apply query_kept in Hq; [|cbn; lia|done]. subst a0.
  unfold wrap_errors, settle in Hrun1. destruct (reader_Find _ _ _) as [[o1 c3] s3] eqn:E1. destruct o1 as [entries|e|]; [|done..].
  injection Hrun1 as <- <- <-. apply (reader_finds _ a) in E1 as (t & H1 & H2 & ->); [|done..].
  exists a, t. split_and!; [done|done|done|done|]. f_equal. unfold found. cbn [q_Limit search_query q_NewestFirst]. rewrite Hadd.
  destruct (Z.ltb_spec 0 (limit + 1)); [|lia]. do 2 f_equal. unfold asked. f_equal. apply list_filter_iff. intros e. apply wanted_selected.
Qed.
(** A body that states a request, and is read as it. *)
Definition states (request : SearchRequest) (body : HttpBody) : Prop :=
  strict_body false ParseMediaType json_tokens decode_search (hc_MaximumBodyBytes config) body request.
Lemma states_decoded request body : states request body → decodeJSON config decode_search body = inr request.
Proof using Type.
  intros [Hm He (text & v & Hb & Hlen & Hv & _ & Ht & Hu & Hdec)]. unfold decodeJSON, check_media_type.
  apply media_strict in Hm as (m & ps & -> & ->). unfold check_encoding. apply encoding_strict in He as ->. cbn [check and_then].
  unfold read_body. rewrite Hb. cbn [wrapping and_then]. rewrite (proj2 (Z.ltb_ge _ _) Hlen). cbn [and_then]. rewrite Hv. cbn [negb].
  unfold rejectDuplicateJSONKeys. rewrite Ht, value_accepted by done. cbn [requireDecoderEOF invalid_if and_then]. by rewrite Hdec.
Qed.
Lemma aggregate_stated request a :
  (∀ typ id a, NewAggregateID typ id = inr a → a = mkAggregate typ id) → normalizeAggregate request = inr a →
  a = mkAggregate (TrimSpace (ar_Type request)) (TrimSpace (ar_ID request)).
Proof using Type.
  intros Hmade. unfold normalizeAggregate. destruct (_ || _); [done|]. unfold wrapping. destruct (NewAggregateID _ _) eqn:Ha; [done|].
  intros [= <-]. by apply Hmade.
Qed.
(** A page, told by what its request asks for at one moment of it. *)
Lemma search_page_run request body c s response c' s' :
  decodeJSON config decode_search body = inr request →
  route with_timeout config (PostSearch body) c s = (Val (RespondSearch response), c', s') →
  ∃ a t, normalizeAggregate (sr_Aggregate request) = inr a ∧ later s t ∧ later t s' ∧
    match pg_Next (sp_Page response) with
    | None => sp_Entries response = asked request a t
    | Some next => ∃ n e, asked request a t !! n = Some e ∧ next = cursor_of (sr_NewestFirst request) e ∧
        sp_Entries response = take n (asked request a t)
    end.
Proof using configured.
  intros Hd. cbn [route]. unfold search, served. rewrite Hd.
  destruct (service_Search request _ s) as [[[r|e|] d] s1] eqn:E1; [| |done].
  - unfold stopAfterService, unless_gone, settle. destruct (ctxErr c s1) as [[o2 c2] s2] eqn:E2.
    apply ctxErr_inv in E2 as [-> [->|[cause ->]]]; [|done]. intros Hr.
    assert (r = response ∧ s1 = s') as [-> ->] by (destruct (ctx_poll d).1; [destruct (errors_Is _ _)|]; by injection Hr).
    apply Search_run in E1 as (a & t & Ha & H1 & H2 & Hl & ->). exists a, t. split_and!; [done..|].
    set (limit := limit_of _ _) in *. unfold page_of. rewrite lookup_take_lt by lia.
    destruct (asked request a t !! Z.to_nat limit) as [e|] eqn:Ee; cbn.
    + exists (Z.to_nat limit), e. split_and!; [done|unfold cursor_of; by destruct (sr_NewestFirst request)|].
      rewrite take_take. f_equal. lia.
    + apply take_ge. apply lookup_ge_None in Ee. lia.
  - unfold respondServiceError, unless_gone, settle. destruct (ctxErr c s1) as [[o2 c2] s2] eqn:E2.
    apply ctxErr_inv in E2 as [-> [->|[cause ->]]]; [|done]. unfold mapServiceError. repeat case_match; by intros [=].
Qed.

(** A client that reads pages, each asked for by the cursor of the last one, while others go on. *)
Inductive crawl : SearchRequest → S → list Entry → S → Prop :=
  | crawl_last request body c s response c' s' :
      states request body →
      route with_timeout config (PostSearch body) c s = (Val (RespondSearch response), c', s') →
      pg_Next (sp_Page response) = None → crawl request s (sp_Entries response) s'
  | crawl_more request body c s response next c' s1 s2 rest s' :
      states request body →
      route with_timeout config (PostSearch body) c s = (Val (RespondSearch response), c', s1) →
      pg_Next (sp_Page response) = Some next → later s1 s2 → crawl (following request next) s2 rest s' →
      crawl request s (sp_Entries response ++ rest) s'.
Lemma history_later a t t' : later t t' → ∃ more, history a t' = history a t ++ more ∧ ∀ x y, x ∈ history a t → y ∈ more → before x y.
Proof using Type.
  intros [more Hm]%(history_grows a). exists more. split; [done|]. pose proof (proj1 (history_ascends a t')) as Hs. rewrite Hm in Hs.
  by apply StronglySorted_app in Hs as (Hcross & _).
Qed.
(** What is appended meanwhile is behind the pages of a search from the newest on, and ahead of those of any other. *)
Lemma pages_join request a t t' n e :
  later t t' → asked request a t !! n = Some e →
  take n (asked request a t) ++ asked (following request (cursor_of (sr_NewestFirst request) e)) a t'
  = asked request a (if sr_NewestFirst request then t else t').
Proof using Type.
  intros (more & Hm & Hafter)%(history_later a) Hn. destruct (sr_NewestFirst request) eqn:En.
  - assert (asked (following request (cursor_of true e)) a t' = asked (following request (cursor_of true e)) a t) as ->.
    { pose proof (asked_entry _ _ _ _ (list_elem_of_lookup_2 _ _ _ Hn)) as (Hw & He & Hpos).
      unfold asked. rewrite Hm, filter_app, (filter_none _ more), app_nil_r; [done|]. apply Forall_forall. intros y Hy Hwanted.
      pose proof (wanted_following request e y Hw Hpos) as Hiff. rewrite En in Hiff. apply Hiff in Hwanted as [_ Hah]. cbn in Hah.
      specialize (Hafter _ _ He Hy). unfold before in Hafter. lia. }
    pose proof (asked_following request a t n e Hn) as Hf. rewrite En in Hf. rewrite Hf. apply take_drop.
  - assert (asked request a t' = asked request a t ++ filter (wanted request) more) as Ht'.
    { unfold asked, in_order. by rewrite En, Hm, filter_app. }
    assert (asked request a t' !! n = Some e) as Hn' by (rewrite Ht'; by apply lookup_app_l_Some).
    pose proof (asked_following request a t' n e Hn') as Hf. rewrite En in Hf. rewrite Hf.
    replace (take n (asked request a t)) with (take n (asked request a t')); [apply take_drop|].
    rewrite Ht', take_app_le; [done|]. apply lookup_lt_Some in Hn. lia.
Qed.

Lemma crawl_reads request s entries s' :
  crawl request s entries s' →
  ∃ a t, normalizeAggregate (sr_Aggregate request) = inr a ∧ later s t ∧ later t s' ∧ entries = asked request a t.
Proof using configured.
  intros Hc. induction Hc as [request body c s response c' s' Hd Hr Hn|request body c s response next c' s1 s2 rest s' Hd Hr Hn H12 _ IH];
    apply states_decoded in Hd; apply (search_page_run _ _ _ _ _ _ _ Hd) in Hr as (a & t & Ha & H1 & H2 & Hp); rewrite Hn in Hp; [by exists a, t|].
  destruct Hp as (n & e & Hat & -> & ->). destruct IH as (a' & t' & Ha' & H3 & H4 & ->).
  assert (a' = a) as -> by (unfold following in Ha'; destruct (sr_NewestFirst request); cbn in Ha'; congruence).
  assert (later t t') as Htt by (etrans; [exact H2|]; by etrans).
  exists a, (if sr_NewestFirst request then t else t'). split_and!; [done| | |by apply pages_join].
  - destruct (sr_NewestFirst request); [done|by etrans].
  - destruct (sr_NewestFirst request); [by etrans|done].
Qed.
(** C31: A client that follows the cursors of a search reads, while entries are appended, exactly the entries of the
    aggregate it names, without the blanks around its type and identity, whose revisions and instants of recording lie
    between its bounds, each once and in the order it asked for: from the newest on those of the history at one moment of
    the first page, in ascending order those of one moment of the last. *)
Theorem pages_follow_history request s entries s' :
  (∀ typ id a, NewAggregateID typ id = inr a → a = mkAggregate typ id) →
  crawl request s entries s' →
  ∃ t, later s t ∧ later t s' ∧
    entries = asked request (mkAggregate (TrimSpace (ar_Type (sr_Aggregate request))) (TrimSpace (ar_ID (sr_Aggregate request)))) t.
Proof using configured.
  intros Hmade (a & t & Ha & H1 & H2 & ->)%crawl_reads. exists t. apply (aggregate_stated _ _ Hmade) in Ha as ->. done.
Qed.

Lemma normalize_foreign request e : normalizeAggregate request = inl e → errors_Is e "auditquery.ErrEntryNotFound" = false.
Proof using RL.
  unfold normalizeAggregate. destruct (_ || _); [by intros [= <-]|]. unfold wrapping. destruct (NewAggregateID _ _) as [err|] eqn:En; [|done].
  intros [= <-]. cbn. by rewrite (aggregate_foreign _ _ _ En).
Qed.
Lemma Get_run request value c s o c' s' :
  value ≠ 0 → Get (Some service) request value c s = (o, c', s') →
  match o with
  | Val e => ∃ a t, normalizeAggregate request = inr a ∧ later s t ∧ later t s' ∧ e ∈ history a t ∧ entry_Revision e = value
  | Fail err => errors_Is err "auditquery.ErrEntryNotFound" = false ∨
      ∃ a t, normalizeAggregate request = inr a ∧ later s t ∧ later t s' ∧ Forall (λ e, entry_Revision e ≠ value) (history a t)
  | Panic => False
  end.
Proof using configured.
  intros Hv. destruct service_ready as (Hready & _). unfold Get, with_ready. rewrite Hready. intros H.
  apply bind_inv in H as [([] & c1 & s1 & H1 & H)|[(e & -> & H1)|[-> H1]]]; apply ctxErr_inv in H1 as [-> Hcause];
    [|left; destruct Hcause as [?|[[] [= ->]]]; done|by destruct Hcause as [?|[? [=]]]].
  destruct (normalizeAggregate request) as [e|a] eqn:Ha; [injection H as <- <- <-; left; by apply normalize_foreign in Ha|].
  unfold bind at 1, or_fail in H. cbn [ret] in H. unfold bind at 1 in H.
  destruct (Revision_Validate value) as [e|] eqn:Er; cbn in H.
  { injection H as <- <- <-. left. cbn. by rewrite (revision_foreign _ _ Er). }
  unfold bind, wrap_errors, settle in H. destruct (reader_Find _ c1 s) as [[o1 c3] s3] eqn:E1.
  apply (reader_finds _ a) in E1; [|done..]. destruct o1 as [entries|e|]; [| |done].
  - destruct E1 as (t & H1 & H2 & Hes). cbn in H. rewrite Hes in H.
    set (exact := filter (λ e, entry_Revision e = value) (history a t)).
    assert (found (mkQuery (Some a) "" value value 0 0 false 1) (history a t) = take 1 exact) as Hfound.
    { unfold found. cbn [q_Limit q_NewestFirst in_order]. cbn. f_equal. apply list_filter_iff. intros x. unfold selected. cbn.
      rewrite (proj2 (Z.eqb_neq value 0)) by done. cbn. rewrite !andb_true_r, andb_true_iff, !Z.leb_le. lia. }
    rewrite Hfound in H. destruct exact as [|e rest] eqn:Ee; cbn in H; injection H as <- <- <-.
    + right. exists a, t. split_and!; [done..|]. apply Forall_forall. intros x Hx Hxv.
      assert (x ∈ exact) as Hin by (by apply list_elem_of_filter). unfold exact in *. rewrite Ee in Hin. by apply elem_of_nil in Hin.
    + exists a, t. split_and!; [done..| |]; assert (e ∈ filter (λ e, entry_Revision e = value) (history a t)) as [? ?]%list_elem_of_filter
        by (unfold exact in Ee; rewrite Ee; left); done.
  - injection H as <- <- <-. left. cbn. rewrite orb_false_r. apply E1.
Qed.
(** C40: The detail of a revision is answered with 200 only with the entry the history holds under it, and with 404 only
    when it holds none. *)
Theorem revisions_are_exact typ id revision c s o c' s' :
  route with_timeout config (GetRevision typ id revision) c s = (o, c', s') →
  match o with
  | Val (RespondEntry e) => ∃ a t value, normalizeAggregate (mkAggregateRequest typ id) = inr a ∧ later s t ∧ later t s' ∧
      ParseUint (TrimSpace revision) = Some value ∧ e ∈ history a t ∧ entry_Revision e = value
  | Val (RespondError problem) => pe_status problem = 404 →
      ∃ a t value, normalizeAggregate (mkAggregateRequest typ id) = inr a ∧ later s t ∧ later t s' ∧
        ParseUint (TrimSpace revision) = Some value ∧ Forall (λ e, entry_Revision e ≠ value) (history a t)
  | Val _ => True
  | _ => False
  end.
Proof using configured.
  cbn [route]. unfold detail. destruct (ParseUint (TrimSpace revision)) as [value|] eqn:Ev; [|by intros [= <- <- <-]].
  destruct (Z.eqb_spec value 0) as [|Hv]; [by intros [= <- <- <-]|]. unfold served.
  destruct (service_Get _ value _ s) as [[[e|err|] d] s1] eqn:E1; apply (Get_run _ _ _ _ _ _ _ Hv) in E1; [| |done].
  - destruct E1 as (a & t & Ha & H1 & H2 & He & Hr). unfold stopAfterService, unless_gone, settle.
    destruct (ctxErr c s1) as [[o2 c2] s2] eqn:E2. apply ctxErr_inv in E2 as [-> [->|[cause ->]]]; intros [= <- <- <-]; [|done].
    assert (∃ a t value, normalizeAggregate (mkAggregateRequest typ id) = inr a ∧ later s t ∧ later t s1 ∧
      Some value = Some value ∧ e ∈ history a t ∧ entry_Revision e = value) as Hdone by (by exists a, t, value).
    destruct (ctx_poll d).1; [destruct (errors_Is _ _); [by intros ?|]|]; by exists a, t, value.
  - unfold respondServiceError, unless_gone, settle. destruct (ctxErr c s1) as [[o2 c2] s2] eqn:E2.
    apply ctxErr_inv in E2 as [-> [->|[cause ->]]]; intros [= <- <- <-]; [|done].
    destruct (errors_Is err "context.DeadlineExceeded"); [by intros ?|]. unfold mapServiceError.
    destruct (_ || _); [by intros ?|]. destruct (errors_Is err _); [by intros ?|].
    destruct (errors_Is err "auditquery.ErrEntryNotFound") eqn:Enf; [|by intros ?]. intros _.
    destruct E1 as [Hf|(a & t & Ha & H1 & H2 & Hnone)]; [congruence|]. by exists a, t, value.
Qed.
End Pages.

(** ** Evaluations *)

#[local] Existing Instance plain_unicode.
(** A repository of one order, by the number of its revisions. *)
Definition demo_entry (revision : Z) : PlainEntry :=
  mkPlainEntry "workshop" (mkEventOptions "" "" (mkAggregate "order" "order-1001") revision revision revision "" ∅ "").
Definition demo_history (a : AggregateID) (n : nat) : list PlainEntry := map demo_entry (seqZ 1 (Z.of_nat n)).
#[local] Instance demo_reader : HistoryReader nat := {| reader_Find q := λ c n, (Val (Some (found q (demo_history (mkAggregate "" "") n))), c, n) |}.
#[local] Instance demo_checks : AuditReader := {|
  OrderReads.History := unit; Query_Validate := inr; AggregateID_Validate _ := None; Revision_Validate _ := None;
  NewHistory _ := inr tt; has_snapshot _ := false
|}.
#[local] Instance demo_errors : AuditErrors := {| ValidationError kind _ _ := kind |}.
#[local, refine] Instance demo_repository : RepositoryLaws nat := {| later := le; history := demo_history |}.
Proof.
  - intros a n. unfold demo_history. split.
    + assert (∀ k m, StronglySorted before (map demo_entry (seqZ m (Z.of_nat k)))) as Hs; [|apply Hs]. induction k as [|k IH]; intros m; [constructor|].
      rewrite seqZ_cons by lia. replace (Z.pred (Z.of_nat (S k))) with (Z.of_nat k) by lia. cbn [map]. constructor; [apply IH|].
      apply Forall_forall. intros x (z & -> & Hz%elem_of_seqZ)%list_elem_of_fmap. unfold before. cbn. lia.
    + apply Forall_forall. intros x (z & -> & Hz%elem_of_seqZ)%list_elem_of_fmap. cbn. lia.
  - intros a n n' Hle. exists (map demo_entry (seqZ (1 + Z.of_nat n) (Z.of_nat (n' - n)))). unfold demo_history.
    by rewrite <- map_app, <- seqZ_app, Nat2Z.inj_sub, Z.add_sub_assoc, Z.add_simpl_l by lia.
  - intros q a c s o c' s' _ _ [= <- <- <-]. by exists s.
  - done.
  - done.
  - by intros q q' [= <-].
Defined.
(** A body whose text is the revision a search from the newest on ends at. *)
Definition demo_request (to : Z) : SearchRequest := mkSearchRequest (mkAggregateRequest "order" " order-1001 ") 0 to 0 0 true 2.
#[local] Instance demo_decoder : SearchDecoder := {|
  AuditQuery.ParseMediaType header := inr (header, ∅);
  AuditQuery.json_tokens _ := [inr (Delim "{"); inr (Delim "}")];
  AuditQuery.decode_search text := inr (demo_request (default 0 (ParseUint text)), [])
|}.
Definition demo_body (text : string) : HttpBody := mkBody "application/json" "" (inr text).
Definition demo_http : HTTPConfig := AuditQuery.DefaultHTTPConfig.
Definition demo_service : Service := mkService true DefaultServiceConfig.
Definition no_deadline (timeout : Z) (c : Ctx) : Ctx := c.
Lemma audit_configured : NewService true DefaultServiceConfig = inr demo_service.
Proof. done. Qed.
Lemma demo_states text : (String.length text <= 1)%nat → ValidString text = true →
  states demo_http (demo_request (default 0 (ParseUint text))) (demo_body text).
Proof.
  intros Hl Hv. split; [exists "application/json", ∅; split_and!; [done|vm_compute; reflexivity|vm_compute; lia|apply map_Forall_empty]|by left|].
  exists text, (JObject []). split_and!; try done. change (hc_MaximumBodyBytes demo_http) with 32768. lia.
Qed.
(** Two pages of a history of three revisions, to which two are added between them. *)
Lemma demo_crawl : crawl no_deadline demo_http demo_service (demo_request 0) 3%nat (map demo_entry [3; 2; 1]) 5%nat.
Proof.
  change (map demo_entry [3; 2; 1]) with
    (sp_Entries (mkSearchResponse (map demo_entry [3; 2]) (mkPage 2 true (Some (mkNext 0 1)))) ++ map demo_entry [1]).
  eapply (crawl_more _ _ _ (demo_request 0) (demo_body "") Background 3%nat _ (mkNext 0 1) Background 3%nat 5%nat);
    [apply (demo_states ""); [cbn; lia|done]|vm_compute; reflexivity|reflexivity|unfold later; cbn; lia|].
  change (map demo_entry [1]) with (sp_Entries (mkSearchResponse (map demo_entry [1]) (mkPage 2 false None))).
  eapply (crawl_last _ _ _ _ (demo_body "1") Background 5%nat _ Background 5%nat); [apply (demo_states "1"); [cbn; lia|done]|vm_compute; reflexivity|reflexivity].
Qed.
Lemma pages_follow_history_witness :
  ∃ n, (3 <= n <= 5)%nat ∧ map demo_entry [3; 2; 1] = asked (demo_request 0) (mkAggregate "order" "order-1001") n.
Proof.
  assert (∀ typ id a, NewAggregateID typ id = inr a → a = mkAggregate typ id) as Hmade by (intros typ id a [= <-]; reflexivity).
  destruct (pages_follow_history no_deadline demo_http DefaultServiceConfig demo_service audit_configured _ _ _ _ Hmade demo_crawl) as (n & H1 & H2 & Ht).
  unfold later in H1, H2. cbn in H1, H2. exists n. split; [lia|]. exact Ht.
Defined.
Lemma revisions_are_exact_witness :
  match (route (QS := query_service demo_service) no_deadline demo_http (GetRevision "order" "order-1001" "4") Background 3%nat).1.1 with
  | Val (RespondError problem) => pe_status problem = 404 ∧ Forall (λ e, entry_Revision e ≠ 4) (demo_history (mkAggregate "order" "order-1001") 3)
  | _ => False
  end.
Proof.
  destruct (route (QS := query_service demo_service) no_deadline demo_http (GetRevision "order" "order-1001" "4") Background 3%nat)
    as [[o c'] n'] eqn:E.
  pose proof (revisions_are_exact no_deadline demo_http DefaultServiceConfig demo_service audit_configured _ _ _ _ _ _ _ _ E) as H.
  vm_compute in E. injection E as <- <- <-. cbn [fst]. cbv beta iota in H. destruct (H eq_refl) as (a & n & v & Ha & H1 & H2 & Hv & Hall).
  split; [reflexivity|]. vm_compute in Hv. injection Hv as <-. unfold later in H1, H2. cbn in H1, H2. assert (n = 3%nat) as -> by lia. exact Hall.
Defined.
