(* ===== verification/CatalogRepo.v ===== *)
(** examples/dynamodb-conditional-repository/internal/catalogrepo/repository.go: a catalog of items in a DynamoDB
    table, created and updated under condition expressions, with a version in each item. The client is a parameter. *)
From Stdlib Require Import Ascii String.
From S2P Require Import Prelude.

Definition ErrInvalidItem : GoError := Sentinel "catalogrepo.ErrInvalidItem" "catalogrepo: invalid item".
Definition ErrConditionalConflict : GoError := Sentinel "catalogrepo.ErrConditionalConflict" "catalogrepo: conditional conflict".
Definition ErrDecodeItem : GoError := Sentinel "catalogrepo.ErrDecodeItem" "catalogrepo: decode item".
Definition invalid (text : string) : GoError := Errorf text [ErrInvalidItem] [].
Definition table_required : GoError := invalid "%w: table is required".

(** ** Data *)

Record CatalogItem := mkItem { ci_TenantID : string; ci_SKU : string; ci_Name : string; ci_Version : Z; ci_UpdatedBy : string }.
Record Repository := mkRepository { rp_Table : string }.

Definition tenantKey (tenantID : string) : string := ("TENANT#" ++ tenantID)%string.
Definition itemKey (sku : string) : string := ("ITEM#" ++ sku)%string.

Definition validateItem (item : CatalogItem) : option GoError :=
  if bool_decide (ci_TenantID item = "") then Some (invalid "%w: tenant_id is required")
  else if bool_decide (ci_SKU item = "") then Some (invalid "%w: sku is required")
  else if bool_decide (ci_Name item = "") then Some (invalid "%w: name is required")
  else if ci_Version item <=? 0 then Some (invalid "%w: version must be positive")
  else if bool_decide (ci_UpdatedBy item = "") then Some (invalid "%w: updated_by is required")
  else None.

(** ** Attributes *)

(** The members of the union the SDK has for a value; of those the package does not use, only which it is. *)
Inductive AttributeValue := MemberS (Value : string) | MemberN (Value : string) | MemberOther (kind : string).
#[export] Instance AttributeValue_eq : EqDecision AttributeValue.
Proof. solve_decision. Defined.
Abbreviation Attributes := (gmap string AttributeValue) (only parsing).

Definition encodeItem (item : CatalogItem) : Attributes :=
  <["pk" := MemberS (tenantKey (ci_TenantID item))]>
  (<["sk" := MemberS (itemKey (ci_SKU item))]>
  (<["tenant_id" := MemberS (ci_TenantID item)]>
  (<["sku" := MemberS (ci_SKU item)]>
  (<["name" := MemberS (ci_Name item)]>
  (<["version" := MemberN (pretty (ci_Version item))]>
  {["updated_by" := MemberS (ci_UpdatedBy item)]}))))).

Definition stringAttr (raw : Attributes) (name : string) : GoError + string :=
  match raw !! name with
  | Some (MemberS value) =>
      if bool_decide (value = "") then inl (Errorf "%w: %s string attribute is required" [ErrDecodeItem] [FStr name]) else inr value
  | _ => inl (Errorf "%w: %s string attribute is required" [ErrDecodeItem] [FStr name])
  end.

(** The error of [strconv.Atoi]: a character that is no digit, unless the digits before it overflow. *)
Fixpoint num_error (s : string) (acc : Z) : GoError :=
  match s with
  | EmptyString => Sentinel "strconv.ErrRange" "value out of range"
  | String c s =>
      let n := Z.of_nat (nat_of_ascii c) in
      if (48 <=? n) && (n <=? 57) then
        let acc := 10 * acc + (n - 48) in
        if acc <? 2 ^ 64 then num_error s acc else Sentinel "strconv.ErrRange" "value out of range"
      else Sentinel "strconv.ErrSyntax" "invalid syntax"
  end.
Definition Atoi (s : string) : GoError + Z :=
  match ParseInt s with
  | Some z => inr z
  | None =>
      let body := match s with String "-" rest | String "+" rest => rest | _ => s end in
      let kind := if bool_decide (body = "") then Sentinel "strconv.ErrSyntax" "invalid syntax" else num_error body 0 in
      inl (Errorf "strconv.Atoi: parsing %q: %w" [kind] [FStr s])
  end.
Definition intAttr (raw : Attributes) (name : string) : GoError + Z :=
  match raw !! name with
  | Some (MemberN value) =>
      if bool_decide (value = "") then inl (Errorf "%w: %s number attribute is required" [ErrDecodeItem] [FStr name])
      else wrapping (λ err, Errorf "%w: %s number attribute: %w" [ErrDecodeItem; err] [FStr name]) (Atoi value)
  | _ => inl (Errorf "%w: %s number attribute is required" [ErrDecodeItem] [FStr name])
  end.

Definition decodeItem (raw : Attributes) : GoError + CatalogItem :=
  try! tenant := stringAttr raw "tenant_id" in
  try! sku := stringAttr raw "sku" in
  try! name := stringAttr raw "name" in
  try! version := intAttr raw "version" in
  try! updatedBy := stringAttr raw "updated_by" in
  inr (mkItem tenant sku name version updatedBy).

(** ** The client *)

Record PutItemInput := mkPutItem {
  pi_TableName : string; pi_Item : Attributes; pi_ConditionExpression : string; pi_Names : gmap string string
}.
Record UpdateItemInput := mkUpdateItem {
  ui_TableName : string; ui_Key : Attributes; ui_UpdateExpression : string; ui_ConditionExpression : string;
  ui_Names : gmap string string; ui_Values : Attributes; ui_ReturnValues : string
}.
Record QueryInput := mkQuery {
  qi_TableName : string; qi_KeyConditionExpression : string; qi_Names : gmap string string; qi_Values : Attributes;
  qi_ConsistentRead : bool
}.
(** What the package reads of each output: nothing, the attributes, the items of the page. *)
Class Client (D : Type) := {
  PutItem : PutItemInput → GoM D unit;
  UpdateItem : UpdateItemInput → GoM D Attributes;
  Query : QueryInput → GoM D (list Attributes)
}.
Definition isConditionalConflict (err : GoError) : bool := errors_Is err "types.ConditionalCheckFailedException".

(** ** The repository *)

Definition NewRepository (table : string) : GoError + Repository :=
  if bool_decide (table = "") then inl table_required else inr (mkRepository table).

Definition create_input (r : Repository) (item : CatalogItem) : PutItemInput :=
  mkPutItem (rp_Table r) (encodeItem item) "attribute_not_exists(#pk) AND attribute_not_exists(#sk)" (<["#pk" := "pk"]> {["#sk" := "sk"]}).
Definition update_input (r : Repository) (tenantID sku : string) (expectedVersion : Z) (name updatedBy : string) : UpdateItemInput :=
  let nextVersion := int_incr expectedVersion in
  mkUpdateItem (rp_Table r)
    (<["pk" := MemberS (tenantKey tenantID)]> {["sk" := MemberS (itemKey sku)]})
    "SET #name = :name, #version = :next_version, #updated_by = :updated_by"
    "#version = :expected_version"
    (<["#name" := "name"]> (<["#version" := "version"]> {["#updated_by" := "updated_by"]}))
    (<[":name" := MemberS name]> (<[":next_version" := MemberN (pretty nextVersion)]>
       (<[":updated_by" := MemberS updatedBy]> {[":expected_version" := MemberN (pretty expectedVersion)]})))
    "ALL_NEW".
Definition tenant_input (r : Repository) (tenantID : string) : QueryInput :=
  mkQuery (rp_Table r) "#pk = :pk AND begins_with(#sk, :item_prefix)" (<["#pk" := "pk"]> {["#sk" := "sk"]})
    (<[":pk" := MemberS (tenantKey tenantID)]> {[":item_prefix" := MemberS "ITEM#"]}) true.

Section Operations.
Context {D : Type} `{CL : !Client D}.

Definition with_table (r : Repository) : GoM D unit := fail_if (if bool_decide (rp_Table r = "") then Some table_required else None).

Definition CreateIfAbsent (r : Repository) (item : CatalogItem) : GoM D unit :=
  do! ctxErr;
  do! with_table r;
  do! fail_if (validateItem item);
  let names := [FStr (ci_TenantID item); FStr (ci_SKU item)] in
  settle (PutItem (create_input r item))
    (λ err, throw (if isConditionalConflict err
                   then Errorf "%w: create catalog item %s/%s: %w" [ErrConditionalConflict; err] names
                   else Errorf "create catalog item %s/%s: %w" [err] names))
    ret.

Definition update_invalid (tenantID sku : string) (expectedVersion : Z) (name updatedBy : string) : bool :=
  bool_decide (tenantID = "") || bool_decide (sku = "") || (expectedVersion <=? 0) || bool_decide (name = "") || bool_decide (updatedBy = "").
Definition UpdateName (r : Repository) (tenantID sku : string) (expectedVersion : Z) (name updatedBy : string) : GoM D CatalogItem :=
  do! ctxErr;
  do! with_table r;
  do! fail_if (if update_invalid tenantID sku expectedVersion name updatedBy
               then Some (invalid "%w: update requires tenant_id, sku, positive expected version, name, and updated_by") else None);
  settle (UpdateItem (update_input r tenantID sku expectedVersion name updatedBy))
    (λ err, throw (if isConditionalConflict err
                   then Errorf "%w: update catalog item %s/%s at version %d: %w" [ErrConditionalConflict; err] [FStr tenantID; FStr sku; FInt expectedVersion]
                   else Errorf "update catalog item %s/%s: %w" [err] [FStr tenantID; FStr sku]))
    (λ attributes, or_fail id (decodeItem attributes)).

Definition QueryTenant (r : Repository) (tenantID : string) : GoM D (list CatalogItem) :=
  do! ctxErr;
  do! with_table r;
  do! fail_if (if bool_decide (tenantID = "") then Some (invalid "%w: tenant_id is required") else None);
  settle (Query (tenant_input r tenantID))
    (λ err, throw (Errorf "query catalog tenant %s: %w" [err] [FStr tenantID]))
    (λ items, foldM items (λ raw acc, let! item := or_fail id (decodeItem raw) in ret (acc ++ [item])) []).

(** ** The calls of a program that uses it *)

Inductive Request :=
  | Create (item : CatalogItem)
  | Rename (tenantID sku : string) (expectedVersion : Z) (name updatedBy : string)
  | ListTenant (tenantID : string).
Inductive Answer := Created | Renamed (item : CatalogItem) | Listed (items : list CatalogItem).
Definition serve (r : Repository) (request : Request) : GoM D Answer :=
  match request with
  | Create item => let! _ := CreateIfAbsent r item in ret Created
  | Rename tenantID sku expectedVersion name updatedBy =>
      let! item := UpdateName r tenantID sku expectedVersion name updatedBy in ret (Renamed item)
  | ListTenant tenantID => let! items := QueryTenant r tenantID in ret (Listed items)
  end.
End Operations.

(** ** The preview *)

Record Preview := mkPreview {
  pv_Table : string; pv_ItemCount : Z; pv_PartitionKey : string; pv_SortKeyPrefix : string;
  pv_Operations : list string; pv_ConflictRules : list string; pv_SmokeTest : string
}.
Definition NewPreview (table : string) (items : list CatalogItem) : GoError + Preview :=
  try! _ := NewRepository table in
  try! _ := check (head (omap validateItem items)) in
  inr (mkPreview table (len items) "TENANT#<tenant_id>" "ITEM#<sku>"
    ["CreateIfAbsent uses attribute_not_exists(pk) and attribute_not_exists(sk)";
     "UpdateName uses version = expectedVersion for optimistic updates";
     "QueryTenant reads a tenant partition with begins_with(sk, ITEM#)"]
    ["ConditionalCheckFailedException becomes ErrConditionalConflict";
     "the typed AWS SDK error is preserved for errors.As";
     "context cancellation is returned before client calls"]
    "BLUETAPE_DYNAMODB_CONDITIONAL_SMOKE=1 go test -run TestFlociSmoke -count=1 ./examples/dynamodb-conditional-repository/...").

Definition SampleItems : list CatalogItem :=
  [mkItem "tenant-alpha" "sku-1001" "Road bike" 1 "seed";
   mkItem "tenant-alpha" "sku-1002" "Helmet" 1 "seed";
   mkItem "tenant-beta" "sku-2001" "Touring bag" 1 "seed"].
