(* ===== verification/CatalogRepoProofs.v ===== *)
(** The catalog repository between any other clients of its table: of the updates that expect one version of an item at
    most one is answered with success, and a query answers items of the tenant as they are stored. *)
From Stdlib Require Import Ascii String.
From S2P Require Import Prelude CatalogRepo.

(** ** The service *)

Abbreviation Key := (string * string)%type (only parsing).
(** The rows of the table by their keys, [pk] and [sk]. *)
Abbreviation Rows := (gmap (string * string) Attributes) (only parsing).

(** A number is stored as it was sent when it is a 64-bit integer written in decimal. *)
Definition plain (v : AttributeValue) : Prop := match v with MemberN n => ∃ z, in_int64 z ∧ n = pretty z | _ => True end.
Definition key_of (raw : Attributes) : option Key :=
  match raw !! "pk", raw !! "sk" with Some (MemberS pk), Some (MemberS sk) => Some (pk, sk) | _, _ => None end.

(** How the service reads expressions, with the names and values sent along. *)
Class Expressions := {
  condition : string → gmap string string → Attributes → Attributes → bool;
  updated : string → gmap string string → Attributes → Attributes → Attributes;
  key_condition : string → gmap string string → Attributes → Key → bool
}.
Class ExpressionLaws `{Expressions} : Prop := {
  both_absent names values raw pk sk : names !! "#pk" = Some pk → names !! "#sk" = Some sk →
    condition "attribute_not_exists(#pk) AND attribute_not_exists(#sk)" names values raw = bool_decide (raw !! pk = None ∧ raw !! sk = None);
  equal_values names values raw a v : names !! "#version" = Some a → values !! ":expected_version" = Some v →
    plain v → map_Forall (λ _, plain) raw →
    condition "#version = :expected_version" names values raw = bool_decide (raw !! a = Some v);
  set_attributes names values raw n v u vn vv vu :
    names !! "#name" = Some n → names !! "#version" = Some v → names !! "#updated_by" = Some u →
    values !! ":name" = Some vn → values !! ":next_version" = Some vv → values !! ":updated_by" = Some vu →
    updated "SET #name = :name, #version = :next_version, #updated_by = :updated_by" names values raw = <[u := vu]> (<[v := vv]> (<[n := vn]> raw));
  partition_prefix names values p prefix k :
    names !! "#pk" = Some "pk" → names !! "#sk" = Some "sk" → values !! ":pk" = Some (MemberS p) → values !! ":item_prefix" = Some (MemberS prefix) →
    key_condition "#pk = :pk AND begins_with(#sk, :item_prefix)" names values k = bool_decide (k.1 = p) && starts_with prefix k.2
}.

Section Steps.
Context `{Expressions}.
(** What a write does when its condition holds. *)
Definition put_step (input : PutItemInput) (t : Rows) : option (unit * Rows) :=
  k ← key_of (pi_Item input);
  if condition (pi_ConditionExpression input) (pi_Names input) ∅ (default ∅ (t !! k)) then Some (tt, <[k := pi_Item input]> t) else None.
Definition update_step (input : UpdateItemInput) (t : Rows) : option (Attributes * Rows) :=
  k ← key_of (ui_Key input);
  let new := updated (ui_UpdateExpression input) (ui_Names input) (ui_Values input) (default (ui_Key input) (t !! k)) in
  if condition (ui_ConditionExpression input) (ui_Names input) (ui_Values input) (default ∅ (t !! k)) then Some (new, <[k := new]> t) else None.
(** A page of a query, and what is left unread: the rows its key condition selects, by their sort keys. *)
Definition paged (input : QueryInput) (t : Rows) (page unread : list Attributes) : Prop :=
  ∃ rows rest, page = map snd rows ∧ unread = map snd rest ∧ NoDup (map fst (rows ++ rest)) ∧
    StronglySorted (λ a b : Key * Attributes, str_ltb b.1.2 a.1.2 = false) (rows ++ rest) ∧
    ∀ k raw, (k, raw) ∈ rows ++ rest ↔ t !! k = Some raw ∧ key_condition (qi_KeyConditionExpression input) (qi_Names input) (qi_Values input) k = true.
Definition first_rows (input : QueryInput) (t : Rows) (page : list Attributes) : Prop := ∃ unread, paged input t page unread.
End Steps.

(** No error of the client is one of the package. *)
Definition foreign (e : GoError) : Prop :=
  Forall (λ name, errors_Is e name = false) ["catalogrepo.ErrInvalidItem"; "catalogrepo.ErrConditionalConflict"; "catalogrepo.ErrDecodeItem"].

(** A conditional write is one step between what others do. Its answer may be lost, and the client, who then sends it
    again, may be told of a conflict with its own write. *)
Inductive conditional {A : Type} (others : Rows → Rows → Prop) (step : Rows → option (A * Rows)) (t : Rows) : Outcome A → Rows → Prop :=
  | took t1 a t2 t3 : others t t1 → step t1 = Some (a, t2) → others t2 t3 → conditional others step t (Val a) t3
  | refused e t1 t2 : foreign e → others t t1 → step t1 = None → others t1 t2 → conditional others step t (Fail e) t2
  | failed e t2 : foreign e → isConditionalConflict e = false → others t t2 → conditional others step t (Fail e) t2
  | lost e t1 a t2 t3 : foreign e → others t t1 → step t1 = Some (a, t2) → others t2 t3 → conditional others step t (Fail e) t3.

Class DynamoLaws (table : string) {D : Type} `{Client D} `{Expressions} (rows : D → Rows) (others : Rows → Rows → Prop) : Prop := {
  put_law input c d o c' d' : pi_TableName input = table → map_Forall (λ _, plain) (pi_Item input) →
    PutItem input c d = (o, c', d') → conditional others (put_step input) (rows d) o (rows d');
  update_law input c d o c' d' : ui_TableName input = table → map_Forall (λ _, plain) (ui_Values input) → ui_ReturnValues input = "ALL_NEW" →
    UpdateItem input c d = (o, c', d') → conditional others (update_step input) (rows d) o (rows d');
  query_law input c d o c' d' : qi_TableName input = table → qi_ConsistentRead input = true →
    Query input c d = (o, c', d') →
    match o with
    | Val page => ∃ t, others (rows d) t ∧ first_rows input t page ∧ others t (rows d')
    | Fail e => foreign e ∧ others (rows d) (rows d')
    | Panic => False
    end
}.

(** How large an attribute can be: a string takes its bytes, and a number at most 21. *)
Definition value_bytes (v : AttributeValue) : Z :=
  match v with MemberS s => Z.of_nat (String.length s) | MemberN _ => 21 | MemberOther _ => 400 * 1024 end.
Definition row_bytes (raw : Attributes) : Z := map_fold (λ name v bytes, Z.of_nat (String.length name) + value_bytes v + bytes) 0 raw.
Fixpoint sum (sizes : list Z) : Z := match sizes with [] => 0 | n :: sizes => n + sum sizes end.
(** A query reads a megabyte: it leaves rows unread only when those it selects take more. *)
Class PageLaws (table : string) {D : Type} `{Client D} `{Expressions} (rows : D → Rows) (others : Rows → Rows → Prop) : Prop := {
  page_law input c d page c' d' : qi_TableName input = table → qi_ConsistentRead input = true →
    Query input c d = (Val page, c', d') →
    ∃ t unread, others (rows d) t ∧ paged input t page unread ∧ others t (rows d') ∧
      (unread = [] ∨ 2 ^ 20 < sum (map row_bytes (page ++ unread)))
}.

(** ** What the catalog keeps *)

Definition key (tenantID sku : string) : Key := (tenantKey tenantID, itemKey sku).
Definition item_key (item : CatalogItem) : Key := key (ci_TenantID item) (ci_SKU item).
Record stored (item : CatalogItem) : Prop := {
  st_tenant : ci_TenantID item ≠ ""; st_sku : ci_SKU item ≠ ""; st_name : ci_Name item ≠ "";
  st_version : in_int64 (ci_Version item); st_by : ci_UpdatedBy item ≠ ""
}.
(** Every row is the encoding of an item, under the item's key. *)
Definition catalog (t : Rows) : Prop := map_Forall (λ k raw, ∃ item, stored item ∧ k = item_key item ∧ raw = encodeItem item) t.
(** Versions in the order an item takes them: behind the largest integer comes the smallest, where no update goes on. *)
Definition rank (version : Z) : Z := if 0 <? version then version else 2 ^ 63.
Definition follows (t t' : Rows) : Prop :=
  catalog t → catalog t' ∧
  ∀ item, stored item → t !! item_key item = Some (encodeItem item) →
    ∃ item', stored item' ∧ item_key item' = item_key item ∧ t' !! item_key item = Some (encodeItem item') ∧ rank (ci_Version item) <= rank (ci_Version item').
#[export] Instance follows_preorder : PreOrder follows.
Proof.
  split.
  - intros t H. split; [done|]. intros item Hs Hi. exists item. by split_and!.
  - intros t1 t2 t3 H12 H23 H1. destruct (H12 H1) as [H2 R12]. destruct (H23 H2) as [H3 R23]. split; [done|].
    intros item Hs Hi. destruct (R12 item Hs Hi) as (item' & Hs' & Hk & Hi' & Hr). rewrite <- Hk in Hi' |- *.
    destruct (R23 item' Hs' Hi') as (item'' & ? & ? & ? & ?). exists item''. split_and!; [done..|lia].
Qed.

Lemma tenantKey_inj a b : tenantKey a = tenantKey b → a = b.
Proof. apply (inj (String.append "TENANT#")). Qed.
Lemma itemKey_inj a b : itemKey a = itemKey b → a = b.
Proof. apply (inj (String.append "ITEM#")). Qed.
Lemma key_inj a b a' b' : key a b = key a' b' → a = a' ∧ b = b'.
Proof. unfold key. intros [H1%tenantKey_inj H2%itemKey_inj]%pair_eq. done. Qed.

(** [decodeItem] undoes [encodeItem]. *)
Lemma decode_encode item : stored item → decodeItem (encodeItem item) = inr item.
Proof.
  intros [Ht Hs Hn Hv Hb]. destruct item as [tenant sku name version by_]. cbn in *.
  assert (∀ attribute value, encodeItem (mkItem tenant sku name version by_) !! attribute = Some (MemberS value) → value ≠ "" →
    stringAttr (encodeItem (mkItem tenant sku name version by_)) attribute = inr value) as Hattr.
  { intros attribute value Ha Hne. unfold stringAttr. by rewrite Ha, bool_decide_false. }
  unfold decodeItem. rewrite !(Hattr "tenant_id" tenant), !(Hattr "sku" sku), !(Hattr "name" name), !(Hattr "updated_by" by_) by done.
  cbn [and_then]. replace (intAttr _ "version") with (@inr GoError Z version); [done|]. symmetry. unfold intAttr.
  change (encodeItem _ !! "version") with (Some (MemberN (pretty version))). cbn iota beta.
  pose proof (ParseInt_pretty version Hv) as Hp. rewrite bool_decide_false by (intros He; by rewrite He in Hp).
  unfold Atoi. by rewrite Hp.
Qed.
Lemma encode_inj a b : stored a → stored b → encodeItem a = encodeItem b → a = b.
Proof. intros Ha Hb He. apply decode_encode in Ha, Hb. rewrite He in Ha. congruence. Qed.
Lemma encode_plain item : in_int64 (ci_Version item) → map_Forall (λ _, plain) (encodeItem item).
Proof.
  intros Hv. unfold encodeItem. do 5 (apply map_Forall_insert_2; [done|]). apply map_Forall_insert_2; [by eexists|].
  by apply map_Forall_singleton.
Qed.
Lemma encode_key item : key_of (encodeItem item) = Some (item_key item).
Proof. done. Qed.

(** An item under a key has the key's tenant and SKU. *)
Lemma catalog_lookup t tenant sku raw :
  catalog t → t !! key tenant sku = Some raw → ∃ item, stored item ∧ ci_TenantID item = tenant ∧ ci_SKU item = sku ∧ raw = encodeItem item.
Proof. intros Hc Hl. destruct (Hc _ _ Hl) as (item & Hs & [-> ->]%key_inj & ->). by exists item. Qed.
Lemma catalog_insert t item : catalog t → stored item → catalog (<[item_key item := encodeItem item]> t).
Proof. intros Hc Hs. apply map_Forall_insert_2; [by exists item|done]. Qed.

Lemma rank_next v : in_int64 v → 0 < v → rank v < rank (int_incr v).
Proof.
  intros [H1 H2] Hv. unfold rank, int_bits in *. change (64 - 1) with 63 in *. rewrite (proj2 (Z.ltb_lt _ _) Hv).
  destruct (decide (v + 1 < 2 ^ 63)) as [Hlt|Hge].
  - unfold int_incr, int_add. rewrite wrap64_id by (unfold in_int64, int_bits; change (64 - 1) with 63; lia). destruct (0 <? v + 1) eqn:E; lia.
  - assert (v = 2 ^ 63 - 1) as -> by lia. done.
Qed.
Lemma int_incr_typed v : in_int64 (int_incr v).
Proof. apply wrap64_range. Qed.

(** ** Steps of the repository *)

Section Repository.
Context {D : Type} `{CL : !Client D} `{EX : Expressions} `{EL : !ExpressionLaws} (r : Repository).
Context {rows : D → Rows} {others : Rows → Rows → Prop} `{PO : !PreOrder others} `{DL : !DynamoLaws (rp_Table r) rows others}.
(** Other clients of the table keep it a catalog, and its items do not go back. *)
Context (others_follow : ∀ t t', others t t' → follows t t').

Lemma create_step item t a t' :
  catalog t → put_step (create_input r item) t = Some (a, t') → t !! item_key item = None ∧ t' = <[item_key item := encodeItem item]> t.
Proof using EL.
  intros Hc. unfold put_step. change (key_of _) with (Some (item_key item)). cbn [mbind option_bind create_input pi_ConditionExpression pi_Names pi_Item].
  rewrite (both_absent _ _ _ "pk" "sk") by done. case_bool_decide as Hb; [|done]. intros [= _ <-]. split; [|done].
  destruct (t !! item_key item) as [raw|] eqn:El; [|done]. destruct (Hc _ _ El) as (old & _ & _ & ->). by destruct Hb.
Qed.
Lemma rename_step tenant sku v name by_ t a t' :
  catalog t → in_int64 v → update_step (update_input r tenant sku v name by_) t = Some (a, t') →
  let new := mkItem tenant sku name (int_incr v) by_ in
  ∃ old, stored old ∧ ci_Version old = v ∧ item_key old = key tenant sku ∧ t !! key tenant sku = Some (encodeItem old) ∧
    a = encodeItem new ∧ t' = <[key tenant sku := encodeItem new]> t.
Proof using EL.
  intros Hc Hv. unfold update_step. change (key_of _) with (Some (key tenant sku)). cbn [mbind option_bind].
  cbn [update_input ui_ConditionExpression ui_Names ui_Values ui_UpdateExpression ui_Key].
  assert (map_Forall (λ _, plain) (default ∅ (t !! key tenant sku))) as Hp.
  { destruct (t !! key tenant sku) as [raw|] eqn:El; [|apply map_Forall_empty]. destruct (Hc _ _ El) as (old & Hs & _ & ->). apply encode_plain, Hs. }
  rewrite (equal_values _ _ _ "version" (MemberN (pretty v))) by (done || by exists v). case_bool_decide as Hb; [|done].
  rewrite (set_attributes _ _ _ "name" "version" "updated_by" (MemberS name) (MemberN (pretty (int_incr v))) (MemberS by_)) by done.
  destruct (t !! key tenant sku) as [raw|] eqn:El; [|done]. intros [= <- <-].
  destruct (catalog_lookup _ _ _ _ Hc El) as (old & Hs & Ht & Hk & ->). exists old. cbn [default] in *. unfold id in *.
  change (encodeItem old !! "version") with (Some (MemberN (pretty (ci_Version old)))) in Hb. injection Hb as Hb%(inj pretty).
  assert (<["updated_by" := MemberS by_]> (<["version" := MemberN (pretty (int_incr v))]> (<["name" := MemberS name]> (encodeItem old)))
    = encodeItem (mkItem tenant sku name (int_incr v) by_)) as ->.
  { rewrite <- Ht, <- Hk. unfold encodeItem. cbn [ci_TenantID ci_SKU ci_Name ci_Version ci_UpdatedBy]. apply map_eq. intros i.
    rewrite !lookup_insert, !lookup_singleton. repeat case_decide; by subst. }
  split_and!; try done. unfold item_key. by rewrite Ht, Hk.
Qed.

Lemma insert_follows t item old :
  stored item → (t !! item_key item = None ∨ t !! item_key item = Some (encodeItem old) ∧ stored old ∧ rank (ci_Version old) <= rank (ci_Version item)) →
  follows t (<[item_key item := encodeItem item]> t).
Proof using Type.
  intros Hs Hold Hc. split; [by apply catalog_insert|]. intros other Ho Hl. destruct (decide (item_key other = item_key item)) as [He|Hne].
  - destruct Hold as [Hn|(Hl' & Hso & Hr)]; [congruence|]. exists item. rewrite He, lookup_insert_eq. split_and!; try done.
    rewrite He, Hl' in Hl. apply (inj Some) in Hl. by rewrite <- (encode_inj old other).
  - exists other. rewrite lookup_insert_ne by done. by split_and!.
Qed.
Lemma conditional_follows {A} step t (o : Outcome A) t' :
  (∀ t a t', catalog t → step t = Some (a, t') → follows t t') → conditional others step t o t' → follows t t'.
Proof using others_follow.
  intros Hstep H Hc. assert (∀ t1 t2, others t1 t2 → follows t1 t2) as Hf by done.
  destruct H as [t1 a t2 t3 H1 H2 H3|e t1 t2 _ H1 _ H2|e t2 _ _ H1|e t1 a t2 t3 _ H1 H2 H3].
  - specialize (Hf _ _ H1) as F1. specialize (Hstep _ _ _ (proj1 (F1 Hc)) H2) as F2. exact (transitivity F1 (transitivity F2 (Hf _ _ H3)) Hc).
  - exact (transitivity (Hf _ _ H1) (Hf _ _ H2) Hc).
  - exact (Hf _ _ H1 Hc).
  - specialize (Hf _ _ H1) as F1. specialize (Hstep _ _ _ (proj1 (F1 Hc)) H2) as F2. exact (transitivity F1 (transitivity F2 (Hf _ _ H3)) Hc).
Qed.

(** ** Calls *)

Definition not_decoding (e : GoError) : Prop := errors_Is e "catalogrepo.ErrDecodeItem" = false.
Lemma guards_run {A} g (k : GoM D A) c d o c' d' :
  (do! ctxErr; do! with_table r; do! fail_if g; k) c d = (o, c', d') →
  (∃ e, o = Fail e ∧ d' = d ∧ (g = Some e ∨ not_decoding e)) ∨ (g = None ∧ ∃ c1, k c1 d = (o, c', d')).
Proof using Type.
  intros H. apply bind_inv in H as [(a & c1 & s1 & [-> _]%ctxErr_inv & H)|[(e & -> & [-> [?|[cause [= ->]]]]%ctxErr_inv)|(-> & [_ [?|[? ?]]]%ctxErr_inv)]]; try done.
  - unfold with_table in H. case_bool_decide; cbn in H; [|destruct g as [e|]; [|right; split; [done|by exists c1]]]; injection H as <- _ <-; left;
      eexists; (split_and!; [done..|by (right + left)]).
  - left. eexists. split_and!; [done..|]. right. by destruct cause.
Qed.

Lemma CreateIfAbsent_follows item c d o c' d' :
  in_int64 (ci_Version item) → CreateIfAbsent r item c d = (o, c', d') → follows (rows d) (rows d').
Proof using EL PO DL others_follow.
  intros Hv H. apply guards_run in H as [(e & _ & -> & _)|(Hg & c1 & H)]; [done|].
  assert (stored item) as Hs by (revert Hg; unfold validateItem; by repeat case_match; repeat case_bool_decide).
  apply settle_inv in H as (o1 & c2 & d1 & E1 & H). assert (d' = d1) as -> by (destruct o1; [by injection H|by injection H|by destruct H as (_ & _ & ->)]).
  apply (put_law (rows := rows) (others := others)) in E1; [|done|by apply encode_plain]. eapply conditional_follows, E1.
  intros t a t' Hc Hst. destruct (create_step _ _ _ _ Hc Hst) as [Hn ->]. apply (insert_follows _ _ item); [done|by left].
Qed.

(** An update: refused before it is sent, or one step that takes the item on from the expected version. *)
Lemma UpdateName_run tenant sku v name by_ c d o c' d' :
  catalog (rows d) → in_int64 v → UpdateName r tenant sku v name by_ c d = (o, c', d') →
  let new := mkItem tenant sku name (int_incr v) by_ in
  follows (rows d) (rows d') ∧
  ∀ a, o = Val a → a = new ∧ stored new ∧ 0 < v ∧ ∃ t1 old, follows (rows d) t1 ∧ stored old ∧ ci_Version old = v ∧
    item_key old = key tenant sku ∧ t1 !! key tenant sku = Some (encodeItem old) ∧ follows (<[key tenant sku := encodeItem new]> t1) (rows d').
Proof using EL PO DL others_follow.
  intros Hcat Hv H new. apply guards_run in H as [(e & -> & -> & _)|(Hg & c1 & H)]; [done|].
  destruct (update_invalid tenant sku v name by_) eqn:Eg; [done|]. unfold update_invalid in Eg.
  rewrite !orb_false_iff, !bool_decide_eq_false, Z.leb_gt in Eg. destruct Eg as ((((Ht & Hsk) & Hpos) & Hn) & Hb).
  assert (stored new) as Hs by (split; [done..|apply int_incr_typed|done]).
  apply settle_inv in H as (o1 & c2 & d1 & E1 & H).
  assert (d' = d1 ∧ (∀ a, o = Val a → ∃ raw, o1 = Val raw ∧ decodeItem raw = inr a)) as [-> Ho].
  { destruct o1 as [raw|e|]; [destruct (decodeItem raw) eqn:Ed; injection H as <- _ ->|injection H as <- _ ->|by destruct H as (-> & _ & ->)];
      (split; [done|]); try done. intros a [= ->]. by exists raw. }
  clear H. apply (update_law (rows := rows) (others := others)) in E1; [|done| |done].
  2: { unfold update_input. cbn [ui_Values]. apply map_Forall_insert_2; [done|]. apply map_Forall_insert_2; [eexists; split; [apply int_incr_typed|done]|].
       apply map_Forall_insert_2; [done|]. apply map_Forall_singleton. by exists v. }
  split.
  - eapply conditional_follows, E1. intros t a t' Hc Hst. destruct (rename_step _ _ _ _ _ _ _ _ Hc Hv Hst) as (old & Hso & Hvo & Hk & Hl & _ & ->).
    apply (insert_follows _ new old); [done|]. right. split_and!; [done..|]. rewrite Hvo. apply Z.lt_le_incl, rank_next; done.
  - intros a (raw & -> & Hd)%Ho. inversion E1 as [t1 raw' t2 t3 H1 H2 H3| | |]; subst. apply others_follow in H1, H3.
    destruct (rename_step _ _ _ _ _ _ _ _ (proj1 (H1 Hcat)) Hv H2) as (old & Hso & Hvo & Hk & Hl & -> & ->).
    change (decodeItem (encodeItem new) = inr a) in Hd. rewrite (decode_encode _ Hs) in Hd. injection Hd as <-. split_and!; [done..|]. by exists t1, old.
Qed.

(** The items of a tenant, by SKU, as they are stored. *)
Definition lists (tenant : string) (t : Rows) (items : list CatalogItem) : Prop :=
  StronglySorted (λ a b, str_ltb (ci_SKU b) (ci_SKU a) = false) items ∧ NoDup (map ci_SKU items) ∧
  ∀ item, item ∈ items ↔ stored item ∧ ci_TenantID item = tenant ∧ t !! key tenant (ci_SKU item) = Some (encodeItem item).
(** A query answers the first ones; what its page does not hold is left out. *)
Definition first_items (tenant : string) (t : Rows) (items : list CatalogItem) : Prop := ∃ rest, lists tenant t (items ++ rest).
(** What an item takes in the table: its texts, those of its keys again, and the names of its attributes. *)
Definition item_bytes (item : CatalogItem) : Z :=
  2 * Z.of_nat (String.length (ci_TenantID item)) + 2 * Z.of_nat (String.length (ci_SKU item)) +
  Z.of_nat (String.length (ci_Name item)) + Z.of_nat (String.length (ci_UpdatedBy item)) + 70.
Lemma encoded_bytes item : row_bytes (encodeItem item) = item_bytes item.
Proof using Type.
  unfold row_bytes, encodeItem. do 6 (rewrite map_fold_insert_L; [|intros; lia|done]). rewrite map_fold_singleton.
  unfold item_bytes, tenantKey, itemKey. cbn [value_bytes]. rewrite !append_length_s. cbn [String.length]. lia.
Qed.
Definition row_of (item : CatalogItem) : Key * Attributes := (item_key item, encodeItem item).
Lemma rows_items t l : catalog t → (∀ p, p ∈ l → t !! p.1 = Some p.2) → ∃ items, l = map row_of items ∧ Forall stored items.
Proof using Type.
  intros Hc Hl. induction l as [|[k raw] l IH]; [by exists []|]. destruct IH as (items & -> & HF); [intros p Hp; apply Hl; by right|].
  destruct (Hc k raw) as (item & Hs & -> & ->); [apply (Hl (k, raw)); by left|]. exists (item :: items). split; [done|by constructor].
Qed.
Lemma paged_items tenant t page unread :
  catalog t → paged (tenant_input r tenant) t page unread →
  ∃ items rest, page = map encodeItem items ∧ unread = map encodeItem rest ∧ Forall stored items ∧ lists tenant t (items ++ rest).
Proof using EL.
  intros Hc (l & rest & -> & -> & Hnd & Hs & Hall). cbn [tenant_input qi_KeyConditionExpression qi_Names qi_Values] in Hall.
  assert (∀ k raw, (k, raw) ∈ l ++ rest ↔ t !! k = Some raw ∧ k.1 = tenantKey tenant ∧ starts_with "ITEM#" k.2 = true) as Hin.
  { intros k raw. rewrite Hall, (partition_prefix _ _ (tenantKey tenant) "ITEM#") by done. by rewrite andb_true_iff, bool_decide_eq_true. }
  clear Hall. destruct (rows_items t (l ++ rest)) as (all & He & Hst); [done|by intros [k raw] [? _]%Hin|].
  symmetry in He. apply map_eq_app in He as (items & unread & -> & <- & <-). rewrite <- map_app in Hnd, Hs, Hin. set (all := items ++ unread) in *.
  assert (Forall (λ item, ci_TenantID item = tenant) all) as Hten.
  { apply Forall_forall. intros item Hi. apply tenantKey_inj. by destruct (proj1 (Hin (item_key item) (encodeItem item)) (list_elem_of_fmap_2 row_of _ _ Hi)) as (_ & ? & _). }
  exists items, unread. split_and!; [by rewrite map_map..|by apply Forall_app in Hst as [? _]|]. fold all. split_and!.
  - eapply sorted_of_map, Hs. intros a b. cbn. unfold itemKey. by rewrite str_ltb_app.
  - rewrite map_map in Hnd. assert (map (λ x, (row_of x).1) all = map (key tenant) (map ci_SKU all)) as He.
    { rewrite map_map. apply map_ext_Forall. eapply Forall_impl; [exact Hten|]. intros item <-. done. }
    rewrite He in Hnd. by apply NoDup_fmap_1 in Hnd.
  - intros item. split.
    + intros Hi. rewrite Forall_forall in Hst, Hten. specialize (Hten _ Hi) as <-. split_and!; [by apply Hst|done|].
      by destruct (proj1 (Hin (item_key item) (encodeItem item)) (list_elem_of_fmap_2 row_of _ _ Hi)) as (? & _).
    + intros (Hsi & <- & Hl). assert ((item_key item, encodeItem item) ∈ map row_of all) as (item' & He%(f_equal snd) & Hi)%list_elem_of_fmap.
      { apply Hin. split_and!; [done|done|by apply (starts_with_app "ITEM#" "ITEM#")]. }
      rewrite Forall_forall in Hst. by rewrite (encode_inj item item' Hsi (Hst _ Hi)).
Qed.

Lemma decode_all (items : list CatalogItem) acc c (d : D) :
  Forall stored items →
  foldM (map encodeItem items) (λ raw acc, let! item := or_fail id (decodeItem raw) in ret (acc ++ [item])) acc c d = (Val (acc ++ items), c, d).
Proof using Type.
  intros H. revert acc. induction H as [|item items Hs _ IH]; intros acc; cbn [map foldM]; [by rewrite app_nil_r|].
  unfold bind at 1. rewrite (decode_encode _ Hs). cbn [or_fail]. unfold bind, ret. rewrite IH. by rewrite <- app_assoc.
Qed.
Lemma QueryTenant_run tenant c d o c' d' :
  catalog (rows d) → QueryTenant r tenant c d = (o, c', d') →
  match o with
  | Val items => ∃ t, follows (rows d) t ∧ first_items tenant t items ∧ follows t (rows d')
  | Fail e => not_decoding e ∧ follows (rows d) (rows d')
  | Panic => False
  end.
Proof using EL PO DL others_follow.
  intros Hc H. apply guards_run in H as [(e & -> & -> & [Hg|Hn])|(Hg & c1 & H)]; [|done|].
  { split; [|done]. by case_bool_decide; [injection Hg as <-|]. }
  apply settle_inv in H as (o1 & c2 & d1 & E1 & H). apply (query_law (rows := rows) (others := others)) in E1; [|done..].
  destruct o1 as [page|e|]; [|injection H as <- _ ->; destruct E1 as [Hf H1]; split; [|by apply others_follow]|done].
  - destruct E1 as (t & H1 & (unread & Hp) & H2). apply others_follow in H1, H2. destruct (paged_items _ _ _ _ (proj1 (H1 Hc)) Hp) as (items & rest & -> & _ & Hst & Hi).
    rewrite decode_all in H by done. injection H as <- _ <-. exists t. split_and!; [done|by exists rest|done].
  - unfold foreign in Hf. rewrite !Forall_cons in Hf. unfold not_decoding. cbn. by rewrite (proj1 (proj2 (proj2 Hf))).
Qed.

(** What the page of a query leaves out. *)
Lemma QueryTenant_page `{PL : !PageLaws (rp_Table r) rows others} tenant c d items c' d' :
  catalog (rows d) → QueryTenant r tenant c d = (Val items, c', d') →
  ∃ t unread, follows (rows d) t ∧ lists tenant t (items ++ unread) ∧ (unread = [] ∨ 2 ^ 20 < sum (map item_bytes (items ++ unread))).
Proof using EL others_follow.
  intros Hc H. apply guards_run in H as [(e & [=] & _)|(Hg & c1 & H)].
  apply settle_inv in H as (o1 & c2 & d1 & E1 & H). destruct o1 as [page|e|]; [|done|by destruct H as [[=] _]].
  apply (page_law (rows := rows) (others := others)) in E1 as (t & unread & H1 & Hp & _ & Hw); [|done..]. apply others_follow in H1.
  destruct (paged_items _ _ _ _ (proj1 (H1 Hc)) Hp) as (read & rest & -> & -> & Hst & Hi).
  rewrite decode_all in H by done. injection H as <- _ _. exists t, rest. split_and!; [done|done|].
  destruct Hw as [Hw|Hw]; [left; by apply map_eq_nil in Hw|right]. rewrite <- map_app, map_map in Hw.
  by rewrite (map_ext _ _ encoded_bytes) in Hw.
Qed.

(** ** Any sequence of calls *)

Definition typed (request : Request) : Prop :=
  match request with Create item => in_int64 (ci_Version item) | Rename _ _ v _ _ => in_int64 v | ListTenant _ => True end.
Lemma bind_ret {A B} (m : GoM D A) (f : A → B) c d o c' d' :
  (let! a := m in ret (f a)) c d = (o, c', d') →
  ∃ o1, m c d = (o1, c', d') ∧ o = match o1 with Val a => Val (f a) | Fail e => Fail e | Panic => Panic end.
Proof using Type. unfold bind. destruct (m c d) as [[[a|e|] c1] d1]; intros [= <- <- <-]; by eexists. Qed.
Lemma serve_follows request c d o c' d' :
  typed request → catalog (rows d) → serve r request c d = (o, c', d') → follows (rows d) (rows d').
Proof using EL PO DL others_follow.
  intros Ht Hc. destruct request as [item|tenant sku v name by_|tenant]; intros (o1 & H & _)%bind_ret.
  - by eapply CreateIfAbsent_follows.
  - by eapply UpdateName_run.
  - apply QueryTenant_run in H; [|done]. destruct o1; [destruct H as (t & H1 & _ & H2); by rewrite H1|apply H|done].
Qed.

Lemma serve_rename tenant sku v name by_ c d a c' d' :
  catalog (rows d) → in_int64 v → serve r (Rename tenant sku v name by_) c d = (Val a, c', d') →
  let new := mkItem tenant sku name (int_incr v) by_ in
  a = Renamed new ∧ stored new ∧ 0 < v ∧ ∃ t1 old, follows (rows d) t1 ∧ stored old ∧ ci_Version old = v ∧
    item_key old = key tenant sku ∧ t1 !! key tenant sku = Some (encodeItem old) ∧ follows (<[key tenant sku := encodeItem new]> t1) (rows d').
Proof using EL PO DL others_follow.
  intros Hc Hv (o1 & H & Ho)%bind_ret. destruct o1 as [item| |]; simplify_eq. destruct (UpdateName_run _ _ _ _ _ _ _ _ _ _ Hc Hv H) as [_ Hrun].
  by destruct (Hrun _ eq_refl) as (-> & ? & ? & ?).
Qed.
(** Once an item is past a version, no update that expects it succeeds. *)
Lemma overtaken requests d answers d' tenant sku v item :
  serve_all (serve r) requests d = (answers, d') → catalog (rows d) → Forall (λ call, typed call.2) requests →
  stored item → item_key item = key tenant sku → rows d !! key tenant sku = Some (encodeItem item) → rank v < rank (ci_Version item) →
  ∀ j c name by_ a, requests !! j = Some (c, Rename tenant sku v name by_) → answers !! j = Some (Val a) → False.
Proof using EL PO DL others_follow.
  revert d answers d' item. induction requests as [|[c request] rest IH]; intros d answers d' item H Hc Hty Hs Hk Hl Hr j cj name by_ a; [done|].
  apply Forall_cons in Hty as [Hty Htys]. cbn in H, Hty. destruct (serve r request c d) as [[o c1] d1] eqn:E1. destruct (serve_all (serve r) rest d1) as [os d2] eqn:E2.
  injection H as <- <-. destruct j as [|j]; cbn.
  - intros [= -> ->] [= ->]. destruct (serve_rename _ _ _ _ _ _ _ _ _ _ Hc Hty E1) as (_ & _ & _ & t1 & old & Hf & Hso & Hvo & Hko & Hlo & _).
    rewrite <- Hk in Hl. destruct (proj2 (Hf Hc) _ Hs Hl) as (item' & Hs' & _ & Hl' & Hr'). rewrite Hk, Hlo in Hl'. apply (inj Some), encode_inj in Hl'; [|done..].
    subst. lia.
  - intros Hj Hoj. pose proof (serve_follows _ _ _ _ _ _ Hty Hc E1) as Hf. rewrite <- Hk in Hl. destruct (Hf Hc) as [Hc1 Hrank].
    destruct (Hrank _ Hs Hl) as (item' & Hs' & Hk' & Hl' & Hr'). rewrite Hk in Hk', Hl'. eapply (IH _ _ _ item' E2); try done. lia.
Qed.

Lemma nth_rename requests d answers d' tenant sku v i c name by_ a :
  serve_all (serve r) requests d = (answers, d') → catalog (rows d) → Forall (λ call, typed call.2) requests →
  requests !! i = Some (c, Rename tenant sku v name by_) → answers !! i = Some (Val a) →
  a = Renamed (mkItem tenant sku name (int_incr v) by_) ∧
  ∀ j c' name' by' b, (i < j)%nat → requests !! j = Some (c', Rename tenant sku v name' by') → answers !! j = Some (Val b) → False.
Proof using EL PO DL others_follow.
  revert d answers d' i. induction requests as [|[c0 request] rest IH]; intros d answers d' i H Hc Hty Hi Ha; [done|].
  apply Forall_cons in Hty as [Hty Htys]. cbn in H, Hty. destruct (serve r request c0 d) as [[o c1] d1] eqn:E1. destruct (serve_all (serve r) rest d1) as [os d2] eqn:E2.
  injection H as <- <-. pose proof (serve_follows _ _ _ _ _ _ Hty Hc E1) as Hf. destruct i as [|i]; cbn in Hi, Ha.
  - injection Hi as -> ->. injection Ha as ->. destruct (serve_rename _ _ _ _ _ _ _ _ _ _ Hc Hty E1) as (-> & Hs & Hpos & t1 & old & Hf1 & Hso & Hvo & Hko & Hlo & Hf2).
    split; [done|]. intros j cj name' by' b Hj Hr Hb. destruct j as [|j]; [lia|]. cbn in Hr, Hb. destruct (Hf Hc) as [Hc1 _].
    destruct (proj2 (Hf2 (catalog_insert _ _ (proj1 (Hf1 Hc)) Hs)) _ Hs) as (item' & Hs' & Hk' & Hl' & Hr'); [apply lookup_insert_eq|].
    eapply (overtaken _ _ _ _ tenant sku v item' E2); try done. pose proof (rank_next v Hty Hpos) as Hlt. cbn in Hr'. lia.
  - destruct (IH _ _ _ i E2 (proj1 (Hf Hc)) Htys Hi Ha) as [-> Hno]. split; [done|]. intros j cj name' by' b Hj Hr Hb.
    destruct j as [|j]; [lia|]. eapply (Hno j); [lia|done..].
Qed.

(** C14: Of the updates of one item that expect the same version, in any sequence of calls of the repository with other
    clients of the table between and during them, at most one succeeds; it answers the item under the next version with the name and
    author it was given. *)
Theorem one_update_per_version requests d answers d' tenant sku v i j ci cj name name' by_ by' a b :
  serve_all (serve r) requests d = (answers, d') → catalog (rows d) → Forall (λ call, typed call.2) requests →
  requests !! i = Some (ci, Rename tenant sku v name by_) → answers !! i = Some (Val a) →
  requests !! j = Some (cj, Rename tenant sku v name' by') → answers !! j = Some (Val b) →
  i = j ∧ a = Renamed (mkItem tenant sku name (int_incr v) by_).
Proof using EL PO DL others_follow.
  intros H Hc Hty Hi Ha Hj Hb. destruct (nth_rename _ _ _ _ _ _ _ _ _ _ _ _ H Hc Hty Hi Ha) as [-> Hi'].
  destruct (nth_rename _ _ _ _ _ _ _ _ _ _ _ _ H Hc Hty Hj Hb) as [_ Hj']. split; [|done].
  destruct (lt_eq_lt_dec i j) as [[Hlt|?]|Hlt]; [|done|]; exfalso; [by eapply Hi'|by eapply Hj'].
Qed.

(** The item is there, at its version or a later one. *)
Definition reached (new : CatalogItem) (t : Rows) : Prop :=
  ∃ item, stored item ∧ item_key item = item_key new ∧ t !! item_key new = Some (encodeItem item) ∧ rank (ci_Version new) <= rank (ci_Version item).
Lemma reached_follows new t t' : catalog t → follows t t' → reached new t → reached new t'.
Proof using Type.
  intros Hc Hf (item & Hs & Hk & Hl & Hr). rewrite <- Hk in Hl. destruct (proj2 (Hf Hc) _ Hs Hl) as (item' & Hs' & Hk' & Hl' & Hr').
  exists item'. rewrite <- Hk. split_and!; [done..|lia].
Qed.
Lemma renamed_reached request c d new c' d' :
  typed request → catalog (rows d) → serve r request c d = (Val (Renamed new), c', d') → reached new (rows d').
Proof using EL PO DL others_follow.
  intros Hty Hc H. destruct request as [item|tenant sku v name by_|tenant].
  1, 3: by apply bind_ret in H as ([] & _ & ?).
  destruct (serve_rename _ _ _ _ _ _ _ _ _ _ Hc Hty H) as ([= ->] & Hs & _ & t1 & old & Hf1 & _ & _ & _ & _ & Hf2).
  pose proof (catalog_insert t1 _ (proj1 (Hf1 Hc)) Hs) as Hc1. eapply reached_follows; [exact Hc1|exact Hf2|].
  eexists. split_and!; [exact Hs|done|by apply lookup_insert_eq|done].
Qed.
Lemma listed_at requests d answers d' tenant i c o :
  serve_all (serve r) requests d = (answers, d') → catalog (rows d) → Forall (λ call, typed call.2) requests →
  requests !! i = Some (c, ListTenant tenant) → answers !! i = Some o →
  ∃ di c' di', follows (rows d) (rows di) ∧ serve r (ListTenant tenant) c di = (o, c', di') ∧
    ∀ k new, (k < i)%nat → answers !! k = Some (Val (Renamed new)) → reached new (rows di).
Proof using EL PO DL others_follow.
  revert d answers d' i. induction requests as [|[c0 request] rest IH]; intros d answers d' i H Hc Hty Hi Ha; [done|].
  apply Forall_cons in Hty as [Hty Htys]. cbn in H, Hty. destruct (serve r request c0 d) as [[o1 c1] d1] eqn:E1. destruct (serve_all (serve r) rest d1) as [os d2] eqn:E2.
  injection H as <- <-. pose proof (proj1 (serve_follows _ _ _ _ _ _ Hty Hc E1 Hc)) as Hc1. destruct i as [|i]; cbn in Hi, Ha.
  - injection Hi as -> ->. injection Ha as ->. exists d, c1, d1. split_and!; [done..|lia].
  - destruct (IH _ _ _ i E2 Hc1 Htys Hi Ha) as (di & c' & di' & Hf & Hq & Hw). pose proof (serve_follows _ _ _ _ _ _ Hty Hc E1) as Hf0.
    exists di, c', di'. split_and!; [by etrans|done|]. intros [|k] new Hk; cbn; [|apply Hw; lia]. intros [= ->].
    eapply reached_follows; [exact Hc1|exact Hf|]. exact (renamed_reached _ _ _ _ _ _ Hty Hc E1).
Qed.

(** C32: A query among such calls reads what the catalog holds at one moment, every update answered before it included: it
    answers every item of the tenant, in the order of their SKUs and each as it is stored, as long as they take at most a
    megabyte; of more it answers the first ones. It never fails to decode an item. *)
Theorem queries_read_the_catalog `{PL : !PageLaws (rp_Table r) rows others} requests d answers d' tenant i c o :
  serve_all (serve r) requests d = (answers, d') → catalog (rows d) → Forall (λ call, typed call.2) requests →
  requests !! i = Some (c, ListTenant tenant) → answers !! i = Some o →
  match o with
  | Val answer => ∃ items unread t, answer = Listed items ∧ catalog t ∧ lists tenant t (items ++ unread) ∧
      (unread = [] ∨ 2 ^ 20 < sum (map item_bytes (items ++ unread))) ∧
      ∀ k new, (k < i)%nat → answers !! k = Some (Val (Renamed new)) → reached new t
  | Fail e => errors_Is e "catalogrepo.ErrDecodeItem" = false
  | Panic => False
  end.
Proof using EL PO DL others_follow.
  intros H Hc Hty Hi Ha. destruct (listed_at _ _ _ _ _ _ _ _ H Hc Hty Hi Ha) as (di & c' & di' & Hf & (o1 & Hq & ->)%bind_ret & Hw).
  pose proof (proj1 (Hf Hc)) as Hci. destruct o1 as [items|e|]; [|by apply QueryTenant_run in Hq as [? _]|by apply QueryTenant_run in Hq].
  apply QueryTenant_page in Hq as (t & unread & Hft & Hit & Hm); [|done]. exists items, unread, t. split_and!; [done|apply Hft, Hci|done|done|].
  intros k new Hk Hn. eapply reached_follows; [exact Hci|exact Hft|]. by eapply Hw.
Qed.
End Repository.

(** ** A table *)

#[local] Instance demo_expressions : Expressions := {|
  condition e names values raw :=
    if bool_decide (e = "attribute_not_exists(#pk) AND attribute_not_exists(#sk)") then
      match names !! "#pk", names !! "#sk" with Some a, Some b => bool_decide (raw !! a = None ∧ raw !! b = None) | _, _ => false end
    else match names !! "#version", values !! ":expected_version" with Some a, Some v => bool_decide (raw !! a = Some v) | _, _ => false end;
  updated e names values raw :=
    match names !! "#name", names !! "#version", names !! "#updated_by", values !! ":name", values !! ":next_version", values !! ":updated_by" with
    | Some n, Some v, Some u, Some vn, Some vv, Some vu => <[u := vu]> (<[v := vv]> (<[n := vn]> raw))
    | _, _, _, _, _, _ => raw
    end;
  key_condition e names values k :=
    match values !! ":pk", values !! ":item_prefix" with
    | Some (MemberS p), Some (MemberS prefix) => bool_decide (k.1 = p) && starts_with prefix k.2
    | _, _ => false
    end
|}.
#[local] Instance demo_expression_laws : ExpressionLaws.
Proof.
  split; cbn.
  - intros names values raw pk sk -> ->. done.
  - intros names values raw a v -> -> _ _. done.
  - intros names values raw n v u vn vv vu -> -> -> -> -> ->. done.
  - intros names values p prefix k _ _ -> ->. done.
Qed.

Definition demo_conflict : GoError := Sentinel "types.ConditionalCheckFailedException" "The conditional request failed".
Definition demo_write {A} (step : Rows → option (A * Rows)) : GoM Rows A := λ c t,
  match step t with Some (a, t') => (Val a, c, t') | None => (Fail demo_conflict, c, t) end.
(** The first rows that fit into so many bytes. *)
Fixpoint fitting (bytes : Z) (rows : list (Key * Attributes)) : list (Key * Attributes) :=
  match rows with
  | [] => []
  | row :: rest => if row_bytes row.2 <=? bytes then row :: fitting (bytes - row_bytes row.2) rest else []
  end.
Lemma fitting_prefix bytes rows :
  ∃ rest, rows = fitting bytes rows ++ rest ∧ (rest = [] ∨ bytes < sum (map row_bytes (map snd (fitting bytes rows) ++ map snd rest))).
Proof.
  assert (∀ raw, 0 <= row_bytes raw) as Hpos.
  { intros raw. apply (map_fold_weak_ind (λ n _, 0 <= n)); [lia|]. intros name v m n _ Hn. destruct v; cbn; lia. }
  assert (∀ rows, 0 <= sum (map row_bytes rows)) as Hsum.
  { intros l. induction l as [|raw l IH]; cbn; [lia|]. specialize (Hpos raw). lia. }
  revert bytes. induction rows as [|[k raw] rows IH]; intros bytes; [exists []; by split; [|left]|]. cbn [fitting snd].
  destruct (Z.leb_spec (row_bytes raw) bytes) as [Hle|Hgt].
  - destruct (IH (bytes - row_bytes raw)) as (rest & He & Hr). exists rest. split; [cbn; by rewrite <- He|]. destruct Hr as [->|Hr]; [by left|right].
    cbn [app map sum snd]. lia.
  - exists ((k, raw) :: rows). split; [done|]. right. cbn [app map sum snd]. specialize (Hsum (map snd rows)). lia.
Qed.
Definition demo_query (bytes : Z) (input : QueryInput) : GoM Rows (list Attributes) := λ c t,
  let rows := filter (λ row : Key * Attributes, key_condition (qi_KeyConditionExpression input) (qi_Names input) (qi_Values input) row.1 = true) (map_to_list t) in
  (Val (map snd (fitting bytes (sort_by (key_less (λ row : Key * Attributes, row.1.2)) rows))), c, t).
(** A table without other clients, whose queries answer pages of so many bytes. *)
Definition demo_client (bytes : Z) : Client Rows :=
  {| PutItem input := demo_write (put_step input); UpdateItem input := demo_write (update_step input); Query := demo_query bytes |}.

Lemma demo_conflict_foreign : foreign demo_conflict.
Proof. by repeat constructor. Qed.
Lemma demo_write_conditional {A} (step : Rows → option (A * Rows)) c t o c' t' : demo_write step c t = (o, c', t') → conditional eq step t o t'.
Proof.
  unfold demo_write. destruct (step t) as [[a t1]|] eqn:E1; intros [= <- _ <-]; [by eapply took|].
  by eapply refused; [apply demo_conflict_foreign| | |].
Qed.
Lemma demo_paged bytes input c t page c' t' :
  demo_query bytes input c t = (Val page, c', t') →
  t' = t ∧ ∃ unread, paged input t page unread ∧ (unread = [] ∨ bytes < sum (map row_bytes (page ++ unread))).
Proof.
  intros [= <- _ <-]. split; [done|]. set (rows := filter _ _). set (sorted := sort_by _ rows).
  destruct (fitting_prefix bytes sorted) as (rest & He & Hr). exists (map snd rest). split; [|by destruct Hr as [->|?]; [left|right]].
  exists (fitting bytes sorted), rest. rewrite <- He. split_and!; [done|done|..].
  - unfold sorted. rewrite sort_by_perm. apply filter_fmap_nodup, NoDup_fst_map_to_list.
  - apply sort_by_sorted, _.
  - intros k raw. unfold sorted. rewrite elem_of_sort_by. unfold rows. rewrite list_elem_of_filter, elem_of_map_to_list. naive_solver.
Qed.
Lemma demo_laws bytes table : DynamoLaws table (H := demo_client bytes) id eq.
Proof.
  split.
  - intros input c t o c' t' _ _. apply demo_write_conditional.
  - intros input c t o c' t' _ _ _. apply demo_write_conditional.
  - intros input c t o c' t' _ _ Hq. destruct o as [page| |]; [|done..]. apply demo_paged in Hq as [-> (unread & Hp & _)].
    exists t. split_and!; [done|by exists unread|done].
Qed.
Lemma demo_pages table : PageLaws table (H := demo_client (2 ^ 20)) id eq.
Proof.
  split. intros input c t page c' t' _ _ [-> (unread & Hp & Hw)]%demo_paged. by exists t, unread.
Qed.

Definition demo_repository : Repository := mkRepository "catalog".
Definition demo_item (sku : string) (version : Z) : CatalogItem := mkItem "tenant-alpha" sku "Road bike" version "seed".
Definition demo_run (page : Z) (requests : list Request) : list (Outcome Answer) * Rows :=
  serve_all (serve (CL := demo_client page) demo_repository) (map (pair Background) requests) ∅.
Lemma empty_catalog : catalog ∅.
Proof. apply map_Forall_empty. Qed.

Definition demo_requests : list Request :=
  [Create (demo_item "sku-1001" 1); Rename "tenant-alpha" "sku-1001" 1 "Gravel bike" "ops"; Rename "tenant-alpha" "sku-1001" 1 "Bike" "web";
   ListTenant "tenant-alpha"].
Definition demo_renamed : CatalogItem := mkItem "tenant-alpha" "sku-1001" "Gravel bike" 2 "ops".
Lemma demo_requests_typed : Forall (λ call, typed call.2) (map (pair Background) demo_requests).
Proof. by repeat constructor. Qed.
Lemma one_update_per_version_witness :
  1%nat = 1%nat ∧ Renamed demo_renamed = Renamed (mkItem "tenant-alpha" "sku-1001" "Gravel bike" (int_incr 1) "ops").
Proof.
  apply (one_update_per_version (CL := demo_client (2 ^ 20)) demo_repository (rows := id) (others := eq) (DL := demo_laws (2 ^ 20) "catalog")
    (λ t t' H, eq_ind t (follows t) (reflexivity t) t' H)
    (map (pair Background) demo_requests) ∅ (demo_run (2 ^ 20) demo_requests).1 (demo_run (2 ^ 20) demo_requests).2
    "tenant-alpha" "sku-1001" 1 1 1 Background Background "Gravel bike" "Gravel bike" "ops" "ops" (Renamed demo_renamed) (Renamed demo_renamed)).
  - apply surjective_pairing.
  - apply empty_catalog.
  - apply demo_requests_typed.
  - reflexivity.
  - vm_compute. reflexivity.
  - reflexivity.
  - vm_compute. reflexivity.
Defined.
Lemma queries_read_the_catalog_witness :
  ∃ items unread t, Listed [demo_renamed] = Listed items ∧ catalog t ∧ lists "tenant-alpha" t (items ++ unread) ∧
    (unread = [] ∨ 2 ^ 20 < sum (map item_bytes (items ++ unread))) ∧
    ∀ k new, (k < 3)%nat → (demo_run (2 ^ 20) demo_requests).1 !! k = Some (Val (Renamed new)) → reached new t.
Proof.
  apply (queries_read_the_catalog (CL := demo_client (2 ^ 20)) demo_repository (rows := id) (others := eq) (DL := demo_laws (2 ^ 20) "catalog")
    (λ t t' H, eq_ind t (follows t) (reflexivity t) t' H) (PL := demo_pages "catalog")
    (map (pair Background) demo_requests) ∅ (demo_run (2 ^ 20) demo_requests).1 (demo_run (2 ^ 20) demo_requests).2
    "tenant-alpha" 3 Background (Val (Listed [demo_renamed]))).
  - apply surjective_pairing.
  - apply empty_catalog.
  - apply demo_requests_typed.
  - reflexivity.
  - vm_compute. reflexivity.
Defined.

(** The code reads one page: what is behind it is not listed. *)
Lemma queries_stop_at_a_page :
  (demo_run 150 [Create (demo_item "sku-1001" 1); Create (demo_item "sku-1002" 1); ListTenant "tenant-alpha"]).1
  = [Val Created; Val Created; Val (Listed [demo_item "sku-1001" 1])].
Proof. vm_compute. reflexivity. Qed.
(** An update of the largest version stores the smallest, which no update can expect. *)
Lemma last_version_locks_item :
  take 3 (demo_run (2 ^ 20) [Create (demo_item "sku-1001" (2 ^ 63 - 1)); Rename "tenant-alpha" "sku-1001" (2 ^ 63 - 1) "Gravel bike" "ops";
    Rename "tenant-alpha" "sku-1001" (- 2 ^ 63) "Bike" "ops"]).1
  = [Val Created; Val (Renamed (mkItem "tenant-alpha" "sku-1001" "Gravel bike" (- 2 ^ 63) "ops"));
     Fail (invalid "%w: update requires tenant_id, sku, positive expected version, name, and updated_by")].
Proof. vm_compute. reflexivity. Qed.
