(* ===== verification/TaskQueue.v ===== *)
(** examples/sqs-floci-worker/internal/taskqueue/queue.go: tasks in an SQS queue, received one at a time and deleted when
    their handler has succeeded. The client, the handler and the JSON of a task are parameters. *)
From Stdlib Require Import Ascii String.
From S2P Require Import Prelude.

Definition defaultWaitTimeSeconds : Z := 2.
Definition defaultVisibilitySeconds : Z := 30.
Definition defaultFailureVisibleSeconds : Z := 0.
Definition ErrInvalidTask : GoError := Sentinel "taskqueue.ErrInvalidTask" "taskqueue: invalid task".
Definition ErrNoMessages : GoError := Sentinel "taskqueue.ErrNoMessages" "taskqueue: no messages".
Definition invalid (text : string) : GoError := Errorf text [ErrInvalidTask] [].

(** ** Data *)

Record Queue := mkQueue { qu_QueueURL : string; qu_WaitTimeSeconds : Z; qu_VisibilitySeconds : Z; qu_FailureVisibleSeconds : Z }.
Record FulfillmentTask := mkTask { ft_TenantID : string; ft_OrderID : string; ft_Step : string; ft_IdempotencyKey : string }.
Definition zero_task : FulfillmentTask := mkTask "" "" "" "".
Record EnqueuedTask := mkEnqueued { et_MessageID : string; et_IdempotencyKey : string }.
Record WorkResult := mkResult {
  wr_Task : FulfillmentTask; wr_MessageID : string; wr_ReceiptHandle : string; wr_Acked : bool; wr_RetryVisible : bool;
  wr_Failure : string; wr_NoMessage : bool; wr_VisibilitySeconds : Z
}.
Definition zero_result : WorkResult := mkResult zero_task "" "" false false "" false 0.
Record Preview := mkPreview { pv_QueueName : string; pv_Operations : list string; pv_DeliverySemantics : list string; pv_SmokeTest : string }.

Definition url_required : GoError := invalid "%w: queue_url is required".
Definition NewQueue (queueURL : string) (waitTimeSeconds visibilitySeconds failureVisibleSeconds : Z) : GoError + Queue :=
  if bool_decide (queueURL = "") then inl url_required
  else inr (mkQueue queueURL
    (if waitTimeSeconds <=? 0 then defaultWaitTimeSeconds else waitTimeSeconds)
    (if visibilitySeconds <=? 0 then defaultVisibilitySeconds else visibilitySeconds)
    (if failureVisibleSeconds <? 0 then defaultFailureVisibleSeconds else failureVisibleSeconds)).
Definition validate (q : Queue) : option GoError := if bool_decide (qu_QueueURL q = "") then Some url_required else None.
Definition validateTask (task : FulfillmentTask) : option GoError :=
  if bool_decide (ft_TenantID task = "") || bool_decide (ft_OrderID task = "") || bool_decide (ft_Step task = "") || bool_decide (ft_IdempotencyKey task = "")
  then Some (invalid "%w: tenant_id, order_id, step, and idempotency_key are required") else None.
(** [time.Duration(q.FailureVisibleSeconds) * time.Second]. *)
Definition RetryDelay (q : Queue) : Z := int_mul (qu_FailureVisibleSeconds q) 1000000000.

(** ** Clients *)

Record SendMessageInput := mkSend { sm_QueueUrl : string; sm_MessageBody : string; sm_MessageAttributes : gmap string string }.
Record ReceiveMessageInput := mkReceive {
  rm_QueueUrl : string; rm_MaxNumberOfMessages : Z; rm_WaitTimeSeconds : Z; rm_VisibilityTimeout : Z; rm_MessageAttributeNames : list string
}.
Record Message := mkMessage { ms_MessageId : Ptr string; ms_ReceiptHandle : Ptr string; ms_Body : Ptr string }.
Class Client (D : Type) := {
  SendMessage : SendMessageInput → GoM D (Ptr string);
  ReceiveMessage : ReceiveMessageInput → GoM D (list Message);
  DeleteMessage (queueURL receiptHandle : string) : GoM D unit;
  ChangeMessageVisibility (queueURL receiptHandle : string) (visibilityTimeout : Z) : GoM D unit
}.
(** [encoding/json] of a task. *)
Class TaskCodec := { Marshal : FulfillmentTask → GoError + string; Unmarshal : string → GoError + FulfillmentTask }.
(** [aws.ToString]. *)
Definition ToString (p : Ptr string) : string := default "" p.
Abbreviation Handler D := (FulfillmentTask → GoM D unit) (only parsing).

(** ** The queue *)

Section Operations.
Context {D : Type} `{CL : !Client D} `{TC : TaskCodec} `{GU : GoUnicode}.

Definition send_input (q : Queue) (task : FulfillmentTask) (body : string) : SendMessageInput :=
  mkSend (qu_QueueURL q) body
    (<["content-type" := "application/json"]> (<["event-type" := "fulfillment.task"]> {["idempotency-key" := ft_IdempotencyKey task]})).
Definition Enqueue (q : Queue) (task : FulfillmentTask) : GoM D EnqueuedTask :=
  do! ctxErr;
  do! fail_if (validate q);
  do! fail_if (validateTask task);
  let! body := or_fail (λ err, Errorf "marshal task %s: %w" [err] [FStr (ft_IdempotencyKey task)]) (Marshal task) in
  settle (SendMessage (send_input q task body))
    (λ err, throw (Errorf "send task %s: %w" [err] [FStr (ft_IdempotencyKey task)]))
    (λ messageId, ret (mkEnqueued (ToString messageId) (ft_IdempotencyKey task))).

Definition decodeTask (message : Message) : GoError + FulfillmentTask :=
  let body := ToString (ms_Body message) in
  if bool_decide (body = "") then inl (invalid "%w: message body is empty")
  else
    try! task := wrapping (λ err, Errorf "%w: decode message body: %w" [ErrInvalidTask; err] []) (Unmarshal body) in
    try! _ := check (validateTask task) in
    inr task.

Definition ack (q : Queue) (receiptHandle : string) : GoM D unit :=
  if bool_decide (receiptHandle = "") then throw (invalid "%w: receipt handle is required for ack")
  else settle (DeleteMessage (qu_QueueURL q) receiptHandle) (λ err, throw (Errorf "delete task message: %w" [err] [])) ret.
Definition retrySoon (q : Queue) (receiptHandle : string) : GoM D unit :=
  if bool_decide (receiptHandle = "") then throw (invalid "%w: receipt handle is required for retry")
  else settle (ChangeMessageVisibility (qu_QueueURL q) receiptHandle (qu_FailureVisibleSeconds q))
    (λ err, throw (Errorf "change failed task visibility: %w" [err] [])) ret.

(** What [PollOnce] does with a failure: the message is made visible again, and [err] returned. *)
Definition with_failure (cause : GoError) (r : WorkResult) : WorkResult :=
  mkResult (wr_Task r) (wr_MessageID r) (wr_ReceiptHandle r) (wr_Acked r) (wr_RetryVisible r) (Error cause) (wr_NoMessage r) (wr_VisibilitySeconds r).
Definition with_retry (q : Queue) (r : WorkResult) : WorkResult :=
  mkResult (wr_Task r) (wr_MessageID r) (wr_ReceiptHandle r) (wr_Acked r) true (wr_Failure r) (wr_NoMessage r) (qu_FailureVisibleSeconds q).
Definition retried (q : Queue) (result : WorkResult) (cause err : GoError) : GoM D (WorkResult * option GoError) :=
  let result := with_failure cause result in
  settle (retrySoon q (wr_ReceiptHandle result)) (λ retryErr, ret (result, Some retryErr)) (λ _, ret (with_retry q result, Some err)).

(** The part of [PollOnce] behind the receipt of a message. *)
Definition with_task (task : FulfillmentTask) (r : WorkResult) : WorkResult :=
  mkResult task (wr_MessageID r) (wr_ReceiptHandle r) (wr_Acked r) (wr_RetryVisible r) (wr_Failure r) (wr_NoMessage r) (wr_VisibilitySeconds r).
Definition with_acked (r : WorkResult) : WorkResult :=
  mkResult (wr_Task r) (wr_MessageID r) (wr_ReceiptHandle r) true (wr_RetryVisible r) (wr_Failure r) (wr_NoMessage r) (wr_VisibilitySeconds r).
Definition handle_message (q : Queue) (handler : Handler D) (message : Message) : GoM D (WorkResult * option GoError) :=
  let result := mkResult zero_task (ToString (ms_MessageId message)) (ToString (ms_ReceiptHandle message)) false false "" false 0 in
  match decodeTask message with
  | inl err => retried q result err err
  | inr task =>
      let result := with_task task result in
      settle (handler task)
        (λ err, retried q result err (Errorf "handle task %s: %w" [err] [FStr (ft_IdempotencyKey task)]))
        (λ _, settle (ack q (wr_ReceiptHandle result)) (λ err, ret (result, Some err)) (λ _, ret (with_acked result, None)))
  end.

Definition receive_input (q : Queue) : ReceiveMessageInput :=
  mkReceive (qu_QueueURL q) 1 (qu_WaitTimeSeconds q) (qu_VisibilitySeconds q) ["All"].
Definition PollOnce (q : Queue) (handler : Ptr (Handler D)) : GoM D (WorkResult * option GoError) :=
  settle (do! ctxErr; fail_if (validate q)) (λ err, ret (zero_result, Some err)) (λ _,
  match handler with
  | None => ret (zero_result, Some (invalid "%w: handler is required"))
  | Some handler =>
      settle (ReceiveMessage (receive_input q))
        (λ err, ret (zero_result, Some (Errorf "receive task: %w" [err] [])))
        (λ messages,
          match messages with
          | [] => ret (mkResult zero_task "" "" false false "" true 0, Some ErrNoMessages)
          | message :: _ => handle_message q handler message
          end)
  end).

(** The calls of producers and workers. *)
Inductive Request := EnqueueTask (task : FulfillmentTask) | Poll (handler : Ptr (Handler D)).
Inductive Answer := Enqueued (task : EnqueuedTask) | Polled (result : WorkResult) (err : option GoError).
Definition serve (q : Queue) (request : Request) : GoM D Answer :=
  match request with
  | EnqueueTask task => let! e := Enqueue q task in ret (Enqueued e)
  | Poll handler => let! r := PollOnce q handler in ret (Polled r.1 r.2)
  end.
End Operations.
#[global] Arguments Request : clear implicits.

(** ** The preview *)

Definition NewPreview (queueName : string) : Preview :=
  mkPreview queueName
    ["Enqueue serializes a fulfillment task and idempotency key";
     "PollOnce receives one visible message with long polling";
     "handler success deletes the SQS message";
     "handler failure changes visibility so the message can retry"]
    ["SQS is at-least-once: handlers must be idempotent";
     "delete is the acknowledgement boundary";
     "visibility timeout is retry control, not a transaction";
     "Floci supplies only local endpoint and test credentials"]
    "BLUETAPE_SQS_FLOCI_WORKER_SMOKE=1 go test -run TestFlociSmoke -count=1 ./examples/sqs-floci-worker/...".
Definition SampleTasks : list FulfillmentTask :=
  [mkTask "tenant-alpha" "order-1001" "reserve-inventory" "tenant-alpha/order-1001/reserve-inventory";
   mkTask "tenant-alpha" "order-1002" "capture-payment" "tenant-alpha/order-1002/capture-payment"].
