(* ===== verification/TaskQueueProofs.v ===== *)
(** The task queue between any producers and workers: a message is acknowledged only when a handler has succeeded on the
    task it carries, and an enqueued task is in the queue under its message. *)
From Stdlib Require Import Ascii String.
From S2P Require Import Prelude TaskQueue.

(** ** The service *)

(** What a queue keeps: the bodies of the messages sent to it, the message of each receipt handle, the messages that were
    deleted; and the tasks on which a handler has succeeded, which the handlers keep. *)
Record Books := mkBooks { bk_sent : gmap string string; bk_handles : gmap string string; bk_acked : gset string; bk_handled : list FulfillmentTask }.
Definition send_book (id body : string) (b : Books) : Books := mkBooks (<[id := body]> (bk_sent b)) (bk_handles b) (bk_acked b) (bk_handled b).
Definition issue_book (handles : gmap string string) (b : Books) : Books := mkBooks (bk_sent b) handles (bk_acked b) (bk_handled b).
Definition ack_book (id : string) (b : Books) : Books := mkBooks (bk_sent b) (bk_handles b) ({[id]} ∪ bk_acked b) (bk_handled b).

Section Service.
Context {D : Type} `{CL : !Client D} `{TC : TaskCodec}.
Definition task_of (body : string) : GoError + FulfillmentTask := decodeTask (mkMessage None None (Some body)).
(** Every deleted message carried a task that was handled. *)
Definition accounted (b : Books) : Prop :=
  ∀ id, id ∈ bk_acked b → ∃ body task, bk_sent b !! id = Some body ∧ task_of body = inr task ∧ task ∈ bk_handled b.
Record grows (b b' : Books) : Prop := {
  gr_sent : bk_sent b ⊆ bk_sent b'; gr_handles : bk_handles b ⊆ bk_handles b'; gr_handled : bk_handled b ⊆ bk_handled b';
  gr_accounted : accounted b → accounted b'
}.
#[export] Instance grows_preorder : PreOrder grows.
Proof.
  split.
  - intros b. by split.
  - intros b1 b2 b3 [S1 H1 T1 A1] [S2 H2 T2 A2]. split; [by etrans..|auto].
Qed.

(** SQS on one queue, between what others do: a message is sent under an identifier of its own, or it is not, whatever
    the answer; a received message has the handle, the identifier and the body of a message that was sent; a deletion
    removes the message of its handle or nothing. *)
Class SqsLaws (url : string) (books : D → Books) (others : Books → Books → Prop) : Prop := {
  send_law input c d o c' d' : sm_QueueUrl input = url → SendMessage input c d = (o, c', d') →
    ∃ b1 b2, others (books d) b1 ∧
      (b2 = b1 ∨ ∃ id, bk_sent b1 !! id = None ∧ b2 = send_book id (sm_MessageBody input) b1) ∧ others b2 (books d') ∧
      ∀ p, o = Val p → ∃ id, p = Some id ∧ bk_sent b2 !! id = Some (sm_MessageBody input);
  receive_law input c d o c' d' : rm_QueueUrl input = url → ReceiveMessage input c d = (o, c', d') →
    ∃ b1 handles, others (books d) b1 ∧ bk_handles b1 ⊆ handles ∧ others (issue_book handles b1) (books d') ∧
      ∀ messages, o = Val messages → Forall (λ m, ∀ handle body, ms_ReceiptHandle m = Some handle → ms_Body m = Some body →
        ∃ id, ms_MessageId m = Some id ∧ handles !! handle = Some id ∧ bk_sent b1 !! id = Some body) messages;
  delete_law handle c d o c' d' : DeleteMessage url handle c d = (o, c', d') →
    ∃ b1 b2, others (books d) b1 ∧ (b2 = b1 ∨ ∃ id, bk_handles b1 !! handle = Some id ∧ b2 = ack_book id b1) ∧ others b2 (books d');
  change_law handle timeout c d o c' d' : ChangeMessageVisibility url handle timeout c d = (o, c', d') → others (books d) (books d')
}.
(** The JSON of a task whose fields are valid UTF-8 is a text that decodes to the task. *)
Definition valid_task (task : FulfillmentTask) : Prop :=
  forallb ValidString [ft_TenantID task; ft_OrderID task; ft_Step task; ft_IdempotencyKey task] = true.
Class TaskCodecLaws : Prop := {
  codec_law task body : valid_task task → Marshal task = inr body → body ≠ "" ∧ Unmarshal body = inr task
}.
End Service.

Lemma grows_send `{TaskCodec} id body b : bk_sent b !! id = None → grows b (send_book id body b).
Proof.
  intros Hn. split; cbn; [by apply insert_subseteq|done|done|]. intros Ha i Hi. destruct (Ha i Hi) as (b0 & task & Hs & ? & ?).
  exists b0, task. split_and!; [|done..]. cbn. rewrite lookup_insert_ne; congruence.
Qed.
Lemma grows_issue `{TaskCodec} handles b : bk_handles b ⊆ handles → grows b (issue_book handles b).
Proof. by intros H0; split. Qed.
Lemma grows_ack `{TaskCodec} id body task b :
  bk_sent b !! id = Some body → task_of body = inr task → task ∈ bk_handled b → grows b (ack_book id b).
Proof.
  intros Hs Ht Hh. split; [done..|]. intros Ha i. cbn. rewrite elem_of_union, elem_of_singleton. intros [-> |Hi]; [by exists body, task|by apply Ha].
Qed.

(** ** Calls *)

Section Calls.
Context {D : Type} `{CL : !Client D} `{TC : TaskCodec} `{GU : GoUnicode} (q : Queue) {books : D → Books} {others : Books → Books → Prop}.
Context `{PO : !PreOrder others} `{SL : !SqsLaws (qu_QueueURL q) books others}.
(** Other producers and workers acknowledge only what was handled. *)
Context (others_grow : ∀ b b', others b b' → grows b b').

(** A handler leaves the queue to others, and when it succeeds its task is handled. *)
Definition lawful (h : FulfillmentTask → GoM D unit) : Prop :=
  ∀ task c d o c' d', h task c d = (o, c', d') → grows (books d) (books d') ∧ (o = Val tt → task ∈ bk_handled (books d')).
#[local] Instance books_preorder : PreOrder (λ d d', grows (books d) (books d')).
Proof using Type. split; [intros d; reflexivity|intros d1 d2 d3 H1 H2; by etrans]. Qed.
Definition growing {A} (m : GoM D A) : Prop := moves (λ d d', grows (books d) (books d')) m.

Lemma growing_settle {A B} (m : GoM D A) on_error (k : A → GoM D B) :
  growing m → (∀ e, growing (on_error e)) → (∀ a, growing (k a)) → growing (settle m on_error k).
Proof using Type.
  intros Hm He Hk c d o c' d' (o1 & c1 & d1 & H1%Hm & H)%settle_inv.
  destruct o1 as [a|e|]; [apply Hk in H|apply He in H|by destruct H as (_ & _ & ->)]; cbn in *; by etrans.
Qed.
Lemma growing_ret {A} (a : A) : growing (ret a).
Proof using Type. apply moves_ret. intros d. reflexivity. Qed.
Lemma growing_throw {A} e : growing (throw e : GoM D A).
Proof using Type. apply moves_throw. intros d. reflexivity. Qed.
Lemma growing_retrySoon handle : growing (retrySoon q handle).
Proof using SL others_grow.
  unfold retrySoon. case_bool_decide; [apply growing_throw|]. apply growing_settle; [|intros; apply growing_throw|intros; apply growing_ret].
  intros c d o c' d' H0%change_law. by apply others_grow.
Qed.
Lemma growing_retried result cause err : growing (retried q result cause err).
Proof using SL others_grow. apply growing_settle; [apply growing_retrySoon|intros; apply growing_ret..]. Qed.

(** A message as it was received: its handle stands for a sent message of its body. *)
Definition received (m : Message) (b : Books) : Prop :=
  ∀ handle body, ms_ReceiptHandle m = Some handle → ms_Body m = Some body →
    ∃ id, bk_handles b !! handle = Some id ∧ bk_sent b !! id = Some body.
Lemma received_grows m b b' : grows b b' → received m b → received m b'.
Proof using Type.
  intros [Hs Hh _ _] Hm handle body H1 H2. destruct (Hm _ _ H1 H2) as (id & ? & ?). exists id. split; by eapply lookup_weaken.
Qed.
(** An acknowledgement of a received message whose task was handled. *)
Lemma ack_run m task c d o c' d' :
  received m (books d) → decodeTask m = inr task → task ∈ bk_handled (books d) → ack q (ToString (ms_ReceiptHandle m)) c d = (o, c', d') →
  grows (books d) (books d').
Proof using SL others_grow.
  intros Hm Ht Hh. unfold ack. case_bool_decide as He; [by intros [= _ _ <-]|]. intros (o1 & c1 & d1 & H & H1)%settle_inv.
  assert (d' = d1) as -> by (destruct o1; [by injection H1|by injection H1|by destruct H1 as (_ & _ & ->)]).
  apply delete_law in H as (b1 & b2 & G1%others_grow & Hb & G2%others_grow). destruct Hb as [-> |(id & Hid & ->)]; [by etrans|].
  destruct m as [mid [handle|] [body|]]; [|done..]. change (task_of body = inr task) in Ht.
  destruct (Hm handle body eq_refl eq_refl) as (id' & Hid' & Hs). assert (id' = id) as ->.
  { pose proof (lookup_weaken _ _ _ _ Hid' (gr_handles _ _ G1)) as Hid2. cbn in Hid. congruence. }
  etrans; [exact G1|]. etrans; [|exact G2]. apply (grows_ack id body task); [|done|by apply (gr_handled _ _ G1)].
  by eapply lookup_weaken, (gr_sent _ _ G1).
Qed.
(** What a poll ends with: when it reports that it acknowledged a task, the task was handled. *)
Definition told (o : Outcome (WorkResult * option GoError)) (d d' : D) : Prop :=
  grows (books d) (books d') ∧ ∀ r err, o = Val (r, err) → wr_Acked r = true → err = None ∧ wr_Task r ∈ bk_handled (books d').
Lemma told_idle r err c d o c' d' : wr_Acked r = false → ret (r, err) c d = (o, c', d') → told o d d'.
Proof using Type. intros Ha [= <- _ <-]. split; [done|]. intros r' err' [= <- <-]. congruence. Qed.
Lemma handle_message_run h m c d o c' d' :
  lawful h → received m (books d) → handle_message q h m c d = (o, c', d') → told o d d'.
Proof using PO SL others_grow.
  intros Hh Hm. unfold handle_message.
  assert (∀ result cause err c d o c' d', wr_Acked result = false → retried q result cause err c d = (o, c', d') →
    grows (books d) (books d') ∧ ∀ r err', o = Val (r, err') → wr_Acked r = false) as Hretry.
  { intros result cause err c0 d0 o0 c0' d0' Ha H. split; [by eapply (growing_retried result cause err)|]. intros r err' ->.
    apply settle_inv in H as (o1 & c1 & d1 & _ & H). destruct o1; [by injection H as <- _ _ _|by injection H as <- _ _ _|by destruct H]. }
  destruct (decodeTask m) as [err|task] eqn:Ed.
  - intros H. apply Hretry in H as [HG Hr]; [|done]. split; [done|]. intros r err' Ho Ha. apply Hr in Ho. congruence.
  - intros (o1 & c1 & d1 & H1 & H)%settle_inv. apply Hh in H1 as [G1 Hdone]. destruct o1 as [[]|e|].
    + apply settle_inv in H as (o2 & c2 & d2 & H2 & H). specialize (Hdone eq_refl).
      pose proof (ack_run _ _ _ _ _ _ _ (received_grows _ _ _ G1 Hm) Ed Hdone H2) as G2.
      assert (d' = d2) as -> by (destruct o2; [by injection H|by injection H|by destruct H as (_ & _ & ->)]).
      split; [by etrans|]. intros r err -> Ha. destruct o2 as [[]|e|]; [|injection H as <- _ _; done|by destruct H].
      injection H as <- <- _. split; [done|]. by apply (gr_handled _ _ G2).
    + apply Hretry in H as [HG Hr]; [|done]. split; [by etrans|]. intros r err' Ho Ha. apply Hr in Ho. congruence.
    + destruct H as (-> & _ & ->). done.
Qed.
(** A guard: it reads the context or the arguments and leaves the queue. *)
Definition still {A} (m : GoM D A) : Prop := ∀ c d o c' d', m c d = (o, c', d') → d' = d ∧ o ≠ Panic.
Lemma still_then {A B} (m : GoM D A) (k : A → GoM D B) c d o c' d' :
  still m → bind m k c d = (o, c', d') → (d' = d ∧ ∃ e, o = Fail e) ∨ ∃ a c1, m c d = (Val a, c1, d) ∧ k a c1 d = (o, c', d').
Proof using Type.
  intros Hm [(a & c1 & d1 & H1 & H)|[(e & -> & H1)|[-> H1]]]%bind_inv; destruct (Hm _ _ _ _ _ H1) as [-> ?]; [right; by exists a, c1|left|done].
  split; [done|by exists e].
Qed.
Lemma still_ctxErr : still (ctxErr : GoM D unit).
Proof using Type. intros c d o c' d' [-> [-> |[cause ->]]]%ctxErr_inv; done. Qed.
Lemma still_fail_if e : still (fail_if e : GoM D unit).
Proof using Type. intros c d o c' d'. by destruct e; intros [= <- _ <-]. Qed.
Lemma still_or_fail {A} f (r : GoError + A) : still (or_fail f r : GoM D A).
Proof using Type. intros c d o c' d'. by destruct r; intros [= <- _ <-]. Qed.

Lemma PollOnce_run handler c d o c' d' :
  (∀ h, handler = Some h → lawful h) → PollOnce q handler c d = (o, c', d') → told o d d'.
Proof using PO SL others_grow.
  intros Hh. unfold PollOnce. intros (o1 & c1 & d1 & H1 & H)%settle_inv. assert (d1 = d ∧ o1 ≠ Panic) as [-> Hnp].
  { apply (still_then _ _ _ _ _ _ _ still_ctxErr) in H1 as [(-> & e & ->)|(_ & c2 & _ & H1)]; [done|]. by apply still_fail_if in H1. }
  destruct o1 as [[]|e|]; [|by eapply told_idle in H|done]. destruct handler as [h|]; [|by eapply told_idle in H].
  apply settle_inv in H as (o2 & c2 & d2 & H2 & H). apply receive_law in H2 as (b1 & handles & G1%others_grow & Hhs & G2%others_grow & Hms); [|done].
  assert (grows (books d) (books d2)) as G by (etrans; [exact G1|]; etrans; [by apply grows_issue|exact G2]).
  destruct o2 as [messages|e|]; [|apply told_idle in H as [H Hr]; [|done]; split; [by etrans|done]|by destruct H as (-> & _ & ->)].
  destruct messages as [|m ms]; [apply told_idle in H as [H Hr]; [|done]; split; [by etrans|done]|].
  assert (received m (books d2)) as Hm.
  { specialize (Hms _ eq_refl). apply Forall_cons in Hms as [Hm _]. intros handle body H3 H4. destruct (Hm _ _ H3 H4) as (id & _ & H5 & H6).
    exists id. split; [exact (lookup_weaken _ _ _ _ H5 (gr_handles _ _ G2))|exact (lookup_weaken _ _ _ _ H6 (gr_sent _ _ G2))]. }
  apply handle_message_run in H as [G3 Hr]; [|by apply Hh|done]. split; [by etrans|done].
Qed.
Lemma Enqueue_run `{TL : !TaskCodecLaws} task c d o c' d' :
  Enqueue q task c d = (o, c', d') →
  grows (books d) (books d') ∧
  ∀ e, o = Val e → valid_task task → ∃ body, bk_sent (books d') !! et_MessageID e = Some body ∧ task_of body = inr task.
Proof using PO SL others_grow.
  unfold Enqueue. intros [(-> & e & ->)|(_ & c1 & _ & H)]%(still_then _ _ _ _ _ _ _ still_ctxErr); [done|].
  apply (still_then _ _ _ _ _ _ _ (still_fail_if _)) in H as [(-> & e & ->)|(_ & c2 & _ & H)]; [done|].
  apply (still_then _ _ _ _ _ _ _ (still_fail_if _)) in H as [(-> & e & ->)|([] & c3 & Hv & H)]; [done|].
  apply (still_then _ _ _ _ _ _ _ (still_or_fail _ _)) in H as [(-> & e & ->)|(body & c4 & Hb & H)]; [done|].
  assert (validateTask task = None) as Hvt by (by destruct (validateTask task)).
  assert (Marshal task = inr body) as Hm by (unfold or_fail, ret, throw in Hb; destruct (Marshal task); congruence).
  apply settle_inv in H as (o1 & c5 & d5 & H1 & H). apply send_law in H1 as (b1 & b2 & G1%others_grow & Hs & G2%others_grow & Hid); [|done].
  assert (grows b1 b2) as G by (destruct Hs as [-> |(id & Hn & ->)]; [done|by apply grows_send]).
  assert (d' = d5) as -> by (destruct o1; [by injection H|by injection H|by destruct H as (_ & _ & ->)]). split; [etrans; [exact G1|]; by etrans|].
  intros e -> Htask. destruct o1 as [p|e'|]; [injection H as <- _|done|by destruct H]. destruct (Hid _ eq_refl) as (mid & -> & Hb2).
  exists body. split; [exact (lookup_weaken _ _ _ _ Hb2 (gr_sent _ _ G2))|]. destruct (codec_law _ _ Htask Hm) as [Hne Hun].
  unfold task_of, decodeTask. cbn [ms_Body ToString default]. change (id body) with body. rewrite bool_decide_false by done. rewrite Hun. cbn. by rewrite Hvt.
Qed.

Definition lawful_request (request : Request D) : Prop := match request with EnqueueTask _ => True | Poll h => ∀ h', h = Some h' → lawful h' end.
(** What an answer says of the books from then on. *)
Definition answer_holds (request : Request D) (o : Outcome Answer) (b : Books) : Prop :=
  match request, o with
  | EnqueueTask task, Val (Enqueued e) => valid_task task → ∃ body, bk_sent b !! et_MessageID e = Some body ∧ task_of body = inr task
  | Poll _, Val (Polled r err) => wr_Acked r = true → err = None ∧ wr_Task r ∈ bk_handled b
  | _, _ => True
  end.
Lemma queue_serve_answers `{TL : !TaskCodecLaws} request c d o c' d' :
  lawful_request request → serve q request c d = (o, c', d') → grows (books d) (books d') ∧ answer_holds request o (books d').
Proof using PO SL others_grow.
  intros Hl. destruct request as [task|h]; cbn [serve].
  - intros [(a & c1 & d1 & [HG He]%Enqueue_run & [= <- _ <-])|[(e & -> & [HG _]%Enqueue_run)|[-> [HG _]%Enqueue_run]]]%bind_inv; [|done..].
    split; [done|]. cbn. by apply He.
  - intros [([r err] & c1 & d1 & [HG Ht]%PollOnce_run & [= <- _ <-])|[(e & -> & [HG _]%PollOnce_run)|[-> [HG _]%PollOnce_run]]]%bind_inv; try done.
    split; [done|]. cbn. by apply Ht.
Qed.
Lemma answer_grows request o b b' : grows b b' → answer_holds request o b → answer_holds request o b'.
Proof using Type.
  intros [Hs _ Ht _]. destruct request as [task|h], o as [[e|r err]|e|]; cbn; try done.
  - intros H Hv. destruct (H Hv) as (body & ? & ?). exists body. split; [by eapply lookup_weaken|done].
  - intros H Ha. destruct (H Ha). split; [done|by apply Ht].
Qed.

(** C15: In any sequence of enqueues and polls, with other producers and workers of the queue between and during them, a
    message is deleted only when a handler has succeeded on the task it carries. An enqueued task is in the queue under the
    message it was answered with, which stays until the task is handled, and a poll that reports an acknowledgement has
    handled the task it reports. *)
Theorem tasks_are_acknowledged_once_handled `{TL : !TaskCodecLaws} requests d answers d' :
  serve_all (serve q) requests d = (answers, d') → accounted (books d) → Forall (λ call, lawful_request call.2) requests →
  accounted (books d') ∧
  (∀ i c task e, requests !! i = Some (c, EnqueueTask task) → answers !! i = Some (Val (Enqueued e)) → valid_task task →
    ∃ body, bk_sent (books d') !! et_MessageID e = Some body ∧ task_of body = inr task ∧
      (et_MessageID e ∈ bk_acked (books d') → task ∈ bk_handled (books d'))) ∧
  ∀ i c h r err, requests !! i = Some (c, Poll h) → answers !! i = Some (Val (Polled r err)) → wr_Acked r = true →
    err = None ∧ wr_Task r ∈ bk_handled (books d').
Proof using PO SL others_grow.
  intros Hrun Ha Hl.
  destruct (serve_all_answers (λ d d', grows (books d) (books d')) lawful_request (λ request o d, answer_holds request o (books d))
    (serve q) requests d answers d' queue_serve_answers (λ request o d d', answer_grows request o _ _) Hl Hrun) as [HG HP].
  assert (accounted (books d')) as Ha' by (by apply (gr_accounted _ _ HG)). split_and!; [done| |].
  - intros i c task e Hr Ho Hv. destruct (HP _ _ _ _ Hr Ho Hv) as (body & Hs & Ht). exists body. split_and!; [done..|].
    intros Hi. destruct (Ha' _ Hi) as (body' & task' & Hs' & Ht' & Hin). assert (body' = body) as -> by congruence. congruence.
  - intros i c h r err Hr Ho. exact (HP _ _ _ _ Hr Ho).
Qed.
End Calls.

(** ** A queue *)

Definition plain_codec : TaskCodec := {|
  Marshal t := inr (write_fields [ft_TenantID t; ft_OrderID t; ft_Step t; ft_IdempotencyKey t]);
  Unmarshal body :=
    match read_fields 4 body with
    | Some [t; o; s; k] => inr (mkTask t o s k)
    | _ => inl (plain_error "unexpected end of JSON input")
    end
|}.
#[local] Existing Instance plain_codec.
#[local] Existing Instance plain_unicode.
Lemma task_codec_laws : TaskCodecLaws.
Proof.
  split. intros task body _ H. set (fields := [ft_TenantID task; ft_OrderID task; ft_Step task; ft_IdempotencyKey task]).
  assert (body = write_fields fields) as -> by (by injection H). split; [by destruct (ft_TenantID task)|].
  pose proof (read_write_fields fields : read_fields 4 (write_fields fields) = Some fields) as E.
  unfold Unmarshal, plain_codec. revert E. generalize (write_fields fields). intros text ->. by destruct task.
Qed.

Definition demo_send (input : SendMessageInput) : GoM Books (Ptr string) := λ c b,
  let id := pretty (N.of_nat (size (bk_sent b))) in
  match bk_sent b !! id with
  | None => (Val (Some id), c, send_book id (sm_MessageBody input) b)
  | Some _ => (Fail (plain_error "RequestThrottled"), c, b)
  end.
(** The first message that is not deleted, visible whether it was received before or not. *)
Definition demo_receive (input : ReceiveMessageInput) : GoM Books (list Message) := λ c b,
  match filter (λ m, m.1 ∉ bk_acked b) (map_to_list (bk_sent b)) with
  | [] => (Val [], c, b)
  | (id, body) :: _ =>
      match bk_handles b !! id with
      | None => (Val [mkMessage (Some id) (Some id) (Some body)], c, issue_book (<[id := id]> (bk_handles b)) b)
      | Some id' => if decide (id' = id) then (Val [mkMessage (Some id) (Some id) (Some body)], c, b) else (Val [], c, b)
      end
  end.
Definition demo_client : Client Books := {|
  SendMessage := demo_send; ReceiveMessage := demo_receive;
  DeleteMessage _ handle := λ c b, (Val tt, c, match bk_handles b !! handle with Some id => ack_book id b | None => b end);
  ChangeMessageVisibility _ _ _ := λ c b, (Val tt, c, b)
|}.
#[local] Existing Instance demo_client.
Lemma queue_laws url : SqsLaws url id eq.
Proof.
  split; cbn.
  - intros input c b o c' b' _. unfold demo_send. set (mid := pretty _). destruct (bk_sent b !! mid) eqn:E; intros [= <- _ <-].
    + exists b, b. split_and!; [done|by left|done|done].
    + exists b, (send_book mid (sm_MessageBody input) b). split_and!; [done|by right; exists mid|done|].
      intros p [= <-]. exists mid. split; [done|]. apply lookup_insert_eq.
  - intros input c b o c' b' _. unfold demo_receive. destruct (filter _ _) as [|[mid body] ms] eqn:Ef.
    { intros [= <- _ <-]. exists b, (bk_handles b). split_and!; [done|done|by destruct b|]. by intros messages [= <-]. }
    assert (bk_sent b !! mid = Some body) as Hs.
    { assert ((mid, body) ∈ filter (λ m : string * string, m.1 ∉ bk_acked b) (map_to_list (bk_sent b))) as Hin by (rewrite Ef; by left).
      apply list_elem_of_filter in Hin as [_ Hin]. by apply elem_of_map_to_list. }
    destruct (bk_handles b !! mid) as [mid'|] eqn:Eh; [case_decide as Hd|]; intros [= <- _ <-].
    + subst. exists b, (bk_handles b). split_and!; [done|done|by destruct b|]. intros messages [= <-]. constructor; [|done]. cbn. intros handle body' [= <-] [= <-]. eauto.
    + exists b, (bk_handles b). split_and!; [done|done|by destruct b|]. by intros messages [= <-].
    + exists b, (<[mid := mid]> (bk_handles b)). split_and!; [done|by apply insert_subseteq|done|]. intros messages [= <-]. constructor; [|done].
      cbn. intros handle body' [= <-] [= <-]. exists mid. split_and!; [done|by apply lookup_insert_eq|done].
  - intros handle c b o c' b' [= _ _ <-]. exists b. eexists. split_and!; [done| |reflexivity]. destruct (bk_handles b !! handle) eqn:E; [|by left]. right. eauto.
  - by intros handle timeout c b o c' b' [= _ _ <-].
Qed.
(** A handler that fails on one step. *)
Definition demo_handler (task : FulfillmentTask) : GoM Books unit := λ c b,
  if bool_decide (ft_Step task = "fail") then (Fail (plain_error "step failed"), c, b)
  else (Val tt, c, mkBooks (bk_sent b) (bk_handles b) (bk_acked b) (task :: bk_handled b)).
Lemma demo_lawful : lawful (books := id) demo_handler.
Proof.
  intros task c b o c' b'. unfold demo_handler. case_bool_decide; intros [= <- _ <-]; (split; [|try done]); [done| |by left].
  split; cbn; [done|done|by apply list_subseteq_cons|]. intros Ha i Hi. destruct (Ha i Hi) as (body & task' & ? & ? & ?). exists body, task'. split_and!; [done..|by right].
Qed.

Definition demo_queue : Queue := mkQueue "https://sqs/tasks" 2 30 0.
Definition demo_task (step : string) : FulfillmentTask := mkTask "tenant-alpha" "order-1001" step "key-1".
Definition demo_requests : list (Ctx * Request Books) :=
  map (pair Background) [EnqueueTask (demo_task "capture"); Poll (Some demo_handler); Poll (Some demo_handler); EnqueueTask (demo_task "fail"); Poll (Some demo_handler)].
Definition demo_run : list (Outcome Answer) * Books := serve_all (serve demo_queue) demo_requests (mkBooks ∅ ∅ ∅ []).
Definition demo_enqueued : EnqueuedTask := mkEnqueued "0" "key-1".
Example queue_run_answers : demo_run.1 =
  [Val (Enqueued demo_enqueued); Val (Polled (mkResult (demo_task "capture") "0" "0" true false "" false 0) None);
   Val (Polled (mkResult zero_task "" "" false false "" true 0) (Some ErrNoMessages)); Val (Enqueued (mkEnqueued "1" "key-1"));
   Val (Polled (mkResult (demo_task "fail") "1" "1" false true "step failed" false 0) (Some (Errorf "handle task %s: %w" [plain_error "step failed"] [FStr "key-1"])))].
Proof. vm_compute. reflexivity. Qed.
Lemma tasks_are_acknowledged_once_handled_witness :
  accounted demo_run.2 ∧
  (∀ i c task e, demo_requests !! i = Some (c, EnqueueTask task) → demo_run.1 !! i = Some (Val (Enqueued e)) → valid_task task →
    ∃ body, bk_sent demo_run.2 !! et_MessageID e = Some body ∧ task_of body = inr task ∧
      (et_MessageID e ∈ bk_acked demo_run.2 → task ∈ bk_handled demo_run.2)) ∧
  ∀ i c h r err, demo_requests !! i = Some (c, Poll h) → demo_run.1 !! i = Some (Val (Polled r err)) → wr_Acked r = true →
    err = None ∧ wr_Task r ∈ bk_handled demo_run.2.
Proof.
  apply (tasks_are_acknowledged_once_handled demo_queue (books := id) (others := eq) (SL := queue_laws "https://sqs/tasks")
    (λ b b' H, eq_ind b (grows b) (reflexivity b) b' H) (TL := task_codec_laws) demo_requests (mkBooks ∅ ∅ ∅ []) demo_run.1 demo_run.2).
  - apply surjective_pairing.
  - intros i Hi. by apply elem_of_empty in Hi.
  - repeat (apply Forall_nil_2 || apply Forall_cons_2); cbn; try done; intros h' [= <-]; apply demo_lawful.
Defined.
