(* ===== verification/ParallelWork.v ===== *)
(** Works in parallel and by condition, in bluetape-go's workflow package, with the laws its documentation states: works
    as processes that may wait for each other, a runner that cancels the rest of a group when one of them fails, and a
    lawful implementation for groups of two. *)
From Stdlib Require Import Ascii String.
From S2P Require Import Prelude WorkReport.

(** ** Processes *)

Section Processes.
Context {S : Type}.
(** A work under a context it shares: it reports; changes what is shared, or panics; looks at what is shared; asks for
    the error of the context; waits for something that is shared, or for a timer, or for the end of the context. *)
Inductive Proc :=
  | Reports (r : Report)
  | Act (f : S → option S) (k : Proc)
  | Look (f : S → bool) (k : bool → Proc)
  | CtxErr (k : option GoError → Proc)
  | Await (ready : S → bool) (done : GoError → Proc) (k : Proc)
  | Sleep (done : GoError → Proc) (k : Proc).
Inductive proc_step (ended : option GoError) : Proc → S → Proc → S → Prop :=
  | step_act f k s s' : f s = Some s' → proc_step ended (Act f k) s k s'
  | step_look f k s : proc_step ended (Look f k) s (k (f s)) s
  | step_err k s : proc_step ended (CtxErr k) s (k ended) s
  | step_ready ready done k s : ready s = true → proc_step ended (Await ready done k) s k s
  | step_unready ready done k s e : ended = Some e → proc_step ended (Await ready done k) s (done e) s
  | step_timer done k s : proc_step ended (Sleep done k) s k s
  | step_awake done k s e : ended = Some e → proc_step ended (Sleep done k) s (done e) s.
Definition crashes (p : Proc) (s : S) : Prop := match p with Act f _ => f s = None | _ => False end.

(** ** Groups *)

Inductive Member := Running (p : Proc) | Reported (r : Report).
(** What is shared, how the context of the group ended, the works in order, and the first report, in time, of one that
    did not complete. *)
Record Group := mkGroup { gr_state : S; gr_ended : option GoError; gr_members : list Member; gr_first : option Report }.
Definition start (s : S) (works : list Proc) : Group := mkGroup s None (map Running works) None.
(** The runner takes a report and ends the context when the rest is to stop. *)
Definition collect (policy : FailurePolicy) (i : nat) (r : Report) (g : Group) : Group :=
  mkGroup (gr_state g)
    (match gr_ended g with Some e => Some e | None => if halts policy r then Some CtxCanceled else None end)
    (<[i := Reported r]> (gr_members g))
    (match gr_first g with Some x => Some x | None => if decide (completed r) then None else Some r end).
(** Steps of the group itself, which go on as long as there are any. *)
Inductive inner_step (policy : FailurePolicy) : Group → Group → Prop :=
  | inner_proc s ended ms first i p p' s' :
      ms !! i = Some (Running p) → proc_step ended p s p' s' →
      inner_step policy (mkGroup s ended ms first) (mkGroup s' ended (<[i := Running p']> ms) first)
  | inner_report g i r : gr_members g !! i = Some (Running (Reports r)) → inner_step policy g (collect policy i r g).
(** The caller's context may end, with this error, if there is one. *)
Inductive group_step (policy : FailurePolicy) (caller : option GoError) : Group → Group → Prop :=
  | group_inner g g' : inner_step policy g g' → group_step policy caller g g'
  | group_caller s ms first e : caller = Some e → group_step policy caller (mkGroup s None ms first) (mkGroup s (Some e) ms first).
Definition group_steps policy caller : Group → Group → Prop := rtc (group_step policy caller).
Definition all_reported (g : Group) (rs : list Report) : Prop := gr_members g = map Reported rs.
(** However it goes on, the group ends with reports, and no work panics. *)
Inductive settles (policy : FailurePolicy) (caller : option GoError) (g : Group) : Prop :=
  | settles_intro :
      (∀ i p, gr_members g !! i = Some (Running p) → ¬ crashes p (gr_state g)) →
      ((∃ rs, all_reported g rs) ∨ ∃ g', inner_step policy g g') →
      (∀ g', group_step policy caller g g' → settles policy caller g') →
      settles policy caller g.
(** Under the first policy a group reports as the first of its works that did not complete. *)
Definition group_report (name : string) (g : Group) (rs : list Report) : Report :=
  match gr_first g with
  | None => mkReport name StatusCompleted None "" rs
  | Some r => mkReport name (wr_Status r) (wr_Err r) (wr_Reason r) rs
  end.
End Processes.
#[global] Arguments Proc : clear implicits.
#[global] Arguments Group : clear implicits.
#[global] Arguments Member : clear implicits.

(** ** Runners *)

Class RunnerLib (S : Type) := {
  Parallel : string → FailurePolicy → list (Proc S) → GoM S Report;
  Conditional : string → GoM S bool → GoM S Report → GoM S Report → GoM S Report
}.
(** A context may have gone on to its end, unless it has none. *)
Definition later (c c' : Ctx) : Prop := ctx_cause c' = ctx_cause c ∧ (ctx_polls c = None → c' = c).
Definition caller_error (c : Ctx) : option GoError := match ctx_polls c with None => None | Some _ => Some (cause_error (ctx_cause c)) end.
(** A cancelled report without a work behind it. *)
Definition cut (name : string) (e : GoError) (r : Report) : Prop := wr_Name r = name ∧ wr_Status r = StatusCancelled ∧ wr_Err r = Some e.
Class RunnerLaws (S : Type) `{RunnerLib S} : Prop := {
  (** two works that settle are started and waited for, unless the context has ended *)
  parallel_run name w1 w2 c s :
    settles StopOnFailure (caller_error c) (start s [w1; w2]) →
    ∃ r c' s', Parallel name StopOnFailure [w1; w2] c s = (Val r, c', s') ∧ later c c' ∧
      ((∃ e, caller_error c = Some e ∧ cut name e r ∧ s' = s) ∨
       ∃ g rs, group_steps StopOnFailure (caller_error c) (start s [w1; w2]) g ∧ all_reported g rs ∧ s' = gr_state g ∧ r = group_report name g rs);
  (** the predicate decides which one of the works is run; an error of the predicate is reported *)
  conditional_run name predicate yes no c s :
    (∀ c, ∃ o c' s', predicate c s = (o, c', s') ∧ o ≠ Panic ∧ s' = s) →
    (∀ w c, w ∈ [yes; no] → ∃ r c' s', w c s = (Val r, c', s')) →
    ∃ r c' s', Conditional name predicate yes no c s = (Val r, c', s') ∧
      ((∃ e, caller_error c = Some e ∧ cut name e r ∧ s' = s) ∨
       ∃ c1 o c2, later c c1 ∧ predicate c1 s = (o, c2, s) ∧
         match o with
         | Val b => ∃ c3 child, later c2 c3 ∧ (if b then yes else no) c3 s = (Val child, c', s') ∧
             r = mkReport name (wr_Status child) (wr_Err child) (wr_Reason child) [child]
         | Fail e => later c2 c' ∧ s' = s ∧ wr_Name r = name ∧ wr_Status r ∈ [StatusFailed; StatusCancelled] ∧ wr_Err r = Some e ∧ wr_Children r = []
         | Panic => False
         end)
}.

(** ** An implementation *)

Section TwoWorks.
Context {S : Type}.
(** A work on its own, to its report; [None]: it panics or waits for ever. *)
Fixpoint alone (ended : option GoError) (p : Proc S) (s : S) : option (Report * S) :=
  match p with
  | Reports r => Some (r, s)
  | Act f k => match f s with Some s' => alone ended k s' | None => None end
  | Look f k => alone ended (k (f s)) s
  | CtxErr k => alone ended (k ended) s
  | Await ready done k => if ready s then alone ended k s else match ended with Some e => alone ended (done e) s | None => None end
  | Sleep _ k => alone ended k s
  end.
Definition after (i : nat) (r : Report) (s : S) (p : Proc S) : option (Group S) :=
  let g := collect StopOnFailure i r (mkGroup s None (<[i := Running (Reports r)]> [Running p; Running p]) None) in
  match alone (gr_ended g) p s with
  | Some (r', s') => Some (collect StopOnFailure (1 - i) r' (mkGroup s' (gr_ended g) (<[(1 - i)%nat := Running (Reports r')]> (gr_members g)) (gr_first g)))
  | None => None
  end.
(** The first of two goes as far as it can, then the second. *)
Fixpoint both (p1 : Proc S) : Proc S → S → option (Group S) :=
  fix second (p2 : Proc S) (s : S) : option (Group S) :=
    match p1 with
    | Reports r => after 0 r s p2
    | Act f k => match f s with Some s' => both k p2 s' | None => None end
    | Look f k => both (k (f s)) p2 s
    | CtxErr k => both (k None) p2 s
    | Sleep _ k => both k p2 s
    | Await ready _ k =>
        if ready s then both k p2 s
        else match p2 with
             | Reports r => after 1 r s p1
             | Act f k2 => match f s with Some s' => second k2 s' | None => None end
             | Look f k2 => second (k2 (f s)) s
             | CtxErr k2 => second (k2 None) s
             | Sleep _ k2 => second k2 s
             | Await ready2 _ k2 => if ready2 s then second k2 s else None
             end
    end.
Definition reports_of (g : Group S) : list Report := omap (λ m, match m with Reported r => Some r | Running _ => None end) (gr_members g).
Definition plain_parallel (name : string) (policy : FailurePolicy) (works : list (Proc S)) : GoM S Report := λ c s,
  match ctx_poll c with
  | (Some e, c') => (Val (mkReport name StatusCancelled (Some e) "" []), c', s)
  | (None, c') =>
      match works with
      | [w1; w2] => match both w1 w2 s with Some g => (Val (group_report name g (reports_of g)), c', gr_state g) | None => (Panic, c', s) end
      | _ => (Panic, c', s)
      end
  end.
Definition plain_runners : RunnerLib S := {|
  Parallel := plain_parallel;
  Conditional name predicate yes no :=
    settle predicate (λ e, ret (mkReport name StatusCancelled (Some e) "" []))
      (λ b : bool, let! child := if b then yes else no in ret (mkReport name (wr_Status child) (wr_Err child) (wr_Reason child) [child]))
|}.

Context {caller : option GoError}.
Abbreviation Settles := (settles StopOnFailure caller) (only parsing).
Abbreviation Steps := (group_steps StopOnFailure caller) (only parsing).
Lemma settles_inner (g g' : Group S) : Settles g → inner_step StopOnFailure g g' → Settles g'.
Proof. intros [_ _ H] Hs. by apply H, group_inner. Qed.
Lemma settles_proc s ended ms first i (p : Proc S) p' s' :
  Settles (mkGroup s ended ms first) → ms !! i = Some (Running p) → proc_step ended p s p' s' →
  Settles (mkGroup s' ended (<[i := Running p']> ms) first) ∧ Steps (mkGroup s ended ms first) (mkGroup s' ended (<[i := Running p']> ms) first).
Proof.
  intros H Hi Hp. assert (inner_step StopOnFailure (mkGroup s ended ms first) (mkGroup s' ended (<[i := Running p']> ms) first)) as Hs by (by econstructor).
  split; [by eapply settles_inner|]. by apply rtc_once, group_inner.
Qed.
Lemma settles_report g i r :
  Settles g → gr_members g !! i = Some (Running (Reports r)) → Settles (collect (S := S) StopOnFailure i r g) ∧ Steps g (collect StopOnFailure i r g).
Proof.
  intros H Hi. assert (inner_step StopOnFailure g (collect StopOnFailure i r g)) as Hs by (by constructor).
  split; [by eapply settles_inner|]. by apply rtc_once, group_inner.
Qed.

(** The last work that runs. *)
Lemma alone_settles p : ∀ s ended ms first i,
  ms !! i = Some (Running p) → (∀ j q, ms !! j = Some (Running q) → j = i) → Settles (mkGroup s ended ms first) →
  ∃ r s', alone ended p s = Some (r, s') ∧ Settles (mkGroup s' ended (<[i := Running (Reports r)]> ms) first) ∧
    Steps (mkGroup s ended ms first) (mkGroup s' ended (<[i := Running (Reports r)]> ms) first).
Proof.
  assert (∀ p' s s' ended ms first i p0, ms !! i = Some (Running p0) → (∀ j q, ms !! j = Some (Running q) → j = i) →
    Settles (mkGroup s ended ms first) → proc_step ended p0 s p' s' →
    (∀ s ended ms first i, ms !! i = Some (Running p') → (∀ j q, ms !! j = Some (Running q) → j = i) → Settles (mkGroup s ended ms first) →
      ∃ r s', alone ended p' s = Some (r, s') ∧ Settles (mkGroup s' ended (<[i := Running (Reports r)]> ms) first) ∧
        Steps (mkGroup s ended ms first) (mkGroup s' ended (<[i := Running (Reports r)]> ms) first)) →
    ∃ r s2, alone ended p' s' = Some (r, s2) ∧ Settles (mkGroup s2 ended (<[i := Running (Reports r)]> ms) first) ∧
      Steps (mkGroup s ended ms first) (mkGroup s2 ended (<[i := Running (Reports r)]> ms) first)) as Hgo.
  { clear p. intros p' s s' ended ms first i p Hi Hone Hset Hp IH. destruct (settles_proc _ _ _ _ _ _ _ _ Hset Hi Hp) as [Hset' Hst].
    destruct (IH s' ended (<[i := Running p']> ms) first i) as (r & s2 & E & H1 & H2); [| |done|].
    - apply list_lookup_insert_eq. by eapply lookup_lt_Some.
    - intros j q Hj. destruct (decide (j = i)) as [|Hne]; [done|]. rewrite list_lookup_insert_ne in Hj by done. by eapply Hone.
    - rewrite list_insert_insert_eq in H1, H2. exists r, s2. split_and!; [done|done|]. by etrans. }
  induction p as [r|f k IH|f k IH|k IH|ready done IHd k IH|done IHd k IH]; intros s ended ms first i Hi Hone Hset; cbn [alone].
  - exists r, s. rewrite list_insert_id by done. split_and!; [done|done|]. by apply rtc_refl.
  - destruct (f s) as [s'|] eqn:E; [|exfalso; by destruct Hset as [Hc _ _]; eapply Hc]. eapply Hgo; try done. by constructor.
  - eapply Hgo; [done..|by constructor|]. apply IH.
  - eapply Hgo; [done..|by constructor|]. apply IH.
  - destruct (ready s) eqn:E; [eapply Hgo; [done..|by constructor|apply IH]|].
    destruct ended as [e|]; [eapply Hgo; [done..|by constructor|apply IHd]|]. exfalso.
    destruct Hset as [_ [[rs Hall]|[g' Hg]] _].
    + unfold all_reported in Hall. cbn in Hall. rewrite Hall, list_lookup_fmap in Hi. by destruct (rs !! i).
    + inversion Hg as [s0 en ms0 fi j q q' s' Hj Hq|g0 j r Hj]; subst; cbn in Hj; pose proof (Hone _ _ Hj) as ->; rewrite Hi in Hj; [|done].
      injection Hj as <-. inversion Hq; subst; congruence.
  - eapply Hgo; [done..|by constructor|]. apply IH.
Qed.

(** Both work, until one of them is the last. *)
Lemma after_settles i r s (p : Proc S) :
  (i < 2)%nat → Settles (mkGroup s None (<[i := Running (Reports r)]> [Running p; Running p]) None) →
  ∃ g rs, after i r s p = Some g ∧ Steps (mkGroup s None (<[i := Running (Reports r)]> [Running p; Running p]) None) g ∧ all_reported g rs.
Proof.
  intros Hi Hset. unfold after. set (g := mkGroup s None _ None) in *.
  destruct (settles_report g i r Hset) as [Hset1 Hst1].
  { apply list_lookup_insert_eq. done. }
  set (g1 := collect StopOnFailure i r g) in *. destruct (alone_settles p s (gr_ended g1) (gr_members g1) (gr_first g1) (1 - i)) as (r' & s' & E & Hset2 & Hst2).
  { destruct i as [|[|]]; [done|done|lia]. }
  { intros j q. destruct i as [|[|]]; [| |lia]; destruct j as [|[|j]]; done. }
  { done. }
  rewrite E. destruct (settles_report _ (1 - i) r' Hset2) as [Hset3 Hst3].
  { apply list_lookup_insert_eq. destruct i as [|[|]]; cbn; lia. }
  eexists _, (<[i := r]> [r'; r']). split_and!; [done|etrans; [exact Hst1|]; etrans; [exact Hst2|exact Hst3]|].
  destruct i as [|[|]]; [done|done|lia].
Qed.
Lemma both_settles p1 : ∀ p2 s, Settles (start s [p1; p2]) → ∃ g rs, both p1 p2 s = Some g ∧ Steps (start s [p1; p2]) g ∧ all_reported g rs.
Proof.
  assert (∀ (q1 q2 : Proc S) s i p p' s', [Running q1; Running q2] !! i = Some (Running p) → proc_step None p s p' s' → Settles (start s [q1; q2]) →
    Settles (mkGroup s' None (<[i := Running p']> [Running q1; Running q2]) None) ∧
    Steps (start s [q1; q2]) (mkGroup s' None (<[i := Running p']> [Running q1; Running q2]) None)) as Hstep.
  { intros q1 q2 s i p p' s' Hi Hp Hset. by eapply settles_proc. }
  assert (∀ (o : option (Group S)) a b, (Settles b ∧ Steps a b) → (∃ g rs, o = Some g ∧ Steps b g ∧ all_reported g rs) → ∃ g rs, o = Some g ∧ Steps a g ∧ all_reported g rs) as Hgo.
  { intros o a b [_ H1] (g & rs & -> & H2 & H3). exists g, rs. split_and!; [done|by etrans|done]. }
  induction p1 as [r|f k IH|f k IH|k IH|ready done IHd k IH|done IHd k IH]; intros p2 s Hset.
  - assert (both (Reports r) p2 s = after 0 r s p2) as -> by (by destruct p2). apply (after_settles 0); [lia|done].
  - assert (both (Act f k) p2 s = match f s with Some s' => both k p2 s' | None => None end) as -> by (by destruct p2).
    destruct (f s) as [s'|] eqn:E; [|exfalso; destruct Hset as [Hc _ _]; by eapply (Hc 0%nat)].
    pose proof (Hstep _ _ _ 0%nat (Act f k) k s' eq_refl ltac:(by constructor) Hset) as Hn. eapply Hgo; [exact Hn|]. by apply IH, Hn.
  - assert (both (Look f k) p2 s = both (k (f s)) p2 s) as -> by (by destruct p2).
    pose proof (Hstep _ _ _ 0%nat (Look f k) _ s eq_refl ltac:(by constructor) Hset) as Hn. eapply Hgo; [exact Hn|]. by apply IH, Hn.
  - assert (both (CtxErr k) p2 s = both (k None) p2 s) as -> by (by destruct p2).
    pose proof (Hstep _ _ _ 0%nat (CtxErr k) _ s eq_refl ltac:(by constructor) Hset) as Hn. eapply Hgo; [exact Hn|]. by apply IH, Hn.
  - set (p1 := Await ready done k) in *. revert s Hset.
    assert (∀ p2 s, ready s = true → Settles (start s [p1; p2]) → ∃ g rs, both p1 p2 s = Some g ∧ Steps (start s [p1; p2]) g ∧ all_reported g rs) as Hready.
    { intros q2 s Hr Hset. assert (both p1 q2 s = both k q2 s) as -> by (destruct q2; cbn; by rewrite Hr).
      pose proof (Hstep _ _ _ 0%nat p1 k s eq_refl ltac:(by constructor) Hset) as Hn. eapply Hgo; [exact Hn|]. by apply IH, Hn. }
    induction p2 as [r2|f2 k2 IH2|f2 k2 IH2|k2 IH2|ready2 done2 _ k2 IH2|done2 _ k2 IH2]; intros s Hset;
      (destruct (ready s) eqn:Er; [by apply Hready|]).
    + assert (both p1 (Reports r2) s = after 1 r2 s p1) as -> by (cbn; by rewrite Er). apply (after_settles 1); [lia|done].
    + assert (both p1 (Act f2 k2) s = match f2 s with Some s' => both p1 k2 s' | None => None end) as -> by (cbn; by rewrite Er).
      destruct (f2 s) as [s'|] eqn:E; [|exfalso; destruct Hset as [Hc _ _]; by eapply (Hc 1%nat)].
      pose proof (Hstep _ _ _ 1%nat (Act f2 k2) k2 s' eq_refl ltac:(by constructor) Hset) as Hn. eapply Hgo; [exact Hn|]. by apply IH2, Hn.
    + assert (both p1 (Look f2 k2) s = both p1 (k2 (f2 s)) s) as -> by (cbn; by rewrite Er).
      pose proof (Hstep _ _ _ 1%nat (Look f2 k2) _ s eq_refl ltac:(by constructor) Hset) as Hn. eapply Hgo; [exact Hn|]. by apply IH2, Hn.
    + assert (both p1 (CtxErr k2) s = both p1 (k2 None) s) as -> by (cbn; by rewrite Er).
      pose proof (Hstep _ _ _ 1%nat (CtxErr k2) _ s eq_refl ltac:(by constructor) Hset) as Hn. eapply Hgo; [exact Hn|]. by apply IH2, Hn.
    + assert (both p1 (Await ready2 done2 k2) s = if ready2 s then both p1 k2 s else None) as -> by (cbn; by rewrite Er).
      destruct (ready2 s) eqn:E.
      * pose proof (Hstep _ _ _ 1%nat (Await ready2 done2 k2) k2 s eq_refl ltac:(by constructor) Hset) as Hn. eapply Hgo; [exact Hn|]. by apply IH2, Hn.
      * exfalso. destruct Hset as [_ [[[|? [|? ?]] Hall]|[g' Hg]] _]; [done..|].
        inversion Hg as [s0 en ms0 fi j q q' s' Hj Hq|g0 j r Hj]; subst; destruct j as [|[|j]]; try done; injection Hj as <-; inversion Hq; subst; congruence.
    + assert (both p1 (Sleep done2 k2) s = both p1 k2 s) as -> by (cbn; by rewrite Er).
      pose proof (Hstep _ _ _ 1%nat (Sleep done2 k2) k2 s eq_refl ltac:(by constructor) Hset) as Hn. eapply Hgo; [exact Hn|]. by apply IH2, Hn.
  - assert (both (Sleep done k) p2 s = both k p2 s) as -> by (by destruct p2).
    pose proof (Hstep _ _ _ 0%nat (Sleep done k) k s eq_refl ltac:(by constructor) Hset) as Hn. eapply Hgo; [exact Hn|]. by apply IH, Hn.
Qed.
End TwoWorks.

Lemma poll_later c e c' : ctx_poll c = (e, c') → later c c' ∧ match e with Some err => caller_error c = Some err | None => True end.
Proof.
  unfold ctx_poll, later, caller_error. destruct c as [[[|n]|] cause]; intros [= <- <-]; by repeat split.
Qed.
Lemma reports_of_all {S} (g : Group S) rs : all_reported g rs → reports_of g = rs.
Proof. unfold reports_of. intros ->. induction rs as [|r rs IH]; [done|]. cbn. by rewrite IH. Qed.
#[export] Instance plain_runner_laws S : RunnerLaws S (H := plain_runners).
Proof.
  split.
  - intros name w1 w2 c s Hset. cbn. unfold plain_parallel. destruct (ctx_poll c) as [[e|] c1] eqn:Ec; apply poll_later in Ec as [Hl Hc].
    + do 3 eexists. split_and!; [done..|]. left. exists e. by split_and!.
    + destruct (both_settles w1 w2 s Hset) as (g & rs & E & Hst & Hall). rewrite E. do 3 eexists. split_and!; [done..|]. right.
      exists g, rs. by rewrite (reports_of_all _ _ Hall).
  - intros name predicate yes no c s Hp Hw. cbn. unfold settle. destruct (Hp c) as (o & c2 & s2 & E & Hnp & ->). rewrite E.
    destruct o as [b|e|]; [|do 3 eexists; split; [done|]; right; exists c, (Fail e), c2; cbn; split_and!; try done; set_solver|done].
    destruct (Hw (if b then yes else no) c2) as (r & c3 & s3 & Er); [destruct b; set_solver|].
    unfold bind. destruct b; rewrite Er;
      (do 3 eexists; split; [done|]; right; eexists c, (Val _), c2; split_and!; [done|exact E|]; exists c2, r; by split_and!).
Qed.
