(* ===== verification/FulfillmentRunner.v ===== *)
(** examples/fulfillment-workflow-runner/internal/fulfillment/server.go: one workflow per request, in sequence a check of
    the order, two risk checks in parallel, one of which may wait for the other to start, and a shipment by condition. The
    workflow and workreport packages are parameters. *)
From Stdlib Require Import Ascii String.
From S2P Require Import Prelude WorkReport ParallelWork.

Definition Millisecond : Z := 1000000.
Definition defaultMaxInventoryDelay : Z := 2 * 1000000000.
Definition ErrInventoryUnavailable : GoError := Sentinel "fulfillment.ErrInventoryUnavailable" "inventory is unavailable".
Definition ErrPaymentDeclined : GoError := Sentinel "fulfillment.ErrPaymentDeclined" "payment authorization declined".
Definition errInvalidOrderID : GoError := Sentinel "fulfillment.errInvalidOrderID" "order_id is required".
Definition errInvalidInventoryDelay : GoError :=
  Sentinel "fulfillment.errInvalidInventoryDelay" "inventory_delay_ms must be between 0 and the configured maximum".

(** ** Data *)

Record Server := mkServer { sv_maxInventoryDelay : Z }.
Record RunRequest := mkRequest {
  rq_OrderID : string; rq_StockAvailable : bool; rq_PaymentAuthorized : bool; rq_RequiresShipment : bool; rq_InventoryDelayMS : Z
}.
Inductive reportNode := mkNode {
  nd_Name : string; nd_Status : Status; nd_Error : string; nd_Reason : string; nd_Success : bool; nd_Failure : bool; nd_Cancelled : bool;
  nd_Children : list reportNode
}.
Record runResponse := mkResponse { rs_OrderID : string; rs_ShipmentCreated : bool; rs_ShipmentSkipped : bool; rs_Report : reportNode }.
Record errorResponse := mkError { er_Code : string; er_Error : string }.
(** The channel is nil, open or closed. *)
Inductive Channel := NilChannel | OpenChannel | ClosedChannel.
Record fulfillmentRun := mkRun { fr_request : RunRequest; fr_inventoryStarted : Channel; fr_shipmentCreated : bool; fr_shipmentSkipped : bool }.

Definition NewServer (maxInventoryDelay : Z) : Server := mkServer (if maxInventoryDelay <=? 0 then defaultMaxInventoryDelay else maxInventoryDelay).
(** [time.Duration(request.InventoryDelayMS) * time.Millisecond]. *)
Definition delay_of (request : RunRequest) : Z := int_mul (rq_InventoryDelayMS request) Millisecond.
Definition validateRequest (s : Server) (request : RunRequest) : option GoError :=
  if bool_decide (rq_OrderID request = "") then Some errInvalidOrderID
  else if (rq_InventoryDelayMS request <? 0) || (sv_maxInventoryDelay s <? delay_of request)
  then Some (Errorf "%w: got %dms" [errInvalidInventoryDelay] [FInt (rq_InventoryDelayMS request)])
  else None.

(** ** The workflow *)

Section Runner.
Context `{GU : GoUnicode} `{RL : ReportLib} `{WL : !WorkflowLib fulfillmentRun} `{PL : !RunnerLib fulfillmentRun}.
Abbreviation Work := (GoM fulfillmentRun Report) (only parsing).

Definition with_channel (ch : Channel) (r : fulfillmentRun) : fulfillmentRun := mkRun (fr_request r) ch (fr_shipmentCreated r) (fr_shipmentSkipped r).
(** [signalInventoryStarted]; a closed channel cannot be closed again. *)
Definition signalInventoryStarted (r : fulfillmentRun) : option fulfillmentRun :=
  match fr_inventoryStarted r with
  | NilChannel => Some r
  | OpenChannel => Some (with_channel ClosedChannel r)
  | ClosedChannel => None
  end.
Definition reserveInventory (request : RunRequest) : Proc fulfillmentRun :=
  let checked := CtxErr (λ err,
    match err with
    | Some err => Reports (Cancelled "reserve-inventory" err)
    | None =>
        if negb (rq_StockAvailable request) then Reports (Failed "reserve-inventory" ErrInventoryUnavailable)
        else Reports (Completed "reserve-inventory")
    end) in
  Act signalInventoryStarted
    (if 0 <? delay_of request then Sleep (λ err, Reports (Cancelled "reserve-inventory" err)) checked else checked).
Definition has_channel (r : fulfillmentRun) : bool := match fr_inventoryStarted r with NilChannel => false | _ => true end.
Definition inventory_started (r : fulfillmentRun) : bool := match fr_inventoryStarted r with ClosedChannel => true | _ => false end.
Definition authorizePayment (request : RunRequest) : Proc fulfillmentRun :=
  let checked := CtxErr (λ err,
    match err with
    | Some err => Reports (Cancelled "authorize-payment" err)
    | None =>
        if negb (rq_PaymentAuthorized request) then Reports (Failed "authorize-payment" ErrPaymentDeclined)
        else Reports (Completed "authorize-payment")
    end) in
  Look has_channel (λ there,
    if there then Await inventory_started (λ err, Reports (Cancelled "authorize-payment" err)) checked else checked).

Definition validateOrder : Work := ret (Completed "validate-order").
Definition riskChecks : Work :=
  let! r := get in
  do! modify (λ r, if 0 <? rq_InventoryDelayMS (fr_request r) then with_channel OpenChannel r else r);
  Parallel "risk-checks" StopOnFailure [reserveInventory (fr_request r); authorizePayment (fr_request r)].
Definition createShipment : Work :=
  do! modify (λ r, mkRun (fr_request r) (fr_inventoryStarted r) true (fr_shipmentSkipped r));
  ret (Completed "create-shipment").
Definition skipShipment : Work :=
  do! modify (λ r, mkRun (fr_request r) (fr_inventoryStarted r) (fr_shipmentCreated r) true);
  ret (Completed "shipment-skipped").
Definition shipmentDecision : Work :=
  Conditional "shipment-decision" (do! ctxErr; let! r := get in ret (rq_RequiresShipment (fr_request r))) createShipment skipShipment.
Definition runner : Work := Sequential "fulfillment" StopOnFailure [validateOrder; riskChecks; shipmentDecision].

(** ** Requests *)

Definition statusForReport (report : Report) : Z :=
  if IsCancelled report then 408 else if IsSuccess report then 200 else if IsFailure report then 409 else 500.
Fixpoint projectReport (report : Report) : reportNode :=
  mkNode (wr_Name report) (wr_Status report) (match wr_Err report with Some err => Error err | None => "" end) (wr_Reason report)
    (IsSuccess report) (IsFailure report) (IsCancelled report) (map projectReport (wr_Children report)).

Inductive Body := BodyHealth | BodyRun (r : runResponse) | BodyError (r : errorResponse).
Definition writeError (status : Z) (code : string) (err : GoError) : Z * Body := (status, BodyError (mkError code (Error err))).
(** gin binds a JSON body, with a non-empty [order_id], to a request or an error. *)
Definition run (s : Server) (bound : GoError + RunRequest) (c : Ctx) : Outcome (Z * Body) :=
  match bound with
  | inl err => Val (writeError 400 "invalid_request" err)
  | inr request =>
      let request :=
        mkRequest (TrimSpace (rq_OrderID request)) (rq_StockAvailable request) (rq_PaymentAuthorized request) (rq_RequiresShipment request)
          (rq_InventoryDelayMS request) in
      match validateRequest s request with
      | Some err => Val (writeError 400 "invalid_request" err)
      | None =>
          match runner c (mkRun request NilChannel false false) with
          | (Val report, _, r) =>
              Val (statusForReport report, BodyRun (mkResponse (rq_OrderID request) (fr_shipmentCreated r) (fr_shipmentSkipped r) (projectReport report)))
          | (Fail _, _, _) | (Panic, _, _) => Panic
          end
      end
  end.
Inductive HttpRequest := GetHealthz | PostRun (bound : GoError + RunRequest).
Definition serve (s : Server) (request : HttpRequest) (c : Ctx) : Outcome (Z * Body) :=
  match request with GetHealthz => Val (200, BodyHealth) | PostRun bound => run s bound c end.
End Runner.
