(* ===== verification/FulfillmentRunnerProofs.v ===== *)
(** Every run of the fulfillment workflow is answered: the two risk checks, of which one may wait for the other, never wait
    for ever, and a shipment is decided exactly when both have succeeded. *)
From Stdlib Require Import Ascii String.
From S2P Require Import Prelude WorkReport ParallelWork FulfillmentRunner.

Section Checks.
Context `{RL : ReportLib} `{RW : !ReportLaws} (q : RunRequest) (caller : option GoError) (s0 : fulfillmentRun) (no_delay : Prop).
Abbreviation Step := (group_step StopOnFailure caller) (only parsing).

(** ** The stages of the two checks *)

(** What a check may report: it is cancelled only when its context has ended. *)
Inductive outcome (name : string) (flag : bool) (err : GoError) (ended : option GoError) : Report → Prop :=
  | out_completed : flag = true → outcome name flag err ended (Completed name)
  | out_failed : flag = false → outcome name flag err ended (Failed name err)
  | out_cancelled e : ended ≠ None → outcome name flag err ended (Cancelled name e).
Abbreviation of_inventory := (outcome "reserve-inventory" (rq_StockAvailable q) ErrInventoryUnavailable) (only parsing).
Abbreviation of_payment := (outcome "authorize-payment" (rq_PaymentAuthorized q) ErrPaymentDeclined) (only parsing).
(** The last part of a check. *)
Definition checked (name : string) (flag : bool) (failure : GoError) : Proc fulfillmentRun :=
  CtxErr (λ err, match err with
                 | Some err => Reports (Cancelled name err)
                 | None => if negb flag then Reports (Failed name failure) else Reports (Completed name)
                 end).
Abbreviation inventory_checked := (checked "reserve-inventory" (rq_StockAvailable q) ErrInventoryUnavailable) (only parsing).
Abbreviation payment_checked := (checked "authorize-payment" (rq_PaymentAuthorized q) ErrPaymentDeclined) (only parsing).

(** How far a check has come, with the steps it has left, and what that says of the channel. *)
Inductive inventory_at (ended : option GoError) (ch : Channel) : nat → Member fulfillmentRun → Prop :=
  | inv_start : ch ≠ ClosedChannel → inventory_at ended ch 4 (Running (reserveInventory q))
  | inv_sleep : ch ≠ OpenChannel → inventory_at ended ch 3 (Running (Sleep (λ err, Reports (Cancelled "reserve-inventory" err)) inventory_checked))
  | inv_check : ch ≠ OpenChannel → inventory_at ended ch 2 (Running inventory_checked)
  | inv_reports r : ch ≠ OpenChannel → of_inventory ended r → inventory_at ended ch 1 (Running (Reports r))
  | inv_reported r : ch ≠ OpenChannel → of_inventory ended r → inventory_at ended ch 0 (Reported r).
Inductive payment_at (ended : option GoError) (ch : Channel) : nat → Member fulfillmentRun → Prop :=
  | pay_start : payment_at ended ch 4 (Running (authorizePayment q))
  | pay_wait : ch ≠ NilChannel → payment_at ended ch 3 (Running (Await inventory_started (λ err, Reports (Cancelled "authorize-payment" err)) payment_checked))
  | pay_check : payment_at ended ch 2 (Running payment_checked)
  | pay_reports r : of_payment ended r → payment_at ended ch 1 (Running (Reports r))
  | pay_reported r : of_payment ended r → payment_at ended ch 0 (Reported r).

(** The first report that did not complete; without a caller who ends the context it is a failure. *)
Definition first_of (ended : option GoError) (first : option Report) (a b : Member fulfillmentRun) : Prop :=
  match first with
  | None => (caller = None → ended = None) ∧ Forall (λ m, match m with Reported r => completed r | Running _ => True end) [a; b]
  | Some r => (wr_Status r = StatusFailed ∧ rq_StockAvailable q && rq_PaymentAuthorized q = false) ∨ (wr_Status r = StatusCancelled ∧ caller ≠ None)
  end.
Inductive checks_at : nat → Group fulfillmentRun → Prop :=
  | at_stage ch ended first a b n m :
      inventory_at ended ch n a → payment_at ended ch m b → first_of ended first a b → (no_delay → ch = NilChannel) →
      checks_at (n + m + match ended with None => 1 | Some _ => 0 end) (mkGroup (with_channel ch s0) ended [a; b] first).

Lemma outcome_ends name flag err e r : outcome name flag err None r → outcome name flag err (Some e) r.
Proof. intros [H|H|e' H]; by constructor. Qed.
Lemma inventory_ends e ch n a : inventory_at None ch n a → inventory_at (Some e) ch n a.
Proof. intros []; constructor; by try apply outcome_ends. Qed.
Lemma payment_ends e ch n b : payment_at None ch n b → payment_at (Some e) ch n b.
Proof. intros []; constructor; by try apply outcome_ends. Qed.
Lemma checked_reports name flag err ended s p s' :
  proc_step ended (checked name flag err) s p s' → s' = s ∧ ∃ r, p = Reports r ∧ outcome name flag err ended r.
Proof.
  intros H. inversion H; subst. split; [done|]. destruct ended as [e|]; [eexists; split; [done|by constructor]|].
  destruct flag; (eexists; split; [done|by constructor]).
Qed.
(** A step of one check leaves the other where it is. *)
Lemma inventory_step ended ch n p p' s' first b m :
  inventory_at ended ch n (Running p) → payment_at ended ch m b → first_of ended first (Running p) b →
  proc_step ended p (with_channel ch s0) p' s' →
  ∃ ch' n', s' = with_channel ch' s0 ∧ (ch = NilChannel → ch' = NilChannel) ∧ (n' < n)%nat ∧ inventory_at ended ch' n' (Running p') ∧ payment_at ended ch' m b ∧ first_of ended first (Running p') b.
Proof.
  intros Ha Hb Hf Hp. assert (first_of ended first (Running p') b) as Hf'.
  { destruct first; [done|]. destruct Hf as [H1 H2]. split; [done|]. rewrite !Forall_cons in *. tauto. }
  inversion Ha as [Hch|Hch|Hch|r Hch Hr|]; subst.
  - inversion Hp as [f k s1 s1' Hs| | | | | |]; subst. cbn in Hs.
    assert (∃ ch', s' = with_channel ch' s0 ∧ (ch = NilChannel → ch' = NilChannel) ∧ ch' ≠ OpenChannel ∧ payment_at ended ch' m b) as (ch' & -> & Hnil & Hch' & Hb').
    { destruct ch; [injection Hs as <-|injection Hs as <-|done]; [exists NilChannel|exists ClosedChannel]; (split_and!; [done|done|done|]); [done|].
      destruct Hb; by constructor. }
    destruct (0 <? delay_of q); [exists ch', 3%nat|exists ch', 2%nat]; (split_and!; [done|done|lia|by constructor|done..]).
  - inversion Hp as [| | | | |done' k s1|done' k s1 e He]; subst.
    + exists ch, 2%nat. split_and!; [done|done|lia|by constructor|done..].
    + exists ch, 1%nat. split_and!; [done|done|lia|by constructor; [|constructor]|done..].
  - apply checked_reports in Hp as (-> & r & -> & Hr). exists ch, 1%nat. split_and!; [done|done|lia|by constructor|done..].
  - inversion Hp.
Qed.
Lemma payment_step ended ch m p p' s' first a n :
  inventory_at ended ch n a → payment_at ended ch m (Running p) → first_of ended first a (Running p) →
  proc_step ended p (with_channel ch s0) p' s' →
  ∃ m', s' = with_channel ch s0 ∧ (m' < m)%nat ∧ payment_at ended ch m' (Running p') ∧ first_of ended first a (Running p').
Proof.
  intros Ha Hb Hf Hp. assert (first_of ended first a (Running p')) as Hf'.
  { destruct first; [done|]. destruct Hf as [H1 H2]. split; [done|]. rewrite !Forall_cons in *. tauto. }
  inversion Hb as [|Hch| |r Hr|]; subst.
  - inversion Hp as [|f k s1| | | | |]; subst. destruct ch; [exists 2%nat|exists 3%nat|exists 3%nat]; (split_and!; [done|lia|by constructor|done..]).
  - inversion Hp as [| | |rd d k s1 Hrd|rd d k s1 e He| |]; subst.
    + exists 2%nat. split_and!; [done|lia|by constructor|done..].
    + exists 1%nat. split_and!; [done|lia|by constructor; constructor|done..].
  - apply checked_reports in Hp as (-> & r & -> & Hr). exists 1%nat. split_and!; [done|lia|by constructor|done..].
  - inversion Hp.
Qed.

(** Taking a report. *)
Definition ended_by (ended : option GoError) (r : Report) : option GoError :=
  match ended with Some e => Some e | None => if halts StopOnFailure r then Some CtxCanceled else None end.
Definition first_with (first : option Report) (r : Report) : option Report :=
  match first with Some x => Some x | None => if decide (completed r) then None else Some r end.
Lemma collected name flag err ended first a b r :
  outcome name flag err ended r → (flag = false → rq_StockAvailable q && rq_PaymentAuthorized q = false) → first_of ended first a b →
  match first_with first r with
  | None => ended_by ended r = ended ∧ first = None ∧ completed r
  | Some x => first_of (ended_by ended r) (Some x) a b
  end.
Proof.
  intros Hr Hflag Hf. destruct first as [x|]; [exact Hf|]. unfold first_with. destruct Hf as [Hlive _]. destruct Hr as [Ht|Ht|e He].
  - rewrite completed_report. rewrite decide_True by done. split_and!; [by destruct ended|done..].
  - rewrite failed_report. rewrite decide_False by done. left. split; [done|by apply Hflag].
  - rewrite cancelled_report. rewrite decide_False by done. right. split; [done|]. by intros Hc%Hlive.
Qed.
Lemma ended_by_outcome name flag err name' r ended x : outcome name flag err ended x → outcome name' flag err ended r → outcome name flag err (ended_by ended r) x.
Proof. destruct ended as [e|]; [done|]. intros Hx _. cbn. case_match; [by apply outcome_ends|done]. Qed.
Lemma inventory_ended ended ch n a r : inventory_at ended ch n a → inventory_at (ended_by ended r) ch n a.
Proof. destruct ended; [done|]. cbn. case_match; [by apply inventory_ends|done]. Qed.
Lemma payment_ended ended ch n b r : payment_at ended ch n b → payment_at (ended_by ended r) ch n b.
Proof. destruct ended; [done|]. cbn. case_match; [by apply payment_ends|done]. Qed.
Definition live_count (ended : option GoError) : nat := match ended with None => 1 | Some _ => 0 end.
Lemma live_count_ended ended r : (live_count (ended_by ended r) <= live_count ended)%nat.
Proof. destruct ended; [done|]. cbn. case_match; cbn; lia. Qed.

Lemma checks_report i r g n :
  checks_at n g → gr_members g !! i = Some (Running (Reports r)) → ∃ n', (n' < n)%nat ∧ checks_at n' (collect StopOnFailure i r g).
Proof.
  intros [ch ended first a b na nb Ha Hb Hf Hd] Hi. change (match ended with None => 1 | Some _ => 0 end)%nat with (live_count ended) in *.
  cbn [gr_members] in Hi. pose proof (live_count_ended ended r) as Hle. destruct i as [|[|i]]; [| |done].
  - injection Hi as ->. inversion Ha as [|?|?|r' Hch Hr|]; subst.
    exists (0 + nb + live_count (ended_by ended r))%nat. split; [lia|].
    apply (at_stage ch (ended_by ended r) (first_with first r) (Reported r) b 0 nb).
    + apply inventory_ended. by constructor.
    + by apply payment_ended.
    + eapply collected in Hr; [|by intros ->|exact Hf]. destruct (first_with first r) as [x|]; [exact Hr|]. destruct Hr as (-> & -> & Hc).
      destruct Hf as [H1 H2]. split; [done|]. rewrite !Forall_cons in *. tauto.
    + done.
  - injection Hi as ->. inversion Hb as [|?| |r' Hr|]; subst.
    exists (na + 0 + live_count (ended_by ended r))%nat. split; [lia|].
    apply (at_stage ch (ended_by ended r) (first_with first r) a (Reported r) na 0).
    + by apply inventory_ended.
    + apply payment_ended. by constructor.
    + eapply collected in Hr; [|intros ->; apply andb_false_r|exact Hf]. destruct (first_with first r) as [x|]; [exact Hr|]. destruct Hr as (-> & -> & Hc).
      destruct Hf as [H1 H2]. split; [done|]. rewrite !Forall_cons in *. tauto.
    + done.
Qed.
Lemma checks_step n g g' : checks_at n g → Step g g' → ∃ n', (n' < n)%nat ∧ checks_at n' g'.
Proof.
  intros Hat Hs. inversion Hs as [g1 g2 Hin|s ms first e Hc]; subst; [inversion Hin as [s ended ms first i p p' s' Hi Hp|g1' i r Hi]; subst|].
  - inversion Hat as [ch en fi a b na nb Ha Hb Hf Hd]; subst. destruct i as [|[|i]]; cbn in Hi; [| |done]; injection Hi as ->.
    + destruct (inventory_step _ _ _ _ _ _ _ _ _ Ha Hb Hf Hp) as (ch' & n' & -> & Hnil & Hlt & Ha' & Hb' & Hf'). eexists. split; [|apply (at_stage ch'); by auto]. lia.
    + destruct (payment_step _ _ _ _ _ _ _ _ _ Ha Hb Hf Hp) as (m' & -> & Hlt & Hb' & Hf'). eexists. split; [|by apply (at_stage ch)]. lia.
  - by eapply checks_report.
  - inversion Hat as [ch en fi a b na nb Ha Hb Hf Hd]; subst. exists (na + nb + 0)%nat. split; [lia|].
    apply (at_stage ch (Some e)); [by apply inventory_ends|by apply payment_ends| |done]. destruct first; [done|]. destruct Hf as [_ Hf]. split; [congruence|done].
Qed.
Lemma can_step s ended (ms : list (Member fulfillmentRun)) first i p p' s' :
  ms !! i = Some (Running p) → proc_step ended p s p' s' → ∃ g', inner_step StopOnFailure (mkGroup s ended ms first) g'.
Proof. intros Hi Hp. eexists. by econstructor. Qed.
Lemma checks_progress n g :
  checks_at n g → (∀ i p, gr_members g !! i = Some (Running p) → ¬ crashes p (gr_state g)) ∧
    ((∃ rs, all_reported g rs) ∨ ∃ g', inner_step StopOnFailure g g').
Proof.
  intros [ch ended first a b na nb Ha Hb Hf _]. cbn [gr_members gr_state]. split.
  - intros [|[|i]] p; cbn; [| |done]; intros [= ->]; [inversion Ha|inversion Hb]; subst; try (by intros []). by destruct ch.
  - destruct na as [|na'].
    { inversion Ha as [| | | |r Hch Hr]; subst. destruct nb as [|nb'].
      - inversion Hb as [| | | |r' Hr']; subst. left. by exists [r; r'].
      - right. inversion Hb as [|Hn| |r' Hr'|]; subst.
        + eapply (can_step _ _ _ _ 1); [reflexivity|constructor].
        + eapply (can_step _ _ _ _ 1); [reflexivity|constructor; by destruct ch].
        + eapply (can_step _ _ _ _ 1); [reflexivity|constructor].
        + eexists. by apply (inner_report _ _ 1 r'). }
    right. inversion Ha as [Hch|Hch|Hch|r Hch Hr|]; subst.
    + destruct ch; [..|done]; (eapply (can_step _ _ _ _ 0); [reflexivity|by constructor]).
    + eapply (can_step _ _ _ _ 0); [reflexivity|constructor].
    + eapply (can_step _ _ _ _ 0); [reflexivity|constructor].
    + eexists. by apply (inner_report _ _ 0 r).
Qed.
(** The checks never wait for ever. *)
Lemma risk_checks_settle n g : checks_at n g → settles StopOnFailure caller g.
Proof.
  revert g. induction n as [n IH] using lt_wf_ind. intros g Hat. destruct (checks_progress _ _ Hat) as [Hc Hp]. constructor; [done..|].
  intros g' Hs. destruct (checks_step _ _ _ Hat Hs) as (n' & Hlt & Hat'). by apply (IH n').
Qed.
Lemma checks_steps g g' n : checks_at n g → group_steps StopOnFailure caller g g' → ∃ n', checks_at n' g'.
Proof.
  intros Hat Hs. revert n Hat. induction Hs as [g|g g1 g' H _ IH]; intros n Hat; [by exists n|].
  destruct (checks_step _ _ _ Hat H) as (n' & _ & Hat'). by apply (IH n').
Qed.
Definition first_group (ch : Channel) : Group fulfillmentRun := start (with_channel ch s0) [reserveInventory q; authorizePayment q].
Lemma checks_start ch : ch ≠ ClosedChannel → (no_delay → ch = NilChannel) → checks_at 9 (first_group ch).
Proof.
  intros Hch Hd. apply (at_stage ch None None _ _ 4 4); [by constructor|constructor| |done]. split; [done|]. repeat constructor.
Qed.

(** What both report in the end. *)
Inductive verdict (c_ended : Prop) (flag : bool) (r : Report) : Prop :=
  | verdict_completed : completed r → flag = true → verdict c_ended flag r
  | verdict_failed : wr_Status r = StatusFailed → flag = false → verdict c_ended flag r
  | verdict_cancelled : wr_Status r = StatusCancelled → c_ended → verdict c_ended flag r.
Lemma checks_verdict n g rs name :
  checks_at n g → all_reported g rs →
  (∃ ch, gr_state g = with_channel ch s0 ∧ (no_delay → ch = NilChannel)) ∧ verdict (caller ≠ None) (rq_StockAvailable q && rq_PaymentAuthorized q) (group_report name g rs).
Proof.
  intros [ch ended first a b na nb Ha Hb Hf Hd] Hall. split; [by exists ch|]. unfold all_reported in Hall. cbn in Hall.
  destruct rs as [|r1 [|r2 [|]]]; try done. injection Hall as -> ->. unfold group_report. cbn. destruct first as [x|].
  - destruct Hf as [[Hs Hflag]|[Hs Hc]]; [by apply verdict_failed|by apply verdict_cancelled].
  - destruct Hf as [_ Hf]. rewrite !Forall_cons in Hf. destruct Hf as (H1 & H2 & _). apply verdict_completed; [done|].
    inversion Ha as [| | | |r Hch Hr]; subst. inversion Hb as [| | | |r' Hr']; subst. unfold completed in *.
    destruct Hr as [->|?|e ?]; [|by rewrite failed_report in H1|by rewrite cancelled_report in H1].
    destruct Hr' as [->|?|e' ?]; [done|by rewrite failed_report in H2|by rewrite cancelled_report in H2].
Qed.
End Checks.

(** ** A run *)

Section Run.
Context `{GU : GoUnicode} `{RL : ReportLib} `{RW : !ReportLaws} `{WL : !WorkflowLib fulfillmentRun} `{WW : !WorkflowLaws fulfillmentRun}.
Context `{PL : !RunnerLib fulfillmentRun} `{PW : !RunnerLaws fulfillmentRun} (q : RunRequest).

(** Without a delay there is no channel. *)
Definition of_request (r : fulfillmentRun) : Prop := fr_request r = q ∧ (rq_InventoryDelayMS q <= 0 → fr_inventoryStarted r = NilChannel).
Definition shipments (r : fulfillmentRun) : bool * bool := (fr_shipmentCreated r, fr_shipmentSkipped r).
Definition allowed : bool := rq_StockAvailable q && rq_PaymentAuthorized q.
Definition live (c : Ctx) : Prop := ctx_polls c = None.
Lemma live_caller c : live c ↔ caller_error c = None.
Proof using Type. unfold live, caller_error. by destruct (ctx_polls c). Qed.
Lemma later_live c c' : later c c' → live c → live c'.
Proof using Type. unfold live. intros [_ H] Hc. by rewrite (H Hc). Qed.
Lemma looks_kept c c' : looks c c' → live c → live c'.
Proof using Type. unfold live. intros Hl Hc. by rewrite (looks_live _ _ Hc Hl). Qed.

Lemma riskChecks_run c s :
  of_request s → ∃ r c' s', riskChecks c s = (Val r, c', s') ∧ later c c' ∧ of_request s' ∧ shipments s' = shipments s ∧ verdict (¬ live c) allowed r.
Proof using RW WW PW.
  intros [Hq Hch]. unfold riskChecks. cbn. rewrite Hq. set (ch := if 0 <? rq_InventoryDelayMS q then OpenChannel else NilChannel).
  assert ((if 0 <? rq_InventoryDelayMS q then with_channel OpenChannel s else s) = with_channel (if 0 <? rq_InventoryDelayMS q then OpenChannel else fr_inventoryStarted s) s) as ->.
  { destruct (0 <? _); [done|]. by destruct s. }
  assert ((if 0 <? rq_InventoryDelayMS q then OpenChannel else fr_inventoryStarted s) = ch) as ->.
  { unfold ch. destruct (Z.ltb_spec 0 (rq_InventoryDelayMS q)); [done|by apply Hch]. }
  assert (checks_at q (caller_error c) s (rq_InventoryDelayMS q <= 0) 9 (first_group q s ch)) as Hstart.
  { apply checks_start; unfold ch; destruct (Z.ltb_spec 0 (rq_InventoryDelayMS q)); try done; lia. }
  destruct (parallel_run "risk-checks" _ _ _ _ (risk_checks_settle _ _ _ _ _ _ Hstart)) as (r & c' & s' & -> & Hl & H).
  assert (∀ ch', (rq_InventoryDelayMS q <= 0 → ch' = NilChannel) → of_request (with_channel ch' s)) as Hof by (by split).
  exists r, c', s'. split; [done|]. split; [done|]. destruct H as [(e & He & (_ & Hst & _) & ->)|(g & rs & Hst & Hall & -> & ->)].
  - split_and!; [|done|].
    + apply Hof. unfold ch. destruct (Z.ltb_spec 0 (rq_InventoryDelayMS q)); [lia|done].
    + apply verdict_cancelled; [done|]. intros Hlv%live_caller. congruence.
  - destruct (checks_steps _ _ _ _ _ _ _ Hstart Hst) as [n Hat]. destruct (checks_verdict _ _ _ _ _ _ _ "risk-checks" Hat Hall) as [(ch' & -> & Hn) Hv].
    split_and!; [by apply Hof|done|]. destruct Hv as [? ?|? ?|? Hc]; [by apply verdict_completed|by apply verdict_failed|].
    apply verdict_cancelled; [done|]. by intros Hlv%live_caller.
Qed.

(** The decision runs one of two works that never fail, unless the context has ended. *)
Lemma shipmentDecision_run c s :
  of_request s → ∃ r c' s', shipmentDecision c s = (Val r, c', s') ∧ of_request s' ∧
    ((completed r ∧ shipments s' = (if rq_RequiresShipment q then (true, fr_shipmentSkipped s) else (fr_shipmentCreated s, true))) ∨
     (wr_Status r ∈ [StatusFailed; StatusCancelled] ∧ shipments s' = shipments s ∧ ¬ live c)).
Proof using RW WW PW.
  intros Hs. unfold shipmentDecision. set (predicate := (do! ctxErr; _)).
  assert (∀ c, ∃ o c' s', predicate c s = (o, c', s') ∧ o ≠ Panic ∧ s' = s) as Hp.
  { intros c0. unfold predicate, ctxErr, bind. destruct (ctx_poll c0) as [[e|] c1]; cbn; do 3 eexists; (split; [reflexivity|done]). }
  destruct (conditional_run "shipment-decision" predicate createShipment skipShipment c s Hp) as (r & c' & s' & -> & H).
  { intros w c0 Hw. rewrite !elem_of_cons, elem_of_nil in Hw. destruct Hw as [-> |[-> |[]]]; cbn; by do 3 eexists. }
  exists r, c', s'. split; [done|]. destruct H as [(e & He & (_ & Hst & _) & ->)|(c1 & o & c2 & Hl & E & H)].
  - split; [done|]. right. split_and!; [rewrite Hst; set_solver|done|]. intros Hlv%live_caller. congruence.
  - destruct o as [b|e|]; [| |done].
    + assert (b = rq_RequiresShipment q) as ->.
      { unfold predicate, ctxErr, bind in E. destruct (ctx_poll c1) as [[e|] c3]; [done|]. cbn in E. injection E as <- _. f_equal. apply Hs. }
      destruct H as (c3 & child & _ & Ew & ->). destruct (rq_RequiresShipment q); cbn in Ew; injection Ew as <- _ <-; rewrite completed_report;
        (split; [by destruct Hs|]; left; by split).
    + destruct H as (_ & -> & _ & Hst & _). split; [done|]. right. split_and!; [done|done|]. intros Hlv.
      apply (later_live _ _ Hl) in Hlv. unfold predicate, ctxErr, bind, ctx_poll in E. unfold live in Hlv. rewrite Hlv in E. cbn in E. done.
Qed.

Lemma verdict_status P flag r : verdict P flag r → wr_Status r ∈ StatusCompleted :: failures.
Proof using RW WW PW. unfold failures, completed. intros [H _|H _|H _]; rewrite H; set_solver. Qed.
Lemma works_return : Forall (returns of_request) [validateOrder; riskChecks; shipmentDecision].
Proof using RW WW PW.
  repeat constructor.
  - apply completed_returns.
  - intros c s Hs. destruct (riskChecks_run c s Hs) as (r & c' & s' & E & _ & Hs' & _ & Hv). exists r, c', s'. split_and!; [done|done|by eapply verdict_status].
  - intros c s Hs. destruct (shipmentDecision_run c s Hs) as (r & c' & s' & E & Hs' & H). exists r, c', s'. split_and!; [done|done|].
    unfold failures, completed in *. destruct H as [[H _]|[H _]]; [rewrite H|]; set_solver.
Qed.
(** What the run reports of its last work, when that did not complete. *)
Lemma sums_up_last name rs x r : sums_up name StopOnFailure (rs ++ [x]) None r → ¬ completed x → wr_Status r = wr_Status x.
Proof using Type.
  intros [[Hall _]|(rs' & y & Heq & _ & _ & _ & Hs & _)] Hx; [|by apply app_inj_tail in Heq as [_ ->]].
  exfalso. apply Forall_app in Hall as [_ Hall]. by apply Forall_cons in Hall as [? _].
Qed.
Lemma sums_up_completed name rs r : sums_up name StopOnFailure rs None r → Forall completed rs → completed r.
Proof using Type. intros [[_ ->]|(? & ? & _ & ? & _)] Hall; done. Qed.
Lemma poll_live c e c' : ctx_poll c = (Some e, c') → ¬ live c.
Proof using Type. unfold live, ctx_poll. by intros H Hl; rewrite Hl in H. Qed.
Lemma failing_halts r : wr_Status r ∈ [StatusFailed; StatusCancelled] → halts StopOnFailure r = true ∧ ¬ completed r.
Proof using Type. unfold halts, completed. rewrite !elem_of_cons, elem_of_nil. intros [-> |[-> |[]]]; done. Qed.
Lemma completed_goes_on r : completed r → halts StopOnFailure r = false.
Proof using Type. unfold halts, completed. by intros ->. Qed.

(** A run ends in a shipment or its skipping, or in neither. *)
Inductive run_outcome (c : Ctx) (r : Report) (s' : fulfillmentRun) : Prop :=
  | run_completed : completed r → allowed = true → shipments s' = (rq_RequiresShipment q, negb (rq_RequiresShipment q)) → run_outcome c r s'
  | run_stopped : wr_Status r ∈ [StatusFailed; StatusCancelled] → shipments s' = (false, false) →
      (live c → wr_Status r = StatusFailed ∧ allowed = false) → run_outcome c r s'.
Lemma runner_run c : ∃ r c' s', runner c (mkRun q NilChannel false false) = (Val r, c', s') ∧ run_outcome c r s'.
Proof using RW WW PW.
  set (s := mkRun q NilChannel false false). assert (of_request s) as Hs by done. unfold runner.
  destruct (sequential_run of_request "fulfillment" StopOnFailure _ c s Hs works_return) as (r & rs & cut & c' & s' & -> & Hr & Hu).
  exists r, c', s'. split; [done|].
  assert (∀ e rs, sums_up "fulfillment" StopOnFailure rs (Some e) r → shipments s' = (false, false) → ¬ live c → run_outcome c r s') as Hcut.
  { intros e rs0 (_ & Hst & _) Hsh Hl. apply run_stopped; [rewrite Hst; set_solver|done|done]. }
  inversion Hr as [|w ws c0 s0 e c1 Hp|w ws c0 s0 c1 r1 c2 s2 _ E1 Hh|w ws c0 s0 c1 r1 c2 s2 rs2 e c3 s3 Hl1 E1 Hh1 Hr2]; subst.
  { apply (Hcut e []); [done|done|by eapply poll_live]. }
  { exfalso. injection E1 as <- _ _. rewrite completed_report in Hh. done. }
  injection E1 as <- <- <-. clear Hh1.
  inversion Hr2 as [|w ws c0 s0 e1 c4 Hp|w ws c0 s0 c4 r2 c5 s5 Hl2 E2 Hh|w ws c0 s0 c4 r2 c5 s5 rs3 e1 c6 s6 Hl2 E2 Hh2 Hr3]; subst.
  { apply (Hcut e1 [Completed "validate-order"]); [done|done|]. intros Hlv. by eapply poll_live, looks_kept. }
  all: destruct (riskChecks_run c4 s Hs) as (r2' & c5' & s5' & E2' & Hl5 & Hs5 & Hsh5 & Hv); rewrite E2 in E2'; injection E2' as <- <- <-.
  all: assert (live c → live c4) as Hlv4 by (intros Hlv; by apply (looks_kept c1), (looks_kept c)).
  - assert (¬ completed r2) as Hnc by (intros Hc; by rewrite completed_goes_on in Hh).
    pose proof (sums_up_last _ [Completed "validate-order"] r2 r Hu Hnc) as Hst. apply run_stopped; [|done|]; rewrite Hst.
    + destruct Hv as [? ?|H1 _|H1 _]; [done|rewrite H1; set_solver..].
    + intros Hlv. destruct Hv as [?| H1 H2|_ Hn]; [done|done|]. by destruct Hn; apply Hlv4.
  - assert (completed r2 ∧ allowed = true) as [Hc2 Hal].
    { destruct Hv as [? ?|Hst _|Hst _]; [done|..]; (assert (halts StopOnFailure r2 = true) as Hh by (apply failing_halts; rewrite Hst; set_solver)); congruence. }
    inversion Hr3 as [|w ws c0 s0 e1 c7 Hp|w ws c0 s0 c7 r3 c8 s8 Hl3 E3 Hh|w ws c0 s0 c7 r3 c8 s8 rs4 e1 c9 s9 Hl3 E3 Hh3 Hr4]; subst.
    { eapply Hcut; [done|done|]. intros Hlv. eapply poll_live; [exact Hp|]. by apply (later_live _ _ Hl5), Hlv4. }
    all: destruct (shipmentDecision_run c7 s5 Hs5) as (r3' & c8' & s8' & E3' & _ & Hsd); rewrite E3 in E3'; injection E3' as <- <- <-.
    + destruct Hsd as [[Hc3 _]|(Hst3 & Hsh3 & Hn)]; [by rewrite completed_goes_on in Hh|]. destruct (failing_halts _ Hst3) as [_ Hnc].
      pose proof (sums_up_last _ [Completed "validate-order"; r2] r3 r Hu Hnc) as Hst. apply run_stopped; [by rewrite Hst|by rewrite Hsh3, Hsh5|].
      intros Hlv. destruct Hn. by apply (looks_kept _ _ Hl3), (later_live _ _ Hl5), Hlv4.
    + destruct Hsd as [[Hc3 Hsh]|(Hst3 & _)]; [|destruct (failing_halts _ Hst3); congruence]. inversion Hr4; subst.
      apply run_completed; [|done|].
      * eapply sums_up_completed; [exact Hu|]. rewrite completed_report. by repeat constructor.
      * rewrite Hsh. injection Hsh5 as -> ->. by destruct (rq_RequiresShipment q).
Qed.
End Run.

(** ** Answers *)

Section Answers.
Context `{GU : GoUnicode} `{RL : ReportLib} `{RW : !ReportLaws} `{WL : !WorkflowLib fulfillmentRun} `{WW : !WorkflowLaws fulfillmentRun}.
Context `{PL : !RunnerLib fulfillmentRun} `{PW : !RunnerLaws fulfillmentRun}.

Definition trimmed (request : RunRequest) : RunRequest :=
  mkRequest (TrimSpace (rq_OrderID request)) (rq_StockAvailable request) (rq_PaymentAuthorized request) (rq_RequiresShipment request)
    (rq_InventoryDelayMS request).
Lemma status_completed r : completed r → statusForReport r = 200.
Proof using RW. unfold completed, statusForReport. rewrite is_cancelled, is_success. by intros ->. Qed.
Lemma status_not_completed r : wr_Status r ∈ [StatusFailed; StatusCancelled] → statusForReport r = (if decide (wr_Status r = StatusFailed) then 409 else 408).
Proof using RW. unfold statusForReport. rewrite is_cancelled, is_success, is_failure, !elem_of_cons, elem_of_nil. by intros [-> |[-> |[]]]. Qed.

(** C26: Every request for a run is answered, under every context: the risk checks, of which one may wait for the other to
    start, cannot wait for ever, however they interleave and whenever the context ends. A run is answered with 200 exactly
    when its order has been shipped, or needed no shipment, after both checks succeeded; otherwise nothing is shipped and
    the answer is 409 or 408, and without an end of the context 409 because of a check. *)
Theorem runs_are_answered s request c :
  let q := trimmed request in
  ∃ status body, serve s (PostRun (inr request)) c = Val (status, body) ∧
    match validateRequest s q with
    | Some err => (status, body) = writeError 400 "invalid_request" err
    | None => ∃ r, body = BodyRun r ∧ rs_OrderID r = rq_OrderID q ∧
        ((status = 200 ∧ rq_StockAvailable q && rq_PaymentAuthorized q = true ∧
          rs_ShipmentCreated r = rq_RequiresShipment q ∧ rs_ShipmentSkipped r = negb (rq_RequiresShipment q)) ∨
         (status ∈ [408; 409] ∧ rs_ShipmentCreated r = false ∧ rs_ShipmentSkipped r = false ∧
          (live c → status = 409 ∧ rq_StockAvailable q && rq_PaymentAuthorized q = false)))
    end.
Proof using RW WW PW.
  intros q. unfold serve, run. change (mkRequest _ _ _ _ _) with q. destruct (validateRequest s q) as [err|].
  { exists 400, (BodyError (mkError "invalid_request" (Error err))). by split. }
  destruct (runner_run q c) as (r & c' & s' & -> & Ho). do 2 eexists. split; [done|]. eexists. split_and!; [done..|]. cbn.
  destruct Ho as [Hc Hal Hsh|Hst Hsh Hl]; [left|right]; injection Hsh as H1 H2; rewrite H1, H2.
  - by rewrite (status_completed _ Hc).
  - rewrite (status_not_completed _ Hst). split_and!; [case_decide; set_solver|done|done|]. intros Hlv. destruct (Hl Hlv) as [-> Hal]. by rewrite decide_True.
Qed.

(** A delay in milliseconds that fits is bounded by the configured maximum. *)
Lemma validated_delay s q :
  validateRequest s q = None → rq_InventoryDelayMS q <= 2 ^ 63 / Millisecond - 1 → 0 <= delay_of q <= sv_maxInventoryDelay s.
Proof using Type.
  unfold validateRequest. case_bool_decide; [done|]. destruct (Z.ltb_spec (rq_InventoryDelayMS q) 0); [done|]. cbn.
  destruct (Z.ltb_spec (sv_maxInventoryDelay s) (delay_of q)); [done|]. intros _ Hq. split; [|done].
  unfold delay_of, int_mul, Millisecond in *. change (2 ^ 63 / 1000000 - 1) with 9223372036853 in Hq.
  rewrite wrap64_id; [lia|]. unfold in_int64, int_bits. lia.
Qed.
(** One that does not fit wraps around, and is accepted though it is far above the maximum. *)
Lemma overflowing_delay_accepted :
  validateRequest (NewServer 0) (mkRequest "order-1001" true true true 18446744073710) = None ∧
  delay_of (mkRequest "order-1001" true true true 18446744073710) = 448384.
Proof using Type. by vm_compute. Qed.
End Answers.

(** ** Evaluations *)

#[local] Existing Instance plain_unicode.
#[local] Existing Instance plain_reports.
#[local] Existing Instance plain_workflow.
#[local] Existing Instance plain_runners.
Definition demo_request (stock paid : bool) (delay : Z) : RunRequest := mkRequest "order-1001" stock paid true delay.
Definition status_of (o : Outcome (Z * Body)) : option Z := match o with Val (status, _) => Some status | _ => None end.
Definition demo_status (stock paid : bool) (delay : Z) (c : Ctx) : option Z :=
  status_of (serve (NewServer 0) (PostRun (inr (demo_request stock paid delay))) c).
Example run_statuses :
  [demo_status true true 50 Background; demo_status true false 50 Background; demo_status false true 0 Background;
   demo_status true true (-1) Background; demo_status true true 50 {| ctx_polls := Some 2%nat; ctx_cause := ByCancel |}]
  = [Some 200; Some 409; Some 409; Some 400; Some 408].
Proof. vm_compute. reflexivity. Qed.
Lemma runs_are_answered_witness :
  ∃ status body, serve (NewServer 0) (PostRun (inr (demo_request true true 50))) Background = Val (status, body) ∧
    ∃ r, body = BodyRun r ∧ rs_OrderID r = "order-1001" ∧
      ((status = 200 ∧ true = true ∧ rs_ShipmentCreated r = true ∧ rs_ShipmentSkipped r = false) ∨
       (status ∈ [408; 409] ∧ rs_ShipmentCreated r = false ∧ rs_ShipmentSkipped r = false ∧ (live Background → status = 409 ∧ true = false))).
Proof. exact (runs_are_answered (NewServer 0) (demo_request true true 50) Background). Defined.
